(* ===== verification/_CoqProject ===== *)
-Q . S2P
Prelude.v
Memory.v
ByteBuffer.v
Ids.v
ErrorCode.v
IbBuffer.v
IbSocket.v
Batching.v
BatchingSpec.v
BatchingFlow.v
RpcClient.v
RpcClientSpec.v
RpcClientRun.v
RpcClientClaims.v
RpcServer.v
Completion.v
CompletionSpec.v
SocketEvents.v
TaskQueue.v
String.v
StringRep.v
StringData.v
StringOps.v
StringInsert.v
StringSearch.v
StringClaims.v
Serializer.v
SerializerSpec.v
SerializerClaims.v
ConcurrentMap.v
ConcurrentMapSpec.v
ConcurrentMapClaims.v
FixedSizeStack.v
FixedSizeStackSpec.v
SingleConsumerQueue.v
SingleConsumerQueueSpec.v
ChunkAllocator.v
Epoch.v
EpochSpec.v
EpochNodes.v
EpochClaims.v
ProgramOptions.v
ProgramOptionsSpec.v
ProgramOptionsClaims.v
Protocol.v
ProtocolSpec.v
ProtocolClaims.v
Singleton.v
Verbs.v
VerbsSpec.v
VerbsClaims.v
Service.v
ServiceSpec.v
ServiceLife.v
ServiceClaims.v
Endpoint.v
EndpointSpec.v
EndpointClaims.v
Logger.v
LoggerClaims.v
SocketLife.v
SocketLifeClaims.v
StringIo.v
StringIoClaims.v
RpcEndToEnd.v
Fiber.v
FiberSpec.v
FiberInv.v
FiberClaims.v
RpcVoid.v
