(* ===== verification/Prelude.v ===== *)
(** * crossbow: a verification library (root file)

    crossbow is a C++ library of utilities for distributed databases: containers and strings,
    serialization, memory allocators, and [infinio], a messaging layer over Infiniband.  This library
    models its core in the kernel's language and proves what makes it correct.

    ** Parts of the program and their files

    - [Prelude] (this file): machine words ([wrap], [u64], [u32], ...), little-endian
      bytes, the state-and-error monad [St] with outcomes [Ok], [Throw], [UB] and [NoFuel], its weakest
      preconditions [wp] and [wpx], list lemmas, tactics and hint databases.
    - [Memory]: byte-addressed memory, [memcpy], [std::copy], the heap.  [std::allocator] and [operator new] are
      the class [Allocator]; [bump_allocator] is an instance.
    - [ByteBuffer]: crossbow/alignment.hpp and crossbow/byte_buffer.hpp.
    - [Ids]: infinio/MessageId.hpp and WorkRequestId.hpp.  [ErrorCode]: infinio/ErrorCode.hpp.
    - [IbBuffer]: infinio/InfinibandBuffer.hpp and .cpp, and the send buffer pool of DeviceContext.cpp.
    - [IbSocket]: the operations of InfinibandSocket.cpp; the calls into libibverbs and librdmacm are oracles of
      the class [Verbs].
    - [Batching], [BatchingSpec], [BatchingFlow]: infinio/BatchingMessageSocket.hpp.  The derived class (the message
      handler) is the class [MessageHandler].
    - [RpcClient], [RpcClientSpec], [RpcClientRun], [RpcClientClaims]: infinio/RpcClient.hpp and .cpp.  A fiber has a
      status here; the code it runs is a tree of client calls ([prog]); the response classes of an application are the
      class [ResponseHandler].  [RpcVoid]: the response class without a result.
    - [RpcServer]: infinio/RpcServer.hpp, the server socket and its connection manager.
    - [RpcEndToEnd]: client and server together: the requests of a fiber, their answers and the replies, over the streams
      of two batching sockets.  The application of the server is the class [Service], the reader of its replies [Decoder].
    - [Fiber], [FiberSpec], [FiberInv], [FiberClaims]: infinio/Fiber.hpp and .cpp, with stacks, contexts and the fiber cache of
      InfinibandService.cpp.  What a fiber function does between two calls is the class [Application].
    - [Completion], [CompletionSpec]: the completion context and the device of DeviceContext.hpp and .cpp.  The sockets
      they call are the class [SocketCallbacks]; the batching socket is an instance ([batching_callbacks]).
    - [SocketLife], [SocketLifeClaims]: the reference counts of sockets and acceptors, opening and closing, accepting and
      rejecting, and the loop of [InfinibandService::run]; librdmacm is the class [Cm].
    - [SocketEvents]: the connection events of InfinibandSocket.cpp with the batching socket as handler, and their
      dispatch by [InfinibandService::processEvent].
    - [TaskQueue]: infinio/EventProcessor.hpp and .cpp, the poll loop and the task queues of a processor.
    - [String], [StringRep], [StringData], [StringOps], [StringInsert], [StringSearch], [StringClaims]:
      crossbow/string.hpp, [basic_string<char>] with its short-string representation in [Memory].
    - [StringIo], [StringIoClaims]: of crossbow/string.hpp the stream operators, [getline] and the [to_string] functions.
    - [Serializer], [SerializerSpec], [SerializerClaims]: crossbow/Serializer.hpp and crossbow/serializer/*.hpp.
    - [ConcurrentMap], [ConcurrentMapSpec], [ConcurrentMapClaims]: crossbow/concurrent_map.hpp.
    - [FixedSizeStack], [FixedSizeStackSpec]: crossbow/fixed_size_stack.hpp.
    - [SingleConsumerQueue], [SingleConsumerQueueSpec]: crossbow/singleconsumerqueue.hpp.
    - [ChunkAllocator]: libs/allocator/ChunkAllocator.hpp and .cpp.
    - [Epoch], [EpochSpec], [EpochNodes], [EpochClaims]: libs/allocator/allocator.hpp and .cpp.
    - [ProgramOptions], [ProgramOptionsSpec], [ProgramOptionsClaims]: crossbow/program_options.hpp and its directory.
    - [Protocol], [ProtocolSpec], [ProtocolClaims]: crossbow/Protocol.hpp, remote calls over a byte stream, with the
      serializer of [Serializer].
    - [Singleton]: crossbow/singleton.hpp, sequentially under every policy, and on several threads up to the data race.
    - [Verbs], [VerbsSpec], [VerbsClaims]: libs/infinityverbs, completions, memory tokens, queue pairs and work requests.
    - [Service], [ServiceSpec], [ServiceLife], [ServiceClaims]: of infinio the wrappers of verbs objects, the device, the
      completion contexts, the processors and InfinibandService.cpp: who owns what, from construction to
      destruction.  The objects of the system are names in a set of live objects.
    - [Endpoint], [EndpointSpec], [EndpointClaims]: infinio/Endpoint.hpp and .cpp and AddressHelper.cpp, over the string
      objects of [String]; [inet_pton] and [inet_ntop] are the class [Inet].
    - [Logger], [LoggerClaims]: libs/logger on any number of threads; [boost::format] is the class [Format].

    The messaging layer is layered as in the source: a [BatchingMessageSocket] writes messages into buffers of the
    pool ([IbBuffer]) through byte buffers ([ByteBuffer]) over memory ([Memory]), posts them through the socket
    ([IbSocket]), and parses what it receives.  The RPC client and server are its message handlers; the completion
    context calls its callbacks when requests complete and gives their buffers back.  Sequential components run in the monad [St]: a C++ function is a
    definition of the same name, its guards and early returns in the order of the source, undefined behaviour (a
    failed assertion, an access outside every object) explicit.  Concurrent components ([FixedSizeStack],
    [SingleConsumerQueue], [Epoch], [TaskQueue], [Singleton], [Logger]) are step functions of threads that interleave at every access to shared
    memory, which is sequentially consistent; their theorems are about every reachable state.  In [Singleton] the shared
    variables are not atomic, and the interleavings serve to find the conflicting accesses.

    ** What the theorems show

    - Messaging: [writeMessage] keeps the socket's invariant on every path and appends exactly the accepted
      message; a flush posts the pending messages or shuts the connection down; [onReceive] makes exactly the handler
      calls of the messages in a buffer and rejects a truncated one; end to end ([session_delivers])
      what a session accepts is delivered in order and exactly once.  The pool hands out unshared buffers, RDMA
      requests stay inside the remote region unless the address arithmetic wraps.
    - RPC: whatever the fibers do that a callback resumes, a reply completes exactly the response of its request, aborts those
      in front and leaves those behind queued; the end of the connection completes all of them; a fiber always runs until it
      returns or waits, and one that waits for a response waits for a queued request ([cinv] is the invariant behind all
      three).  An error number sent by a server is the one its client sees.  End to end ([rpc_end_to_end]) every request of
      a fiber gets its own answer.
    - Fibers: under the rules of the interface switching between fibers is safe ([fiber_switches_safe]) and fibers are
      coroutines ([fibers_are_coroutines]): each continues where it left off, and the wake-up of a suspended one is in
      the queue it should be in; the exception is [destroyed_condition_strands].
    - Sockets: an object lives as long as something refers to it and is deleted once ([socket_lifetimes]).
    - Completions and connections: one poll gives every completed buffer back exactly once, up to the first callback that
      throws ([poll_returns_buffers], whose conditions on the sockets [batching_callbacks_ok] proves of the batching socket); a
      connection that is set up ends cleanly when the peer disconnects, and after the local shutdown the event that reports
      the end throws ([connection_lifecycle]).  The poll thread never sleeps through a task that was enqueued
      ([tasks_always_run]), but it may sleep with a local task in its queue ([local_task_left_behind]).
    - Strings: every member function computes what the standard prescribes on well-formed objects, with the strong
      exception guarantee, except where the findings say otherwise; searches are compared with declarative
      definitions.  [to_string] ends with the text of the number, which the parsers of program options read back, and a
      string written to a stream is read back.
    - Serialization: [deserialize] inverts [serialize] for every type built from the policies, and the computed size is
      exact.
    - Containers: [concurrent_map] refines a finite map; the stack's slots are exclusive and pushes make progress in
      every interleaving; the queue is first-in first-out in every interleaving of writers and the reader.
    - Allocators: the chunk pool returns disjoint fresh blocks and, when it is destroyed, restores the heap up to one leaked
      block for each request that failed; the epoch allocator
      reclaims no memory a live guard may use as long as rotations do not race with the test of another destructor,
      and [epoch_stale_rotation] is an interleaving where they do.
    - Program options: [parse] accepts exactly the command lines of a declarative grammar, sets what they say, and fails
      as [failure] says on the others; the integer parsers accept exactly the numerals in range.
    - Remote calls: a request and a reply arrive as they were sent, whatever pieces the stream delivers them in.
    - Singleton: one call after the other, at most one object lives and the exit destroys it once ([singleton_lifecycle]);
      first calls on two threads race, in one place only ([instance_races]).
    - infinityverbs: completions are tracked as a set, the token store is a bounded map, connected queue pairs point at
      each other; connecting all machines never returns.
    - Ownership: a service may be destroyed before the processors it made, and in every order exactly what is still referred
      to is alive ([service_lifecycle]); a constructor that throws undoes its members, up to what the findings list
      ([failed_construction_leaks]); the destructor of a processor waits for its poll thread for ever when that sleeps
      ([processor_destructor_waits]).
    - Endpoints and logger: an IPv4 address survives printing and reading ([endpoint_roundtrip]), an IPv6 address never
      does; log lines are whole and in order when levels that share a stream share a mutex ([log_lines_whole]), which the
      default configuration does not provide.
    - Where the code does not do what it means to, a theorem exhibits the behaviour ([string_find_exact],
      [stack_pop_aba], [tryWrite_overwrites], [clear_leaves_entries], [writeMessage_length_wraps],
      [disconnect_loses_wakeup], [stray_reply_aborts_new_requests], [late_completion_stops_poll],
      [connection_events_throw], [manager_shutdown_stops], [all_to_all_never_returns], [endpoint_ipv6_unspecified],
      [default_lines_torn], ...).

    ** Bounds and fuel

    Loops that are not structural take fuel; running out is [NoFuel] (or [None] in [Epoch]), and the theorems
    exclude it: [cstrlen] needs more than the length of the string ([cstrlen_ok]), [receive_loop] one round
    per message and one more, the growth loop of [concurrent_map] at most 64 rounds, [Epoch.destruct] more than
    the number of nodes, [onSyncResponse] and [abort_sync] more than the number of requests they take from the queue,
    [parse_loop] one round per argument and one more, [advance_loop] one per remembered completion, [waitUntilOperationCompleted] one per completion that
    arrives, [as_loop] two rounds.  The depth of
    [RpcClient.resume] is 1: a running fiber of the client resumes no other one; [Fiber] has no such bound, its stacks are data.  Counters of the concurrent components are kept modulo 2^64 (2^32 for the stack's heads); theorems that
    depend on them not wrapping bound the number of operations by 2^62.

    ** Not modelled

    Of infinio the accesses of the poll thread to the pollers while a processor is destroyed: the join at the end of the
    destructor is modelled, what the thread does before is not.  The callbacks of an application in [SocketLife], which do
    nothing there.  Of the serializer the policies for classes with a member [operator&].  The policy [no_locking] of the
    singleton.  Of infinityverbs the sockets that exchange
    connection data, the resolution of addresses and the control of threads.  Of program options the
    floating point parsers.  Examples and tests, and plain configuration structs.  The
    theorems on the whole RPC client are about synchronous requests with a result; its asynchronous requests are defined.
    Wide strings.  The sizes of fiber stacks: a stack never overflows.  What the map leaves out of the files it covers is
    declarations, comments, accessors and type-level code.  Memory orderings weaker than sequential consistency. *)

From Stdlib Require Export ZArith Lia.
From stdpp Require Export base numbers option list gmap tactics.

#[global] Open Scope Z_scope.

(** ** Machine integers

    A [w]-bit unsigned integer is a [Z] in [[0, 2^w)]; every arithmetic result
    the C++ code computes at width [w] is written out with [wrap w]. *)

Definition wrap (w x : Z) : Z := x mod 2 ^ w.

Declare Scope word_scope.
Delimit Scope word_scope with word.
Notation "'u64' x" := (wrap 64 x) (at level 10, x at level 9) : word_scope.
Notation "'u32' x" := (wrap 32 x) (at level 10, x at level 9) : word_scope.
Notation "'u16' x" := (wrap 16 x) (at level 10, x at level 9) : word_scope.
Notation "'u8' x" := (wrap 8 x) (at level 10, x at level 9) : word_scope.
#[global] Open Scope word_scope.

(** The largest value of [size_t]. *)
Definition SIZE_MAX : Z := 2 ^ 64 - 1.

(** Conversion of a value to a signed type of width [w] (two's complement). *)
Definition to_signed (w x : Z) : Z :=
  let r := x mod 2 ^ w in if r <? 2 ^ (w - 1) then r else r - 2 ^ w.

Definition is_byte (b : Z) : Prop := 0 <= b < 256.

#[global] Instance is_byte_dec b : Decision (is_byte b).
Proof. unfold is_byte. apply _. Defined.

Create HintDb crossbow.
Create Rewrite HintDb crossbow_rw.

Lemma wrap_small w x : 0 <= x < 2 ^ w -> wrap w x = x.
Proof. intros H. unfold wrap. by apply Z.mod_small. Qed.

Lemma wrap_range w x : 0 <= w -> 0 <= wrap w x < 2 ^ w.
Proof. intros. unfold wrap. apply Z.mod_pos_bound. lia. Qed.

Lemma wrap_wrap w x : wrap w (wrap w x) = wrap w x.
Proof. unfold wrap. apply Zmod_mod. Qed.

Lemma u64_small x : 0 <= x < 2 ^ 64 -> u64 x = x.
Proof. apply wrap_small. Qed.

Lemma u32_small x : 0 <= x < 2 ^ 32 -> u32 x = x.
Proof. apply wrap_small. Qed.

Lemma u8_small x : 0 <= x < 256 -> u8 x = x.
Proof. apply (wrap_small 8). Qed.

Lemma wrap_is_byte x : is_byte (u8 x).
Proof. apply (wrap_range 8). lia. Qed.
#[export] Hint Resolve wrap_is_byte : crossbow.

(** ** Little-endian words

    [le_bytes n x] are the [n] bytes [memcpy(p, &x, n)] leaves in memory on the
    x86-64 target, [le_val] the value [memcpy(&x, p, n)] reads back. *)

Fixpoint le_bytes (n : nat) (x : Z) : list Z :=
  match n with
  | O => []
  | S k => x mod 256 :: le_bytes k (x / 256)
  end.

Fixpoint le_val (l : list Z) : Z :=
  match l with
  | [] => 0
  | b :: l => b + 256 * le_val l
  end.

Lemma length_le_bytes n x : length (le_bytes n x) = n.
Proof. revert x. induction n; intros; simpl; auto. Qed.

Lemma le_val_bytes n x : le_val (le_bytes n x) = x mod 2 ^ (8 * Z.of_nat n).
Proof.
  revert x. induction n as [|n IH]; intros x.
  { simpl. by rewrite Z.mod_1_r. }
  cbn [le_bytes le_val]. rewrite IH.
  replace (8 * Z.of_nat (S n)) with (8 + 8 * Z.of_nat n) by lia.
  rewrite Z.pow_add_r by lia. change (2 ^ 8) with 256.
  by rewrite Z.rem_mul_r by lia.
Qed.

Lemma le_val_bytes_small n x :
  0 <= x < 2 ^ (8 * Z.of_nat n) -> le_val (le_bytes n x) = x.
Proof. intros. rewrite le_val_bytes. by apply Z.mod_small. Qed.

Lemma le_bytes_is_byte n x : Forall is_byte (le_bytes n x).
Proof.
  revert x. induction n as [|n IH]; intros x; simpl; constructor; auto.
  apply Z.mod_pos_bound. lia.
Qed.
#[export] Hint Resolve le_bytes_is_byte : crossbow.

Lemma le_val_range l :
  Forall is_byte l -> 0 <= le_val l < 2 ^ (8 * Z.of_nat (length l)).
Proof.
  induction 1 as [|b l Hb Hl IH]; [simpl; lia|].
  cbn [length le_val]. replace (8 * Z.of_nat (S (length l))) with (8 + 8 * Z.of_nat (length l)) by lia.
  rewrite Z.pow_add_r by lia. unfold is_byte in Hb. lia.
Qed.

Lemma le_bytes_val l : Forall is_byte l -> le_bytes (length l) (le_val l) = l.
Proof.
  induction 1 as [|b l Hb Hl IH]; [done|].
  cbn [length le_val le_bytes]. unfold is_byte in Hb.
  rewrite (Z.mul_comm 256), Z.mod_add, Z.div_add by lia.
  rewrite Z.mod_small, Z.div_small by lia. by rewrite Z.add_0_l, IH.
Qed.

(** ** Outcomes and the state-and-error monad

    C++ code runs to a value, throws, or has no defined behaviour ([UB]: a read
    or write outside every live object, a failed [assert], flowing off the end of
    a function that returns a value).  [NoFuel] says the bound given to a loop
    that is not structurally bounded ran out; theorems that a routine returns
    exclude it. *)

Inductive exn :=
  | OutOfRange
  | LengthError
  | BadAlloc
  | LogicError
  | InvalidArgument
  | RuntimeError
  | SystemError (code : Z)
  | FutureError (code : Z)
  | ParseError (what : list Z).

#[global] Instance exn_eq_dec : EqDecision exn.
Proof. solve_decision. Defined.

Inductive outcome (S A : Type) :=
  | Ok (a : A) (s : S)
  | Throw (e : exn) (s : S)
  | UB
  | NoFuel.
Arguments Ok {S A} a s.
Arguments Throw {S A} e s.
Arguments UB {S A}.
Arguments NoFuel {S A}.

Definition St (S A : Type) : Type := S -> outcome S A.

(** Value and final state of a run that returned. *)
Definition result {S A} (o : outcome S A) : option A :=
  match o with Ok a _ => Some a | _ => None end.
Definition final {S A} (o : outcome S A) : option S :=
  match o with Ok _ s => Some s | _ => None end.

Section Monad.
Context {S : Type}.

Definition ret {A} (a : A) : St S A := fun s => Ok a s.
Definition throw {A} (e : exn) : St S A := fun s => Throw e s.
Definition ub {A} : St S A := fun _ => UB.
Definition nofuel {A} : St S A := fun _ => NoFuel.
Definition get : St S S := fun s => Ok s s.
Definition put (s : S) : St S unit := fun _ => Ok tt s.
Definition bind {A B} (m : St S A) (f : A -> St S B) : St S B := fun s =>
  match m s with
  | Ok a s' => f a s'
  | Throw e s' => Throw e s'
  | UB => UB
  | NoFuel => NoFuel
  end.
(** [assert(b)]: a failed assertion aborts the program. *)
Definition massert (b : bool) : St S unit := if b then ret tt else ub.

(** [wp m s Q]: run from [s], [m] returns normally, in a state and with a value
    that satisfy [Q].  Total correctness: it excludes [Throw], [UB] and [NoFuel]. *)
Definition wp {A} (m : St S A) (s : S) (Q : A -> S -> Prop) : Prop :=
  match m s with Ok a s' => Q a s' | _ => False end.

Lemma wp_ret {A} (a : A) s (Q : A -> S -> Prop) : Q a s -> wp (ret a) s Q.
Proof. done. Qed.

Lemma wp_bind {A B} (m : St S A) (f : A -> St S B) s Q :
  wp m s (fun a s' => wp (f a) s' Q) -> wp (bind m f) s Q.
Proof. unfold wp, bind. by destruct (m s). Qed.

Lemma wp_mono {A} (m : St S A) s (P Q : A -> S -> Prop) :
  wp m s P -> (forall a s', P a s' -> Q a s') -> wp m s Q.
Proof. unfold wp. destruct (m s); naive_solver. Qed.

Lemma wp_ok {A} (m : St S A) s a s' (Q : A -> S -> Prop) :
  m s = Ok a s' -> Q a s' -> wp m s Q.
Proof. unfold wp. by intros ->. Qed.

Lemma wp_inv {A} (m : St S A) s (Q : A -> S -> Prop) :
  wp m s Q -> exists a s', m s = Ok a s' /\ Q a s'.
Proof. unfold wp. destruct (m s); naive_solver. Qed.

(** [wpx m s Q X]: as [wp], but [m] may also throw, in a state that satisfies [X]. *)
Definition wpx {A} (m : St S A) (s : S) (Q : A -> S -> Prop) (X : exn -> S -> Prop) : Prop :=
  match m s with Ok a s' => Q a s' | Throw e s' => X e s' | _ => False end.

Lemma wpx_bind {A B} (m : St S A) (f : A -> St S B) s Q X :
  wpx m s (fun a s' => wpx (f a) s' Q X) X -> wpx (bind m f) s Q X.
Proof. unfold wpx, bind. by destruct (m s). Qed.

Lemma wpx_mono {A} (m : St S A) s (P Q : A -> S -> Prop) (X Y : exn -> S -> Prop) :
  wpx m s P X -> (forall a s', P a s' -> Q a s') -> (forall e s', X e s' -> Y e s') -> wpx m s Q Y.
Proof. unfold wpx. destruct (m s); naive_solver. Qed.

(** A run that cannot throw satisfies any condition on exceptions. *)
Lemma wpx_wp {A} (m : St S A) s (Q : A -> S -> Prop) (X : exn -> S -> Prop) : wp m s Q -> wpx m s Q X.
Proof. unfold wp, wpx. by destruct (m s). Qed.

Lemma wpx_ok {A} (m : St S A) s a s' (Q : A -> S -> Prop) X :
  m s = Ok a s' -> Q a s' -> wpx m s Q X.
Proof. unfold wpx. by intros ->. Qed.

Lemma wpx_throw {A} (m : St S A) s e s' (Q : A -> S -> Prop) (X : exn -> S -> Prop) :
  m s = Throw e s' -> X e s' -> wpx m s Q X.
Proof. unfold wpx. by intros ->. Qed.

Lemma wp_assert b s (Q : unit -> S -> Prop) : b = true -> Q tt s -> wp (massert b) s Q.
Proof. by intros ->. Qed.

End Monad.

Declare Scope prog_scope.
Delimit Scope prog_scope with prog.
Notation "'let!' x := m 'in' k" := (bind m (fun x => k))
  (at level 10, x pattern, m at level 200, k at level 200,
   format "'[v' 'let!'  x  :=  m  'in' '/' k ']'") : prog_scope.
Notation "'do!' m 'in' k" := (bind m (fun _ => k))
  (at level 10, m at level 200, k at level 200,
   format "'[v' 'do!'  m  'in' '/' k ']'") : prog_scope.
#[global] Open Scope prog_scope.

(** ** Tactics

    [wpb] moves through the binds of a program, [wpr] closes a final [ret]. *)

Ltac wpb :=
  cbv beta iota; repeat lazymatch goal with |- wp (bind _ _) _ _ => apply wp_bind; cbv beta iota end.
Ltac wpxb :=
  cbv beta iota; repeat lazymatch goal with |- wpx (bind _ _) _ _ _ => apply wpx_bind; cbv beta iota end.
(** Runs the first operation by an equation. *)
Tactic Notation "wpx_run" uconstr(H) := wpxb; eapply wpx_ok; [apply H|]; cbv beta iota.
Ltac wpr := apply wp_ret.
Tactic Notation "wpm" uconstr(H) := eapply wp_mono; [apply H|].

(** Turns boolean comparisons of the code into propositions. *)
Ltac bool_prop :=
  repeat match goal with
  | H : (_ <=? _) = true |- _ => apply Z.leb_le in H
  | H : (_ <=? _) = false |- _ => apply Z.leb_gt in H
  | H : (_ <? _) = true |- _ => apply Z.ltb_lt in H
  | H : (_ <? _) = false |- _ => apply Z.ltb_ge in H
  | H : (_ =? _) = true |- _ => apply Z.eqb_eq in H
  | H : (_ =? _) = false |- _ => apply Z.eqb_neq in H
  | H : (_ && _)%bool = true |- _ => apply andb_true_iff in H; destruct H
  | H : (_ || _)%bool = false |- _ => apply orb_false_iff in H; destruct H
  | H : negb _ = true |- _ => apply negb_true_iff in H
  | H : negb _ = false |- _ => apply negb_false_iff in H
  end.

(** Splits on the first boolean test of the goal and turns it into a proposition. *)
Ltac case_test :=
  match goal with
  | |- context [if ?b then _ else _] => destruct b eqn:?; bool_prop
  end.

(** ** Lists *)

(** Length as a machine-size integer. *)
Definition zlen {A} (l : list A) : Z := Z.of_nat (length l).

Lemma zlen_nonneg {A} (l : list A) : 0 <= zlen l.
Proof. unfold zlen. lia. Qed.
#[export] Hint Resolve zlen_nonneg : crossbow.

Lemma zlen_app {A} (l k : list A) : zlen (l ++ k) = zlen l + zlen k.
Proof. unfold zlen. rewrite length_app. lia. Qed.

Lemma zlen_le_bytes n x : zlen (le_bytes n x) = Z.of_nat n.
Proof. unfold zlen. by rewrite length_le_bytes. Qed.

Lemma zlen_cons {A} (x : A) l : zlen (x :: l) = 1 + zlen l.
Proof. unfold zlen. simpl. lia. Qed.

(** [splice i k l]: [l] with [k] written over it from position [i] on. *)
Definition splice {A} (i : nat) (k l : list A) : list A :=
  take i l ++ k ++ drop (i + length k) l.

Lemma length_splice {A} i (k l : list A) :
  (i + length k <= length l)%nat -> length (splice i k l) = length l.
Proof. intros. unfold splice. rewrite !length_app, length_take, length_drop. lia. Qed.

Lemma lookup_splice {A} i (k l : list A) j :
  (i + length k <= length l)%nat ->
  splice i k l !! j =
    if decide (i <= j < i + length k)%nat then k !! (j - i)%nat else l !! j.
Proof.
  intros H. unfold splice. case_decide as Hj.
  - rewrite lookup_app_r; rewrite length_take, Nat.min_l by lia; [|lia].
    by rewrite lookup_app_l by lia.
  - destruct (decide (j < i)%nat).
    + rewrite lookup_app_l by (rewrite length_take; lia). by rewrite lookup_take_lt.
    + rewrite lookup_app_r; rewrite length_take, Nat.min_l by lia; [|lia].
      rewrite lookup_app_r by lia. rewrite lookup_drop. f_equal. lia.
Qed.

Lemma splice_nil {A} i (l : list A) : splice i [] l = l.
Proof. unfold splice. simpl. by rewrite Nat.add_0_r, take_drop. Qed.

(** Two writes one behind the other are one write. *)
Lemma splice_app {A} i (k1 k2 l : list A) :
  (i + length k1 + length k2 <= length l)%nat ->
  splice (i + length k1) k2 (splice i k1 l) = splice i (k1 ++ k2) l.
Proof.
  intros H. apply list_eq. intros j.
  rewrite !lookup_splice; rewrite ?length_splice, ?length_app by (rewrite ?length_app; lia); [|lia..].
  repeat case_decide; try lia.
  - rewrite lookup_app_r by lia. f_equal. lia.
  - by rewrite lookup_app_l by lia.
  - done.
Qed.

Lemma take_splice_before {A} i n (k l : list A) :
  (n <= i)%nat -> (i <= length l)%nat -> take n (splice i k l) = take n l.
Proof.
  intros. unfold splice. rewrite take_app_le by (rewrite length_take; lia).
  rewrite take_take. f_equal. lia.
Qed.

Lemma take_splice_end {A} i (k l : list A) :
  (i <= length l)%nat -> take (i + length k) (splice i k l) = take i l ++ k.
Proof.
  intros. unfold splice. rewrite app_assoc.
  rewrite take_app_le by (rewrite length_app, length_take; lia).
  rewrite take_ge; [done|]. rewrite length_app, length_take. lia.
Qed.

Lemma Forall_splice {A} (P : A -> Prop) i (k l : list A) :
  Forall P l -> Forall P k -> Forall P (splice i k l).
Proof. intros. unfold splice. auto using Forall_app_2, Forall_take, Forall_drop. Qed.

(** Replacing one element changes what [omap] collects for that element only. *)
Lemma omap_insert_split {A B} (f : A -> option B) (l : list A) i x : l !! i = Some x ->
  exists rest, omap f l ≡ₚ option_list (f x) ++ rest /\
    forall y, omap f (<[i := y]> l) ≡ₚ option_list (f y) ++ rest.
Proof.
  intros Hi. exists (omap f (take i l) ++ omap f (drop (S i) l)).
  assert (forall y, omap f (take i l ++ y :: drop (S i) l) ≡ₚ
    option_list (f y) ++ omap f (take i l) ++ omap f (drop (S i) l)) as Hp.
  { intros y. rewrite omap_app. simpl. destruct (f y); simpl; [|done]. symmetry. apply Permutation_middle. }
  split.
  - rewrite <-(take_drop_middle l i x Hi) at 1. apply Hp.
  - intros y. rewrite insert_take_drop by (by eapply lookup_lt_Some). apply Hp.
Qed.
