(* ===== verification/Memory.v ===== *)
(** * Byte-addressed memory

    The address space the C++ code runs in: a finite map from addresses to bytes,
    with the live heap blocks beside it.  Reading or writing an address that is
    not mapped is undefined behaviour.  [std::allocator] and [operator new] are an
    interface ([Allocator]): any placement of fresh, aligned blocks is allowed, and
    a request may fail.  The copy loops of the standard library that the sources
    call ([std::copy], [memcpy], [memset], [char_traits::length]) are defined here
    byte by byte, with the lemmas every component shares. *)

From S2P Require Import Prelude.

(** [bytes]: the mapped addresses.  [blocks]: base address and size of every live
    heap block.  [freed]: one entry per deallocation, newest first: the base, the
    size the block was allocated with, and the size the caller passed. *)
Record mem := Mem {
  bytes : gmap Z Z;
  blocks : gmap Z Z;
  freed : list (Z * Z * Z)
}.

Definition set_bytes (g : gmap Z Z) (m : mem) : mem := Mem g (blocks m) (freed m).

(** ** Reading and writing *)

Definition load (p : Z) : St mem Z := fun m =>
  match bytes m !! p with Some b => Ok b m | None => UB end.

Definition store (p b : Z) : St mem unit := fun m =>
  match bytes m !! p with
  | Some _ => Ok tt (set_bytes (<[p := b]> (bytes m)) m)
  | None => UB
  end.

Fixpoint load_bytes (n : nat) (p : Z) : St mem (list Z) :=
  match n with
  | O => ret []
  | S k => let! b := load p in let! l := load_bytes k (p + 1) in ret (b :: l)
  end.

Fixpoint store_bytes (p : Z) (l : list Z) : St mem unit :=
  match l with
  | [] => ret tt
  | b :: l => do! store p b in store_bytes (p + 1) l
  end.

(** [memcpy(dst, src, n)]. *)
Definition memcpy (dst src : Z) (n : nat) : St mem unit :=
  let! l := load_bytes n src in store_bytes dst l.

(** [memset(p, b, n)]. *)
Definition memset (p b : Z) (n : nat) : St mem unit :=
  store_bytes p (replicate n (u8 b)).

(** [std::copy(src, src + n, dst)]: element by element, first to last. *)
Fixpoint copy (n : nat) (src dst : Z) : St mem unit :=
  match n with
  | O => ret tt
  | S k => let! b := load src in do! store dst b in copy k (src + 1) (dst + 1)
  end.

(** A [w]-byte integer in memory ([*reinterpret_cast<T*>(p)]). *)
Definition load_word (w : nat) (p : Z) : St mem Z :=
  let! l := load_bytes w p in ret (le_val l).
Definition store_word (w : nat) (p x : Z) : St mem unit :=
  store_bytes p (le_bytes w x).

(** [char_traits<char>::length]: the distance to the first NUL.  [fuel] bounds the
    scan; it is enough when it exceeds the length of the string (see [cstr_spec]). *)
Fixpoint cstrlen (fuel : nat) (p : Z) : St mem Z :=
  match fuel with
  | O => nofuel
  | S k =>
      let! b := load p in
      if b =? 0 then ret 0 else let! n := cstrlen k (p + 1) in ret (n + 1)
  end.

(** ** The heap *)

Fixpoint write_bytes (g : gmap Z Z) (p : Z) (l : list Z) : gmap Z Z :=
  match l with
  | [] => g
  | b :: l => write_bytes (<[p := b]> g) (p + 1) l
  end.

Fixpoint del_range (g : gmap Z Z) (p : Z) (n : nat) : gmap Z Z :=
  match n with
  | O => g
  | S k => del_range (delete p g) (p + 1) k
  end.

(** What the code relies on from [std::allocator<char>] and [operator new]: a block
    it returns is fresh, lies inside the address space and is aligned for every
    fundamental type; [alloc_init] is whatever an uninitialised byte holds. *)
Class Allocator := {
  alloc_pick : mem -> Z -> option Z;
  alloc_init : Z -> Z;
  alloc_max_size : Z;
  alloc_init_byte : forall a, is_byte (alloc_init a);
  alloc_max_range : 0 < alloc_max_size < 2 ^ 64;
  alloc_fresh : forall m n p, alloc_pick m n = Some p -> 0 <= n ->
    0 < p /\ p + n < 2 ^ 64 /\ p mod 16 = 0 /\ blocks m !! p = None /\
    forall a, p <= a < p + n -> bytes m !! a = None
}.

Section Heap.
Context `{Allocator}.

Definition new_block (m : mem) (p n : Z) : mem :=
  Mem (write_bytes (bytes m) p (map (fun i => alloc_init (p + i)) (seqZ 0 n)))
      (<[p := n]> (blocks m)) (freed m).

(** [alloc.allocate(n)] / [new char[n]]. *)
Definition allocate (n : Z) : St mem Z := fun m =>
  match alloc_pick m n with
  | Some p => Ok p (new_block m p n)
  | None => Throw BadAlloc m
  end.

(** [alloc.deallocate(p, n)]: [p] must be the base of a live block.  The size the
    caller passes is recorded, not used. *)
Definition deallocate (p n : Z) : St mem unit := fun m =>
  match blocks m !! p with
  | Some k =>
      Ok tt (Mem (del_range (bytes m) p (Z.to_nat k)) (delete p (blocks m))
                 ((p, k, n) :: freed m))
  | None => UB
  end.

End Heap.

(** ** Regions

    [pts m p l]: the bytes [l] lie at address [p]. *)

Definition pts (m : mem) (p : Z) (l : list Z) : Prop :=
  forall i x, l !! i = Some x -> bytes m !! (p + Z.of_nat i) = Some x.

(** [upd m p l]: [m] with [l] written at [p]. *)
Definition upd (m : mem) (p : Z) (l : list Z) : mem :=
  set_bytes (write_bytes (bytes m) p l) m.

(** Two address ranges do not meet. *)
Definition disj (p n q k : Z) : Prop := p + n <= q \/ q + k <= p.

Lemma lookup_write_bytes g p l a :
  write_bytes g p l !! a =
    if decide (p <= a < p + zlen l) then l !! Z.to_nat (a - p) else g !! a.
Proof.
  revert g p. induction l as [|b l IH]; intros g p; simpl.
  { case_decide; [|done]. unfold zlen in *. simpl in *. lia. }
  rewrite IH, zlen_cons. pose proof (zlen_nonneg l).
  destruct (decide (a = p)) as [->|Hne].
  - rewrite decide_False by lia. rewrite decide_True by lia.
    by rewrite lookup_insert_eq, Z.sub_diag.
  - destruct (decide (p + 1 <= a < p + 1 + zlen l)).
    + rewrite decide_True by lia.
      replace (Z.to_nat (a - p)) with (S (Z.to_nat (a - (p + 1)))) by lia. done.
    + rewrite decide_False by lia. by rewrite lookup_insert_ne.
Qed.

Lemma lookup_upd m p l a :
  bytes (upd m p l) !! a =
    if decide (p <= a < p + zlen l) then l !! Z.to_nat (a - p) else bytes m !! a.
Proof. apply lookup_write_bytes. Qed.

Lemma lookup_del_range g p n a :
  del_range g p n !! a = if decide (p <= a < p + Z.of_nat n) then None else g !! a.
Proof.
  revert g p. induction n as [|n IH]; intros g p; cbn [del_range].
  { rewrite decide_False by lia. done. }
  rewrite IH. destruct (decide (a = p)) as [->|Hne].
  - rewrite decide_False by lia. rewrite decide_True by lia. apply lookup_delete_eq.
  - rewrite lookup_delete_ne by done. repeat case_decide; lia || done.
Qed.

Lemma pts_nil m p : pts m p [].
Proof. intros i x H. by rewrite lookup_nil in H. Qed.
#[export] Hint Resolve pts_nil : crossbow.

Lemma pts_cons m p b l : pts m p (b :: l) <-> bytes m !! p = Some b /\ pts m (p + 1) l.
Proof.
  split.
  - intros H. split; [specialize (H 0%nat b eq_refl); by rewrite Z.add_0_r in H|].
    intros i x Hi. specialize (H (S i) x Hi). rewrite <-H. f_equal. lia.
  - intros [H1 H2] [|i] x Hi; simpl in Hi; simplify_eq; [by rewrite Z.add_0_r|].
    rewrite <-(H2 i x Hi). f_equal. lia.
Qed.

Lemma pts_app m p l k : pts m p (l ++ k) <-> pts m p l /\ pts m (p + zlen l) k.
Proof.
  revert p. induction l as [|b l IH]; intros p; simpl.
  { unfold zlen. simpl. rewrite Z.add_0_r. split; [|by intros [??]]. auto using pts_nil. }
  rewrite !pts_cons, IH, zlen_cons.
  replace (p + 1 + zlen l) with (p + (1 + zlen l)) by lia. tauto.
Qed.

Lemma pts_take m p l n : pts m p l -> pts m p (take n l).
Proof. rewrite <-(take_drop n l) at 1. rewrite pts_app. tauto. Qed.

Lemma pts_drop m p l n : pts m p l -> pts m (p + Z.of_nat n) (drop n l).
Proof.
  intros Hl i x. rewrite lookup_drop. intros Hi. rewrite <-(Hl _ _ Hi). f_equal. lia.
Qed.

Lemma pts_inj m p l k : pts m p l -> pts m p k -> length l = length k -> l = k.
Proof.
  revert p k. induction l as [|b l IH]; intros p [|c k]; simpl; try done.
  rewrite !pts_cons. intros [H1 H2] [H3 H4] Hlen. f_equal; [congruence|]. naive_solver.
Qed.

Lemma pts_upd_same m p l : pts (upd m p l) p l.
Proof.
  intros i x Hi. simpl. rewrite lookup_write_bytes.
  apply lookup_lt_Some in Hi as Hlt. rewrite decide_True by (unfold zlen; lia).
  rewrite <-Hi. f_equal. lia.
Qed.
#[export] Hint Resolve pts_upd_same : crossbow.

Lemma pts_upd_disj m p l q k :
  pts m q k -> disj p (zlen l) q (zlen k) -> pts (upd m p l) q k.
Proof.
  intros Hk Hd i x Hi. simpl. rewrite lookup_write_bytes.
  apply lookup_lt_Some in Hi as Hlt. unfold disj, zlen in *.
  rewrite decide_False by lia. auto.
Qed.

Lemma pts_upd_in m p d i l :
  pts m p d -> (i + length l <= length d)%nat ->
  pts (upd m (p + Z.of_nat i) l) p (splice i l d).
Proof.
  intros Hd Hlen j x Hj. simpl. rewrite lookup_write_bytes.
  rewrite lookup_splice in Hj by done. unfold zlen.
  case_decide.
  - rewrite decide_True by lia. rewrite <-Hj. f_equal. lia.
  - rewrite decide_False by lia. auto.
Qed.

Lemma upd_nil m p : upd m p [] = m.
Proof. by destruct m. Qed.

Lemma write_bytes_app g p l k :
  write_bytes (write_bytes g p l) (p + zlen l) k = write_bytes g p (l ++ k).
Proof.
  revert p g. induction l as [|b l IH]; intros p g; simpl.
  { unfold zlen. simpl. by rewrite Z.add_0_r. }
  rewrite <-IH, zlen_cons. f_equal. lia.
Qed.

Lemma upd_app m p l k : upd (upd m p l) (p + zlen l) k = upd m p (l ++ k).
Proof. unfold upd, set_bytes. simpl. by rewrite write_bytes_app. Qed.

(** [mapped m p n]: the [n] bytes at [p] can be accessed. *)
Definition mapped (m : mem) (p n : Z) : Prop := exists d, pts m p d /\ zlen d = n.

Lemma mapped_sub m p n q k :
  mapped m p n -> p <= q -> 0 <= k -> q + k <= p + n ->
  exists l, pts m q l /\ zlen l = k.
Proof.
  intros (d & Hd & Hn) Hq Hk Hle. exists (take (Z.to_nat k) (drop (Z.to_nat (q - p)) d)). split.
  - apply pts_take. replace q with (p + Z.of_nat (Z.to_nat (q - p))) at 1 by lia. by apply pts_drop.
  - unfold zlen in *. rewrite length_take, length_drop. lia.
Qed.

Lemma mapped_byte m p n a : mapped m p n -> p <= a < p + n -> exists b, bytes m !! a = Some b.
Proof.
  intros (d & Hd & Hn) Ha. destruct (lookup_lt_is_Some_2 d (Z.to_nat (a - p))) as [x Hx]; [unfold zlen in *; lia|].
  exists x. rewrite <-(Hd _ _ Hx). f_equal. lia.
Qed.

Lemma mapped_upd m p n q l :
  mapped m p n -> p <= q -> q + zlen l <= p + n -> mapped (upd m q l) p n.
Proof.
  intros (d & Hd & Hn) Hq Hle. unfold zlen in *.
  exists (splice (Z.to_nat (q - p)) l d). split; [|unfold zlen; rewrite length_splice; lia].
  replace q with (p + Z.of_nat (Z.to_nat (q - p))) at 1 by lia. apply pts_upd_in; [done|lia].
Qed.

(** ** Running the primitives *)

Lemma load_ok m p b : bytes m !! p = Some b -> load p m = Ok b m.
Proof. unfold load. by intros ->. Qed.

Lemma pts_load m p l i x : pts m p l -> l !! i = Some x -> load (p + Z.of_nat i) m = Ok x m.
Proof. intros Hl Hi. apply load_ok. auto. Qed.

Lemma store_ok m p b c : bytes m !! p = Some b -> store p c m = Ok tt (upd m p [c]).
Proof. unfold store. intros ->. done. Qed.

Lemma store_inv m p c m' : store p c m = Ok tt m' -> m' = upd m p [c].
Proof. unfold store. destruct (bytes m !! p); [|done]. by inversion 1. Qed.

Lemma load_bytes_ok m p l : pts m p l -> load_bytes (length l) p m = Ok l m.
Proof.
  revert p. induction l as [|b l IH]; intros p Hl; simpl; [done|].
  apply pts_cons in Hl as [H1 H2]. unfold bind. rewrite (load_ok _ _ _ H1).
  by rewrite IH.
Qed.

Lemma store_bytes_ok m p l0 l :
  pts m p l0 -> length l0 = length l -> store_bytes p l m = Ok tt (upd m p l).
Proof.
  revert m p l0. induction l as [|b l IH]; intros m p [|c l0] Hl Hlen; simpl in *; try done.
  { by rewrite upd_nil. }
  apply pts_cons in Hl as [H1 H2]. unfold bind. rewrite (store_ok _ _ _ b H1).
  rewrite (IH _ _ l0); [done| |lia].
  apply pts_upd_disj; [done|left; unfold zlen; simpl; lia].
Qed.

Lemma memcpy_ok m dst src l l0 :
  pts m src l -> pts m dst l0 -> length l0 = length l ->
  memcpy dst src (length l) m = Ok tt (upd m dst l).
Proof.
  intros H1 H2 H3. unfold memcpy, bind. rewrite (load_bytes_ok _ _ _ H1).
  by eapply store_bytes_ok.
Qed.

Lemma load_word_ok w m p l :
  pts m p l -> length l = w -> load_word w p m = Ok (le_val l) m.
Proof. intros Hl <-. unfold load_word, bind. by rewrite load_bytes_ok. Qed.

Lemma store_word_ok w m p l x :
  pts m p l -> length l = w -> store_word w p x m = Ok tt (upd m p (le_bytes w x)).
Proof.
  intros Hl Hw. unfold store_word. eapply store_bytes_ok; [done|].
  by rewrite length_le_bytes.
Qed.

(** [std::copy] between ranges where the destination does not start inside the
    source (disjoint, or moving towards lower addresses). *)
Lemma copy_ok m src dst l l0 :
  pts m src l -> pts m dst l0 -> length l0 = length l ->
  (dst <= src \/ src + zlen l <= dst) ->
  copy (length l) src dst m = Ok tt (upd m dst l).
Proof.
  revert m src dst l0. induction l as [|b l IH]; intros m src dst [|c l0] H1 H2 Hlen Hd;
    simpl in *; try done.
  { by rewrite upd_nil. }
  rewrite zlen_cons in Hd. pose proof (zlen_nonneg l).
  apply pts_cons in H1 as [H1 H1']. apply pts_cons in H2 as [H2 H2'].
  unfold bind. rewrite (load_ok _ _ _ H1), (store_ok _ _ _ b H2).
  rewrite (IH _ _ _ l0); [done|..|lia|lia].
  - apply pts_upd_disj; [done|]. unfold disj. rewrite zlen_cons. unfold zlen at 1; simpl. lia.
  - apply pts_upd_disj; [done|left]. rewrite zlen_cons. unfold zlen; simpl. lia.
Qed.

Lemma cstrlen_ok m p l fuel :
  pts m p (l ++ [0]) -> Forall (fun b => b <> 0) l -> (length l < fuel)%nat ->
  cstrlen fuel p m = Ok (zlen l) m.
Proof.
  revert p fuel. induction l as [|b l IH]; intros p [|fuel] Hp Hnz Hf; simpl in *; try lia.
  - apply pts_cons in Hp as [H1 _]. unfold bind. by rewrite (load_ok _ _ _ H1).
  - apply pts_cons in Hp as [H1 H2]. inversion_clear Hnz as [|?? Hb Hl].
    unfold bind at 1. rewrite (load_ok _ _ _ H1).
    destruct (b =? 0) eqn:E; [bool_prop; lia|]. unfold bind. rewrite IH by (done || lia).
    rewrite zlen_cons. unfold ret. f_equal. lia.
Qed.

(** A mapped region has no more bytes than the memory. *)
Lemma pts_size m p l : pts m p l -> (length l <= size (bytes m))%nat.
Proof.
  intros Hl. assert (list_to_set (seqZ p (zlen l)) ⊆ dom (bytes m)) as Hsub.
  { intros a Ha. apply elem_of_list_to_set, elem_of_seqZ in Ha. apply elem_of_dom.
    destruct (lookup_lt_is_Some_2 l (Z.to_nat (a - p))) as [x Hx]; [unfold zlen in *; lia|].
    exists x. rewrite <-(Hl _ _ Hx). f_equal. lia. }
  apply subseteq_size in Hsub. rewrite size_list_to_set, length_seqZ, size_dom in Hsub.
  - unfold zlen in Hsub. lia.
  - apply NoDup_seqZ.
Qed.

(** ** Allocation and release *)

Section HeapLemmas.
Context `{Allocator}.

Lemma length_seqZ_nat n : 0 <= n -> length (seqZ 0 n) = Z.to_nat n.
Proof. intros. by rewrite length_seqZ. Qed.

Lemma new_block_pts m p n :
  0 <= n ->
  pts (new_block m p n) p (map (fun i => alloc_init (p + i)) (seqZ 0 n)).
Proof.
  intros Hn. pose proof (pts_upd_same m p (map (fun i => alloc_init (p + i)) (seqZ 0 n))) as Hp.
  intros i x Hi. exact (Hp i x Hi).
Qed.

Lemma new_block_frame m p n q k :
  alloc_pick m n = Some p -> 0 <= n -> pts m q k -> pts (new_block m p n) q k.
Proof.
  intros Hp Hn Hk i x Hi. simpl. rewrite lookup_write_bytes.
  pose proof (alloc_fresh _ _ _ Hp Hn) as (_ & _ & _ & _ & Hf).
  case_decide as Hd; [|auto]. rewrite <-(Hk _ _ Hi), (Hf (q + Z.of_nat i)) in *; [|].
  - specialize (Hk _ _ Hi). rewrite Hf in Hk; [done|].
    unfold zlen in Hd. rewrite length_map, length_seqZ_nat in Hd by done. lia.
  - unfold zlen in Hd. rewrite length_map, length_seqZ_nat in Hd by done. lia.
Qed.

(** A region that was mapped before an allocation does not meet the new block. *)
Lemma alloc_disj m p n q k :
  alloc_pick m n = Some p -> 0 <= n -> pts m q k -> disj p n q (zlen k) \/ n = 0 \/ k = [].
Proof.
  intros Hp Hn Hk. destruct (alloc_fresh _ _ _ Hp Hn) as (_ & _ & _ & _ & Hf).
  destruct (decide (n = 0)); [tauto|]. destruct k as [|c k]; [tauto|]. left.
  unfold disj. destruct (decide (p + n <= q)); [by left|].
  destruct (decide (q + zlen (c :: k) <= p)); [by right|]. exfalso.
  pose (a := Z.max p q). assert (p <= a < p + n) as Ha by (unfold a, zlen in *; simpl in *; lia).
  destruct (lookup_lt_is_Some_2 (c :: k) (Z.to_nat (a - q))) as [x Hx];
    [unfold a, zlen in *; simpl in *; lia|].
  apply Hk in Hx. rewrite Hf in Hx; [done|]. unfold a in *. lia.
Qed.

Lemma deallocate_frame m p k n m' q l :
  deallocate p n m = Ok tt m' -> blocks m !! p = Some k -> 0 <= k ->
  pts m q l -> disj p k q (zlen l) -> pts m' q l.
Proof.
  unfold deallocate. intros Hd Hb Hk Hl Hdis. rewrite Hb in Hd. simplify_eq.
  intros i x Hi. simpl. rewrite lookup_del_range.
  apply lookup_lt_Some in Hi as Hlt. unfold disj, zlen in *.
  rewrite decide_False by lia. auto.
Qed.

End HeapLemmas.

(** ** A concrete allocator

    The bump allocator places a block behind everything that is mapped; it shows
    that the interface can be met and lets the model run. *)

Definition top_addr (m : mem) : Z :=
  Z.max (map_fold (fun a _ acc => Z.max a acc) 0 (bytes m))
        (map_fold (fun a n acc => Z.max (Z.max a (a + n)) acc) 0 (blocks m)).

Definition bump_pick (m : mem) (n : Z) : option Z :=
  let p := 16 * ((top_addr m + 16) / 16) in
  if (p + n <? 2 ^ 64) then Some p else None.

Lemma map_fold_max_ge (f : Z -> Z -> Z) (g : gmap Z Z) :
  0 <= map_fold (fun a v acc => Z.max (f a v) acc) 0 g /\
  forall a v, g !! a = Some v -> f a v <= map_fold (fun a v acc => Z.max (f a v) acc) 0 g.
Proof.
  apply (map_fold_weak_ind (fun r m => 0 <= r /\ forall a v, m !! a = Some v -> f a v <= r)).
  - split; [lia|]. intros a v Ha. by rewrite lookup_empty in Ha.
  - intros i x m r Hi [Hr IH]. split; [lia|]. intros a v Ha.
    destruct (decide (a = i)) as [->|Hne].
    + rewrite lookup_insert_eq in Ha. simplify_eq. lia.
    + rewrite lookup_insert_ne in Ha by done. specialize (IH _ _ Ha). lia.
Qed.

#[refine] #[export] Instance bump_allocator : Allocator := {|
  alloc_pick := bump_pick;
  alloc_init := fun _ => 205;
  alloc_max_size := SIZE_MAX
|}.
Proof.
  - intros _. unfold is_byte. lia.
  - unfold SIZE_MAX. lia.
  - intros m n p Hp Hn. unfold bump_pick in Hp. case_match eqn:E; [|done]. bool_prop.
    simplify_eq.
    destruct (map_fold_max_ge (fun a _ => a) (bytes m)) as [H0 H1].
    destruct (map_fold_max_ge (fun a n => Z.max a (a + n)) (blocks m)) as [H2 H3].
    assert (0 <= top_addr m) by (unfold top_addr; lia).
    assert (top_addr m < 16 * ((top_addr m + 16) / 16)) as Htop
      by (pose proof (Z.div_mod (top_addr m + 16) 16 ltac:(lia));
          pose proof (Z.mod_pos_bound (top_addr m + 16) 16 ltac:(lia)); lia).
    split_and!; [lia|lia|by rewrite Z.mul_comm, Z.mod_mul| |].
    + destruct (blocks m !! _) as [k|] eqn:Hb; [|done]. exfalso.
      specialize (H3 _ _ Hb). unfold top_addr in Htop at 1. lia.
    + intros a Ha. destruct (bytes m !! a) as [v|] eqn:Hv; [|done]. exfalso.
      specialize (H1 _ _ Hv). unfold top_addr in Htop at 1. lia.
Defined.
