(* ===== verification/ByteBuffer.v ===== *)
(** * Alignment and byte buffers

    [crossbow/alignment.hpp] ([align] on integers and pointers) and
    [crossbow/byte_buffer.hpp] ([buffer_reader], [buffer_writer]): cursors over a
    byte range that the messaging code parses and builds messages with.  The
    assertions of the assignment operators and destructors are those of a debug
    build. *)

From S2P Require Import Prelude Memory.

Module Alignment.

(** The assertion of both overloads: alignment is a power of two. *)
Definition align_ok (alignment : Z) : bool :=
  negb (alignment =? 0) && (Z.land alignment (alignment - 1) =? 0).

(** [align(T value, A alignment)] for an unsigned integral [T] of [w] bits. *)
Definition align_int (w value alignment : Z) : Z :=
  Z.land (wrap w (value - 1 + alignment)) (wrap w (- alignment)).

(** [align(T value, uintptr_t alignment)] for pointers. *)
Definition align_ptr (value alignment : Z) : Z :=
  Z.land (u64 (u64 (value - 1) + alignment)) (u64 (- alignment)).

(** Reference definition: the least multiple of [a] that is not below [v]. *)
Definition round_up (v a : Z) : Z := a * ((v + a - 1) / a).

Lemma land_neg_pow2 w k x :
  0 <= k <= w -> 0 <= x < 2 ^ w ->
  Z.land x (wrap w (- 2 ^ k)) = 2 ^ k * (x / 2 ^ k).
Proof.
  intros Hk Hx. unfold wrap. rewrite <-Z.land_ones by lia.
  rewrite (Z.land_comm (- 2 ^ k)), Z.land_assoc, Z.land_ones by lia.
  rewrite (Z.mod_small x) by lia.
  replace (- 2 ^ k) with (Z.lnot (Z.ones k)) by (rewrite Z.ones_equiv; unfold Z.lnot; lia).
  rewrite <-Z.ldiff_land, Z.ldiff_ones_r by lia.
  rewrite Z.shiftl_mul_pow2, Z.shiftr_div_pow2 by lia. lia.
Qed.

Lemma align_int_round_up w k v :
  0 <= k <= w -> 0 <= v -> v + 2 ^ k - 1 < 2 ^ w ->
  align_int w v (2 ^ k) = round_up v (2 ^ k).
Proof.
  intros Hk Hv Hw. unfold align_int, round_up.
  rewrite (wrap_small w (v - 1 + 2 ^ k)) by lia.
  rewrite land_neg_pow2 by lia. f_equal. f_equal. lia.
Qed.

Lemma align_ptr_round_up k v :
  0 <= k <= 64 -> 0 <= v -> v + 2 ^ k - 1 < 2 ^ 64 ->
  align_ptr v (2 ^ k) = round_up v (2 ^ k).
Proof.
  intros Hk Hv Hw. unfold align_ptr, round_up, wrap at 1. rewrite <-Zplus_mod_idemp_l.
  unfold wrap at 1. rewrite Zmod_mod, Zplus_mod_idemp_l.
  rewrite (Z.mod_small (v - 1 + 2 ^ k)) by lia.
  rewrite land_neg_pow2 by lia. f_equal. f_equal. lia.
Qed.

Lemma round_up_bounds v a : 0 < a -> v <= round_up v a < v + a.
Proof.
  intros Ha. unfold round_up.
  pose proof (Z.div_mod (v + a - 1) a ltac:(lia)).
  pose proof (Z.mod_pos_bound (v + a - 1) a Ha). lia.
Qed.

Lemma round_up_mod v a : 0 < a -> round_up v a mod a = 0.
Proof. intros. unfold round_up. by rewrite Z.mul_comm, Z.mod_mul by lia. Qed.

Lemma round_up_fix v a : 0 < a -> v mod a = 0 -> round_up v a = v.
Proof.
  intros Ha Hv. apply Z.mod_divide in Hv as [x ->]; [|lia]. unfold round_up.
  replace (x * a + a - 1) with (x * a + (a - 1)) by lia.
  rewrite Z.div_add_l, Z.div_small by lia. lia.
Qed.

(** Shifting the value by a multiple of the alignment shifts the result. *)
Lemma round_up_shift v a s : 0 < a -> s mod a = 0 -> round_up (s + v) a = s + round_up v a.
Proof.
  intros Ha Hs. apply Z.mod_divide in Hs as [x ->]; [|lia]. unfold round_up.
  replace (x * a + v + a - 1) with (v + a - 1 + x * a) by lia.
  rewrite Z.div_add by lia. lia.
Qed.

(** [align] on integers returns, for a power of two, the least multiple of the
    alignment that is not below the value, as long as the sum fits the type. *)
Theorem align_int_correct w k v :
  0 <= k <= w -> 0 <= v -> v + 2 ^ k - 1 < 2 ^ w ->
  align_ok (2 ^ k) = true /\
  v <= align_int w v (2 ^ k) < v + 2 ^ k /\ align_int w v (2 ^ k) mod 2 ^ k = 0 /\
  (forall x, v <= x -> x mod 2 ^ k = 0 -> align_int w v (2 ^ k) <= x).
Proof.
  intros Hk Hv Hw. rewrite align_int_round_up by lia.
  assert (0 < 2 ^ k) by lia.
  pose proof (round_up_bounds v (2 ^ k) ltac:(lia)). split_and!; try lia.
  - unfold align_ok. apply andb_true_iff. split; [apply negb_true_iff, Z.eqb_neq; lia|].
    apply Z.eqb_eq. replace (2 ^ k - 1) with (Z.ones k) by (rewrite Z.ones_equiv; lia).
    rewrite Z.land_ones by lia. apply Z_mod_same_full.
  - by apply round_up_mod.
  - intros x Hx Hm. pose proof (round_up_mod v (2 ^ k) ltac:(lia)) as Hr.
    apply Z.mod_divide in Hm as [y ->]; [|lia]. apply Z.mod_divide in Hr as [z Hz]; [|lia].
    rewrite Hz in *. destruct (Z.le_gt_cases z y); [nia|].
    assert (y * 2 ^ k + 2 ^ k <= z * 2 ^ k) by nia. lia.
Qed.

Lemma align_int_correct_witness : align_int 32 13 (2 ^ 3) = 16 /\ 13 <= align_int 32 13 (2 ^ 3) < 21.
Proof. split; [reflexivity|]. apply (align_int_correct 32 3 13); lia. Defined.

End Alignment.

Export Alignment.

(** ** buffer_reader *)

Record buffer_reader := BufferReader { rPos : Z; rEnd : Z }.

(** [buffer_reader(const char* pos, size_t length)]. *)
Definition mk_reader (pos length : Z) : buffer_reader := BufferReader pos (u64 (pos + length)).

(** The copy assignment returns the new [*this]; the move assignment also the
    emptied source. *)
Definition reader_assign (this other : buffer_reader) : St mem buffer_reader :=
  do! massert (rPos this <=? rEnd this) in ret (BufferReader (rPos other) (rEnd other)).
Definition reader_move_assign (this other : buffer_reader) :
    St mem (buffer_reader * buffer_reader) :=
  do! massert (rPos this <=? rEnd this) in
  ret (BufferReader (rPos other) (rEnd other), BufferReader 0 0).
Definition reader_destroy (r : buffer_reader) : St mem unit := massert (rPos r <=? rEnd r).

Definition reader_exhausted (r : buffer_reader) : bool := rEnd r <=? rPos r.
Definition canRead (r : buffer_reader) (length : Z) : bool := u64 (rPos r + length) <=? rEnd r.

(** [read<T>()] for an integral [T] of [w] bytes. *)
Definition reader_read (w : nat) (r : buffer_reader) : St mem (Z * buffer_reader) :=
  let! v := load_word w (rPos r) in
  ret (v, BufferReader (rPos r + Z.of_nat w) (rEnd r)).
(** [read(size_t length)] returns the pointer it moves over. *)
Definition reader_read_ptr (r : buffer_reader) (length : Z) : Z * buffer_reader :=
  (rPos r, BufferReader (u64 (rPos r + length)) (rEnd r)).
Definition reader_data (r : buffer_reader) : Z := rPos r.
Definition reader_end (r : buffer_reader) : Z := rEnd r.
Definition reader_advance (r : buffer_reader) (length : Z) : buffer_reader :=
  BufferReader (u64 (rPos r + length)) (rEnd r).
Definition reader_align (r : buffer_reader) (alignment : Z) : buffer_reader :=
  BufferReader (align_ptr (rPos r) alignment) (rEnd r).
Definition reader_extract (r : buffer_reader) (length : Z) : buffer_reader * buffer_reader :=
  (mk_reader (rPos r) length, BufferReader (u64 (rPos r + length)) (rEnd r)).

(** ** buffer_writer *)

Record buffer_writer := BufferWriter { wPos : Z; wEnd : Z }.

Definition mk_writer (pos length : Z) : buffer_writer := BufferWriter pos (u64 (pos + length)).

Definition writer_assign (this other : buffer_writer) : St mem buffer_writer :=
  do! massert (wPos this <=? wEnd this) in ret (BufferWriter (wPos other) (wEnd other)).
Definition writer_move_assign (this other : buffer_writer) :
    St mem (buffer_writer * buffer_writer) :=
  do! massert (wPos this <=? wEnd this) in
  ret (BufferWriter (wPos other) (wEnd other), BufferWriter 0 0).
Definition writer_destroy (w : buffer_writer) : St mem unit := massert (wPos w <=? wEnd w).

Definition writer_exhausted (w : buffer_writer) : bool := wEnd w <=? wPos w.
Definition canWrite (w : buffer_writer) (length : Z) : bool := u64 (wPos w + length) <=? wEnd w.

(** [write<T>(value)] for an integral [T] of [n] bytes. *)
Definition writer_write (n : nat) (w : buffer_writer) (value : Z) : St mem buffer_writer :=
  do! store_word n (wPos w) value in ret (BufferWriter (wPos w + Z.of_nat n) (wEnd w)).
(** [write(const void* value, size_t length)]. *)
Definition writer_write_mem (w : buffer_writer) (value length : Z) : St mem buffer_writer :=
  do! memcpy (wPos w) value (Z.to_nat length) in
  ret (BufferWriter (u64 (wPos w + length)) (wEnd w)).
(** [set(int value, size_t length)]. *)
Definition writer_set (w : buffer_writer) (value length : Z) : St mem buffer_writer :=
  do! memset (wPos w) value (Z.to_nat length) in
  ret (BufferWriter (u64 (wPos w + length)) (wEnd w)).
Definition writer_data (w : buffer_writer) : Z := wPos w.
Definition writer_end (w : buffer_writer) : Z := wEnd w.
Definition writer_advance (w : buffer_writer) (length : Z) : buffer_writer :=
  BufferWriter (u64 (wPos w + length)) (wEnd w).
Definition writer_align (w : buffer_writer) (alignment : Z) : buffer_writer :=
  BufferWriter (align_ptr (wPos w) alignment) (wEnd w).
Definition writer_extract (w : buffer_writer) (length : Z) : buffer_writer * buffer_writer :=
  (mk_writer (wPos w) length, BufferWriter (u64 (wPos w + length)) (wEnd w)).

(** ** Behaviour *)

Lemma reader_read_ok w m p e l :
  pts m p l -> length l = w ->
  reader_read w (BufferReader p e) m = Ok (le_val l, BufferReader (p + Z.of_nat w) e) m.
Proof. intros. unfold reader_read, bind. cbn [rPos rEnd]. by rewrite (load_word_ok w m p l). Qed.

Lemma writer_write_ok n m p e l0 x :
  pts m p l0 -> length l0 = n ->
  writer_write n (BufferWriter p e) x m =
    Ok (BufferWriter (p + Z.of_nat n) e) (upd m p (le_bytes n x)).
Proof. intros. unfold writer_write, bind. cbn [wPos wEnd]. by rewrite (store_word_ok n m p l0). Qed.

(** A guarded access stays inside the range. *)
Lemma canWrite_spec p e n :
  0 <= p -> 0 <= n -> p + n < 2 ^ 64 -> canWrite (BufferWriter p e) n = true <-> p + n <= e.
Proof. intros. unfold canWrite. simpl. rewrite u64_small by lia. apply Z.leb_le. Qed.

Lemma canRead_spec p e n :
  0 <= p -> 0 <= n -> p + n < 2 ^ 64 -> canRead (BufferReader p e) n = true <-> p + n <= e.
Proof. intros. unfold canRead. simpl. rewrite u64_small by lia. apply Z.leb_le. Qed.

(** A value written is the value read back, at the width of its type. *)
Lemma write_read_word n m p e e' l0 x :
  pts m p l0 -> length l0 = n ->
  exists w' m', writer_write n (BufferWriter p e) x m = Ok w' m' /\
    reader_read n (BufferReader p e') m' =
      Ok (x mod 2 ^ (8 * Z.of_nat n), BufferReader (p + Z.of_nat n) e') m'.
Proof.
  intros Hp Hn. eexists _, _. split; [by apply (writer_write_ok n m p e l0)|].
  rewrite (reader_read_ok n _ p e' (le_bytes n x)).
  - by rewrite le_val_bytes.
  - apply pts_upd_same.
  - apply length_le_bytes.
Qed.
