(* ===== verification/Ids.v ===== *)
(** * Packed 64-bit identifiers

    [libs/infinio/include/crossbow/infinio/MessageId.hpp] (user id and the
    asynchronous flag of an RPC message) and [libs/infinio/src/WorkRequestId.hpp]
    (user id, buffer id and kind of a work request). *)

From S2P Require Import Prelude.

(** ** MessageId *)

Definition messageId_build (userId : Z) (async : bool) : Z :=
  Z.lor (u64 (Z.shiftl userId 32)) (if async then 1 else 0).

Definition messageId_userId (mId : Z) : Z := u32 (Z.shiftr mId 32).

Definition messageId_isAsync (mId : Z) : bool :=
  negb (u32 (Z.land mId 0xFFFFFFFF) =? 0).

(** ** WorkRequestId *)

Inductive WorkType := UNKNOWN | RECEIVE | SEND | READ | WRITE.

#[global] Instance WorkType_eq_dec : EqDecision WorkType.
Proof. solve_decision. Defined.

(** [static_cast] between the enumeration and its underlying [uint16_t]. *)
Definition workType_value (t : WorkType) : Z :=
  match t with UNKNOWN => 0 | RECEIVE => 1 | SEND => 2 | READ => 3 | WRITE => 4 end.
Definition workType_of (v : Z) : WorkType :=
  match v with 1 => RECEIVE | 2 => SEND | 3 => READ | 4 => WRITE | _ => UNKNOWN end.

(** [WorkType::LAST]. *)
Definition workType_LAST : WorkType := WRITE.

Definition workRequestId_build (userId bufferId : Z) (type : WorkType) : Z :=
  Z.lor (Z.lor (u64 (Z.shiftl userId 32)) (u64 (Z.shiftl bufferId 16))) (workType_value type).

Definition workRequestId_userId (mId : Z) : Z := u32 (Z.shiftr mId 32).
Definition workRequestId_bufferId (mId : Z) : Z := u16 (Z.land (Z.shiftr mId 16) 0xFFFF).
Definition workRequestId_workType (mId : Z) : WorkType :=
  let value := Z.land mId 0xFFFF in
  if workType_value workType_LAST <? value then UNKNOWN else workType_of value.

(** ** Field extraction

    A word built from fields [hi * 2^k + lo] is taken apart by shift and mask. *)

Lemma lor_disjoint hi lo k :
  0 <= k -> 0 <= lo < 2 ^ k -> Z.lor (Z.shiftl hi k) lo = hi * 2 ^ k + lo.
Proof.
  intros Hk Hlo. rewrite Z.shiftl_mul_pow2 by lia.
  pose proof (Z.add_lor_land (hi * 2 ^ k) lo) as Hsum.
  enough (Z.land (hi * 2 ^ k) lo = 0) by lia.
  destruct (Z.eq_dec lo 0) as [->|Hlo0]; [apply Z.land_0_r|].
  apply Z.bits_inj'. intros n Hn. rewrite Z.land_spec, Z.bits_0.
  destruct (decide (n < k)).
  - rewrite Z.mul_pow2_bits_low by lia. done.
  - rewrite (Z.bits_above_log2 lo n); [by rewrite andb_false_r|lia|].
    apply Z.log2_lt_pow2; [lia|]. eapply Z.lt_le_trans; [apply Hlo|]. apply Z.pow_le_mono_r; lia.
Qed.

Lemma shiftr_fields hi lo k : 0 <= k -> 0 <= lo < 2 ^ k -> Z.shiftr (hi * 2 ^ k + lo) k = hi.
Proof.
  intros. rewrite Z.shiftr_div_pow2 by lia. rewrite Z.div_add_l, Z.div_small by lia. lia.
Qed.

Lemma shiftl_u64 x k : 0 <= k -> 0 <= x -> x * 2 ^ k < 2 ^ 64 -> u64 (Z.shiftl x k) = Z.shiftl x k.
Proof. intros. rewrite Z.shiftl_mul_pow2 by lia. apply u64_small. nia. Qed.

Lemma messageId_build_fields u b :
  0 <= u < 2 ^ 32 -> messageId_build u b = u * 2 ^ 32 + (if b then 1 else 0).
Proof.
  intros Hu. unfold messageId_build. rewrite shiftl_u64 by lia.
  apply lor_disjoint; [lia|]. destruct b; lia.
Qed.

Lemma workRequestId_build_fields u i t :
  0 <= u < 2 ^ 32 -> 0 <= i < 2 ^ 16 ->
  workRequestId_build u i t = u * 2 ^ 32 + (i * 2 ^ 16 + workType_value t).
Proof.
  intros Hu Hi. unfold workRequestId_build. rewrite !shiftl_u64 by lia.
  assert (0 <= workType_value t <= 4) by (destruct t; simpl; lia).
  rewrite <-Z.lor_assoc, (lor_disjoint i) by lia. apply lor_disjoint; lia.
Qed.

(** a message id carries its user id and its asynchronous flag: both are read
    back from the id the constructor builds, for every 32-bit user id. *)
Theorem messageId_roundtrip u b :
  0 <= u < 2 ^ 32 ->
  0 <= messageId_build u b < 2 ^ 64 /\
  messageId_userId (messageId_build u b) = u /\
  messageId_isAsync (messageId_build u b) = b.
Proof.
  intros Hu. rewrite messageId_build_fields by done. split; [destruct b; lia|].
  unfold messageId_userId, messageId_isAsync. split.
  - rewrite shiftr_fields by (destruct b; lia). by apply u32_small.
  - change 0xFFFFFFFF with (Z.ones 32). rewrite Z.land_ones by lia.
    rewrite Z.add_comm, Z.mod_add by lia. rewrite Z.mod_small by (destruct b; lia).
    rewrite u32_small by (destruct b; lia). by destruct b.
Qed.

Lemma messageId_roundtrip_witness : messageId_userId (messageId_build 4294967295 true) = 4294967295.
Proof. apply (messageId_roundtrip 4294967295 true). lia. Defined.

(** a work request id carries user id, buffer id and kind, and ids built from
    different fields differ. *)
Theorem workRequestId_roundtrip u i t :
  0 <= u < 2 ^ 32 -> 0 <= i < 2 ^ 16 ->
  0 <= workRequestId_build u i t < 2 ^ 64 /\
  workRequestId_userId (workRequestId_build u i t) = u /\
  workRequestId_bufferId (workRequestId_build u i t) = i /\
  workRequestId_workType (workRequestId_build u i t) = t.
Proof.
  intros Hu Hi. rewrite workRequestId_build_fields by done.
  assert (0 <= workType_value t <= 4) as Ht by (destruct t; simpl; lia).
  split; [lia|]. unfold workRequestId_userId, workRequestId_bufferId, workRequestId_workType.
  split_and!.
  - rewrite shiftr_fields by lia. by apply u32_small.
  - change 0xFFFF with (Z.ones 16).
    replace (u * 2 ^ 32 + (i * 2 ^ 16 + workType_value t))
      with ((u * 2 ^ 16 + i) * 2 ^ 16 + workType_value t) by lia.
    rewrite shiftr_fields, Z.land_ones by lia.
    rewrite Z.add_comm, Z.mod_add, Z.mod_small by lia. apply wrap_small. lia.
  - change 0xFFFF with (Z.ones 16). rewrite Z.land_ones by lia.
    replace (u * 2 ^ 32 + (i * 2 ^ 16 + workType_value t))
      with (workType_value t + (u * 2 ^ 16 + i) * 2 ^ 16) by lia.
    rewrite Z.mod_add, Z.mod_small by lia. by destruct t.
Qed.

Lemma workRequestId_roundtrip_witness :
  workRequestId_bufferId (workRequestId_build 7 65535 READ) = 65535.
Proof. apply (workRequestId_roundtrip 7 65535 READ); lia. Defined.

(** Ids that no [buildId] produced: kinds above [LAST] read as [UNKNOWN]. *)
Lemma workType_total mId : 0 <= mId ->
  workRequestId_workType mId = UNKNOWN <->
  mId mod 2 ^ 16 = 0 \/ 4 < mId mod 2 ^ 16.
Proof.
  intros H. unfold workRequestId_workType. change 0xFFFF with (Z.ones 16).
  rewrite Z.land_ones by lia. pose proof (Z.mod_pos_bound mId (2 ^ 16) ltac:(lia)).
  case_test; simpl in *; [split; [lia|done]|].
  assert (mId mod 2 ^ 16 = 0 \/ mId mod 2 ^ 16 = 1 \/ mId mod 2 ^ 16 = 2 \/
    mId mod 2 ^ 16 = 3 \/ mId mod 2 ^ 16 = 4) as [->|[->|[->|[->| ->]]]] by lia;
    simpl; split; try done; lia.
Qed.
