(* ===== verification/ErrorCode.v ===== *)
(** * Error codes of the messaging library

    [libs/infinio/include/crossbow/infinio/ErrorCode.hpp]: the RPC and network
    error enumerations with their category messages, and [std::error_code] values
    as the code passes them around. *)

From stdpp Require Import strings.
From S2P Require Import Prelude.

Inductive rpc_errors := no_response | invalid_message | wrong_type | message_too_big.

Inductive network_errors :=
  | already_open | address_resolution | route_resolution | unreachable
  | connection_error | invalid_buffer | out_of_range.

Definition rpc_value (e : rpc_errors) : Z :=
  match e with no_response => 1 | invalid_message => 2 | wrong_type => 3 | message_too_big => 4 end.

Definition network_value (e : network_errors) : Z :=
  match e with
  | already_open => 1 | address_resolution => 2 | route_resolution => 3 | unreachable => 4
  | connection_error => 5 | invalid_buffer => 6 | out_of_range => 7
  end.

(** [rpc_category::message(int)]. *)
Definition rpc_message (value : Z) : string :=
  match value with
  | 1 => "No response received"
  | 2 => "Received message is invalid"
  | 3 => "Received message of wrong type"
  | 4 => "Tried to write a message exceeding the buffer size"
  | _ => "infinio.rpc error"
  end.

(** [network_category::message(int)]. *)
Definition network_message (value : Z) : string :=
  match value with
  | 1 => "Already open"
  | 2 => "Address resolution failed"
  | 3 => "Route resolution failed"
  | 4 => "Remote unreachable"
  | 5 => "Connection error"
  | 6 => "Buffer is invalid"
  | 7 => "Memory access out of range"
  | _ => "infinio.network error"
  end.

Inductive category := generic_category | rpc_category | network_category | wc_category
  | user_category | future_category.

(** [std::error_code]: a value and its category; it converts to [true] exactly when
    the value is not 0. *)
Record error_code := ErrorCode { ec_value : Z; ec_category : category }.

Definition no_error : error_code := ErrorCode 0 generic_category.
Definition ec_bool (ec : error_code) : bool := negb (ec_value ec =? 0).

Definition rpc_error_code (e : rpc_errors) : error_code := ErrorCode (rpc_value e) rpc_category.
Definition network_error_code (e : network_errors) : error_code :=
  ErrorCode (network_value e) network_category.
Definition generic_error_code (errno : Z) : error_code := ErrorCode errno generic_category.

(** [std::errc] values (Linux [errno]). *)
Definition errc_bad_file_descriptor : Z := 9.
Definition errc_connection_aborted : Z := 103.
Definition errc_already_connected : Z := 106.
Definition errc_not_connected : Z := 107.
Definition errc_connection_refused : Z := 111.

#[global] Instance category_eq_dec : EqDecision category.
Proof. solve_decision. Defined.
#[global] Instance error_code_eq_dec : EqDecision error_code.
Proof. solve_decision. Defined.

(** Every error the library raises converts to [true] and has a message of its own. *)
Lemma rpc_error_set e : ec_bool (rpc_error_code e) = true.
Proof. by destruct e. Qed.

Lemma network_error_set e : ec_bool (network_error_code e) = true.
Proof. by destruct e. Qed.
#[export] Hint Rewrite rpc_error_set network_error_set : crossbow_rw.

Lemma rpc_message_inj e1 e2 :
  rpc_message (rpc_value e1) = rpc_message (rpc_value e2) -> e1 = e2.
Proof. by destruct e1, e2. Qed.

Lemma network_message_inj e1 e2 :
  network_message (network_value e1) = network_message (network_value e2) -> e1 = e2.
Proof. by destruct e1, e2. Qed.
