(* ===== verification/IbBuffer.v ===== *)
(** * Registered buffers

    [libs/infinio/.../InfinibandBuffer.hpp], [libs/infinio/src/InfinibandBuffer.cpp]
    and the buffer pools of [libs/infinio/src/DeviceContext.{hpp,cpp}]: buffers that
    point into memory registered with the adapter, the regions they are cut from,
    scatter/gather lists, and the stack of free send buffers a [CompletionContext]
    hands out. *)

From S2P Require Import Prelude Memory.

(** [struct ibv_sge]. *)
Record ibv_sge := Sge { sge_addr : Z; sge_length : Z; sge_lkey : Z }.

Module InfinibandBuffer.

Record t := Buffer { mHandle : ibv_sge; mId : Z }.

Definition INVALID_ID : Z := 2 ^ 16 - 1.

(** [InfinibandBuffer(uint16_t id)]: the handle is zeroed. *)
Definition make (id : Z) : t := Buffer (Sge 0 0 0) id.
Definition invalid : t := make INVALID_ID.

(** The move operations return the new buffer and the emptied source. *)
Definition move (other : t) : t * t := (Buffer (mHandle other) (mId other), Buffer (Sge 0 0 0) INVALID_ID).

Definition count (b : t) : Z := 1.
Definition length (b : t) : Z := sge_length (mHandle b).
Definition valid (b : t) : bool := negb (mId b =? INVALID_ID).
Definition data (b : t) : Z := sge_addr (mHandle b).

(** [shrink(uint32_t length)]: ignored unless the new length is smaller. *)
Definition shrink (b : t) (length : Z) : t :=
  let h := mHandle b in
  if sge_length h <=? length then b
  else Buffer (Sge (sge_addr h) length (sge_lkey h)) (mId b).

Lemma shrink_length b n : length (shrink b n) = Z.min (length b) n.
Proof. unfold shrink, length. case_test; simpl; lia. Qed.

Lemma shrink_data b n : data (shrink b n) = data b /\ mId (shrink b n) = mId b.
Proof. unfold shrink, data. by case_test. Qed.

End InfinibandBuffer.

Abbreviation ibuffer := InfinibandBuffer.t.

(** ** Memory regions *)

(** [struct ibv_mr] as the code reads it. *)
Record region := Region { mr_addr : Z; mr_length : Z; mr_lkey : Z; mr_rkey : Z }.

(** [LocalMemoryRegion::acquireBuffer(id, offset, length)]; [offset + length] is
    [size_t] arithmetic. *)
Definition region_acquireBuffer (r : region) (id offset length : Z) : ibuffer :=
  if mr_length r <? u64 (offset + length) then InfinibandBuffer.invalid
  else InfinibandBuffer.Buffer (Sge (u64 (mr_addr r + offset)) length (mr_lkey r)) id.

Definition region_belongsTo (r : region) (b : ibuffer) : bool :=
  sge_lkey (InfinibandBuffer.mHandle b) =? mr_lkey r.

(** [RemoteMemoryRegion]. *)
Record remote_region := RemoteRegion { rm_address : Z; rm_length : Z; rm_key : Z }.

(** ** ScatterGatherBuffer *)

Record sg_buffer := SgBuffer { sg_handle : list ibv_sge; sg_length : Z; sg_id : Z }.

Definition sg_make (id : Z) : sg_buffer := SgBuffer [] 0 id.
Definition sg_count (b : sg_buffer) : Z := zlen (sg_handle b).

Definition sg_push (b : sg_buffer) (e : ibv_sge) : sg_buffer :=
  SgBuffer (sg_handle b ++ [e]) (u64 (sg_length b + sge_length e)) (sg_id b).

(** [add(region, addr, length)]: no check here. *)
Definition sg_add_addr (b : sg_buffer) (r : region) (addr length : Z) : sg_buffer :=
  sg_push b (Sge addr length (mr_lkey r)).

(** [add(region, offset, length)]. *)
Definition sg_add_offset (b : sg_buffer) (r : region) (offset length : Z) : sg_buffer :=
  sg_add_addr b r (u64 (mr_addr r + offset)) length.

(** [add(buffer, offset, length)]: silently ignored when the part does not fit. *)
Definition sg_add_buffer (b : sg_buffer) (buf : ibuffer) (offset length : Z) : sg_buffer :=
  if InfinibandBuffer.length buf <? u64 (offset + length) then b
  else sg_push b (Sge (u64 (InfinibandBuffer.data buf + offset)) length
                      (sge_lkey (InfinibandBuffer.mHandle buf))).

(** [data(index)]: [mHandle.at(index).addr], which throws out of range. *)
Definition sg_data {S} (b : sg_buffer) (index : nat) : St S Z :=
  match sg_handle b !! index with
  | Some e => ret (sge_addr e)
  | None => throw OutOfRange
  end.

Definition sg_reset (b : sg_buffer) : sg_buffer := SgBuffer [] 0 (sg_id b).

(** Invariant of a scatter/gather buffer: [mLength] is the sum of its parts. *)
Definition sg_wf (b : sg_buffer) : Prop :=
  sg_length b = u64 (foldr (fun e n => sge_length e + n) 0 (sg_handle b)).

Lemma sg_sum_app l k :
  foldr (fun e n => sge_length e + n) 0 (l ++ k) =
  foldr (fun e n => sge_length e + n) 0 l + foldr (fun e n => sge_length e + n) 0 k.
Proof. induction l as [|e l IH]; simpl; lia. Qed.

Lemma sg_push_wf b e : sg_wf b -> sg_wf (sg_push b e).
Proof.
  unfold sg_wf, sg_push. simpl. intros ->. rewrite sg_sum_app. simpl.
  unfold wrap. rewrite Zplus_mod_idemp_l. f_equal. lia.
Qed.

Lemma sg_ops_wf b r buf addr offset length :
  sg_wf b ->
  sg_wf (sg_add_addr b r addr length) /\ sg_wf (sg_add_offset b r offset length) /\
  sg_wf (sg_add_buffer b buf offset length) /\ sg_wf (sg_reset b) /\ sg_wf (sg_make (sg_id b)).
Proof.
  intros Hb. unfold sg_add_offset, sg_add_addr, sg_add_buffer.
  split_and!; auto using sg_push_wf; [case_test; auto using sg_push_wf|done..].
Qed.

(** ** The send buffer pool of a CompletionContext *)

Record send_pool := SendPool {
  mSendBufferCount : Z;
  mSendBufferLength : Z;
  mSendData : region;
  mSendBufferQueue : list Z   (* std::stack: the head is the top *)
}.

(** The constructor pushes the ids [0, 1, ...] in order. *)
Definition pool_make (count length : Z) (data : region) : send_pool :=
  SendPool count length data (rev (seqZ 0 count)).

(** [acquireSendBuffer(uint32_t length)]. *)
Definition acquireSendBuffer_len (length : Z) (p : send_pool) : ibuffer * send_pool :=
  match mSendBufferQueue p with
  | [] => (InfinibandBuffer.invalid, p)
  | id :: rest =>
      if mSendBufferLength p <? length then (InfinibandBuffer.invalid, p)
      else
        let offset := u64 (id * mSendBufferLength p) in
        (region_acquireBuffer (mSendData p) id offset length,
         SendPool (mSendBufferCount p) (mSendBufferLength p) (mSendData p) rest)
  end.

(** [acquireSendBuffer()]: maximum size. *)
Definition acquireSendBuffer (p : send_pool) : ibuffer * send_pool :=
  acquireSendBuffer_len (mSendBufferLength p) p.

(** [releaseSendBuffer(uint16_t id)]. *)
Definition releaseSendBuffer_id (id : Z) (p : send_pool) : send_pool :=
  if id =? InfinibandBuffer.INVALID_ID then p
  else SendPool (mSendBufferCount p) (mSendBufferLength p) (mSendData p) (id :: mSendBufferQueue p).

(** [releaseSendBuffer(InfinibandBuffer&)]: a buffer of another region is refused. *)
Definition releaseSendBuffer (b : ibuffer) (p : send_pool) : send_pool :=
  if region_belongsTo (mSendData p) b then releaseSendBuffer_id (InfinibandBuffer.mId b) p else p.

(** The pool's invariant: the free ids are distinct ids of the pool, and the region
    holds one buffer per id.  [out] are the ids handed out. *)
Definition pool_wf (p : send_pool) (out : list Z) : Prop :=
  0 <= mSendBufferCount p < 2 ^ 16 /\ 0 <= mSendBufferLength p < 2 ^ 32 /\
  mr_length (mSendData p) = mSendBufferCount p * mSendBufferLength p /\
  0 <= mr_addr (mSendData p) /\ mr_addr (mSendData p) + mr_length (mSendData p) < 2 ^ 64 /\
  Permutation (mSendBufferQueue p ++ out) (seqZ 0 (mSendBufferCount p)).

(** The bytes of buffer [id]. *)
Definition buffer_addr (p : send_pool) (id : Z) : Z :=
  mr_addr (mSendData p) + id * mSendBufferLength p.

Lemma pool_make_wf count length data :
  0 <= count < 2 ^ 16 -> 0 <= length < 2 ^ 32 -> mr_length data = count * length ->
  0 <= mr_addr data -> mr_addr data + mr_length data < 2 ^ 64 ->
  pool_wf (pool_make count length data) [].
Proof.
  intros. unfold pool_wf. simpl. split_and!; try lia.
  rewrite app_nil_r. symmetry. apply Permutation_rev.
Qed.

Lemma pool_wf_id p out id :
  pool_wf p out -> id ∈ mSendBufferQueue p ++ out -> 0 <= id < mSendBufferCount p.
Proof.
  intros (_ & _ & _ & _ & _ & Hp) Hid. rewrite Hp in Hid. apply elem_of_seqZ in Hid. lia.
Qed.

Lemma pool_wf_nodup p out : pool_wf p out -> NoDup (mSendBufferQueue p ++ out).
Proof. intros (_ & _ & _ & _ & _ & Hp). rewrite Hp. apply NoDup_seqZ. Qed.

Lemma acquire_cons p out id rest length :
  pool_wf p out -> mSendBufferQueue p = id :: rest -> 0 <= length <= mSendBufferLength p ->
  acquireSendBuffer_len length p =
    (InfinibandBuffer.Buffer (Sge (buffer_addr p id) length (mr_lkey (mSendData p))) id,
     SendPool (mSendBufferCount p) (mSendBufferLength p) (mSendData p) rest).
Proof.
  intros Hwf Hq Hl. assert (0 <= id < mSendBufferCount p) as Hid.
  { eapply pool_wf_id; [done|]. rewrite Hq. by left. }
  destruct Hwf as (Hc & Hlen & Hr & Ha & Hb & _).
  unfold acquireSendBuffer_len, buffer_addr. rewrite Hq.
  case_test; [lia|]. unfold region_acquireBuffer.
  assert (id * mSendBufferLength p + length <= mr_length (mSendData p)) by nia.
  assert (0 <= id * mSendBufferLength p) by nia.
  rewrite (u64_small (id * mSendBufferLength p)) by lia.
  rewrite (u64_small (id * mSendBufferLength p + length)) by lia.
  case_test; [lia|]. by rewrite u64_small by lia.
Qed.

Lemma acquire_wf p out length id rest :
  pool_wf p out -> mSendBufferQueue p = id :: rest -> 0 <= length <= mSendBufferLength p ->
  pool_wf (acquireSendBuffer_len length p).2 (id :: out).
Proof.
  intros Hwf Hq Hl. rewrite (acquire_cons _ out _ _ _ Hwf Hq Hl). simpl.
  destruct Hwf as (?&?&?&?&?& Hp). split_and!; simpl; try done; try lia.
  rewrite <-Permutation_middle. by rewrite Hq in Hp.
Qed.

Lemma release_wf p out b :
  pool_wf p (InfinibandBuffer.mId b :: out) -> region_belongsTo (mSendData p) b = true ->
  pool_wf (releaseSendBuffer b p) out.
Proof.
  intros Hwf Hb. assert (0 <= InfinibandBuffer.mId b < mSendBufferCount p) as Hid.
  { eapply pool_wf_id; [done|]. set_solver. }
  unfold releaseSendBuffer. rewrite Hb. unfold releaseSendBuffer_id.
  destruct Hwf as (Hc&?&?&?&?& Hp). case_test.
  { unfold InfinibandBuffer.INVALID_ID in *. lia. }
  split_and!; simpl; try done; try lia. by rewrite <-Hp, <-Permutation_middle.
Qed.

(** Buffers with different ids share no byte. *)
Lemma buffers_disjoint p i j :
  0 <= mSendBufferLength p -> i <> j ->
  disj (buffer_addr p i) (mSendBufferLength p) (buffer_addr p j) (mSendBufferLength p).
Proof. intros. unfold disj, buffer_addr. nia. Qed.

(** a well-formed pool hands out a buffer that lies inside the registered region,
    is not handed out already and shares no byte with any buffer that is; an empty
    pool or an oversized request yields an invalid buffer and changes nothing. *)
Theorem acquireSendBuffer_correct p out length :
  pool_wf p out -> 0 <= length < 2 ^ 32 ->
  let (b, p') := acquireSendBuffer_len length p in
  if InfinibandBuffer.valid b then
    pool_wf p' (InfinibandBuffer.mId b :: out) /\ (InfinibandBuffer.mId b ∉ out) /\
    InfinibandBuffer.length b = length /\ length <= mSendBufferLength p /\
    mr_addr (mSendData p) <= InfinibandBuffer.data b /\
    InfinibandBuffer.data b + length <= mr_addr (mSendData p) + mr_length (mSendData p) /\
    (forall i, i ∈ out -> disj (InfinibandBuffer.data b) length (buffer_addr p i) (mSendBufferLength p))
  else p' = p /\ (mSendBufferQueue p = [] \/ mSendBufferLength p < length).
Proof.
  intros Hwf Hl. destruct (acquireSendBuffer_len length p) as [b p'] eqn:E.
  destruct (mSendBufferQueue p) as [|id rest] eqn:Hq.
  { unfold acquireSendBuffer_len in E. rewrite Hq in E. simplify_eq. simpl. tauto. }
  destruct (decide (length <= mSendBufferLength p)) as [Hle|Hgt].
  - pose proof (acquire_wf p out length id rest Hwf Hq ltac:(lia)) as Hwf'. rewrite E in Hwf'.
    rewrite (acquire_cons _ out _ _ _ Hwf Hq) in E by lia. simplify_eq. simpl in *.
    assert (0 <= id < mSendBufferCount p) as Hid.
    { eapply pool_wf_id; [done|]. rewrite Hq. by left. }
    pose proof (pool_wf_nodup _ _ Hwf') as Hnd. simpl in Hnd.
    apply list.NoDup_app in Hnd as (_ & _ & Hnd). apply list.NoDup_cons in Hnd as [Hid' _].
    destruct Hwf as (Hc & Hlen & Hr & Ha & Hb & _).
    unfold InfinibandBuffer.valid, InfinibandBuffer.INVALID_ID. simpl.
    case_test; [|bool_prop; lia]. clear Heqb.
    split_and!; try done; unfold InfinibandBuffer.data, buffer_addr; simpl; [nia|nia|].
    intros i Hi. assert (i <> id) by (intros ->; done).
    pose proof (buffers_disjoint p id i ltac:(lia) ltac:(done)) as Hd.
    unfold disj, buffer_addr in *. simpl. lia.
  - unfold acquireSendBuffer_len in E. rewrite Hq in E.
    destruct (mSendBufferLength p <? length) eqn:?; bool_prop; [|lia]. simplify_eq. simpl. split; [done|]. right. lia.
Qed.

(** A pool of two buffers of 8 bytes. *)
Definition demo_pool : send_pool := pool_make 2 8 (Region 4096 16 1 1).

Lemma demo_pool_wf : pool_wf demo_pool [].
Proof. apply pool_make_wf; simpl; lia. Qed.

Lemma acquireSendBuffer_correct_witness :
  pool_wf (acquireSendBuffer_len 8 demo_pool).2 [1] /\
  InfinibandBuffer.data (acquireSendBuffer_len 8 demo_pool).1 = 4104.
Proof.
  split; [|reflexivity].
  exact (proj1 (acquireSendBuffer_correct demo_pool [] 8 demo_pool_wf ltac:(lia))).
Defined.

(** releasing a buffer makes its id available again: acquire after release hands
    out the same buffer, and the pool is as before. *)
Theorem release_acquire p out b :
  pool_wf p (InfinibandBuffer.mId b :: out) -> region_belongsTo (mSendData p) b = true ->
  pool_wf (releaseSendBuffer b p) out /\
  acquireSendBuffer (releaseSendBuffer b p) =
    (InfinibandBuffer.Buffer
       (Sge (buffer_addr p (InfinibandBuffer.mId b)) (mSendBufferLength p) (mr_lkey (mSendData p)))
       (InfinibandBuffer.mId b), p).
Proof.
  intros Hwf Hb. pose proof (release_wf _ _ _ Hwf Hb) as Hwf'. split; [done|].
  assert (0 <= InfinibandBuffer.mId b < mSendBufferCount p) as Hid.
  { eapply pool_wf_id; [done|]. set_solver. }
  destruct (Hwf) as (Hc & Hlen & _).
  assert (releaseSendBuffer b p = SendPool (mSendBufferCount p) (mSendBufferLength p) (mSendData p)
    (InfinibandBuffer.mId b :: mSendBufferQueue p)) as Hrel.
  { unfold releaseSendBuffer. rewrite Hb. unfold releaseSendBuffer_id.
    case_test; [|done]. unfold InfinibandBuffer.INVALID_ID in *. lia. }
  unfold acquireSendBuffer. rewrite (acquire_cons _ out (InfinibandBuffer.mId b) (mSendBufferQueue p));
    [|done|by rewrite Hrel|rewrite Hrel; simpl; lia].
  rewrite Hrel. by destruct p.
Qed.

Lemma demo_pool_out : pool_wf (acquireSendBuffer_len 8 demo_pool).2 [1].
Proof. apply (acquire_wf demo_pool [] 8 1 [0]); [apply demo_pool_wf|done|simpl; lia]. Qed.

Lemma release_acquire_witness :
  pool_wf (releaseSendBuffer (acquireSendBuffer_len 8 demo_pool).1 (acquireSendBuffer_len 8 demo_pool).2) [].
Proof.
  apply (release_acquire (acquireSendBuffer_len 8 demo_pool).2 [] (acquireSendBuffer_len 8 demo_pool).1);
    [apply demo_pool_out|reflexivity].
Defined.
