(* ===== verification/IbSocket.v ===== *)
(** * Sending on an Infiniband socket

    The data path of [libs/infinio/src/InfinibandSocket.cpp]: building a work
    request for a send or an RDMA read or write, the range checks, and posting it on
    the queue pair ([doSend]).  The verbs library is not part of the repository:
    [ibv_post_send] and [rdma_disconnect] are oracles of the [Verbs] class that may
    answer any error number, and a posted request is recorded together with the
    bytes its scatter/gather list covers at that moment, which is what the adapter
    transmits. *)

From S2P Require Import Prelude Memory ByteBuffer Ids ErrorCode IbBuffer.

Inductive wr_opcode :=
  | IBV_WR_SEND | IBV_WR_RDMA_READ | IBV_WR_RDMA_WRITE | IBV_WR_RDMA_WRITE_WITH_IMM.

(** [struct ibv_send_wr], the fields the code sets (the rest is zeroed). *)
Record send_wr := SendWr {
  wr_op : wr_opcode;
  wr_id : Z;
  wr_sg_list : list ibv_sge;
  wr_num_sge : Z;
  wr_send_flags : Z;
  wr_imm_data : Z;
  wr_remote_addr : Z;
  wr_rkey : Z
}.

Definition IBV_SEND_SIGNALED : Z := 2.

(** The parts of the system one socket touches. *)
Record net := Net {
  n_mem : mem;
  n_pool : send_pool;
  n_open : bool;                          (* mId != nullptr *)
  n_processor : bool;                     (* mProcessor != nullptr *)
  n_qp : bool;                            (* mId->qp != nullptr, socket in mSocketMap *)
  n_data : list Z;                        (* mData *)
  n_posted : list (send_wr * list Z);     (* requests on the queue pair, oldest first *)
  n_disconnects : nat;                    (* calls to rdma_disconnect *)
  n_draining : nat                        (* entries of mDrainingQueue *)
}.

Definition set_mem (m : mem) (n : net) : net :=
  Net m (n_pool n) (n_open n) (n_processor n) (n_qp n) (n_data n) (n_posted n) (n_disconnects n) (n_draining n).
Definition set_pool (p : send_pool) (n : net) : net :=
  Net (n_mem n) p (n_open n) (n_processor n) (n_qp n) (n_data n) (n_posted n) (n_disconnects n) (n_draining n).
Definition set_open (b : bool) (n : net) : net :=
  Net (n_mem n) (n_pool n) b (n_processor n) (n_qp n) (n_data n) (n_posted n) (n_disconnects n) (n_draining n).
Definition set_processor (b : bool) (n : net) : net :=
  Net (n_mem n) (n_pool n) (n_open n) b (n_qp n) (n_data n) (n_posted n) (n_disconnects n) (n_draining n).
Definition set_qp (b : bool) (n : net) : net :=
  Net (n_mem n) (n_pool n) (n_open n) (n_processor n) b (n_data n) (n_posted n) (n_disconnects n) (n_draining n).
Definition set_data (d : list Z) (n : net) : net :=
  Net (n_mem n) (n_pool n) (n_open n) (n_processor n) (n_qp n) d (n_posted n) (n_disconnects n) (n_draining n).
Definition set_posted (l : list (send_wr * list Z)) (n : net) : net :=
  Net (n_mem n) (n_pool n) (n_open n) (n_processor n) (n_qp n) (n_data n) l (n_disconnects n) (n_draining n).
Definition set_disconnects (k : nat) (n : net) : net :=
  Net (n_mem n) (n_pool n) (n_open n) (n_processor n) (n_qp n) (n_data n) (n_posted n) k (n_draining n).
Definition set_draining (k : nat) (n : net) : net :=
  Net (n_mem n) (n_pool n) (n_open n) (n_processor n) (n_qp n) (n_data n) (n_posted n) (n_disconnects n) k.

(** The verbs and connection-manager calls: each answers 0 or an error number. *)
Class Verbs := {
  ibv_post_send : list (send_wr * list Z) -> send_wr -> Z;
  rdma_disconnect : nat -> Z;
  rdma_create_id : net -> Z;
  rdma_resolve_addr : net -> Z;
  rdma_resolve_route : net -> Z;
  rdma_create_qp : net -> Z;
  rdma_connect : net -> Z;
  rdma_accept : net -> Z;
  rdma_destroy_id : net -> Z
}.

(** Running a memory operation inside the system. *)
Definition on_mem {A} (x : St mem A) : St net A := fun n =>
  match x (n_mem n) with
  | Ok a m => Ok a (set_mem m n)
  | Throw e m => Throw e (set_mem m n)
  | UB => UB
  | NoFuel => NoFuel
  end.

(** The bytes a scatter/gather list covers. *)
Fixpoint gather (l : list ibv_sge) : St mem (list Z) :=
  match l with
  | [] => ret []
  | e :: l =>
      let! b := load_bytes (Z.to_nat (sge_length e)) (sge_addr e) in
      let! r := gather l in
      ret (b ++ r)
  end.

(** What a request puts on the wire: the gathered bytes of a send or RDMA write,
    nothing for an RDMA read, whose list is the destination. *)
Definition wr_payload (wr : send_wr) : St mem (list Z) :=
  match wr_op wr with
  | IBV_WR_RDMA_READ => ret []
  | _ => gather (wr_sg_list wr)
  end.

Section Socket.
Context `{Verbs}.

(** [doSend(wr, ec)]. *)
Definition doSend (wr : send_wr) (ec : error_code) : St net error_code :=
  let! n := get in
  if negb (n_open n) then throw (SystemError errc_bad_file_descriptor)
  else
    let res := ibv_post_send (n_posted n) wr in
    if negb (res =? 0) then ret (generic_error_code res)
    else
      let! payload := on_mem (wr_payload wr) in
      do! put (set_posted (n_posted n ++ [(wr, payload)]) n) in
      ret ec.

(** [send(buffer, userId, ec)]. *)
Definition socket_send (buffer : ibuffer) (userId : Z) (ec : error_code) : St net error_code :=
  doSend (SendWr IBV_WR_SEND
            (workRequestId_build userId (InfinibandBuffer.mId buffer) SEND)
            [InfinibandBuffer.mHandle buffer] 1 IBV_SEND_SIGNALED 0 0 0) ec.

(** The two buffer types of the templates [doRead] and [doWrite]. *)
Class BufferLike (B : Type) := {
  bl_id : B -> Z; bl_length : B -> Z; bl_count : B -> Z; bl_handle : B -> list ibv_sge
}.
#[global] Instance ibuffer_like : BufferLike ibuffer := {|
  bl_id := InfinibandBuffer.mId; bl_length := InfinibandBuffer.length;
  bl_count := InfinibandBuffer.count; bl_handle := fun b => [InfinibandBuffer.mHandle b] |}.
#[global] Instance sg_buffer_like : BufferLike sg_buffer := {|
  bl_id := sg_id; bl_length := sg_length; bl_count := sg_count; bl_handle := sg_handle |}.

(** [doRead(src, offset, dst, userId, flags, ec)]. *)
Definition doRead {B} `{BufferLike B} (src : remote_region) (offset : Z) (dst : B)
    (userId flags : Z) (ec : error_code) : St net error_code :=
  if rm_length src <? u64 (offset + bl_length dst) then ret (network_error_code out_of_range)
  else
    doSend (SendWr IBV_WR_RDMA_READ (workRequestId_build userId (bl_id dst) READ)
              (bl_handle dst) (bl_count dst) flags 0
              (u64 (rm_address src + offset)) (rm_key src)) ec.

(** [doWrite(src, dst, offset, userId, flags, ec)]. *)
Definition doWrite {B} `{BufferLike B} (src : B) (dst : remote_region) (offset : Z)
    (userId flags : Z) (ec : error_code) : St net error_code :=
  if rm_length dst <? u64 (offset + bl_length src) then ret (network_error_code out_of_range)
  else
    doSend (SendWr IBV_WR_RDMA_WRITE (workRequestId_build userId (bl_id src) WRITE)
              (bl_handle src) (bl_count src) flags 0
              (u64 (rm_address dst + offset)) (rm_key dst)) ec.

(** [htonl] on a little-endian host. *)
Definition htonl (x : Z) : Z := le_val (rev (le_bytes 4 x)).

(** [doWrite] with immediate data. *)
Definition doWrite_imm {B} `{BufferLike B} (src : B) (dst : remote_region) (offset : Z)
    (userId immediate flags : Z) (ec : error_code) : St net error_code :=
  if rm_length dst <? u64 (offset + bl_length src) then ret (network_error_code out_of_range)
  else
    doSend (SendWr IBV_WR_RDMA_WRITE_WITH_IMM (workRequestId_build userId (bl_id src) WRITE)
              (bl_handle src) (bl_count src) flags (htonl immediate)
              (u64 (rm_address dst + offset)) (rm_key dst)) ec.

(** The public overloads: signalled or not, plain or scatter/gather buffer. *)
Definition socket_read {B} `{BufferLike B} src offset (dst : B) userId ec :=
  doRead src offset dst userId IBV_SEND_SIGNALED ec.
Definition socket_readUnsignaled {B} `{BufferLike B} src offset (dst : B) userId ec :=
  doRead src offset dst userId 0 ec.
Definition socket_write {B} `{BufferLike B} (src : B) dst offset userId ec :=
  doWrite src dst offset userId IBV_SEND_SIGNALED ec.
Definition socket_write_imm {B} `{BufferLike B} (src : B) dst offset userId immediate ec :=
  doWrite_imm src dst offset userId immediate IBV_SEND_SIGNALED ec.
Definition socket_writeUnsignaled {B} `{BufferLike B} (src : B) dst offset userId ec :=
  doWrite src dst offset userId 0 ec.
Definition socket_writeUnsignaled_imm {B} `{BufferLike B} (src : B) dst offset userId immediate ec :=
  doWrite_imm src dst offset userId immediate 0 ec.

(** [acquireSendBuffer()] and [releaseSendBuffer(buffer)] forward to the pool of the
    processor's completion context. *)
Definition socket_acquireSendBuffer : St net ibuffer := fun n =>
  let (b, p) := acquireSendBuffer (n_pool n) in Ok b (set_pool p n).
Definition socket_releaseSendBuffer (b : ibuffer) : St net unit := fun n =>
  Ok tt (set_pool (releaseSendBuffer b (n_pool n)) n).

(** Raising the error number of a failed call. *)
Definition check_errno (res : Z) : St net unit :=
  if res =? 0 then ret tt else throw (SystemError res).

(** [open()]. *)
Definition socket_open : St net unit :=
  let! n := get in
  if n_open n then throw (SystemError (network_value already_open))
  else do! check_errno (rdma_create_id n) in put (set_open true n).

(** [close()]: waits until the queue pair is gone; [NoFuel] stands for the wait
    while it exists. *)
Definition socket_close : St net unit :=
  let! n := get in
  if negb (n_open n) then ret tt
  else if n_qp n then nofuel
  else do! check_errno (rdma_destroy_id n) in put (set_open false n).

(** [connect(addr, data)]. *)
Definition socket_connect (data : list Z) : St net unit :=
  let! n := get in
  do! put (set_data data n) in
  if negb (n_open n) then throw (SystemError errc_bad_file_descriptor)
  else check_errno (rdma_resolve_addr n).

(** [disconnect()]. *)
Definition socket_disconnect : St net unit :=
  let! n := get in
  if negb (n_open n) then throw (SystemError errc_bad_file_descriptor)
  else
    do! put (set_disconnects (S (n_disconnects n)) n) in
    check_errno (rdma_disconnect (n_disconnects n)).

(** [CompletionContext::addConnection], [removeConnection] and [drainConnection]. *)
Definition addConnection : St net unit :=
  let! n := get in
  do! check_errno (rdma_create_qp n) in put (set_qp true n).
Definition removeConnection : St net unit :=
  let! n := get in
  if negb (n_qp n) then ret tt else put (set_qp false n).
Definition drainConnection : St net unit :=
  let! n := get in put (set_draining (S (n_draining n)) n).

(** [accept(data, processor)]. *)
Definition socket_accept : St net unit :=
  let! n := get in
  if n_processor n then throw (SystemError errc_already_connected)
  else
    do! put (set_processor true n) in
    do! addConnection in
    let! n := get in
    let res := rdma_accept n in
    if res =? 0 then ret tt
    else do! removeConnection in throw (SystemError res).

(** ** Properties *)

Lemma doSend_posted wr ec n ec' n' :
  doSend wr ec n = Ok ec' n' ->
  (n' = n /\ ec' = generic_error_code (ibv_post_send (n_posted n) wr) /\ ec_bool ec' = true) \/
  (ec' = ec /\ exists payload, n' = set_posted (n_posted n ++ [(wr, payload)]) n).
Proof.
  unfold doSend, bind, get, on_mem, put, ret, throw. destruct (n_open n); simpl; [|done].
  destruct (ibv_post_send (n_posted n) wr =? 0) eqn:E; simpl.
  - destruct (wr_payload wr (n_mem n)) eqn:Ep; simpl; try done.
    intros ?. simplify_eq. right. split; [done|]. by eexists.
  - intros ?. simplify_eq. left. split_and!; try done. unfold ec_bool. simpl. by rewrite E.
Qed.

(** The remote range a posted RDMA request addresses. *)
Definition in_remote (r : remote_region) (addr length : Z) : Prop :=
  rm_address r <= addr /\ addr + length <= rm_address r + rm_length r.

Definition posts_in_range {B} `{BufferLike B} (op : St net error_code) (r : remote_region) (b : B) : Prop :=
  forall n ec' n', op n = Ok ec' n' -> n_posted n' <> n_posted n ->
  exists wr payload, n_posted n' = n_posted n ++ [(wr, payload)] /\
    in_remote r (wr_remote_addr wr) (bl_length b) /\ wr_rkey wr = rm_key r.

Lemma doSend_in_range {B} `{BufferLike B} wr ec r offset (b : B) :
  0 <= offset -> 0 <= bl_length b -> offset + bl_length b < 2 ^ 64 ->
  0 <= rm_address r -> rm_address r + rm_length r < 2 ^ 64 -> offset + bl_length b <= rm_length r ->
  wr_remote_addr wr = u64 (rm_address r + offset) -> wr_rkey wr = rm_key r ->
  posts_in_range (doSend wr ec) r b.
Proof.
  intros H1 H2 H3 H4 H5 H6 Haddr Hkey n ec' n' Hrun Hne.
  destruct (doSend_posted _ _ _ _ _ Hrun) as [(-> & _ & _)|(_ & payload & ->)]; [done|].
  exists wr, payload. split; [done|]. split; [|done].
  rewrite Haddr, u64_small by lia. unfold in_remote. lia.
Qed.

(** C36: an RDMA read or write whose offset and length do not overflow [size_t] never
    posts a request outside the remote region: out-of-range requests are answered
    with [out_of_range] and post nothing. *)
Theorem rdma_in_range {B} `{BufferLike B} (b : B) r offset userId imm flags ec :
  0 <= offset -> 0 <= bl_length b -> offset + bl_length b < 2 ^ 64 ->
  0 <= rm_address r -> rm_address r + rm_length r < 2 ^ 64 ->
  posts_in_range (doRead r offset b userId flags ec) r b /\
  posts_in_range (doWrite b r offset userId flags ec) r b /\
  posts_in_range (doWrite_imm b r offset userId imm flags ec) r b /\
  (rm_length r < offset + bl_length b -> forall n,
     doRead r offset b userId flags ec n = Ok (network_error_code out_of_range) n /\
     doWrite b r offset userId flags ec n = Ok (network_error_code out_of_range) n /\
     doWrite_imm b r offset userId imm flags ec n = Ok (network_error_code out_of_range) n).
Proof.
  intros H1 H2 H3 H4 H5. unfold doRead, doWrite, doWrite_imm. rewrite u64_small by lia.
  destruct (rm_length r <? offset + bl_length b) eqn:E; bool_prop.
  - split_and!; [by intros n ec' n' Hr Hne; unfold ret in Hr; simplify_eq..|done].
  - split_and!; [by apply (doSend_in_range _ _ _ offset); try lia..|lia].
Qed.

End Socket.

(** The oracle that accepts everything. *)
Definition verbs_ok : Verbs := {|
  ibv_post_send := fun _ _ => 0; rdma_disconnect := fun _ => 0; rdma_create_id := fun _ => 0;
  rdma_resolve_addr := fun _ => 0; rdma_resolve_route := fun _ => 0; rdma_create_qp := fun _ => 0;
  rdma_connect := fun _ => 0; rdma_accept := fun _ => 0; rdma_destroy_id := fun _ => 0 |}.

#[local] Existing Instance verbs_ok.

Definition demo_net : net :=
  Net (Mem (write_bytes ∅ 4096 (replicate 16 7)) ∅ []) (pool_make 2 8 (Region 4096 16 1 1))
    true true true [] [] 0 0.

Lemma rdma_in_range_witness :
  posts_in_range
    (doWrite (InfinibandBuffer.Buffer (Sge 4096 8 1) 0) (RemoteRegion 65536 64 9) 56 3 0 no_error)
    (RemoteRegion 65536 64 9) (InfinibandBuffer.Buffer (Sge 4096 8 1) 0).
Proof.
  eapply (rdma_in_range (InfinibandBuffer.Buffer (Sge 4096 8 1) 0) (RemoteRegion 65536 64 9) 56 3 0 0 no_error);
    vm_compute; congruence.
Defined.

(** the range check adds [offset] and the length in [size_t]: an offset close to
    2^64 wraps around, passes the check and posts a request in front of the region. *)
Theorem rdma_check_wraps :
  exists n ec' n' wr,
    doWrite (InfinibandBuffer.Buffer (Sge 4096 8 1) 0) (RemoteRegion 65536 64 9)
      (2 ^ 64 - 8) 3 0 no_error n = Ok ec' n' /\
    ec_bool ec' = false /\ n_posted n' = n_posted n ++ [wr] /\
    wr_remote_addr wr.1 < 65536.
Proof. exists demo_net. eexists _, _, _. split_and!; vm_compute; reflexivity. Qed.
