(* ===== verification/Batching.v ===== *)
(** * Message batching over an Infiniband socket

    [libs/infinio/include/crossbow/infinio/BatchingMessageSocket.hpp].  Messages are
    framed (64-bit id, 32-bit type, 32-bit length, body, padding to 8 bytes) into a
    shared send buffer that is sent when it is full, when the batch limit is reached,
    or by the flush task at the end of the poll round.  The receiver takes a buffer
    apart again.  The derived class ([Handler], the curiously recurring template
    parameter) is the interface [MessageHandler]. *)

From S2P Require Import Prelude Memory ByteBuffer Ids ErrorCode IbBuffer IbSocket.

Inductive ConnectionState := DISCONNECTED | SHUTDOWN | CONNECTING | CONNECTED.

#[global] Instance ConnectionState_eq_dec : EqDecision ConnectionState.
Proof. solve_decision. Defined.

(** The members of [BatchingMessageSocket]. *)
Record bsock := BSock {
  mMaxBatchSize : Z;
  mBuffer : ibuffer;
  mSendBuffer : buffer_writer;
  mBatchSize : Z;
  mState : ConnectionState;
  mFlush : bool
}.

Definition set_buffer (b : ibuffer) (s : bsock) :=
  BSock (mMaxBatchSize s) b (mSendBuffer s) (mBatchSize s) (mState s) (mFlush s).
Definition set_writer (w : buffer_writer) (s : bsock) :=
  BSock (mMaxBatchSize s) (mBuffer s) w (mBatchSize s) (mState s) (mFlush s).
Definition set_batch (n : Z) (s : bsock) :=
  BSock (mMaxBatchSize s) (mBuffer s) (mSendBuffer s) n (mState s) (mFlush s).
Definition set_state (c : ConnectionState) (s : bsock) :=
  BSock (mMaxBatchSize s) (mBuffer s) (mSendBuffer s) (mBatchSize s) c (mFlush s).
Definition set_flush (b : bool) (s : bsock) :=
  BSock (mMaxBatchSize s) (mBuffer s) (mSendBuffer s) (mBatchSize s) (mState s) b.

(** The socket, the system under it, the flush tasks in the processor's local queue
    and the state [U] of the derived class. *)
Record world (U : Type) := World {
  w_net : net;
  w_sock : bsock;
  w_tasks : nat;
  w_user : U
}.
Arguments World {U}.
Arguments w_net {U}.
Arguments w_sock {U}.
Arguments w_tasks {U}.
Arguments w_user {U}.

(** What the socket calls on the derived class. *)
Class MessageHandler (U : Type) := {
  onSocketConnected : list Z -> St (world U) unit;
  onMessage : Z -> Z -> buffer_reader -> St (world U) buffer_reader;
  onSocketDisconnected : St (world U) unit
}.

Definition HEADER_SIZE : Z := 16.

Section Ops.
Context {U : Type}.
Abbreviation M := (St (world U)).

Definition with_net (n : net) (w : world U) : world U := World n (w_sock w) (w_tasks w) (w_user w).
Definition with_sock (s : bsock) (w : world U) : world U := World (w_net w) s (w_tasks w) (w_user w).
Definition with_tasks (k : nat) (w : world U) : world U := World (w_net w) (w_sock w) k (w_user w).
Definition w_mem (w : world U) : mem := n_mem (w_net w).
Definition with_mem (m : mem) (w : world U) : world U := with_net (set_mem m (w_net w)) w.

Definition on_net {A} (x : St net A) : M A := fun w =>
  match x (w_net w) with
  | Ok a n => Ok a (with_net n w)
  | Throw e n => Throw e (with_net n w)
  | UB => UB
  | NoFuel => NoFuel
  end.
Definition in_mem {A} (x : St mem A) : M A := on_net (on_mem x).

Definition sock : M bsock := fun w => Ok (w_sock w) w.
Definition smod (f : bsock -> bsock) : M unit := fun w => Ok tt (with_sock (f (w_sock w)) w).

(** [try { x } catch (std::system_error&) { log }]. *)
Definition catch_system (x : M unit) : M unit := fun w =>
  match x w with
  | Throw (SystemError _) w' => Ok tt w'
  | r => r
  end.

(** [mSendBuffer = buffer_writer(...)]: move assignment, then the temporary dies. *)
Definition assign_writer (new : buffer_writer) : M unit :=
  let! s := sock in
  let! (this, tmp) := in_mem (writer_move_assign (mSendBuffer s) new) in
  do! smod (set_writer this) in
  in_mem (writer_destroy tmp).

(** The constructor: the socket is opened when it is not open yet. *)
Definition bsock_make (maxBatchSize : Z) : bsock :=
  BSock maxBatchSize InfinibandBuffer.invalid (mk_writer 0 0) 0 DISCONNECTED false.

Section WithVerbs.
Context `{Verbs}.

Definition construct (maxBatchSize : Z) : M unit :=
  do! smod (fun _ => bsock_make maxBatchSize) in
  let! w := get in
  if n_open (w_net w) then ret tt else on_net socket_open.

Definition isConnected (s : bsock) : bool := bool_decide (mState s = CONNECTED).

(** [~BatchingMessageSocket()]; [NoFuel] stands for the wait while the socket is in
    [SHUTDOWN]. *)
Definition destruct_socket : M unit :=
  let! s := sock in
  if bool_decide (mState s = SHUTDOWN) then nofuel
  else
    do! massert (bool_decide (mState s = DISCONNECTED)) in
    catch_system (on_net socket_close).

(** [connect(endpoint, data)]. *)
Definition bconnect (data : list Z) : M unit :=
  let! s := sock in
  if negb (bool_decide (mState s = DISCONNECTED)) then throw (SystemError errc_already_connected)
  else
    do! on_net (socket_connect data) in
    smod (set_state CONNECTING).

(** [accept(data, processor)]. *)
Definition baccept : M unit :=
  let! s := sock in
  if negb (bool_decide (mState s = DISCONNECTED)) then throw (SystemError errc_already_connected)
  else
    do! on_net socket_accept in
    smod (set_state CONNECTING).

(** [shutdown()]. *)
Definition bshutdown : M unit :=
  let! s := sock in
  if negb (bool_decide (mState s = CONNECTED)) then throw (SystemError errc_not_connected)
  else
    do! smod (set_state SHUTDOWN) in
    catch_system (on_net socket_disconnect).

(** [handleSocketError(ec)]: logs, then shuts down. *)
Definition handleSocketError (ec : error_code) : M unit := bshutdown.

(** [sendCurrentBuffer(ec)]. *)
Definition sendCurrentBuffer (ec : error_code) : M error_code :=
  let! s := sock in
  if negb (InfinibandBuffer.valid (mBuffer s)) then ret ec
  else
    let bytesWritten := u64 (writer_data (mSendBuffer s) - InfinibandBuffer.data (mBuffer s)) in
    let buffer := InfinibandBuffer.shrink (mBuffer s) (u32 bytesWritten) in
    do! smod (set_buffer buffer) in
    let! ec := on_net (socket_send buffer 0 ec) in
    do! (if ec_bool ec then on_net (socket_releaseSendBuffer buffer) else ret tt) in
    do! smod (set_batch 0) in
    do! smod (set_buffer InfinibandBuffer.invalid) in
    do! assign_writer (mk_writer 0 0) in
    ret ec.

(** The task [scheduleFlush] enqueues. *)
Definition flush_task : M unit :=
  do! smod (set_flush false) in
  let! s := sock in
  if negb (InfinibandBuffer.valid (mBuffer s)) then ret tt
  else if writer_data (mSendBuffer s) =? InfinibandBuffer.data (mBuffer s) then
    do! massert (mBatchSize s =? 0) in
    do! on_net (socket_releaseSendBuffer (mBuffer s)) in
    do! smod (set_buffer InfinibandBuffer.invalid) in
    assign_writer (mk_writer 0 0)
  else
    let! ec := sendCurrentBuffer no_error in
    if ec_bool ec then handleSocketError ec else ret tt.

(** [scheduleFlush()]. *)
Definition scheduleFlush : M unit :=
  let! s := sock in
  if mFlush s then ret tt
  else
    do! (fun w => Ok tt (with_tasks (S (w_tasks w)) w)) in
    smod (set_flush true).

(** The poll loop runs one pending task. *)
Definition run_flush : M unit := fun w =>
  match w_tasks w with
  | O => Ok tt w
  | S k => flush_task (with_tasks k w)
  end.

(** [writeMessage]: take a fresh buffer from the pool.  [false] says that the function
    returns early with the error code. *)
Definition freshBuffer (length : Z) (ec : error_code) : M (bool * error_code) :=
  do! smod (set_batch 0) in
  let! buffer := on_net socket_acquireSendBuffer in
  do! smod (set_buffer buffer) in
  if negb (InfinibandBuffer.valid buffer) then
    do! assign_writer (mk_writer 0 0) in
    ret (false, network_error_code invalid_buffer)
  else
    do! assign_writer (mk_writer (InfinibandBuffer.data buffer) (InfinibandBuffer.length buffer)) in
    do! scheduleFlush in
    let! s := sock in
    if negb (canWrite (mSendBuffer s) length) then ret (false, rpc_error_code message_too_big)
    else ret (true, ec).

(** [writeMessage]: make room for [length] bytes. *)
Definition makeRoom (length : Z) (ec : error_code) : M (bool * error_code) :=
  let! s := sock in
  if InfinibandBuffer.valid (mBuffer s) &&
     (writer_data (mSendBuffer s) =? InfinibandBuffer.data (mBuffer s))
  then ret (false, rpc_error_code message_too_big)
  else
    let! ec := sendCurrentBuffer ec in
    if ec_bool ec then ret (false, ec) else freshBuffer length ec.

(** [writeMessage]: header, body written by [fun], padding. *)
Definition appendMessage (messageId messageType messageLength : Z)
    (fun_ : buffer_writer -> error_code -> M (buffer_writer * error_code)) (ec : error_code) :
    M error_code :=
  let! s := sock in
  let oldOffset := u32 (writer_data (mSendBuffer s) - InfinibandBuffer.data (mBuffer s)) in
  let! b := in_mem (writer_write 8 (mSendBuffer s) messageId) in
  let! b := in_mem (writer_write 4 b messageType) in
  let! b := in_mem (writer_write 4 b messageLength) in
  let (message, b) := writer_extract b messageLength in
  do! smod (set_writer (writer_align b 8)) in
  let! (message, ec) := fun_ message ec in
  let! s := sock in
  do! (if ec_bool ec then
         assign_writer (mk_writer (u64 (InfinibandBuffer.data (mBuffer s) + oldOffset))
                          (u32 (InfinibandBuffer.length (mBuffer s) - oldOffset)))
       else smod (fun s => set_batch (u64 (mBatchSize s + 1)) s)) in
  do! in_mem (writer_destroy message) in
  ret ec.

(** [writeMessage(messageId, messageType, messageLength, fun, ec)]. *)
Definition writeMessage (messageId messageType messageLength : Z)
    (fun_ : buffer_writer -> error_code -> M (buffer_writer * error_code)) (ec : error_code) :
    M error_code :=
  let length := u32 (HEADER_SIZE + messageLength) in
  let! s := sock in
  let! (go, ec) :=
    if negb (canWrite (mSendBuffer s) length) || (mMaxBatchSize s <=? mBatchSize s)
    then makeRoom length ec else ret (true, ec) in
  if go then appendMessage messageId messageType messageLength fun_ ec else ret ec.

Section Callbacks.
Context `{MessageHandler U}.

(** [onConnected(data, ec)]. *)
Definition onConnected (data : list Z) (ec : error_code) : M unit :=
  let! s := sock in
  do! massert (bool_decide (mState s = CONNECTING)) in
  if ec_bool ec then
    do! smod (set_state DISCONNECTED) in
    handleSocketError ec
  else
    do! smod (set_state CONNECTED) in
    onSocketConnected data.

(** The loop of [onReceive]; one message per round. *)
Fixpoint receive_loop (fuel : nat) (r : buffer_reader) : M unit :=
  match fuel with
  | O => nofuel
  | S k =>
      if canRead r HEADER_SIZE then
        let! (messageId, r) := in_mem (reader_read 8 r) in
        let! (messageType, r) := in_mem (reader_read 4 r) in
        let! (messageLength, r) := in_mem (reader_read 4 r) in
        if negb (canRead r messageLength) then
          do! handleSocketError (rpc_error_code invalid_message) in
          in_mem (reader_destroy r)
        else
          let (message, r) := reader_extract r messageLength in
          let! message := onMessage messageId messageType message in
          let r := reader_align r 8 in
          do! in_mem (reader_destroy message) in
          receive_loop k r
      else in_mem (reader_destroy r)
  end.

(** [onReceive(buffer, length, ec)]. *)
Definition onReceive (fuel : nat) (buffer length : Z) (ec : error_code) : M unit :=
  if ec_bool ec then handleSocketError ec
  else receive_loop fuel (mk_reader buffer length).

(** [onSend(userId, ec)], [onDisconnect()] and [onDisconnected()]. *)
Definition onSend (userId : Z) (ec : error_code) : M unit :=
  if ec_bool ec then handleSocketError ec else ret tt.
Definition onDisconnect : M unit := bshutdown.
Definition onDisconnected : M unit :=
  do! smod (set_state DISCONNECTED) in
  onSocketDisconnected.

End Callbacks.
End WithVerbs.
End Ops.
