(* ===== verification/BatchingSpec.v ===== *)
(** * What the batching socket promises

    The wire format as a relation between bytes and messages, the invariant of a
    sending socket, and the theorems: every message accepted by [writeMessage] is on
    the wire in order after a flush, exactly once, and [onReceive] on such a buffer
    calls the handler with exactly those messages. *)

From S2P Require Import Prelude Memory ByteBuffer Ids ErrorCode IbBuffer IbSocket Batching.

(** ** The wire format *)

Record msg := Msg { msg_id : Z; msg_type : Z; msg_body : list Z }.

Definition msg_wf (m : msg) : Prop :=
  0 <= msg_id m < 2 ^ 64 /\ 0 <= msg_type m < 2 ^ 32 /\ HEADER_SIZE + zlen (msg_body m) < 2 ^ 32.

Definition header (m : msg) : list Z :=
  le_bytes 8 (msg_id m) ++ le_bytes 4 (msg_type m) ++ le_bytes 4 (zlen (msg_body m)).

(** Size of a message on the wire, padding included. *)
Definition frame_len (m : msg) : Z := HEADER_SIZE + round_up (zlen (msg_body m)) 8.

Inductive framed : list Z -> list msg -> Prop :=
  | framed_nil : framed [] []
  | framed_cons m pad l ms :
      msg_wf m -> zlen (header m ++ msg_body m ++ pad) = frame_len m ->
      framed l ms -> framed ((header m ++ msg_body m ++ pad) ++ l) (m :: ms).

Lemma framed_app l1 m1 l2 m2 : framed l1 m1 -> framed l2 m2 -> framed (l1 ++ l2) (m1 ++ m2).
Proof.
  induction 1 as [|m pad l ms Hm Hlen Hl IH]; intros H2; [done|].
  rewrite <-app_assoc, <-app_comm_cons. constructor; auto.
Qed.

Lemma framed_single m pad :
  msg_wf m -> zlen (header m ++ msg_body m ++ pad) = frame_len m ->
  framed (header m ++ msg_body m ++ pad) [m].
Proof. intros. rewrite <-(app_nil_r (_ ++ _)). constructor; auto using framed_nil. Qed.

Lemma zlen_header m : zlen (header m) = 16.
Proof. unfold header, zlen. rewrite !length_app, !length_le_bytes. lia. Qed.

Lemma frame_len_mod m : frame_len m mod 8 = 0.
Proof.
  unfold frame_len, HEADER_SIZE. rewrite Zplus_mod, round_up_mod by lia. done.
Qed.

Lemma framed_mod l ms : framed l ms -> zlen l mod 8 = 0.
Proof.
  induction 1 as [|m pad l ms Hm Hlen Hl IH]; [done|].
  rewrite zlen_app, Hlen, Zplus_mod, frame_len_mod, IH. done.
Qed.

Lemma frame_len_bounds m : 16 + zlen (msg_body m) <= frame_len m < 24 + zlen (msg_body m).
Proof.
  unfold frame_len, HEADER_SIZE. pose proof (round_up_bounds (zlen (msg_body m)) 8 ltac:(lia)). lia.
Qed.

(** A message that fits without its padding fits with it, in a buffer whose length is
    a multiple of 8. *)
Lemma frame_fits l ms x L :
  framed l ms -> L mod 8 = 0 -> zlen l + HEADER_SIZE + zlen (msg_body x) <= L ->
  zlen l + frame_len x <= L.
Proof.
  intros Hl HL Hfit. pose proof (framed_mod _ _ Hl) as Hm. pose proof (frame_len_mod x) as Hx.
  pose proof (frame_len_bounds x). unfold HEADER_SIZE in *.
  apply Z.mod_divide in Hm as [a Ha], HL as [b Hb], Hx as [c Hc]; lia.
Qed.

(** An empty buffer carries no message and a non-empty one at least one. *)
Lemma framed_empty l ms : framed l ms -> zlen l = 0 <-> ms = [].
Proof.
  destruct 1 as [|m pad l ms Hm Hlen Hl]; [done|].
  rewrite zlen_app, Hlen. pose proof (frame_len_bounds m).
  pose proof (zlen_nonneg (msg_body m)). pose proof (zlen_nonneg l). split; [lia|done].
Qed.

(** ** Running the primitives *)

Section Prim.
Context {U : Type}.
Implicit Types w : world U.

Lemma wp_on_net {A} (x : St net A) w a n (Q : A -> world U -> Prop) :
  x (w_net w) = Ok a n -> Q a (with_net n w) -> wp (on_net x) w Q.
Proof. intros Hx HQ. unfold wp, on_net. by rewrite Hx. Qed.

Lemma wp_in_mem {A} (x : St mem A) w a m (Q : A -> world U -> Prop) :
  x (w_mem w) = Ok a m -> Q a (with_mem m w) -> wp (in_mem x) w Q.
Proof.
  intros Hx HQ. unfold in_mem. eapply wp_on_net; [|exact HQ].
  unfold on_mem. unfold w_mem in Hx. by rewrite Hx.
Qed.

Lemma in_mem_ok {A} (x : St mem A) w a m :
  x (w_mem w) = Ok a m -> in_mem x w = Ok a (with_mem m w).
Proof. intros Hx. unfold in_mem, on_net, on_mem. unfold w_mem in Hx. by rewrite Hx. Qed.

Lemma wp_assert_mem b w (Q : unit -> world U -> Prop) :
  b = true -> Q tt w -> wp (in_mem (massert b)) w Q.
Proof.
  intros -> HQ. eapply wp_in_mem; [done|]. by destruct w as [[] ? ? ?].
Qed.

Lemma wp_sock w (Q : bsock -> world U -> Prop) : Q (w_sock w) w -> wp sock w Q.
Proof. done. Qed.

Lemma wp_smod f w (Q : unit -> world U -> Prop) :
  Q tt (with_sock (f (w_sock w)) w) -> wp (smod f) w Q.
Proof. done. Qed.

Lemma assign_writer_ok new w :
  wPos (mSendBuffer (w_sock w)) <= wEnd (mSendBuffer (w_sock w)) ->
  assign_writer new w = Ok tt (with_sock (set_writer new (w_sock w)) w).
Proof.
  intros Hle. apply Z.leb_le in Hle.
  unfold assign_writer, in_mem, on_net, on_mem, bind, sock, smod, writer_move_assign, massert, bind.
  rewrite Hle. by destruct w as [[] [] ? ?], new.
Qed.

End Prim.

(** ** The invariant of a sending socket

    [sent]: messages in the posted requests; [pend]: messages in the current buffer.
    A valid buffer always has a flush pending. *)

Section Inv.
Context {U : Type}.
Implicit Types w : world U.

Definition buffer_ok w (out : list Z) (pend : list msg) : Prop :=
  let s := w_sock w in let p := n_pool (w_net w) in
  if InfinibandBuffer.valid (mBuffer s) then
    exists cur, framed cur pend /\
      mBuffer s = InfinibandBuffer.Buffer
        (Sge (buffer_addr p (InfinibandBuffer.mId (mBuffer s))) (mSendBufferLength p) (mr_lkey (mSendData p)))
        (InfinibandBuffer.mId (mBuffer s)) /\
      InfinibandBuffer.mId (mBuffer s) ∈ out /\
      mSendBuffer s = BufferWriter (InfinibandBuffer.data (mBuffer s) + zlen cur)
        (InfinibandBuffer.data (mBuffer s) + mSendBufferLength p) /\
      zlen cur <= mSendBufferLength p /\
      pts (w_mem w) (InfinibandBuffer.data (mBuffer s)) cur /\
      mFlush s = true /\ (pend = [] -> mBatchSize s = 0)
  else pend = [] /\ mSendBuffer s = BufferWriter 0 0.

(** The parts of the system the socket relies on. *)
Definition net_ok (n : net) (out : list Z) : Prop :=
  pool_wf (n_pool n) out /\ n_open n = true /\
  mSendBufferLength (n_pool n) mod 8 = 0 /\ mr_addr (mSendData (n_pool n)) mod 8 = 0 /\
  mr_addr (mSendData (n_pool n)) + mr_length (mSendData (n_pool n)) + 2 ^ 33 < 2 ^ 64 /\
  mapped (n_mem n) (mr_addr (mSendData (n_pool n))) (mr_length (mSendData (n_pool n))).

Definition payloads (n : net) : list (list Z) := map snd (n_posted n).

Definition Inv w (sent : list (list msg)) (pend : list msg) : Prop :=
  exists out, net_ok (w_net w) out /\ buffer_ok w out pend /\
    Forall2 framed (payloads (w_net w)) sent /\
    w_tasks w = (if mFlush (w_sock w) then 1%nat else 0%nat).

(** A [fun] argument of [writeMessage] that writes [body] and ends with [e]. *)
Definition writes_body (f : buffer_writer -> error_code -> St (world U) (buffer_writer * error_code))
    (body : list Z) (e : error_code) : Prop :=
  forall p w l0, pts (w_mem w) p l0 -> zlen l0 = zlen body ->
  exists b, f (BufferWriter p (p + zlen body)) no_error w = Ok (b, e) (with_mem (upd (w_mem w) p body) w) /\
    wPos b <= wEnd b.

(** The same socket with another message list follows from the parts that matter. *)
Lemma buffer_range p out id :
  pool_wf p out -> id ∈ out ->
  0 <= id < mSendBufferCount p /\ mr_addr (mSendData p) <= buffer_addr p id /\
  buffer_addr p id + mSendBufferLength p <= mr_addr (mSendData p) + mr_length (mSendData p).
Proof.
  intros Hwf Hid. assert (0 <= id < mSendBufferCount p) as H.
  { eapply pool_wf_id; [done|]. set_solver. }
  destruct Hwf as (? & ? & ? & ? & ? & ?). unfold buffer_addr. split; [done|]. nia.
Qed.

Lemma buffer_addr_mod p id :
  mSendBufferLength p mod 8 = 0 -> mr_addr (mSendData p) mod 8 = 0 -> buffer_addr p id mod 8 = 0.
Proof.
  intros H1 H2. unfold buffer_addr. rewrite Zplus_mod, H2, Zmult_mod, H1, Z.mul_0_r. done.
Qed.

Lemma pool_wf_perm p out out' : out ≡ₚ out' -> pool_wf p out -> pool_wf p out'.
Proof.
  intros Hp (?&?&?&?&?&Hq). split_and!; try done; try lia. by rewrite <-Hp.
Qed.

(** What an operation of the socket does not touch. *)
Definition keeps w w' : Prop :=
  mMaxBatchSize (w_sock w') = mMaxBatchSize (w_sock w) /\
  mState (w_sock w') = mState (w_sock w) /\ w_user w' = w_user w /\
  mSendBufferLength (n_pool (w_net w')) = mSendBufferLength (n_pool (w_net w)) /\
  n_disconnects (w_net w') = n_disconnects (w_net w) /\
  mSendData (n_pool (w_net w')) = mSendData (n_pool (w_net w)) /\
  forall a, a < mr_addr (mSendData (n_pool (w_net w))) \/
    mr_addr (mSendData (n_pool (w_net w))) + mr_length (mSendData (n_pool (w_net w))) <= a ->
    bytes (w_mem w') !! a = bytes (w_mem w) !! a.

Lemma keeps_refl w : keeps w w.
Proof. by unfold keeps. Qed.

Lemma keeps_trans w1 w2 w3 : keeps w1 w2 -> keeps w2 w3 -> keeps w1 w3.
Proof.
  unfold keeps. intros (? & ? & ? & ? & ? & Hd1 & Hm1) (? & ? & ? & ? & ? & Hd2 & Hm2).
  split_and!; try congruence. intros a Ha. rewrite Hm2, Hm1; [done..|by rewrite Hd1].
Qed.

Context `{Verbs}.

Lemma socket_send_ok n b ec payload :
  n_open n = true -> ibv_post_send (n_posted n) (SendWr IBV_WR_SEND
    (workRequestId_build 0 (InfinibandBuffer.mId b) SEND) [InfinibandBuffer.mHandle b] 1
    IBV_SEND_SIGNALED 0 0 0) = 0 ->
  pts (n_mem n) (InfinibandBuffer.data b) payload -> InfinibandBuffer.length b = zlen payload ->
  exists wr, socket_send b 0 ec n = Ok ec (set_posted (n_posted n ++ [(wr, payload)]) n).
Proof.
  intros Ho Hp Hpay Hl. eexists. unfold socket_send, doSend, get, bind. rewrite Ho, Hp. simpl.
  unfold on_mem, wr_payload. simpl. unfold bind.
  replace (Z.to_nat _) with (length payload)
    by (unfold InfinibandBuffer.length, zlen in Hl; lia).
  unfold InfinibandBuffer.data in Hpay.
  rewrite (load_bytes_ok _ _ _ Hpay). simpl. unfold ret, put. rewrite app_nil_r. done.
Qed.

Lemma socket_send_fails n b ec :
  n_open n = true ->
  let res := ibv_post_send (n_posted n) (SendWr IBV_WR_SEND
    (workRequestId_build 0 (InfinibandBuffer.mId b) SEND) [InfinibandBuffer.mHandle b] 1
    IBV_SEND_SIGNALED 0 0 0) in
  res <> 0 -> socket_send b 0 ec n = Ok (generic_error_code res) n.
Proof.
  intros Ho res Hr. unfold socket_send, doSend, get, bind. rewrite Ho. cbn [negb].
  fold res. apply Z.eqb_neq in Hr as ->. done.
Qed.

(** The socket after [sendCurrentBuffer] has put its buffer away. *)
Definition idle (n : net) w : world U :=
  with_sock (BSock (mMaxBatchSize (w_sock w)) InfinibandBuffer.invalid (BufferWriter 0 0) 0
    (mState (w_sock w)) (mFlush (w_sock w))) (with_net n w).

Lemma idle_Inv n w out sent :
  net_ok n out -> Forall2 framed (payloads n) sent ->
  w_tasks w = (if mFlush (w_sock w) then 1%nat else 0%nat) -> Inv (idle n w) sent [].
Proof. intros. exists out. split_and!; simpl; try done. Qed.

(** What sending the current buffer does, by the answer of [ibv_post_send]. *)
Lemma sendCurrentBuffer_eq w bw :
  InfinibandBuffer.valid (mBuffer (w_sock w)) = true ->
  bw = InfinibandBuffer.shrink (mBuffer (w_sock w))
    (u32 (u64 (wPos (mSendBuffer (w_sock w)) - InfinibandBuffer.data (mBuffer (w_sock w))))) ->
  wPos (mSendBuffer (w_sock w)) <= wEnd (mSendBuffer (w_sock w)) ->
  forall ec n, socket_send bw 0 no_error (w_net w) = Ok ec n ->
  sendCurrentBuffer no_error w =
    Ok ec (idle (if ec_bool ec then set_pool (releaseSendBuffer bw (n_pool n)) n else n) w).
Proof.
  intros Hv -> Hle ec n Hs. unfold sendCurrentBuffer, bind at 1, sock. rewrite Hv. cbn [negb].
  unfold writer_data, bind at 1, smod at 1. unfold bind at 1, on_net at 1. simpl. rewrite Hs.
  destruct (ec_bool ec); unfold bind; simpl; rewrite assign_writer_ok by done; done.
Qed.

Lemma release_net_ok n out b :
  net_ok n out -> InfinibandBuffer.mId b ∈ out -> region_belongsTo (mSendData (n_pool n)) b = true ->
  exists out', net_ok (set_pool (releaseSendBuffer b (n_pool n)) n) out'.
Proof.
  intros (Hwf & Ho & H8 & H8' & Hend & Hmap) Hid Hbel.
  apply elem_of_Permutation in Hid as [out' Hperm]. exists out'.
  assert (mSendData (releaseSendBuffer b (n_pool n)) = mSendData (n_pool n) /\
    mSendBufferLength (releaseSendBuffer b (n_pool n)) = mSendBufferLength (n_pool n)) as [He1 He2].
  { unfold releaseSendBuffer, releaseSendBuffer_id. repeat case_test; done. }
  unfold net_ok. simpl. rewrite He1, He2. split_and!; try done.
  apply release_wf; [|done]. by eapply pool_wf_perm.
Qed.

(** The error code of a refused [ibv_post_send]. *)
Definition post_error (ec : error_code) : Prop :=
  exists l wr, ibv_post_send l wr <> 0 /\ ec = generic_error_code (ibv_post_send l wr).

Lemma post_error_bool ec : post_error ec -> ec_bool ec = true.
Proof. intros (l & wr & Hne & ->). unfold ec_bool. by apply negb_true_iff, Z.eqb_neq. Qed.

(** [sendCurrentBuffer] on a valid buffer: its messages go out as one batch, or the
    buffer goes back to the pool and the batch is lost with the error. *)
Lemma sendCurrentBuffer_run w out sent pend :
  net_ok (w_net w) out -> buffer_ok w out pend -> Forall2 framed (payloads (w_net w)) sent ->
  InfinibandBuffer.valid (mBuffer (w_sock w)) = true ->
  exists n ec, sendCurrentBuffer no_error w = Ok ec (idle n w) /\
    mSendBufferLength (n_pool n) = mSendBufferLength (n_pool (w_net w)) /\
    (n_disconnects n = n_disconnects (w_net w) /\ mSendData (n_pool n) = mSendData (n_pool (w_net w)) /\ n_mem n = n_mem (w_net w)) /\
    ((ec = no_error /\ n_pool n = n_pool (w_net w) /\ net_ok n out /\
      Forall2 framed (payloads n) (sent ++ [pend])) \/
     (post_error ec /\ exists out', net_ok n out' /\ Forall2 framed (payloads n) sent)).
Proof.
  intros Hn Hb Hf Hv. unfold buffer_ok in Hb. rewrite Hv in Hb.
  destruct Hb as (cur & Hcur & Hbuf & Hout & Hwr & Hle & Hpts & Hfl & Hbs).
  pose proof (zlen_nonneg cur). pose proof Hn as ((_ & HL & _) & Ho & _).
  set (bw := InfinibandBuffer.shrink (mBuffer (w_sock w)) (zlen cur)).
  destruct (InfinibandBuffer.shrink_data (mBuffer (w_sock w)) (zlen cur)) as [Hbd Hbi]. fold bw in Hbd, Hbi.
  pose proof (sendCurrentBuffer_eq w bw Hv) as Hrun. rewrite Hwr in Hrun. cbn [wPos wEnd] in Hrun.
  rewrite Z.add_simpl_l, u64_small, u32_small in Hrun by lia.
  specialize (Hrun eq_refl ltac:(lia)).
  destruct (decide (ibv_post_send (n_posted (w_net w)) (SendWr IBV_WR_SEND
    (workRequestId_build 0 (InfinibandBuffer.mId bw) SEND) [InfinibandBuffer.mHandle bw] 1
    IBV_SEND_SIGNALED 0 0 0) = 0)) as [Hp|Hp].
  - destruct (socket_send_ok (w_net w) bw no_error cur Ho Hp) as [wr Hs].
    { by rewrite Hbd. }
    { unfold bw. rewrite InfinibandBuffer.shrink_length, Hbuf. unfold InfinibandBuffer.length. simpl. lia. }
    rewrite (Hrun _ _ Hs). eexists _, _. split; [reflexivity|]. split_and!; try done. left.
    split_and!; [done..|]. unfold payloads. simpl. rewrite map_app. apply Forall2_app; [done|].
    by repeat constructor.
  - rewrite (Hrun _ _ (socket_send_fails _ _ _ Ho Hp)). eexists _, _. split; [reflexivity|].
    assert (ec_bool (generic_error_code (ibv_post_send (n_posted (w_net w)) (SendWr IBV_WR_SEND
      (workRequestId_build 0 (InfinibandBuffer.mId bw) SEND) [InfinibandBuffer.mHandle bw] 1
      IBV_SEND_SIGNALED 0 0 0))) = true) as -> by (unfold ec_bool; apply negb_true_iff, Z.eqb_neq; done).
    split; [unfold releaseSendBuffer, releaseSendBuffer_id; simpl; by repeat case_test|].
    split; [split_and!; [done|unfold releaseSendBuffer, releaseSendBuffer_id; simpl; by repeat case_test|done]|].
    right. split; [by eexists _, _|].
    destruct (release_net_ok (w_net w) out bw) as [out' Hout']; [done|by rewrite Hbi| |by exists out'].
    unfold region_belongsTo, bw, InfinibandBuffer.shrink. rewrite Hbuf. simpl.
    case_test; simpl; apply Z.eqb_refl.
Qed.

(** Header and body land one behind the other. *)
Lemma upd_message m pos (x : msg) :
  upd (upd (upd (upd m pos (le_bytes 8 (msg_id x))) (pos + 8) (le_bytes 4 (msg_type x)))
    (pos + 8 + 4) (le_bytes 4 (zlen (msg_body x)))) (pos + 8 + 4 + 4) (msg_body x) =
  upd m pos (header x ++ msg_body x).
Proof.
  unfold header. rewrite <-!app_assoc.
  rewrite <-(upd_app m pos (le_bytes 8 _)), <-(upd_app _ _ (le_bytes 4 _)), <-(upd_app _ _ (le_bytes 4 _)).
  assert (forall k v, zlen (le_bytes k v) = Z.of_nat k) as Hz by (intros; unfold zlen; by rewrite length_le_bytes).
  rewrite !Hz. done.
Qed.

(** Writing the message at the end of the current buffer's content appends its frame;
    the padding is whatever the memory held. *)
Lemma frame_in_memory m base n d cur pend (x : msg) :
  mapped m base n -> base <= d -> d mod 8 = 0 -> msg_wf x -> framed cur pend ->
  d + zlen cur + frame_len x <= base + n -> pts m d cur ->
  exists cur', framed cur' (pend ++ [x]) /\ zlen cur' = zlen cur + frame_len x /\
    pts (upd m (d + zlen cur) (header x ++ msg_body x)) d cur'.
Proof.
  intros Hm Hd Hd8 Hx Hcur Hle Hpts.
  pose proof (frame_len_bounds x) as Hfb. pose proof (zlen_nonneg cur).
  assert (zlen (header x ++ msg_body x) = 16 + zlen (msg_body x)) as Hl by (rewrite zlen_app, zlen_header; lia).
  pose proof (zlen_nonneg (msg_body x)).
  destruct (mapped_sub m base n (d + zlen cur + (16 + zlen (msg_body x)))
    (frame_len x - (16 + zlen (msg_body x))) Hm) as (pad & Hpad & Hpl); [lia..|].
  assert (zlen (header x ++ msg_body x ++ pad) = frame_len x) as Hfl
    by (rewrite app_assoc, zlen_app, Hl, Hpl; lia).
  exists (cur ++ header x ++ msg_body x ++ pad). split_and!.
  - apply framed_app; [done|]. by apply framed_single.
  - rewrite zlen_app. lia.
  - rewrite pts_app. split; [apply pts_upd_disj; [done|unfold disj; lia]|].
    rewrite app_assoc, pts_app. split; [apply pts_upd_same|].
    rewrite Hl. apply pts_upd_disj; [done|]. unfold disj. lia.
Qed.

Lemma align_after_message d cur pend (x : msg) :
  0 <= d -> d mod 8 = 0 -> framed cur pend -> d + zlen cur + frame_len x + 8 < 2 ^ 64 ->
  align_ptr (d + zlen cur + 8 + 4 + 4 + zlen (msg_body x)) 8 = d + zlen cur + frame_len x.
Proof.
  intros Hd0 Hd Hcur Hb. pose proof (frame_len_bounds x). pose proof (framed_mod _ _ Hcur) as Hc8.
  pose proof (zlen_nonneg cur). pose proof (zlen_nonneg (msg_body x)).
  rewrite (align_ptr_round_up 3) by lia. change (2 ^ 3) with 8.
  replace (d + zlen cur + 8 + 4 + 4 + zlen (msg_body x))
    with ((d + zlen cur + 16) + zlen (msg_body x)) by lia.
  rewrite round_up_shift; [unfold frame_len, HEADER_SIZE; lia|lia|].
  rewrite Zplus_mod, (Zplus_mod d), Hd, Hc8. done.
Qed.

(** The world after a message was written at the end of the current buffer. *)
Definition written w (x : msg) (b : buffer_writer) (k : Z) : world U :=
  with_sock (BSock (mMaxBatchSize (w_sock w)) (mBuffer (w_sock w)) b k (mState (w_sock w)) (mFlush (w_sock w)))
    (with_mem (upd (w_mem w) (wPos (mSendBuffer (w_sock w))) (header x ++ msg_body x)) w).

Lemma appendMessage_run w base n d L cur pend (x : msg) f e :
  mapped (w_mem w) base n -> base <= d -> 0 <= d -> d mod 8 = 0 -> L mod 8 = 0 -> 0 <= L < 2 ^ 32 ->
  base + n + 8 < 2 ^ 64 -> d + L <= base + n ->
  InfinibandBuffer.data (mBuffer (w_sock w)) = d -> InfinibandBuffer.length (mBuffer (w_sock w)) = L ->
  mSendBuffer (w_sock w) = BufferWriter (d + zlen cur) (d + L) -> framed cur pend ->
  zlen cur + HEADER_SIZE + zlen (msg_body x) <= L -> writes_body f (msg_body x) e ->
  appendMessage (msg_id x) (msg_type x) (zlen (msg_body x)) f no_error w =
    Ok e (if ec_bool e then written w x (mSendBuffer (w_sock w)) (mBatchSize (w_sock w))
          else written w x (BufferWriter (d + zlen cur + frame_len x) (d + L))
                 (u64 (mBatchSize (w_sock w) + 1))).
Proof.
  intros Hm Hbd Hd0 Hd8 HL8 HL Hbn HdL Hdata Hlen Hwr Hcur Hfit Hf.
  pose proof (zlen_nonneg cur). pose proof (zlen_nonneg (msg_body x)).
  pose proof (frame_fits _ _ x _ Hcur HL8 Hfit) as Hfl. pose proof (frame_len_bounds x).
  unfold HEADER_SIZE in Hfit.
  assert (forall m' q k, mapped m' base n -> d + zlen cur <= q -> q + Z.of_nat k <= d + L ->
    exists l, pts m' q l /\ length l = k) as Hsub.
  { intros m' q k Hm' Hq Hk. destruct (mapped_sub m' base n q (Z.of_nat k) Hm') as (l & Hl & Hk'); [lia..|].
    exists l. unfold zlen in Hk'. split; [done|lia]. }
  set (pos := d + zlen cur) in *.
  set (m1 := upd (w_mem w) pos (le_bytes 8 (msg_id x))).
  set (m2 := upd m1 (pos + 8) (le_bytes 4 (msg_type x))).
  set (m3 := upd m2 (pos + 8 + 4) (le_bytes 4 (zlen (msg_body x)))).
  assert (forall k v, zlen (le_bytes k v) = Z.of_nat k) as Hz by (intros; unfold zlen; by rewrite length_le_bytes).
  assert (mapped m1 base n) as Hm1 by (apply mapped_upd; [done|lia|rewrite Hz; lia]).
  assert (mapped m2 base n) as Hm2 by (apply mapped_upd; [done|lia|rewrite Hz; lia]).
  assert (mapped m3 base n) as Hm3 by (apply mapped_upd; [done|lia|rewrite Hz; lia]).
  destruct (Hsub (w_mem w) pos 8%nat Hm) as (l1 & Hl1 & Hk1); [lia..|].
  destruct (Hsub m1 (pos + 8) 4%nat Hm1) as (l2 & Hl2 & Hk2); [lia..|].
  destruct (Hsub m2 (pos + 8 + 4) 4%nat Hm2) as (l3 & Hl3 & Hk3); [lia..|].
  destruct (mapped_sub m3 base n (pos + 8 + 4 + 4) (zlen (msg_body x)) Hm3) as (l4 & Hl4 & Hk4); [lia..|].
  unfold appendMessage, bind, sock. rewrite Hwr, Hdata. cbn [wPos wEnd writer_data].
  rewrite (in_mem_ok _ w _ _ (writer_write_ok 8 _ pos (d + L) l1 _ Hl1 Hk1)).
  rewrite (in_mem_ok _ (with_mem m1 w) _ _ (writer_write_ok 4 _ (pos + 8) (d + L) l2 _ Hl2 Hk2)).
  rewrite (in_mem_ok _ (with_mem m2 w) _ _ (writer_write_ok 4 _ (pos + 8 + 4) (d + L) l3 _ Hl3 Hk3)).
  unfold writer_extract, writer_align, mk_writer, smod. cbn [wPos wEnd].
  change (Z.of_nat 4) with 4. change (Z.of_nat 8) with 8.
  rewrite (u64_small (pos + 8 + 4 + 4 + zlen (msg_body x))) by lia.
  pose proof (align_after_message d cur pend x) as Hal. fold pos in Hal. rewrite Hal by (done || lia).
  destruct (Hf (pos + 8 + 4 + 4) (with_sock (set_writer (BufferWriter (pos + frame_len x) (d + L)) (w_sock w))
    (with_mem m3 w)) l4) as (b' & Hrun & Hb'); [done|lia|].
  match type of Hrun with f _ _ ?w2 = _ =>
    match goal with |- context [f _ _ ?w1] => change w1 with w2 end end.
  rewrite Hrun.
  destruct (ec_bool e) eqn:Ee; cbn [w_sock with_sock with_mem with_net].
  - rewrite assign_writer_ok by (simpl; lia).
    rewrite in_mem_ok with (a := tt) (m := upd m3 (pos + 8 + 4 + 4) (msg_body x));
      [|unfold writer_destroy; by apply Z.leb_le in Hb' as ->].
    unfold ret, written. rewrite Hwr. cbn [wPos]. rewrite <-(upd_message (w_mem w) pos x).
    simpl. unfold set_writer, set_buffer. simpl. rewrite Hdata, Hlen.
    assert (pos - d = zlen cur) as -> by (unfold pos; lia).
    rewrite (u32_small (zlen cur)), (u32_small (L - zlen cur)) by lia. fold pos.
    rewrite (u64_small pos), (u64_small (pos + (L - zlen cur))) by lia.
    by replace (pos + (L - zlen cur)) with (d + L) by lia.
  - rewrite in_mem_ok with (a := tt) (m := upd m3 (pos + 8 + 4 + 4) (msg_body x));
      [|unfold writer_destroy; by apply Z.leb_le in Hb' as ->].
    unfold ret, written. rewrite Hwr. cbn [wPos]. by rewrite <-(upd_message (w_mem w) pos x).
Qed.

(** [appendMessage] under the invariant, on a valid buffer with room. *)
Lemma appendMessage_Inv w sent pend (x : msg) f e :
  Inv w sent pend -> InfinibandBuffer.valid (mBuffer (w_sock w)) = true -> msg_wf x ->
  writes_body f (msg_body x) e ->
  wPos (mSendBuffer (w_sock w)) + (HEADER_SIZE + zlen (msg_body x)) <= wEnd (mSendBuffer (w_sock w)) ->
  exists w', appendMessage (msg_id x) (msg_type x) (zlen (msg_body x)) f no_error w = Ok e w' /\
    keeps w w' /\ Inv w' sent (if ec_bool e then pend else pend ++ [x]).
Proof.
  intros (out & Hn & Hb & Hsent & Htask) Hv Hx Hf Hroom. unfold buffer_ok in Hb. rewrite Hv in Hb.
  destruct Hb as (cur & Hcur & Hbuf & Hout & Hwr & Hle & Hpts & Hfl & Hbs).
  pose proof Hn as (Hwf & Ho & HL8 & Ha8 & Hend & Hmap).
  destruct (buffer_range _ _ _ Hwf Hout) as (Hid & Hlo & Hhi). pose proof Hwf as (_ & HL & _ & Ha & _).
  set (p := n_pool (w_net w)) in *. set (id := InfinibandBuffer.mId (mBuffer (w_sock w))) in *.
  assert (InfinibandBuffer.data (mBuffer (w_sock w)) = buffer_addr p id) as Hd by (by rewrite Hbuf).
  assert (InfinibandBuffer.length (mBuffer (w_sock w)) = mSendBufferLength p) as HbL by (by rewrite Hbuf).
  rewrite Hd in *. rewrite Hwr in Hroom. cbn [wPos wEnd] in Hroom.
  pose proof (buffer_addr_mod p id HL8 Ha8) as Hd8.
  assert (zlen cur + frame_len x <= mSendBufferLength p) as Hfits
    by (apply (frame_fits _ _ _ _ Hcur HL8); lia).
  eexists. split.
  { apply (appendMessage_run w (mr_addr (mSendData p)) (mr_length (mSendData p)) (buffer_addr p id)
      (mSendBufferLength p) cur pend x f e); try done; lia. }
  assert (mapped (upd (w_mem w) (buffer_addr p id + zlen cur) (header x ++ msg_body x))
    (mr_addr (mSendData p)) (mr_length (mSendData p))) as Hmap'.
  { pose proof (zlen_nonneg cur). pose proof (frame_len_bounds x).
    apply mapped_upd; [done|lia|rewrite zlen_app, zlen_header; lia]. }
  split.
  { assert (forall b n', keeps w (written w x b n')) as Hkeep; [|by destruct (ec_bool e)].
    intros b n'. unfold keeps. split_and!; try done. intros a Hna.
    change (w_mem (written w x b n')) with (upd (w_mem w) (wPos (mSendBuffer (w_sock w))) (header x ++ msg_body x)).
    rewrite lookup_upd. case_decide as Hin; [|done]. exfalso. rewrite Hwr in Hin. cbn [wPos] in Hin. rewrite zlen_app, zlen_header in Hin.
    pose proof (frame_len_bounds x). pose proof (zlen_nonneg cur). fold p in Hna. unfold HEADER_SIZE in *. lia. }
  exists out. destruct (ec_bool e).
  - split_and!; [|unfold buffer_ok; simpl; rewrite Hv; exists cur|done..].
    { unfold net_ok. simpl. rewrite Hwr. by split_and!. }
    simpl. fold p id. rewrite Hd, Hwr. split_and!; try done.
    apply pts_upd_disj; [done|]. unfold disj. rewrite Hwr. cbn [wPos]. lia.
  - destruct (frame_in_memory (w_mem w) (mr_addr (mSendData p)) (mr_length (mSendData p))
      (buffer_addr p id) cur pend x) as (cur' & Hcur' & Hlen' & Hpts'); try done; try lia.
    split_and!; [|unfold buffer_ok; simpl; rewrite Hv; exists cur'|done..].
    { unfold net_ok. simpl. rewrite Hwr. by split_and!. }
    simpl. fold p id. rewrite Hd, Hlen'. split_and!; try done; try lia.
    + f_equal. lia.
    + unfold w_mem. simpl. by rewrite Hwr.
    + intros Hnil. by destruct pend.
Qed.

(** ** Getting a fresh buffer *)

(** The socket with an empty buffer [b] and a flush scheduled. *)
Definition fresh (n : net) (b : ibuffer) w : world U :=
  World n (BSock (mMaxBatchSize (w_sock w)) b
    (BufferWriter (InfinibandBuffer.data b) (InfinibandBuffer.data b + InfinibandBuffer.length b)) 0
    (mState (w_sock w)) true) 1 (w_user w).

Lemma freshBuffer_empty w len :
  mSendBufferQueue (n_pool (w_net w)) = [] -> mSendBuffer (w_sock w) = BufferWriter 0 0 ->
  freshBuffer len no_error w = Ok (false, network_error_code invalid_buffer) (idle (w_net w) w).
Proof.
  intros Hq Hw. unfold freshBuffer, bind at 1, smod at 1. unfold bind, on_net at 1, socket_acquireSendBuffer.
  unfold acquireSendBuffer, acquireSendBuffer_len. simpl. rewrite Hq.
  unfold smod. simpl. rewrite assign_writer_ok by (simpl; rewrite Hw; simpl; lia).
  unfold ret, idle. simpl. by destruct w as [[] [] ? ?].
Qed.

Lemma freshBuffer_run w out len id rest :
  net_ok (w_net w) out -> mSendBufferQueue (n_pool (w_net w)) = id :: rest ->
  mSendBuffer (w_sock w) = BufferWriter 0 0 -> 0 <= len < 2 ^ 32 ->
  w_tasks w = (if mFlush (w_sock w) then 1%nat else 0%nat) ->
  let p := n_pool (w_net w) in
  let b := InfinibandBuffer.Buffer (Sge (buffer_addr p id) (mSendBufferLength p) (mr_lkey (mSendData p))) id in
  let n := set_pool (SendPool (mSendBufferCount p) (mSendBufferLength p) (mSendData p) rest) (w_net w) in
  freshBuffer len no_error w =
    Ok (if len <=? mSendBufferLength p then (true, no_error) else (false, rpc_error_code message_too_big))
       (fresh n b w) /\
  net_ok n (id :: out) /\ InfinibandBuffer.valid b = true.
Proof.
  intros Hn Hq Hw Hlen Htask p b n. pose proof Hn as (Hwf & Ho & HL8 & Ha8 & Hend & Hmap).
  pose proof Hwf as (Hc & HL & Hr & Ha & Hm & _). fold p in Hwf, Hc, HL, Hr, Ha, Hm, Hq, Hend.
  pose proof (acquire_cons p out id rest (mSendBufferLength p) Hwf Hq ltac:(lia)) as Hacq.
  pose proof (acquire_wf p out (mSendBufferLength p) id rest Hwf Hq ltac:(lia)) as Hwf'.
  rewrite Hacq in Hwf'. cbn [snd] in Hwf'. fold b in Hacq.
  assert (0 <= id < mSendBufferCount p) as Hid by (eapply pool_wf_id; [done|]; rewrite Hq; by left).
  assert (InfinibandBuffer.valid b = true) as Hv.
  { unfold InfinibandBuffer.valid, InfinibandBuffer.INVALID_ID. simpl.
    apply negb_true_iff, Z.eqb_neq. lia. }
  destruct (buffer_range _ _ id Hwf' ltac:(set_solver)) as (_ & Hlo & Hhi).
  unfold buffer_addr in Hlo, Hhi. cbn [mSendData mSendBufferLength] in Hlo, Hhi.
  fold (buffer_addr p id) in Hlo, Hhi.
  split; [|split; [unfold net_ok; simpl; by split_and!|done]].
  unfold freshBuffer, bind at 1, smod at 1. unfold bind, on_net at 1, socket_acquireSendBuffer.
  cbn [w_net with_sock]. unfold acquireSendBuffer. fold p. rewrite Hacq. unfold smod. cbv beta iota.
  rewrite Hv. cbn [negb]. rewrite assign_writer_ok by (simpl; rewrite Hw; simpl; lia).
  unfold scheduleFlush, bind, sock, smod, mk_writer, canWrite.
  destruct w as [n0 [mx bf wr bs st fl] k0 u0]. cbn in Htask, Hw |- *. fold p. fold n. rewrite Htask.
  change (InfinibandBuffer.data b) with (buffer_addr p id).
  change (InfinibandBuffer.length b) with (mSendBufferLength p).
  destruct fl; cbn; fold p; unfold fresh; cbn;
    change (InfinibandBuffer.data b) with (buffer_addr p id);
    change (InfinibandBuffer.length b) with (mSendBufferLength p);
    rewrite (u64_small (buffer_addr p id + mSendBufferLength p)) by lia;
    unfold wrap; rewrite Z.mod_small by lia;
    destruct (Z.leb_spec (buffer_addr p id + len) (buffer_addr p id + mSendBufferLength p));
    destruct (Z.leb_spec len (mSendBufferLength p)); try lia; done.
Qed.

(** The ways [writeMessage] of message [x] with a [fun] that ends with [e] returns;
    [sent'] and [pend'] are the batches on the wire and the messages in the buffer
    afterwards. *)
Inductive write_outcome w sent pend (x : msg) (e : error_code) :
    error_code -> list (list msg) -> list msg -> Prop :=
  | wo_written sent' pend' :
      ec_bool e = false -> concat sent' ++ pend' = concat sent ++ pend ++ [x] ->
      write_outcome w sent pend x e e sent' pend'
  | wo_fun_error sent' pend' :
      ec_bool e = true -> concat sent' ++ pend' = concat sent ++ pend ->
      write_outcome w sent pend x e e sent' pend'
  | wo_too_big sent' pend' :
      mMaxBatchSize (w_sock w) <= 0 \/
        mSendBufferLength (n_pool (w_net w)) < HEADER_SIZE + zlen (msg_body x) ->
      concat sent' ++ pend' = concat sent ++ pend ->
      write_outcome w sent pend x e (rpc_error_code message_too_big) sent' pend'
  | wo_no_buffer sent' pend' :
      mSendBufferQueue (n_pool (w_net w)) = [] -> concat sent' ++ pend' = concat sent ++ pend ->
      write_outcome w sent pend x e (network_error_code invalid_buffer) sent' pend'
  | wo_post_error ec sent' :
      post_error ec -> concat sent' = concat sent ->
      write_outcome w sent pend x e ec sent' [].

Lemma fresh_Inv n b w id out sent :
  net_ok n (id :: out) -> Forall2 framed (payloads n) sent -> InfinibandBuffer.valid b = true ->
  b = InfinibandBuffer.Buffer (Sge (buffer_addr (n_pool n) id) (mSendBufferLength (n_pool n))
    (mr_lkey (mSendData (n_pool n)))) id ->
  Inv (fresh n b w) sent [].
Proof.
  intros Hn Hs Hv Hb. exists (id :: out). split_and!; [done| |done..].
  unfold buffer_ok. simpl. rewrite Hv. exists []. pose proof Hn as ((_ & HL & _) & _).
  subst b. simpl. change (zlen []) with 0. rewrite Z.add_0_r.
  split_and!; try done; try lia; auto using framed_nil, pts_nil. set_solver.
Qed.

(** [freshBuffer] from an idle socket. *)
Lemma freshBuffer_Inv w sent x :
  Inv w sent [] -> InfinibandBuffer.valid (mBuffer (w_sock w)) = false -> msg_wf x ->
  exists go ec w', freshBuffer (HEADER_SIZE + zlen (msg_body x)) no_error w = Ok (go, ec) w' /\
    keeps w w' /\ Inv w' sent [] /\
    if go then ec = no_error /\ InfinibandBuffer.valid (mBuffer (w_sock w')) = true /\
      wPos (mSendBuffer (w_sock w')) + (HEADER_SIZE + zlen (msg_body x)) <= wEnd (mSendBuffer (w_sock w'))
    else (ec = rpc_error_code message_too_big /\
        mSendBufferLength (n_pool (w_net w)) < HEADER_SIZE + zlen (msg_body x)) \/
      (ec = network_error_code invalid_buffer /\ mSendBufferQueue (n_pool (w_net w)) = []).
Proof.
  intros (out & Hn & Hb & Hs & Htask) Hv Hx. unfold buffer_ok in Hb. rewrite Hv in Hb.
  destruct Hb as [_ Hw]. pose proof Hx as (_ & _ & Hlen). pose proof (zlen_nonneg (msg_body x)).
  assert (0 <= HEADER_SIZE + zlen (msg_body x)) by (unfold HEADER_SIZE; lia).
  destruct (mSendBufferQueue (n_pool (w_net w))) as [|id rest] eqn:Hq.
  - rewrite freshBuffer_empty by done. eexists _, _, _. split; [reflexivity|].
    split; [done|]. split; [by eapply idle_Inv|]. by right.
  - destruct (freshBuffer_run w out (HEADER_SIZE + zlen (msg_body x)) id rest) as (Hrun & Hn' & Hbv);
      try done; try lia.
    rewrite Hrun. destruct (Z.leb_spec (HEADER_SIZE + zlen (msg_body x)) (mSendBufferLength (n_pool (w_net w))));
      (eexists _, _, _; split; [reflexivity|]; split; [done|]; split; [by eapply fresh_Inv|]).
    + split_and!; [done|done|]. simpl. unfold InfinibandBuffer.length. simpl. lia.
    + left. split; [done|lia].
Qed.

(** The early test of [writeMessage] on an empty buffer. *)
Lemma too_big_reason w sent pend x :
  Inv w sent pend -> InfinibandBuffer.valid (mBuffer (w_sock w)) = true ->
  wPos (mSendBuffer (w_sock w)) = InfinibandBuffer.data (mBuffer (w_sock w)) -> msg_wf x ->
  (canWrite (mSendBuffer (w_sock w)) (HEADER_SIZE + zlen (msg_body x)) = false \/
   mMaxBatchSize (w_sock w) <= mBatchSize (w_sock w)) ->
  mMaxBatchSize (w_sock w) <= 0 \/
  mSendBufferLength (n_pool (w_net w)) < HEADER_SIZE + zlen (msg_body x).
Proof.
  intros (out & Hn & Hb & _ & _) Hv Hpos (_ & _ & Hlen) Hwhy. unfold buffer_ok in Hb. rewrite Hv in Hb.
  destruct Hb as (cur & Hcur & Hbuf & Hout & Hwr & Hle & Hpts & Hfl & Hbs).
  destruct Hn as (Hwf & _ & _ & _ & Hend & _). destruct (buffer_range _ _ _ Hwf Hout) as (_ & Hlo & Hhi).
  destruct Hwf as (_ & HL & _ & Ha & _). pose proof (zlen_nonneg (msg_body x)).
  rewrite Hwr in *. cbn [wPos] in Hpos. assert (zlen cur = 0) as Hz by lia.
  apply (framed_empty _ _ Hcur) in Hz as Hp. specialize (Hbs Hp).
  assert (InfinibandBuffer.data (mBuffer (w_sock w)) =
    buffer_addr (n_pool (w_net w)) (InfinibandBuffer.mId (mBuffer (w_sock w)))) as Hd by (by rewrite Hbuf).
  destruct Hwhy as [Hc|Hc]; [|left; lia]. right.
  unfold canWrite in Hc. cbn [wPos wEnd] in Hc. unfold HEADER_SIZE in *.
  rewrite u64_small in Hc by lia. apply Z.leb_gt in Hc. lia.
Qed.

(** Making room: nothing is lost unless posting fails. *)
Lemma makeRoom_Inv w sent pend x e :
  Inv w sent pend -> msg_wf x ->
  (canWrite (mSendBuffer (w_sock w)) (HEADER_SIZE + zlen (msg_body x)) = false \/
   mMaxBatchSize (w_sock w) <= mBatchSize (w_sock w)) ->
  exists go ec w' sent' pend',
    makeRoom (HEADER_SIZE + zlen (msg_body x)) no_error w = Ok (go, ec) w' /\
    keeps w w' /\ Inv w' sent' pend' /\
    if go then ec = no_error /\ InfinibandBuffer.valid (mBuffer (w_sock w')) = true /\
      wPos (mSendBuffer (w_sock w')) + (HEADER_SIZE + zlen (msg_body x)) <= wEnd (mSendBuffer (w_sock w')) /\
      concat sent' ++ pend' = concat sent ++ pend
    else write_outcome w sent pend x e ec sent' pend'.
Proof.
  intros HI Hx Hwhy. pose proof HI as (out & Hn & Hb & Hs & Htask).
  unfold makeRoom, bind at 1, sock. unfold buffer_ok in Hb.
  destruct (InfinibandBuffer.valid (mBuffer (w_sock w))) eqn:Hv; cbn [andb].
  - pose proof Hb as (cur & Hcur & Hbuf & Hout & Hwr & Hle & Hpts & Hfl & Hbs).
    rewrite Hwr. cbn [wPos writer_data].
    destruct (Z.eqb_spec (InfinibandBuffer.data (mBuffer (w_sock w)) + zlen cur)
      (InfinibandBuffer.data (mBuffer (w_sock w)))) as [Hz|Hz].
    + eexists _, _, w, sent, pend. split; [reflexivity|]. split; [done|]. split; [done|].
      apply wo_too_big; [|done]. apply (too_big_reason w sent pend x HI Hv); [by rewrite Hwr|done..].
    + destruct (sendCurrentBuffer_run w out sent pend Hn) as (n & ec & Hrun & HL & Hdis & Hcase); try done.
      { unfold buffer_ok. by rewrite Hv. }
      unfold bind. rewrite Hrun.
      destruct Hcase as [(-> & Hp & Hn' & Hs')|(He & out' & Hn' & Hs')].
      * simpl. destruct (freshBuffer_Inv (idle n w) (sent ++ [pend]) x) as (go & ec & w' & Hf & Hk & HI' & Hgo);
          [by eapply idle_Inv|done|done|].
        exists go, ec, w', (sent ++ [pend]), []. split; [done|].
        destruct Hdis as (Hdis & Hdata & Hmem).
        split; [eapply keeps_trans; [|exact Hk]; unfold keeps; cbn; split_and!; try done; unfold w_mem; cbn; by rewrite Hmem|]. split; [done|].
        rewrite concat_app. simpl. rewrite !app_nil_r. destruct go; [by intuition|].
        simpl in Hgo. rewrite Hp in Hgo. destruct Hgo as [[-> ?]|[-> ?]];
          [apply wo_too_big; [by right|]|apply wo_no_buffer; [done|]];
          rewrite concat_app; simpl; by rewrite !app_nil_r.
      * rewrite (post_error_bool _ He). eexists _, _, _, sent, []. split; [reflexivity|]. destruct Hdis as (Hdis & Hdata & Hmem).
        split; [unfold keeps; cbn; split_and!; try done; unfold w_mem; cbn; by rewrite Hmem|].
        split; [by eapply idle_Inv|]. by apply wo_post_error.
  - destruct Hb as [-> Hw]. unfold bind. unfold sendCurrentBuffer, bind at 1, sock. rewrite Hv. simpl.
    destruct (freshBuffer_Inv w sent x HI Hv Hx) as (go & ec & w' & Hf & Hk & HI' & Hgo).
    exists go, ec, w', sent, []. rewrite Hf. split_and!; try done. destruct go; [by intuition|].
    destruct Hgo as [[-> ?]|[-> ?]]; [apply wo_too_big; [by right|done]|by apply wo_no_buffer].
Qed.

(** When the current buffer is used, it is valid and has the room. *)
Lemma canWrite_room w sent pend x :
  Inv w sent pend -> msg_wf x ->
  canWrite (mSendBuffer (w_sock w)) (HEADER_SIZE + zlen (msg_body x)) = true ->
  InfinibandBuffer.valid (mBuffer (w_sock w)) = true /\
  wPos (mSendBuffer (w_sock w)) + (HEADER_SIZE + zlen (msg_body x)) <= wEnd (mSendBuffer (w_sock w)).
Proof.
  intros (out & Hn & Hb & _ & _) (_ & _ & Hlen) Hc. unfold buffer_ok in Hb. unfold HEADER_SIZE in *.
  pose proof (zlen_nonneg (msg_body x)).
  destruct (InfinibandBuffer.valid (mBuffer (w_sock w))) eqn:Hv.
  - split; [done|]. destruct Hb as (cur & Hcur & Hbuf & Hout & Hwr & Hle & _).
    destruct Hn as (Hwf & _ & _ & _ & Hend & _). destruct (buffer_range _ _ _ Hwf Hout) as (_ & Hlo & Hhi).
    destruct Hwf as (_ & HL & _ & Ha & _). pose proof (zlen_nonneg cur).
    assert (InfinibandBuffer.data (mBuffer (w_sock w)) =
      buffer_addr (n_pool (w_net w)) (InfinibandBuffer.mId (mBuffer (w_sock w)))) as Hd by (by rewrite Hbuf).
    rewrite Hwr in *. apply canWrite_spec in Hc; cbn [wPos wEnd]; lia.
  - destruct Hb as [_ Hw]. rewrite Hw in Hc. apply canWrite_spec in Hc; lia.
Qed.

Lemma writeMessage_step w sent pend x f e :
  Inv w sent pend -> msg_wf x -> writes_body f (msg_body x) e ->
  exists ec w' sent' pend',
    writeMessage (msg_id x) (msg_type x) (zlen (msg_body x)) f no_error w = Ok ec w' /\
    keeps w w' /\ Inv w' sent' pend' /\ write_outcome w sent pend x e ec sent' pend'.
Proof.
  intros HI Hx Hf. unfold writeMessage, bind at 1, sock.
  pose proof Hx as (_ & _ & Hlen). pose proof (zlen_nonneg (msg_body x)).
  rewrite u32_small by (unfold HEADER_SIZE in *; lia).
  destruct (negb _ || _)%bool eqn:Htest.
  - destruct (makeRoom_Inv w sent pend x e HI Hx) as (go & ec & w1 & sent1 & pend1 & Hrun & Hk & HI1 & Hgo).
    { apply orb_true_iff in Htest as [Ht|Ht]; bool_prop; tauto. }
    unfold bind. rewrite Hrun. destruct go; [|by eexists _, _, _, _].
    destruct Hgo as (-> & Hv & Hroom & Hstream).
    destruct (appendMessage_Inv w1 sent1 pend1 x f e HI1 Hv Hx Hf Hroom) as (w2 & Hrun2 & Hk2 & HI2).
    eexists e, w2, sent1, _. split_and!; [done|by eapply keeps_trans|done|].
    destruct (ec_bool e) eqn:He; [by apply wo_fun_error|]. apply wo_written; [done|].
    by rewrite !app_assoc, Hstream.
  - bool_prop. destruct (canWrite_room w sent pend x HI Hx) as [Hv Hroom]; [done|].
    destruct (appendMessage_Inv w sent pend x f e HI Hv Hx Hf Hroom) as (w2 & Hrun2 & Hk2 & HI2).
    unfold bind, ret. eexists e, w2, sent, _. split_and!; [done..|].
    destruct (ec_bool e) eqn:He; [by apply wo_fun_error|by apply wo_written].
Qed.

(** C14: [writeMessage] keeps the socket's invariant on every path.  On success the
    message is appended to the stream of messages sent and buffered so far, and
    nothing else changes in it; when [fun] fails, the message is too big, or no send
    buffer is free, the stream is unchanged; only a failed [ibv_post_send] drops the
    messages of the current batch. *)
Theorem writeMessage_correct w sent pend x f e :
  Inv w sent pend -> msg_wf x -> writes_body f (msg_body x) e ->
  exists ec w' sent' pend',
    writeMessage (msg_id x) (msg_type x) (zlen (msg_body x)) f no_error w = Ok ec w' /\
    keeps w w' /\ Inv w' sent' pend' /\ write_outcome w sent pend x e ec sent' pend'.
Proof. apply writeMessage_step. Qed.

Lemma bshutdown_connected w :
  mState (w_sock w) = CONNECTED -> n_open (w_net w) = true ->
  bshutdown w = Ok tt (with_sock (set_state SHUTDOWN (w_sock w))
    (with_net (set_disconnects (S (n_disconnects (w_net w))) (w_net w)) w)).
Proof.
  intros Hs Ho. unfold bshutdown, bind at 1, sock. rewrite Hs. simpl.
  unfold bind, smod, catch_system, on_net, socket_disconnect, bind, get. simpl. rewrite Ho. simpl.
  unfold put, check_errno. by destruct (rdma_disconnect _ =? 0).
Qed.

(** The world in which the flush task starts. *)
Definition flushing w : world U := with_sock (set_flush false (w_sock w)) (with_tasks 0 w).

Lemma run_flush_pending w :
  w_tasks w = 1%nat -> run_flush w = flush_task (with_tasks 0 w).
Proof. intros Ht. unfold run_flush. by rewrite Ht. Qed.

Lemma flush_task_empty w out pend :
  net_ok (w_net w) out -> InfinibandBuffer.valid (mBuffer (w_sock w)) = true ->
  buffer_ok w out pend ->
  mSendBuffer (w_sock w) = BufferWriter (InfinibandBuffer.data (mBuffer (w_sock w)))
    (InfinibandBuffer.data (mBuffer (w_sock w)) + mSendBufferLength (n_pool (w_net w))) ->
  mBatchSize (w_sock w) = 0 ->
  exists n out', flush_task (with_tasks 0 w) = Ok tt (idle n (flushing w)) /\ net_ok n out' /\
    payloads n = payloads (w_net w).
Proof.
  intros Hn Hv Hb Hwr Hbs. unfold buffer_ok in Hb. rewrite Hv in Hb.
  destruct Hb as (cur' & _ & Hbuf & Hout & _). pose proof Hn as ((_ & HL & _) & _).
  destruct (release_net_ok (w_net w) out (mBuffer (w_sock w)) Hn Hout) as [out' Hn'].
  { unfold region_belongsTo. rewrite Hbuf. simpl. apply Z.eqb_refl. }
  eexists _, out'. split; [|split; [exact Hn'|done]].
  unfold flush_task, bind, smod, sock. cbn [w_sock with_sock with_tasks mBuffer set_flush mSendBuffer].
  rewrite Hv, Hwr. cbn [negb writer_data wPos]. rewrite Z.eqb_refl.
  unfold massert, set_flush. cbn [mBatchSize]. rewrite Hbs. cbn -[assign_writer]. unfold on_net. cbn -[assign_writer].
  rewrite assign_writer_ok by (simpl; rewrite Hwr; simpl; lia).
  unfold idle, flushing. destruct w as [n0 [] k u]. simpl in *. by subst.
Qed.

(** Sending does not look at the flush flag or the task queue. *)
Lemma sendCurrentBuffer_frame w n ec :
  InfinibandBuffer.valid (mBuffer (w_sock w)) = true ->
  sendCurrentBuffer no_error w = Ok ec (idle n w) ->
  sendCurrentBuffer no_error (flushing w) = Ok ec (idle n (flushing w)).
Proof.
  intros Hv. unfold sendCurrentBuffer, bind, sock, smod, on_net, assign_writer, in_mem, on_net, bind, sock, smod,
    writer_move_assign, on_mem, massert, bind.
  cbn [w_sock with_sock flushing with_tasks mBuffer set_flush mSendBuffer w_net with_net]. rewrite Hv. cbn [negb].
  destruct (socket_send _ _ _ _) as [ec' n'| | |]; [|done..].
  destruct (ec_bool ec'); simpl;
    (destruct (wPos (mSendBuffer (w_sock w)) <=? wEnd (mSendBuffer (w_sock w))); simpl; [|done]);
    intros Heq; inversion Heq; subst; done.
Qed.

Lemma flush_task_sends w out sent pend :
  net_ok (w_net w) out -> buffer_ok w out pend -> Forall2 framed (payloads (w_net w)) sent ->
  InfinibandBuffer.valid (mBuffer (w_sock w)) = true ->
  wPos (mSendBuffer (w_sock w)) <> InfinibandBuffer.data (mBuffer (w_sock w)) ->
  exists n ec, flush_task (with_tasks 0 w) =
      (if ec_bool ec then handleSocketError ec (idle n (flushing w)) else Ok tt (idle n (flushing w))) /\
    ((ec = no_error /\ net_ok n out /\ Forall2 framed (payloads n) (sent ++ [pend])) \/
     (post_error ec /\ exists out', net_ok n out' /\ Forall2 framed (payloads n) sent)).
Proof.
  intros Hn Hb Hs Hv Hne. destruct (sendCurrentBuffer_run w out sent pend Hn Hb Hs Hv)
    as (n & ec & Hrun & _ & _ & Hcase).
  exists n, ec. split; [|tauto].
  assert (sendCurrentBuffer no_error (flushing w) = Ok ec (idle n (flushing w))) as Hrun'.
  { by apply sendCurrentBuffer_frame. }
  unfold flush_task, bind at 1, smod, bind at 1, sock. cbn [w_sock with_sock with_tasks mBuffer set_flush mSendBuffer].
  rewrite Hv. cbn [negb]. unfold writer_data. apply Z.eqb_neq in Hne as ->.
  unfold bind. fold (flushing w). rewrite Hrun'. by destruct (ec_bool ec).
Qed.

Lemma flush_step w sent pend :
  Inv w sent pend -> mState (w_sock w) = CONNECTED ->
  exists w' sent', run_flush w = Ok tt w' /\ Inv w' sent' [] /\
    mFlush (w_sock w') = false /\ InfinibandBuffer.valid (mBuffer (w_sock w')) = false /\
    ((mState (w_sock w') = CONNECTED /\ concat sent' = concat sent ++ pend) \/
     (mState (w_sock w') = SHUTDOWN /\ sent' = sent /\ exists ec, post_error ec)).
Proof.
  intros (out & Hn & Hb & Hs & Htask) Hst.
  destruct (mFlush (w_sock w)) eqn:Hfl.
  2: { unfold run_flush. rewrite Htask. unfold buffer_ok in Hb.
    destruct (InfinibandBuffer.valid (mBuffer (w_sock w))) eqn:Hv.
    { destruct Hb as (? & ? & ? & ? & ? & ? & ? & Hbad & _). congruence. }
    destruct Hb as [-> Hw]. exists w, sent. split_and!; try done; [|left; by rewrite app_nil_r].
    exists out. split_and!; try done; [|by rewrite Hfl]. unfold buffer_ok. by rewrite Hv. }
  rewrite run_flush_pending by done.
  destruct (InfinibandBuffer.valid (mBuffer (w_sock w))) eqn:Hv.
  2: { unfold buffer_ok in Hb. rewrite Hv in Hb. destruct Hb as [-> Hw].
    exists (flushing w), sent. split_and!; try done.
    - unfold flush_task, bind, smod, sock. simpl. by rewrite Hv.
    - exists out. split_and!; try done. unfold buffer_ok. simpl. by rewrite Hv.
    - left. split; [done|by rewrite app_nil_r]. }
  pose proof Hb as Hb'. unfold buffer_ok in Hb'. rewrite Hv in Hb'.
  destruct Hb' as (cur & Hcur & Hbuf & Hout & Hwr & Hle & Hpts & _ & Hbs).
  destruct (Z.eqb_spec (zlen cur) 0) as [Hz|Hz].
  { apply (framed_empty _ _ Hcur) in Hz as Hp.
    destruct (flush_task_empty w out pend) as (n & out' & Hrun & Hn' & Hpay); auto.
    { by rewrite Hwr, Hz, Z.add_0_r. }
    exists (idle n (flushing w)), sent. rewrite Hp, Hrun, app_nil_r.
    split_and!; try done; [|by left]. eapply idle_Inv; [done|by rewrite Hpay|done]. }
  destruct (flush_task_sends w out sent pend Hn Hb Hs Hv) as (n & ec & Hrun & Hcase).
  { rewrite Hwr. simpl. lia. }
  rewrite Hrun. destruct Hcase as [(-> & Hn' & Hs')|(He & out' & Hn' & Hs')].
  - exists (idle n (flushing w)), (sent ++ [pend]). split_and!; try done; [by eapply idle_Inv|].
    left. split; [done|]. rewrite concat_app. simpl. by rewrite app_nil_r.
  - rewrite (post_error_bool _ He). unfold handleSocketError. rewrite bshutdown_connected by (done || apply Hn').
    eexists _, sent. split; [reflexivity|]. split_and!; try done; [|right; split_and!; eauto].
    exists out'. split_and!; done.
Qed.

(** C16: after the flush task has run, no message is waiting in the send buffer: on a
    connected socket the pending messages have been posted, in order and exactly once,
    and the socket stays connected; only a failed [ibv_post_send] loses them and then
    shuts the connection down. *)
Theorem flush_correct w sent pend :
  Inv w sent pend -> mState (w_sock w) = CONNECTED ->
  exists w' sent', run_flush w = Ok tt w' /\ Inv w' sent' [] /\
    mFlush (w_sock w') = false /\ InfinibandBuffer.valid (mBuffer (w_sock w')) = false /\
    ((mState (w_sock w') = CONNECTED /\ concat sent' = concat sent ++ pend) \/
     (mState (w_sock w') = SHUTDOWN /\ sent' = sent /\ exists ec, post_error ec)).
Proof. apply flush_step. Qed.

End Inv.

(** ** Receiving *)

Section Receive.
Context {U : Type} `{Verbs} `{MessageHandler U}.
Implicit Types w : world U.

(** The handler calls a received buffer at [p] stands for. *)
Fixpoint deliver (p : Z) (ms : list msg) : St (world U) unit :=
  match ms with
  | [] => ret tt
  | m :: ms =>
      let! r := onMessage (msg_id m) (msg_type m)
        (BufferReader (p + HEADER_SIZE) (p + HEADER_SIZE + zlen (msg_body m))) in
      do! in_mem (reader_destroy r) in
      deliver (p + frame_len m) ms
  end.

(** The handler does not write to the receive buffer while it is being parsed. *)
Definition handler_keeps (base n : Z) : Prop :=
  forall id ty r w r' w', onMessage id ty r w = Ok r' w' ->
  forall q k, base <= q -> q + zlen k <= base + n -> pts (w_mem w) q k -> pts (w_mem w') q k.

Lemma in_mem_id {A} (x : St mem A) w a : x (w_mem w) = Ok a (w_mem w) -> in_mem x w = Ok a w.
Proof. intros Hx. rewrite (in_mem_ok _ _ _ _ Hx). by destruct w as [[] ? ? ?]. Qed.

(** Reading a header gives its fields back. *)
Lemma read_header w p e (m : msg) k : msg_wf m -> pts (w_mem w) p (header m ++ k) ->
  in_mem (reader_read 8 (BufferReader p e)) w = Ok (msg_id m, BufferReader (p + 8) e) w /\
  in_mem (reader_read 4 (BufferReader (p + 8) e)) w = Ok (msg_type m, BufferReader (p + 8 + 4) e) w /\
  in_mem (reader_read 4 (BufferReader (p + 8 + 4) e)) w =
    Ok (zlen (msg_body m), BufferReader (p + 8 + 4 + 4) e) w.
Proof.
  intros (Hid & Hty & Hlen) Hp. unfold header in Hp. rewrite <-!app_assoc, !pts_app in Hp.
  assert (forall n v, zlen (le_bytes n v) = Z.of_nat n) as Hz by (intros; unfold zlen; by rewrite length_le_bytes).
  rewrite !Hz in Hp. destruct Hp as (H1 & H2 & H3 & _). pose proof (zlen_nonneg (msg_body m)).
  unfold HEADER_SIZE in Hlen. split_and!; apply in_mem_id; erewrite reader_read_ok by (eassumption || apply length_le_bytes);
    rewrite le_val_bytes_small by (simpl; lia); done.
Qed.

Lemma receive_loop_framed l ms : framed l ms -> forall p e fuel w,
  handler_keeps p (zlen l) -> pts (w_mem w) p l -> 0 <= p -> p mod 8 = 0 -> p + zlen l <= e ->
  p + zlen l + 2 ^ 33 < 2 ^ 64 ->
  receive_loop (length ms + fuel) (BufferReader p e) w =
    (do! deliver p ms in receive_loop fuel (BufferReader (p + zlen l) e)) w.
Proof.
  induction 1 as [|m pad l ms Hm Hlen Hl IH]; intros p e fuel w Hk Hp Hp0 H8 He Hbig.
  { unfold bind, ret. simpl. unfold zlen. simpl. by rewrite Z.add_0_r. }
  rewrite zlen_app, Hlen in Hk, He, Hbig |- *. pose proof (frame_len_bounds m). pose proof (zlen_nonneg l).
  pose proof (zlen_nonneg (msg_body m)). pose proof (zlen_nonneg pad). pose proof Hm as (_ & _ & Hm3).
  pose proof Hp as Hp'. rewrite <-!app_assoc in Hp'.
  destruct (read_header w p e m _ Hm Hp') as (R1 & R2 & R3).
  cbn [length Nat.add receive_loop]. unfold HEADER_SIZE in *.
  rewrite (proj2 (canRead_spec p e 16 ltac:(lia) ltac:(lia) ltac:(lia))) by lia.
  unfold bind at 1. rewrite R1. unfold bind at 1. rewrite R2. unfold bind at 1. rewrite R3.
  rewrite (proj2 (canRead_spec (p + 8 + 4 + 4) e (zlen (msg_body m)) ltac:(lia) ltac:(lia) ltac:(lia))) by lia.
  cbn [negb]. unfold reader_extract, mk_reader. cbn [rPos rEnd].
  rewrite (u64_small (p + 8 + 4 + 4 + zlen (msg_body m))) by lia.
  cbn [deliver]. unfold HEADER_SIZE. replace (p + 16) with (p + 8 + 4 + 4) by lia.
  unfold bind. destruct (onMessage _ _ _ w) as [r' w'| | |] eqn:Hon; [|done..].
  assert (pts (w_mem w') (p + frame_len m) l) as Hp2.
  { apply (Hk _ _ _ _ _ _ Hon); [lia|lia|]. apply pts_app in Hp as [_ Hp]. by rewrite Hlen in Hp. }
  unfold reader_destroy, massert. destruct (rPos r' <=? rEnd r') eqn:Hr; [|done].
  rewrite (in_mem_id (ret tt) w' tt) by done.
  unfold reader_align. cbn [rPos rEnd].
  pose proof (align_after_message p [] [] m) as Hal. change (zlen []) with 0 in Hal. rewrite Z.add_0_r in Hal.
  rewrite Hal by (done || lia || apply framed_nil).
  rewrite IH; [unfold bind; by rewrite <-(Z.add_assoc p)| |done|lia| |lia|lia].
  - intros ?????? Hon' q k Hq Hqk. apply (Hk _ _ _ _ _ _ Hon'); lia.
  - rewrite Zplus_mod, H8, frame_len_mod. done.
Qed.

Lemma onReceive_framed l ms p fuel w :
  framed l ms -> pts (w_mem w) p l -> 0 <= p -> p mod 8 = 0 -> p + zlen l + 2 ^ 33 < 2 ^ 64 ->
  (length ms < fuel)%nat -> handler_keeps p (zlen l) ->
  onReceive fuel p (zlen l) no_error w = deliver p ms w.
Proof.
  intros Hf Hp Hp0 H8 Hbig Hfuel Hk. unfold onReceive. simpl. unfold mk_reader.
  pose proof (zlen_nonneg l). rewrite u64_small by lia.
  replace fuel with (length ms + S (fuel - length ms - 1))%nat by lia.
  rewrite (receive_loop_framed _ _ Hf) by (done || lia). unfold bind.
  destruct (deliver p ms w) as [[] w'| | |]; [|done..]. cbn [receive_loop].
  destruct (canRead (BufferReader (p + zlen l) (p + zlen l)) HEADER_SIZE) eqn:Hc.
  { apply canRead_spec in Hc; unfold HEADER_SIZE in *; lia. }
  apply in_mem_id. unfold reader_destroy, massert. simpl. by rewrite Z.leb_refl.
Qed.

(** C15: on a receive buffer that holds framed messages, [onReceive] makes exactly the
    handler calls the messages stand for: one per message, in order, with its id and
    type and a reader over exactly its body; it terminates without an error of its
    own. *)
Theorem onReceive_correct l ms p fuel w :
  framed l ms -> pts (w_mem w) p l -> 0 <= p -> p mod 8 = 0 -> p + zlen l + 2 ^ 33 < 2 ^ 64 ->
  (length ms < fuel)%nat -> handler_keeps p (zlen l) ->
  onReceive fuel p (zlen l) no_error w = deliver p ms w.
Proof. apply onReceive_framed. Qed.

(** a header that announces more bytes than the buffer holds stops the parsing:
    the messages in front of it are delivered, then the error shuts the connection
    down. *)
Theorem onReceive_truncated l ms bad rest p fuel w w1 :
  framed l ms -> msg_wf bad -> zlen rest < zlen (msg_body bad) ->
  pts (w_mem w) p (l ++ header bad ++ rest) -> 0 <= p -> p mod 8 = 0 ->
  p + zlen l + zlen rest + 2 ^ 33 < 2 ^ 64 ->
  (length ms < fuel)%nat -> handler_keeps p (zlen l + 16) ->
  deliver p ms w = Ok tt w1 -> pts (w_mem w1) (p + zlen l) (header bad) ->
  mState (w_sock w1) = CONNECTED -> n_open (w_net w1) = true ->
  exists w2, onReceive fuel p (zlen (l ++ header bad ++ rest)) no_error w = Ok tt w2 /\
    mState (w_sock w2) = SHUTDOWN.
Proof.
  intros Hf Hb Hrest Hp Hp0 H8 Hbig Hfuel Hk Hdel Hhdr Hst Hop.
  unfold onReceive. change (ec_bool no_error) with false. cbv iota. unfold mk_reader. rewrite !zlen_app, zlen_header.
  pose proof (zlen_nonneg l). pose proof (zlen_nonneg rest). pose proof Hb as (_ & _ & Hb3).
  rewrite u64_small by lia. replace fuel with (length ms + S (fuel - length ms - 1))%nat by lia.
  set (e := p + (zlen l + (16 + zlen rest))) in *.
  rewrite (receive_loop_framed l ms Hf); [|intros ?????? Hon q k Hq Hqk; apply (Hk _ _ _ _ _ _ Hon); lia
    |by apply pts_app in Hp as [??]|lia..].
  unfold bind. rewrite Hdel. cbn [receive_loop]. unfold HEADER_SIZE in *.
  rewrite (proj2 (canRead_spec (p + zlen l) e 16 ltac:(lia) ltac:(lia) ltac:(lia))) by lia.
  rewrite <-(app_nil_r (header bad)) in Hhdr.
  destruct (read_header w1 (p + zlen l) e bad [] Hb Hhdr) as (R1 & R2 & R3).
  unfold bind. rewrite R1, R2, R3.
  destruct (canRead _ (zlen (msg_body bad))) eqn:Hc.
  { apply canRead_spec in Hc; lia. }
  cbn [negb]. unfold handleSocketError. rewrite bshutdown_connected by done.
  eexists. split; [apply in_mem_id|done].
  unfold reader_destroy, massert. cbn [rPos rEnd].
  destruct (Z.leb_spec (p + zlen l + 8 + 4 + 4) e); [done|lia].
Qed.

End Receive.
