(* ===== verification/BatchingFlow.v ===== *)
(** * Batching, end to end

    A session (a sequence of [writeMessage] calls and the flush at the end of the
    poll round) against the receiver's [onReceive]; the connection state machine; and
    the inputs on which the framing breaks. *)

From S2P Require Import Prelude Memory ByteBuffer Ids ErrorCode IbBuffer IbSocket Batching BatchingSpec.

Section Flow.
Context {U : Type} `{Verbs}.
Implicit Types w : world U.

Abbreviation writer_fun := (buffer_writer -> error_code -> St (world U) (buffer_writer * error_code)).

(** A message, the [fun] that writes its body and the error that [fun] ends with. *)
Record request := Request { rq_msg : msg; rq_fun : writer_fun; rq_ec : error_code }.

Definition request_ok (q : request) : Prop :=
  msg_wf (rq_msg q) /\ writes_body (rq_fun q) (msg_body (rq_msg q)) (rq_ec q).

Fixpoint send_all (qs : list request) : St (world U) (list error_code) :=
  match qs with
  | [] => ret []
  | q :: qs =>
      let x := rq_msg q in
      let! ec := writeMessage (msg_id x) (msg_type x) (zlen (msg_body x)) (rq_fun q) no_error in
      let! ecs := send_all qs in
      ret (ec :: ecs)
  end.

(** One poll round: the application writes, then the flush task runs. *)
Definition session (qs : list request) : St (world U) (list error_code) :=
  let! ecs := send_all qs in
  do! run_flush in
  ret ecs.

(** The messages [writeMessage] accepted. *)
Fixpoint accepted (qs : list request) (ecs : list error_code) : list msg :=
  match qs, ecs with
  | q :: qs, ec :: ecs => (if ec_bool ec then [] else [rq_msg q]) ++ accepted qs ecs
  | _, _ => []
  end.

(** Every call either appends its message or reports an error and appends nothing. *)
Lemma write_outcome_accepts w sent pend x e ec sent' pend' :
  (forall l wr, ibv_post_send l wr = 0) -> write_outcome w sent pend x e ec sent' pend' ->
  concat sent' ++ pend' = (concat sent ++ pend) ++ (if ec_bool ec then [] else [x]).
Proof.
  intros Hpost Ho. destruct Ho as [sent' pend' He Hs|sent' pend' He Hs|sent' pend' He Hs
    |sent' pend' He Hs|ec sent' (l & wr & Hne & _)].
  - by rewrite He, Hs, app_assoc.
  - by rewrite He, Hs, app_nil_r.
  - by rewrite rpc_error_set, Hs, app_nil_r.
  - by rewrite network_error_set, Hs, app_nil_r.
  - by rewrite Hpost in Hne.
Qed.

Lemma send_all_stream qs w sent pend :
  (forall l wr, ibv_post_send l wr = 0) -> Forall request_ok qs -> Inv w sent pend ->
  exists ecs w' sent' pend', send_all qs w = Ok ecs w' /\ keeps w w' /\ Inv w' sent' pend' /\
    length ecs = length qs /\ concat sent' ++ pend' = (concat sent ++ pend) ++ accepted qs ecs.
Proof.
  intros Hpost Hqs. revert w sent pend. induction Hqs as [|q qs [Hwf Hf] Hqs IH]; intros w sent pend HI.
  { exists [], w, sent, pend. split_and!; try done. by rewrite app_nil_r. }
  destruct (writeMessage_step w sent pend _ _ _ HI Hwf Hf) as (ec & w1 & sent1 & pend1 & Hrun & Hk & HI1 & Ho).
  destruct (IH w1 sent1 pend1 HI1) as (ecs & w2 & sent2 & pend2 & Hrun2 & Hk2 & HI2 & Hlen & Hstr).
  exists (ec :: ecs), w2, sent2, pend2. cbn [send_all accepted length].
  unfold bind. rewrite Hrun, Hrun2. split_and!; try done; [by eapply keeps_trans|lia|].
  rewrite Hstr, (write_outcome_accepts _ _ _ _ _ _ _ _ Hpost Ho). by rewrite <-app_assoc.
Qed.

(** C1: end-to-end delivery.  When posting succeeds, a session of any [writeMessage]
    calls on a connected socket, ended by the flush, puts the accepted messages on the
    wire in the order of the calls, each exactly once; and a receiver whose
    [onReceive] is called with the posted buffers, wherever they were placed (8-byte
    aligned), makes exactly the handler calls of these messages.  Rejected messages
    leave no trace. *)
Theorem session_delivers qs w :
  (forall l wr, ibv_post_send l wr = 0) -> Forall request_ok qs -> Inv w [] [] ->
  mState (w_sock w) = CONNECTED ->
  exists ecs w' batches, session qs w = Ok ecs w' /\ length ecs = length qs /\
    concat batches = accepted qs ecs /\
    Forall2 (fun payload ms =>
      forall V (HV : MessageHandler V) (r : world V) p fuel,
        pts (w_mem r) p payload -> 0 <= p -> p mod 8 = 0 -> p + zlen payload + 2 ^ 33 < 2 ^ 64 ->
        (length ms < fuel)%nat -> handler_keeps (U := V) p (zlen payload) ->
        onReceive fuel p (zlen payload) no_error r = deliver p ms r)
      (payloads (w_net w')) batches.
Proof.
  intros Hpost Hqs HI Hst.
  destruct (send_all_stream qs w [] [] Hpost Hqs HI) as (ecs & w1 & sent & pend & Hrun & Hk & HI1 & Hlen & Hstr).
  destruct (flush_step w1 sent pend HI1) as (w2 & sent2 & Hrun2 & HI2 & _ & _ & Hcase).
  { destruct Hk as (_ & -> & _). done. }
  destruct Hcase as [[_ Hs2]|(_ & _ & ec & l & wr & Hne & _)]; [|by rewrite Hpost in Hne].
  exists ecs, w2, sent2. unfold session, bind. rewrite Hrun, Hrun2. split_and!; try done.
  { by rewrite Hs2, Hstr. }
  destruct HI2 as (out & _ & _ & Hf & _). eapply Forall2_impl; [|exact Hf].
  intros payload ms Hfr V HV r p fuel Hp H0 H8 Hb Hfu Hk'. by apply onReceive_framed.
Qed.

End Flow.

(** ** A concrete session *)

Section Demo.
#[local] Existing Instance verbs_ok.

(** A [fun] that copies [body] into the message and ends with [e]. *)
Definition put_body {U} (body : list Z) (e : error_code)
    (b : buffer_writer) (ec : error_code) : St (world U) (buffer_writer * error_code) :=
  do! in_mem (store_bytes (wPos b) body) in
  ret (BufferWriter (wPos b + zlen body) (wEnd b), e).

Lemma put_body_writes {U} body e : writes_body (U := U) (put_body body e) body e.
Proof.
  intros p w l0 Hp Hlen. eexists. unfold put_body, bind. cbn [wPos wEnd].
  rewrite (in_mem_ok _ w tt (upd (w_mem w) p body)); [split; [done|simpl; lia]|].
  eapply store_bytes_ok; [done|]. unfold zlen in Hlen. lia.
Qed.

(** Two send buffers of 64 bytes at address 4096. *)
Definition demo_world : world unit :=
  World (Net (Mem (write_bytes ∅ 4096 (replicate 128 0)) ∅ []) (pool_make 2 64 (Region 4096 128 1 1))
    true true true [] [] 0 0)
    (set_state CONNECTED (bsock_make 8)) 0 tt.

Lemma demo_world_Inv : Inv demo_world [] [].
Proof.
  exists []. split_and!; [|split; done|constructor|done]. split_and!; try done; [apply pool_make_wf; simpl; lia|].
  exists (replicate 128 0). split; [|done]. apply (pts_upd_same (Mem ∅ ∅ []) 4096).
Qed.

Definition demo_msg (i : Z) (body : list Z) : @request unit :=
  Request (Msg i 5 body) (put_body body no_error) no_error.

Definition demo_requests : list (@request unit) :=
  [demo_msg 1 [10; 11; 12]; demo_msg 2 (replicate 60 9); demo_msg 3 [20; 21; 22; 23; 24; 25; 26; 27; 28];
   demo_msg 4 [30]].

Lemma demo_requests_ok : Forall request_ok demo_requests.
Proof.
  repeat constructor; simpl; try lia; try apply put_body_writes.
Qed.

(** The second message does not fit and the fourth needs the second buffer. *)
Lemma session_delivers_witness :
  exists ecs w' batches, session demo_requests demo_world = Ok ecs w' /\ length ecs = 4%nat /\
    concat batches = accepted demo_requests ecs /\ length (payloads (w_net w')) = 2%nat /\
    map ec_bool ecs = [false; true; false; false].
Proof.
  destruct (@session_delivers unit verbs_ok demo_requests demo_world (fun _ _ => eq_refl) demo_requests_ok demo_world_Inv eq_refl)
    as (ecs & w' & batches & Hrun & Hlen & Hc & _).
  exists ecs, w', batches. split; [exact Hrun|]. split; [exact Hlen|]. split; [exact Hc|].
  assert (option_map (fun w => length (payloads (w_net w))) (final (session demo_requests demo_world)) = Some 2%nat /\
    option_map (map ec_bool) (result (session demo_requests demo_world)) = Some [false; true; false; false]) as [H1 H2]
    by (split; vm_compute; reflexivity).
  rewrite Hrun in H1, H2. cbn [final result option_map] in H1, H2.
  split; [exact (Some_inj _ _ H1)|exact (Some_inj _ _ H2)].
Defined.

Definition demo_x : msg := Msg 1 5 [10; 11; 12].
Abbreviation write_demo := (writeMessage (U := unit) (msg_id demo_x) (msg_type demo_x) (zlen (msg_body demo_x))
  (put_body (msg_body demo_x) no_error) no_error).

Lemma writeMessage_correct_witness :
  exists ec w' sent' pend',
    write_demo demo_world = Ok ec w' /\
    Inv w' sent' pend' /\ concat sent' ++ pend' = [demo_x].
Proof.
  destruct (@writeMessage_correct unit verbs_ok demo_world [] [] demo_x (put_body (msg_body demo_x) no_error) no_error
    demo_world_Inv ltac:(repeat split; simpl; lia) (put_body_writes _ _)) as (ec & w' & sent' & pend' & Hrun & _ & HI & Ho).
  exists ec, w', sent', pend'. split; [exact Hrun|]. split; [exact HI|].
  assert (result (write_demo demo_world) = Some no_error) as Hec
    by (vm_compute; reflexivity).
  rewrite Hrun in Hec. cbn [result] in Hec. apply Some_inj in Hec as ->.
  inversion Ho as [? ? _ Hs|? ? Hbad _|? ? Hbad _|? ? Hbad _|? ? (? & ? & Hne & _) _];
    [exact Hs|discriminate Hbad|by destruct Hne].
Defined.

(** The socket after one accepted message. *)
Definition demo_written : world unit :=
  match write_demo demo_world with
  | Ok _ w => w | _ => demo_world end.

Lemma demo_written_Inv : Inv demo_written [] [demo_x].
Proof.
  destruct (@writeMessage_step unit verbs_ok demo_world [] [] demo_x (put_body (msg_body demo_x) no_error) no_error
    demo_world_Inv ltac:(repeat split; simpl; lia) (put_body_writes _ _)) as (ec & w' & sent' & pend' & Hrun & _ & HI & Ho).
  assert (w' = demo_written /\ ec = no_error /\ payloads (w_net w') = []) as (-> & -> & Hpay).
  { assert (result (write_demo demo_world) = Some no_error /\
      option_map (fun w => payloads (w_net w))
        (final (write_demo demo_world)) = Some []) as [H1 H2]
      by (split; vm_compute; reflexivity).
    unfold demo_written. rewrite Hrun in *. cbn [final result option_map] in H1, H2.
    split; [reflexivity|]. split; [exact (Some_inj _ _ H1)|exact (Some_inj _ _ H2)]. }
  pose proof HI as (out & _ & _ & Hf & _). rewrite Hpay in Hf. apply Forall2_nil_inv_l in Hf as ->.
  clear Hrun Hpay. revert HI. inversion Ho as [? ? _ Hs|? ? Hbad _|? ? Hbad _|? ? Hbad _|? ? (? & ? & Hne & _) _].
  - cbn in Hs. by rewrite Hs.
  - discriminate Hbad.
  - by destruct Hne.
Qed.

Lemma flush_correct_witness :
  exists w' sent', run_flush demo_written = Ok tt w' /\ Inv w' sent' [] /\
    (mState (w_sock w') = CONNECTED -> concat sent' = [demo_x]).
Proof.
  destruct (@flush_correct unit verbs_ok demo_written [] [demo_x] demo_written_Inv ltac:(vm_compute; reflexivity))
    as (w' & sent' & Hrun & HI & _ & _ & [[_ Hs]|[Hs _]]); exists w', sent';
    (split; [exact Hrun|]); (split; [exact HI|]); [by intros _; rewrite Hs|by rewrite Hs].
Defined.

(** ** Receiving the session *)

(** A handler that records what it is called with. *)
#[local] Instance recorder : MessageHandler (list msg) := {|
  onSocketConnected := fun _ => ret tt;
  onMessage := fun id ty r =>
    let! body := in_mem (load_bytes (Z.to_nat (rEnd r - rPos r)) (rPos r)) in
    do! (fun w => Ok tt (World (w_net w) (w_sock w) (w_tasks w) (w_user w ++ [Msg id ty body]))) in
    ret r;
  onSocketDisconnected := ret tt
|}.

(** A connected socket with the bytes [l] received at address [p]. *)
Definition receiver (p : Z) (l : list Z) : world (list msg) :=
  World (Net (Mem (write_bytes ∅ p l) ∅ []) (pool_make 0 0 (Region 0 0 1 1)) true true true [] [] 0 0)
    (set_state CONNECTED (bsock_make 8)) 0 [].

Lemma load_bytes_state n q m l m' : load_bytes n q m = Ok l m' -> m' = m.
Proof.
  revert q l m'. induction n as [|n IH]; intros q l m'; simpl; unfold ret, bind; [by inversion 1|].
  unfold load. destruct (bytes m !! q); [|done].
  destruct (load_bytes n (q + 1) m) eqn:E; try done. apply IH in E as ->. by inversion 1.
Qed.

Lemma recorder_keeps p n : handler_keeps (U := list msg) p n.
Proof.
  intros id ty r w r' w' Hon q k _ _ Hk. cbn in Hon. unfold bind, in_mem, on_net, on_mem in Hon.
  destruct (load_bytes _ _ _) eqn:E; try done. apply load_bytes_state in E as ->.
  unfold ret in Hon. by simplify_eq.
Qed.

Definition two_messages : list Z :=
  header demo_x ++ [10; 11; 12] ++ replicate 5 0 ++ header (Msg 2 6 []).

Lemma two_messages_framed : framed two_messages [demo_x; Msg 2 6 []].
Proof.
  apply (framed_cons demo_x (replicate 5 0) (header (Msg 2 6 []) ++ [] ++ []) [Msg 2 6 []]); [|done|].
  - repeat split; simpl; lia.
  - apply framed_single; [|done]. repeat split; simpl; lia.
Qed.

Lemma onReceive_correct_witness :
  onReceive 3 4096 40 no_error (receiver 4096 two_messages) =
    deliver 4096 [demo_x; Msg 2 6 []] (receiver 4096 two_messages) /\
  option_map w_user (final (onReceive 3 4096 40 no_error (receiver 4096 two_messages))) =
    Some [demo_x; Msg 2 6 []].
Proof.
  split; [|vm_compute; reflexivity].
  apply (@onReceive_correct (list msg) verbs_ok recorder two_messages [demo_x; Msg 2 6 []] 4096 3);
    [apply two_messages_framed| |done..|simpl; lia|apply recorder_keeps].
  apply (pts_upd_same (Mem ∅ ∅ []) 4096).
Defined.

Lemma onReceive_truncated_witness :
  exists w2, onReceive 3 4096 27 no_error (receiver 4096 (header (Msg 1 5 (replicate 12 0)) ++ replicate 11 0)) = Ok tt w2 /\
    mState (w_sock w2) = SHUTDOWN.
Proof.
  apply (@onReceive_truncated (list msg) verbs_ok recorder [] [] (Msg 1 5 (replicate 12 0)) (replicate 11 0) 4096 3
    (receiver 4096 (header (Msg 1 5 (replicate 12 0)) ++ replicate 11 0))
    (receiver 4096 (header (Msg 1 5 (replicate 12 0)) ++ replicate 11 0)));
    try done; [apply framed_nil| |simpl; lia|apply recorder_keeps|].
  - apply (pts_upd_same (Mem ∅ ∅ []) 4096).
  - pose proof (pts_upd_same (Mem ∅ ∅ []) 4096 (header (Msg 1 5 (replicate 12 0)) ++ replicate 11 0)) as Hp.
    apply pts_app in Hp as [Hp _]. exact Hp.
Defined.

(** ** Where the framing breaks *)

(** A [fun] that writes nothing and reports success. *)
Definition put_nothing {U} (b : buffer_writer) (ec : error_code) : St (world U) (buffer_writer * error_code) :=
  ret (b, no_error).

(** [HEADER_SIZE + messageLength] is 32-bit arithmetic: a message length of
    2^32 - 16 wraps to 0, passes the size check and is reported as written, although
    the buffer has 64 bytes; the writer then points behind its end and the next flush
    fails the assertion of [buffer_writer]. *)
Theorem writeMessage_length_wraps :
  exists w', writeMessage 7 7 (2 ^ 32 - 16) put_nothing no_error demo_written = Ok no_error w' /\
    wEnd (mSendBuffer (w_sock w')) < wPos (mSendBuffer (w_sock w')) /\ run_flush w' = UB.
Proof. eexists. split; [vm_compute; reflexivity|]. split; vm_compute; reflexivity. Qed.

(** Two send buffers of 44 bytes: the second one starts at an address that is not a
    multiple of 8. *)
Definition odd_world : world unit :=
  World (Net (Mem (write_bytes ∅ 4096 (replicate 88 0)) ∅ []) (pool_make 2 44 (Region 4096 88 1 1))
    true true true [] [] 0 0)
    (set_state CONNECTED (bsock_make 8)) 0 tt.

Definition odd_requests : list (@request unit) := [demo_msg 1 [10]; demo_msg 2 [11]].

(** sender and receiver align absolute addresses.  With a buffer length that is not
    a multiple of 8, messages that were accepted and posted are not the messages the
    receiver sees. *)
Theorem unaligned_buffer_misframes :
  exists ecs w' payload r, session odd_requests odd_world = Ok ecs w' /\
    accepted odd_requests ecs = [Msg 1 5 [10]; Msg 2 5 [11]] /\ payloads (w_net w') = [payload] /\
    final (onReceive 9 8192 (zlen payload) no_error (receiver 8192 payload)) = Some r /\
    w_user r <> [Msg 1 5 [10]; Msg 2 5 [11]].
Proof.
  eexists _, _, _, _. split; [vm_compute; reflexivity|]. split; [vm_compute; reflexivity|].
  split; [vm_compute; reflexivity|]. split; [vm_compute; reflexivity|]. vm_compute. discriminate.
Qed.

End Demo.

(** ** The connection state machine *)

Section States.
Context {U : Type} `{Verbs} `{MessageHandler U}.

(** a connection attempt that fails never reaches the application as an event:
    [onConnected] first sets the state to [DISCONNECTED] and then calls
    [handleSocketError], whose [shutdown] throws [not_connected] in every state but
    [CONNECTED].  The exception leaves the callback on the poll thread. *)
Theorem onConnected_error_throws (w : world U) data ec :
  mState (w_sock w) = CONNECTING -> ec_bool ec = true ->
  onConnected data ec w =
    Throw (SystemError errc_not_connected) (with_sock (set_state DISCONNECTED (w_sock w)) w).
Proof.
  intros Hs He. unfold onConnected, bind, sock. rewrite Hs, He. done.
Qed.

End States.

Lemma onConnected_error_throws_witness :
  exists w : world unit, mState (w_sock w) = CONNECTING /\
  @onConnected unit verbs_ok {| onSocketConnected := fun _ => ret tt; onMessage := fun _ _ r => ret r;
    onSocketDisconnected := ret tt |} [] (network_error_code unreachable) w =
    Throw (SystemError errc_not_connected) (with_sock (set_state DISCONNECTED (w_sock w)) w).
Proof.
  exists (with_sock (set_state CONNECTING (w_sock demo_world)) demo_world). split; [reflexivity|].
  apply onConnected_error_throws; reflexivity.
Defined.
