(* ===== verification/RpcClient.v ===== *)
(** * RPC client

    [libs/infinio/include/crossbow/infinio/RpcClient.hpp], [src/RpcClient.cpp] and the fibers and condition variable
    of [Fiber.hpp] and [Fiber.cpp].  Fibers are coroutines of the polling thread: a fiber runs until
    it waits, and whoever resumes it continues when it waits again.  The client socket keeps
    the synchronous requests in the order they were sent; a reply completes the response with its
    id and wakes the fiber that waits for it, which may send new requests before the callback returns.

    The response classes of an application (derived from [RpcResponseResult]) are the interface
    [ResponseHandler]; the code a fiber runs is a [prog], a tree of calls of the client's interface. *)

From S2P Require Import Prelude Memory ByteBuffer Ids ErrorCode IbBuffer IbSocket Batching BatchingSpec BatchingFlow.

(** [RpcResponseState] with the union [mResult]. *)
Inductive RpcResult (R : Type) := UNSET | SET (v : R) | ERROR (ec : error_code).
Arguments UNSET {R}.
Arguments SET {R} v.
Arguments ERROR {R} ec.

(** What [processResponse] of a derived class does with its response. *)
Inductive action (R : Type) := SetResult (v : R) | SetError (ec : error_code) | Nothing.
Arguments SetResult {R} v.
Arguments SetError {R} ec.
Arguments Nothing {R}.

(** A derived class [k]: its [Handler::MessageType] and its [processResponse]. *)
Class ResponseHandler (R : Type) := {
  MessageType : nat -> Z;
  processResponse : nat -> buffer_reader -> St mem (buffer_reader * action R)
}.

(** [RpcResponse] and [RpcResponseResult]; [kind] is the derived class. *)
Record response (R : Type) := Response {
  mFiber : nat;
  kind : nat;
  mPending : bool;
  mWaiting : bool;
  mResult : RpcResult R;
  mRetrieved : bool
}.
Arguments Response {R}.
Arguments mFiber {R}.
Arguments kind {R}.
Arguments mPending {R}.
Arguments mWaiting {R}.
Arguments mResult {R}.
Arguments mRetrieved {R}.

(** The calls a fiber makes.  [i] counts the responses the fiber has created. *)
Inductive prog (R : Type) :=
  | Done
  | NewResponse (k : nat) (next : prog R)
  | SendRequest (i : nat) (ty : Z) (body : list Z) (e : error_code) (next : bool -> prog R)
  | StartAsync (uid : Z) (i : nat) (next : bool -> prog R)
  | SendAsync (uid : Z) (i : nat) (ty : Z) (body : list Z) (e : error_code) (next : bool -> prog R)
  | CompleteAsync (uid : Z) (next : prog R)
  | Get (i : nat) (next : R + exn -> prog R)
  | GetError (i : nat) (next : error_code -> prog R).
Arguments Done {R}.
Arguments NewResponse {R}.
Arguments SendRequest {R}.
Arguments StartAsync {R}.
Arguments SendAsync {R}.
Arguments CompleteAsync {R}.
Arguments Get {R}.
Arguments GetError {R}.

(** A fiber has no function, runs, waits in the condition variable, or waits for a response. *)
Inductive fstatus (R : Type) :=
  | Empty
  | Running
  | OnCondition (p : prog R)
  | OnResponse (r : nat) (p : prog R).
Arguments Empty {R}.
Arguments Running {R}.
Arguments OnCondition {R}.
Arguments OnResponse {R}.

Record fiber (R : Type) := Fiber { f_status : fstatus R; f_handles : list nat }.
Arguments Fiber {R}.
Arguments f_status {R}.
Arguments f_handles {R}.

(** The members of [RpcClientSocket], the responses and the fibers of its processor. *)
Record client (R : Type) := Client {
  mUserId : Z;
  mMaxPendingResponses : Z;
  mSyncResponses : list (Z * nat);
  mAsyncResponses : gmap Z nat;
  mWaitingRequests : list nat;
  responses : list (response R);
  fibers : list (fiber R)
}.
Arguments Client {R}.
Arguments mUserId {R}.
Arguments mMaxPendingResponses {R}.
Arguments mSyncResponses {R}.
Arguments mAsyncResponses {R}.
Arguments mWaitingRequests {R}.
Arguments responses {R}.
Arguments fibers {R}.

(** [google::dense_hash_map]: [begin()] is some entry of a non-empty map. *)
Class DenseHashMap := {
  dense_begin : gmap Z nat -> option (Z * nat);
  dense_begin_some : forall m k r, dense_begin m = Some (k, r) -> m !! k = Some r;
  dense_begin_none : forall m, dense_begin m = None -> m = ∅
}.

Definition ERROR_MESSAGE : Z := 2 ^ 32 - 1.
Definition future_already_retrieved : Z := 1.
Definition promise_already_satisfied : Z := 2.
Definition broken_promise : error_code := ErrorCode 4 future_category.
Definition connection_aborted : error_code := generic_error_code errc_connection_aborted.

Section Rpc.
Context {R : Type} `{Verbs} `{ResponseHandler R} `{DenseHashMap}.
Abbreviation M := (St (world (client R))).
Implicit Types (r f : nat).

(** ** State *)

Definition cl : M (client R) := fun w => Ok (w_user w) w.
Definition cmod (g : client R -> client R) : M unit := fun w =>
  Ok tt (World (w_net w) (w_sock w) (w_tasks w) (g (w_user w))).

Definition set_userId (n : Z) (c : client R) := Client n (mMaxPendingResponses c) (mSyncResponses c) (mAsyncResponses c) (mWaitingRequests c) (responses c) (fibers c).
Definition set_sync (q : list (Z * nat)) (c : client R) := Client (mUserId c) (mMaxPendingResponses c) q (mAsyncResponses c) (mWaitingRequests c) (responses c) (fibers c).
Definition set_async (m : gmap Z nat) (c : client R) := Client (mUserId c) (mMaxPendingResponses c) (mSyncResponses c) m (mWaitingRequests c) (responses c) (fibers c).
Definition set_waiting (q : list nat) (c : client R) := Client (mUserId c) (mMaxPendingResponses c) (mSyncResponses c) (mAsyncResponses c) q (responses c) (fibers c).
Definition set_responses (l : list (response R)) (c : client R) := Client (mUserId c) (mMaxPendingResponses c) (mSyncResponses c) (mAsyncResponses c) (mWaitingRequests c) l (fibers c).
Definition set_fibers (l : list (fiber R)) (c : client R) := Client (mUserId c) (mMaxPendingResponses c) (mSyncResponses c) (mAsyncResponses c) (mWaitingRequests c) (responses c) l.

Definition get_response r : M (response R) := fun w =>
  match responses (w_user w) !! r with Some x => Ok x w | None => UB end.
Definition mod_response r (g : response R -> response R) : M unit :=
  cmod (fun c => set_responses (alter g r (responses c)) c).
Definition r_pending (b : bool) (x : response R) := Response (mFiber x) (kind x) b (mWaiting x) (mResult x) (mRetrieved x).
Definition r_waiting (b : bool) (x : response R) := Response (mFiber x) (kind x) (mPending x) b (mResult x) (mRetrieved x).
Definition r_result (v : RpcResult R) (x : response R) := Response (mFiber x) (kind x) (mPending x) (mWaiting x) v (mRetrieved x).
Definition r_retrieved (b : bool) (x : response R) := Response (mFiber x) (kind x) (mPending x) (mWaiting x) (mResult x) b.

Definition get_fiber f : M (fiber R) := fun w =>
  match fibers (w_user w) !! f with Some x => Ok x w | None => UB end.
Definition set_status f (st : fstatus R) : M unit :=
  cmod (fun c => set_fibers (alter (fun x => Fiber st (f_handles x)) f (fibers c)) c).

(** The response behind the handle [i] of fiber [f]. *)
Definition handle f (i : nat) : M nat :=
  let! x := get_fiber f in
  match f_handles x !! i with Some r => ret r | None => ub end.

Definition done (x : response R) : bool := negb (mPending x).

(** ** RpcResponse

    [resume] is [Fiber::resume]. *)

Section WithResume.
Context (resume : nat -> M unit).

Definition notify r : M unit :=
  let! x := get_response r in
  if mWaiting x then resume (mFiber x) else ret tt.

Definition complete r : M unit :=
  let! x := get_response r in
  do! massert (mPending x) in
  do! mod_response r (r_pending false) in
  notify r.

(** [setInternalResult], [setResult] and [setError]. *)
Definition setInternalResult r (v : RpcResult R) : M unit :=
  let! x := get_response r in
  if done x then throw (FutureError promise_already_satisfied)
  else
    do! mod_response r (r_result v) in
    complete r.

Definition onAbort r (ec : error_code) : M unit :=
  let! x := get_response r in
  do! massert (negb (done x)) in
  do! massert (match mResult x with UNSET => true | _ => false end) in
  setInternalResult r (ERROR ec).

(** [RpcResponseResult::onResponse]. *)
Definition onResponse r (messageType : Z) (message : buffer_reader) : M buffer_reader :=
  let! x := get_response r in
  do! massert (negb (done x)) in
  do! massert (match mResult x with UNSET => true | _ => false end) in
  if messageType =? ERROR_MESSAGE then
    let! (v, message) := in_mem (reader_read 8 message) in
    do! setInternalResult r (ERROR (ErrorCode (to_signed 32 v) user_category)) in
    ret message
  else if negb (messageType =? MessageType (kind x)) then
    do! setInternalResult r (ERROR (rpc_error_code wrong_type)) in
    ret message
  else
    let! (message, a) := in_mem (processResponse (kind x) message) in
    do! match a with
        | SetResult v => setInternalResult r (SET v)
        | SetError ec => setInternalResult r (ERROR ec)
        | Nothing => ret tt
        end in
    let! x := get_response r in
    do! match mResult x with
        | UNSET => do! massert (negb (done x)) in setInternalResult r (ERROR broken_promise)
        | _ => ret tt
        end in
    ret message.

(** ** ConditionVariable *)

Definition notify_one : M unit :=
  let! c := cl in
  match mWaitingRequests c with
  | [] => ret tt
  | f :: rest => do! cmod (set_waiting rest) in resume f
  end.

Fixpoint resume_all (l : list nat) : M unit :=
  match l with
  | [] => ret tt
  | f :: l => do! resume f in resume_all l
  end.

Definition notify_all : M unit :=
  let! c := cl in
  do! cmod (set_waiting []) in
  resume_all (mWaitingRequests c).

(** ** Requests *)

(** The condition of [sendRequest]. *)
Definition ready : M bool := fun w =>
  Ok (negb (bool_decide (mState (w_sock w) = CONNECTING)) &&
      (zlen (mSyncResponses (w_user w)) <? mMaxPendingResponses (w_user w))) w.
(** The condition of [sendAsyncRequest]. *)
Definition not_connecting : M bool := fun w => Ok (negb (bool_decide (mState (w_sock w) = CONNECTING))) w.

(** [sendRequest], when the condition holds. *)
Definition sendRequest r (ty : Z) (body : list Z) (e : error_code) : M bool :=
  let! s := sock in
  if negb (isConnected s) then do! onAbort r connection_aborted in ret false
  else
    do! cmod (fun c => set_userId (u32 (mUserId c + 1)) c) in
    let! c := cl in
    let! ec := writeMessage (messageId_build (mUserId c) false) ty (zlen body) (put_body body e) no_error in
    if ec_bool ec then do! onAbort r ec in ret false
    else
      do! cmod (fun c => set_sync (mSyncResponses c ++ [(mUserId c, r)]) c) in
      ret true.

Definition startAsyncRequest (uid : Z) r : M bool :=
  let! c := cl in
  match mAsyncResponses c !! uid with
  | Some _ => ret false
  | None => do! cmod (set_async (<[uid := r]> (mAsyncResponses c))) in ret true
  end.

(** [sendAsyncRequest], when the condition holds. *)
Definition sendAsyncRequest (uid : Z) r (ty : Z) (body : list Z) (e : error_code) : M bool :=
  let! s := sock in
  if negb (isConnected s) then do! onAbort r connection_aborted in ret false
  else
    let! ec := writeMessage (messageId_build uid true) ty (zlen body) (put_body body e) no_error in
    if ec_bool ec then do! onAbort r ec in ret false else ret true.

Definition completeAsyncRequest (uid : Z) : M unit :=
  cmod (fun c => set_async (delete uid (mAsyncResponses c)) c).

(** [std::make_shared<Response>(fiber)]. *)
Definition newResponse f (k : nat) : M unit :=
  cmod (fun c => set_fibers (alter (fun x => Fiber (f_status x) (f_handles x ++ [length (responses c)])) f (fibers c))
    (set_responses (responses c ++ [Response f k true false UNSET false]) c)).

(** [ConditionVariable::wait(fiber)] and [Fiber::wait] of a fiber that will go on with [p]. *)
Definition wait_condition f (p : prog R) : M unit :=
  do! cmod (fun c => set_waiting (mWaitingRequests c ++ [f]) c) in
  set_status f (OnCondition p).

(** [RpcResponse::wait], up to [Fiber::wait]. *)
Definition wait_response f r (p : prog R) : M unit :=
  let! x := get_response r in
  do! massert (negb (mWaiting x) && bool_decide (mFiber x = f)) in
  do! mod_response r (r_waiting true) in
  set_status f (OnResponse r p).

(** Fiber [f] runs [p] until it waits or its function returns. *)
Fixpoint run f (p : prog R) : M unit :=
  match p with
  | Done => set_status f Empty
  | NewResponse k p => do! newResponse f k in run f p
  | SendRequest i ty body e next =>
      do! massert (negb (ty =? ERROR_MESSAGE)) in
      let! r := handle f i in
      let! b := ready in
      if b : bool then let! sent := sendRequest r ty body e in run f (next sent)
      else wait_condition f p
  | StartAsync uid i next => let! r := handle f i in let! b := startAsyncRequest uid r in run f (next b)
  | SendAsync uid i ty body e next =>
      do! massert (negb (ty =? ERROR_MESSAGE)) in
      let! r := handle f i in
      let! b := not_connecting in
      if b : bool then let! sent := sendAsyncRequest uid r ty body e in run f (next sent)
      else wait_condition f p
  | CompleteAsync uid p => do! completeAsyncRequest uid in run f p
  | Get i next =>
      let! r := handle f i in
      let! x := get_response r in
      if mPending x then wait_response f r p
      else
        do! massert (negb (mWaiting x)) in
        match mResult x with
        | UNSET => ub
        | ERROR ec => run f (next (inr (SystemError (ec_value ec))))
        | SET v =>
            if mRetrieved x then run f (next (inr (FutureError future_already_retrieved)))
            else do! mod_response r (r_retrieved true) in run f (next (inl v))
        end
  | GetError i next =>
      let! r := handle f i in
      let! x := get_response r in
      if mPending x then wait_response f r p
      else
        do! massert (negb (mWaiting x)) in
        match mResult x with
        | UNSET => ub
        | ERROR ec => run f (next ec)
        | SET _ => run f (next no_error)
        end
  end.

End WithResume.

(** [Fiber::resume]: the fiber goes on behind its wait.  [depth] bounds the nesting of resumed
    fibers; a fiber that runs does not resume another one, so 1 is enough (see [fiber_run_ok]). *)
Fixpoint resume (depth : nat) f : M unit :=
  match depth with
  | O => nofuel
  | S d =>
      let! x := get_fiber f in
      match f_status x with
      | OnCondition p => do! set_status f Running in run (resume d) f p
      | OnResponse r p =>
          do! set_status f Running in
          do! mod_response r (r_waiting false) in
          run (resume d) f p
      | Empty | Running => ub
      end
  end.

(** [Fiber::execute(fun)]; the function starts with no response of its own. *)
Definition execute (depth : nat) f (p : prog R) : M unit :=
  let! x := get_fiber f in
  match f_status x with
  | Empty =>
      do! cmod (fun c => set_fibers (<[f := Fiber Running []]> (fibers c)) c) in
      run (resume depth) f p
  | _ => ub
  end.

(** ** RpcClientSocket *)

Definition RpcClientSocket_make (maxPendingResponses : Z) (c : client R) : M unit :=
  if maxPendingResponses =? 0 then throw InvalidArgument
  else cmod (fun _ => Client 0 maxPendingResponses [] ∅ [] (responses c) (fibers c)).

Section Callbacks.
Context (depth fuel : nat).

Definition client_onSocketConnected (data : list Z) : M unit := notify_all (resume depth).

Fixpoint abort_sync (n : nat) : M unit :=
  match n with
  | O => nofuel
  | S n =>
      let! c := cl in
      match mSyncResponses c with
      | [] => ret tt
      | (_, r) :: q =>
          do! cmod (set_sync q) in
          do! onAbort (resume depth) r connection_aborted in
          abort_sync n
      end
  end.

Fixpoint abort_async (n : nat) : M unit :=
  match n with
  | O => nofuel
  | S n =>
      let! c := cl in
      match dense_begin (mAsyncResponses c) with
      | None => ret tt
      | Some (k, r) =>
          do! cmod (set_async (delete k (mAsyncResponses c))) in
          do! onAbort (resume depth) r connection_aborted in
          abort_async n
      end
  end.

Definition client_onSocketDisconnected : M unit :=
  do! notify_all (resume depth) in
  do! abort_sync fuel in
  abort_async fuel.

Fixpoint onSyncResponse (n : nat) (userId messageType : Z) (message : buffer_reader) : M buffer_reader :=
  match n with
  | O => nofuel
  | S n =>
      let! c := cl in
      match mSyncResponses c with
      | [] => ret message
      | (responseId, r) :: q =>
          do! cmod (set_sync q) in
          do! notify_one (resume depth) in
          if negb (userId =? responseId) then
            do! onAbort (resume depth) r (rpc_error_code no_response) in
            onSyncResponse n userId messageType message
          else onResponse (resume depth) r messageType message
      end
  end.

Definition onAsyncResponse (userId messageType : Z) (message : buffer_reader) : M buffer_reader :=
  let! c := cl in
  match mAsyncResponses c !! userId with
  | None => ret message
  | Some r => onResponse (resume depth) r messageType message
  end.

Definition client_onMessage (messageId messageType : Z) (message : buffer_reader) : M buffer_reader :=
  if messageId_isAsync messageId then onAsyncResponse (messageId_userId messageId) messageType message
  else onSyncResponse fuel (messageId_userId messageId) messageType message.

Definition rpc_client_handler : MessageHandler (client R) := {|
  onSocketConnected := client_onSocketConnected;
  onMessage := client_onMessage;
  onSocketDisconnected := client_onSocketDisconnected
|}.

End Callbacks.
End Rpc.
