(* ===== verification/RpcClientSpec.v ===== *)
(** * RPC client: the invariant of requests, responses and fibers

    Fibers whose programs send a request at most once for each response and only then wait for it
    ([wf_prog]) keep the invariant [cinv]: a response is pending exactly while it has no result, the
    requests without an answer are distinct pending responses, and a fiber that waits for a response waits for one
    whose request has no answer yet.  [fiber_run_ok] shows that a fiber always runs until it waits or returns,
    with no failed assertion, and what it leaves unchanged. *)

From S2P Require Import Prelude Memory ByteBuffer Ids ErrorCode IbBuffer IbSocket Batching BatchingSpec BatchingFlow RpcClient.

Lemma alter_insert {A} (g : A -> A) (l : list A) i x : l !! i = Some x -> alter g i l = <[i := g x]> l.
Proof.
  intros Hx. apply list_eq. intros j. destruct (decide (i = j)) as [->|Hne].
  - rewrite list_lookup_alter_eq, Hx, list_lookup_insert_eq; [done|by eapply lookup_lt_Some].
  - by rewrite list_lookup_alter_ne, list_lookup_insert_ne.
Qed.

Section Spec.
Context {R : Type} `{Verbs} `{ResponseHandler R}.
Implicit Types (r f g : nat) (c : client R) (w : world (client R)) (x : response R) (D W : list nat).

(** ** Programs

    [st] holds, for each response of the fiber, whether its request is still to be sent. *)

Fixpoint wf_prog (st : list bool) (p : prog R) : Prop :=
  match p with
  | Done => True
  | NewResponse k p => wf_prog (st ++ [true]) p
  | SendRequest i ty body e next =>
      st !! i = Some true /\ 0 <= ty < ERROR_MESSAGE /\ HEADER_SIZE + zlen body < 2 ^ 32 /\
      forall b, wf_prog (<[i := false]> st) (next b)
  | Get i next => st !! i = Some false /\ forall v, wf_prog st (next v)
  | GetError i next => st !! i = Some false /\ forall v, wf_prog st (next v)
  | StartAsync _ _ _ | SendAsync _ _ _ _ _ _ | CompleteAsync _ _ => False
  end.

(** ** The invariant

    [D] holds the responses taken from the queue whose callback is still to run, [W] the fibers taken
    from the condition variable that are still to be resumed. *)

Definition outstanding c D : list nat := D ++ (mSyncResponses c).*2.

Definition hs_ok (rs : list (response R)) f (hs : list nat) : Prop :=
  NoDup hs /\ forall r, r ∈ hs -> exists x, rs !! r = Some x /\ mFiber x = f.

Definition prog_ok (rs : list (response R)) (out hs : list nat) (st : list bool) (p : prog R) : Prop :=
  length st = length hs /\ wf_prog st p /\
  forall i r b, st !! i = Some b -> hs !! i = Some r ->
    exists x, rs !! r = Some x /\ if b : bool then mPending x = true /\ r ∉ out else mPending x = true -> r ∈ out.

Definition status_ok (rs : list (response R)) (out : list nat) f (fb : fiber R) : Prop :=
  match f_status fb with
  | Empty | Running => True
  | OnCondition p => exists st, prog_ok rs out (f_handles fb) st p
  | OnResponse r p => (exists st, prog_ok rs out (f_handles fb) st p) /\ r ∈ out /\
      exists x, rs !! r = Some x /\ mWaiting x = true /\ mFiber x = f
  end.

Definition fib_ok (rs : list (response R)) (out : list nat) f (fb : fiber R) : Prop :=
  hs_ok rs f (f_handles fb) /\ status_ok rs out f fb.

Definition resp_ok (fs : list (fiber R)) r x : Prop :=
  (mPending x = true <-> mResult x = UNSET) /\
  (mWaiting x = true -> exists fb p, fs !! mFiber x = Some fb /\ f_status fb = OnResponse r p).

Definition cv_ok (fs : list (fiber R)) (cv : list nat) : Prop :=
  NoDup cv /\ forall f, f ∈ cv <-> exists p hs, fs !! f = Some (Fiber (OnCondition p) hs).

Definition cinv c D W : Prop :=
  (forall r x, responses c !! r = Some x -> resp_ok (fibers c) r x) /\
  NoDup (outstanding c D) /\
  (forall r, r ∈ outstanding c D -> exists x, responses c !! r = Some x /\ mPending x = true) /\
  (forall f fb, fibers c !! f = Some fb -> fib_ok (responses c) (outstanding c D) f fb) /\
  cv_ok (fibers c) (W ++ mWaitingRequests c) /\ 0 < mMaxPendingResponses c.

(** ** Stability of the parts that belong to other fibers *)

(** How a response may change under a fiber that goes on with the same program: [r] may have been answered. *)
Definition resp_pend (out out' : list nat) r x x' : Prop :=
  mFiber x' = mFiber x /\
  ((mPending x' = mPending x /\ (r ∈ out' <-> r ∈ out)) \/ (mPending x' = false /\ r ∈ out)).

(** How it may change under a fiber that stays suspended. *)
Definition resp_step (out out' : list nat) r x x' : Prop :=
  resp_pend out out' r x x' /\ mWaiting x' = mWaiting x /\
  (mWaiting x = true -> r ∈ out -> r ∈ out').

Definition others_step (P : list nat -> list nat -> nat -> response R -> response R -> Prop)
    (rs rs' : list (response R)) (out out' : list nat) g : Prop :=
  forall r x, rs !! r = Some x -> mFiber x = g -> exists x', rs' !! r = Some x' /\ P out out' r x x'.

Lemma hs_stable rs rs' out out' g hs :
  others_step resp_pend rs rs' out out' g -> hs_ok rs g hs -> hs_ok rs' g hs.
Proof.
  intros Hs [Hnd Hh]. split; [done|]. intros r Hr. destruct (Hh r Hr) as (x & Hx & Hf).
  destruct (Hs r x Hx Hf) as (x' & Hx' & Hf' & _). exists x'. split; [done|congruence].
Qed.

Lemma prog_stable rs rs' out out' g hs st p :
  others_step resp_pend rs rs' out out' g -> hs_ok rs g hs -> prog_ok rs out hs st p -> prog_ok rs' out' hs st p.
Proof.
  intros Hs [_ Hh] (Hl & Hwf & Hp). split_and!; [done..|]. intros i r b Hi Hr.
  destruct (Hp i r b Hi Hr) as (x & Hx & Hb). destruct (Hh r) as (x0 & Hx0 & Hf0); [by eapply list_elem_of_lookup_2|].
  simplify_eq. destruct (Hs r x Hx eq_refl) as (x' & Hx' & _ & Hc). exists x'. split; [done|].
  destruct Hc as [[-> Hiff]|(Hd & Ho)]; [destruct b; tauto|]. destruct b; [tauto|congruence].
Qed.

Lemma others_step_pend rs rs' out out' g :
  others_step resp_step rs rs' out out' g -> others_step resp_pend rs rs' out out' g.
Proof. intros Hs r x Hx Hf. destruct (Hs r x Hx Hf) as (x' & ? & ? & _). eauto. Qed.

Lemma fib_stable rs rs' out out' g fb :
  others_step resp_step rs rs' out out' g -> fib_ok rs out g fb -> fib_ok rs' out' g fb.
Proof.
  intros Hs [Hh Hst]. pose proof (others_step_pend _ _ _ _ _ Hs) as Hs'. split; [by eapply hs_stable|]. unfold status_ok in *.
  destruct (f_status fb) as [| |p|r p]; [done..| |].
  - destruct Hst as [st Hst]. exists st. by eapply prog_stable.
  - destruct Hst as ([st Hst] & Ho & x & Hx & Hw & Hf). split_and!.
    + exists st. by eapply prog_stable.
    + destruct (Hs r x Hx Hf) as (x' & _ & _ & _ & Ho'). auto.
    + destruct (Hs r x Hx Hf) as (x' & Hx' & [Hf' _] & Hw' & _). exists x'. split_and!; congruence.
Qed.

(** ** Steps of a running fiber *)

(** Fiber [f] changes only what belongs to it. *)
Definition own_step f (rs rs' : list (response R)) (out out' : list nat) : Prop :=
  (forall r x, rs !! r = Some x -> mFiber x <> f -> rs' !! r = Some x /\ (r ∈ out' <-> r ∈ out)) /\
  (forall r x, rs' !! r = Some x -> mFiber x <> f -> rs !! r = Some x).

(** The responses of [f] under its new status. *)
Definition own_resps f (fb : fiber R) (rs : list (response R)) : Prop :=
  forall r x, rs !! r = Some x -> mFiber x = f ->
    (mPending x = true <-> mResult x = UNSET) /\ (mWaiting x = true -> exists p, f_status fb = OnResponse r p).

Definition running c f (hs : list nat) : Prop := fibers c !! f = Some (Fiber Running hs).

Lemma running_resps c D W f hs fb : cinv c D W -> running c f hs -> own_resps f fb (responses c).
Proof.
  intros (Hr & _) Hf r x Hx Hxf. destruct (Hr r x Hx) as [Hu Hw]. split; [done|].
  intros (fb' & p & Hfb & Hst)%Hw. unfold running in *. rewrite Hxf in Hfb. by simplify_eq.
Qed.

Lemma resp_ok_other fs f fb r x : resp_ok fs r x -> mFiber x <> f -> resp_ok (<[f := fb]> fs) r x.
Proof.
  intros [Hu Hw] Hne. split; [done|]. intros (fb' & p & Hfb & Hst)%Hw. exists fb', p.
  by rewrite list_lookup_insert_ne by done.
Qed.

Lemma own_cinv c c' D D' W f hs fb' :
  cinv c D W -> running c f hs -> fibers c' = <[f := fb']> (fibers c) ->
  own_step f (responses c) (responses c') (outstanding c D) (outstanding c' D') ->
  own_resps f fb' (responses c') ->
  NoDup (outstanding c' D') ->
  (forall r, r ∈ outstanding c' D' -> exists x, responses c' !! r = Some x /\ mPending x = true) ->
  fib_ok (responses c') (outstanding c' D') f fb' ->
  cv_ok (fibers c') (W ++ mWaitingRequests c') -> mMaxPendingResponses c' = mMaxPendingResponses c ->
  cinv c' D' W.
Proof.
  intros (Hr & _ & _ & Hfib & _ & Hmax) Hf Hfs [Hoth Hback] Hown Hnd Hpend Hfb Hcv Hm.
  split_and!; try done; [| |lia].
  - intros r x Hx. destruct (decide (mFiber x = f)) as [<-|Hne].
    + destruct (Hown r x Hx eq_refl) as [Hu Hw]. split; [done|]. intros [p Hp]%Hw. exists fb', p.
      rewrite Hfs, list_lookup_insert_eq; [done|by eapply lookup_lt_Some].
    + rewrite Hfs. apply resp_ok_other; auto.
  - intros g fb Hg. rewrite Hfs, list_lookup_insert_Some in Hg. destruct Hg as [(<- & <- & _)|[Hne Hg]]; [done|].
    eapply fib_stable; [|by apply Hfib]. intros r x Hx Hxg. exists x.
    destruct (Hoth r x Hx) as [Hx' Hi]; [congruence|]. split; [done|]. split; [|tauto]. split; [done|by left].
Qed.

Lemma own_step_refl f rs out out' :
  (forall r x, rs !! r = Some x -> mFiber x <> f -> r ∈ out' <-> r ∈ out) -> own_step f rs rs out out'.
Proof. intros Ho. split; eauto. Qed.

Lemma own_step_insert f (rs : list (response R)) r x x' out : 
  rs !! r = Some x -> mFiber x = f -> mFiber x' = f -> own_step f rs (<[r := x']> rs) out out.
Proof.
  intros Hx Hf Hf'. split.
  - intros r2 x2 Hx2 Hne. split; [|done]. rewrite list_lookup_insert_ne; [done|]. intros ->. congruence.
  - intros r2 x2 Hx2 Hne. apply list_lookup_insert_Some in Hx2 as [(-> & <- & _)|[_ ?]]; [congruence|done].
Qed.

Lemma own_resps_insert f fb rs r x' :
  own_resps f fb rs -> (mPending x' = true <-> mResult x' = UNSET) ->
  (mWaiting x' = true -> exists p, f_status fb = OnResponse r p) -> own_resps f fb (<[r := x']> rs).
Proof.
  intros Ho Hu Hw r2 x2 Hx2 Hf2. apply list_lookup_insert_Some in Hx2 as [(<- & <- & _)|[_ ?]]; [done|by apply Ho].
Qed.

Lemma hs_insert rs f hs r x x' :
  hs_ok rs f hs -> rs !! r = Some x -> mFiber x' = mFiber x -> hs_ok (<[r := x']> rs) f hs.
Proof.
  intros [Hnd Hh] Hx Hf. split; [done|]. intros r2 Hr2. destruct (Hh r2 Hr2) as (x2 & Hx2 & Hf2).
  destruct (decide (r = r2)) as [<-|Hne].
  - exists x'. rewrite list_lookup_insert_eq by (by eapply lookup_lt_Some). split; [done|congruence].
  - exists x2. by rewrite list_lookup_insert_ne.
Qed.

(** The condition variable when a running fiber changes its status. *)
Lemma cv_running c D W f hs fb' :
  cinv c D W -> running c f hs -> (forall p, f_status fb' <> OnCondition p) ->
  cv_ok (<[f := fb']> (fibers c)) (W ++ mWaitingRequests c).
Proof.
  intros (_ & _ & _ & _ & [Hnd Hcv] & _) Hf Hst. split; [done|]. intros g. rewrite Hcv.
  unfold running in Hf. split; intros (p & hs' & Hg); exists p, hs'.
  - rewrite list_lookup_insert_ne; [done|]. intros <-. simplify_eq.
  - apply list_lookup_insert_Some in Hg as [(<- & -> & _)|[_ ?]]; [by destruct (Hst p)|done].
Qed.

Lemma running_insert c f hs : running c f hs -> <[f := Fiber Running hs]> (fibers c) = fibers c.
Proof. intros Hf. by apply list_insert_id. Qed.

Lemma running_hs c D W f hs : cinv c D W -> running c f hs -> hs_ok (responses c) f hs.
Proof. intros (_ & _ & _ & Hfib & _) Hf. by apply (Hfib f _ Hf). Qed.

Lemma done_cinv c D W f hs :
  cinv c D W -> running c f hs -> cinv (set_fibers (<[f := Fiber Empty hs]> (fibers c)) c) D W.
Proof.
  intros HI Hf. pose proof HI as (_ & Hnd & Hp & _). eapply own_cinv; [done..| | | | | | |done]; try done.
  - by eapply (running_resps c).
  - split; [by eapply (running_hs c)|done].
  - by eapply (cv_running c).
Qed.

Lemma condwait_cinv c D W f hs st p :
  cinv c D W -> running c f hs -> prog_ok (responses c) (outstanding c D) hs st p ->
  cinv (set_fibers (<[f := Fiber (OnCondition p) hs]> (fibers c)) (set_waiting (mWaitingRequests c ++ [f]) c)) D W.
Proof.
  intros HI Hf Hp. pose proof HI as (_ & Hnd & Hpd & _ & [Hcn Hcv] & _).
  eapply own_cinv; [done..| | | | | | |done]; try done.
  - by eapply (running_resps c).
  - split; [by eapply (running_hs c)|]. by exists st.
  - unfold running in Hf. cbn. rewrite app_assoc. split.
    + apply list.NoDup_app. split_and!; [done| |apply NoDup_singleton].
      intros g Hg ->%list_elem_of_singleton. apply Hcv in Hg as (? & ? & ?). simplify_eq.
    + intros g. rewrite elem_of_app, list_elem_of_singleton, Hcv. split.
      * intros [(q & hs' & Hg)| ->].
        -- exists q, hs'. rewrite list_lookup_insert_ne; [done|]. intros <-. simplify_eq.
        -- exists p, hs. apply list_lookup_insert_eq. by eapply lookup_lt_Some.
      * intros (q & hs' & Hg). apply list_lookup_insert_Some in Hg as [(<- & _)|[_ Hg]]; [by right|left; eauto].
Qed.

Lemma prog_insert rs out hs st p r x x' :
  prog_ok rs out hs st p -> rs !! r = Some x -> mPending x' = mPending x -> prog_ok (<[r := x']> rs) out hs st p.
Proof.
  intros (Hl & Hwf & Hp) Hx Hpe. split_and!; [done..|]. intros i r2 b Hi Hr2.
  destruct (Hp i r2 b Hi Hr2) as (x2 & Hx2 & Hb). destruct (decide (r = r2)) as [<-|Hne].
  - exists x'. rewrite list_lookup_insert_eq by (by eapply lookup_lt_Some). split; [done|].
    simplify_eq. by rewrite Hpe.
  - exists x2. by rewrite list_lookup_insert_ne.
Qed.

Lemma pending_insert (rs : list (response R)) (out : list nat) r x x' :
  (forall r, r ∈ out -> exists x, rs !! r = Some x /\ mPending x = true) ->
  rs !! r = Some x -> (r ∈ out -> mPending x' = true) ->
  forall r2, r2 ∈ out -> exists x2, <[r := x']> rs !! r2 = Some x2 /\ mPending x2 = true.
Proof.
  intros Hp Hx Hr r2 Hr2. destruct (decide (r = r2)) as [<-|Hne].
  - exists x'. rewrite list_lookup_insert_eq by (by eapply lookup_lt_Some). split; [done|auto].
  - destruct (Hp r2 Hr2) as (x2 & ? & ?). exists x2. by rewrite list_lookup_insert_ne.
Qed.

(** [f] changes its response [r] and stays as it is, or waits for it. *)
Lemma response_cinv c D W f hs r x x' s :
  cinv c D W -> running c f hs -> responses c !! r = Some x -> mFiber x = f -> mFiber x' = f ->
  (mPending x' = true <-> mResult x' = UNSET) -> (r ∈ outstanding c D -> mPending x' = true) ->
  (mWaiting x' = true -> exists p, s = OnResponse r p) -> (forall p, s <> OnCondition p) ->
  status_ok (<[r := x']> (responses c)) (outstanding c D) f (Fiber s hs) ->
  cinv (set_fibers (<[f := Fiber s hs]> (fibers c)) (set_responses (<[r := x']> (responses c)) c)) D W.
Proof.
  intros HI Hf Hx Hxf Hxf' Hu Ho Hw Hs Hst. pose proof HI as (_ & Hnd & Hpd & _).
  eapply own_cinv; [done..| | | | | | |done]; try done.
  - by eapply own_step_insert.
  - apply own_resps_insert; [by eapply (running_resps c)|done..].
  - by eapply pending_insert.
  - split; [|done]. eapply hs_insert; [by eapply (running_hs c)|done|congruence].
  - by eapply (cv_running c).
Qed.

Lemma respwait_cinv c D W f hs st p r x :
  cinv c D W -> running c f hs -> responses c !! r = Some x -> mFiber x = f -> r ∈ outstanding c D ->
  prog_ok (responses c) (outstanding c D) hs st p ->
  cinv (set_fibers (<[f := Fiber (OnResponse r p) hs]> (fibers c))
    (set_responses (<[r := r_waiting true x]> (responses c)) c)) D W.
Proof.
  intros HI Hf Hx Hxf Ho Hp. pose proof HI as (Hr & _ & Hpd & _). eapply response_cinv; try done.
  - by apply (Hr r x Hx).
  - intros _. by destruct (Hpd r Ho) as (? & ? & ?); simplify_eq.
  - eauto.
  - split_and!; [exists st; by eapply prog_insert|done|]. exists (r_waiting true x).
    rewrite list_lookup_insert_eq by (by eapply lookup_lt_Some). done.
Qed.

(** [f] changes its response [r] and goes on. *)
Lemma update_cinv c D W f hs r x x' :
  cinv c D W -> running c f hs -> responses c !! r = Some x -> mFiber x = f -> mFiber x' = f ->
  (mPending x' = true <-> mResult x' = UNSET) -> (r ∈ outstanding c D -> mPending x' = true) ->
  mWaiting x' = mWaiting x -> cinv (set_responses (<[r := x']> (responses c)) c) D W.
Proof.
  intros HI Hf Hx Hxf Hxf' Hu Ho Hw. assert (mWaiting x = false) as Hnw.
  { destruct (mWaiting x) eqn:E; [|done]. pose proof (running_resps c D W f hs (Fiber Empty []) HI Hf r x Hx Hxf) as [_ Hq].
    by destruct (Hq E). }
  enough (cinv (set_fibers (<[f := Fiber Running hs]> (fibers c)) (set_responses (<[r := x']> (responses c)) c)) D W) as HG
    by (by rewrite (running_insert c f hs Hf) in HG).
  eapply response_cinv; try done. by rewrite Hw, Hnw.
Qed.

Lemma outstanding_push c D q r : outstanding (set_sync (mSyncResponses c ++ [(q, r)]) c) D = outstanding c D ++ [r].
Proof. unfold outstanding. cbn. by rewrite fmap_app, app_assoc. Qed.

Lemma push_cinv c D W f hs q r x :
  cinv c D W -> running c f hs -> responses c !! r = Some x -> mFiber x = f -> mPending x = true ->
  r ∉ outstanding c D -> cinv (set_sync (mSyncResponses c ++ [(q, r)]) c) D W.
Proof.
  intros HI Hf Hx Hxf Hp Ho. pose proof HI as (_ & Hnd & Hpd & _).
  eapply (own_cinv c _ D D W f hs (Fiber Running hs)); rewrite ?outstanding_push; try done.
  - symmetry. exact (running_insert c f hs Hf).
  - apply own_step_refl. intros r2 x2 Hx2 Hne. rewrite elem_of_app, list_elem_of_singleton.
    split; [|tauto]. intros [?| ->]; [done|]. cbn in Hx2. congruence.
  - by eapply (running_resps c).
  - apply list.NoDup_app. split_and!; [done| |apply NoDup_singleton]. intros r2 Hr2 ->%list_elem_of_singleton. done.
  - intros r2 [Hr2| ->%list_elem_of_singleton]%elem_of_app; [by apply Hpd|]. by exists x.
  - split; [by eapply (running_hs c)|done].
  - by apply HI.
Qed.

Definition fresh_response f k : response R := Response f k true false UNSET false.

Lemma outstanding_bound c D W r : cinv c D W -> r ∈ outstanding c D -> (r < length (responses c))%nat.
Proof. intros (_ & _ & Hp & _) Hr. destruct (Hp r Hr) as (x & Hx & _). by eapply lookup_lt_Some. Qed.

Lemma lookup_snoc_Some {A} (l : list A) y i z :
  (l ++ [y]) !! i = Some z <-> l !! i = Some z \/ (i = length l /\ z = y).
Proof.
  rewrite lookup_app_Some, list_lookup_singleton_Some. split.
  - intros [?|(? & ? & ->)]; [by left|right]. split; [lia|done].
  - intros [?|[-> ->]]; [by left|right]. split; [lia|]. split; [lia|done].
Qed.

Lemma new_cinv c D W f hs k :
  cinv c D W -> running c f hs ->
  cinv (set_fibers (<[f := Fiber Running (hs ++ [length (responses c)])]> (fibers c))
    (set_responses (responses c ++ [fresh_response f k]) c)) D W.
Proof.
  intros HI Hf. pose proof HI as (_ & Hnd & Hpd & _). destruct (running_hs c D W f hs HI Hf) as [Hhn Hh].
  eapply own_cinv; [done..| | | | | | |done]; try done; cbn [responses set_fibers set_responses fibers].
  - split; intros r x Hx Hne; [|apply lookup_snoc_Some in Hx as [?|[-> ->]]; [done|by destruct Hne]].
    split; [|done]. apply lookup_snoc_Some. by left.
  - intros r x [Hx|[-> ->]]%lookup_snoc_Some Hxf; [by eapply (running_resps c)|done].
  - intros r Hr. destruct (Hpd r Hr) as (x & Hx & ?). exists x. split; [|done]. apply lookup_snoc_Some. by left.
  - split; [|done]. split.
    + apply list.NoDup_app. split_and!; [done| |apply NoDup_singleton]. intros r Hr ->%list_elem_of_singleton.
      destruct (Hh _ Hr) as (x & Hx & _). apply lookup_lt_Some in Hx. lia.
    + intros r [Hr| ->%list_elem_of_singleton]%elem_of_app.
      * destruct (Hh _ Hr) as (x & Hx & ?). exists x. split; [|done]. apply lookup_snoc_Some. by left.
      * eexists. split; [apply lookup_snoc_Some; by right|done].
  - by eapply (cv_running c).
Qed.

(** ** What the program may still do after a step *)

Lemma prog_next rs out hs st p p' :
  prog_ok rs out hs st p -> wf_prog st p' -> prog_ok rs out hs st p'.
Proof. intros (? & _ & ?) ?. by split_and!. Qed.

(** The request of handle [i] has been sent or has failed. *)
Lemma prog_sent rs rs' out out' hs st p p' i r :
  prog_ok rs out hs st p -> NoDup hs -> hs !! i = Some r -> st !! i = Some true ->
  wf_prog (<[i := false]> st) p' ->
  (forall r2 x, r2 <> r -> rs !! r2 = Some x -> rs' !! r2 = Some x /\ (r2 ∈ out' <-> r2 ∈ out)) ->
  (exists x, rs' !! r = Some x /\ (mPending x = true -> r ∈ out')) ->
  prog_ok rs' out' hs (<[i := false]> st) p'.
Proof.
  intros (Hl & _ & Hp) Hnd Hi Hst Hwf Hoth Hr. split_and!; [by rewrite length_insert|done|].
  intros j r2 b [(<- & <- & _)|[Hne Hj]]%list_lookup_insert_Some Hr2; [by simplify_eq|].
  destruct (Hp j r2 b Hj Hr2) as (x & Hx & Hb). destruct (Hoth r2 x) as [Hx' Hiff]; [|done|].
  - intros ->. apply Hne. by eapply NoDup_lookup.
  - exists x. split; [done|]. destruct b; tauto.
Qed.

Lemma prog_new rs out hs st f k p :
  prog_ok rs out hs st (NewResponse k p) -> (forall r, r ∈ out -> (r < length rs)%nat) ->
  prog_ok (rs ++ [fresh_response f k]) out (hs ++ [length rs]) (st ++ [true]) p.
Proof.
  intros (Hl & Hwf & Hp) Hb. split_and!; [rewrite !length_app; simpl; lia|done|].
  intros i r b [Hi|[-> ->]]%lookup_snoc_Some [Hr|[Hr ->]]%lookup_snoc_Some.
  - destruct (Hp i r b Hi Hr) as (x & Hx & ?). exists x. split; [|done]. apply lookup_snoc_Some. by left.
  - apply lookup_lt_Some in Hi. lia.
  - apply lookup_lt_Some in Hr. lia.
  - exists (fresh_response f k). split; [apply lookup_snoc_Some; by right|]. split; [done|].
    intros Hr2%Hb. lia.
Qed.

(** ** Answers *)

Lemma suspended_resp c D W f fb r x :
  cinv c D W -> fibers c !! f = Some fb -> responses c !! r = Some x -> mFiber x = f -> mWaiting x = true ->
  exists p, f_status fb = OnResponse r p.
Proof.
  intros (Hr & _) Hf Hx Hxf Hw. destruct (Hr r x Hx) as [_ Hq]. destruct (Hq Hw) as (fb' & p & Hfb & Hp).
  exists p. congruence.
Qed.

(** A fiber taken from the condition variable runs again. *)
Lemma resume_condition_cinv c D W f hs p :
  cinv c D (f :: W) -> fibers c !! f = Some (Fiber (OnCondition p) hs) ->
  cinv (set_fibers (<[f := Fiber Running hs]> (fibers c)) c) D W.
Proof.
  intros HI Hf. pose proof HI as (Hr & Hnd & Hpd & Hfib & [Hcn Hcv] & Hm). split_and!; try done.
  - intros r x Hx. cbn. destruct (decide (mFiber x = f)) as [Hxf|Hne]; [|by apply resp_ok_other; auto].
    split; [by apply (Hr r x Hx)|]. intros Hw. by destruct (suspended_resp _ _ _ _ _ _ _ HI Hf Hx Hxf Hw).
  - intros g fb Hg. apply list_lookup_insert_Some in Hg as [(<- & <- & _)|[Hne Hg]]; [|by apply Hfib].
    split; [|done]. apply (Hfib f _ Hf).
  - cbn in Hcn. apply list.NoDup_cons in Hcn as [Hn Hcn]. split; [done|]. intros g. cbn. split.
    + intros Hg. destruct (proj1 (Hcv g)) as (q & hs' & Hq); [by right|]. exists q, hs'.
      rewrite list_lookup_insert_ne; [done|]. by intros <-.
    + intros (q & hs' & [(_ & ? & _)|[Hne Hg]]%list_lookup_insert_Some); [done|].
      assert (g ∈ f :: W ++ mWaitingRequests c) as Hin by (apply Hcv; eauto).
      apply elem_of_cons in Hin as [->|?]; done.
Qed.

Lemma outstanding_cons c r D : outstanding c (r :: D) = r :: outstanding c D.
Proof. done. Qed.

(** The responses when [r] gets its answer. *)
Lemma answer_others c D W r x x' g :
  cinv c (r :: D) W -> responses c !! r = Some x -> mFiber x' = mFiber x -> mPending x' = false ->
  others_step resp_pend (responses c) (<[r := x']> (responses c)) (outstanding c (r :: D)) (outstanding c D) g.
Proof.
  intros (_ & Hnd & _) Hx Hf Hp r2 x2 Hx2 _. rewrite outstanding_cons. destruct (decide (r = r2)) as [<-|Hne].
  - exists x'. simplify_eq. rewrite list_lookup_insert_eq by (by eapply lookup_lt_Some). split; [done|].
    split; [done|]. right. split; [done|by left].
  - exists x2. rewrite list_lookup_insert_ne by done. split; [done|]. split; [done|]. left. split; [done|].
    rewrite elem_of_cons. split; [by right|]. by intros [->|?].
Qed.

Lemma answer_suspended c D W r x x' g :
  cinv c (r :: D) W -> responses c !! r = Some x -> mFiber x' = mFiber x -> mPending x' = false ->
  (mFiber x = g -> mWaiting x' = false /\ mWaiting x = false) ->
  others_step resp_step (responses c) (<[r := x']> (responses c)) (outstanding c (r :: D)) (outstanding c D) g.
Proof.
  intros HI Hx Hf Hp Hw r2 x2 Hx2 Hg. destruct (answer_others c D W r x x' g HI Hx Hf Hp r2 x2 Hx2 Hg) as (x3 & Hx3 & Hs).
  exists x3. split; [done|]. split; [done|]. apply list_lookup_insert_Some in Hx3 as [(<- & <- & _)|[Hne Hx3]].
  - simplify_eq. destruct Hw as [-> ->]; done.
  - simplify_eq. split; [done|]. intros _. rewrite outstanding_cons, elem_of_cons. by intros [->|?].
Qed.

Lemma answer_pending c D W r x x' :
  cinv c (r :: D) W -> responses c !! r = Some x ->
  NoDup (outstanding c D) /\ r ∉ outstanding c D /\
  forall r2, r2 ∈ outstanding c D -> exists x2, <[r := x']> (responses c) !! r2 = Some x2 /\ mPending x2 = true.
Proof.
  intros (_ & Hnd & Hpd & _) Hx. rewrite outstanding_cons in *. apply list.NoDup_cons in Hnd as [Hn Hnd].
  split_and!; [done..|]. eapply pending_insert; [|done|done]. intros r2 Hr2. apply Hpd. by right.
Qed.

(** [r] gets its answer and no fiber waits for it. *)
Lemma answer_idle_cinv c D W r x x' :
  cinv c (r :: D) W -> responses c !! r = Some x -> mFiber x' = mFiber x -> mPending x' = false ->
  mWaiting x = false -> mWaiting x' = false -> mResult x' <> UNSET ->
  cinv (set_responses (<[r := x']> (responses c)) c) D W.
Proof.
  intros HI Hx Hf Hp Hw Hw' Hu. pose proof HI as (Hr & _ & _ & Hfib & Hcv & Hm).
  destruct (answer_pending c D W r x x' HI Hx) as (Hnd & Hn & Hpd). split_and!; try done.
  - intros r2 x2 Hx2. apply list_lookup_insert_Some in Hx2 as [(<- & <- & _)|[_ Hx2]]; [|by apply Hr].
    split; [|congruence]. split; congruence.
  - intros g fb Hg. eapply fib_stable; [|by apply Hfib].
    exact (answer_suspended c D W r x x' g HI Hx Hf Hp (fun _ => conj Hw' Hw)).
Qed.

(** [r] gets its answer and the fiber that waits for it runs again. *)
Lemma answer_resume_cinv c D W r x x' hs p :
  cinv c (r :: D) W -> responses c !! r = Some x -> mFiber x' = mFiber x -> mPending x' = false ->
  mWaiting x' = false -> mResult x' <> UNSET -> fibers c !! mFiber x = Some (Fiber (OnResponse r p) hs) ->
  let c' := set_fibers (<[mFiber x := Fiber Running hs]> (fibers c)) (set_responses (<[r := x']> (responses c)) c) in
  cinv c' D W /\ exists st, prog_ok (responses c') (outstanding c' D) hs st p.
Proof.
  intros HI Hx Hf Hp Hw' Hu Hfb. pose proof HI as (Hr & _ & _ & Hfib & [Hcn Hcv] & Hm).
  destruct (answer_pending c D W r x x' HI Hx) as (Hnd & Hn & Hpd).
  destruct (Hfib _ _ Hfb) as [Hhs ([st Hst] & _)]. pose proof (answer_others c D W r x x' (mFiber x) HI Hx Hf Hp) as Ho.
  split; [|exists st; by eapply prog_stable]. split_and!; try done; cbn.
  - intros r2 x2 [(<- & <- & _)|[Hne Hx2]]%list_lookup_insert_Some; [split; [split; congruence|congruence]|].
    destruct (decide (mFiber x2 = mFiber x)) as [Hxf|Hnf]; [|by apply resp_ok_other; auto].
    split; [by apply (Hr r2 x2 Hx2)|]. intros Hw. rewrite <-Hxf in Hfb.
    destruct (suspended_resp _ _ _ _ _ _ _ HI Hfb Hx2 eq_refl Hw) as [q Hq]. cbn in Hq. congruence.
  - intros g fb [(<- & <- & _)|[Hne Hg]]%list_lookup_insert_Some; [split; [by eapply hs_stable|done]|].
    eapply fib_stable; [|by apply Hfib].
    exact (answer_suspended c D W r x x' g HI Hx Hf Hp (fun E => match Hne E with end)).
  - split; [done|]. intros g. rewrite Hcv. split; intros (q & hs' & Hg); exists q, hs'.
    + rewrite list_lookup_insert_ne; [done|]. intros <-. simplify_eq.
    + by apply list_lookup_insert_Some in Hg as [(_ & ? & _)|[_ ?]].
Qed.

(** A fiber that has no function starts one. *)
Lemma execute_cinv c D W f hs :
  cinv c D W -> fibers c !! f = Some (Fiber Empty hs) ->
  cinv (set_fibers (<[f := Fiber Running []]> (fibers c)) c) D W.
Proof.
  intros HI Hf. pose proof HI as (Hr & Hnd & Hpd & Hfib & [Hcn Hcv] & Hm). split_and!; try done; cbn.
  - intros r x Hx. destruct (decide (mFiber x = f)) as [Hxf|Hne]; [|by apply resp_ok_other; auto].
    split; [by apply (Hr r x Hx)|]. intros Hw. by destruct (suspended_resp _ _ _ _ _ _ _ HI Hf Hx Hxf Hw).
  - intros g fb [(<- & <- & _)|[Hne Hg]]%list_lookup_insert_Some; [|by apply Hfib].
    split; [|done]. split; [constructor|]. intros r Hin. by apply not_elem_of_nil in Hin.
  - split; [done|]. intros g. rewrite Hcv. split; intros (q & hs' & Hg); exists q, hs'.
    + rewrite list_lookup_insert_ne; [done|]. intros <-. simplify_eq.
    + by apply list_lookup_insert_Some in Hg as [(_ & ? & _)|[_ ?]].
Qed.

End Spec.
