(* ===== verification/RpcClientRun.v ===== *)
(** * RPC client: running fibers

    A fiber runs until it waits or its function returns, keeps the invariant and changes only its own
    responses ([fiber_run_ok]); resuming a fiber from the condition variable or from the response it waits for
    does the same ([resume_condition], [finish_ok]). *)

From S2P Require Import Prelude Memory ByteBuffer Ids ErrorCode IbBuffer IbSocket Batching BatchingSpec BatchingFlow RpcClient RpcClientSpec.

Section Run.
Context {R : Type} `{Verbs} `{ResponseHandler R}.
Implicit Types (r f g : nat) (c : client R) (w : world (client R)) (x : response R) (D W : list nat).

Definition with_user c w : world (client R) := World (w_net w) (w_sock w) (w_tasks w) c.

(** The invariant of the socket and of its client. *)
Definition winv w D W : Prop := (exists sent pend, Inv w sent pend) /\ cinv (w_user w) D W.

Definition outside w (a : Z) : Prop :=
  a < mr_addr (mSendData (n_pool (w_net w))) \/
  mr_addr (mSendData (n_pool (w_net w))) + mr_length (mSendData (n_pool (w_net w))) <= a.

(** What fibers leave as it is: the connection, the memory outside the send buffers and the results of responses
    that are done. *)
Definition frame w w' : Prop :=
  mState (w_sock w') = mState (w_sock w) /\
  mSendData (n_pool (w_net w')) = mSendData (n_pool (w_net w)) /\
  (forall a, outside w a -> bytes (w_mem w') !! a = bytes (w_mem w) !! a) /\
  mMaxPendingResponses (w_user w') = mMaxPendingResponses (w_user w) /\
  mAsyncResponses (w_user w') = mAsyncResponses (w_user w) /\
  (forall r x, responses (w_user w) !! r = Some x -> exists x', responses (w_user w') !! r = Some x' /\
    mFiber x' = mFiber x /\ kind x' = kind x /\ (mPending x = false -> mPending x' = false /\ mResult x' = mResult x)).

(** The socket is neither connected nor connecting, and the queue has room. *)
Definition aborting w : Prop :=
  mState (w_sock w) <> CONNECTED /\ mState (w_sock w) <> CONNECTING /\
  zlen (mSyncResponses (w_user w)) < mMaxPendingResponses (w_user w).

(** Fibers only append to the queue.  With no connection they append nothing, and with room in the queue none waits in
    the condition variable. *)
Definition ext w w' : Prop :=
  frame w w' /\
  (exists new, mSyncResponses (w_user w') = mSyncResponses (w_user w) ++ new /\
    (mState (w_sock w) <> CONNECTED -> new = [])) /\
  (aborting w -> mWaitingRequests (w_user w') ⊆ mWaitingRequests (w_user w)).

Lemma frame_refl w : frame w w.
Proof. unfold frame. split_and!; try done. eauto 10. Qed.

Lemma frame_trans w1 w2 w3 : frame w1 w2 -> frame w2 w3 -> frame w1 w3.
Proof.
  intros (Hs1 & Hd1 & Hm1 & Hx1 & Ha1 & Hr1) (Hs2 & Hd2 & Hm2 & Hx2 & Ha2 & Hr2).
  unfold frame. split_and!; try congruence.
  - intros a Ha. rewrite Hm2, Hm1; [done..|]. unfold outside. by rewrite Hd1.
  - intros r x Hx. destruct (Hr1 r x Hx) as (x1 & Hx1' & ? & ? & Hp1).
    destruct (Hr2 r x1 Hx1') as (x2 & Hx2' & ? & ? & Hp2). exists x2. split_and!; try congruence.
    intros Hp. destruct (Hp1 Hp) as [Hp' ?]. destruct (Hp2 Hp') as [? ?]. split; congruence.
Qed.

Lemma ext_aborting w w' : ext w w' -> aborting w -> aborting w' /\ mSyncResponses (w_user w') = mSyncResponses (w_user w).
Proof.
  intros ((Hs & _ & _ & Hm & _) & (new & Hq & Hn) & _) (Hc & Hcc & Hz). rewrite (Hn Hc), app_nil_r in Hq.
  split; [|done]. unfold aborting. rewrite Hq, Hm. by rewrite !Hs.
Qed.

Lemma ext_refl w : ext w w.
Proof. split_and!; [apply frame_refl| |done]. exists []. by rewrite app_nil_r. Qed.

Lemma ext_trans w1 w2 w3 : ext w1 w2 -> ext w2 w3 -> ext w1 w3.
Proof.
  intros He1 He2. pose proof He1 as (Hf1 & (n1 & Hq1 & Hn1) & Hc1). pose proof He2 as (Hf2 & (n2 & Hq2 & Hn2) & Hc2).
  split_and!; [by eapply frame_trans| |].
  - exists (n1 ++ n2). rewrite Hq2, Hq1, app_assoc. split; [done|]. intros Hnc. rewrite (Hn1 Hnc). apply Hn2.
    destruct Hf1 as [-> _]. done.
  - intros Ha. destruct (ext_aborting w1 w2 He1 Ha) as [Ha2 _]. etrans; [by apply Hc2|by apply Hc1].
Qed.

(** Fibers other than [f] stay as they are, and [f] no longer runs. *)
Definition settles f c c' : Prop :=
  (forall g, g <> f -> fibers c' !! g = fibers c !! g) /\
  forall fb, fibers c' !! f = Some fb -> f_status fb <> Running.

Lemma winv_user w D W c D' W' : winv w D W -> cinv c D' W' -> winv (with_user c w) D' W'.
Proof. intros [(sent & pend & HI) _] Hc. split; [|done]. by exists sent, pend. Qed.

Lemma winv_cinv w D W : winv w D W -> cinv (w_user w) D W.
Proof. by intros [_ ?]. Qed.

(** A change of the client that leaves the responses which are done alone. *)
Lemma ext_user w c :
  mMaxPendingResponses c = mMaxPendingResponses (w_user w) -> mAsyncResponses c = mAsyncResponses (w_user w) ->
  mSyncResponses c = mSyncResponses (w_user w) ->
  (forall r x, responses (w_user w) !! r = Some x -> exists x', responses c !! r = Some x' /\
    mFiber x' = mFiber x /\ kind x' = kind x /\ (mPending x = false -> mPending x' = false /\ mResult x' = mResult x)) ->
  (aborting w -> mWaitingRequests c ⊆ mWaitingRequests (w_user w)) ->
  ext w (with_user c w).
Proof.
  intros Hm Ha Hq Hr Hc. split_and!; [by unfold frame; split_and!| |done]. exists []. by rewrite app_nil_r.
Qed.

Lemma insert_kept (rs : list (response R)) r x x' :
  rs !! r = Some x -> mFiber x' = mFiber x -> kind x' = kind x ->
  (mPending x = false -> mPending x' = false /\ mResult x' = mResult x) ->
  forall r2 x2, rs !! r2 = Some x2 -> exists x2', <[r := x']> rs !! r2 = Some x2' /\
    mFiber x2' = mFiber x2 /\ kind x2' = kind x2 /\ (mPending x2 = false -> mPending x2' = false /\ mResult x2' = mResult x2).
Proof.
  intros Hx Hf Hk Hp r2 x2 Hx2. destruct (decide (r = r2)) as [<-|Hne].
  - exists x'. simplify_eq. rewrite list_lookup_insert_eq; [done|]. by eapply lookup_lt_Some.
  - exists x2. by rewrite list_lookup_insert_ne.
Qed.

(** ** Primitive calls *)

Lemma mod_response_run r (g : response R -> response R) w x :
  responses (w_user w) !! r = Some x ->
  mod_response r g w = Ok tt (with_user (set_responses (<[r := g x]> (responses (w_user w))) (w_user w)) w).
Proof. intros Hx. unfold mod_response, cmod. by rewrite (alter_insert _ _ _ _ Hx). Qed.

Lemma set_status_run f s w fb :
  fibers (w_user w) !! f = Some fb ->
  set_status f s w = Ok tt (with_user (set_fibers (<[f := Fiber s (f_handles fb)]> (fibers (w_user w))) (w_user w)) w).
Proof. intros Hx. unfold set_status, cmod. by rewrite (alter_insert _ _ _ _ Hx). Qed.

Lemma get_response_run r w x : responses (w_user w) !! r = Some x -> get_response r w = Ok x w.
Proof. intros Hx. unfold get_response. by rewrite Hx. Qed.

Lemma handle_run f i w hs r s :
  fibers (w_user w) !! f = Some (Fiber s hs) -> hs !! i = Some r -> handle f i w = Ok r w.
Proof. intros Hf Hi. unfold handle, get_fiber, bind, ret. by rewrite Hf; cbn; rewrite Hi. Qed.

(** [setInternalResult] up to the notification. *)
Lemma setInternalResult_run res r v w x :
  responses (w_user w) !! r = Some x -> mPending x = true ->
  setInternalResult res r v w =
    notify res r (with_user (set_responses (<[r := r_pending false (r_result v x)]> (responses (w_user w))) (w_user w)) w).
Proof.
  intros Hx Hp. unfold setInternalResult, complete, bind, done. rewrite (get_response_run _ _ _ Hx). rewrite Hp. cbn [negb].
  rewrite (mod_response_run _ _ _ _ Hx). unfold get_response. cbn [w_user with_user responses set_responses].
  rewrite list_lookup_insert_eq by (by eapply lookup_lt_Some). cbn [mPending r_result]. rewrite Hp. unfold massert, ret.
  erewrite mod_response_run by (apply list_lookup_insert_eq; by eapply lookup_lt_Some).
  cbn [w_user with_user responses set_responses]. by rewrite list_insert_insert_eq.
Qed.

Lemma onAbort_run res r ec w x :
  responses (w_user w) !! r = Some x -> mPending x = true -> mResult x = UNSET ->
  onAbort res r ec w =
    notify res r (with_user (set_responses (<[r := r_pending false (r_result (ERROR ec) x)]> (responses (w_user w))) (w_user w)) w).
Proof.
  intros Hx Hp Hu. unfold onAbort, bind. rewrite (get_response_run _ _ _ Hx). unfold done. rewrite Hp, Hu.
  unfold massert, ret. cbn [negb]. by apply setInternalResult_run.
Qed.

Lemma notify_idle res r w x :
  responses (w_user w) !! r = Some x -> mWaiting x = false -> notify res r w = Ok tt w.
Proof. intros Hx Hw. unfold notify, bind. rewrite (get_response_run _ _ _ Hx). by rewrite Hw. Qed.

(** ** Sending a request *)

Section Send.
Context (res : nat -> St (world (client R)) unit) (f : nat) (hs : list nat) (st : list bool) (i r : nat).

(** The request of handle [i] is settled: sent, or failed. *)
Definition settled_send w w' D W (p : prog R) : Prop :=
  winv w' D W /\ ext w w' /\ fibers (w_user w') = fibers (w_user w) /\
  prog_ok (responses (w_user w')) (outstanding (w_user w') D) hs (<[i := false]> st) p.

Lemma fresh_handle w D W p :
  winv w D W -> running (w_user w) f hs -> prog_ok (responses (w_user w)) (outstanding (w_user w) D) hs st p ->
  st !! i = Some true -> hs !! i = Some r ->
  exists x, responses (w_user w) !! r = Some x /\ mFiber x = f /\ mPending x = true /\ mResult x = UNSET /\
    mWaiting x = false /\ r ∉ outstanding (w_user w) D.
Proof.
  intros [_ HI] Hf (_ & _ & Hp) Hst Hi. destruct (Hp i r true Hst Hi) as (x & Hx & Hpe & Ho). exists x.
  destruct (running_hs _ _ _ _ _ HI Hf) as [_ Hh]. destruct (Hh r) as (? & ? & ?); [by eapply list_elem_of_lookup_2|].
  simplify_eq. pose proof HI as (Hr & _). split_and!; try done; [by apply (Hr r x Hx)|].
  destruct (mWaiting x) eqn:E; [|done].
  destruct (running_resps _ _ _ _ _ (Fiber Empty []) HI Hf r x Hx) as [_ Hq]; [done|]. by destruct (Hq E).
Qed.

Lemma abort_fresh_ok w D W p p' ec :
  winv w D W -> running (w_user w) f hs -> prog_ok (responses (w_user w)) (outstanding (w_user w) D) hs st p ->
  st !! i = Some true -> hs !! i = Some r -> wf_prog (<[i := false]> st) p' ->
  exists w', onAbort res r ec w = Ok tt w' /\ settled_send w w' D W p'.
Proof.
  intros HI Hf Hp Hst Hi Hwf. destruct (fresh_handle w D W p HI Hf Hp Hst Hi) as (x & Hx & Hxf & Hpe & Hu & Hw & Ho).
  pose proof (lookup_lt_Some _ _ _ Hx) as Hlt. set (x' := r_pending false (r_result (ERROR ec) x)).
  exists (with_user (set_responses (<[r := x']> (responses (w_user w))) (w_user w)) w).
  rewrite (onAbort_run _ _ _ _ x) by done. erewrite notify_idle; [|by apply list_lookup_insert_eq|done].
  split; [done|]. split_and!; [| |done|].
  - eapply winv_user; [done|]. eapply update_cinv; [by apply HI|done..].
  - apply ext_user; [done..| |done]. eapply insert_kept; [done..|]. by rewrite Hpe.
  - eapply prog_sent; [done|by eapply running_hs, Hf; apply HI|done..| |].
    + intros r2 x2 Hne Hx2. cbn. by rewrite list_lookup_insert_ne.
    + exists x'. cbn. by rewrite list_lookup_insert_eq.
Qed.

Lemma push_ok w D W p p' q :
  winv w D W -> running (w_user w) f hs -> prog_ok (responses (w_user w)) (outstanding (w_user w) D) hs st p ->
  st !! i = Some true -> hs !! i = Some r -> wf_prog (<[i := false]> st) p' -> mState (w_sock w) = CONNECTED ->
  settled_send w (with_user (set_sync (mSyncResponses (w_user w) ++ [(q, r)]) (w_user w)) w) D W p'.
Proof.
  intros HI Hf Hp Hst Hi Hwf Hc. destruct (fresh_handle w D W p HI Hf Hp Hst Hi) as (x & Hx & Hxf & Hpe & Hu & Hw & Ho).
  split_and!; [| |done|].
  - eapply winv_user; [done|]. by eapply push_cinv; [apply HI|..].
  - split_and!; [exact (frame_refl w)|by exists [(q, r)]|done].
  - cbn [w_user with_user]. rewrite outstanding_push. eapply prog_sent; [done|by eapply running_hs, Hf; apply HI|done..| |].
    + intros r2 x2 Hne Hx2. rewrite elem_of_app, list_elem_of_singleton. split; [done|tauto].
    + exists x. split; [done|]. intros _. apply elem_of_app. right. by apply list_elem_of_singleton.
Qed.

(** After [writeMessage] the client is as before. *)
Lemma keeps_winv w w1 D W :
  keeps w w1 -> (exists sent pend, Inv w1 sent pend) -> winv w D W -> winv w1 D W /\ ext w w1.
Proof.
  intros (_ & Hs & Hu & _ & _ & Hd & Hm) HI [_ Hc]. split; [split; [done|by rewrite Hu]|].
  unfold ext, frame. rewrite Hu. split_and!; try done; [eauto 10|]. exists []. by rewrite app_nil_r.
Qed.

Lemma next_userId_ok w D W :
  winv w D W -> winv (with_user (set_userId (u32 (mUserId (w_user w) + 1)) (w_user w)) w) D W.
Proof. intros HI. eapply winv_user; [done|]. apply HI. Qed.

Lemma sendRequest_ok w D W ty body e next :
  winv w D W -> running (w_user w) f hs ->
  prog_ok (responses (w_user w)) (outstanding (w_user w) D) hs st (SendRequest i ty body e next) -> hs !! i = Some r ->
  exists b w', sendRequest res r ty body e w = Ok b w' /\ settled_send w w' D W (next b).
Proof.
  intros HI Hf Hp Hi. pose proof Hp as (_ & (Hst & Hty & Hlen & Hwf) & _).
  unfold sendRequest, bind, sock, isConnected. case_bool_decide as Hc; cbn [negb].
  - unfold cmod, cl. cbn [w_user w_sock w_net w_tasks]. set (u := u32 (mUserId (w_user w) + 1)).
    set (w0 := World (w_net w) (w_sock w) (w_tasks w) (set_userId u (w_user w))).
    assert (winv w0 D W) as HI0 by exact (next_userId_ok w D W HI).
    assert (0 <= u < 2 ^ 32) as Hu by (apply wrap_range; lia).
    destruct HI0 as [(sent & pend & HI0) Hc0].
    destruct (writeMessage_step w0 sent pend (Msg (messageId_build u false) ty body) (put_body body e) e)
      as (ec & w1 & s1 & p1 & Hrun & Hk & HI1 & _); [done| |apply put_body_writes|].
    { unfold ERROR_MESSAGE in Hty. split_and!; cbn; [..|done]; rewrite ?messageId_build_fields by done; lia. }
    cbn [msg_id msg_type msg_body] in Hrun. cbn [mUserId set_userId w0 w_user]. rewrite Hrun.
    destruct (keeps_winv w0 w1 D W) as [HIw1 Hext]; [done|by eauto|by split; eauto|].
    assert (w_user w1 = set_userId u (w_user w)) as Hu1 by apply Hk.
    assert (ext w w1) as Hext' by exact Hext.
    assert (running (w_user w1) f hs) as Hf1 by (rewrite Hu1; exact Hf).
    assert (prog_ok (responses (w_user w1)) (outstanding (w_user w1) D) hs st (SendRequest i ty body e next)) as Hp1
      by (rewrite Hu1; exact Hp).
    assert (fibers (w_user w1) = fibers (w_user w)) as Hfb1 by (rewrite Hu1; done).
    destruct (ec_bool ec).
    + destruct (abort_fresh_ok w1 D W _ (next false) ec HIw1 Hf1 Hp1 Hst Hi (Hwf false)) as (w2 & -> & H2 & H3 & H4 & H5).
      exists false, w2. split; [done|]. split_and!; [done|by eapply ext_trans|congruence|done].
    + eexists true, _. split; [done|]. destruct (push_ok w1 D W _ (next true) (mUserId (w_user w1)) HIw1 Hf1 Hp1 Hst Hi (Hwf true)) as (H2 & H3 & H4 & H5).
      { destruct Hk as (_ & Hk & _). by rewrite Hk. }
      split_and!; [exact H2|eapply ext_trans; [exact Hext'|exact H3]|exact Hfb1|exact H5].
  - destruct (abort_fresh_ok w D W _ (next false) connection_aborted HI Hf Hp Hst Hi (Hwf false)) as (w' & Hrun & Hs).
    rewrite Hrun. by exists false, w'.
Qed.

End Send.

(** ** Fibers *)

(** [w'] is what the fiber [f] leaves behind when it waits or returns. *)
Definition yields f w w' D W : Prop := winv w' D W /\ ext w w' /\ settles f (w_user w) (w_user w').

Lemma yields_after f w1 w2 w3 D W :
  ext w1 w2 -> (forall g, g <> f -> fibers (w_user w2) !! g = fibers (w_user w1) !! g) ->
  yields f w2 w3 D W -> yields f w1 w3 D W.
Proof.
  intros He Hg (HI & He' & Hs & Hr). split_and!; [done|by eapply ext_trans|]. split; [|done].
  intros g Hne. by rewrite Hs, Hg.
Qed.

Lemma settles_insert f c c' fb :
  fibers c' = <[f := fb]> (fibers c) -> f_status fb <> Running -> settles f c c'.
Proof.
  intros He Hs. split; rewrite He.
  - intros g Hne. by rewrite list_lookup_insert_ne.
  - intros fb' [(_ & <- & _)|[? _]]%list_lookup_insert_Some; done.
Qed.

Lemma wait_condition_ok f w D W hs st p :
  winv w D W -> running (w_user w) f hs -> prog_ok (responses (w_user w)) (outstanding (w_user w) D) hs st p ->
  mState (w_sock w) = CONNECTING \/ mMaxPendingResponses (w_user w) <= zlen (mSyncResponses (w_user w)) ->
  exists w', wait_condition f p w = Ok tt w' /\ yields f w w' D W.
Proof.
  intros HI Hf Hp Hb. unfold wait_condition, bind, cmod.
  erewrite set_status_run by exact Hf. eexists. split; [done|]. split_and!.
  - eapply (winv_user w); [done|]. exact (condwait_cinv _ _ _ _ _ _ _ (winv_cinv _ _ _ HI) Hf Hp).
  - apply (ext_user w); [done..| |]; cbn; [eauto 10|]. intros (_ & ? & ?). destruct Hb; [done|lia].
  - by eapply settles_insert.
Qed.

Lemma wait_response_ok f w D W hs st p r x :
  winv w D W -> running (w_user w) f hs -> prog_ok (responses (w_user w)) (outstanding (w_user w) D) hs st p ->
  responses (w_user w) !! r = Some x -> mFiber x = f -> r ∈ outstanding (w_user w) D ->
  exists w', wait_response f r p w = Ok tt w' /\ yields f w w' D W.
Proof.
  intros HI Hf Hp Hx Hxf Ho. assert (mWaiting x = false) as Hw.
  { destruct (mWaiting x) eqn:E; [|done]. destruct HI as [_ HI].
    destruct (running_resps _ _ _ _ _ (Fiber Empty []) HI Hf r x Hx Hxf) as [_ Hq]. by destruct (Hq E). }
  unfold wait_response, bind. rewrite (get_response_run _ _ _ Hx). rewrite Hw. rewrite bool_decide_true by done.
  unfold massert, ret. cbn [negb andb]. rewrite (mod_response_run _ _ _ _ Hx).
  erewrite set_status_run by exact Hf. eexists. split; [done|]. split_and!.
  - eapply (winv_user w); [done|]. exact (respwait_cinv _ _ _ _ _ _ _ _ _ (winv_cinv _ _ _ HI) Hf Hx Hxf Ho Hp).
  - apply (ext_user w); [done..| |done]. cbn. by eapply insert_kept.
  - by eapply settles_insert.
Qed.

(** The response behind a handle whose request was sent. *)
Lemma sent_handle f w D W hs st p i :
  winv w D W -> running (w_user w) f hs -> prog_ok (responses (w_user w)) (outstanding (w_user w) D) hs st p ->
  st !! i = Some false ->
  exists r x, hs !! i = Some r /\ responses (w_user w) !! r = Some x /\ mFiber x = f /\
    (mPending x = true -> r ∈ outstanding (w_user w) D) /\ (mPending x = false -> mResult x <> UNSET).
Proof.
  intros [_ HI] Hf (Hl & _ & Hp) Hst.
  destruct (lookup_lt_is_Some_2 hs i) as [r Hr]; [rewrite <-Hl; by eapply lookup_lt_Some|].
  destruct (Hp i r false Hst Hr) as (x & Hx & Ho). exists r, x.
  destruct (running_hs _ _ _ _ _ HI Hf) as [_ Hh]. destruct (Hh r) as (? & ? & ?); [by eapply list_elem_of_lookup_2|].
  simplify_eq. split_and!; try done. intros Hpe Hu. pose proof HI as (Hrs & _).
  apply (Hrs r x Hx) in Hu. congruence.
Qed.

Lemma newResponse_run f k w hs :
  running (w_user w) f hs ->
  newResponse f k w = Ok tt (with_user (set_fibers (<[f := Fiber Running (hs ++ [length (responses (w_user w))])]> (fibers (w_user w)))
    (set_responses (responses (w_user w) ++ [fresh_response f k]) (w_user w))) w).
Proof. intros Hf. unfold newResponse, cmod. by rewrite (alter_insert _ _ _ _ Hf). Qed.

Lemma retrieved_ok f w D W hs st p r x :
  winv w D W -> running (w_user w) f hs -> prog_ok (responses (w_user w)) (outstanding (w_user w) D) hs st p ->
  responses (w_user w) !! r = Some x -> mFiber x = f ->
  let w' := with_user (set_responses (<[r := r_retrieved true x]> (responses (w_user w))) (w_user w)) w in
  winv w' D W /\ ext w w' /\ prog_ok (responses (w_user w')) (outstanding (w_user w') D) hs st p.
Proof.
  intros HI Hf Hp Hx Hxf w'. pose proof (winv_cinv _ _ _ HI) as (Hrs & _ & Hpd & _). split_and!.
  - eapply winv_user; [done|]. eapply update_cinv; [by apply HI|done|done|done|done| | |done].
    + apply (Hrs r x Hx).
    + intros Ho. destruct (Hpd r Ho) as (? & ? & ?). by simplify_eq.
  - apply ext_user; [done..| |done]. by eapply insert_kept.
  - by eapply prog_insert.
Qed.

Lemma newResponse_ok f k p w D W hs st :
  winv w D W -> running (w_user w) f hs ->
  prog_ok (responses (w_user w)) (outstanding (w_user w) D) hs st (NewResponse k p) ->
  exists w1, newResponse f k w = Ok tt w1 /\ winv w1 D W /\ running (w_user w1) f (hs ++ [length (responses (w_user w))]) /\
    prog_ok (responses (w_user w1)) (outstanding (w_user w1) D) (hs ++ [length (responses (w_user w))]) (st ++ [true]) p /\
    ext w w1 /\ forall g, g <> f -> fibers (w_user w1) !! g = fibers (w_user w) !! g.
Proof.
  intros HI Hf Hp. rewrite (newResponse_run _ _ _ hs Hf). eexists. split; [done|]. split_and!.
  - eapply winv_user; [done|]. eapply new_cinv; [by apply HI|done].
  - apply list_lookup_insert_eq. by eapply lookup_lt_Some.
  - eapply prog_new; [exact Hp|]. intros r Hr. eapply outstanding_bound; [by apply HI|done].
  - apply ext_user; [done..| |done]. intros r x Hx. exists x. split; [|done]. by apply lookup_app_l_Some.
  - intros g Hne. cbn. by rewrite list_lookup_insert_ne.
Qed.

(** A running fiber waits for none of its responses. *)
Lemma running_not_waiting f w D W hs r x : winv w D W -> running (w_user w) f hs ->
  responses (w_user w) !! r = Some x -> mFiber x = f -> mWaiting x = false.
Proof.
  intros HI Hf Hx Hxf. destruct (mWaiting x) eqn:E; [|done].
  assert (cinv (w_user w) D W) as (Hr & _) by apply HI. destruct (Hr r x Hx) as [_ Hw].
  destruct (Hw E) as (fb & p & Hfb & Hs). rewrite Hxf in Hfb. unfold running in Hf. rewrite Hf in Hfb. by simplify_eq.
Qed.

Lemma fiber_run_ok res f p : forall w D W hs st,
  winv w D W -> running (w_user w) f hs -> prog_ok (responses (w_user w)) (outstanding (w_user w) D) hs st p ->
  exists w', run res f p w = Ok tt w' /\ yields f w w' D W.
Proof.
  induction p as [|k p IH|i ty body e next IH| | | |i next IH|i next IH];
    intros w D W hs st HI Hf Hp; cbn [run]; try (by destruct Hp as (_ & [] & _)).
  - erewrite set_status_run by exact Hf. eexists. split; [done|]. split_and!.
    + eapply winv_user; [done|]. eapply done_cinv; [by apply HI|done].
    + apply ext_user; [done..| |done]. cbn. eauto 10.
    + by eapply settles_insert.
  - destruct (newResponse_ok f k p w D W hs st HI Hf Hp) as (w1 & Hrun & HI1 & Hf1 & Hp1 & He1 & Hg1). unfold bind. rewrite Hrun.
    destruct (IH w1 D W _ _ HI1 Hf1 Hp1) as (w' & -> & Hy). exists w'. split; [done|]. by eapply yields_after.
  - pose proof Hp as (Hl & (Hst & Hty & _) & _).
    destruct (lookup_lt_is_Some_2 hs i) as [r Hr]; [rewrite <-Hl; by eapply lookup_lt_Some|].
    unfold bind, massert. rewrite (proj2 (Z.eqb_neq _ _)) by lia. cbn [negb ret].
    unfold ret. rewrite (handle_run f i w hs r _ Hf Hr). unfold ready at 1.
    destruct (negb _ && _)%bool eqn:Hrd.
    + destruct (sendRequest_ok res f hs st i r w D W ty body e next HI Hf Hp Hr) as (b & w1 & -> & HI1 & He1 & Hf1 & Hp1).
      destruct (IH b w1 D W hs (<[i := false]> st) HI1) as (w' & -> & Hy); [|done|].
      * unfold running. by rewrite Hf1.
      * exists w'. split; [done|]. eapply yields_after; [done| |done]. intros g _. by rewrite Hf1.
    + eapply wait_condition_ok; [done..|]. apply andb_false_iff in Hrd as [Hrd|Hrd].
      * left. by case_bool_decide.
      * right. lia.
  - pose proof Hp as (_ & [Hst Hnext] & _).
    destruct (sent_handle f w D W hs st _ i HI Hf Hp Hst) as (r & x & Hr & Hx & Hxf & Ho & Hu).
    unfold bind. rewrite (handle_run f i w hs r _ Hf Hr), (get_response_run _ _ _ Hx).
    destruct (mPending x) eqn:Hpe; [eapply wait_response_ok; eauto|].
    rewrite (running_not_waiting f w D W hs r x HI Hf Hx Hxf). unfold massert, ret. cbn [negb].
    destruct (mResult x) as [|v|ec] eqn:Hres; [by destruct Hu| |].
    + destruct (mRetrieved x).
      * eapply IH; [done..|by eapply prog_next].
      * rewrite (mod_response_run _ _ _ _ Hx).
        destruct (retrieved_ok f w D W hs st _ r x HI Hf Hp Hx Hxf) as (HI1 & He1 & Hp1).
        destruct (IH (inl v) _ D W hs st HI1 Hf (prog_next _ _ _ _ _ _ Hp1 (Hnext _))) as (w' & -> & Hy).
        exists w'. split; [done|]. by eapply yields_after.
    + eapply IH; [done..|by eapply prog_next].
  - pose proof Hp as (_ & [Hst Hnext] & _).
    destruct (sent_handle f w D W hs st _ i HI Hf Hp Hst) as (r & x & Hr & Hx & Hxf & Ho & Hu).
    unfold bind. rewrite (handle_run f i w hs r _ Hf Hr), (get_response_run _ _ _ Hx).
    destruct (mPending x) eqn:Hpe; [eapply wait_response_ok; eauto|].
    rewrite (running_not_waiting f w D W hs r x HI Hf Hx Hxf). unfold massert, ret. cbn [negb].
    destruct (mResult x) as [|v|ec] eqn:Hres; [by destruct Hu| |]; (eapply IH; [done..|by eapply prog_next]).
Qed.

(** ** Resuming fibers *)

(** No fiber runs: the poll loop has control. *)
Definition quiet c : Prop := forall f fb, fibers c !! f = Some fb -> f_status fb <> Running.

(** [w'] is what a callback leaves behind. *)
Definition continues w w' D W : Prop := winv w' D W /\ ext w w' /\ quiet (w_user w').

Lemma continues_trans w1 w2 w3 D W : ext w1 w2 -> continues w2 w3 D W -> continues w1 w3 D W.
Proof. intros He (? & ? & ?). split_and!; [done|by eapply ext_trans|done]. Qed.

Lemma yields_continues f w w0 w' D W :
  quiet (w_user w) -> ext w w0 -> (forall g, g <> f -> fibers (w_user w0) !! g = fibers (w_user w) !! g) ->
  yields f w0 w' D W -> continues w w' D W.
Proof.
  intros Hq He Hfs (HI & He' & Hs & Hn). split_and!; [done|by eapply ext_trans|]. intros g fb Hg.
  destruct (decide (g = f)) as [->|Hne]; [by apply Hn|]. rewrite Hs, Hfs in Hg by done. by eapply Hq.
Qed.

Lemma get_fiber_run f w fb : fibers (w_user w) !! f = Some fb -> get_fiber f w = Ok fb w.
Proof. intros Hf. unfold get_fiber. by rewrite Hf. Qed.

Lemma resume_condition d f w D W :
  winv w D (f :: W) -> quiet (w_user w) ->
  exists w', resume (S d) f w = Ok tt w' /\ continues w w' D W.
Proof.
  intros HI Hq. pose proof (winv_cinv _ _ _ HI) as (_ & _ & _ & Hfib & [_ Hcv] & _).
  destruct (proj1 (Hcv f)) as (p & hs & Hf); [by left|]. destruct (Hfib _ _ Hf) as [_ [st Hst]].
  cbn [resume]. unfold bind. rewrite (get_fiber_run _ _ _ Hf). cbn [f_status]. rewrite (set_status_run _ _ _ _ Hf).
  cbn [f_handles]. set (w0 := with_user _ w).
  destruct (fiber_run_ok (resume d) f p w0 D W hs st) as (w' & -> & Hy).
  - eapply winv_user; [done|]. eapply resume_condition_cinv; [by apply HI|done].
  - apply list_lookup_insert_eq. by eapply lookup_lt_Some.
  - done.
  - exists w'. split; [done|]. eapply yields_continues; [done| | |done].
    + apply ext_user; [done..| |done]. cbn. eauto 10.
    + intros g Hne. cbn. by rewrite list_lookup_insert_ne.
Qed.

(** The responses that are done keep their result. *)
Lemma frame_done w w' r x : frame w w' -> responses (w_user w) !! r = Some x -> mPending x = false ->
  exists x', responses (w_user w') !! r = Some x' /\ mPending x' = false /\ mResult x' = mResult x.
Proof.
  intros (_ & _ & _ & _ & _ & Hr) Hx Hp. destruct (Hr r x Hx) as (x' & ? & _ & _ & Hd).
  exists x'. destruct (Hd Hp). done.
Qed.

Lemma complete_idle w D W r x v :
  winv w (r :: D) W -> quiet (w_user w) -> responses (w_user w) !! r = Some x -> mPending x = true ->
  mWaiting x = false -> v <> UNSET ->
  continues w (with_user (set_responses (<[r := r_pending false (r_result v x)]> (responses (w_user w))) (w_user w)) w) D W.
Proof.
  intros HI Hq Hx Hp Hw Hv. split_and!; [| |done].
  - eapply winv_user; [done|]. eapply answer_idle_cinv; [by apply HI|done..].
  - apply ext_user; [done..| |done]. eapply insert_kept; [done..|congruence].
Qed.

(** The waiting fiber runs with the answer. *)
Lemma complete_resume d w D W r x v p hs :
  winv w (r :: D) W -> quiet (w_user w) -> responses (w_user w) !! r = Some x -> mPending x = true -> v <> UNSET ->
  fibers (w_user w) !! mFiber x = Some (Fiber (OnResponse r p) hs) ->
  let w1 := with_user (set_responses (<[r := r_pending false (r_result v x)]> (responses (w_user w))) (w_user w)) w in
  exists w', resume (S d) (mFiber x) w1 = Ok tt w' /\ continues w w' D W /\
    exists x', responses (w_user w') !! r = Some x' /\ mPending x' = false /\ mResult x' = v.
Proof.
  intros HI Hq Hx Hp Hv Hf w1. pose proof (lookup_lt_Some _ _ _ Hx) as Hlt.
  destruct (answer_resume_cinv (w_user w) D W r x (r_waiting false (r_pending false (r_result v x))) hs p)
    as [HI2 [st Hst]]; [by apply HI|done..|].
  cbn [resume]. unfold bind. rewrite (get_fiber_run _ w1 _ Hf). cbn [f_status]. rewrite (set_status_run _ _ w1 _ Hf).
  erewrite mod_response_run by (by apply list_lookup_insert_eq).
  cbn [w_user with_user set_responses set_fibers responses w1]. rewrite list_insert_insert_eq. set (w2 := with_user _ _).
  assert (ext w w2) as He.
  { apply (ext_user w); [done..| |done]. cbn. eapply insert_kept; [done..|congruence]. }
  destruct (fiber_run_ok (resume d) (mFiber x) p w2 D W hs st) as (w' & -> & Hy).
  - exact (winv_user w _ _ _ _ _ HI HI2).
  - apply list_lookup_insert_eq. by eapply lookup_lt_Some.
  - exact Hst.
  - exists w'. split_and!; [done| |].
    + eapply yields_continues; [done|done| |done]. intros g Hne. cbn. by rewrite list_lookup_insert_ne.
    + destruct Hy as (_ & [He2 _] & _). apply (frame_done w2 w' r (r_waiting false (r_pending false (r_result v x)))); [done|by apply list_lookup_insert_eq|done].
Qed.

(** A response taken from the queue gets its result, and a fiber that waits for it goes on. *)
Lemma complete_ok d r v w D W :
  winv w (r :: D) W -> quiet (w_user w) -> v <> UNSET ->
  exists w', setInternalResult (resume (S d)) r v w = Ok tt w' /\ continues w w' D W /\
    exists x', responses (w_user w') !! r = Some x' /\ mPending x' = false /\ mResult x' = v.
Proof.
  intros HI Hq Hv. pose proof (winv_cinv _ _ _ HI) as (Hrs & _ & Hpd & _).
  destruct (Hpd r) as (x & Hx & Hp); [by left|]. pose proof (lookup_lt_Some _ _ _ Hx) as Hlt.
  rewrite (setInternalResult_run _ _ _ _ _ Hx Hp). destruct (mWaiting x) eqn:Hw.
  - destruct (Hrs r x Hx) as [_ Hq']. destruct (Hq' Hw) as ([s hs] & p & Hf & Hs). cbn in Hs. subst s.
    destruct (complete_resume d w D W r x v p hs HI Hq Hx Hp Hv Hf) as (w' & Hrun & Hc).
    exists w'. split; [|done]. unfold notify, bind. erewrite get_response_run by (by apply list_lookup_insert_eq).
    cbn [mWaiting r_pending r_result mFiber]. rewrite Hw. exact Hrun.
  - erewrite notify_idle; [|by apply list_lookup_insert_eq|done]. eexists. split; [done|].
    split; [by apply complete_idle|]. eexists. split; [by apply list_lookup_insert_eq|done].
Qed.

Lemma onAbort_ok d r ec w D W :
  winv w (r :: D) W -> quiet (w_user w) ->
  exists w', onAbort (resume (S d)) r ec w = Ok tt w' /\ continues w w' D W /\
    exists x', responses (w_user w') !! r = Some x' /\ mPending x' = false /\ mResult x' = ERROR ec.
Proof.
  intros HI Hq. destruct (complete_ok d r (ERROR ec) w D W HI Hq) as (w' & Hrun & Hc); [done|].
  exists w'. split; [|done]. pose proof (winv_cinv _ _ _ HI) as (Hrs & _ & Hpd & _).
  destruct (Hpd r) as (x & Hx & Hp); [by left|]. rewrite <-Hrun.
  rewrite (setInternalResult_run _ _ _ _ _ Hx Hp). apply onAbort_run; [done..|]. by apply (Hrs r x Hx).
Qed.

End Run.
