(* ===== verification/RpcClientClaims.v ===== *)
(** * RPC client: replies, disconnects and the calls of fibers

    What the callbacks of [RpcClientSocket] do to the requests that are waiting for an answer, whatever
    the fibers they resume do next. *)

From S2P Require Import Prelude Memory ByteBuffer Ids ErrorCode IbBuffer IbSocket Batching BatchingSpec BatchingFlow RpcClient RpcClientSpec RpcClientRun.

Section Claims.
Context {R : Type} `{Verbs} `{ResponseHandler R}.
Implicit Types (r f : nat) (c : client R) (w : world (client R)) (x : response R) (D W : list nat) (v : RpcResult R).

(** Response [r] is done with result [v]. *)
Definition answered c r v : Prop := exists x, responses c !! r = Some x /\ mPending x = false /\ mResult x = v.

Lemma answered_frame w w' r v : frame w w' -> answered (w_user w) r v -> answered (w_user w') r v.
Proof.
  intros Hf (x & Hx & Hp & <-). destruct (frame_done w w' r x Hf Hx Hp) as (x' & ? & ? & ?). by exists x'.
Qed.

(** ** The condition variable *)

Lemma resume_all_ok d l : forall w D, winv w D l -> quiet (w_user w) ->
  exists w', resume_all (resume (S d)) l w = Ok tt w' /\ continues w w' D [].
Proof.
  induction l as [|f l IH]; intros w D HI Hq; cbn [resume_all].
  - exists w. split; [done|]. split_and!; [done|apply ext_refl|done].
  - unfold bind. destruct (resume_condition d f w D l HI Hq) as (w1 & -> & HI1 & He1 & Hq1).
    destruct (IH w1 D HI1 Hq1) as (w2 & -> & Hc). exists w2. split; [done|]. by eapply continues_trans.
Qed.

Lemma notify_all_ok d w D : winv w D [] -> quiet (w_user w) ->
  exists w', notify_all (resume (S d)) w = Ok tt w' /\ continues w w' D [] /\
    (aborting w -> mWaitingRequests (w_user w') = []).
Proof.
  intros HI Hq. unfold notify_all, bind, cl, cmod. set (w0 := World _ _ _ _).
  assert (winv w0 D (mWaitingRequests (w_user w))) as HI0.
  { destruct HI as [HI (H1 & H2 & H3 & H4 & H5 & H6)]. split; [exact HI|]. split_and!; try done. cbn.
    by rewrite app_nil_r. }
  destruct (resume_all_ok d _ w0 D HI0 Hq) as (w' & -> & Hc). exists w'. split; [done|]. split.
  - eapply continues_trans; [|done]. apply (ext_user w); [done..| |]; cbn; [eauto 10|set_solver].
  - intros Ha. destruct Hc as (_ & (_ & _ & Hcv) & _). specialize (Hcv Ha). cbn in Hcv.
    destruct (mWaitingRequests (w_user w')) as [|f l]; [done|]. exfalso. apply (not_elem_of_nil f), Hcv. by left.
Qed.

Lemma notify_one_ok d w D : winv w D [] -> quiet (w_user w) ->
  exists w', notify_one (resume (S d)) w = Ok tt w' /\ continues w w' D [].
Proof.
  intros HI Hq. unfold notify_one, bind, cl, cmod. destruct (mWaitingRequests (w_user w)) as [|f l] eqn:Hcv.
  - exists w. split; [done|]. split_and!; [done|apply ext_refl|done].
  - set (w0 := World _ _ _ _). assert (winv w0 D [f]) as HI0.
    { destruct HI as [HI (H1 & H2 & H3 & H4 & H5 & H6)]. split; [exact HI|]. rewrite Hcv in H5. by split_and!. }
    destruct (resume_condition d f w0 D [] HI0 Hq) as (w' & -> & Hc). exists w'. split; [done|].
    eapply continues_trans; [|done]. apply (ext_user w); [done..| |]; cbn; [eauto 10|]. rewrite Hcv. set_solver.
Qed.

(** ** The queue *)

(** The front of the queue becomes the response in hand. *)
Lemma pop_winv w q r l : winv w [] [] -> mSyncResponses (w_user w) = (q, r) :: l ->
  winv (with_user (set_sync l (w_user w)) w) [r] [] /\ frame w (with_user (set_sync l (w_user w)) w).
Proof.
  intros HI Hq. split; [|exact (frame_refl w)]. eapply winv_user; [done|].
  destruct HI as [_ (H1 & H2 & H3 & H4 & H5 & H6)]. unfold outstanding in *. rewrite Hq in *. by split_and!.
Qed.

Lemma frame_queue_step w w1 w' D W : frame w w1 -> continues w1 w' D W -> frame w w'.
Proof. intros Hf (_ & (Hf' & _) & _). by eapply frame_trans. Qed.

(** ** Replies *)

Definition action_result (a : action R) : RpcResult R :=
  match a with SetResult v => SET v | SetError ec => ERROR ec | Nothing => ERROR broken_promise end.

(** A reply of type [ty] with body [message] means [v] to a response of class [k].  Reading it depends only on
    the memory outside the send buffers. *)
Definition means w (k : nat) (ty : Z) (message : buffer_reader) v (message' : buffer_reader) : Prop :=
  forall m, (forall a, outside w a -> bytes m !! a = bytes (w_mem w) !! a) ->
  if ty =? ERROR_MESSAGE then
    exists n, reader_read 8 message m = Ok (n, message') m /\ v = ERROR (ErrorCode (to_signed 32 n) user_category)
  else if negb (ty =? MessageType k) then message' = message /\ v = ERROR (rpc_error_code wrong_type)
  else exists a, processResponse k message m = Ok (message', a) m /\ v = action_result a.

Lemma means_frame w w' k ty message v message' :
  frame w w' -> means w k ty message v message' -> means w' k ty message v message'.
Proof.
  intros (_ & Hd & Hm & _) Hme m Hmm. apply Hme. intros a Ha. rewrite Hmm, Hm; [done..|]. unfold outside. by rewrite Hd.
Qed.

Lemma onResponse_ok d r ty message v message' w x :
  winv w [r] [] -> quiet (w_user w) -> responses (w_user w) !! r = Some x ->
  means w (kind x) ty message v message' ->
  exists w', onResponse (resume (S d)) r ty message w = Ok message' w' /\ continues w w' [] [] /\
    answered (w_user w') r v.
Proof.
  intros HI Hq Hx Hme. specialize (Hme (w_mem w) (fun _ _ => eq_refl)).
  pose proof (winv_cinv _ _ _ HI) as (Hrs & _ & Hpd & _). destruct (Hpd r) as (? & Hx' & Hp); [by left|]. simplify_eq.
  assert (mResult x = UNSET) as Hu by (by apply (Hrs r x Hx)).
  unfold onResponse, bind. rewrite (get_response_run _ _ _ Hx). unfold done, massert. rewrite Hp, Hu. unfold ret. cbn [negb].
  destruct (ty =? ERROR_MESSAGE).
  { destruct Hme as (n & Hrd & ->). rewrite (in_mem_id _ _ _ Hrd).
    destruct (complete_ok d r (ERROR (ErrorCode (to_signed 32 n) user_category)) w [] [] HI Hq) as (w' & -> & Hc); [done|].
    by exists w'. }
  destruct (negb (ty =? MessageType (kind x))).
  { destruct Hme as [-> ->]. destruct (complete_ok d r (ERROR (rpc_error_code wrong_type)) w [] [] HI Hq) as (w' & -> & Hc); [done|].
    by exists w'. }
  destruct Hme as (a & Hrd & ->). rewrite (in_mem_id _ _ _ Hrd).
  destruct (complete_ok d r (action_result a) w [] [] HI Hq) as (w' & Hrun & Hc & x' & Hx' & Hp' & Hr'); [by destruct a|].
  exists w'. split; [|split; [done|by exists x']]. destruct a as [v|ec|]; cbn [action_result] in *.
  - rewrite Hrun, (get_response_run _ _ _ Hx'). by rewrite Hr'.
  - rewrite Hrun, (get_response_run _ _ _ Hx'). by rewrite Hr'.
  - rewrite (get_response_run _ _ _ Hx). rewrite Hu, Hp. cbn [negb]. by rewrite Hrun.
Qed.

(** What the socket is left with after a callback that answered [r] with [v] and aborted [pre]. *)
Definition replied w w' (pre post : list (Z * nat)) r v : Prop :=
  winv w' [] [] /\ quiet (w_user w') /\ frame w w' /\
  Forall (fun e => answered (w_user w') e.2 (ERROR (rpc_error_code no_response))) pre /\
  answered (w_user w') r v /\ exists new, mSyncResponses (w_user w') = post ++ new.

(** The request at the front of the queue is taken off and a waiting fiber may send its own. *)
Lemma pop_notify_ok d w q r l : winv w [] [] -> quiet (w_user w) -> mSyncResponses (w_user w) = (q, r) :: l ->
  exists w1, notify_one (resume (S d)) (with_user (set_sync l (w_user w)) w) = Ok tt w1 /\
    winv w1 [r] [] /\ quiet (w_user w1) /\ frame w w1 /\ exists new, mSyncResponses (w_user w1) = l ++ new.
Proof.
  intros HI Hq Hl. destruct (pop_winv w q r l HI Hl) as [HI0 Hf0].
  destruct (notify_one_ok d _ _ HI0 Hq) as (w1 & Hrun & Hc). exists w1. split; [done|].
  pose proof (frame_queue_step _ _ _ _ _ Hf0 Hc) as Hf1. destruct Hc as (HI1 & (_ & (new & Hn & _) & _) & Hq1).
  split_and!; [done..|]. by exists new.
Qed.

Lemma reply_loop d uid ty message r v message' : forall pre n w post x,
  winv w [] [] -> quiet (w_user w) -> mSyncResponses (w_user w) = pre ++ (uid, r) :: post ->
  Forall (fun e => e.1 <> uid) pre -> (length pre < n)%nat ->
  responses (w_user w) !! r = Some x -> means w (kind x) ty message v message' ->
  exists w', onSyncResponse (S d) n uid ty message w = Ok message' w' /\ replied w w' pre post r v.
Proof.
  induction pre as [|[q r0] pre IH]; intros n w post x HI Hq Hl Hpre Hn Hx Hme; (destruct n as [|n]; [simpl in Hn; lia|]);
    cbn [onSyncResponse app] in *; unfold bind, cl, cmod; rewrite Hl;
    destruct (pop_notify_ok d _ _ _ _ HI Hq Hl) as (w1 & Hrun & HI1 & Hq1 & Hf1 & new & Hl1);
    unfold with_user in Hrun; rewrite Hrun;
    destruct Hf1 as (Hfs & Hfd & Hfm & Hfx & Hfa & Hfr); destruct (Hfr r x Hx) as (x1 & Hx1 & _ & Hk1 & _);
    assert (frame w w1) as Hf1 by (by unfold frame; split_and!);
    apply (means_frame w w1 _ _ _ _ _ Hf1) in Hme; rewrite <-Hk1 in Hme.
  - rewrite Z.eqb_refl. cbn [negb].
    destruct (onResponse_ok d r ty message v message' w1 x1 HI1 Hq1 Hx1 Hme) as (w2 & -> & Hc & Ha).
    exists w2. split; [done|]. pose proof (frame_queue_step _ _ _ _ _ Hf1 Hc) as Hf2.
    destruct Hc as (HI2 & (_ & (new2 & Hn2 & _) & _) & Hq2). split_and!; [done..|].
    exists (new ++ new2). by rewrite Hn2, Hl1, app_assoc.
  - apply list.Forall_cons in Hpre as [Hne Hpre]. cbn in Hne. rewrite (proj2 (Z.eqb_neq _ _)) by congruence. cbn [negb].
    destruct (onAbort_ok d r0 (rpc_error_code no_response) w1 [] [] HI1 Hq1) as (w2 & -> & Hc & Ha).
    pose proof (frame_queue_step _ _ _ _ _ (frame_refl w1) Hc) as Hf2.
    destruct Hc as (HI2 & (_ & (new2 & Hn2 & _) & _) & Hq2). pose proof Hf2 as (_ & _ & _ & _ & _ & Hfr2).
    destruct (Hfr2 r x1 Hx1) as (x2 & Hx2 & _ & Hk2 & _).
    apply (means_frame w1 w2 _ _ _ _ _ Hf2) in Hme. rewrite <-Hk2 in Hme.
    destruct (IH n w2 (post ++ new ++ new2) x2 HI2 Hq2) as (w3 & -> & HI3 & Hq3 & Hf3 & Hab & Hr & new3 & Hl3); try done.
    { rewrite Hn2, Hl1. by rewrite <-!app_assoc. }
    { simpl in Hn. lia. }
    exists w3. split; [done|]. split_and!; try done.
    + eapply frame_trans; [|done]. by eapply frame_trans.
    + constructor; [|done]. by eapply answered_frame.
    + exists (new ++ new2 ++ new3). by rewrite Hl3, <-!app_assoc.
Qed.

Context `{DenseHashMap}.

(** C3: a reply to a synchronous request reaches the response it was sent for.  The requests sent before it get
    [no_response]: the peer answers in order.  The response gets the result its class reads from the message, the error code of
    an error reply, [wrong_type] or [broken_promise].  The requests behind it stay queued, in front of those that resumed
    fibers send; results that were set before stay as they are; the callback returns with the invariant, no
    assertion fails and no exception is thrown. *)
Theorem reply_reaches_request d n uid ty message r v message' pre post x w :
  0 <= uid < 2 ^ 32 -> winv w [] [] -> quiet (w_user w) -> mSyncResponses (w_user w) = pre ++ (uid, r) :: post ->
  Forall (fun e => e.1 <> uid) pre -> (length pre < n)%nat ->
  responses (w_user w) !! r = Some x -> means w (kind x) ty message v message' ->
  exists w', client_onMessage (S d) n (messageId_build uid false) ty message w = Ok message' w' /\
    winv w' [] [] /\ quiet (w_user w') /\ frame w w' /\
    Forall (fun e => answered (w_user w') e.2 (ERROR (rpc_error_code no_response))) pre /\
    answered (w_user w') r v /\ exists new, mSyncResponses (w_user w') = post ++ new.
Proof.
  intros Hu HI Hq Hl Hpre Hn Hx Hme. unfold client_onMessage.
  destruct (messageId_roundtrip uid false Hu) as (_ & -> & ->). by eapply reply_loop.
Qed.

(** ** The end of the connection *)

Lemma aborting_pop w q r l : mSyncResponses (w_user w) = (q, r) :: l -> aborting w ->
  aborting (with_user (set_sync l (w_user w)) w).
Proof. intros Hl (? & ? & Hz). split_and!; [done..|]. rewrite Hl, zlen_cons in Hz. cbn. lia. Qed.

Lemma abort_loop d : forall q n w, winv w [] [] -> quiet (w_user w) -> mState (w_sock w) <> CONNECTED ->
  mSyncResponses (w_user w) = q -> (length q < n)%nat ->
  exists w', abort_sync (S d) n w = Ok tt w' /\ winv w' [] [] /\ quiet (w_user w') /\ frame w w' /\
    mSyncResponses (w_user w') = [] /\ Forall (fun e => answered (w_user w') e.2 (ERROR connection_aborted)) q /\
    (aborting w -> mWaitingRequests (w_user w') ⊆ mWaitingRequests (w_user w)).
Proof.
  induction q as [|[id r] q IH]; intros n w HI Hq Hs Hl Hn; (destruct n as [|n]; [simpl in Hn; lia|]);
    cbn [abort_sync]; unfold bind, cl, cmod; rewrite Hl.
  - exists w. split; [done|]. split_and!; try done. apply frame_refl.
  - destruct (pop_winv w id r q HI Hl) as [HI0 Hf0].
    destruct (onAbort_ok d r connection_aborted _ [] [] HI0 Hq) as (w1 & Hrun & Hc & Ha).
    unfold with_user in Hrun. rewrite Hrun. pose proof (frame_queue_step _ _ _ _ _ Hf0 Hc) as Hf1.
    destruct Hc as (HI1 & He & Hq1). pose proof He as (_ & (new & Hn1 & Hnew) & Hcv1). rewrite (Hnew Hs), app_nil_r in Hn1.
    destruct (IH n w1) as (w2 & -> & HI2 & Hq2 & Hf2 & Hl2 & Hab & Hcv2); try done.
    { by destruct Hf1 as [-> _]. }
    { simpl in Hn. lia. }
    exists w2. split; [done|]. split_and!; try done.
    + by eapply frame_trans.
    + constructor; [|done]. by eapply answered_frame.
    + intros Hb. pose proof (aborting_pop w id r q Hl Hb) as Hb0. destruct (ext_aborting _ _ He Hb0) as [Hb1 _].
      etrans; [by apply Hcv2|]. by apply Hcv1.
Qed.

Lemma abort_async_empty d n w : mAsyncResponses (w_user w) = ∅ -> abort_async (S d) (S n) w = Ok tt w.
Proof.
  intros Ha. cbn [abort_async]. unfold bind, cl. rewrite Ha. destruct (dense_begin ∅) as [[k r]|] eqn:E; [|done].
  apply dense_begin_some in E. by rewrite lookup_empty in E.
Qed.

(** With no request outstanding and no fiber in the condition variable no fiber is suspended. *)
Lemma all_fibers_empty w : winv w [] [] -> quiet (w_user w) -> mSyncResponses (w_user w) = [] ->
  mWaitingRequests (w_user w) = [] -> forall f fb, fibers (w_user w) !! f = Some fb -> f_status fb = Empty.
Proof.
  intros [_ (_ & _ & _ & Hfib & [_ Hcv] & _)] Hq Hl Hw f [s hs] Hf. specialize (Hq f _ Hf). destruct (Hfib f _ Hf) as [_ Hst].
  unfold status_ok in Hst. cbn in *. destruct s as [| |p|r p]; [done..| |].
  - assert (f ∈ [] ++ mWaitingRequests (w_user w)) as Hin by (apply Hcv; eauto).
    rewrite Hw in Hin. by apply not_elem_of_nil in Hin.
  - destruct Hst as (_ & Hr & _). unfold outstanding in Hr. rewrite Hl in Hr. by apply not_elem_of_nil in Hr.
Qed.

(** C8: when the connection ends, every request without an answer is completed with [connection_aborted], also those of
    fibers that do not wait for them; the callback returns with the invariant and an empty queue.  When the queue
    was not full, every fiber has run to its end: no fiber stays suspended. *)
Theorem disconnect_aborts_requests d n w :
  winv w [] [] -> quiet (w_user w) -> mState (w_sock w) <> CONNECTED -> mState (w_sock w) <> CONNECTING ->
  mAsyncResponses (w_user w) = ∅ -> (length (mSyncResponses (w_user w)) < n)%nat ->
  exists w', client_onSocketDisconnected (S d) n w = Ok tt w' /\ winv w' [] [] /\ quiet (w_user w') /\ frame w w' /\
    mSyncResponses (w_user w') = [] /\
    Forall (fun e => answered (w_user w') e.2 (ERROR connection_aborted)) (mSyncResponses (w_user w)) /\
    (zlen (mSyncResponses (w_user w)) < mMaxPendingResponses (w_user w) ->
     forall f fb, fibers (w_user w') !! f = Some fb -> f_status fb = Empty).
Proof.
  intros HI Hq Hs Hs' Ha Hn. unfold client_onSocketDisconnected, bind.
  destruct (notify_all_ok d w [] HI Hq) as (w1 & -> & (HI1 & He1 & Hq1) & Hcv1).
  pose proof He1 as (Hf1 & (new & Hl1 & Hnew) & _). rewrite (Hnew Hs), app_nil_r in Hl1.
  destruct (abort_loop d (mSyncResponses (w_user w)) n w1) as (w2 & -> & HI2 & Hq2 & Hf2 & Hl2 & Hab & Hcv2); try done.
  { by destruct Hf1 as [-> _]. }
  pose proof (frame_trans _ _ _ Hf1 Hf2) as Hf. destruct n as [|n]; [lia|].
  rewrite abort_async_empty by (destruct Hf as (_ & _ & _ & _ & -> & _); done).
  exists w2. split; [done|]. split_and!; try done. intros Hz. assert (aborting w) as Hb by done.
  apply all_fibers_empty; [done..|]. destruct (ext_aborting _ _ He1 Hb) as [Hb1 _].
  specialize (Hcv2 Hb1). rewrite (Hcv1 Hb) in Hcv2. destruct (mWaitingRequests (w_user w2)) as [|f l]; [done|].
  exfalso. apply (not_elem_of_nil f), Hcv2. by left.
Qed.

(** ** Running a function on a fiber *)

(** Every suspended fiber is in the condition variable or waits for a pending response whose request is queued. *)
Definition suspended_ok c : Prop := forall f fb, fibers c !! f = Some fb ->
  match f_status fb with
  | Empty => True
  | Running => False
  | OnCondition _ => f ∈ mWaitingRequests c
  | OnResponse r _ => r ∈ (mSyncResponses c).*2 /\ exists x, responses c !! r = Some x /\ mPending x = true /\ mFiber x = f
  end.

Lemma winv_suspended w : winv w [] [] -> quiet (w_user w) -> suspended_ok (w_user w).
Proof.
  intros [_ (_ & _ & Hpd & Hfib & [_ Hcv] & _)] Hq f [s hs] Hf. specialize (Hq f _ Hf). destruct (Hfib f _ Hf) as [_ Hst].
  unfold status_ok in Hst. cbn in *. destruct s as [| |p|r p]; [done..| |].
  - apply Hcv. eauto.
  - destruct Hst as (_ & Hr & x & Hx & _ & Hxf). split; [done|]. exists x. destruct (Hpd r Hr) as (? & ? & ?). by simplify_eq.
Qed.

Lemma execute_ok d f p w hs :
  winv w [] [] -> quiet (w_user w) -> fibers (w_user w) !! f = Some (Fiber Empty hs) -> wf_prog [] p ->
  exists w', execute d f p w = Ok tt w' /\ continues w w' [] [].
Proof.
  intros HI Hq Hf Hwf. unfold execute, bind. rewrite (get_fiber_run _ _ _ Hf). cbn [f_status]. unfold cmod.
  set (w0 := World _ _ _ _). destruct (fiber_run_ok (resume d) f p w0 [] [] [] []) as (w' & -> & Hy).
  - eapply (winv_user w); [done|]. eapply execute_cinv; [by apply HI|done].
  - apply list_lookup_insert_eq. by eapply lookup_lt_Some.
  - split_and!; [done..|]. intros i r b Hi. by rewrite lookup_nil in Hi.
  - exists w'. split; [done|]. eapply yields_continues; [done| | |done].
    + apply (ext_user w); [done..| |done]. cbn. eauto 10.
    + intros g Hne. cbn. by rewrite list_lookup_insert_ne.
Qed.

(** C11: a function whose calls of the client are well formed runs on a free fiber until it returns or waits, with no
    failed assertion and whatever [ibv_post_send] returns.  Afterwards every suspended fiber is in the condition variable or waits for a
    pending response whose request is queued; the requests queued before keep their place and results that were set stay. *)
Theorem execute_suspends_safely d f p w hs :
  winv w [] [] -> quiet (w_user w) -> fibers (w_user w) !! f = Some (Fiber Empty hs) -> wf_prog [] p ->
  exists w', execute d f p w = Ok tt w' /\ winv w' [] [] /\ suspended_ok (w_user w') /\ frame w w' /\
    exists new, mSyncResponses (w_user w') = mSyncResponses (w_user w) ++ new.
Proof.
  intros HI Hq Hf Hwf. destruct (execute_ok d f p w hs HI Hq Hf Hwf) as (w' & -> & HI' & (Hfr & (new & Hl & _) & _) & Hq').
  exists w'. split_and!; [done..|by apply winv_suspended|done|by exists new].
Qed.

End Claims.

(** ** A client with two fibers *)

Section Demo.
#[local] Existing Instance verbs_ok.

(** A class whose replies have type 7 and hold a 32-bit number. *)
#[local] Instance number_handler : ResponseHandler Z := {|
  MessageType := fun _ => 7;
  processResponse := fun _ rd =>
    let! (v, rd) := reader_read 4 rd in ret (rd, SetResult v)
|}.

Definition map_begin (m : gmap Z nat) : option (Z * nat) :=
  match map_to_list m with [] => None | e :: _ => Some e end.

Lemma map_begin_some m k r : map_begin m = Some (k, r) -> m !! k = Some r.
Proof.
  unfold map_begin. destruct (map_to_list m) as [|[k' r'] l] eqn:E; intros Hm; [done|]. simplify_eq.
  apply elem_of_map_to_list. rewrite E. by left.
Qed.

Lemma map_begin_none m : map_begin m = None -> m = ∅.
Proof. unfold map_begin. destruct (map_to_list m) eqn:E; [|done]. intros _. by apply map_to_list_empty_iff. Qed.

#[local] Instance list_hash_map : DenseHashMap := {|
  dense_begin := map_begin; dense_begin_some := map_begin_some; dense_begin_none := map_begin_none |}.

(** Sends one request and waits for its result. *)
Definition ask : prog Z := NewResponse 0 (SendRequest 0 3 [1; 2; 3; 4] no_error (fun _ => Get 0 (fun _ => Done))).

Lemma ask_wf : wf_prog [] ask.
Proof. by cbn; unfold ERROR_MESSAGE; split_and!. Qed.

(** Two send buffers of 64 bytes at address 4096, the body of a reply at 8192, and two free fibers. *)
Definition rpc_world (max : Z) : world (client Z) :=
  World (Net (Mem (write_bytes (write_bytes ∅ 4096 (replicate 128 0)) 8192 [42; 0; 0; 0]) ∅ [])
      (pool_make 2 64 (Region 4096 128 1 1)) true true true [] [] 0 0)
    (set_state CONNECTED (bsock_make 8)) 0
    (Client 0 max [] ∅ [] [] [Fiber Empty []; Fiber Empty []]).

Lemma rpc_world_winv max : 0 < max -> winv (rpc_world max) [] [] /\ quiet (w_user (rpc_world max)).
Proof.
  intros Hm. assert (forall f (fb : fiber Z), fibers (w_user (rpc_world max)) !! f = Some fb -> fb = Fiber Empty []) as Hf.
  { intros [|[|f]] fb Hfb; cbn in Hfb; by simplify_eq. }
  split; [|by intros f fb ->%Hf]. split; [exists [], []|split_and!].
  - exists []. split_and!; [|split; done|constructor|done]. split_and!; try done; [apply pool_make_wf; simpl; lia|].
    exists (replicate 128 0). split; [|done].
    apply (pts_upd_disj (Mem (write_bytes ∅ 4096 (replicate 128 0)) ∅ []) 8192 [42; 0; 0; 0] 4096).
    + apply (pts_upd_same (Mem ∅ ∅ []) 4096).
    + by right.
  - intros r x Hx. cbn in Hx. by rewrite lookup_nil in Hx.
  - constructor.
  - intros r Hr. by apply not_elem_of_nil in Hr.
  - intros f fb ->%Hf. split; [|done]. split; [constructor|]. intros r Hr. by apply not_elem_of_nil in Hr.
  - split; [constructor|]. intros f. split; [intros Hr; by apply not_elem_of_nil in Hr|]. by intros (p & hs & Hp%Hf).
  - done.
Qed.

(** Both fibers ask. *)
Definition asked (max : Z) : option (world (client Z)) :=
  final ((do! execute 1 0 ask in execute 1 1 ask) (rpc_world max)).

Definition free_fiber (w : world (client Z)) (f : nat) : bool :=
  match fibers (w_user w) !! f with Some (Fiber Empty []) => true | _ => false end.

Lemma free_fiber_spec w f : free_fiber w f = true -> fibers (w_user w) !! f = Some (Fiber Empty []).
Proof. unfold free_fiber. by destruct (_ !! f) as [[[] [|]]|]. Qed.

Lemma asked_winv max : 0 < max ->
  option_map (fun w => free_fiber w 1) (final (execute 1 0 ask (rpc_world max))) = Some true ->
  exists w, asked max = Some w /\ winv w [] [] /\ quiet (w_user w) /\ frame (rpc_world max) w.
Proof.
  intros Hm Hfree. destruct (rpc_world_winv max Hm) as [HI Hq]. unfold asked, bind.
  destruct (execute_ok 1 0 ask (rpc_world max) [] HI Hq eq_refl ask_wf) as (w1 & Hr1 & HI1 & (Hf1 & _) & Hq1).
  rewrite Hr1 in *. cbn in Hfree. injection Hfree as Hfree%free_fiber_spec.
  destruct (execute_ok 1 1 ask w1 [] HI1 Hq1 Hfree ask_wf) as (w2 & -> & HI2 & (Hf2 & _) & Hq2).
  exists w2. split; [done|]. split_and!; [done..|]. by eapply frame_trans.
Qed.

(** What a world shows of its client. *)
Definition shows (w : world (client Z)) : list (Z * nat) * list nat * list bool * list bool :=
  (mSyncResponses (w_user w), mWaitingRequests (w_user w), map mPending (responses (w_user w)),
   map (fun fb => match f_status fb with Empty => true | _ => false end) (fibers (w_user w))).

(** What they received. *)
Definition results (w : world (client Z)) : list (RpcResult Z) := map mResult (responses (w_user w)).

Lemma execute_suspends_safely_witness :
  exists w, execute 1 0 ask (rpc_world 2) = Ok tt w /\ suspended_ok (w_user w) /\ shows w = ([(1, 0%nat)], [], [true], [false; true]).
Proof.
  destruct (rpc_world_winv 2) as [HI Hq]; [lia|].
  destruct (execute_suspends_safely 1 0 ask (rpc_world 2) [] HI Hq eq_refl ask_wf) as (w & Hrun & _ & Hs & _).
  exists w. split; [exact Hrun|]. split; [exact Hs|].
  assert (option_map shows (final (execute 1 0 ask (rpc_world 2))) = Some ([(1, 0%nat)], [], [true], [false; true])) as Hc
    by (vm_compute; reflexivity).
  rewrite Hrun in Hc. cbn [final option_map] in Hc. by apply (inj Some) in Hc.
Defined.

(** The reply at 8192 means 42 to every response. *)
Lemma reply_means w : frame (rpc_world 2) w ->
  means w 0 7 (BufferReader 8192 8196) (SET 42) (BufferReader 8196 8196).
Proof.
  intros (_ & Hd & Hb & _) m Hm. cbn [Z.eqb ERROR_MESSAGE negb]. exists (SetResult 42). split; [|done].
  cbn [processResponse number_handler]. unfold bind.
  rewrite (reader_read_ok 4 m 8192 8196 [42; 0; 0; 0]); [done| |done].
  assert (forall a, 8192 <= a -> outside (rpc_world 2) a) as Ho by (intros a Ha; right; cbn; lia).
  intros i x Hi. rewrite Hm, Hb; [|apply Ho; lia|unfold outside; rewrite Hd; apply Ho; lia].
  exact (pts_upd_same (Mem (write_bytes ∅ 4096 (replicate 128 0)) ∅ []) 8192 [42; 0; 0; 0] i x Hi).
Qed.

Lemma reply_reaches_request_witness :
  exists w w', asked 2 = Some w /\ shows w = ([(1, 0%nat); (2, 1%nat)], [], [true; true], [false; false]) /\
    client_onMessage 1 2 (messageId_build 2 false) 7 (BufferReader 8192 8196) w = Ok (BufferReader 8196 8196) w' /\
    answered (w_user w') 0 (ERROR (rpc_error_code no_response)) /\ answered (w_user w') 1 (SET 42).
Proof.
  destruct (asked_winv 2) as (w & Hw & HI & Hq & Hf); [lia|vm_compute; reflexivity|].
  assert (option_map (fun w => (shows w, map kind (responses (w_user w)))) (asked 2) =
    Some (([(1, 0%nat); (2, 1%nat)], [], [true; true], [false; false]), [0; 0]%nat)) as Hc by (vm_compute; reflexivity).
  rewrite Hw in Hc. cbn [option_map] in Hc. apply (inj Some) in Hc. injection Hc as Hl Hcv Hp Hfb Hk.
  destruct (responses (w_user w)) as [|x0 [|x1 [|]]] eqn:Hr; cbn in Hk; try discriminate Hk. injection Hk as Hk0 Hk1.
  destruct (reply_reaches_request 0 2 2 7 (BufferReader 8192 8196) 1 (SET 42) (BufferReader 8196 8196) [(1, 0%nat)] [] x1 w)
    as (w' & Hrun & _ & _ & _ & Hab & Hans & _).
  - lia.
  - exact HI.
  - exact Hq.
  - exact Hl.
  - by repeat constructor.
  - simpl. lia.
  - by rewrite Hr.
  - rewrite Hk1. by apply reply_means.
  - exists w, w'. split; [exact Hw|]. split; [unfold shows; rewrite Hl, Hcv, Hr, Hfb; cbn; cbn in Hp; by rewrite Hp|].
    split; [exact Hrun|]. split; [|exact Hans]. by apply list.Forall_cons in Hab as [Hab _].
Defined.

(** The socket of both requests after the connection has ended. *)
Definition dropped (w : world (client Z)) : world (client Z) := with_sock (set_state DISCONNECTED (w_sock w)) w.

Lemma dropped_winv w : winv w [] [] -> winv (dropped w) [] [].
Proof. intros [(sent & pend & HI) Hc]. split; [|exact Hc]. exists sent, pend. exact HI. Qed.

Lemma disconnect_aborts_requests_witness :
  exists w w', asked 3 = Some w /\ client_onSocketDisconnected 1 3 (dropped w) = Ok tt w' /\
    answered (w_user w') 0 (ERROR connection_aborted) /\ answered (w_user w') 1 (ERROR connection_aborted) /\
    forall f fb, fibers (w_user w') !! f = Some fb -> f_status fb = Empty.
Proof.
  destruct (asked_winv 3) as (w & Hw & HI & Hq & Hf); [lia|vm_compute; reflexivity|].
  assert (option_map (fun w => (mSyncResponses (w_user w))) (asked 3) = Some [(1, 0%nat); (2, 1%nat)]) as Hc
    by (vm_compute; reflexivity).
  rewrite Hw in Hc. cbn [option_map] in Hc. apply (inj Some) in Hc. destruct Hf as (_ & _ & _ & Hm & Ha & _).
  destruct (disconnect_aborts_requests 0 3 (dropped w)) as (w' & Hrun & _ & _ & _ & _ & Hab & Hall).
  - by apply dropped_winv.
  - exact Hq.
  - done.
  - done.
  - exact Ha.
  - cbn. rewrite Hc. simpl. lia.
  - exists w, w'. cbn in Hab, Hall. rewrite Hc in Hab, Hall. rewrite Hm in Hall.
    apply list.Forall_cons in Hab as [H1 Hab]. apply list.Forall_cons in Hab as [H2 _].
    split; [exact Hw|]. split; [exact Hrun|]. split; [exact H1|]. split; [exact H2|]. apply Hall. vm_compute. reflexivity.
Defined.

(** with a full queue a disconnect leaves a fiber suspended for ever.  One request may be pending and fiber 0 has sent
    it; fiber 1 waits in the condition variable to send its own.  [onSocketDisconnected] wakes the waiting fibers before it empties the
    queue: fiber 1 finds the queue full and waits again, then the request of fiber 0 is aborted and nothing wakes
    fiber 1 any more although the queue is empty. *)
Theorem disconnect_loses_wakeup :
  exists w w', asked 1 = Some w /\ @onDisconnected (client Z) (rpc_client_handler 1 3) w = Ok tt w' /\
    shows w = ([(1, 0%nat)], [1%nat], [true; true], [false; false]) /\
    shows w' = ([], [1%nat], [false; true], [true; false]) /\
    mState (w_sock w') = DISCONNECTED.
Proof. eexists _, _. split; [vm_compute; reflexivity|]. split; [vm_compute; reflexivity|]. by vm_compute. Qed.

(** Asks again [n] times when the answer is an error. *)
Fixpoint ask_again (n i : nat) : prog Z :=
  NewResponse 0 (SendRequest i 3 [1; 2; 3; 4] no_error (fun _ =>
    Get i (fun v => match v, n with inr _, S n => ask_again n (S i) | _, _ => Done end))).

(** a reply whose id is not in the queue aborts the requests that are sent while the callback runs.  A fiber that asks again
    after an error has three requests in flight one after the other, none of them answered by the peer and the last two
    sent inside the callback; all three are completed with [no_response] by one stray reply. *)
Theorem stray_reply_aborts_new_requests :
  exists w w', execute 1 0 (ask_again 2 0) (rpc_world 2) = Ok tt w /\
    shows w = ([(1, 0%nat)], [], [true], [false; true]) /\
    client_onMessage 1 4 (messageId_build 9 false) 7 (BufferReader 8192 8196) w = Ok (BufferReader 8192 8196) w' /\
    shows w' = ([], [], [false; false; false], [true; true]) /\
    results w' = replicate 3 (ERROR (rpc_error_code no_response)) /\ mUserId (w_user w') = 3.
Proof. eexists _, _. split; [vm_compute; reflexivity|]. split; [by vm_compute|]. split; [vm_compute; reflexivity|]. by vm_compute. Qed.

End Demo.
