(* ===== verification/RpcServer.v ===== *)
(** * RPC server

    [libs/infinio/include/crossbow/infinio/RpcServer.hpp]: the socket that answers requests and the manager that owns
    the sockets of all connections.  The application's request handler is the class [RequestHandler];
    its [createConnection] is an argument of [manager_onConnection]. *)

From S2P Require Import Prelude Memory ByteBuffer Ids ErrorCode IbBuffer IbSocket Batching BatchingSpec BatchingFlow RpcClient RpcClientSpec RpcClientRun RpcClientClaims.

(** The state of a server socket: the application's part and the removal tasks it left with its processor. *)
Record server (V : Type) := Server { s_user : V; s_removals : nat }.
Arguments Server {V}.
Arguments s_user {V}.
Arguments s_removals {V}.

(** [Socket::onRequest]. *)
Class RequestHandler (V : Type) := {
  onRequest : Z -> Z -> buffer_reader -> St (world (server V)) buffer_reader
}.

(** ** RpcServerSocket *)

Section Socket.
Context {V : Type} `{Verbs}.
Abbreviation M := (St (world (server V))).

(** The constructor: the base class, then [accept]. *)
Definition RpcServerSocket_make (maxBatchSize : Z) : M unit :=
  do! construct maxBatchSize in baccept.

Definition writeInternalResponse (messageId messageType length : Z)
    (fun_ : buffer_writer -> error_code -> M (buffer_writer * error_code)) : M bool :=
  let! ec := writeMessage messageId messageType length fun_ no_error in
  if ec_bool ec then do! handleSocketError ec in ret false else ret true.

Definition writeResponse (messageId messageType length : Z)
    (fun_ : buffer_writer -> error_code -> M (buffer_writer * error_code)) : M bool :=
  do! massert (negb (messageType =? ERROR_MESSAGE)) in
  writeInternalResponse messageId messageType length fun_.

(** The function of [writeErrorResponse]; [error] converts to [uint64_t]. *)
Definition put_error (error : Z) (b : buffer_writer) (ec : error_code) : M (buffer_writer * error_code) :=
  let! b := in_mem (writer_write 8 b (u64 error)) in ret (b, ec).

Definition writeErrorResponse (messageId error : Z) : M bool :=
  writeInternalResponse messageId ERROR_MESSAGE 8 (put_error error).

Definition server_onSocketConnected (data : list Z) : M unit := ret tt.

(** The task of [executeLocal] that calls [removeConnection]. *)
Definition server_onSocketDisconnected : M unit := fun w =>
  let s := w_user w in Ok tt (World (w_net w) (w_sock w) (w_tasks w) (Server (s_user s) (S (s_removals s)))).

Definition rpc_server_handler `{RequestHandler V} : MessageHandler (server V) := {|
  onSocketConnected := server_onSocketConnected;
  onMessage := onRequest;
  onSocketDisconnected := server_onSocketDisconnected
|}.

Implicit Types w : world (server V).

Lemma put_error_writes error : writes_body (put_error error) (le_bytes 8 (u64 error)) no_error.
Proof.
  intros p w l0 Hp Hlen. rewrite <-Hlen. eexists. unfold put_error, bind.
  rewrite (in_mem_ok _ w (BufferWriter (p + 8) (p + zlen l0)) (upd (w_mem w) p (le_bytes 8 (u64 error)))).
  - split; [done|]. cbn [wPos wEnd]. rewrite Hlen. unfold zlen. rewrite length_le_bytes. lia.
  - apply (writer_write_ok 8 _ p _ l0); [done|]. unfold zlen in Hlen. rewrite length_le_bytes in Hlen. lia.
Qed.

(** An internal response either joins the stream or shuts a connected socket down. *)
Lemma writeInternalResponse_run w sent pend x f :
  Inv w sent pend -> mState (w_sock w) = CONNECTED -> msg_wf x -> writes_body f (msg_body x) no_error ->
  exists b w', writeInternalResponse (msg_id x) (msg_type x) (zlen (msg_body x)) f w = Ok b w' /\
    if b : bool then
      mState (w_sock w') = CONNECTED /\
      exists sent' pend', Inv w' sent' pend' /\ concat sent' ++ pend' = concat sent ++ pend ++ [x]
    else mState (w_sock w') = SHUTDOWN.
Proof.
  intros HI Hs Hx Hf. unfold writeInternalResponse, bind.
  destruct (writeMessage_step w sent pend x f no_error HI Hx Hf) as (ec & w' & sent' & pend' & -> & Hk & HI' & Ho).
  assert (mState (w_sock w') = CONNECTED) as Hs' by (destruct Hk as (_ & -> & _); done).
  assert (ec_bool ec = true -> handleSocketError ec w' = Ok tt (with_sock (set_state SHUTDOWN (w_sock w'))
    (with_net (set_disconnects (S (n_disconnects (w_net w'))) (w_net w')) w'))) as Hd.
  { intros _. apply bshutdown_connected; [done|]. by destruct HI' as (? & (_ & ? & _) & _). }
  destruct Ho as [s p He Hc|s p He Hc|s p He Hc|s p He Hc|ec s He Hc]; try done.
  - exists true, w'. split; [done|]. split; [done|]. eauto.
  - rewrite rpc_error_set, Hd by done. eexists false, _. done.
  - rewrite network_error_set, Hd by done. eexists false, _. done.
  - rewrite (post_error_bool _ He), Hd by (by apply post_error_bool). eexists false, _. done.
Qed.

(** The number a client makes of the 64-bit error of a reply. *)
Lemma error_number e : - 2 ^ 31 <= e < 2 ^ 31 -> to_signed 32 (u64 e) = e.
Proof.
  intros He. unfold to_signed, wrap. cbv zeta.
  assert ((e mod 2 ^ 64) mod 2 ^ 32 = e mod 2 ^ 32) as ->.
  { rewrite <-(Znumtheory.Zmod_div_mod (2 ^ 32) (2 ^ 64) e); [done|lia|lia|]. exists (2 ^ 32). lia. }
  destruct (decide (0 <= e)).
  - rewrite Z.mod_small by lia. case_test; lia.
  - rewrite <-(Z.mod_add e 1 (2 ^ 32)), Z.mod_small by lia. case_test; lia.
Qed.

(** an error a server answers with is the error the client sees.  On a connected socket [writeErrorResponse] appends the error
    reply to the stream, or it shuts the socket down and returns false.  A client that receives
    the reply anywhere outside its send buffers completes the request with an error code of the same number, for every
    number of type [int], negative ones included. *)
Theorem error_reply_roundtrip {R} `{ResponseHandler R} w sent pend uid async e (wc : world (client R)) k p :
  Inv w sent pend -> mState (w_sock w) = CONNECTED -> 0 <= uid < 2 ^ 32 -> - 2 ^ 31 <= e < 2 ^ 31 ->
  pts (w_mem wc) p (le_bytes 8 (u64 e)) -> (forall a, p <= a < p + 8 -> outside wc a) ->
  (exists b w', writeErrorResponse (messageId_build uid async) e w = Ok b w' /\
    if b : bool then
      mState (w_sock w') = CONNECTED /\
      exists sent' pend', Inv w' sent' pend' /\
        concat sent' ++ pend' = concat sent ++ pend ++ [Msg (messageId_build uid async) ERROR_MESSAGE (le_bytes 8 (u64 e))]
    else mState (w_sock w') = SHUTDOWN) /\
  means wc k ERROR_MESSAGE (BufferReader p (p + 8)) (ERROR (ErrorCode e user_category)) (BufferReader (p + 8) (p + 8)).
Proof.
  intros HI Hs Hu He Hp Hout. split.
  - apply (writeInternalResponse_run w sent pend (Msg (messageId_build uid async) ERROR_MESSAGE (le_bytes 8 (u64 e))));
      [done..| |apply put_error_writes].
    split_and!; try apply (messageId_roundtrip uid async Hu); unfold ERROR_MESSAGE, HEADER_SIZE; cbn [msg_type msg_body];
      [lia..|]. unfold zlen. rewrite length_le_bytes. lia.
  - intros m Hm. rewrite Z.eqb_refl. exists (u64 e). split; [|by rewrite error_number].
    rewrite (reader_read_ok 8 m p (p + 8) (le_bytes 8 (u64 e))); [|..|done].
    + rewrite le_val_bytes_small; [done|]. apply wrap_range. lia.
    + intros i b Hi. rewrite Hm; [by apply Hp|]. apply Hout. apply lookup_lt_Some in Hi. rewrite length_le_bytes in Hi. lia.
Qed.

End Socket.

(** ** RpcServerManager

    A [Socket*] is a number; [sockets] holds the objects that exist.  The connections in [mSockets] are visited in
    the order [order] of the concurrent set. *)

Record manager (V : Type) := Manager {
  mAcceptorOpen : bool;
  mSockets : gset nat;
  sockets : gmap nat (world (server V))
}.
Arguments Manager {V}.
Arguments mAcceptorOpen {V}.
Arguments mSockets {V}.
Arguments sockets {V}.

Section Manager.
Context {V : Type} `{Verbs}.
Abbreviation MM := (St (manager V)).
Implicit Types (m : manager V) (con : nat) (order : list nat).

(** A call of a method of the socket behind [con]. *)
Definition on_socket {A} con (x : St (world (server V)) A) : MM A := fun m =>
  match sockets m !! con with
  | None => UB
  | Some w =>
      match x w with
      | Ok a w' => Ok a (Manager (mAcceptorOpen m) (mSockets m) (<[con := w']> (sockets m)))
      | Throw e w' => Throw e (Manager (mAcceptorOpen m) (mSockets m) (<[con := w']> (sockets m)))
      | UB => UB
      | NoFuel => NoFuel
      end
  end.

Fixpoint shutdown_all order : MM unit :=
  match order with
  | [] => ret tt
  | con :: order => do! on_socket con bshutdown in shutdown_all order
  end.

Definition manager_shutdown order : MM unit :=
  do! (fun m => Ok tt (Manager false (mSockets m) (sockets m))) in
  shutdown_all order.

(** [onConnection]: [createConnection] makes a socket, or none; its [std::system_error] is logged. *)
Definition manager_onConnection (createConnection : MM (option nat)) : MM unit := fun m =>
  match createConnection m with
  | Ok None m => Ok tt m
  | Ok (Some con) m =>
      if bool_decide (con ∈ mSockets m) then UB
      else Ok tt (Manager (mAcceptorOpen m) ({[con]} ∪ mSockets m) (sockets m))
  | Throw (SystemError _) m => Ok tt m
  | Throw e m => Throw e m
  | UB => UB
  | NoFuel => NoFuel
  end.

(** [removeConnection]: out of the set, then [delete con]. *)
Definition manager_removeConnection con : MM unit :=
  do! (fun m => Ok tt (Manager (mAcceptorOpen m) (mSockets m ∖ {[con]}) (sockets m))) in
  do! on_socket con destruct_socket in
  fun m => Ok tt (Manager (mAcceptorOpen m) (mSockets m) (delete con (sockets m))).

(** The pointers in the set are those of sockets that exist. *)
Definition manager_ok m : Prop := mSockets m ⊆ dom (sockets m).

(** What [createConnection] promises: a new socket, which is not in the set yet, beside those that exist. *)
Definition creates (x : MM (option nat)) : Prop := forall m, manager_ok m ->
  match x m with
  | Ok None m' | Throw (SystemError _) m' => mSockets m' = mSockets m /\ dom (sockets m) ⊆ dom (sockets m')
  | Ok (Some con) m' => mSockets m' = mSockets m /\ dom (sockets m') = {[con]} ∪ dom (sockets m) /\ con ∉ dom (sockets m)
  | _ => False
  end.

Definition in_state (c : ConnectionState) m con : Prop :=
  exists w, sockets m !! con = Some w /\ mState (w_sock w) = c /\ n_open (w_net w) = true.

Lemma shutdown_connected m con w :
  sockets m !! con = Some w -> mState (w_sock w) = CONNECTED -> n_open (w_net w) = true ->
  exists w', on_socket con bshutdown m = Ok tt (Manager (mAcceptorOpen m) (mSockets m) (<[con := w']> (sockets m))) /\
    mState (w_sock w') = SHUTDOWN /\ n_open (w_net w') = true.
Proof.
  intros Hw Hs Ho. unfold on_socket. rewrite Hw, (bshutdown_connected w Hs Ho). eexists. by split.
Qed.

(** The sockets in [order] are shut down, the others stay as they are. *)
Lemma shutdown_all_ok order : forall m, NoDup order -> (forall con, con ∈ order -> in_state CONNECTED m con) ->
  exists m', (forall rest, shutdown_all (order ++ rest) m = shutdown_all rest m') /\ mSockets m' = mSockets m /\
    mAcceptorOpen m' = mAcceptorOpen m /\ (forall con, con ∈ order -> in_state SHUTDOWN m' con) /\
    forall con, con ∉ order -> sockets m' !! con = sockets m !! con.
Proof.
  induction order as [|con order IH]; intros m Hnd Hc.
  { exists m. split_and!; try done. intros con Hin. by apply not_elem_of_nil in Hin. }
  apply list.NoDup_cons in Hnd as [Hn Hnd]. destruct (Hc con) as (w & Hw & Hs & Ho); [by left|].
  destruct (shutdown_connected m con w Hw Hs Ho) as (w' & Hrun & Hs' & Ho').
  destruct (IH (Manager (mAcceptorOpen m) (mSockets m) (<[con := w']> (sockets m)))) as (m' & Hr & HS & HA & Hd & Hoth); [done| |].
  { intros c Hin. destruct (Hc c) as (wc & Hwc & ?); [by right|]. exists wc. cbn. rewrite lookup_insert_ne; [done|congruence]. }
  exists m'. split_and!; try done.
  - intros rest. cbn [shutdown_all app]. unfold bind. rewrite Hrun. apply Hr.
  - intros c [->|Hin]%elem_of_cons; [|by apply Hd]. exists w'. rewrite Hoth by done. cbn. by rewrite lookup_insert_eq.
  - intros c [Hne Hin]%not_elem_of_cons. rewrite Hoth by done. cbn. by rewrite lookup_insert_ne.
Qed.

Lemma shutdown_unconnected m con w :
  sockets m !! con = Some w -> mState (w_sock w) <> CONNECTED ->
  on_socket con bshutdown m = Throw (SystemError errc_not_connected) (Manager (mAcceptorOpen m) (mSockets m) (<[con := w]> (sockets m))).
Proof.
  intros Hw Hs. unfold on_socket, bshutdown, bind, sock. rewrite Hw. by rewrite (bool_decide_false (mState (w_sock w) = CONNECTED)).
Qed.

(** [RpcServerManager::shutdown] stops accepting and shuts down every connected socket, up to the first socket
    that is not connected (still connecting, or shut down by its peer): there [shutdown] throws [not_connected], the exception leaves the loop and
    every socket behind it keeps its connection. *)
Theorem manager_shutdown_stops m pre con post w :
  NoDup (pre ++ con :: post) -> (forall c, c ∈ pre ++ post -> in_state CONNECTED m c) ->
  sockets m !! con = Some w -> mState (w_sock w) <> CONNECTED ->
  exists m', manager_shutdown (pre ++ con :: post) m = Throw (SystemError errc_not_connected) m' /\
    mAcceptorOpen m' = false /\ (forall c, c ∈ pre -> in_state SHUTDOWN m' c) /\
    (forall c, c ∈ post -> in_state CONNECTED m' c) /\
    exists m2, manager_shutdown (pre ++ post) m = Ok tt m2 /\ forall c, c ∈ pre ++ post -> in_state SHUTDOWN m2 c.
Proof.
  intros Hnd Hc Hw Hs. apply list.NoDup_app in Hnd as (Hnp & Hdis & [Hnc Hnq]%list.NoDup_cons).
  set (m0 := Manager false (mSockets m) (sockets m)).
  destruct (shutdown_all_ok pre m0 Hnp) as (m1 & Hr1 & _ & HA1 & Hd1 & Ho1).
  { intros c Hin. apply Hc. set_solver. }
  assert (sockets m1 !! con = Some w) as Hw1.
  { rewrite Ho1; [done|]. intros Hin. apply (Hdis con Hin). by left. }
  eexists. split_and!.
  - unfold manager_shutdown, bind. fold m0. rewrite Hr1. cbn [shutdown_all]. unfold bind. by rewrite (shutdown_unconnected m1 con w Hw1 Hs).
  - cbn. exact HA1.
  - intros c Hin. cbn. unfold in_state. cbn. rewrite insert_id by done. by apply Hd1.
  - intros c Hin. unfold in_state. cbn. rewrite insert_id, Ho1 by (done || (intros Hp; apply (Hdis c Hp); by right)).
    apply (Hc c). set_solver.
  - destruct (shutdown_all_ok (pre ++ post) m0) as (m2 & Hr2 & _ & _ & Hd2 & _).
    + apply list.NoDup_app. split_and!; [done| |done]. intros c Hp Hq. apply (Hdis c Hp). by right.
    + exact Hc.
    + exists m2. split; [|done]. specialize (Hr2 []). rewrite app_nil_r in Hr2. exact Hr2.
Qed.

(** the manager never keeps a pointer to a socket that is gone.  Accepting a connection, with or without success, and removing a
    disconnected one keep the pointers in its set those of existing sockets, so no call goes to a deleted object; a removed socket is in
    neither.  Removal ends with [rdma_destroy_id] failing or not, since the destructor catches the error. *)
Theorem manager_no_dangling m x con w :
  manager_ok m -> creates x -> sockets m !! con = Some w ->
  mState (w_sock w) = DISCONNECTED -> n_qp (w_net w) = false ->
  (exists m1, manager_onConnection x m = Ok tt m1 /\ manager_ok m1 /\ mSockets m ⊆ mSockets m1) /\
  (exists m2, manager_removeConnection con m = Ok tt m2 /\ manager_ok m2 /\
    mSockets m2 = mSockets m ∖ {[con]} /\ sockets m2 = delete con (sockets m)).
Proof.
  intros Hok Hx Hw Hs Hq. split.
  - specialize (Hx m Hok). unfold manager_onConnection, manager_ok in *.
    destruct (x m) as [[c|] m'|[] m'| |]; try done.
    + destruct Hx as (HS & Hdom & Hn). rewrite bool_decide_false by (rewrite HS; set_solver).
      eexists. split; [done|]. cbn. rewrite HS, Hdom. set_solver.
    + destruct Hx as (HS & Hdom). eexists. split; [done|]. rewrite HS. set_solver.
    + destruct Hx as (HS & Hdom). eexists. split; [done|]. rewrite HS. set_solver.
  - assert (exists w', destruct_socket w = Ok tt w') as [w' Hd].
    { unfold destruct_socket, bind at 1, sock. rewrite Hs. rewrite bool_decide_false, bool_decide_true by done.
      unfold bind, massert, ret, catch_system, on_net, socket_close, bind, get, check_errno, put, ret, throw. rewrite Hq.
      destruct (n_open (w_net w)); cbn [negb]; [|by eexists]. destruct (rdma_destroy_id _ =? 0); by eexists. }
    unfold manager_removeConnection, bind, on_socket. cbn [sockets]. rewrite Hw, Hd. eexists. split; [done|].
    unfold manager_ok in *. cbn. rewrite delete_insert_eq. split_and!; [|done..]. rewrite dom_delete_L. set_solver.
Qed.

End Manager.

(** ** A server with three connections *)

Section Demo.
#[local] Existing Instance verbs_ok.

Definition server_world (c : ConnectionState) : world (server unit) :=
  World (Net (Mem (write_bytes ∅ 4096 (replicate 128 0)) ∅ []) (pool_make 2 64 (Region 4096 128 1 1))
    true true false [] [] 0 0)
    (set_state c (bsock_make 8)) 0 (Server tt 0).

Lemma server_world_Inv c : Inv (server_world c) [] [].
Proof.
  exists []. split_and!; [|split; done|constructor|done]. split_and!; try done; [apply pool_make_wf; simpl; lia|].
  exists (replicate 128 0). split; [|done]. apply (pts_upd_same (Mem ∅ ∅ []) 4096).
Qed.

(** A client that received the number -5. *)
Definition answered_client : world (client unit) :=
  World (Net (Mem (write_bytes ∅ 8192 (le_bytes 8 (u64 (-5)))) ∅ []) (pool_make 2 64 (Region 4096 128 1 1))
    true true true [] [] 0 0)
    (set_state CONNECTED (bsock_make 8)) 0 (Client 0 1 [] ∅ [] [] []).

#[local] Instance unit_handler : ResponseHandler unit := {|
  MessageType := fun _ => 1; processResponse := fun _ rd => ret (rd, Nothing) |}.

Lemma error_reply_roundtrip_witness :
  (exists b w', writeErrorResponse (messageId_build 3 false) (-5) (server_world CONNECTED) = Ok b w' /\ b = true) /\
  means answered_client 0 ERROR_MESSAGE (BufferReader 8192 8200) (ERROR (ErrorCode (-5) user_category)) (BufferReader 8200 8200).
Proof.
  destruct (error_reply_roundtrip (server_world CONNECTED) [] [] 3 false (-5) answered_client 0 8192) as [(b & w' & Hrun & _) Hm].
  - apply server_world_Inv.
  - reflexivity.
  - lia.
  - lia.
  - apply (pts_upd_same (Mem ∅ ∅ []) 8192).
  - intros a Ha. right. cbn. lia.
  - split; [|exact Hm]. exists b, w'. split; [exact Hrun|].
    assert (result (writeErrorResponse (messageId_build 3 false) (-5) (server_world CONNECTED)) = Some true) as Hc
      by (vm_compute; reflexivity).
    rewrite Hrun in Hc. by injection Hc.
Defined.

Definition demo_manager : manager unit :=
  Manager true {[1%nat; 2%nat; 3%nat]}
    (<[1%nat := server_world CONNECTED]> (<[2%nat := server_world SHUTDOWN]> (<[3%nat := server_world CONNECTED]> ∅))).

Lemma manager_shutdown_stops_witness :
  exists m', manager_shutdown [1; 2; 3]%nat demo_manager = Throw (SystemError errc_not_connected) m' /\
    in_state SHUTDOWN m' 1 /\ in_state CONNECTED m' 3.
Proof.
  destruct (manager_shutdown_stops demo_manager [1%nat] 2%nat [3%nat] (server_world SHUTDOWN)) as (m' & Hrun & _ & Hpre & Hpost & _).
  - by apply (bool_decide_unpack _); vm_compute.
  - intros c [->|[->|Hc]%elem_of_cons]%elem_of_cons.
    + by exists (server_world CONNECTED).
    + by exists (server_world CONNECTED).
    + by apply not_elem_of_nil in Hc.
  - reflexivity.
  - done.
  - exists m'. split; [exact Hrun|]. split; [apply Hpre|apply Hpost]; by left.
Defined.

(** A connection that cannot be accepted. *)
Definition refuse : St (manager unit) (option nat) := throw (SystemError 12).

Lemma manager_no_dangling_witness :
  exists m2, manager_removeConnection 4
      (Manager true {[4%nat]} (<[4%nat := server_world DISCONNECTED]> ∅)) = Ok tt m2 /\ mSockets m2 = {[4%nat]} ∖ {[4%nat]}.
Proof.
  destruct (manager_no_dangling (Manager true {[4%nat]} (<[4%nat := server_world DISCONNECTED]> ∅)) refuse 4 (server_world DISCONNECTED))
    as [_ (m2 & Hrun & _ & HS & _)].
  - unfold manager_ok. cbn [mSockets sockets]. rewrite dom_insert_L. set_solver.
  - intros m Hm. by split.
  - reflexivity.
  - reflexivity.
  - reflexivity.
  - exists m2. split; [exact Hrun|exact HS].
Defined.

End Demo.
