(* ===== verification/Completion.v ===== *)
(** * Completion queue and shared receive buffers

    [CompletionContext] and [DeviceContext] of [libs/infinio/src/DeviceContext.hpp] and [DeviceContext.cpp]: one
    poll of the completion queue hands every work completion to the socket of its queue pair and gives the buffer
    back, a send buffer to the pool and a receive buffer to the shared receive queue.

    The sockets are the interface [SocketCallbacks] over a state [X] that contains the send buffer pool ([HasPool]); the
    batching socket is an instance.  The calls into libibverbs are oracles of the class [CompletionVerbs]. *)

From S2P Require Import Prelude Memory ByteBuffer Ids ErrorCode IbBuffer IbSocket Batching BatchingSpec BatchingFlow.

(** The opcodes of a work completion the code tells apart. *)
Inductive ibv_wc_opcode := IBV_WC_SEND | IBV_WC_RDMA_WRITE | IBV_WC_RDMA_READ | IBV_WC_RECV | IBV_WC_RECV_RDMA_WITH_IMM.

#[global] Instance ibv_wc_opcode_eq_dec : EqDecision ibv_wc_opcode.
Proof. solve_decision. Defined.

(** Values of the verbs header; [IBV_WC_RECV] is a bit. *)
Definition opcode_value (o : ibv_wc_opcode) : Z :=
  match o with
  | IBV_WC_SEND => 0 | IBV_WC_RDMA_WRITE => 1 | IBV_WC_RDMA_READ => 2 | IBV_WC_RECV => 128 | IBV_WC_RECV_RDMA_WITH_IMM => 129
  end.

Record ibv_wc := Wc {
  wc_wr_id : Z;
  wc_status : Z;                (* 0 is IBV_WC_SUCCESS *)
  wc_opcode : ibv_wc_opcode;
  wc_byte_len : Z;
  wc_imm_data : Z;
  wc_qp_num : Z
}.

(** The shared receive queue of the device and its memory. *)
Record device := Device {
  mReceiveBufferCount : Z;
  mReceiveBufferLength : Z;
  mReceiveData : region;
  mReceiveQueue : list Z        (* posted receive requests, oldest first *)
}.

(** [X] contains the send buffer pool of the context. *)
Class HasPool (X : Type) := {
  pool_of : X -> send_pool;
  with_pool : send_pool -> X -> X;
  pool_of_with : forall p x, pool_of (with_pool p x) = p
}.

(** What the context calls on the handler of socket [s]. *)
Class SocketCallbacks (X : Type) := {
  cb_onReceive : nat -> Z -> Z -> error_code -> St X unit;
  cb_onImmediate : nat -> Z -> St X unit;
  cb_onSend : nat -> Z -> error_code -> St X unit;
  cb_onRead : nat -> Z -> Z -> error_code -> St X unit;
  cb_onWrite : nat -> Z -> Z -> error_code -> St X unit;
  cb_onDisconnected : nat -> St X unit
}.

Class CompletionVerbs := {
  ibv_post_srq_recv : list Z -> Z -> Z;
  ibv_req_notify_cq : Z;
  rdma_create_qp_num : nat -> Z + Z     (* an error number, or the number of the new queue pair *)
}.

Record context (X : Type) := Context {
  c_sockets : X;
  mDevice : device;
  mCompletionQueueLength : Z;
  mSocketMap : gmap Z nat;
  mDrainingQueue : list nat;
  c_qps : gmap nat Z;           (* mId->qp of each socket *)
  mSleeping : bool;
  mShutdown : bool
}.
Arguments Context {X}.
Arguments c_sockets {X}.
Arguments mDevice {X}.
Arguments mCompletionQueueLength {X}.
Arguments mSocketMap {X}.
Arguments mDrainingQueue {X}.
Arguments c_qps {X}.
Arguments mSleeping {X}.
Arguments mShutdown {X}.

(** ** DeviceContext *)

Section Device.
Context `{CompletionVerbs}.

(** [acquireReceiveBuffer(id)]. *)
Definition acquireReceiveBuffer (id : Z) (d : device) : ibuffer :=
  region_acquireBuffer (mReceiveData d) id (u64 (id * mReceiveBufferLength d)) (mReceiveBufferLength d).

(** [SharedReceiveQueue::postBuffer(buffer, ec)]. *)
Definition postBuffer (b : ibuffer) (ec : error_code) : St device error_code := fun d =>
  if negb (InfinibandBuffer.valid b) then Ok (network_error_code invalid_buffer) d
  else
    let wr_id := workRequestId_build 0 (InfinibandBuffer.mId b) RECEIVE in
    let res := ibv_post_srq_recv (mReceiveQueue d) wr_id in
    if negb (res =? 0) then Ok (generic_error_code res) d
    else Ok ec (Device (mReceiveBufferCount d) (mReceiveBufferLength d) (mReceiveData d)
                  (mReceiveQueue d ++ [workRequestId_bufferId wr_id])).

(** [postReceiveBuffer(buffer)]: the error is logged. *)
Definition postReceiveBuffer (b : ibuffer) : St device unit :=
  let! _ := postBuffer b no_error in ret tt.

(** [postReceiveBuffer(id)]. *)
Definition postReceiveBuffer_id (id : Z) : St device unit :=
  let! d := get in postReceiveBuffer (acquireReceiveBuffer id d).

(** The loop of the constructor. *)
Fixpoint post_all (ids : list Z) (ec : error_code) : St device unit :=
  match ids with
  | [] => ret tt
  | id :: ids =>
      let! d := get in
      let! ec := postBuffer (acquireReceiveBuffer id d) ec in
      if ec_bool ec then throw (SystemError (ec_value ec)) else post_all ids ec
  end.

Definition DeviceContext_make (count length : Z) (data : region) : outcome device unit :=
  post_all (seqZ 0 count) no_error (Device count length data []).

End Device.

(** ** CompletionContext *)

Section Ops.
Context {X : Type} `{HasPool X} `{SocketCallbacks X} `{CompletionVerbs}.
Abbreviation M := (St (context X)).

Definition set_sockets (x : X) (c : context X) := Context x (mDevice c) (mCompletionQueueLength c) (mSocketMap c) (mDrainingQueue c) (c_qps c) (mSleeping c) (mShutdown c).
Definition set_device (d : device) (c : context X) := Context (c_sockets c) d (mCompletionQueueLength c) (mSocketMap c) (mDrainingQueue c) (c_qps c) (mSleeping c) (mShutdown c).
Definition set_map (m : gmap Z nat) (q : gmap nat Z) (c : context X) := Context (c_sockets c) (mDevice c) (mCompletionQueueLength c) m (mDrainingQueue c) q (mSleeping c) (mShutdown c).
Definition set_drain (l : list nat) (c : context X) := Context (c_sockets c) (mDevice c) (mCompletionQueueLength c) (mSocketMap c) l (c_qps c) (mSleeping c) (mShutdown c).
Definition set_sleeping (b : bool) (c : context X) := Context (c_sockets c) (mDevice c) (mCompletionQueueLength c) (mSocketMap c) (mDrainingQueue c) (c_qps c) b (mShutdown c).
Definition set_shutdown (b : bool) (c : context X) := Context (c_sockets c) (mDevice c) (mCompletionQueueLength c) (mSocketMap c) (mDrainingQueue c) (c_qps c) (mSleeping c) b.

(** A callback, and a call of the device. *)
Definition on_sockets {A} (x : St X A) : M A := fun c =>
  match x (c_sockets c) with
  | Ok a s => Ok a (set_sockets s c)
  | Throw e s => Throw e (set_sockets s c)
  | UB => UB
  | NoFuel => NoFuel
  end.
Definition on_device {A} (x : St device A) : M A := fun c =>
  match x (mDevice c) with
  | Ok a d => Ok a (set_device d c)
  | Throw e d => Throw e (set_device d c)
  | UB => UB
  | NoFuel => NoFuel
  end.
Definition ctx_mod (g : context X -> context X) : M unit := fun c => Ok tt (g c).

(** [releaseSendBuffer(id)]. *)
Definition ctx_releaseSendBuffer (id : Z) : M unit :=
  on_sockets (fun x => Ok tt (with_pool (releaseSendBuffer_id id (pool_of x)) x)).

(** The constructor; [data] is the region the device allocated. *)
Definition CompletionContext_make (x : X) (d : device) (sendBufferCount bufferLength queueLength : Z) (data : region) : context X :=
  Context (with_pool (pool_make sendBufferCount bufferLength data) x) d queueLength ∅ [] ∅ false false.

Definition ctx_shutdown : M unit := ctx_mod (set_shutdown true).

(** [addConnection(id, socket)]: a number already in the map leaves the old socket there. *)
Definition ctx_addConnection (s : nat) : M unit := fun c =>
  match rdma_create_qp_num s with
  | inl errno => Throw (SystemError errno) c
  | inr qp =>
      let c := set_map (mSocketMap c) (<[s := qp]> (c_qps c)) c in
      match mSocketMap c !! qp with
      | Some _ => Ok tt c
      | None => Ok tt (set_map (<[qp := s]> (mSocketMap c)) (c_qps c) c)
      end
  end.

Definition ctx_drainConnection (s : nat) : M unit := ctx_mod (fun c => set_drain (mDrainingQueue c ++ [s]) c).

Definition ctx_removeConnection (s : nat) : M unit := fun c =>
  match c_qps c !! s with
  | None => Ok tt c
  | Some qp => Ok tt (set_map (delete qp (mSocketMap c)) (delete s (c_qps c)) c)
  end.

(** [InfinibandSocketImpl::onDrained]. *)
Definition onDrained (s : nat) : M unit :=
  do! ctx_removeConnection s in on_sockets (cb_onDisconnected s).

(** The completion of a queue pair that has no socket any more. *)
Definition processUnmatched (workId : Z) : M unit :=
  match workRequestId_workType workId with
  | RECEIVE => on_device (postReceiveBuffer_id (workRequestId_bufferId workId))
  | SEND => ctx_releaseSendBuffer (workRequestId_bufferId workId)
  | _ => ret tt
  end.

(** The assertions on a successful completion. *)
Definition opcode_matches (t : WorkType) (o : ibv_wc_opcode) : bool :=
  match t with
  | RECEIVE => negb (Z.land (opcode_value o) (opcode_value IBV_WC_RECV) =? 0)
  | SEND => bool_decide (o = IBV_WC_SEND)
  | READ => bool_decide (o = IBV_WC_RDMA_READ)
  | WRITE => bool_decide (o = IBV_WC_RDMA_WRITE)
  | UNKNOWN => true
  end.

Definition wc_error (wc : ibv_wc) : error_code :=
  if wc_status wc =? 0 then no_error else ErrorCode (wc_status wc) wc_category.

(** The completion of a receive request on socket [s]; [ntohl] is [htonl]. *)
Definition processReceive (s : nat) (wc : ibv_wc) (ec : error_code) : M unit :=
  let bufferId := workRequestId_bufferId (wc_wr_id wc) in
  let! c := get in
  let buffer := acquireReceiveBuffer bufferId (mDevice c) in
  if negb (InfinibandBuffer.valid buffer) then on_sockets (cb_onReceive s 0 0 (network_error_code invalid_buffer))
  else
    do! (if bool_decide (wc_opcode wc = IBV_WC_RECV_RDMA_WITH_IMM)
         then on_sockets (cb_onImmediate s (htonl (wc_imm_data wc)))
         else on_sockets (cb_onReceive s (InfinibandBuffer.data buffer) (wc_byte_len wc) ec)) in
    on_device (postReceiveBuffer buffer).

(** [processWorkComplete(wc)]. *)
Definition processWorkComplete (wc : ibv_wc) : M unit :=
  let workId := wc_wr_id wc in
  let! c := get in
  match mSocketMap c !! wc_qp_num wc with
  | None => processUnmatched workId
  | Some s =>
      do! (if wc_status wc =? 0 then massert (opcode_matches (workRequestId_workType workId) (wc_opcode wc)) else ret tt) in
      let ec := wc_error wc in
      let userId := workRequestId_userId workId in
      let bufferId := workRequestId_bufferId workId in
      match workRequestId_workType workId with
      | RECEIVE => processReceive s wc ec
      | SEND => do! on_sockets (cb_onSend s userId ec) in ctx_releaseSendBuffer bufferId
      | READ => on_sockets (cb_onRead s userId bufferId ec)
      | WRITE => on_sockets (cb_onWrite s userId bufferId ec)
      | UNKNOWN => ret tt
      end
  end.

Fixpoint process_all (wcs : list ibv_wc) : M unit :=
  match wcs with
  | [] => ret tt
  | wc :: wcs => do! processWorkComplete wc in process_all wcs
  end.

Fixpoint drain_all (l : list nat) : M unit :=
  match l with
  | [] => ret tt
  | s :: l => do! onDrained s in drain_all l
  end.

(** [poll()]; [wcs] is what [ibv_poll_cq] returns, or none when it fails. *)
Definition poll (wcs : option (list ibv_wc)) : M bool :=
  let! c := get in
  do! ctx_mod (set_drain []) in
  let l := match wcs with Some l => l | None => [] end in
  do! process_all l in
  do! drain_all (mDrainingQueue c) in
  ret (match l with [] => false | _ => true end).

(** [prepareSleep()]; [std::terminate] when the notification cannot be requested. *)
Definition prepareSleep (wcs : option (list ibv_wc)) : M unit :=
  let! c := get in
  if mSleeping c then ret tt
  else if negb (ibv_req_notify_cq =? 0) then ub
  else
    do! ctx_mod (set_sleeping true) in
    let! _ := poll wcs in ret tt.

(** [wakeup()]; [events] says of each event on the channel whether it is of this completion queue.  The events up to the first
    foreign one are acknowledged; their number is the result. *)
Fixpoint own_events (events : list bool) : Z :=
  match events with true :: events => 1 + own_events events | _ => 0 end.

Definition wakeup (events : list bool) : M Z :=
  do! ctx_mod (set_sleeping false) in ret (own_events events).

End Ops.

(** ** The batching socket as the only socket of the context *)

#[global] Instance world_pool {U} : HasPool (world U).
Proof.
  refine {| pool_of := fun w => n_pool (w_net w); with_pool := fun p w => with_net (set_pool p (w_net w)) w |}.
  done.
Defined.

(** The handlers a [BatchingMessageSocket] leaves empty are those of [InfinibandSocketHandler]. *)
Definition batching_callbacks {U} `{Verbs} `{MessageHandler U} (fuel : nat) : SocketCallbacks (world U) := {|
  cb_onReceive := fun _ buffer length ec => onReceive fuel buffer length ec;
  cb_onImmediate := fun _ _ => ret tt;
  cb_onSend := fun _ userId ec => onSend userId ec;
  cb_onRead := fun _ _ _ _ => ret tt;
  cb_onWrite := fun _ _ _ _ => ret tt;
  cb_onDisconnected := fun _ => onDisconnected
|}.
