(* ===== verification/CompletionSpec.v ===== *)
(** * Every completed buffer is given back once

    One poll returns the buffer of every send completion to the pool and the buffer of every receive completion
    to the shared receive queue, whether or not the queue pair still has a socket; a callback that throws leaves the
    buffers of its own and of the later completions out.  What a poll relies on of the sockets ([callbacks_ok]) is
    proved of the batching socket ([batching_callbacks_ok]). *)

From S2P Require Import Prelude Memory ByteBuffer Ids ErrorCode IbBuffer IbSocket Batching BatchingSpec BatchingFlow Completion.

(** The buffer ids of the completions of kind [t]. *)
Definition ids_of (t : WorkType) (wcs : list ibv_wc) : list Z :=
  omap (fun wc => if decide (workRequestId_workType (wc_wr_id wc) = t)
    then Some (workRequestId_bufferId (wc_wr_id wc)) else None) wcs.

(** The receive buffers of the device; [out] are those that are not posted. *)
Definition device_wf (d : device) (out : list Z) : Prop :=
  0 <= mReceiveBufferCount d < 2 ^ 16 /\ 0 <= mReceiveBufferLength d < 2 ^ 32 /\
  mr_length (mReceiveData d) = mReceiveBufferCount d * mReceiveBufferLength d /\
  0 <= mr_addr (mReceiveData d) /\ mr_addr (mReceiveData d) + mr_length (mReceiveData d) < 2 ^ 64 /\
  Permutation (mReceiveQueue d ++ out) (seqZ 0 (mReceiveBufferCount d)).

Lemma device_wf_id d out id : device_wf d out -> id ∈ out -> 0 <= id < mReceiveBufferCount d.
Proof.
  intros (_ & _ & _ & _ & _ & Hp) Hid. assert (id ∈ mReceiveQueue d ++ out) as Hin by set_solver.
  rewrite Hp in Hin. apply elem_of_seqZ in Hin. lia.
Qed.

Lemma acquireReceiveBuffer_ok d out id :
  device_wf d out -> 0 <= id < mReceiveBufferCount d ->
  acquireReceiveBuffer id d =
    InfinibandBuffer.Buffer (Sge (mr_addr (mReceiveData d) + id * mReceiveBufferLength d) (mReceiveBufferLength d)
      (mr_lkey (mReceiveData d))) id.
Proof.
  intros (Hc & Hl & Hr & Ha & Hb & _) Hid. unfold acquireReceiveBuffer, region_acquireBuffer.
  assert (id * mReceiveBufferLength d + mReceiveBufferLength d <= mr_length (mReceiveData d)) by nia.
  assert (0 <= id * mReceiveBufferLength d) by nia.
  rewrite (u64_small (id * mReceiveBufferLength d)) by lia.
  rewrite (u64_small (id * mReceiveBufferLength d + mReceiveBufferLength d)) by lia.
  case_test; [lia|]. by rewrite u64_small by lia.
Qed.

Lemma acquireReceiveBuffer_valid d out id :
  device_wf d out -> 0 <= id < mReceiveBufferCount d -> InfinibandBuffer.valid (acquireReceiveBuffer id d) = true.
Proof.
  intros Hd Hid. rewrite (acquireReceiveBuffer_ok d out) by done. destruct Hd as (Hc & _).
  unfold InfinibandBuffer.valid, InfinibandBuffer.INVALID_ID. cbn [InfinibandBuffer.mId]. apply negb_true_iff, Z.eqb_neq. lia.
Qed.

Section Device.
Context `{CompletionVerbs}.
Context (Hpost : forall l id, ibv_post_srq_recv l id = 0).

Definition posted (d : device) (id : Z) : device :=
  Device (mReceiveBufferCount d) (mReceiveBufferLength d) (mReceiveData d) (mReceiveQueue d ++ [id]).

Lemma posted_wf d id out : device_wf d (id :: out) -> device_wf (posted d id) out.
Proof.
  intros (?&?&?&?&?& Hp). split_and!; cbn; try done; try lia. by rewrite <-app_assoc.
Qed.

Lemma postBuffer_ok d id out ec : device_wf d (id :: out) ->
  postBuffer (acquireReceiveBuffer id d) ec d = Ok ec (posted d id).
Proof.
  intros Hwf. assert (0 <= id < mReceiveBufferCount d) as Hid by (eapply device_wf_id; [done|by left]).
  unfold postBuffer. rewrite (acquireReceiveBuffer_valid d (id :: out)), Hpost by done. cbn [negb Z.eqb].
  rewrite (acquireReceiveBuffer_ok d (id :: out)) by done. cbn [InfinibandBuffer.mId]. pose proof Hwf as (Hc & _).
  destruct (workRequestId_roundtrip 0 id RECEIVE) as (_ & _ & -> & _); [lia..|done].
Qed.

Lemma postReceiveBuffer_ok d id out : device_wf d (id :: out) ->
  postReceiveBuffer (acquireReceiveBuffer id d) d = Ok tt (posted d id).
Proof. intros Hwf. unfold postReceiveBuffer, bind. by rewrite (postBuffer_ok d id out). Qed.

Lemma post_all_ok ids : forall d, device_wf d ids ->
  exists d', post_all ids no_error d = Ok tt d' /\ device_wf d' [] /\ mReceiveQueue d' = mReceiveQueue d ++ ids /\
    mReceiveBufferCount d' = mReceiveBufferCount d.
Proof.
  induction ids as [|id ids IH]; intros d Hwf; cbn [post_all].
  - exists d. split_and!; [done..|by rewrite app_nil_r|done].
  - unfold bind at 1, get. unfold bind. rewrite (postBuffer_ok d id ids) by done. cbn.
    destruct (IH (posted d id)) as (d' & -> & ? & Hq & ?); [by apply posted_wf|].
    exists d'. split_and!; try done. rewrite Hq. cbn. by rewrite <-app_assoc.
Qed.

End Device.

(** ** One poll *)

Section Poll.
Context {X : Type} `{HasPool X} `{SocketCallbacks X} `{CompletionVerbs}.

(** The invariant of the sockets, which says which send buffers [own] they hold; the exceptions a callback may throw; the device, by its
    receive buffers; and the numbers of bytes a receive completion may report. *)
Context (P : X -> list Z -> Prop) (T : exn -> Prop) (d0 : device) (N : Z -> Prop).
Implicit Types (c : context X) (s : nat) (wc : ibv_wc).

(** A callback returns or throws.  In both cases it keeps the invariant and leaves alone the send buffers whose completion is still
    to be processed; of its own buffers it may acquire and release any. *)
Definition respects (x : St X unit) : Prop := forall a busy own,
  P a own -> pool_wf (pool_of a) (busy ++ own) ->
  wpx x a (fun _ a' => exists own', P a' own' /\ pool_wf (pool_of a') (busy ++ own'))
    (fun e a' => T e /\ exists own', P a' own' /\ pool_wf (pool_of a') (busy ++ own')).

(** What the sockets promise: [onReceive] is called with a receive buffer of the device, or with an error. *)
Definition callbacks_ok : Prop :=
  (forall id a own, P a own -> P (with_pool (releaseSendBuffer_id id (pool_of a)) a) own) /\ forall s,
  (forall id n, 0 <= id < mReceiveBufferCount d0 -> N n ->
     respects (cb_onReceive s (mr_addr (mReceiveData d0) + id * mReceiveBufferLength d0) n no_error)) /\
  (forall b n ec, ec_bool ec = true -> respects (cb_onReceive s b n ec)) /\
  (forall d, respects (cb_onImmediate s d)) /\
  (forall u ec, respects (cb_onSend s u ec)) /\
  (forall u b ec, respects (cb_onRead s u b ec)) /\
  (forall u b ec, respects (cb_onWrite s u b ec)) /\
  respects (cb_onDisconnected s).

(** The device has the buffers of [d0]. *)
Definition same_buffers (d : device) : Prop :=
  mReceiveBufferCount d = mReceiveBufferCount d0 /\ mReceiveBufferLength d = mReceiveBufferLength d0 /\ mReceiveData d = mReceiveData d0.

(** The send buffers [sids] and receive buffers [rids] are in completed requests, the sockets own [own]. *)
Definition ctx_wf c (sids own rids : list Z) : Prop :=
  P (c_sockets c) own /\ pool_wf (pool_of (c_sockets c)) (sids ++ own) /\ device_wf (mDevice c) rids /\ same_buffers (mDevice c).

(** A completion the hardware produces; only the status, the queue pair and the work request id of a failed one are defined. *)
Definition wc_ok wc : Prop := wc_status wc = 0 ->
  opcode_matches (workRequestId_workType (wc_wr_id wc)) (wc_opcode wc) = true /\ (wc_opcode wc = IBV_WC_RECV -> N (wc_byte_len wc)).

(** The socket map and the queue of drained sockets do not change. *)
Definition same_map c c' : Prop :=
  mSocketMap c' = mSocketMap c /\ mDrainingQueue c' = mDrainingQueue c /\ c_qps c' = c_qps c.

Lemma same_map_trans c1 c2 c3 : same_map c1 c2 -> same_map c2 c3 -> same_map c1 c3.
Proof. unfold same_map. intros (-> & -> & ->) (-> & -> & ->). done. Qed.

Context (Hcb : callbacks_ok) (Hpost : forall l id, ibv_post_srq_recv l id = 0).

Lemma on_sockets_ok x c sids own rids : respects x -> ctx_wf c sids own rids ->
  wpx (on_sockets x) c (fun _ c' => exists own', ctx_wf c' sids own' rids /\ mDevice c' = mDevice c /\ same_map c c')
    (fun e c' => T e /\ exists own', ctx_wf c' sids own' rids).
Proof.
  intros Hx (HP & Hp & Hd). specialize (Hx (c_sockets c) sids own HP Hp). unfold wpx, on_sockets in *.
  destruct (x (c_sockets c)) as [[] a|e a| |]; try done.
  - destruct Hx as (own' & HP' & Hp'). by exists own'.
  - destruct Hx as (HT & own' & HP' & Hp'). split; [done|]. by exists own'.
Qed.

Lemma release_ok c id sids own rids : ctx_wf c (id :: sids) own rids ->
  exists c', ctx_releaseSendBuffer id c = Ok tt c' /\ ctx_wf c' sids own rids /\ same_map c c'.
Proof.
  intros (HP & Hp & Hd). eexists. split; [done|]. split; [|done]. split_and!; cbn; [by apply Hcb| |apply Hd|apply Hd].
  rewrite pool_of_with. assert (0 <= id < mSendBufferCount (pool_of (c_sockets c))) as Hid.
  { eapply pool_wf_id; [exact Hp|]. set_solver. }
  destruct Hp as (Hc & ? & ? & ? & ? & Hq). unfold releaseSendBuffer_id. case_test.
  { unfold InfinibandBuffer.INVALID_ID in *. lia. }
  split_and!; cbn; try done; try lia. rewrite <-Hq. cbn. apply Permutation_middle.
Qed.

Lemma post_ok c id sids own rids : ctx_wf c sids own (id :: rids) ->
  exists c', on_device (postReceiveBuffer (acquireReceiveBuffer id (mDevice c))) c = Ok tt c' /\ ctx_wf c' sids own rids /\ same_map c c'.
Proof.
  intros (HP & Hp & Hd & Hg). unfold on_device. rewrite (postReceiveBuffer_ok Hpost _ _ _ Hd). eexists. split; [done|].
  split; [|done]. split_and!; [done..|by apply posted_wf|exact Hg].
Qed.

Lemma processUnmatched_ok wc c sids own rids :
  ctx_wf c (ids_of SEND [wc] ++ sids) own (ids_of RECEIVE [wc] ++ rids) ->
  exists c', processUnmatched (wc_wr_id wc) c = Ok tt c' /\ ctx_wf c' sids own rids /\ same_map c c'.
Proof.
  unfold processUnmatched, ids_of. cbn. destruct (workRequestId_workType (wc_wr_id wc)); cbn; intros Hwf;
    try (exists c; split; [done|]; by split).
  - by apply post_ok.
  - by apply release_ok.
Qed.

(** The callback of a receive completion. *)
Lemma receive_callback_ok s wc c rids : wc_ok wc -> workRequestId_workType (wc_wr_id wc) = RECEIVE ->
  device_wf (mDevice c) rids -> same_buffers (mDevice c) ->
  0 <= workRequestId_bufferId (wc_wr_id wc) < mReceiveBufferCount (mDevice c) ->
  respects (if bool_decide (wc_opcode wc = IBV_WC_RECV_RDMA_WITH_IMM) then cb_onImmediate s (htonl (wc_imm_data wc))
    else cb_onReceive s (InfinibandBuffer.data (acquireReceiveBuffer (workRequestId_bufferId (wc_wr_id wc)) (mDevice c)))
      (wc_byte_len wc) (wc_error wc)).
Proof.
  intros Hok Ht Hd (Hg1 & Hg2 & Hg3) Hid. destruct Hcb as [_ Hcb']. destruct (Hcb' s) as (Hr & He & Hi & _).
  case_bool_decide as Ho; [done|]. unfold wc_error. destruct (Z.eqb_spec (wc_status wc) 0) as [Hs|Hs].
  - destruct (Hok Hs) as [Hop HN]. rewrite Ht in Hop. rewrite (acquireReceiveBuffer_ok _ _ _ Hd Hid).
    unfold InfinibandBuffer.data. cbn. rewrite Hg2, Hg3. apply Hr; [lia|]. apply HN. by destruct (wc_opcode wc).
  - apply He. unfold ec_bool. by apply negb_true_iff, Z.eqb_neq.
Qed.

Lemma processReceive_ok s wc c sids own rids id :
  id = workRequestId_bufferId (wc_wr_id wc) -> wc_ok wc -> workRequestId_workType (wc_wr_id wc) = RECEIVE ->
  ctx_wf c sids own (id :: rids) ->
  wpx (processReceive s wc (wc_error wc)) c (fun _ c' => exists own', ctx_wf c' sids own' rids /\ same_map c c')
    (fun e c' => T e /\ exists own', ctx_wf c' sids own' (id :: rids)).
Proof.
  intros -> Hok Ht Hwf. pose proof Hwf as (_ & _ & Hd & Hg). unfold processReceive. wpxb. eapply wpx_ok; [reflexivity|].
  assert (0 <= workRequestId_bufferId (wc_wr_id wc) < mReceiveBufferCount (mDevice c)) as Hid by (eapply device_wf_id; [done|by left]).
  rewrite (acquireReceiveBuffer_valid _ _ _ Hd Hid). cbn [negb]. wpxb.
  pose proof (on_sockets_ok _ c sids own _ (receive_callback_ok s wc c _ Hok Ht Hd Hg Hid) Hwf) as Hrun.
  eapply wpx_mono; [case_bool_decide; exact Hrun| |done].
  intros [] c1 (own1 & Hwf1 & Hdev & Hm). cbv beta. rewrite <-Hdev.
  destruct (post_ok c1 _ _ _ _ Hwf1) as (c2 & Hr2 & Hwf2 & Hm2). eapply wpx_ok; [exact Hr2|].
  exists own1. split; [done|by eapply same_map_trans].
Qed.

(** Each completion gives back its own buffer, unless its callback throws. *)
Lemma processWorkComplete_ok wc c sids own rids : wc_ok wc ->
  ctx_wf c (ids_of SEND [wc] ++ sids) own (ids_of RECEIVE [wc] ++ rids) ->
  wpx (processWorkComplete wc) c (fun _ c' => exists own', ctx_wf c' sids own' rids /\ same_map c c')
    (fun e c' => T e /\ exists own', ctx_wf c' (ids_of SEND [wc] ++ sids) own' (ids_of RECEIVE [wc] ++ rids)).
Proof.
  intros Hok Hwf. unfold processWorkComplete. wpxb. eapply wpx_ok; [reflexivity|].
  destruct (mSocketMap c !! wc_qp_num wc) as [s|].
  2:{ destruct (processUnmatched_ok wc c sids own rids Hwf) as (c' & Hrun & ?). eapply wpx_ok; [exact Hrun|]. eauto. }
  wpxb. apply wpx_ok with tt c.
  { destruct (Z.eqb_spec (wc_status wc) 0) as [Hs|]; [|done]. by rewrite (proj1 (Hok Hs)). }
  destruct Hcb as [_ Hcb']. destruct (Hcb' s) as (_ & _ & _ & Hs & Hr & Hw & _).
  remember (ids_of SEND [wc]) as ss eqn:Hss. remember (ids_of RECEIVE [wc]) as rr eqn:Hrr. unfold ids_of in Hss, Hrr. cbn in Hss, Hrr.
  destruct (workRequestId_workType (wc_wr_id wc)) eqn:Ht; cbn in Hss, Hrr; subst ss rr; cbn [app] in Hwf |- *.
  - eapply wpx_ok; [reflexivity|]. by exists own.
  - by eapply processReceive_ok.
  - wpxb. eapply wpx_mono; [exact (on_sockets_ok _ c _ own rids (Hs _ _) Hwf)| |done].
    intros [] c1 (own1 & Hwf1 & _ & Hm). destruct (release_ok c1 _ _ _ _ Hwf1) as (c2 & Hr2 & Hwf2 & Hm2).
    eapply wpx_ok; [exact Hr2|]. exists own1. split; [done|by eapply same_map_trans].
  - eapply wpx_mono; [exact (on_sockets_ok _ c _ own rids (Hr _ _ _) Hwf)| |done]. intros [] c1 (own1 & ? & _ & ?). eauto.
  - eapply wpx_mono; [exact (on_sockets_ok _ c _ own rids (Hw _ _ _) Hwf)| |done]. intros [] c1 (own1 & ? & _ & ?). eauto.
Qed.

Lemma ids_of_cons t wc wcs : ids_of t (wc :: wcs) = ids_of t [wc] ++ ids_of t wcs.
Proof. unfold ids_of. cbn. by destruct (decide _). Qed.

Lemma process_all_ok wcs : forall c own rids, Forall wc_ok wcs ->
  ctx_wf c (ids_of SEND wcs) own (ids_of RECEIVE wcs ++ rids) ->
  wpx (process_all wcs) c (fun _ c' => exists own', ctx_wf c' [] own' rids /\ same_map c c')
    (fun e c' => T e /\ exists before rest own', wcs = before ++ rest /\ ctx_wf c' (ids_of SEND rest) own' (ids_of RECEIVE rest ++ rids)).
Proof.
  induction wcs as [|wc wcs IH]; intros c own rids Hok Hwf; cbn [process_all].
  { eapply wpx_ok; [reflexivity|]. by exists own. }
  apply list.Forall_cons in Hok as [Hwc Hok]. rewrite (ids_of_cons SEND wc wcs), (ids_of_cons RECEIVE wc wcs), <-app_assoc in Hwf.
  wpxb. eapply wpx_mono; [exact (processWorkComplete_ok wc c _ own _ Hwc Hwf)| |].
  - intros [] c1 (own1 & Hwf1 & Hm). cbv beta. eapply wpx_mono; [exact (IH c1 own1 rids Hok Hwf1)| |].
    + intros [] c2 (own2 & Hwf2 & Hm2). exists own2. split; [done|by eapply same_map_trans].
    + intros e c2 (HT & before & rest & own2 & -> & Hwf2). split; [done|]. by exists (wc :: before), rest, own2.
  - intros e c1 (HT & own1 & Hwf1). split; [done|]. exists [], (wc :: wcs), own1. split; [done|].
    by rewrite (ids_of_cons SEND wc wcs), (ids_of_cons RECEIVE wc wcs), <-app_assoc.
Qed.

(** The sockets in [l] have no queue pair any more; the others keep theirs. *)
Definition drained (l : list nat) c c' : Prop :=
  mDrainingQueue c' = mDrainingQueue c /\
  (forall s, s ∈ l -> c_qps c' !! s = None) /\ (forall s, s ∉ l -> c_qps c' !! s = c_qps c !! s) /\
  mSocketMap c' ⊆ mSocketMap c /\ (forall s qp, s ∈ l -> c_qps c !! s = Some qp -> mSocketMap c' !! qp = None).

Lemma drained_cons s l c c0 c' : drained l c0 c' ->
  mDrainingQueue c0 = mDrainingQueue c /\ c_qps c0 = delete s (c_qps c) /\
  mSocketMap c0 ⊆ mSocketMap c /\ (forall qp, c_qps c !! s = Some qp -> mSocketMap c0 !! qp = None) ->
  drained (s :: l) c c'.
Proof.
  intros (HD2 & HQ2 & HQ3 & HM2 & HN2) (HD & HQ & HM & HN). rewrite HQ in *. split_and!; [congruence| | | |].
  - intros s' [->|Hin]%elem_of_cons; [|by apply HQ2]. destruct (decide (s ∈ l)); [by apply HQ2|].
    rewrite HQ3 by done. apply lookup_delete_eq.
  - intros s' [Hne Hin]%not_elem_of_cons. rewrite HQ3 by done. by rewrite lookup_delete_ne.
  - by etrans.
  - intros s' qp [->|Hin]%elem_of_cons Hq.
    + eapply lookup_weaken_None; [by apply HN|done].
    + destruct (decide (s = s')) as [->|Hne]; [eapply lookup_weaken_None; [by apply HN|done]|].
      eapply HN2; [done|]. by rewrite lookup_delete_ne.
Qed.

Lemma drain_all_ok l : forall c own rids, ctx_wf c [] own rids ->
  wpx (drain_all l) c (fun _ c' => exists own', ctx_wf c' [] own' rids /\ drained l c c')
    (fun e c' => T e /\ exists own', ctx_wf c' [] own' rids).
Proof.
  induction l as [|s l IH]; intros c own rids Hwf; cbn [drain_all].
  { eapply wpx_ok; [reflexivity|]. exists own. split; [done|].
    split_and!; try done; intros s; [|intros qp]; intros Hin; by apply not_elem_of_nil in Hin. }
  unfold onDrained. wpxb. set (c0 := match c_qps c !! s with None => c | Some qp => set_map (delete qp (mSocketMap c)) (delete s (c_qps c)) c end).
  apply wpx_ok with tt c0; [unfold ctx_removeConnection, c0; by destruct (c_qps c !! s)|].
  assert (ctx_wf c0 [] own rids) as Hwf0 by (unfold c0; by destruct (c_qps c !! s)).
  assert (mDrainingQueue c0 = mDrainingQueue c /\ c_qps c0 = delete s (c_qps c) /\
    mSocketMap c0 ⊆ mSocketMap c /\ forall qp, c_qps c !! s = Some qp -> mSocketMap c0 !! qp = None) as HD.
  { unfold c0. destruct (c_qps c !! s) as [qp|] eqn:Hs; cbn.
    - split_and!; [done..|apply delete_subseteq|]. intros qp' [= <-]. apply lookup_delete_eq.
    - split_and!; [done|by rewrite delete_id|done|done]. }
  destruct Hcb as [_ Hcb']. destruct (Hcb' s) as (_ & _ & _ & _ & _ & _ & Hd).
  eapply wpx_mono; [exact (on_sockets_ok _ c0 [] own rids Hd Hwf0)| |done].
  intros [] c1 (own1 & Hwf1 & _ & HM1 & HD1 & HQ1). cbv beta. rewrite <-HM1, <-HD1, <-HQ1 in HD.
  eapply wpx_mono; [exact (IH c1 own1 rids Hwf1)| |done].
  intros [] c2 (own2 & Hwf2 & Hdr). exists own2. split; [done|by eapply drained_cons].
Qed.

(** C7: one poll gives every buffer back exactly once.  Posting receive requests succeeds; the callbacks may return or throw
    (an exception in [T]), for every receive buffer of the device and every error the poll passes to them, and keep their own
    invariant.  When [poll] returns, the receive buffers of all completions are posted again, each once, and the send buffers of
    all completions are back in the pool, those of queue pairs that have lost their socket included, with no buffer free twice; every
    socket that was drained has lost its queue pair and its place in the map.  When [poll] throws, the exception is one of a
    callback, and the buffers of the completions in front of some point are given back while those behind it, [rest], are still out,
    each once. *)
Theorem poll_returns_buffers c wcs own rids :
  Forall wc_ok wcs -> ctx_wf c (ids_of SEND wcs) own (ids_of RECEIVE wcs ++ rids) ->
  wpx (poll (Some wcs)) c
    (fun r c' => r = (match wcs with [] => false | _ => true end) /\
       mDrainingQueue c' = [] /\ (forall s, s ∈ mDrainingQueue c -> c_qps c' !! s = None) /\
       (forall s qp, s ∈ mDrainingQueue c -> c_qps c !! s = Some qp -> mSocketMap c' !! qp = None) /\
       device_wf (mDevice c') rids /\
       exists own', P (c_sockets c') own' /\ pool_wf (pool_of (c_sockets c')) own')
    (fun e c' => T e /\ exists before rest, wcs = before ++ rest /\ device_wf (mDevice c') (ids_of RECEIVE rest ++ rids) /\
       exists own', P (c_sockets c') own' /\ pool_wf (pool_of (c_sockets c')) (ids_of SEND rest ++ own')).
Proof.
  intros Hok Hwf. unfold poll. wpxb. eapply wpx_ok; [reflexivity|]. wpxb. eapply wpx_ok; [reflexivity|]. wpxb.
  eapply wpx_mono; [exact (process_all_ok wcs (set_drain [] c) own rids Hok Hwf)| |].
  - intros [] c1 (own1 & Hwf1 & HM1 & HD1 & HQ1). cbv beta. wpxb.
    eapply wpx_mono; [exact (drain_all_ok (mDrainingQueue c) c1 own1 rids Hwf1)| |].
    + intros [] c2 (own2 & (HP & Hp & Hd & _) & HD2 & HN & _ & _ & HN2). cbv beta. eapply wpx_ok; [reflexivity|].
      split_and!; [done|by rewrite HD2, HD1|done| |done|eauto]. intros s qp Hin Hq. apply (HN2 s qp Hin). by rewrite HQ1.
    + intros e c2 (HT & own2 & HP & Hp & Hd & _). split; [done|]. exists wcs, []. rewrite app_nil_r. cbn. eauto.
  - intros e c1 (HT & before & rest & own1 & Hw & HP & Hp & Hd & _). split; [done|]. eauto 10.
Qed.

End Poll.

(** ** The batching socket under the completion context *)

Section Batching.
Context {U : Type} `{Verbs} `{MessageHandler U} `{CompletionVerbs}.

(** the completions of a socket that is shutting down stop the poll loop.  The requests that are outstanding when a connection ends
    complete with an error; when the socket is no longer connected (after its own [shutdown], or after the first such
    completion), [onSend] and [onReceive] throw [not_connected] out of [processWorkComplete]: the buffer of the completion is not
    given back and the completions and drained sockets behind it are dropped with [poll]. *)
Theorem late_completion_stops_poll fuel (c : context (world U)) wc wcs s :
  let _ := batching_callbacks fuel in
  mSocketMap c !! wc_qp_num wc = Some s -> wc_status wc <> 0 -> mState (w_sock (c_sockets c)) <> CONNECTED ->
  workRequestId_workType (wc_wr_id wc) = SEND \/
    (workRequestId_workType (wc_wr_id wc) = RECEIVE /\ wc_opcode wc <> IBV_WC_RECV_RDMA_WITH_IMM /\
     InfinibandBuffer.valid (acquireReceiveBuffer (workRequestId_bufferId (wc_wr_id wc)) (mDevice c)) = true) ->
  exists c', poll (Some (wc :: wcs)) c = Throw (SystemError errc_not_connected) c' /\
    pool_of (c_sockets c') = pool_of (c_sockets c) /\ mDevice c' = mDevice c /\
    mSocketMap c' = mSocketMap c /\ mDrainingQueue c' = [].
Proof.
  intros cb Hs Hst Hc Ht. eexists. unfold poll, bind at 1, get, bind at 1, ctx_mod. cbn [process_all].
  assert (ec_bool (wc_error wc) = true) as Hec.
  { unfold wc_error, ec_bool. rewrite (proj2 (Z.eqb_neq _ _) Hst). cbn. by apply negb_true_iff, Z.eqb_neq. }
  assert (handleSocketError (wc_error wc) (c_sockets (set_drain [] c)) = Throw (SystemError errc_not_connected) (c_sockets c)) as Hthrow.
  { unfold handleSocketError, bshutdown, bind, sock. by rewrite bool_decide_false. }
  unfold processWorkComplete, processReceive, on_sockets, bind, get.
  cbn [c_sockets set_drain mSocketMap mDevice cb_onSend cb_onReceive batching_callbacks cb]. rewrite Hs.
  rewrite (proj2 (Z.eqb_neq _ _) Hst). unfold ret at 1. unfold onSend, onReceive. rewrite Hec.
  destruct Ht as [->|(-> & Ho & Hv)].
  - by rewrite Hthrow.
  - assert (mDevice (set_drain [] c) = mDevice c) as -> by done. rewrite Hv. cbn [negb].
    rewrite bool_decide_false by done. by rewrite Hthrow.
Qed.

End Batching.

(** *** Its callbacks keep what a poll relies on *)

Section Batching_callbacks.
Context {U : Type} `{Verbs} `{MessageHandler U}.

(** The invariant of the derived class, the exceptions its handlers throw, and the receive buffers: of a device whose
    buffers are aligned, and filled by a peer that sends whole frames. *)
Context (I : world U -> list Z -> Prop) (Th : exn -> Prop) (d0 : device) (fuel : nat).

Definition region_base : Z := mr_addr (mReceiveData d0).
Definition region_end : Z := region_base + mr_length (mReceiveData d0).

Definition recv_mapped (m : mem) : Prop :=
  forall a, region_base <= a < region_end -> exists b, bytes m !! a = Some b /\ is_byte b.

Definition batching_inv (w : world U) (own : list Z) : Prop :=
  n_open (w_net w) = true /\ recv_mapped (w_mem w) /\ I w own.

Definition batching_throws (e : exn) : Prop := e = SystemError errc_not_connected \/ Th e.

Definition frame_length (n : Z) : Prop := 0 <= n <= mReceiveBufferLength d0 /\ n mod 8 = 0.

(** What the derived class promises: its handlers keep the invariants when they are given a reader over received bytes. *)
Definition handler_ok : Prop :=
  (forall id ty p e w busy own, region_base <= p <= e -> e <= region_end ->
     batching_inv w own -> pool_wf (pool_of w) (busy ++ own) ->
     wpx (onMessage id ty (BufferReader p e)) w
       (fun r w' => rPos r <= rEnd r /\ exists own', batching_inv w' own' /\ pool_wf (pool_of w') (busy ++ own'))
       (fun x w' => Th x /\ exists own', batching_inv w' own' /\ pool_wf (pool_of w') (busy ++ own'))) /\
  respects batching_inv Th onSocketDisconnected /\
  (forall id w own, I w own -> I (with_pool (releaseSendBuffer_id id (pool_of w)) w) own) /\
  (forall st k w own, I w own -> I (with_sock (set_state st (w_sock w)) (with_net (set_disconnects k (w_net w)) w)) own).

Definition buffers_aligned : Prop :=
  region_base mod 8 = 0 /\ mReceiveBufferLength d0 mod 8 = 0 /\ 0 <= mReceiveBufferLength d0 < 16 * Z.of_nat fuel /\
  0 <= region_base /\ region_end + 2 ^ 33 < 2 ^ 64 /\ mr_length (mReceiveData d0) = mReceiveBufferCount d0 * mReceiveBufferLength d0.

Context (Hh : handler_ok) (Hal : buffers_aligned).

Lemma bshutdown_respects : respects batching_inv batching_throws bshutdown.
Proof.
  intros w busy own (Ho & Hm & HI) Hp. destruct (decide (mState (w_sock w) = CONNECTED)) as [Hc|Hc].
  - unfold wpx. rewrite (bshutdown_connected w Hc Ho). exists own. split; [|done]. split_and!; [done..|]. by apply Hh.
  - apply wpx_throw with (SystemError errc_not_connected) w.
    { unfold bshutdown, bind, sock. by rewrite bool_decide_false. }
    split; [by left|]. exists own. done.
Qed.

Lemma read_mapped n (w : world U) p e : recv_mapped (w_mem w) -> region_base <= p -> p + Z.of_nat n <= region_end ->
  exists v, in_mem (reader_read n (BufferReader p e)) w = Ok (v, BufferReader (p + Z.of_nat n) e) w /\ 0 <= v < 2 ^ (8 * Z.of_nat n).
Proof.
  intros Hm Hp He. assert (exists l, length l = n /\ Forall is_byte l /\ pts (w_mem w) p l) as (l & Hl & Hb & Hpt).
  { clear e. revert p Hp He. induction n as [|n IH]; intros p Hp He; [by exists []; split_and!; [|constructor|apply pts_nil]|].
    destruct (IH (p + 1)) as (l & Hl & Hb & Hpt); [lia..|]. destruct (Hm p) as (b & Hpb & Hbb); [lia|].
    exists (b :: l). split_and!; [cbn; lia|by constructor|by apply pts_cons]. }
  exists (le_val l). subst n. split; [|by apply le_val_range]. apply in_mem_id. by apply reader_read_ok.
Qed.

Lemma receive_loop_ok k : forall p e w busy own, batching_inv w own -> pool_wf (pool_of w) (busy ++ own) ->
  region_base <= p <= e -> e <= region_end -> p mod 8 = 0 -> e mod 8 = 0 -> e - p < 16 * Z.of_nat k ->
  wpx (receive_loop k (BufferReader p e)) w
    (fun _ w' => exists own', batching_inv w' own' /\ pool_wf (pool_of w') (busy ++ own'))
    (fun x w' => batching_throws x /\ exists own', batching_inv w' own' /\ pool_wf (pool_of w') (busy ++ own')).
Proof.
  induction k as [|k IH]; intros p e w busy own HI Hp Hpe He Hp8 He8 Hk; [lia|]. destruct Hal as (_ & _ & _ & Hb0 & Hbig & _).
  assert (forall q (w' : world U), q <= e -> in_mem (reader_destroy (BufferReader q e)) w' = Ok tt w') as Hdest.
  { intros q w' Hq. apply in_mem_id. unfold reader_destroy, massert. cbn [rPos rEnd]. by rewrite (proj2 (Z.leb_le q e)). }
  cbn [receive_loop]. destruct (canRead (BufferReader p e) HEADER_SIZE) eqn:Hc.
  2:{ eapply wpx_ok; [apply Hdest; lia|]. eauto. }
  apply canRead_spec in Hc; [|unfold HEADER_SIZE; lia..]. unfold HEADER_SIZE in Hc. pose proof HI as (Hop & Hm & HIu).
  destruct (read_mapped 8 w p e Hm) as (mid & R1 & _); [lia..|]. wpxb. eapply wpx_ok; [exact R1|]. cbv beta iota.
  destruct (read_mapped 4 w (p + Z.of_nat 8) e Hm) as (mty & R2 & _); [lia..|]. wpxb. eapply wpx_ok; [exact R2|]. cbv beta iota.
  destruct (read_mapped 4 w (p + Z.of_nat 8 + Z.of_nat 4) e Hm) as (len & R3 & Hlen); [lia..|].
  change (2 ^ (8 * Z.of_nat 4)) with (2 ^ 32) in Hlen.
  wpxb. eapply wpx_ok; [exact R3|]. cbv beta iota. replace (p + Z.of_nat 8 + Z.of_nat 4 + Z.of_nat 4) with (p + 16) by lia.
  destruct (canRead (BufferReader (p + 16) e) len) eqn:Hc2; cbn [negb].
  2:{ wpxb. eapply wpx_mono; [exact (bshutdown_respects w busy own HI Hp)| |done].
      intros [] w1 (own1 & HI1 & Hp1). eapply wpx_ok; [apply Hdest; lia|]. eauto. }
  apply canRead_spec in Hc2; [|lia..]. unfold reader_extract, mk_reader. cbn [rPos rEnd]. rewrite u64_small by lia. wpxb.
  destruct Hh as (Hmsg & _). eapply wpx_mono; [apply (Hmsg mid mty (p + 16) (p + 16 + len) w busy own); (done || lia)| |].
  - intros r w1 (Hr & own1 & HI1 & Hp1). cbv beta. wpxb. apply wpx_ok with tt w1.
    { apply in_mem_id. unfold reader_destroy, massert. by rewrite (proj2 (Z.leb_le _ _)). }
    unfold reader_align. cbn [rPos rEnd]. change 8 with (2 ^ 3). rewrite align_ptr_round_up by lia. change (2 ^ 3) with 8.
    pose proof (round_up_bounds (p + 16 + len) 8 ltac:(lia)) as Hru. pose proof (round_up_mod (p + 16 + len) 8 ltac:(lia)) as Hru8.
    apply (IH (round_up (p + 16 + len) 8) e w1 busy own1); try done; [|lia].
    apply Z.mod_divide in Hru8 as [x Hx]; [|lia]. apply Z.mod_divide in He8 as [y Hy]; [|lia]. lia.
  - intros x w1 (Hx & own1 & HI1). split; [by right|eauto].
Qed.

Lemma batching_callbacks_ok : @callbacks_ok _ _ (batching_callbacks fuel) batching_inv batching_throws d0 frame_length.
Proof.
  destruct Hh as (Hmsg & Hdis & Hpool & Hst). destruct Hal as (Hb8 & Hl8 & Hf & Hb0 & Hbig & Hlen).
  assert (forall x, respects batching_inv Th x -> respects batching_inv batching_throws x) as Hweak.
  { intros x Hx w busy own HI Hp. eapply wpx_mono; [exact (Hx w busy own HI Hp)|done|]. intros e w' [? ?]. split; [by right|done]. }
  assert (respects batching_inv batching_throws (ret tt)) as Hret.
  { intros w busy own HI Hp. eapply wpx_ok; [reflexivity|]. eauto. }
  split.
  { intros id w own (Ho & Hm & HI). split_and!; [done..|]. by apply Hpool. }
  intros s. cbn. split_and!; try done.
  - intros id n Hid [Hn Hn8] w busy own HI Hp. unfold onReceive, mk_reader. cbn [ec_bool no_error ec_value negb Z.eqb].
    assert (region_base + id * mReceiveBufferLength d0 + n <= region_end) as Hend by (unfold region_end; nia).
    fold region_base. rewrite u64_small by nia. apply (receive_loop_ok fuel _ _ w busy own); try done; [nia| | |lia].
    + rewrite Zplus_mod, Zmult_mod, Hb8, Hl8. by rewrite Z.mul_0_r.
    + rewrite Zplus_mod, Hn8, (Zplus_mod region_base), Zmult_mod, Hb8, Hl8. by rewrite Z.mul_0_r.
  - intros b n ec Hec. unfold onReceive. rewrite Hec. apply bshutdown_respects.
  - intros u ec. unfold onSend. destruct (ec_bool ec); [apply bshutdown_respects|done].
  - intros w busy own (Ho & Hm & HI) Hp. unfold onDisconnected. wpxb. eapply wpx_ok; [reflexivity|].
    apply (Hweak _ Hdis _ busy own); [|done]. split_and!; [done..|].
    assert (set_disconnects (n_disconnects (w_net w)) (w_net w) = w_net w) as Hn by by destruct (w_net w).
    pose proof (Hst DISCONNECTED (n_disconnects (w_net w)) w own HI) as HI'. rewrite Hn in HI'. by destruct w.
Qed.

End Batching_callbacks.

(** a failed receive whose [opcode] field happens to hold the immediate code is delivered as immediate data.  The opcode of
    an unsuccessful completion is not defined, but [processWorkComplete] tests it before the error code: the
    completion has the effect of a successful one and the error is lost. *)
Theorem failed_immediate_loses_error {X} `{HasPool X} `{SocketCallbacks X} `{CompletionVerbs} (c : context X) id status len imm qp :
  workRequestId_workType id = RECEIVE ->
  InfinibandBuffer.valid (acquireReceiveBuffer (workRequestId_bufferId id) (mDevice c)) = true ->
  processWorkComplete (Wc id status IBV_WC_RECV_RDMA_WITH_IMM len imm qp) c =
  processWorkComplete (Wc id 0 IBV_WC_RECV_RDMA_WITH_IMM len imm qp) c.
Proof.
  intros Ht Hv. unfold processWorkComplete, processReceive, bind, get. cbn [wc_wr_id wc_qp_num wc_status wc_opcode wc_imm_data wc_byte_len].
  destruct (mSocketMap c !! qp) as [s|]; [|done]. rewrite Ht.
  change (opcode_matches RECEIVE IBV_WC_RECV_RDMA_WITH_IMM) with true. unfold massert, ret.
  cbn [Z.eqb]. destruct (status =? 0); cbv beta iota; by rewrite Hv.
Qed.

(** ** Witnesses *)

Section Demo.

#[local] Instance completion_verbs_ok : CompletionVerbs := {|
  ibv_post_srq_recv := fun _ _ => 0; ibv_req_notify_cq := 0; rdma_create_qp_num := fun s => inr (Z.of_nat s) |}.

(** Two receive buffers of 64 bytes at address 8192. *)
Definition demo_device : device := Device 2 64 (Region 8192 128 2 2) [0].

(** A batching socket whose class records the messages; two of them are in receive buffer 1. *)
Definition demo_receiver : world (list msg) :=
  World (Net (Mem (write_bytes (write_bytes ∅ 8192 (replicate 128 0)) 8256 two_messages) ∅ []) (SendPool 2 64 (Region 4096 128 1 1) [0])
    true true true [] [] 0 0)
    (set_state CONNECTED (bsock_make 8)) 0 [].

Lemma recorder_ok : @handler_ok (list msg) recorder (fun _ _ => True) (fun _ => False) demo_device.
Proof.
  unfold handler_ok. split_and!; [|by intros w busy own HI Hp; eapply wpx_ok; [reflexivity|]; eauto|done|done].
  intros id ty p e w busy own Hpe He HI Hp. pose proof HI as (Ho & Hm & _). cbn. wpxb.
  assert (exists l, load_bytes (Z.to_nat (e - p)) p (w_mem w) = Ok l (w_mem w)) as (l & Hl).
  { assert (p + Z.of_nat (Z.to_nat (e - p)) <= region_end demo_device) as Hend by lia. revert Hend.
    generalize (Z.to_nat (e - p)). intros n. destruct Hpe as [Hpb _]. revert p Hpb. induction n as [|n IH]; intros p Hpb Hend; [by exists []|].
    destruct (IH (p + 1)) as (l & Hl); [lia..|]. destruct (Hm p) as (b & Hb & _); [lia|]. exists (b :: l).
    cbn [load_bytes]. unfold bind. by rewrite (load_ok _ _ _ Hb), Hl. }
  eapply wpx_ok; [apply in_mem_id, Hl|]. wpxb. eapply wpx_ok; [reflexivity|]. eapply wpx_ok; [reflexivity|].
  split; [cbn; lia|]. exists own. done.
Qed.

(** Send buffer 1 and receive buffer 1 are in completions, and the queue pair of the send is gone. *)
Definition demo_context : context (world (list msg)) :=
  Context demo_receiver demo_device 4 {[ 5 := 0%nat ]} [0%nat] {[ 0%nat := 5 ]} false false.

Definition demo_wcs : list ibv_wc :=
  [Wc (workRequestId_build 0 1 RECEIVE) 0 IBV_WC_RECV 40 0 5; Wc (workRequestId_build 7 1 SEND) 5 IBV_WC_SEND 0 0 9].

(** The completions of a batching socket that is shutting down, in the same poll. *)
Definition late_wcs : list ibv_wc :=
  [Wc (workRequestId_build 7 1 SEND) 5 IBV_WC_SEND 0 0 5; Wc (workRequestId_build 0 1 RECEIVE) 5 IBV_WC_RECV 0 0 5].

#[local] Instance demo_callbacks : SocketCallbacks (world (list msg)) := @batching_callbacks _ verbs_ok recorder 9.

Lemma demo_aligned : buffers_aligned demo_device 9.
Proof. unfold buffers_aligned, region_end, region_base. cbn. split_and!; (done || lia). Qed.

Lemma demo_ctx_wf :
  ctx_wf (@batching_inv (list msg) (fun _ _ => True) demo_device) demo_device demo_context [1] [] [1].
Proof.
  split; [split; [done|split; [|done]]|].
  2:{ split; [split_and!; (done || (cbn; lia))|]. split; [split_and!; (done || (cbn; lia))|]. done. }
  intros a Ha. unfold region_base, region_end in Ha. cbn in Ha.
  change (bytes (w_mem (c_sockets demo_context))) with (write_bytes (write_bytes ∅ 8192 (replicate 128 0)) 8256 two_messages).
  rewrite !lookup_write_bytes. case_decide as Hd.
  - assert (Forall is_byte two_messages) as Hb by (apply (bool_decide_unpack _); vm_compute; exact Logic.I).
    destruct (lookup_lt_is_Some_2 two_messages (Z.to_nat (a - 8256))) as [b Hab]; [unfold zlen in Hd; lia|].
    exists b. split; [done|]. by eapply (Forall_lookup_1 _ _ _ _ Hb).
  - rewrite decide_True by (unfold zlen; rewrite length_replicate; lia).
    exists 0. split; [|unfold is_byte; lia]. apply lookup_replicate. split; [done|lia].
Qed.

Lemma poll_returns_buffers_witness :
  (exists c' own', poll (Some demo_wcs) demo_context = Ok true c' /\
    pool_wf (pool_of (c_sockets c')) own' /\ device_wf (mDevice c') [] /\
    mReceiveQueue (mDevice c') = [0; 1] /\ mSendBufferQueue (pool_of (c_sockets c')) = [1; 0] /\
    w_user (c_sockets c') = [demo_x; Msg 2 6 []] /\ mSocketMap c' !! 5 = None) /\
  exists c' before rest, poll (Some late_wcs) demo_context = Throw (SystemError errc_not_connected) c' /\
    late_wcs = before ++ rest /\ device_wf (mDevice c') (ids_of RECEIVE rest) /\
    mReceiveQueue (mDevice c') = [0] /\ mSendBufferQueue (pool_of (c_sockets c')) = [1; 0].
Proof.
  assert (forall l id, ibv_post_srq_recv l id = 0) as Hpost by reflexivity.
  pose proof (@batching_callbacks_ok (list msg) verbs_ok recorder (fun _ _ => True) (fun _ => False) demo_device 9 recorder_ok demo_aligned) as Hcb.
  split.
  - pose proof (poll_returns_buffers _ _ _ _ Hcb Hpost demo_context demo_wcs [] []) as Hrun.
    assert (match poll (Some demo_wcs) demo_context with
      | Ok true c => (mReceiveQueue (mDevice c), mSendBufferQueue (pool_of (c_sockets c)), w_user (c_sockets c), mSocketMap c !! 5)
      | _ => ([], [], [], None) end = ([0; 1], [1; 0], [demo_x; Msg 2 6 []], None)) as Hc by (vm_compute; reflexivity).
    unfold wpx in Hrun. destruct (poll (Some demo_wcs) demo_context) as [[] c'|e c'| |]; try discriminate Hc. injection Hc as H1 H2 H3 H4.
    destruct Hrun as (_ & _ & _ & _ & Hd & own' & _ & Hp).
    + repeat constructor; cbn; intros; (discriminate || reflexivity || lia).
    + exact demo_ctx_wf.
    + exists c', own'. repeat (split; [assumption || reflexivity|]). assumption.
  - pose proof (poll_returns_buffers _ _ _ _ Hcb Hpost demo_context late_wcs [] []) as Hrun.
    assert (match poll (Some late_wcs) demo_context with
      | Throw (SystemError e) c => (e, mReceiveQueue (mDevice c), mSendBufferQueue (pool_of (c_sockets c)))
      | _ => (0, [], []) end = (errc_not_connected, [0], [1; 0])) as Hc by (vm_compute; reflexivity).
    unfold wpx in Hrun. destruct (poll (Some late_wcs) demo_context) as [r c'|[] c'| |]; try discriminate Hc. injection Hc as H1 H2 H3.
    destruct Hrun as (_ & before & rest & Hw & Hd & own' & _ & Hp).
    + repeat constructor; cbn; intros; (discriminate || reflexivity || lia).
    + exact demo_ctx_wf.
    + rewrite app_nil_r in Hd. exists c', before, rest. split; [by rewrite H1|]. repeat (split; [assumption|]). assumption.
Defined.

(** A batching socket after its [shutdown], with the flushed send of buffer 1. *)
Definition closing_context : context (world unit) :=
  Context (with_sock (set_state SHUTDOWN (w_sock demo_world)) demo_world) (Device 2 64 (Region 8192 128 2 2) [0; 1]) 4
    {[ 5 := 0%nat ]} [] {[ 0%nat := 5 ]} false false.

Definition flushed : ibv_wc := Wc (workRequestId_build 0 1 SEND) 5 IBV_WC_SEND 0 0 5.

#[local] Instance silent : MessageHandler unit := {|
  onSocketConnected := fun _ => ret tt; onMessage := fun _ _ rd => ret rd; onSocketDisconnected := ret tt |}.

Lemma late_completion_stops_poll_witness :
  exists c', @poll _ _ (@batching_callbacks unit verbs_ok silent 3) completion_verbs_ok (Some [flushed]) closing_context =
    Throw (SystemError errc_not_connected) c' /\ pool_of (c_sockets c') = pool_of (c_sockets closing_context).
Proof.
  destruct (@late_completion_stops_poll unit verbs_ok silent completion_verbs_ok 3 closing_context flushed [] 0)
    as (c' & Hrun & Hp & _).
  - reflexivity.
  - done.
  - done.
  - left. reflexivity.
  - exists c'. split; [exact Hrun|exact Hp].
Defined.

Lemma failed_immediate_loses_error_witness :
  processWorkComplete (Wc (workRequestId_build 0 1 RECEIVE) 5 IBV_WC_RECV_RDMA_WITH_IMM 0 3 5) demo_context =
  processWorkComplete (Wc (workRequestId_build 0 1 RECEIVE) 0 IBV_WC_RECV_RDMA_WITH_IMM 0 3 5) demo_context.
Proof. apply (failed_immediate_loses_error demo_context); reflexivity. Defined.

End Demo.
