(* ===== verification/SocketEvents.v ===== *)
(** * Connection events of a socket

    The callbacks of [InfinibandSocketImpl] in [libs/infinio/src/InfinibandSocket.cpp] that the event loop of the connection
    manager schedules on the socket's processor, with the batching socket as their handler: from the resolution of the
    address to the drained queue pair.  Each definition is the task the callback enqueues. *)

From S2P Require Import Prelude Memory ByteBuffer Ids ErrorCode IbBuffer IbSocket Batching BatchingSpec BatchingFlow.

Section Events.
Context {U : Type} `{Verbs} `{MessageHandler U}.
Abbreviation M := (St (world U)).
Implicit Types w : world U.

Definition onAddressResolved : M unit :=
  let! w := get in
  let res := rdma_resolve_route (w_net w) in
  if res =? 0 then ret tt else onConnected [] (generic_error_code res).

(** [rdma_connect] of [onRouteResolved]. *)
Definition connectRoute : M unit :=
  let! w := get in
  let res := rdma_connect (w_net w) in
  if res =? 0 then ret tt
  else
    do! on_net removeConnection in
    onConnected [] (generic_error_code res).

Definition onRouteResolved : M unit := fun w =>
  match on_net addConnection w with
  | Ok _ w => connectRoute w
  | Throw (SystemError code) w => onConnected [] (generic_error_code code) w
  | Throw e w => Throw e w
  | UB => UB
  | NoFuel => NoFuel
  end.

Definition onResolutionError (err : network_errors) : M unit := onConnected [] (network_error_code err).

Definition onConnectionError (err : network_errors) : M unit :=
  do! on_net removeConnection in onConnected [] (network_error_code err).

Definition onConnectionRejected (data : list Z) : M unit :=
  do! on_net removeConnection in onConnected data (generic_error_code errc_connection_refused).

Definition onConnectionEstablished (data : list Z) : M unit := onConnected data no_error.

Definition onSocketDisconnectEvent : M unit := onDisconnect.

Definition onTimewaitExit : M unit := on_net drainConnection.

(** [onDrained], called by the completion context for a socket in its draining queue. *)
Definition onSocketDrained : M unit :=
  do! on_net removeConnection in onDisconnected.

(** ** Failed connections and late events *)

(** The handler is told of an error in state [CONNECTING]: the socket becomes [DISCONNECTED], and then [shutdown] throws. *)
Lemma onConnected_fails data ec w :
  mState (w_sock w) = CONNECTING -> ec_bool ec = true ->
  onConnected data ec w = Throw (SystemError errc_not_connected) (with_sock (set_state DISCONNECTED (w_sock w)) w).
Proof.
  intros Hs He. unfold onConnected, bind at 1, sock. rewrite Hs, He. unfold bind, massert. rewrite bool_decide_true by done.
  unfold ret, smod, handleSocketError, bshutdown, bind, sock. by cbn.
Qed.

Lemma removeConnection_run w :
  exists n, on_net removeConnection w = Ok tt (with_net n w) /\ n_qp n = false /\ n_open n = n_open (w_net w).
Proof.
  unfold on_net, removeConnection, bind, get, put, ret. destruct (n_qp (w_net w)) eqn:E; by eexists.
Qed.

(** The events that report a failed connection attempt. *)
Inductive connect_failure w : M unit -> Prop :=
  | fail_route : rdma_resolve_route (w_net w) <> 0 -> connect_failure w onAddressResolved
  | fail_qp : n_qp (w_net w) = false -> rdma_create_qp (w_net w) <> 0 -> connect_failure w onRouteResolved
  | fail_connect : rdma_create_qp (w_net w) = 0 -> rdma_connect (set_qp true (w_net w)) <> 0 -> connect_failure w onRouteResolved
  | fail_resolution err : connect_failure w (onResolutionError err)
  | fail_connection err : connect_failure w (onConnectionError err)
  | fail_rejected data : connect_failure w (onConnectionRejected data).

Definition gives_up w w' : Prop :=
  mState (w_sock w') = DISCONNECTED /\ w_user w' = w_user w /\ n_open (w_net w') = n_open (w_net w).

Lemma generic_error_set code : code <> 0 -> ec_bool (generic_error_code code) = true.
Proof. intros Hc. unfold ec_bool. cbn. by apply negb_true_iff, Z.eqb_neq. Qed.

Lemma remove_and_fail data ec w :
  mState (w_sock w) = CONNECTING -> ec_bool ec = true ->
  exists w', (do! on_net removeConnection in onConnected data ec) w = Throw (SystemError errc_not_connected) w' /\
    gives_up w w' /\ n_qp (w_net w') = false.
Proof.
  intros Hs He. destruct (removeConnection_run w) as (n & Hr & Hq & Ho). unfold bind. rewrite Hr.
  rewrite onConnected_fails by done. by eexists.
Qed.

(** no failure of a connection attempt is ever reported to the application.  Whatever step of the attempt fails (route, queue
    pair, connect, the resolution, the connection, or a rejection by the peer), the task destroys the queue pair, marks the socket
    [DISCONNECTED] and then throws [not_connected] into the poll loop: the derived class gets no callback.  A peer that disconnects after
    the local [shutdown] makes its task throw in the same way. *)
Theorem connection_events_throw w :
  (forall ev, mState (w_sock w) = CONNECTING -> connect_failure w ev ->
    exists w', ev w = Throw (SystemError errc_not_connected) w' /\ gives_up w w' /\
      (n_qp (w_net w) = false -> n_qp (w_net w') = false)) /\
  (mState (w_sock w) <> CONNECTED -> onSocketDisconnectEvent w = Throw (SystemError errc_not_connected) w).
Proof.
  split.
  - intros ev Hs Hf. destruct Hf as [Hr|Hq Hr|Hq Hr|err|err|data].
    + unfold onAddressResolved, bind, get. rewrite (proj2 (Z.eqb_neq _ _) Hr).
      rewrite onConnected_fails by (done || by apply generic_error_set). by eexists.
    + unfold onRouteResolved, on_net, addConnection, check_errno, bind, get. rewrite (proj2 (Z.eqb_neq _ _) Hr). unfold throw.
      rewrite onConnected_fails by (done || by apply generic_error_set). by eexists.
    + unfold onRouteResolved, on_net at 1, addConnection, check_errno, bind at 1, get, bind at 1. rewrite Hq. cbn [Z.eqb]. unfold ret, put.
      unfold connectRoute, bind at 1, get. cbn [w_net with_net]. rewrite (proj2 (Z.eqb_neq _ _) Hr).
      edestruct (remove_and_fail [] (generic_error_code (rdma_connect (set_qp true (w_net w)))) (with_net (set_qp true (w_net w)) w))
        as (w' & Hrun & Hg & Hqp); [done|by apply generic_error_set|]. by exists w'.
    + unfold onResolutionError. rewrite onConnected_fails by (done || by destruct err). by eexists.
    + edestruct (remove_and_fail [] (network_error_code err) w) as (w' & Hrun & Hg & Hqp); [done|by destruct err|]. by exists w'.
    + edestruct (remove_and_fail data (generic_error_code errc_connection_refused) w) as (w' & Hrun & Hg & Hqp); [done..|]. by exists w'.
  - intros Hs. unfold onSocketDisconnectEvent, onDisconnect, bshutdown, bind, sock. by rewrite bool_decide_false.
Qed.

(** ** The life of a connection *)

(** The application's callbacks return and touch only its own state. *)
Definition callbacks_return : Prop :=
  (forall data w, exists u, onSocketConnected data w = Ok tt (World (w_net w) (w_sock w) (w_tasks w) u)) /\
  (forall w, exists u, onSocketDisconnected w = Ok tt (World (w_net w) (w_sock w) (w_tasks w) u)).

(** The verbs calls succeed. *)
Definition verbs_succeed : Prop := forall n k,
  rdma_resolve_addr n = 0 /\ rdma_resolve_route n = 0 /\ rdma_create_qp n = 0 /\ rdma_connect n = 0 /\
  rdma_disconnect k = 0 /\ rdma_destroy_id n = 0.

(** The events of the connection manager, and the task that [InfinibandService::processEvent]
    schedules for the socket of the event.  A request for a connection goes to the listener,
    with a new socket. *)
Inductive rdma_cm_event_type :=
  | ADDR_RESOLVED | ADDR_ERROR | ROUTE_RESOLVED | ROUTE_ERROR | CONNECT_REQUEST | CONNECT_ERROR | UNREACHABLE
  | REJECTED | ESTABLISHED | DISCONNECTED_EVENT | TIMEWAIT_EXIT | OTHER_EVENT.
Definition processEvent (event : rdma_cm_event_type) (private_data : list Z) : M unit :=
  match event with
  | ADDR_RESOLVED => onAddressResolved
  | ADDR_ERROR => onResolutionError address_resolution
  | ROUTE_RESOLVED => onRouteResolved
  | ROUTE_ERROR => onResolutionError route_resolution
  | CONNECT_REQUEST => ret tt
  | CONNECT_ERROR => onConnectionError connection_error
  | UNREACHABLE => onConnectionError unreachable
  | REJECTED => onConnectionRejected private_data
  | ESTABLISHED => onConnectionEstablished private_data
  | DISCONNECTED_EVENT => onSocketDisconnectEvent
  | TIMEWAIT_EXIT => onTimewaitExit
  | OTHER_EVENT => ret tt
  end.

(** From [connect] to the connected socket. *)
Definition connect_session (data reply : list Z) : M unit :=
  do! bconnect data in
  do! processEvent ADDR_RESOLVED [] in
  do! processEvent ROUTE_RESOLVED [] in
  processEvent ESTABLISHED reply.

(** The peer disconnects: from its event to the destruction of the socket.  No send request is outstanding, so that none
    completes with an error in between. *)
Definition remote_close : M unit :=
  do! processEvent DISCONNECTED_EVENT [] in
  do! processEvent TIMEWAIT_EXIT [] in
  do! onSocketDrained in
  destruct_socket.

Lemma connect_session_run data reply w :
  callbacks_return -> verbs_succeed -> mState (w_sock w) = DISCONNECTED -> n_open (w_net w) = true ->
  exists u, connect_session data reply w =
    Ok tt (World (set_qp true (set_data data (w_net w))) (set_state CONNECTED (w_sock w)) (w_tasks w) u).
Proof.
  intros [Hc _] Hv Hs Ho. unfold connect_session, processEvent, bconnect, socket_connect, bind at 2, sock. unfold bind at 1. rewrite Hs.
  rewrite bool_decide_true by done. cbn [negb]. unfold on_net at 1, bind, get, put, check_errno. cbn [n_open set_data]. rewrite Ho. cbn [negb].
  unfold smod, with_sock, onAddressResolved, onRouteResolved, connectRoute, addConnection, check_errno, on_net, bind, get, put.
  edestruct (Hv (w_net w) 0%nat) as (-> & _). cbn. unfold ret. cbn.
  edestruct (Hv (set_data data (w_net w)) 0%nat) as (_ & Hr & Hp & _). rewrite Hr. cbn. rewrite Hp. cbn.
  edestruct (Hv (set_qp true (set_data data (w_net w))) 0%nat) as (_ & _ & _ & Hcon & _). rewrite Hcon. cbn.
  unfold onConnectionEstablished, onConnected, smod, bind, sock. cbn.
  rewrite bool_decide_true by done. unfold massert, ret. edestruct (Hc reply) as [u Hu]. erewrite Hu. by exists u.
Qed.

(** The socket shuts down: [rdma_disconnect] reports the end of the connection on both sides. *)
Definition local_close : M unit :=
  do! bshutdown in
  processEvent DISCONNECTED_EVENT [].

Lemma remote_close_run w :
  callbacks_return -> verbs_succeed ->
  mState (w_sock w) = CONNECTED -> n_open (w_net w) = true -> n_qp (w_net w) = true ->
  exists w', remote_close w = Ok tt w' /\ mState (w_sock w') = DISCONNECTED /\
    n_qp (w_net w') = false /\ n_open (w_net w') = false /\ n_disconnects (w_net w') = S (n_disconnects (w_net w)).
Proof.
  intros [_ Hd] Hv Hs Ho Hq.
  unfold remote_close, processEvent, bind at 1, onSocketDisconnectEvent, onDisconnect. rewrite (bshutdown_connected w Hs Ho).
  unfold onTimewaitExit, onSocketDrained, drainConnection, removeConnection, on_net, bind, get, put. cbn. rewrite Hq. cbn.
  unfold onDisconnected, smod, bind. cbn. edestruct Hd as [u Hu]. erewrite Hu. cbn.
  unfold destruct_socket, sock, bind. cbn. rewrite bool_decide_false, bool_decide_true by done. unfold massert, ret, catch_system, on_net, socket_close, bind, get, check_errno, put. cbn. rewrite Ho. cbn.
  assert (forall n, rdma_destroy_id n = 0) as Hdes by (intros n; apply (Hv n 0%nat)). rewrite Hdes. cbn. by eexists.
Qed.

Lemma local_close_throws w : mState (w_sock w) = CONNECTED -> n_open (w_net w) = true ->
  exists w', local_close w = Throw (SystemError errc_not_connected) w' /\ mState (w_sock w') = SHUTDOWN /\
    n_qp (w_net w') = n_qp (w_net w) /\ n_disconnects (w_net w') = S (n_disconnects (w_net w)) /\ w_user w' = w_user w.
Proof.
  intros Hs Ho. unfold local_close, bind at 1. rewrite (bshutdown_connected w Hs Ho). eexists. split.
  - cbn [processEvent]. unfold onSocketDisconnectEvent, onDisconnect, bshutdown, bind, sock. cbn [w_sock with_sock mState set_state].
    rewrite bool_decide_false by done. reflexivity.
  - done.
Qed.

(** C17: from [connect] to the end of the connection.  On an open, disconnected socket with working verbs, [connect] and the events
    of the connection manager lead to [CONNECTED] with a queue pair.  When the peer ends the connection, the socket disconnects
    exactly once, and after the queue pair is drained it is [DISCONNECTED] without a queue pair, so that the
    destructor, which waits while the socket is in [SHUTDOWN], returns with the socket closed.  When the socket ends the connection
    itself, [shutdown] disconnects once, but the task of the event that reports the end throws [not_connected] (out of the
    poll loop): the socket stays in [SHUTDOWN] with its queue pair and the application is not told. *)
Theorem connection_lifecycle data reply w :
  callbacks_return -> verbs_succeed ->
  mState (w_sock w) = DISCONNECTED -> n_open (w_net w) = true -> n_qp (w_net w) = false ->
  exists w1, connect_session data reply w = Ok tt w1 /\ mState (w_sock w1) = CONNECTED /\
    n_qp (w_net w1) = true /\ n_data (w_net w1) = data /\
    (exists w2, remote_close w1 = Ok tt w2 /\ mState (w_sock w2) = DISCONNECTED /\
      n_qp (w_net w2) = false /\ n_open (w_net w2) = false /\ n_disconnects (w_net w2) = S (n_disconnects (w_net w))) /\
    (exists w2, local_close w1 = Throw (SystemError errc_not_connected) w2 /\ mState (w_sock w2) = SHUTDOWN /\
      n_qp (w_net w2) = true /\ n_disconnects (w_net w2) = S (n_disconnects (w_net w)) /\ w_user w2 = w_user w1).
Proof.
  intros Hc Hv Hs Ho Hq. destruct (connect_session_run data reply w Hc Hv Hs Ho) as [u Hrun]. eexists.
  split; [exact Hrun|]. split_and!; [done..| |].
  - edestruct (remote_close_run (World (set_qp true (set_data data (w_net w))) (set_state CONNECTED (w_sock w)) (w_tasks w) u))
      as (w2 & Hrun2 & ?); try done. by exists w2.
  - edestruct (local_close_throws (World (set_qp true (set_data data (w_net w))) (set_state CONNECTED (w_sock w)) (w_tasks w) u))
      as (w2 & Hrun2 & ?); try done. by exists w2.
Qed.

End Events.

Section Demo.
#[local] Existing Instance verbs_ok.

(** An application that counts its callbacks. *)
#[local] Instance counter : MessageHandler nat := {|
  onSocketConnected := fun _ w => Ok tt (World (w_net w) (w_sock w) (w_tasks w) (S (w_user w)));
  onMessage := fun _ _ rd => ret rd;
  onSocketDisconnected := fun w => Ok tt (World (w_net w) (w_sock w) (w_tasks w) (S (w_user w)))
|}.

Definition event_world (c : ConnectionState) : world nat :=
  World (Net (Mem ∅ ∅ []) (pool_make 2 64 (Region 4096 128 1 1)) true true false [] [] 0 0) (set_state c (bsock_make 8)) 0 0%nat.

Lemma connection_events_throw_witness :
  (exists w', onConnectionRejected [1] (event_world CONNECTING) = Throw (SystemError errc_not_connected) w' /\
    mState (w_sock w') = DISCONNECTED /\ w_user w' = 0%nat) /\
  onSocketDisconnectEvent (event_world SHUTDOWN) = Throw (SystemError errc_not_connected) (event_world SHUTDOWN).
Proof.
  destruct (connection_events_throw (event_world CONNECTING)) as [Hf _].
  destruct (connection_events_throw (event_world SHUTDOWN)) as [_ Hd]. split.
  - destruct (Hf (onConnectionRejected [1])) as (w' & Hrun & (Hs & Hu & _) & _); [reflexivity|apply fail_rejected|].
    exists w'. split; [exact Hrun|]. split; [exact Hs|exact Hu].
  - apply Hd. done.
Defined.

Lemma connection_lifecycle_witness :
  exists w1, connect_session [7] [8] (event_world DISCONNECTED) = Ok tt w1 /\ mState (w_sock w1) = CONNECTED /\
    (exists w2, remote_close w1 = Ok tt w2 /\ n_open (w_net w2) = false /\ n_disconnects (w_net w2) = 1%nat) /\
    exists w2, local_close w1 = Throw (SystemError errc_not_connected) w2 /\ mState (w_sock w2) = SHUTDOWN.
Proof.
  destruct (connection_lifecycle [7] [8] (event_world DISCONNECTED))
    as (w1 & Hrun & Hs & _ & _ & (w2 & Hrun2 & _ & _ & Ho & Hd) & (w3 & Hrun3 & Hs3 & _)).
  - split; [intros data w|intros w]; by eexists.
  - by intros n k.
  - reflexivity.
  - reflexivity.
  - reflexivity.
  - exists w1. split; [exact Hrun|]. split; [exact Hs|]. split.
    + exists w2. split; [exact Hrun2|]. split; [exact Ho|exact Hd].
    + exists w3. split; [exact Hrun3|exact Hs3].
Defined.

End Demo.
