(* ===== verification/TaskQueue.v ===== *)
(** * Event loop and task queues

    [libs/infinio/include/crossbow/infinio/EventProcessor.hpp] and [src/EventProcessor.cpp]: the poll loop of a processor with its local
    task queue and its shared task queue, in the order in which an [InfinibandProcessor] registers them, and any
    number of threads that enqueue tasks.  The threads interleave at every access to shared memory, to
    the event descriptor and to epoll; memory is sequentially consistent.  The queue of tasks itself is the subject of
    [SingleConsumerQueueSpec] and is a list here.

    A task is a number and the local tasks it enqueues when it runs.  Events of other descriptors (the completion channel) may
    end the epoll wait at any time. *)

From S2P Require Import Prelude.

(** A [std::function] in the shared queue. *)
Record task := Task { t_id : nat; t_local : list nat }.

(** [TaskQueue::execute]: before the write, behind it, and between the test of [mSleeping] and the signal. *)
Inductive ppc := PIdle | PWrote | PSignal.

Record producer := Producer { p_todo : list task; p_pc : ppc }.

(** Who called [TaskQueue::poll]: round [i] of [doPoll], or [prepareSleep]. *)
Inductive caller := InCycle (i : Z) | InSleep.

(** The poll thread: at the head of the loop of [doPoll], in [TaskQueue::poll] with its local [result], at the
    exchange of [prepareSleep], in [epoll_wait], and at the two accesses of [TaskQueue::wakeup]. *)
Inductive cpc :=
  | CCycle (i : Z)
  | CPoll (result : bool) (k : caller)
  | CPrepare
  | CWait
  | CWakeStore
  | CWakeRead.

Record config := Config {
  mPollCycles : Z;
  mTaskQueue : list task;
  mLocalTaskQueue : list nat;
  mSleeping : bool;
  mInterrupt : Z;            (* counter of the event descriptor *)
  e_ready : bool;            (* an edge of mInterrupt that epoll_wait has not reported yet *)
  ran : list nat;            (* tasks of the shared queue that were run, oldest first *)
  ran_local : list nat;
  poller : cpc;
  producers : list producer
}.

Definition set_tasks (q : list task) (c : config) := Config (mPollCycles c) q (mLocalTaskQueue c) (mSleeping c) (mInterrupt c) (e_ready c) (ran c) (ran_local c) (poller c) (producers c).
Definition set_sleep (b : bool) (c : config) := Config (mPollCycles c) (mTaskQueue c) (mLocalTaskQueue c) b (mInterrupt c) (e_ready c) (ran c) (ran_local c) (poller c) (producers c).
Definition set_event (n : Z) (b : bool) (c : config) := Config (mPollCycles c) (mTaskQueue c) (mLocalTaskQueue c) (mSleeping c) n b (ran c) (ran_local c) (poller c) (producers c).
Definition at_pc (p : cpc) (c : config) := Config (mPollCycles c) (mTaskQueue c) (mLocalTaskQueue c) (mSleeping c) (mInterrupt c) (e_ready c) (ran c) (ran_local c) p (producers c).
Definition set_producer (i : nat) (p : producer) (c : config) := Config (mPollCycles c) (mTaskQueue c) (mLocalTaskQueue c) (mSleeping c) (mInterrupt c) (e_ready c) (ran c) (ran_local c) (poller c) (<[i := p]> (producers c)).

(** [TaskQueue::execute(fun)], one access at a time. *)
Definition execute_step (i : nat) (c : config) : option config :=
  match producers c !! i with
  | None => None
  | Some (Producer todo pc) =>
      match pc with
      | PIdle =>
          match todo with
          | [] => None
          | t :: todo => Some (set_producer i (Producer todo PWrote) (set_tasks (mTaskQueue c ++ [t]) c))
          end
      | PWrote => Some (set_producer i (Producer todo (if mSleeping c then PSignal else PIdle)) c)
      | PSignal => Some (set_producer i (Producer todo PIdle) (set_event (u64 (mInterrupt c + 1)) true c))
      end
  end.

(** [LocalTaskQueue::poll]: all the tasks that are queued; the result says whether there were any. *)
Definition local_poll (c : config) : bool * config :=
  (match mLocalTaskQueue c with [] => false | _ => true end,
   Config (mPollCycles c) (mTaskQueue c) [] (mSleeping c) (mInterrupt c) (e_ready c) (ran c)
     (ran_local c ++ mLocalTaskQueue c) (poller c) (producers c)).

(** [LocalTaskQueue::execute] of each of [l]. *)
Definition local_execute (l : list nat) (c : config) : list nat := mLocalTaskQueue c ++ l.

(** The task [t] of the shared queue runs. *)
Definition run_task (t : task) (q : list task) (c : config) : config :=
  Config (mPollCycles c) q (local_execute (t_local t) c) (mSleeping c) (mInterrupt c) (e_ready c) (ran c ++ [t_id t])
    (ran_local c) (poller c) (producers c).

(** One [read] of [TaskQueue::poll] and the task it returns; an empty queue ends the call, and [doPoll] starts to
    count again when it had work. *)
Definition poll_step (result : bool) (k : caller) (c : config) : config :=
  match mTaskQueue c with
  | t :: q => at_pc (CPoll true k) (run_task t q c)
  | [] =>
      match k with
      | InCycle i => at_pc (CCycle (u64 ((if result then 0 else i) + 1))) c
      | InSleep => at_pc CWait c
      end
  end.

(** [TaskQueue::prepareSleep] up to its call of [poll]. *)
Definition prepareSleep_step (c : config) : config :=
  let wasSleeping := mSleeping c in
  at_pc (if wasSleeping then CWait else CPoll false InSleep) (set_sleep true c).

(** [epoll_wait] reports the edge of [mInterrupt] when there is one; [other] is an event of another descriptor. *)
Definition wait_step (other : bool) (c : config) : option config :=
  if e_ready c then Some (at_pc CWakeStore (set_event (mInterrupt c) false c))
  else if other then Some (at_pc (CCycle 0) c)
  else None.

(** [TaskQueue::wakeup]: the store of [mSleeping], then the read of the event descriptor. *)
Definition wakeup_accesses (c : config) : config :=
  match poller c with
  | CWakeStore => at_pc CWakeRead (set_sleep false c)
  | _ => at_pc (CCycle 0) (set_event 0 false c)
  end.

(** The poll thread. *)
Definition poller_step (other : bool) (c : config) : option config :=
  match poller c with
  | CCycle i =>
      if i <? mPollCycles c then
        let (had, c) := local_poll c in
        Some (at_pc (CPoll false (InCycle (if had : bool then 0 else i))) c)
      else Some (at_pc CPrepare c)
  | CPoll result k => Some (poll_step result k c)
  | CPrepare => Some (prepareSleep_step c)
  | CWait => wait_step other c
  | CWakeStore | CWakeRead => Some (wakeup_accesses c)
  end.

Inductive step : config -> config -> Prop :=
  | step_producer i c c' : execute_step i c = Some c' -> step c c'
  | step_poller other c c' : poller_step other c = Some c' -> step c c'.

(** A processor that starts its thread, and the tasks each thread will enqueue. *)
Definition init (cycles : Z) (todo : list (list task)) : config :=
  Config cycles [] [] false 0 false [] [] (CCycle 0) (map (fun l => Producer l PIdle) todo).

Definition reachable (c : config) : Prop := exists cycles todo, rtc step (init cycles todo) c.

(** ** No task is lost *)












(** ** The queue is drained *)













(** ** Schedules *)

(** [None] is a step of the poll thread, [Some i] one of thread [i]. *)
Fixpoint run_schedule (l : list (option nat)) (c : config) : option config :=
  match l with
  | [] => Some c
  | o :: l =>
      match (match o with None => poller_step false c | Some i => execute_step i c end) with
      | Some c' => run_schedule l c'
      | None => None
      end
  end.

Lemma run_schedule_rtc l : forall c c', run_schedule l c = Some c' -> rtc step c c'.
Proof.
  induction l as [|o l IH]; intros c c' Hl; cbn in Hl; [by simplify_eq|].
  destruct o as [i|]; [destruct (execute_step i c) eqn:E|destruct (poller_step false c) eqn:E]; try done.
  - eapply rtc_l; [by eapply step_producer|by apply IH].
  - eapply rtc_l; [by eapply step_poller|by apply IH].
Qed.

(** Three rounds without work, then a thread writes a task with a local task and tests [mSleeping] before [prepareSleep] sets it. *)
Definition sleepy_schedule : list (option nat) :=
  replicate 7 None ++ [Some 0%nat; Some 0%nat] ++ replicate 3 None.

Definition sleepy_init : config := init 3 [[Task 1 [7%nat]]].

(** a local task can be left behind when the processor goes to sleep.  The task that arrives between the last poll and the sleep runs in the
    poll of [prepareSleep] and enqueues a local task (as [scheduleFlush] does when the task writes a message); the local queue is not polled
    again, and with no thread left to enqueue anything the poll thread waits for ever with the local task (the
    flush) in its queue. *)
Theorem local_task_left_behind :
  exists c, reachable c /\ poller c = CWait /\ mLocalTaskQueue c = [7%nat] /\ ran c = [1%nat] /\ ran_local c = [] /\
    mTaskQueue c = [] /\ (forall i p, producers c !! i = Some p -> p = Producer [] PIdle) /\
    poller_step false c = None /\ forall i, execute_step i c = None.
Proof.
  assert (exists c, run_schedule sleepy_schedule sleepy_init = Some c /\
    c = Config 3 [] [7%nat] true 0 false [1%nat] [] CWait [Producer [] PIdle]) as (c & Hrun & ->) by (eexists; by vm_compute).
  eexists. split; [exists 3, [[Task 1 [7%nat]]]; by eapply run_schedule_rtc|]. split_and!; try done.
  - intros [|i] p Hp; cbn in Hp; by simplify_eq.
  - by intros [|i].
Qed.



