(* ===== verification/String.v ===== *)
(** * crossbow::string

    [crossbow/string.hpp], class [basic_string<char>], operation by operation over the
    byte memory of [Memory].  A string object is the 32 bytes [arr] at address [this]:
    a short string keeps its size in [arr[0]] and its characters behind it; a long
    one has [arr[0] = 127] and size, capacity and heap pointer as 64-bit words at
    offsets 8, 16 and 24.  Iterators and character pointers are addresses, so aliasing
    is that of the code.  Initializer lists and iterator ranges are pointer ranges. *)

From S2P Require Import Prelude Memory.

(** ** Standard library routines the class calls *)

(** [for (i = ...; ...; ++i) body(i)], [n] rounds. *)
Fixpoint for_loop {S} (n : nat) (i : Z) (body : Z -> St S unit) : St S unit :=
  match n with
  | O => ret tt
  | S k => do! body i in for_loop k (i + 1) body
  end.

(** Number of increments after which a pointer [p] equals [e]. *)
Definition steps_to (p e : Z) : nat := Z.to_nat (u64 (e - p)).

(** [char_traits::length]: every step visits another mapped address, so a scan of
    more steps than there are mapped bytes has left the memory. *)
Definition traits_length (s : Z) : St mem Z := fun m =>
  cstrlen (S (base.size (bytes m))) s m.

(** [char_traits::compare]: the sign of the first difference. *)
Fixpoint traits_compare (n : nat) (p q : Z) : St mem Z :=
  match n with
  | O => ret 0
  | S k =>
      let! a := load p in
      let! b := load q in
      if a <? b then ret (-1) else if b <? a then ret 1 else traits_compare k (p + 1) (q + 1)
  end.

(** [char_traits::find]: the address of the first [ch], or 0. *)
Fixpoint traits_find (n : nat) (p ch : Z) : St mem Z :=
  match n with
  | O => ret 0
  | S k => let! c := load p in if c =? ch then ret p else traits_find k (p + 1) ch
  end.

Module Str.

Definition npos : Z := SIZE_MAX.
Definition ARR_SIZE : Z := 32.
Definition SIZE_OFFSET : Z := 8.
Definition CAPACITY_OFFSET : Z := 16.
Definition POINTER_OFFSET : Z := 24.
Definition nullchar : Z := 127.
Definition max_in_buffer_size : Z := 30.

Section Ops.
Context `{Allocator}.

(** ** Representation *)

(** [arr[0] != nullchar]. *)
Definition in_buffer (this : Z) : St mem bool :=
  let! b := load this in ret (negb (b =? nullchar)).

Definition set_capacity (this c : Z) : St mem unit := store_word 8 (this + CAPACITY_OFFSET) c.

Definition get_capacity (this : Z) : St mem Z :=
  let! sso := in_buffer this in
  if sso then ret max_in_buffer_size else load_word 8 (this + CAPACITY_OFFSET).

Definition set_size (this count : Z) : St mem unit :=
  let! sso := in_buffer this in
  if sso then store this (u8 count) else store_word 8 (this + SIZE_OFFSET) count.

(** [size_type(arr[0])]: [char] is signed. *)
Definition get_size (this : Z) : St mem Z :=
  let! b := load this in
  if negb (b =? nullchar) then ret (u64 (to_signed 8 b)) else load_word 8 (this + SIZE_OFFSET).

Definition get_ptr (this : Z) : St mem Z :=
  let! sso := in_buffer this in
  if sso then ret (this + 1) else load_word 8 (this + POINTER_OFFSET).

Definition set_ptr (this ptr : Z) : St mem unit :=
  do! store_word 8 (this + POINTER_OFFSET) ptr in
  let! nptr := get_ptr this in
  massert (nptr =? ptr).

Definition size (this : Z) : St mem Z := get_size this.
Definition length_ (this : Z) : St mem Z := size this.
Definition empty (this : Z) : St mem bool := let! s := size this in ret (s =? 0).
Definition max_size : Z := u64 (alloc_max_size - 1).
Definition capacity (this : Z) : St mem Z :=
  let! sso := in_buffer this in
  if sso then ret max_in_buffer_size else get_capacity this.

Definition begin (this : Z) : St mem Z := get_ptr this.
Definition end_ (this : Z) : St mem Z :=
  let! p := get_ptr this in let! s := size this in ret (u64 (p + s)).
Definition data (this : Z) : St mem Z := begin this.
Definition c_str (this : Z) : St mem Z := begin this.

Definition invariants (this : Z) : St mem bool :=
  let! s := size this in let! c := capacity this in ret (s <=? c).

(** [init(count)]. *)
Definition init (this count : Z) : St mem unit :=
  if count <=? max_in_buffer_size then
    do! store this (u8 count) in
    let! e := end_ this in store e 0
  else
    do! store this nullchar in
    do! set_size this count in
    let! ptr := allocate (u64 (count + 1)) in
    do! set_capacity this count in
    do! set_ptr this ptr in
    let! e := end_ this in store e 0.

(** ** Constructors and destructor *)

Definition clear_arr (this : Z) : St mem unit := memset this 0 32.

Definition ctor_default (this : Z) : St mem unit :=
  do! clear_arr this in store this 0.

Definition ctor_fill (this count ch : Z) : St mem unit :=
  do! init this count in
  let! ptr := get_ptr this in
  do! for_loop (Z.to_nat count) 0 (fun i => store (ptr + i) ch) in
  store (ptr + count) 0.

Definition ctor_substr (this other pos count : Z) : St mem unit :=
  let! osize := size other in
  if osize <? pos then throw OutOfRange
  else
    do! (if pos =? osize then clear_arr this else ret tt) in
    let cnt := if osize - pos <? count then osize - pos else count in
    do! init this cnt in
    let! ptr := get_ptr this in
    let! optr := get_ptr other in
    do! copy (Z.to_nat cnt) (optr + pos) ptr in
    store (ptr + cnt) 0.

Definition ctor_range (this s count : Z) : St mem unit :=
  do! init this count in
  let! ptr := get_ptr this in
  do! copy (Z.to_nat count) s ptr in
  store (ptr + count) 0.

Definition ctor_cstr (this s : Z) : St mem unit :=
  let! count := traits_length s in
  do! init this count in
  let! ptr := get_ptr this in
  copy (Z.to_nat count) s ptr.

(** [basic_string(InputIt first, InputIt last)]. *)
Definition ctor_iter (this first last : Z) : St mem unit :=
  let count := last - first in
  do! init this (u64 count) in
  let! ptr := get_ptr this in
  do! for_loop (Z.to_nat count) 0 (fun i => let! c := load (first + i) in store (ptr + i) c) in
  store (ptr + count) 0.

Definition ctor_copy (this other : Z) : St mem unit :=
  let! sso := in_buffer other in
  if sso then memcpy this other 32
  else
    let! count := size other in
    do! init this count in
    let! b := begin other in
    let! e := end_ other in
    let! p := begin this in
    do! copy (steps_to b e) b p in
    let! p := get_ptr this in
    store (p + count) 0.

(** Copy constructor with an allocator argument. *)
Definition ctor_copy_alloc (this other : Z) : St mem unit :=
  let! sso := in_buffer other in
  if sso then memcpy this other 32
  else
    let! count := size other in
    do! init this count in
    let! b := begin other in
    let! e := end_ other in
    let! p := begin this in
    do! copy (steps_to b e) b p in
    let! e := end_ this in
    store e 0.

Definition ctor_move (this other : Z) : St mem unit :=
  do! memcpy this other 32 in clear_arr other.

Definition ctor_ilist (this first n : Z) : St mem unit :=
  do! init this n in
  let! p := begin this in
  copy (Z.to_nat n) first p.

Definition dtor (this : Z) : St mem unit :=
  let! b := load this in
  if b =? nullchar then
    let! p := get_ptr this in
    let! c := capacity this in
    do! deallocate p c in
    store this 0
  else ret tt.

(** ** Capacity *)

Definition reserve (this new_cap : Z) : St mem unit :=
  let! c := capacity this in
  if new_cap <=? c then ret tt
  else if max_size <? new_cap then throw LengthError
  else
    let! sz := size this in
    let new_cap := Z.max (u64 (c * 2)) new_cap in
    let! nptr := allocate (u64 (new_cap + 1)) in
    if nptr =? 0 then throw BadAlloc
    else
      let! ptr := get_ptr this in
      let! n := size this in
      do! copy (Z.to_nat (n + 1)) ptr nptr in
      let! sso := in_buffer this in
      do! (if sso then
             do! store this nullchar in set_size this sz
           else
             let! c := get_capacity this in deallocate ptr c) in
      do! set_capacity this new_cap in
      set_ptr this nptr.

Definition shrink_to_fit (this : Z) : St mem unit :=
  let! s := size this in
  let! c := capacity this in
  if s =? c then ret tt
  else if c <=? max_in_buffer_size then ret tt
  else if s <=? max_in_buffer_size then
    let! ptr := get_ptr this in
    do! store this (u8 s) in
    do! copy (Z.to_nat s) ptr (this + 1) in
    do! deallocate ptr c in
    store (this + (1 + s)) 0
  else
    let! nptr := allocate (u64 (s + 1)) in
    let! b := begin this in
    let! e := end_ this in
    do! copy (steps_to b e) b nptr in
    do! store (nptr + s) 0 in
    let! ptr := get_ptr this in
    do! deallocate ptr c in
    do! set_ptr this nptr in
    set_capacity this s.

(** ** Assignment *)

Definition assign_copy (this str : Z) : St mem unit :=
  let! n := size str in
  do! reserve this n in
  let! b := begin str in
  let! e := end_ str in
  let! p := begin this in
  do! copy (steps_to b e) b p in
  let! n := size str in
  do! set_size this n in
  let! e := end_ this in store e 0.

Definition assign_move (this str : Z) : St mem unit :=
  let! b := load this in
  do! (if b =? nullchar then
         let! p := get_ptr this in let! n := size this in deallocate p n
       else ret tt) in
  do! memcpy this str 32 in
  clear_arr str.

(** [assign(const_pointer s, size_type count)], also [operator=(initializer_list)]
    and [operator=(std::string&)]. *)
Definition assign_range (this s count : Z) : St mem unit :=
  do! reserve this count in
  let! p := begin this in
  do! copy (Z.to_nat count) s p in
  do! set_size this count in
  let! e := end_ this in store e 0.

Definition assign_cstr (this s : Z) : St mem unit :=
  let! n := traits_length s in
  do! reserve this n in
  let! p := begin this in
  do! copy (Z.to_nat n) s p in
  do! set_size this n in
  let! e := end_ this in store e 0.

Definition assign_char (this ch : Z) : St mem unit :=
  do! reserve this 1 in
  do! set_size this 1 in
  let! p := begin this in
  do! store p ch in
  let! e := end_ this in store e 0.

Definition assign_fill (this count ch : Z) : St mem unit :=
  do! reserve this count in
  let! iter := begin this in
  do! for_loop (Z.to_nat count) 0 (fun i => store (iter + i) ch) in
  do! set_size this count in
  let! e := end_ this in store e 0.

(** [assign(const basic_string&)] flows off the end of a function that returns a
    reference. *)
Definition assign_str (this str : Z) : St mem unit :=
  do! assign_copy this str in ub.

Definition assign_substr (this str pos count : Z) : St mem unit :=
  let! os := size str in
  if os <? pos then throw OutOfRange
  else
    let cnt := if os <? u64 (pos + count) then os - pos else count in
    let! p := c_str str in
    assign_range this (p + pos) cnt.

(** [assign(InputIt first, InputIt last)]. *)
Definition assign_iter (this first last : Z) : St mem unit :=
  let s := u64 (last - first) in
  do! reserve this s in
  let! p := begin this in
  do! copy (steps_to first last) first p in
  do! set_size this s in
  let! e := end_ this in store e 0.

(** ** Element access *)

Definition at_ (this pos : Z) : St mem Z :=
  let! n := size this in
  if n <=? pos then throw OutOfRange else let! p := begin this in load (p + pos).
Definition subscript (this pos : Z) : St mem Z := let! p := begin this in ret (p + pos).
Definition front (this : Z) : St mem Z := let! p := begin this in load p.
Definition back (this : Z) : St mem Z := let! e := end_ this in load (e - 1).

(** ** Modification *)

Definition clear (this : Z) : St mem unit :=
  let! p := get_ptr this in
  do! store p 0 in
  set_size this 0.

(** The loop that opens a gap: from the last character backwards. *)
Definition shift_up (ptr sz nsize n : Z) : St mem unit :=
  for_loop (Z.to_nat n) 0 (fun i =>
    let! c := load (ptr + (sz - 1 - i)) in store (ptr + (nsize - 1 - i)) c).

(** The body the overloads of [insert] share: [reserve(nsize)], the new NUL, the shift
    of the last [moved] characters, the loop [fill] over the gap, the new size. *)
Definition insert_gap (this sz nsize moved : Z) (fill : Z -> St mem unit) : St mem unit :=
  do! reserve this nsize in
  let! ptr := get_ptr this in
  do! store (ptr + nsize) 0 in
  do! shift_up ptr sz nsize moved in
  do! fill ptr in
  set_size this nsize.

Definition insert_fill (this index count ch : Z) : St mem unit :=
  let! sz := size this in
  if sz <? index then throw OutOfRange
  else
    let! s := size this in
    insert_gap this sz (u64 (s + count)) (sz - index) (fun ptr =>
      for_loop (Z.to_nat count) 0 (fun i => store (ptr + (index + i)) ch)).

Definition insert_range (this index s count : Z) : St mem unit :=
  let! sz := size this in
  if sz <? index then throw OutOfRange
  else
    insert_gap this sz (u64 (sz + count)) (sz - index) (fun ptr =>
      for_loop (Z.to_nat count) 0 (fun i =>
        let! c := load (s + i) in store (ptr + (index + i)) c)).

Definition insert_cstr (this index s : Z) : St mem unit :=
  let! count := traits_length s in insert_range this index s count.

Definition insert_str (this index str : Z) : St mem unit :=
  let! p := get_ptr str in let! n := size str in insert_range this index p n.

Definition insert_substr (this index str index_str count : Z) : St mem unit :=
  let! n := size str in
  if n <? index_str then throw OutOfRange
  else
    let cnt := Z.min count (n - index_str) in
    let! p := get_ptr str in
    insert_range this index (p + index_str) cnt.

(** The iterator overloads return an iterator to the first inserted character. *)
Definition insert_it_char (this pos ch : Z) : St mem Z :=
  let! b := begin this in
  let p := pos - b in
  do! insert_fill this (u64 p) 1 ch in
  let! b := begin this in ret (b + p).

Definition insert_it_fill (this pos count ch : Z) : St mem Z :=
  let! b := begin this in
  let p := pos - b in
  do! insert_fill this (u64 p) count ch in
  let! b := begin this in ret (b + p).

Definition insert_it_range (this pos first last : Z) : St mem Z :=
  let! sz := size this in
  let! b := begin this in
  let index := pos - b in
  let count := last - first in
  if count <? 0 then let! b := begin this in ret (b + index)
  else
    do! insert_gap this sz (u64 (sz + count)) (u64 (sz - index)) (fun ptr =>
      for_loop (Z.to_nat count) 0 (fun i =>
        let! c := load (first + i) in store (ptr + (index + i)) c)) in
    let! b := begin this in ret (b + index).

(** The loop of [erase]: moves the tail down until [l] reaches [end()]. *)
Fixpoint erase_loop (fuel : nat) (this f l : Z) : St mem unit :=
  match fuel with
  | O => nofuel
  | S k =>
      let! e := end_ this in
      if l =? e then ret tt
      else
        let! c := load l in
        do! store f c in
        erase_loop k this (f + 1) (l + 1)
  end.

Definition erase_it (this first last : Z) : St mem Z :=
  let count := last - first in
  let! b := begin this in
  let index := first - b in
  let! b := begin this in
  let f := b + index in
  let l := f + count in
  let! e := end_ this in
  do! erase_loop (S (steps_to l e)) this f l in
  let! n := size this in
  do! set_size this (u64 (n - count)) in
  let! n := size this in
  let! p := subscript this n in
  do! store p 0 in
  ret f.

Definition erase_pos (this position : Z) : St mem Z := erase_it this position (position + 1).

Definition erase (this index count : Z) : St mem unit :=
  let! n := size this in
  if n <? index then throw OutOfRange
  else
    let! b := begin this in
    let first := b + index in
    let! last :=
      if (count =? npos) || (n <=? count) || (n <? u64 (index + count))
      then end_ this else ret (first + count) in
    do! erase_it this first last in
    ret tt.

Definition push_back (this c : Z) : St mem unit :=
  let! n := size this in
  let! cap := capacity this in
  do! (if n =? cap then let! n := size this in reserve this (u64 (n + 1)) else ret tt) in
  let! n := size this in
  let! p := subscript this n in
  do! store p c in
  let! n := size this in
  do! set_size this (u64 (n + 1)) in
  let! n := size this in
  let! p := subscript this n in
  store p 0.

Definition pop_back (this : Z) : St mem unit :=
  let! n := size this in
  do! set_size this (u64 (n - 1)) in
  let! n := size this in
  let! p := subscript this n in
  store p 0.

Definition append_iter (this first last : Z) : St mem unit :=
  let! e := end_ this in
  do! insert_it_range this e first last in
  ret tt.

Definition append_fill (this count ch : Z) : St mem unit :=
  let! n := size this in insert_fill this n count ch.

Definition append_str (this str : Z) : St mem unit :=
  let! b := begin str in let! e := end_ str in append_iter this b e.

(** [append(str, pos, count)]: [str] is not used. *)
Definition append_substr (this str pos count : Z) : St mem unit :=
  let! b := begin this in
  let b := b + count in
  let! n := size this in
  let! e := if n <? u64 (pos + count) then end_ this else ret (b + count) in
  append_iter this b e.

Definition append_range (this s count : Z) : St mem unit := append_iter this s (s + count).

Definition append_cstr (this s : Z) : St mem unit :=
  let! count := traits_length s in append_iter this s (s + count).

(** ** Comparison *)

(** [count1 - count2] is a [size_t] and the result an [int]. *)
Definition compare (this pos1 count1 s count2 : Z) : St mem Z :=
  let! ts := size this in
  if ts <? pos1 then throw OutOfRange
  else
    let count1 := if ts <? u64 (pos1 + count1) then ts - pos1 else count1 in
    let rlen := Z.min count1 count2 in
    let! d := data this in
    let! res := traits_compare (Z.to_nat rlen) (d + pos1) s in
    ret (to_signed 32 (if res =? 0 then u64 (count1 - count2) else u64 res)).

Definition compare_str (this str : Z) : St mem Z :=
  let! p := c_str str in let! n := size str in compare this 0 npos p n.

Definition compare_pos_str (this pos count str : Z) : St mem Z :=
  let! p := c_str str in let! n := size str in compare this pos count p n.

Definition compare_substr (this pos1 count1 str pos2 count2 : Z) : St mem Z :=
  let! sz := size str in
  if sz <? pos2 then throw OutOfRange
  else
    let cnt2 := if sz <? u64 (pos2 + count2) then sz - pos2 else count2 in
    let! p := c_str str in
    compare this pos1 count1 (p + pos2) cnt2.

Definition compare_cstr (this s : Z) : St mem Z :=
  let! n := traits_length s in compare this 0 npos s n.

Definition compare_pos_cstr (this pos1 count1 s : Z) : St mem Z :=
  let! n := traits_length s in compare this pos1 count1 s n.

(** ** Replacement, substrings, resizing *)

(** The common prefix of [replace]: overwrites until one range ends; returns both
    iterators. *)
Fixpoint replace_loop (fuel : nat) (b e first2 last2 : Z) : St mem (Z * Z) :=
  match fuel with
  | O => nofuel
  | S k =>
      if negb (b =? e) && negb (first2 =? last2) then
        let! c := load first2 in
        do! store b c in
        replace_loop k (b + 1) e (first2 + 1) last2
      else ret (b, first2)
  end.

(** [replace(first, last, first2, last2)]. *)
Definition replace_it_range (this first last first2 last2 : Z) : St mem unit :=
  let! cb := begin this in
  let! b := begin this in
  let b := b + (first - cb) in
  let e := b + (last - first) in
  let! (b, first2) := replace_loop (S (steps_to b e)) b e first2 last2 in
  if negb (b =? e) then do! erase_it this b e in ret tt
  else if negb (first2 =? last2) then do! insert_it_range this e first2 last2 in ret tt
  else ret tt.

Definition replace_it_str (this first last str : Z) : St mem unit :=
  let! b := begin str in let! e := end_ str in replace_it_range this first last b e.

Definition replace_it_cstr_n (this first last cstr count2 : Z) : St mem unit :=
  replace_it_range this first last cstr (cstr + count2).

Definition replace_it_cstr (this first last cstr : Z) : St mem unit :=
  let! cnt := traits_length cstr in replace_it_cstr_n this first last cstr cnt.

(** The range [pos, count] of the string: [_begin] and [_end]. *)
Definition sub_range (this pos count : Z) : St mem (Z * Z) :=
  let! p := begin this in
  let b := p + pos in
  let! e := end_ this in
  let! n := size this in
  ret (b, if u64 (pos + count) <? n then b + count else e).

Definition replace_str (this pos count str : Z) : St mem unit :=
  let! n := size this in
  if n <? pos then throw OutOfRange
  else
    let! (b, e) := sub_range this pos count in
    let! sb := begin str in let! se := end_ str in
    replace_it_range this b e sb se.

Definition replace_substr (this pos count str pos2 count2 : Z) : St mem unit :=
  let! n := size this in
  let! n2 := size str in
  if (n <? pos) || (n2 <? pos2) then throw OutOfRange
  else
    let! (b, e) := sub_range this pos count in
    let! (first2, last2) := sub_range str pos2 count2 in
    replace_it_range this b e first2 last2.

(** No range check here. *)
Definition replace_cstr_n (this pos count cstr count2 : Z) : St mem unit :=
  let! (b, e) := sub_range this pos count in
  replace_it_range this b e cstr (cstr + count2).

Definition replace_cstr (this pos count cstr : Z) : St mem unit :=
  let! cnt := traits_length cstr in replace_cstr_n this pos count cstr cnt.

(** The overwriting loop of [replace(pos, count, count2, ch)]; returns the iterator
    and what is left of [count2]. *)
Fixpoint refill_loop (fuel : nat) (b e count2 ch : Z) : St mem (Z * Z) :=
  match fuel with
  | O => nofuel
  | S k =>
      if negb (count2 =? 0) && negb (b =? e) then
        do! store b ch in
        refill_loop k (b + 1) e (count2 - 1) ch
      else ret (b, count2)
  end.

Definition replace_fill (this pos count count2 ch : Z) : St mem unit :=
  let! n := size this in
  if n <? pos then throw OutOfRange
  else
    let! p := begin this in
    let b := p + pos in
    let! e := end_ this in
    let! n := size this in
    let e := if u64 (pos + count) <? n then b + count else e in
    let! (b, count2) := refill_loop (S (steps_to b e)) b e count2 ch in
    if negb (count2 =? 0) then do! insert_it_fill this b count2 ch in ret tt
    else if negb (b =? e) then do! erase_it this b e in ret tt
    else ret tt.

Definition replace_it_fill (this first last count2 ch : Z) : St mem unit :=
  let! b := begin this in
  replace_fill this (u64 (first - b)) (u64 (last - first)) count2 ch.

(** [substr(pos, count)], built at address [res]. *)
Definition substr (res this pos count : Z) : St mem unit := ctor_substr res this pos count.

(** [copy(dest, count, pos)]: the number of characters copied. *)
Fixpoint copy_loop (fuel : nat) (b e dest count res : Z) : St mem Z :=
  match fuel with
  | O => nofuel
  | S k =>
      if negb (b =? e) && negb (count =? 0) then
        let! c := load b in
        do! store dest c in
        copy_loop k (b + 1) e (dest + 1) (count - 1) (res + 1)
      else ret res
  end.

Definition str_copy (this dest count pos : Z) : St mem Z :=
  let! n := size this in
  if n <? pos then throw OutOfRange
  else
    let! p := begin this in
    let! e := end_ this in
    copy_loop (S (steps_to (p + pos) e)) (p + pos) e dest count 0.

Definition resize (this count ch : Z) : St mem unit :=
  let! old_size := size this in
  do! reserve this count in
  let! b := begin this in
  do! store (b + count) 0 in
  let! b := end_ this in
  do! set_size this count in
  if count <=? old_size then ret tt
  else
    let! e := end_ this in
    for_loop (steps_to b e) 0 (fun i => store (b + i) ch).

Definition resize_default (this count : Z) : St mem unit := resize this count 0.

Definition swap (this other : Z) : St mem unit :=
  let! tarr := load_bytes 32 this in
  let! oarr := load_bytes 32 other in
  do! store_bytes this oarr in
  store_bytes other tarr.

(** ** Search

    A pattern is read through [rd]: a pointer, or the address of a character. *)

Definition at_ptr (s i : Z) : St mem Z := load (s + i).
Definition at_char (ch i : Z) : St mem Z := if i =? 0 then ret ch else ub.

(** How many of the first [n] pattern characters match at [b]. *)
Fixpoint match_count (n : nat) (rd : Z -> St mem Z) (i b : Z) : St mem Z :=
  match n with
  | O => ret 0
  | S k =>
      let! x := rd i in
      let! y := load (b + i) in
      if x =? y then let! r := match_count k rd (i + 1) b in ret (r + 1) else ret 0
  end.

(** [find(s, pos, count)]. *)
Fixpoint find_loop (fuel : nat) (s count b e res : Z) : St mem Z :=
  match fuel with
  | O => nofuel
  | S k =>
      if b + count =? e then ret npos
      else
        let! matches := match_count (Z.to_nat count) (at_ptr s) 0 b in
        if matches =? count then ret res else find_loop k s count (b + 1) e (res + 1)
  end.

Definition find (this s pos count : Z) : St mem Z :=
  let! sz := size this in
  if sz <=? pos then ret npos
  else
    let! p := begin this in
    let b := p + pos in
    let! e := end_ this in
    find_loop (S (steps_to (b + count) e)) s count b e pos.

Definition find_cstr (this s pos : Z) : St mem Z :=
  let! n := traits_length s in find this s pos n.
Definition find_str (this str pos : Z) : St mem Z :=
  let! p := c_str str in let! n := size str in find this p pos n.

(** [find(ch, pos)]. *)
Definition find_char (this ch pos : Z) : St mem Z :=
  let! n := size this in
  if n <=? pos then ret npos
  else
    let! ptr := c_str this in
    let! res := traits_find (Z.to_nat (n - pos)) (ptr + pos) ch in
    ret (if res =? 0 then npos else u64 (res - ptr)).

(** [rfind(s, pos, count)]: from [begin() + pos] down to [begin()]. *)
Fixpoint rfind_loop (n : nat) (rd : Z -> St mem Z) (count b iter : Z) : St mem Z :=
  match n with
  | O => ret npos
  | S k =>
      let! matches := match_count (Z.to_nat count) rd 0 iter in
      if matches =? count then ret (u64 (iter - b)) else rfind_loop k rd count b (iter - 1)
  end.

Definition rfind_gen (this : Z) (rd : Z -> St mem Z) (pos count : Z) : St mem Z :=
  let! sz := size this in
  let pos := if sz <=? pos then sz else pos in
  let! b := begin this in
  if sz <? count then ret npos
  else rfind_loop (Z.to_nat (pos + 1)) rd count b (b + pos).

Definition rfind (this s pos count : Z) : St mem Z := rfind_gen this (at_ptr s) pos count.
Definition rfind_str (this str pos : Z) : St mem Z :=
  let! p := c_str str in let! n := size str in rfind this p pos n.
Definition rfind_cstr (this s pos : Z) : St mem Z :=
  let! n := traits_length s in rfind this s pos n.
Definition rfind_char (this ch pos : Z) : St mem Z := rfind_gen this (at_char ch) pos 1.

(** Whether one of the [n] pattern characters is [c]. *)
Fixpoint one_of (n : nat) (rd : Z -> St mem Z) (i c : Z) : St mem bool :=
  match n with
  | O => ret false
  | S k => let! x := rd i in if c =? x then ret true else one_of k rd (i + 1) c
  end.

(** Scans [n] positions from [iter] in direction [step] for a character that is
    (or, with [want = false], is not) one of the pattern. *)
Fixpoint scan (n : nat) (rd : Z -> St mem Z) (count : Z) (want : bool) (step p iter : Z) : St mem Z :=
  match n with
  | O => ret npos
  | S k =>
      let! c := load iter in
      let! found := one_of (Z.to_nat count) rd 0 c in
      if Bool.eqb found want then ret (u64 (iter - p)) else scan k rd count want step p (iter + step)
  end.

(** [find_first_of] and [find_first_not_of]: forward from [pos] to [end()]. *)
Definition first_gen (want : bool) (this : Z) (rd : Z -> St mem Z) (pos count : Z) : St mem Z :=
  let! n := size this in
  if n <=? pos then ret npos
  else let! p := begin this in scan (Z.to_nat (n - pos)) rd count want 1 p (p + pos).

Definition find_first_of (this s pos count : Z) : St mem Z := first_gen true this (at_ptr s) pos count.
Definition find_first_of_str (this str pos : Z) : St mem Z :=
  let! p := c_str str in let! n := size str in find_first_of this p pos n.
Definition find_first_of_cstr (this s pos : Z) : St mem Z :=
  let! n := traits_length s in find_first_of this s pos n.
Definition find_first_of_char (this ch pos : Z) : St mem Z := first_gen true this (at_char ch) pos 1.

Definition find_first_not_of (this s pos count : Z) : St mem Z := first_gen false this (at_ptr s) pos count.
Definition find_first_not_of_str (this str pos : Z) : St mem Z :=
  let! p := c_str str in let! n := size str in find_first_not_of this p pos n.
Definition find_first_not_of_char (this ch pos : Z) : St mem Z := first_gen false this (at_char ch) pos 1.

(** [find_last_of] and [find_last_not_of]: backwards from
    [end() - 1 - (pos >= size() ? 0 : pos)] to [begin()]. *)
Definition last_gen (want : bool) (this : Z) (rd : Z -> St mem Z) (pos count : Z) : St mem Z :=
  let! n := size this in
  let! p := begin this in
  let start := n - 1 - (if n <=? pos then 0 else pos) in
  scan (Z.to_nat (start + 1)) rd count want (-1) p (p + start).

Definition find_last_of (this s pos count : Z) : St mem Z := last_gen true this (at_ptr s) pos count.
Definition find_last_of_str (this str pos : Z) : St mem Z :=
  let! p := c_str str in let! n := size str in find_last_of this p pos n.
Definition find_last_of_char (this ch pos : Z) : St mem Z := last_gen true this (at_char ch) pos 1.
Definition find_last_not_of (this s pos count : Z) : St mem Z := last_gen false this (at_ptr s) pos count.
Definition find_last_not_of_str (this str pos : Z) : St mem Z :=
  let! p := c_str str in let! n := size str in find_last_not_of this p pos n.
Definition find_last_not_of_cstr (this s pos : Z) : St mem Z :=
  let! n := traits_length s in find_last_not_of this s pos n.
Definition find_last_not_of_char (this ch pos : Z) : St mem Z := last_gen false this (at_char ch) pos 1.

(** ** Operators

    A result is built in a local object [res] and returned into the object [ret]: the
    functions return a reference, so the copy constructor runs, then the local dies. *)

Definition return_copy (ret_ res : Z) : St mem unit :=
  do! ctor_copy ret_ res in dtor res.

Definition plus_str_str (ret_ res lhs rhs : Z) : St mem unit :=
  do! ctor_default res in
  let! a := size lhs in let! b := size rhs in
  do! reserve res (u64 (a + b)) in
  do! append_str res lhs in
  do! append_str res rhs in
  return_copy ret_ res.

Definition plus_cstr_str (ret_ res lhs rhs : Z) : St mem unit :=
  let! s := traits_length lhs in
  do! ctor_default res in
  let! b := size rhs in
  do! reserve res (u64 (s + b)) in
  do! append_range res lhs s in
  do! append_str res rhs in
  return_copy ret_ res.

Definition plus_char_str (ret_ res lhs rhs : Z) : St mem unit :=
  do! ctor_default res in
  let! b := size rhs in
  do! reserve res (u64 (1 + b)) in
  do! append_fill res 1 lhs in
  do! append_str res rhs in
  return_copy ret_ res.

Definition plus_str_cstr (ret_ res lhs rhs : Z) : St mem unit :=
  let! s := traits_length rhs in
  do! ctor_default res in
  let! a := size lhs in
  do! reserve res (u64 (s + a)) in
  do! append_str res lhs in
  do! append_range res rhs s in
  return_copy ret_ res.

Definition plus_str_char (ret_ res lhs rhs : Z) : St mem unit :=
  do! ctor_default res in
  let! a := size lhs in
  do! reserve res (u64 (1 + a)) in
  do! append_str res lhs in
  do! append_fill res 1 rhs in
  return_copy ret_ res.

(** The overloads with an rvalue on the left append to it and copy it. *)
Definition plus_move_str (ret_ lhs rhs : Z) : St mem unit :=
  do! append_str lhs rhs in ctor_copy ret_ lhs.
Definition plus_move_cstr (ret_ lhs rhs : Z) : St mem unit :=
  do! append_cstr lhs rhs in ctor_copy ret_ lhs.
Definition plus_move_char (ret_ lhs rhs : Z) : St mem unit :=
  do! append_fill lhs 1 rhs in ctor_copy ret_ lhs.

(** [append] takes a constant reference, so an rvalue on the right is only read. *)
Definition plus_str_move (ret_ res lhs rhs : Z) : St mem unit := plus_str_str ret_ res lhs rhs.
Definition plus_move_move (ret_ lhs rhs : Z) : St mem unit := plus_move_str ret_ lhs rhs.
Definition plus_cstr_move (ret_ res lhs rhs : Z) : St mem unit := plus_cstr_str ret_ res lhs rhs.
Definition plus_char_move (ret_ res lhs rhs : Z) : St mem unit := plus_char_str ret_ res lhs rhs.

(** Comparison operators; [eq_cstr] and its companions have the C string on the left,
    [eq_str_cstr] and its companions on the right. *)
Definition eq_str (lhs rhs : Z) : St mem bool := let! r := compare_str lhs rhs in ret (r =? 0).
Definition ne_str (lhs rhs : Z) : St mem bool := let! r := compare_str lhs rhs in ret (negb (r =? 0)).
Definition lt_str (lhs rhs : Z) : St mem bool := let! r := compare_str lhs rhs in ret (r <? 0).
Definition le_str (lhs rhs : Z) : St mem bool := let! r := compare_str lhs rhs in ret (r <=? 0).
Definition gt_str (lhs rhs : Z) : St mem bool := let! r := compare_str lhs rhs in ret (0 <? r).
Definition ge_str (lhs rhs : Z) : St mem bool := let! r := compare_str lhs rhs in ret (0 <=? r).
Definition eq_cstr (lhs rhs : Z) : St mem bool := let! r := compare_cstr rhs lhs in ret (r =? 0).
Definition ne_cstr (lhs rhs : Z) : St mem bool := let! r := compare_cstr rhs lhs in ret (negb (r =? 0)).
Definition lt_cstr (lhs rhs : Z) : St mem bool := let! r := compare_cstr rhs lhs in ret (0 <? r).
Definition le_cstr (lhs rhs : Z) : St mem bool := let! r := compare_cstr rhs lhs in ret (0 <=? r).
Definition gt_cstr (lhs rhs : Z) : St mem bool := let! r := compare_cstr rhs lhs in ret (r <? 0).
Definition ge_cstr (lhs rhs : Z) : St mem bool := let! r := compare_cstr rhs lhs in ret (r <=? 0).

Definition eq_str_cstr (lhs rhs : Z) : St mem bool := let! r := compare_cstr lhs rhs in ret (r =? 0).
Definition ne_str_cstr (lhs rhs : Z) : St mem bool := let! r := compare_cstr lhs rhs in ret (negb (r =? 0)).
Definition lt_str_cstr (lhs rhs : Z) : St mem bool := let! r := compare_cstr lhs rhs in ret (r <? 0).
Definition le_str_cstr (lhs rhs : Z) : St mem bool := let! r := compare_cstr lhs rhs in ret (r <=? 0).
Definition gt_str_cstr (lhs rhs : Z) : St mem bool := let! r := compare_cstr lhs rhs in ret (0 <? r).
Definition ge_str_cstr (lhs rhs : Z) : St mem bool := let! r := compare_cstr lhs rhs in ret (0 <=? r).

(** [operator==(const std::string& lhs, const basic_string& rhs)]: the standard
    string's characters are [lhs]; [compare(0, n, s, n)] looks at its first [n]. *)
Definition eq_std_str (lhs : list Z) (rhs : Z) : St mem bool :=
  let! n := size rhs in
  let! p := c_str rhs in
  let! r := load_bytes (Z.to_nat n) p in
  ret (bool_decide (take (Z.to_nat n) lhs = r)).

(** [hash_value]. *)
Definition FNV_offset_basis : Z := 14695981039346656037.
Fixpoint hash_loop (n : nat) (p hash : Z) : St mem Z :=
  match n with
  | O => ret hash
  | S k =>
      let! c := load p in
      hash_loop k (p + 1) (Z.lxor (u64 (hash * FNV_offset_basis)) (u64 (to_signed 8 c)))
  end.
Definition hash_value (str : Z) : St mem Z :=
  let! b := begin str in
  let! e := end_ str in
  hash_loop (steps_to b e) b FNV_offset_basis.

End Ops.
End Str.
