(* ===== verification/StringRep.v ===== *)
(** * Representation of strings

    [RawD m this p n cap d]: the string object at [this] has its [cap + 1] data bytes
    [d] at address [p] and the size [n]; [Rep] adds that the characters are [l],
    closed by a NUL.  [evolves] is the frame of an operation: memory outside the
    object is untouched and new storage was not in use before. *)

From S2P Require Import Prelude Memory String.

Import Str.

(** ** Header words *)

Definition word_at (m : mem) (p x : Z) : Prop := pts m p (le_bytes 8 x) /\ 0 <= x < 2 ^ 64.

Lemma load_word_at m p x : word_at m p x -> load_word 8 p m = Ok x m.
Proof.
  intros [Hp Hx]. rewrite (load_word_ok 8 m p (le_bytes 8 x) Hp) by apply length_le_bytes.
  by rewrite le_val_bytes_small.
Qed.

Lemma traits_length_ok m s l :
  pts m s (l ++ [0]) -> Forall (fun b => b <> 0) l -> traits_length s m = Ok (zlen l) m.
Proof.
  intros Hs Hnz. unfold traits_length. apply cstrlen_ok; [done..|].
  apply pts_size in Hs. rewrite length_app in Hs. simpl in Hs. lia.
Qed.

(** ** The representation predicate *)

Record RawD (m : mem) (this p n cap : Z) (d : list Z) : Prop := {
  raw_this : 0 < this /\ this + 32 < 2 ^ 64;
  raw_obj : mapped m this 32;
  raw_size : 0 <= n <= cap;
  raw_data : pts m p d;
  raw_len : zlen d = cap + 1;
  raw_ptr : 0 < p /\ p + cap + 1 < 2 ^ 64;
  raw_form :
    (bytes m !! this = Some n /\ p = this + 1 /\ cap = max_in_buffer_size) \/
    (bytes m !! this = Some nullchar /\ max_in_buffer_size < cap /\
     word_at m (this + SIZE_OFFSET) n /\ word_at m (this + CAPACITY_OFFSET) cap /\
     word_at m (this + POINTER_OFFSET) p /\
     blocks m !! p = Some (cap + 1) /\ disj p (cap + 1) this 32)
}.

Definition RepAt (m : mem) (this : Z) (l : list Z) (p cap : Z) : Prop :=
  exists d, RawD m this p (zlen l) cap d /\ take (S (length l)) d = l ++ [0].

Definition Rep (m : mem) (this : Z) (l : list Z) : Prop := exists p cap, RepAt m this l p cap.

(** The bytes a string object owns. *)
Definition foot (this p cap a : Z) : Prop := this <= a < this + 32 \/ p <= a < p + (cap + 1).

Definition evolves (this : Z) (m : mem) (p cap : Z) (m' : mem) (p' cap' : Z) : Prop :=
  (forall a x, bytes m !! a = Some x -> ~ foot this p cap a -> bytes m' !! a = Some x) /\
  (forall a, foot this p' cap' a -> foot this p cap a \/ bytes m !! a = None) /\
  (forall q k, blocks m !! q = Some k -> q <> p -> blocks m' !! q = Some k) /\
  (p' = p \/ blocks m !! p' = None) /\
  (forall a x, bytes m !! a = Some x -> ~ foot this p cap a -> blocks m' !! a = blocks m !! a).

Lemma evolves_inplace this m p cap m' :
  (forall a x, bytes m !! a = Some x -> ~ foot this p cap a -> bytes m' !! a = Some x) ->
  blocks m' = blocks m -> evolves this m p cap m' p cap.
Proof. intros Hb Hbl. split_and!; rewrite ?Hbl; auto. Qed.

Lemma evolves_refl this m p cap : evolves this m p cap m p cap.
Proof. by apply evolves_inplace. Qed.

Lemma evolves_trans this m p cap m1 p1 cap1 m2 p2 cap2 :
  evolves this m p cap m1 p1 cap1 -> evolves this m1 p1 cap1 m2 p2 cap2 ->
  evolves this m p cap m2 p2 cap2.
Proof.
  intros (H1 & H1' & H1b & H1p & H1n) (H2 & H2' & H2b & H2p & H2n). split_and!.
  - intros a x Ha Hf. apply H2; [auto|]. intros Hf1. destruct (H1' _ Hf1) as [?|Hn]; [done|congruence].
  - intros a Ha. destruct (H2' a Ha) as [Hf|Hn]; [auto|].
    destruct (decide (this <= a < this + 32)); [left; by left|].
    destruct (decide (p <= a < p + (cap + 1))); [left; by right|]. right.
    destruct (bytes m !! a) eqn:E; [|done]. rewrite (H1 a z E) in Hn; [done|]. unfold foot. lia.
  - intros q k Hq Hne. apply H2b; [auto|]. destruct H1p as [->|Hnone]; [done|congruence].
  - destruct H2p as [->|Hnone]; [done|]. destruct (decide (p2 = p)) as [->|Hne]; [by left|right].
    destruct (blocks m !! p2) eqn:E; [|done]. rewrite (H1b _ _ E Hne) in Hnone. done.
  - intros a x Ha Hf. rewrite <-(H1n a x Ha Hf). apply (H2n a x); [auto|].
    intros Hf1. destruct (H1' _ Hf1) as [?|Hn]; [done|congruence].
Qed.

(** A region [k] at [q] outside the object keeps its contents and stays outside. *)
Definition apart (this p cap q n : Z) : Prop := disj this 32 q n /\ disj p (cap + 1) q n.
Definition clear_of (this p cap q : Z) (k : list Z) : Prop := k = [] \/ apart this p cap q (zlen k).

Lemma evolves_pts this m p cap m' p' cap' q k :
  evolves this m p cap m' p' cap' -> pts m q k -> clear_of this p cap q k -> pts m' q k.
Proof.
  intros (H1 & _) Hk [->|[Ha Hb]]; [apply pts_nil|]. intros i x Hi. apply H1; [auto|].
  apply lookup_lt_Some in Hi. unfold foot, disj, zlen in *. lia.
Qed.

Lemma evolves_clear this m p cap m' p' cap' q k :
  evolves this m p cap m' p' cap' -> pts m q k -> clear_of this p cap q k -> 0 <= cap' ->
  clear_of this p' cap' q k.
Proof.
  intros (_ & H2 & _) Hk [->|[Ha Hb]] Hc; [by left|]. destruct k as [|c k]; [by left|right]. split; [done|].
  unfold disj in *. destruct (decide (p' + (cap' + 1) <= q)); [by left|].
  destruct (decide (q + zlen (c :: k) <= p')); [by right|]. exfalso.
  set (a := Z.max q p'). assert (p' <= a < p' + (cap' + 1) /\ q <= a < q + zlen (c :: k)) as [Hin Hin']
    by (unfold a, zlen in *; simpl in *; lia).
  destruct (lookup_lt_is_Some_2 (c :: k) (Z.to_nat (a - q))) as [x Hx]; [unfold zlen in *; lia|].
  pose proof (Hk _ _ Hx) as Hbyte. replace (q + Z.of_nat (Z.to_nat (a - q))) with a in Hbyte by lia.
  destruct (H2 a) as [[?|?]|Hn]; [right; lia|unfold disj in *; lia|lia|congruence].
Qed.

(** ** Reading the header *)

Section Read.
Context {m : mem} {this p n cap : Z} {d : list Z} (R : RawD m this p n cap d).

Lemma in_buffer_ok : exists b, in_buffer this m = Ok b m /\
  (if b then bytes m !! this = Some n /\ p = this + 1 /\ cap = max_in_buffer_size
   else bytes m !! this = Some nullchar /\ max_in_buffer_size < cap /\
     word_at m (this + SIZE_OFFSET) n /\ word_at m (this + CAPACITY_OFFSET) cap /\
     word_at m (this + POINTER_OFFSET) p /\ blocks m !! p = Some (cap + 1) /\ disj p (cap + 1) this 32).
Proof.
  unfold in_buffer, bind, ret. destruct (raw_form _ _ _ _ _ _ R) as [(Hb & ? & ?)|(Hb & Hrest)].
  - exists true. rewrite (load_ok _ _ _ Hb). split; [|done]. f_equal. apply negb_true_iff, Z.eqb_neq.
    pose proof (raw_size _ _ _ _ _ _ R). unfold nullchar, max_in_buffer_size in *. lia.
  - exists false. by rewrite (load_ok _ _ _ Hb).
Qed.

Lemma get_ptr_ok : get_ptr this m = Ok p m.
Proof.
  unfold get_ptr, bind. destruct in_buffer_ok as ([] & -> & Hf); [by destruct Hf as (_ & -> & _)|].
  destruct Hf as (_ & _ & _ & _ & Hp & _). by apply load_word_at.
Qed.

Lemma get_size_ok : get_size this m = Ok n m.
Proof.
  unfold get_size, bind. destruct (raw_form _ _ _ _ _ _ R) as [(Hb & ? & ?)|(Hb & _ & Hs & _)];
    rewrite (load_ok _ _ _ Hb).
  - pose proof (raw_size _ _ _ _ _ _ R). unfold nullchar, max_in_buffer_size in *.
    destruct (n =? 127) eqn:E; bool_prop; [lia|]. simpl. unfold ret, to_signed.
    rewrite Z.mod_small by lia. destruct (n <? 2 ^ (8 - 1)) eqn:E2; bool_prop; [|simpl in *; lia].
    by rewrite u64_small by lia.
  - simpl. by apply load_word_at.
Qed.

Lemma size_ok : size this m = Ok n m.
Proof. apply get_size_ok. Qed.

Lemma get_capacity_ok : get_capacity this m = Ok cap m.
Proof.
  unfold get_capacity, bind. destruct in_buffer_ok as ([] & -> & Hf); [by destruct Hf as (_ & _ & ->)|].
  destruct Hf as (_ & _ & _ & Hc & _). by apply load_word_at.
Qed.

Lemma capacity_ok : capacity this m = Ok cap m.
Proof.
  unfold capacity, bind. destruct in_buffer_ok as ([] & -> & Hf); [by destruct Hf as (_ & _ & ->)|].
  apply get_capacity_ok.
Qed.

Lemma begin_ok : begin this m = Ok p m.
Proof. apply get_ptr_ok. Qed.

Lemma end_ok : end_ this m = Ok (p + n) m.
Proof.
  unfold end_, bind, ret. rewrite get_ptr_ok, size_ok.
  pose proof (raw_size _ _ _ _ _ _ R). pose proof (raw_ptr _ _ _ _ _ _ R).
  by rewrite u64_small by lia.
Qed.

Lemma subscript_ok i : subscript this i m = Ok (p + i) m.
Proof. unfold subscript, bind. by rewrite begin_ok. Qed.

Lemma raw_cap : 30 <= cap < 2 ^ 64.
Proof.
  pose proof (raw_ptr _ _ _ _ _ _ R). pose proof (raw_size _ _ _ _ _ _ R).
  destruct (raw_form _ _ _ _ _ _ R) as [(_ & _ & ->)|(_ & ? & _)]; unfold max_in_buffer_size in *; lia.
Qed.

End Read.

(** ** Writing *)

Lemma word_upd m p x q k : word_at m p x -> disj q (zlen k) p 8 -> word_at (upd m q k) p x.
Proof.
  intros [Hp Hx] Hd. split; [|done]. apply pts_upd_disj; [done|]. by rewrite zlen_le_bytes.
Qed.

Lemma byte_upd m a x q k : bytes m !! a = Some x -> disj q (zlen k) a 1 -> bytes (upd m q k) !! a = Some x.
Proof.
  intros Ha Hd. rewrite lookup_upd. unfold disj in Hd. by rewrite decide_False by lia.
Qed.

(** Writing [k] at offset [i] of the data area. *)
Lemma raw_write m this p n cap d i k :
  RawD m this p n cap d -> 0 <= i -> i + zlen k <= cap + 1 ->
  RawD (upd m (p + i) k) this p n cap (splice (Z.to_nat i) k d) /\
  evolves this m p cap (upd m (p + i) k) p cap.
Proof.
  intros R Hi Hk. pose proof (zlen_nonneg k). destruct R as [Ht Ho Hs Hd Hl Hp Hf].
  assert ((Z.to_nat i + length k <= length d)%nat) as Hlen by (unfold zlen in *; lia).
  split; [constructor; try done|apply evolves_inplace; [|done]].
  - destruct Hf as [(Hb & -> & ->)|(Hb & Hc & _ & _ & _ & _ & Hdj)];
      [apply mapped_upd; [done|lia|unfold max_in_buffer_size in *; lia]|].
    destruct Ho as (o & Ho & Hol). exists o. split; [|done]. apply pts_upd_disj; [done|].
    unfold disj in *. lia.
  - replace (p + i) with (p + Z.of_nat (Z.to_nat i)) by lia. by apply pts_upd_in.
  - unfold zlen in *. rewrite length_splice by lia. done.
  - destruct Hf as [(Hb & -> & ->)|(Hb & Hc & H1 & H2 & H3 & H4 & Hdj)].
    + left. split_and!; try done. apply byte_upd; [done|]. unfold disj. lia.
    + right. unfold disj in *. unfold SIZE_OFFSET, CAPACITY_OFFSET, POINTER_OFFSET in *.
      split_and!; try done; try (apply word_upd; [done|unfold disj; lia]).
      apply byte_upd; [done|]. unfold disj. lia.
  - intros a x Ha Hna. rewrite lookup_upd. unfold foot in Hna.
    rewrite decide_False by lia. done.
Qed.

Lemma raw_mapped m this p n cap d i (k : list Z) :
  RawD m this p n cap d -> 0 <= i -> i + zlen k <= cap + 1 ->
  exists l0, pts m (p + i) l0 /\ length l0 = length k.
Proof.
  intros R Hi Hk. destruct (mapped_sub m p (cap + 1) (p + i) (zlen k)) as (l0 & Hl0 & Hlen).
  - exists d. split; [apply R|apply R].
  - lia.
  - apply zlen_nonneg.
  - lia.
  - exists l0. split; [done|]. unfold zlen in *. lia.
Qed.

Lemma raw_store m this p n cap d i c :
  RawD m this p n cap d -> 0 <= i <= cap ->
  store (p + i) c m = Ok tt (upd m (p + i) [c]).
Proof.
  intros R Hi. destruct (raw_mapped m this p n cap d i [c] R) as (l0 & Hl0 & Hlen);
    [lia|change (zlen [c]) with 1; lia|].
  destruct l0 as [|b [|]]; try done. apply pts_cons in Hl0 as [Hb _]. by eapply store_ok.
Qed.

Lemma raw_load m this p n cap d i x :
  RawD m this p n cap d -> 0 <= i -> d !! Z.to_nat i = Some x -> load (p + i) m = Ok x m.
Proof.
  intros R Hi Hx. replace (p + i) with (p + Z.of_nat (Z.to_nat i)) by lia.
  eapply pts_load; [apply R|done].
Qed.

(** Changing the size. *)
Lemma set_size_ok m this p n cap d k :
  RawD m this p n cap d -> 0 <= k <= cap ->
  exists m', set_size this k m = Ok tt m' /\ RawD m' this p k cap d /\
    evolves this m p cap m' p cap.
Proof.
  intros R Hk. unfold set_size, bind. destruct (in_buffer_ok R) as ([] & -> & Hf).
  - destruct Hf as (Hb & Hp & Hc). rewrite (store_ok _ _ _ _ Hb). eexists. split; [done|].
    destruct R as [Ht Ho Hs Hd Hl Hpt _]. unfold max_in_buffer_size in *.
    split; [constructor; try done|apply evolves_inplace; [|done]].
    + apply mapped_upd; [done|lia|change (zlen [u8 k]) with 1; lia].
    + apply pts_upd_disj; [done|]. left. change (zlen [u8 k]) with 1. lia.
    + left. split_and!; try done. simpl. rewrite lookup_insert_eq. f_equal. apply u8_small. lia.
    + intros a x Ha Hna. simpl. rewrite lookup_insert_ne; [done|]. unfold foot in Hna. lia.
  - destruct Hf as (Hb & Hc & H1 & H2 & H3 & H4 & H5).
    pose proof (raw_cap R) as Hcap.
    rewrite (store_word_ok 8 m _ (le_bytes 8 n)) by (apply H1 || apply length_le_bytes).
    eexists. split; [done|]. destruct R as [Ht Ho Hs Hd Hl Hpt _]. unfold SIZE_OFFSET, CAPACITY_OFFSET, POINTER_OFFSET in *.
    pose proof (zlen_le_bytes 8 k) as Hz. change (Z.of_nat 8) with 8 in Hz.
    split; [constructor; try done|apply evolves_inplace; [|done]].
    + apply mapped_upd; [done|lia|lia].
    + apply pts_upd_disj; [done|]. rewrite Hz, Hl. unfold disj in *. lia.
    + right. split_and!; try done.
      * apply byte_upd; [done|]. unfold disj. lia.
      * split; [apply pts_upd_same|lia].
      * apply word_upd; [done|]. unfold disj, CAPACITY_OFFSET, POINTER_OFFSET. lia.
      * apply word_upd; [done|]. unfold disj, CAPACITY_OFFSET, POINTER_OFFSET. lia.
    + intros a x Ha Hna. rewrite lookup_upd, Hz. unfold foot in Hna.
      rewrite decide_False by lia. done.
Qed.

(** A memory that agrees on what the object owns. *)
Lemma raw_frame m m' this p n cap d :
  (forall a x, bytes m !! a = Some x -> foot this p cap a -> bytes m' !! a = Some x) ->
  (blocks m !! p = Some (cap + 1) -> blocks m' !! p = Some (cap + 1)) ->
  RawD m this p n cap d -> RawD m' this p n cap d.
Proof.
  intros Hb Hbl R.
  assert (forall q k, pts m q k -> (forall a, q <= a < q + zlen k -> foot this p cap a) -> pts m' q k) as Hpts.
  { intros q k Hk Hin i x Hi. apply lookup_lt_Some in Hi as Hlt. apply Hb; [auto|]. apply Hin. unfold zlen. lia. }
  assert (forall off x, 0 <= off -> off + 8 <= 32 -> word_at m (this + off) x -> word_at m' (this + off) x) as Hw.
  { intros off x H1 H2 [Hx Hr]. split; [|done]. apply Hpts; [done|]. rewrite zlen_le_bytes. unfold foot. lia. }
  destruct R as [Ht (o & Ho & Hol) Hs Hd Hl Hp Hf]. constructor; try done.
  - exists o. split; [|done]. apply Hpts; [done|]. unfold foot. lia.
  - apply Hpts; [done|]. unfold foot. lia.
  - destruct Hf as [(H1 & ? & ?)|(H1 & ? & H2 & H3 & H4 & H5 & ?)]; [left|right]; split_and!; auto.
    + apply Hb; [done|]. unfold foot. lia.
    + apply Hb; [done|]. unfold foot. lia.
    + by apply Hw; [unfold SIZE_OFFSET; lia..|].
    + by apply Hw; [unfold CAPACITY_OFFSET; lia..|].
    + by apply Hw; [unfold POINTER_OFFSET; lia..|].
Qed.

(** ** Heap storage *)

(** The words of a heap string written into an object whose first byte says so. *)
Lemma store_word_obj m this off x :
  mapped m this 32 -> 0 <= off -> off + 8 <= 32 -> 0 <= x < 2 ^ 64 ->
  store_word 8 (this + off) x m = Ok tt (upd m (this + off) (le_bytes 8 x)) /\
  word_at (upd m (this + off) (le_bytes 8 x)) (this + off) x /\
  mapped (upd m (this + off) (le_bytes 8 x)) this 32.
Proof.
  intros Hm Ho Hoff Hx. destruct (mapped_sub m this 32 (this + off) 8 Hm) as (l0 & Hl0 & Hlen); [lia..|].
  split_and!.
  - eapply store_word_ok; [done|]. unfold zlen in Hlen. lia.
  - split; [apply pts_upd_same|done].
  - apply mapped_upd; [done|lia|rewrite zlen_le_bytes; lia].
Qed.

Lemma set_ptr_ok m this p :
  mapped m this 32 -> bytes m !! this = Some nullchar -> 0 <= p < 2 ^ 64 ->
  set_ptr this p m = Ok tt (upd m (this + POINTER_OFFSET) (le_bytes 8 p)).
Proof.
  intros Hm Hb Hp. unfold set_ptr, bind.
  destruct (store_word_obj m this POINTER_OFFSET p Hm) as (-> & Hw & _);
    [unfold POINTER_OFFSET; lia..|done|].
  unfold get_ptr, in_buffer, bind. rewrite (load_ok _ _ nullchar).
  2: { apply byte_upd; [done|]. unfold disj, POINTER_OFFSET. lia. }
  unfold ret. rewrite Z.eqb_refl. cbn [negb]. rewrite (load_word_at _ _ _ Hw). unfold massert. by rewrite Z.eqb_refl.
Qed.

(** What [set_capacity] and [set_ptr] leave behind, in either order. *)
Lemma install_ok m this p n cap d m1 :
  0 < this /\ this + 32 < 2 ^ 64 -> mapped m this 32 -> bytes m !! this = Some nullchar ->
  word_at m (this + SIZE_OFFSET) n -> 0 <= n <= cap -> max_in_buffer_size < cap ->
  pts m p d -> zlen d = cap + 1 -> 0 < p /\ p + cap + 1 < 2 ^ 64 ->
  blocks m !! p = Some (cap + 1) -> disj p (cap + 1) this 32 ->
  m1 = upd (upd m (this + CAPACITY_OFFSET) (le_bytes 8 cap)) (this + POINTER_OFFSET) (le_bytes 8 p) \/
  m1 = upd (upd m (this + POINTER_OFFSET) (le_bytes 8 p)) (this + CAPACITY_OFFSET) (le_bytes 8 cap) ->
  RawD m1 this p n cap d /\ blocks m1 = blocks m /\
  (forall a, ~ (this <= a < this + 32) -> bytes m1 !! a = bytes m !! a).
Proof.
  intros Ht Ho Hb Hs Hn Hc Hd Hl Hp Hbl Hdj Hm1. unfold max_in_buffer_size in Hc.
  unfold SIZE_OFFSET, CAPACITY_OFFSET, POINTER_OFFSET in *.
  assert (forall x, zlen (le_bytes 8 x) = 8) as Hz by (intros; apply zlen_le_bytes).
  destruct Hm1 as [-> | ->].
  1,2: split; [constructor; try done|split; [done|]].
  1,5: apply mapped_upd; [apply mapped_upd; [done|lia|rewrite Hz; lia]|lia|rewrite Hz; lia].
  1,4: repeat (apply pts_upd_disj; [|unfold disj in *; rewrite Hz; lia]); done.
  1,3: right; unfold SIZE_OFFSET, CAPACITY_OFFSET, POINTER_OFFSET; split_and!; try done;
    repeat first [done | by (split; [apply pts_upd_same|lia]) | apply byte_upd | apply word_upd
                 | unfold disj; rewrite Hz; lia].
  1,2: intros a Ha; rewrite !lookup_upd, !Hz; rewrite !decide_False by lia; done.
Qed.

Section HeapOps.
Context `{Allocator}.

Lemma set_capacity_ok m this c :
  mapped m this 32 -> 0 <= c < 2 ^ 64 ->
  set_capacity this c m = Ok tt (upd m (this + CAPACITY_OFFSET) (le_bytes 8 c)).
Proof. intros Hm Hc. by apply store_word_obj; [|unfold CAPACITY_OFFSET; lia..|]. Qed.

Lemma set_capacity_ptr m this cap p :
  mapped m this 32 -> bytes m !! this = Some nullchar -> 0 <= cap < 2 ^ 64 -> 0 <= p < 2 ^ 64 ->
  (do! set_capacity this cap in set_ptr this p) m =
    Ok tt (upd (upd m (this + CAPACITY_OFFSET) (le_bytes 8 cap)) (this + POINTER_OFFSET) (le_bytes 8 p)).
Proof.
  intros Hm Hb Hc Hp. unfold bind. rewrite set_capacity_ok by done.
  destruct (store_word_obj m this CAPACITY_OFFSET cap Hm) as (_ & _ & Hm'); [unfold CAPACITY_OFFSET; lia..|done|].
  apply set_ptr_ok; [done| |done]. apply byte_upd; [done|]. unfold disj, CAPACITY_OFFSET. lia.
Qed.

(** Storage installed: [set_capacity] then [set_ptr]. *)
Lemma install_run m this p n cap d :
  0 < this /\ this + 32 < 2 ^ 64 -> mapped m this 32 -> bytes m !! this = Some nullchar ->
  word_at m (this + SIZE_OFFSET) n -> 0 <= n <= cap -> max_in_buffer_size < cap ->
  pts m p d -> zlen d = cap + 1 -> 0 < p /\ p + cap + 1 < 2 ^ 64 ->
  blocks m !! p = Some (cap + 1) -> disj p (cap + 1) this 32 ->
  exists m', (do! set_capacity this cap in set_ptr this p) m = Ok tt m' /\ RawD m' this p n cap d /\ blocks m' = blocks m /\
    (forall a, ~ (this <= a < this + 32) -> bytes m' !! a = bytes m !! a).
Proof.
  intros Ht Hm Hb Hw Hn Hc Hd Hl Hp Hbl Hdj. eexists. split; [apply set_capacity_ptr; try done; lia|].
  eapply install_ok; eauto.
Qed.

(** A block just allocated: its bytes are mapped, live and disjoint from the object. *)
Lemma fresh_block m n p q k :
  alloc_pick m n = Some p -> 0 < n -> mapped m q k -> 0 < k ->
  0 < p /\ p + n < 2 ^ 64 /\ blocks (new_block m p n) !! p = Some n /\
  disj p n q k /\ mapped (new_block m p n) q k /\
  (exists d, pts (new_block m p n) p d /\ zlen d = n) /\
  (forall a, p <= a < p + n -> bytes m !! a = None) /\
  (forall a x, bytes m !! a = Some x -> bytes (new_block m p n) !! a = Some x).
Proof.
  intros Hp Hn (o & Ho & Hk) Hk0. destruct (alloc_fresh _ _ _ Hp ltac:(lia)) as (H1 & H2 & _ & _ & Hf).
  destruct (alloc_disj _ _ _ _ _ Hp ltac:(lia) Ho) as [Hd|[?|Hnil]]; [|lia|subst o; unfold zlen in *; simpl in *; lia].
  rewrite Hk in Hd. split_and!; try done.
  - simpl. by rewrite lookup_insert_eq.
  - exists o. split; [|done]. by eapply new_block_frame; [|lia|].
  - eexists. split; [apply new_block_pts; lia|]. unfold zlen. rewrite length_map, length_seqZ_nat by lia. lia.
  - intros a x Ha. assert (pts m a [x]) as Hx by (apply pts_cons; auto using pts_nil).
    pose proof (new_block_frame m p n a [x] Hp ltac:(lia) Hx) as Hx'. by apply pts_cons in Hx' as [? _].
Qed.

(** The characters of a string, its NUL included, copied into a fresh block. *)
Lemma copy_out m m1 this p n cap d np k d0 :
  RawD m this p n cap d -> (forall a x, bytes m !! a = Some x -> bytes m1 !! a = Some x) ->
  pts m1 np d0 -> zlen d0 = k -> n + 1 <= k -> disj np k p (cap + 1) ->
  copy (Z.to_nat (n + 1)) p np m1 = Ok tt (upd m1 np (take (Z.to_nat (n + 1)) d)) /\
  exists d1, pts (upd m1 np (take (Z.to_nat (n + 1)) d)) np d1 /\ zlen d1 = k /\
    take (Z.to_nat (n + 1)) d1 = take (Z.to_nat (n + 1)) d.
Proof.
  intros R Hm1 Hd0 Hk Hnk Hdj. pose proof (raw_size _ _ _ _ _ _ R). pose proof (raw_len _ _ _ _ _ _ R) as Hl.
  set (t := take (Z.to_nat (n + 1)) d). assert (length t = Z.to_nat (n + 1)) as Ht.
  { unfold t. rewrite length_take. unfold zlen in Hl. lia. }
  assert (pts m1 p t) as Hpt.
  { apply pts_take. intros i x Hi. apply Hm1. by apply R. }
  split.
  - rewrite <-Ht. eapply (copy_ok _ _ _ t (take (length t) d0)); [done|by apply pts_take| |].
    + rewrite length_take. unfold zlen in Hk. lia.
    + unfold disj, zlen in *. lia.
  - exists (splice 0 t d0). split_and!.
    + replace np with (np + Z.of_nat 0) at 1 by lia. apply pts_upd_in; [done|]. unfold zlen in Hk. lia.
    + unfold zlen in *. rewrite length_splice; lia.
    + rewrite <-Ht at 1. change (length t) with (0 + length t)%nat. rewrite take_splice_end by lia.
      by rewrite take_0.
Qed.

Lemma max_size_range : 0 <= max_size < 2 ^ 64.
Proof. apply (wrap_range 64). lia. Qed.

(** Doubling the capacity neither overflows nor stays below the request. *)
Lemma grown_cap cap c :
  30 <= cap < 2 ^ 64 -> cap < c -> c <= max_size ->
  c <= Z.max (u64 (cap * 2)) c < 2 ^ 64 - 1 /\
  u64 (Z.max (u64 (cap * 2)) c + 1) = Z.max (u64 (cap * 2)) c + 1.
Proof.
  intros Hcap Hc Hm. pose proof alloc_max_range. unfold max_size in Hm.
  pose proof (wrap_range 64 (cap * 2) ltac:(lia)) as Hr.
  assert (u64 (cap * 2) <> 2 ^ 64 - 1) as Hodd.
  { unfold wrap. change (2 ^ 64) with (2 ^ 63 * 2). rewrite Zmult_mod_distr_r.
    pose proof (Z.mod_pos_bound cap (2 ^ 63)). lia. }
  rewrite u64_small in Hm by lia. split; [lia|]. apply u64_small. lia.
Qed.

(** After growing: the new storage is fresh, everything outside the object is kept. *)
Lemma grow_evolves this m p cap np nc m4 :
  (forall a, np <= a < np + (nc + 1) -> bytes m !! a = None) ->
  (forall a x, bytes m !! a = Some x -> ~ foot this p cap a -> ~ (np <= a < np + (nc + 1)) ->
     bytes m4 !! a = Some x) ->
  blocks m !! np = None -> 0 <= cap -> 0 <= nc ->
  (forall q, q <> p -> q <> np -> blocks m4 !! q = blocks m !! q) ->
  evolves this m p cap m4 np nc.
Proof.
  intros Hf Hk Hnb Hcap Hnc Hbl. split_and!; [| | |by right|].
  - intros a x Ha Hna. apply Hk; try done. intros Hin. rewrite Hf in Ha by lia. done.
  - intros a [Ha|Ha]; [left; by left|right; by apply Hf].
  - intros q k Hq Hne. rewrite Hbl; congruence.
  - intros a x Ha Hna. unfold foot in Hna. apply Hbl; [lia|]. intros ->. rewrite Hf in Ha by lia. done.
Qed.

(** The part of [reserve] behind the copy: switch an in-buffer string over. *)
Lemma switch_sso m this n :
  mapped m this 32 -> 0 <= n < 2 ^ 64 ->
  exists m', (do! store this nullchar in set_size this n) m = Ok tt m' /\
    mapped m' this 32 /\ bytes m' !! this = Some nullchar /\ word_at m' (this + SIZE_OFFSET) n /\
    blocks m' = blocks m /\ (forall a, ~ (this <= a < this + 32) -> bytes m' !! a = bytes m !! a).
Proof.
  intros Hm Hn. destruct (mapped_byte m this 32 this Hm) as [b Hb]; [lia|]. unfold bind. rewrite (store_ok _ _ _ _ Hb).
  assert (mapped (upd m this [nullchar]) this 32) as Hm1
    by (apply mapped_upd; [done|lia|change (zlen [nullchar]) with 1; lia]).
  assert (bytes (upd m this [nullchar]) !! this = Some nullchar) as Hb1 by (simpl; by rewrite lookup_insert_eq).
  unfold set_size, in_buffer, bind. rewrite (load_ok _ _ _ Hb1). unfold ret. rewrite Z.eqb_refl. cbn [negb].
  destruct (store_word_obj _ this SIZE_OFFSET n Hm1) as (-> & Hw & Hm2); [unfold SIZE_OFFSET; lia..|done|].
  eexists. split; [done|]. split_and!; try done.
  - apply byte_upd; [done|]. unfold disj, SIZE_OFFSET. lia.
  - intros a Ha. rewrite !lookup_upd, zlen_le_bytes. change (zlen [nullchar]) with 1.
    unfold SIZE_OFFSET. by rewrite !decide_False by lia.
Qed.

(** The other case: release the old block. *)
Lemma release_old m m2 this p n cap d k :
  RawD m this p n cap d -> in_buffer this m = Ok false m ->
  (forall a x, bytes m !! a = Some x -> bytes m2 !! a = Some x) -> blocks m2 !! p = Some (cap + 1) ->
  exists m', deallocate p k m2 = Ok tt m' /\
    mapped m' this 32 /\ bytes m' !! this = Some nullchar /\ word_at m' (this + SIZE_OFFSET) n /\
    blocks m' = delete p (blocks m2) /\
    (forall a, ~ (p <= a < p + (cap + 1)) -> bytes m' !! a = bytes m2 !! a).
Proof.
  intros R Hib Hsub Hbl. destruct (in_buffer_ok R) as ([] & Hib' & Hf); [congruence|].
  destruct Hf as (Hb & Hc & Hs & _ & _ & _ & Hdj). pose proof (raw_cap R).
  unfold deallocate. rewrite Hbl. eexists. split; [done|].
  assert (forall a, ~ (p <= a < p + (cap + 1)) ->
    del_range (bytes m2) p (Z.to_nat (cap + 1)) !! a = bytes m2 !! a) as Hout.
  { intros a Ha. rewrite lookup_del_range. by rewrite decide_False by lia. }
  assert (forall q l, pts m q l -> disj p (cap + 1) q (zlen l) ->
    pts (Mem (del_range (bytes m2) p (Z.to_nat (cap + 1))) (delete p (blocks m2)) ((p, cap + 1, k) :: freed m2)) q l) as Hpts.
  { intros q l Hl Hd i x Hi. cbn [bytes]. apply lookup_lt_Some in Hi as Hlt.
    rewrite Hout by (unfold disj, zlen in *; lia). auto. }
  unfold disj, SIZE_OFFSET in *. split_and!; try done.
  - destruct (raw_obj _ _ _ _ _ _ R) as (o & Ho & Hol). exists o. split; [|done]. apply Hpts; [done|]. lia.
  - cbn [bytes]. rewrite Hout by lia. auto.
  - split; [|apply Hs]. apply Hpts; [apply Hs|]. rewrite zlen_le_bytes. lia.
Qed.

(** [reserve]: afterwards there is room for [c] characters, the string is the same; it
    throws only before anything was changed. *)
Lemma reserve_ok m this p n cap d c :
  RawD m this p n cap d -> 0 <= c < 2 ^ 64 ->
  wpx (reserve this c) m
    (fun _ m' => exists p' cap' d', RawD m' this p' n cap' d' /\ c <= cap' /\ cap <= cap' /\
       take (Z.to_nat (n + 1)) d' = take (Z.to_nat (n + 1)) d /\ evolves this m p cap m' p' cap')
    (fun e m' => m' = m /\ (e = LengthError \/ e = BadAlloc)).
Proof.
  intros R Hc. pose proof (raw_cap R) as Hcap. pose proof (raw_size _ _ _ _ _ _ R) as Hn.
  unfold reserve. wpx_run (capacity_ok R). case_test.
  { apply (wpx_ok _ _ tt m); [done|]. exists p, cap, d. split_and!; try done; try lia. apply evolves_refl. }
  case_test; [eapply wpx_throw; [done|tauto]|].
  wpx_run (size_ok R). destruct (grown_cap cap c) as [Hg Hgw]; [lia..|].
  set (nc := Z.max (u64 (cap * 2)) c) in *. rewrite Hgw.
  wpxb. unfold allocate. destruct (alloc_pick m (nc + 1)) as [np|] eqn:Hpick.
  2: { eapply wpx_throw; [by rewrite Hpick|tauto]. }
  destruct (fresh_block m (nc + 1) np this 32 Hpick) as (Hnp & Hnp2 & Hbl & Hdt & Hmt & (d0 & Hd0 & Hl0) & Hfr & Hsub);
    [lia|apply R|lia|].
  destruct (fresh_block m (nc + 1) np p (cap + 1) Hpick) as (_ & _ & _ & Hdp & _); [lia| |lia|].
  { exists d. split; apply R. }
  set (m1 := new_block m np (nc + 1)) in *.
  eapply (wpx_ok _ _ np m1); [by rewrite Hpick|]. cbv beta.
  destruct (np =? 0) eqn:E; bool_prop; [lia|].
  assert (RawD m1 this p n cap d) as R1.
  { apply (raw_frame m); [by intros a x Ha _; apply Hsub| |done]. intros Hbp. unfold m1. simpl.
    rewrite lookup_insert_ne; [done|]. intros ->. unfold disj in Hdp. lia. }
  wpx_run (get_ptr_ok R1). wpx_run (size_ok R1).
  destruct (copy_out m m1 this p n cap d np (nc + 1) d0) as (Hcp & d1 & Hd1 & Hl1 & Ht1); try done; [lia|].
  wpx_run Hcp. set (m2 := upd m1 np (take (Z.to_nat (n + 1)) d)) in *.
  assert (forall a, ~ (np <= a < np + (nc + 1)) -> bytes m2 !! a = bytes m1 !! a) as Hm2.
  { intros a Ha. unfold m2. rewrite lookup_upd. rewrite decide_False; [done|].
    unfold zlen. rewrite length_take. lia. }
  assert (forall a x, bytes m !! a = Some x -> bytes m2 !! a = Some x) as Hsub2.
  { intros a x Ha. rewrite Hm2; [auto|]. intros Hin. rewrite Hfr in Ha by lia. done. }
  assert (RawD m2 this p n cap d) as R2.
  { apply (raw_frame m1); [intros a x Ha Hfo; rewrite Hm2; [done|]|done|done].
    destruct Hfo; unfold disj in *; lia. }
  destruct (in_buffer_ok R2) as (sso & Hib & Hform). wpx_run Hib.
  assert (exists m3, (if sso then do! store this nullchar in set_size this n
      else let! c := get_capacity this in deallocate p c) m2 = Ok tt m3 /\
    mapped m3 this 32 /\ bytes m3 !! this = Some nullchar /\ word_at m3 (this + SIZE_OFFSET) n /\
    blocks m3 !! np = Some (nc + 1) /\ (forall q, q <> p -> blocks m3 !! q = blocks m2 !! q) /\
    (forall a, ~ foot this p cap a -> bytes m3 !! a = bytes m2 !! a))
    as (m3 & Hrun & Hm3 & Hb3 & Hw3 & Hbl3 & Hblk3 & Hout3).
  { destruct sso.
    - destruct (switch_sso m2 this n) as (m3 & ? & ? & ? & ? & Hb & Ho); [apply R2|lia|].
      exists m3. split_and!; try done; [by rewrite Hb|by intros; rewrite Hb|]. intros a Ha. apply Ho. unfold foot in Ha. lia.
    - unfold bind. rewrite (get_capacity_ok R2).
      destruct Hform as (_ & _ & _ & _ & _ & Hblp & _).
      destruct (release_old m2 m2 this p n cap d cap R2 Hib) as (m3 & ? & ? & ? & ? & Hb & Ho); try done.
      exists m3. split_and!; try done.
      + rewrite Hb, lookup_delete_ne; [done|]. intros ->. unfold disj in Hdp. lia.
      + intros q Hq. by rewrite Hb, lookup_delete_ne.
      + intros a Ha. apply Ho. unfold foot in Ha. lia. }
  wpx_run Hrun.
  destruct (install_run m3 this np n nc d1 (raw_this _ _ _ _ _ _ R) Hm3 Hb3 Hw3) as (m4 & Hrun4 & R4 & Hbl4 & Hout4);
    try done; try lia; [unfold max_in_buffer_size; lia| |].
  { intros i x Hi. rewrite Hout3; [auto|]. apply lookup_lt_Some in Hi. unfold foot, disj, zlen in *. lia. }
  eapply wpx_ok; [exact Hrun4|].
  exists np, nc, d1. split_and!; try done; try lia.
  destruct (alloc_fresh _ _ _ Hpick ltac:(lia)) as (_ & _ & _ & Hnone & _).
  pose proof (raw_cap R). apply grow_evolves; [intros; apply Hfr; lia| |done|lia|lia|].
  - intros a x Ha Hna Hnb. rewrite Hout4, Hout3; [auto|done|]. unfold foot in Hna. lia.
  - intros q Hne Hnq. rewrite Hbl4, Hblk3 by done. simpl. by rewrite lookup_insert_ne.
Qed.

End HeapOps.
