(* ===== verification/StringData.v ===== *)
(** * Loops over the data of a string

    The copy, fill and shift loops of [crossbow/string.hpp] as list operations on the
    data area, and the initialisation of a new object. *)

From S2P Require Import Prelude Memory String StringRep.

Import Str.

(** ** Writing into the data area *)

Section Write.
Context {this p n cap : Z}.

Lemma raw_eq m d d' : RawD m this p n cap d -> d = d' -> RawD m this p n cap d'.
Proof. by intros ? <-. Qed.

Lemma raw_store_ok m d i c :
  RawD m this p n cap d -> 0 <= i <= cap ->
  exists m', store (p + i) c m = Ok tt m' /\ RawD m' this p n cap (splice (Z.to_nat i) [c] d) /\
    evolves this m p cap m' p cap.
Proof.
  intros R Hi. eexists. split; [by eapply raw_store|]. apply raw_write; [done|lia|].
  change (zlen [c]) with 1. lia.
Qed.

Lemma raw_copy_in m d i s l :
  RawD m this p n cap d -> pts m s l -> clear_of this p cap s l -> 0 <= i -> i + zlen l <= cap + 1 ->
  exists m', copy (length l) s (p + i) m = Ok tt m' /\ RawD m' this p n cap (splice (Z.to_nat i) l d) /\
    evolves this m p cap m' p cap.
Proof.
  intros R Hs Hcl Hi Hl. destruct (raw_mapped m this p n cap d i l R Hi Hl) as (l0 & Hl0 & Hlen).
  eexists. split; [|by apply raw_write]. destruct Hcl as [->|[_ Hd]]; [by rewrite upd_nil|].
  eapply copy_ok; try done. unfold disj in Hd. lia.
Qed.

(** A loop that writes [l] byte by byte. *)
Lemma raw_loop l : forall m d k off body,
  RawD m this p n cap d -> 0 <= off -> off + zlen l <= cap + 1 ->
  (forall i c m1 d1, l !! i = Some c -> RawD m1 this p n cap d1 -> evolves this m p cap m1 p cap ->
     body (k + Z.of_nat i) m1 = store (p + (off + Z.of_nat i)) c m1) ->
  exists m', for_loop (length l) k body m = Ok tt m' /\
    RawD m' this p n cap (splice (Z.to_nat off) l d) /\ evolves this m p cap m' p cap.
Proof.
  induction l as [|c l IH]; intros m d k off body R Ho Hl Hbody; cbn [for_loop length].
  { exists m. rewrite splice_nil. split_and!; [done|done|apply evolves_refl]. }
  rewrite zlen_cons in Hl. pose proof (zlen_nonneg l).
  destruct (raw_store_ok m d off c R) as (m1 & Hst & R1 & Hev); [lia|].
  pose proof (Hbody 0%nat c m d eq_refl R (evolves_refl _ _ _ _)) as Hb0.
  rewrite !Z.add_0_r in Hb0. unfold bind. rewrite Hb0, Hst.
  destruct (IH m1 (splice (Z.to_nat off) [c] d) (k + 1) (off + 1) body R1) as (m2 & Hrun & R2 & Hev2); [lia|lia| |].
  { intros i c' m' d' Hi R' Hev'. replace (k + 1 + Z.of_nat i) with (k + Z.of_nat (S i)) by lia.
    replace (off + 1 + Z.of_nat i) with (off + Z.of_nat (S i)) by lia.
    apply (Hbody (S i) c' m' d'); [done|done|]. by eapply evolves_trans. }
  exists m2. split_and!; [done| |by eapply evolves_trans].
  replace (Z.to_nat (off + 1)) with (Z.to_nat off + length [c])%nat in R2 by (simpl; lia).
  rewrite splice_app in R2; [done|]. pose proof (raw_len _ _ _ _ _ _ R). unfold zlen in *. simpl. lia.
Qed.

Lemma raw_fill m d off k c :
  RawD m this p n cap d -> 0 <= off -> 0 <= k -> off + k <= cap + 1 ->
  exists m', for_loop (Z.to_nat k) 0 (fun i => store (p + (off + i)) c) m = Ok tt m' /\
    RawD m' this p n cap (splice (Z.to_nat off) (replicate (Z.to_nat k) c) d) /\ evolves this m p cap m' p cap.
Proof.
  intros R Ho Hk Hl.
  destruct (raw_loop (replicate (Z.to_nat k) c) m d 0 off (fun i => store (p + (off + i)) c) R Ho) as (m' & Hrun & Hrest).
  - unfold zlen. rewrite length_replicate. lia.
  - intros i c' m1 d1 Hi _ _. apply lookup_replicate in Hi as [-> _]. done.
  - exists m'. rewrite length_replicate in Hrun. done.
Qed.

Lemma raw_copy_loop m d off s l :
  RawD m this p n cap d -> pts m s l -> clear_of this p cap s l -> 0 <= off -> off + zlen l <= cap + 1 ->
  exists m', for_loop (length l) 0 (fun i => let! c := load (s + i) in store (p + (off + i)) c) m = Ok tt m' /\
    RawD m' this p n cap (splice (Z.to_nat off) l d) /\ evolves this m p cap m' p cap.
Proof.
  intros R Hs Ha Ho Hl. apply raw_loop; [done..|]. intros i c m1 d1 Hi _ Hev.
  unfold bind. rewrite Z.add_0_l. by rewrite (pts_load m1 s l i c (evolves_pts _ _ _ _ _ _ _ _ _ Hev Hs Ha) Hi).
Qed.

(** The shift loop, last character first: [j] characters moved so far. *)
Lemma shift_loop sz nsize j : forall i m d0,
  (j + i <= sz)%nat -> (sz <= nsize)%nat -> Z.of_nat nsize <= cap + 1 ->
  RawD m this p n cap (splice (nsize - i) (take i (drop (sz - i) d0)) d0) -> zlen d0 = cap + 1 ->
  exists m', for_loop j (Z.of_nat i) (fun i =>
      let! c := load (p + (Z.of_nat sz - 1 - i)) in store (p + (Z.of_nat nsize - 1 - i)) c) m = Ok tt m' /\
    RawD m' this p n cap (splice (nsize - (j + i)) (take (j + i) (drop (sz - (j + i)) d0)) d0) /\
    evolves this m p cap m' p cap.
Proof.
  induction j as [|j IH]; intros i m d0 Hi Hsz Hn R Hd0; cbn [for_loop].
  { exists m. split_and!; [done|done|apply evolves_refl]. }
  assert (length d0 = Z.to_nat (cap + 1)) as Hld by (unfold zlen in Hd0; lia).
  assert (length (take i (drop (sz - i) d0)) = i) as Hlt by (rewrite length_take, length_drop; lia).
  destruct (lookup_lt_is_Some_2 d0 (sz - 1 - i)) as [c Hc]; [lia|].
  assert (load (p + (Z.of_nat sz - 1 - Z.of_nat i)) m = Ok c m) as Hload.
  { eapply raw_load; [done|lia|]. rewrite lookup_splice by lia.
    rewrite decide_False by lia. rewrite <-Hc. f_equal. lia. }
  destruct (raw_store_ok m _ (Z.of_nat nsize - 1 - Z.of_nat i) c R) as (m1 & Hst & R1 & Hev1); [lia|].
  unfold bind at 1. unfold bind at 1. rewrite Hload, Hst.
  destruct (IH (S i) m1 d0) as (m2 & Hrun & R2 & Hev2); [lia|done|done| |done|].
  - apply (raw_eq _ _ _ R1). replace (Z.to_nat (Z.of_nat nsize - 1 - Z.of_nat i)) with (nsize - S i)%nat by lia.
    apply list_eq. intros x.
    assert (length (take (S i) (drop (sz - S i) d0)) = S i) as Hlt2 by (rewrite length_take, length_drop; lia).
    rewrite !lookup_splice; rewrite ?length_splice; rewrite ?Hlt, ?Hlt2; simpl; try lia.
    destruct (decide (x = nsize - S i)%nat) as [->|Hx].
    + rewrite decide_True by lia. rewrite decide_True by lia.
      rewrite Nat.sub_diag. simpl. rewrite lookup_take_lt, lookup_drop by lia. rewrite <-Hc. f_equal. lia.
    + rewrite decide_False by lia. destruct (decide (nsize - i <= x < nsize - i + i)%nat).
      * rewrite decide_True by lia. rewrite !lookup_take_lt, !lookup_drop by lia. f_equal. lia.
      * rewrite decide_False by lia. done.
  - exists m2. replace (Z.of_nat i + 1) with (Z.of_nat (S i)) by lia.
    replace (S j + i)%nat with (j + S i)%nat by lia. split_and!; [done|done|by eapply evolves_trans].
Qed.

(** [shift_up]: the [k] characters in front of [sz] end up in front of [nsize]. *)
Lemma shift_up_ok m d sz nsize k :
  RawD m this p n cap d -> 0 <= k <= sz -> sz <= nsize <= cap + 1 ->
  exists m', shift_up p sz nsize k m = Ok tt m' /\
    RawD m' this p n cap (splice (Z.to_nat (nsize - k)) (take (Z.to_nat k) (drop (Z.to_nat (sz - k)) d)) d) /\
    evolves this m p cap m' p cap.
Proof.
  intros R Hk Hn. destruct (shift_loop (Z.to_nat sz) (Z.to_nat nsize) (Z.to_nat k) 0 m d) as (m' & Hrun & R' & Hev);
    try lia.
  - by rewrite take_0, splice_nil.
  - apply R.
  - exists m'. rewrite !Nat.add_0_r in R'. unfold shift_up.
    rewrite !Z2Nat.id in Hrun by lia. split_and!; [exact Hrun| |done].
    by rewrite !Z2Nat.inj_sub by lia.
Qed.

End Write.

(** ** Initialisation *)

Section Init.
Context `{Allocator}.

(** Storage for a string object: 32 mapped bytes. *)
Definition slot (m : mem) (this : Z) : Prop :=
  0 < this /\ this + 32 < 2 ^ 64 /\ mapped m this 32 /\
  (forall a, this <= a < this + 32 -> blocks m !! a = None).

(** Before construction the object owns its 32 bytes only. *)
Abbreviation constructs this m m' p cap := (evolves this m this (-1) m' p cap).

Lemma obj_write_constructs m this m' p cap :
  (forall a, ~ (this <= a < this + 32) -> bytes m' !! a = bytes m !! a) ->
  (forall a, p <= a < p + (cap + 1) -> this <= a < this + 32) ->
  blocks m' = blocks m -> p = this + 1 -> blocks m !! p = None ->
  constructs this m m' p cap.
Proof.
  intros Hout Hin Hbl Hp Hnone. split_and!.
  - intros a x Ha Hna. rewrite Hout; [done|]. unfold foot in Hna. lia.
  - intros a [Ha|Ha]; left; left; auto.
  - by rewrite Hbl.
  - by right.
  - by rewrite Hbl.
Qed.

(** A construction that fails touches only the storage of the object, and needs more
    than the in-object buffer. *)
Definition failed (this : Z) (m : mem) (n : Z) (e : exn) (m' : mem) : Prop :=
  e = BadAlloc /\ max_in_buffer_size < n /\
  (forall a, ~ (this <= a < this + 32) -> bytes m' !! a = bytes m !! a) /\ blocks m' = blocks m.

Lemma init_sso m this count :
  slot m this -> 0 <= count <= max_in_buffer_size ->
  exists d m1, store this (u8 count) m = Ok tt m1 /\
    RawD m1 this (this + 1) count max_in_buffer_size d /\
    constructs this m m1 (this + 1) max_in_buffer_size.
Proof.
  intros (H0 & H1 & Hm & Hnb) Hc. unfold max_in_buffer_size in *.
  destruct (mapped_byte m this 32 this Hm) as [b Hb]; [lia|].
  destruct (mapped_sub m this 32 (this + 1) 31 Hm) as (d & Hd & Hl); [lia..|].
  exists d. eexists. split; [by apply (store_ok _ _ _ _ Hb)|]. change (zlen [u8 count]) with 1. split.
  - constructor; try done; try lia.
    + apply mapped_upd; [done|lia|change (zlen [u8 count]) with 1; lia].
    + apply pts_upd_disj; [done|]. left. change (zlen [u8 count]) with 1. lia.
    + left. split_and!; try done. simpl. rewrite lookup_insert_eq. f_equal. apply u8_small. lia.
  - apply obj_write_constructs; [|intros; lia|done|done|apply Hnb; lia].
    intros a Ha. rewrite lookup_upd. change (zlen [u8 count]) with 1. by rewrite decide_False by lia.
Qed.

(** Reading the NUL back. *)
Lemma splice_last {A} (d : list A) i c : (i < length d)%nat -> splice i [c] d !! i = Some c.
Proof.
  intros Hi. rewrite lookup_splice by (simpl; lia). rewrite decide_True by (simpl; lia).
  by rewrite Nat.sub_diag.
Qed.

Lemma init_ok m this count :
  slot m this -> 0 <= count < 2 ^ 64 - 1 ->
  wpx (init this count) m
    (fun _ m' => exists p cap d, RawD m' this p count cap d /\ d !! Z.to_nat count = Some 0 /\
       constructs this m m' p cap)
    (failed this m count).
Proof.
  intros Hsl Hc. unfold init. case_test.
  - destruct (init_sso m this count Hsl) as (d & m1 & Hst & R1 & Hev); [lia|].
    wpx_run Hst. wpx_run (end_ok R1).
    destruct (raw_store_ok m1 d count 0 R1) as (m2 & Hst2 & R2 & Hev2); [lia|].
    wpx_run Hst2. exists (this + 1), max_in_buffer_size, (splice (Z.to_nat count) [0] d).
    split_and!; [done| |by eapply evolves_trans].
    apply splice_last. pose proof (raw_len _ _ _ _ _ _ R1). pose proof (raw_size _ _ _ _ _ _ R1). unfold zlen in *. lia.
  - destruct Hsl as (H0 & H1 & Hm & Hnb). unfold max_in_buffer_size in *.
    destruct (switch_sso m this count Hm) as (m1 & Hrun & Hm1 & Hb1 & Hw1 & Hbl1 & Hout1); [lia|].
    assert (forall Q X, wpx (do! store this nullchar in set_size this count) m
      (fun _ m' => wpx (let! ptr := allocate (u64 (count + 1)) in do! set_capacity this count in
         do! set_ptr this ptr in let! e := end_ this in store e 0) m' Q X) X ->
      wpx (do! store this nullchar in do! set_size this count in let! ptr := allocate (u64 (count + 1)) in
         do! set_capacity this count in do! set_ptr this ptr in let! e := end_ this in store e 0) m Q X) as Hassoc.
    { intros Q X. unfold wpx, bind. destruct (store this nullchar m); [|done..].
      by destruct (set_size this count s). }
    apply Hassoc. clear Hassoc. eapply wpx_ok; [exact Hrun|]. cbv beta.
    rewrite u64_small by lia. apply wpx_bind. unfold allocate.
    destruct (alloc_pick m1 (count + 1)) as [np|] eqn:Hpick; [|by eapply wpx_throw; [rewrite Hpick|split_and!]].
    destruct (fresh_block m1 (count + 1) np this 32 Hpick) as (Hnp & Hnp2 & Hbl & Hdt & Hmt & (d0 & Hd0 & Hl0) & Hfr & Hsub);
      [lia|done|lia|]. set (m2 := new_block m1 np (count + 1)) in *.
    eapply (wpx_ok _ _ np m2); [by rewrite Hpick|]. cbv beta.
    destruct (install_run m2 this np count count d0) as (m3 & Hrun3 & R3 & Hbl3 & Hout3); try done; try lia.
    { by apply Hsub. }
    { destruct Hw1 as [Hw1 Hr]. split; [|done]. intros i x Hi. apply Hsub. auto. }
    assert (forall Q X, wpx (do! set_capacity this count in set_ptr this np) m2
      (fun _ m' => wpx (let! e := end_ this in store e 0) m' Q X) X ->
      wpx (do! set_capacity this count in do! set_ptr this np in let! e := end_ this in store e 0) m2 Q X) as Hassoc.
    { intros Q X. unfold wpx, bind. destruct (set_capacity this count m2); [|done..].
      by destruct (set_ptr this np s). }
    apply Hassoc. clear Hassoc. eapply wpx_ok; [exact Hrun3|]. cbv beta. wpx_run (end_ok R3).
    destruct (raw_store_ok m3 d0 count 0 R3) as (m4 & Hst4 & R4 & Hev4); [lia|].
    wpx_run Hst4. exists np, count, (splice (Z.to_nat count) [0] d0).
    split_and!; [done|apply splice_last; unfold zlen in *; lia|]. eapply evolves_trans; [|exact Hev4].
    destruct (alloc_fresh _ _ _ Hpick ltac:(lia)) as (_ & _ & _ & Hnone & _). rewrite Hbl1 in Hnone.
    split_and!; [| | |by right|].
    + intros a x Ha Hna. unfold foot in Hna. rewrite Hout3 by lia. apply Hsub. by rewrite Hout1 by lia.
    + intros a [Ha|Ha]; [left; by left|].
      destruct (decide (this <= a < this + 32)); [left; by left|right]. rewrite <-Hout1 by lia. by apply Hfr.
    + intros q k Hq _. rewrite Hbl3. simpl. rewrite lookup_insert_ne by congruence. by rewrite Hbl1.
    + intros a x Ha Hna. rewrite Hbl3. simpl. unfold foot in Hna. rewrite lookup_insert_ne; [by rewrite Hbl1|].
      intros <-. rewrite <-Hout1, Hfr in Ha by lia. done.
Qed.

End Init.
