(* ===== verification/StringOps.v ===== *)
(** * Strings: construction, assignment, modification

    Every operation of [crossbow/string.hpp] that changes a string, as a function on the
    list of its characters.  [updates] says that afterwards the object represents the
    list and that memory outside it is untouched; when an operation throws because
    memory is short or the string would be too long, nothing was changed. *)

From S2P Require Import Prelude Memory String StringRep StringData.

Import Str.

Definition updates (this : Z) (m : mem) (p cap : Z) (l : list Z) (m' : mem) : Prop :=
  exists p' cap', RepAt m' this l p' cap' /\ evolves this m p cap m' p' cap'.

(** A new object. *)
Definition created (this : Z) (m : mem) (l : list Z) (m' : mem) : Prop := updates this m this (-1) l m'.

(** Exceptions leave the memory as it was. *)
Definition strong {S} (m : S) (e : exn) (m' : S) : Prop := m' = m /\ (e = LengthError \/ e = BadAlloc).

(** ** From data area to string *)

Lemma rep_splice m this p cap l d :
  RawD m this p (zlen l) cap (splice 0 (l ++ [0]) d) -> RepAt m this l p cap.
Proof.
  intros R. exists (splice 0 (l ++ [0]) d). split; [done|].
  replace (S (length l)) with (0 + length (l ++ [0%Z]))%nat by (rewrite length_app; simpl; lia).
  rewrite take_splice_end by lia. done.
Qed.

Lemma length_splice0 {A} (l d : list A) : length (splice 0 l d) = Nat.max (length l) (length d).
Proof. unfold splice. simpl. rewrite length_app, length_drop. lia. Qed.

(** Characters written from the start, then the NUL behind them. *)
Lemma splice_terminated {A} (l : list A) c d :
  (length l < length d)%nat -> splice (length l) [c] (splice 0 l d) = splice 0 (l ++ [c]) d.
Proof. intros. rewrite <-(splice_app 0 l [c] d) by (simpl; lia). done. Qed.

Lemma rep_terminated m this p cap l d :
  RawD m this p (zlen l) cap (splice (length l) [0] (splice 0 l d)) -> (length l < length d)%nat ->
  RepAt m this l p cap.
Proof. intros R Hl. rewrite splice_terminated in R by done. by eapply rep_splice. Qed.

Lemma rep_raw m this l p cap : RepAt m this l p cap ->
  exists d, RawD m this p (zlen l) cap d /\ take (length l) d = l /\ d !! length l = Some 0 /\
    (length l < length d)%nat.
Proof.
  intros (d & R & Ht). exists d. split; [done|].
  pose proof (raw_len _ _ _ _ _ _ R). pose proof (raw_size _ _ _ _ _ _ R).
  assert (length l < length d)%nat as Hl by (unfold zlen in *; lia). split_and!; [| |done].
  - pose proof (f_equal (take (length l)) Ht) as Ht'. rewrite take_take, Nat.min_l in Ht' by lia.
    by rewrite take_app_length in Ht'.
  - rewrite <-(lookup_take_lt d (S (length l))) by lia. rewrite Ht.
    by rewrite lookup_app_r, Nat.sub_diag by lia.
Qed.

(** The NUL behind the characters survives overwriting them. *)
Lemma take_splice_nul l d : d !! length l = Some 0 -> (length l < length d)%nat ->
  take (S (length l)) (splice 0 l d) = l ++ [0].
Proof.
  intros Hz Hl. rewrite (take_S_r _ _ 0).
  - f_equal. change (length l) with (0 + length l)%nat at 1. by rewrite take_splice_end by lia.
  - rewrite lookup_splice by lia. by rewrite decide_False by lia.
Qed.

Lemma rep_pts m this l p cap : RepAt m this l p cap -> pts m p (l ++ [0]).
Proof. intros (d & R & <-). apply pts_take. apply R. Qed.

(** ** Two strings *)

(** The objects share no byte. *)
Definition separate (this p cap str q c : Z) : Prop :=
  forall a, foot this p cap a -> foot str q c a -> False.

Lemma raw_foot_mapped m this p n cap d a :
  RawD m this p n cap d -> foot this p cap a -> exists x, bytes m !! a = Some x.
Proof.
  intros R [Ha|Ha]; [by eapply mapped_byte; [apply R|]|].
  eapply (mapped_byte m p (cap + 1)); [|lia]. exists d. split; apply R.
Qed.

Lemma evolves_rep this m p cap m' p' cap' str k q c :
  evolves this m p cap m' p' cap' -> RepAt m str k q c -> separate this p cap str q c -> 0 <= cap \/ p = this ->
  RepAt m' str k q c /\ separate this p' cap' str q c.
Proof.
  intros (H1 & H2 & H3 & _) (d & R & Ht) Hsep Hcap. split.
  - exists d. split; [|done]. eapply raw_frame; [| |exact R].
    + intros a x Ha Hf. apply H1; [done|]. intros Hf'. by eapply Hsep.
    + intros Hb. apply H3; [done|]. intros ->. pose proof (raw_cap R). apply (Hsep p); unfold foot; lia.
  - intros a Ha Hf. destruct (H2 a Ha) as [?|Hn]; [by eapply Hsep|].
    destruct (raw_foot_mapped _ _ _ _ _ _ _ R Hf) as [x Hx]. congruence.
Qed.

(** The characters of a separate string are outside this one. *)
Lemma separate_clear m this p cap str k q c :
  RepAt m str k q c -> separate this p cap str q c -> 0 <= cap ->
  pts m q k /\ clear_of this p cap q k.
Proof.
  intros HR Hsep Hcap. pose proof (rep_pts _ _ _ _ _ HR) as Hp. apply pts_app in Hp as [Hp _].
  split; [done|]. destruct k as [|x k]; [by left|right]. destruct HR as (d & R & _).
  pose proof (raw_size _ _ _ _ _ _ R). unfold separate, foot in Hsep.
  pose proof (zlen_nonneg k). rewrite zlen_cons in *. split; unfold disj.
  - destruct (decide (this + 32 <= q)); [by left|]. destruct (decide (q + (1 + zlen k) <= this)); [by right|].
    exfalso. apply (Hsep (Z.max this q)); lia.
  - destruct (decide (p + (cap + 1) <= q)); [by left|]. destruct (decide (q + (1 + zlen k) <= p)); [by right|].
    exfalso. apply (Hsep (Z.max p q)); lia.
Qed.

Section Ops.
Context `{Allocator}.

(** ** Reading *)

Lemma rep_cap m this l p cap : RepAt m this l p cap -> 30 <= cap /\ zlen l <= cap < 2 ^ 64 /\ 0 < p /\ p + cap + 1 < 2 ^ 64.
Proof.
  intros (d & R & _). pose proof (raw_cap R). pose proof (raw_size _ _ _ _ _ _ R).
  pose proof (raw_ptr _ _ _ _ _ _ R). lia.
Qed.

Lemma rep_size m this l p cap : RepAt m this l p cap -> size this m = Ok (zlen l) m.
Proof. intros (d & R & _). apply (size_ok R). Qed.
Lemma rep_begin m this l p cap : RepAt m this l p cap -> begin this m = Ok p m.
Proof. intros (d & R & _). apply (begin_ok R). Qed.
Lemma rep_get_ptr m this l p cap : RepAt m this l p cap -> get_ptr this m = Ok p m.
Proof. intros (d & R & _). apply (get_ptr_ok R). Qed.
Lemma rep_end m this l p cap : RepAt m this l p cap -> end_ this m = Ok (p + zlen l) m.
Proof. intros (d & R & _). apply (end_ok R). Qed.

Lemma steps_to_len p (l : list Z) : zlen l < 2 ^ 64 -> steps_to p (p + zlen l) = length l.
Proof.
  intros Hl. unfold steps_to. replace (p + zlen l - p) with (zlen l) by lia.
  pose proof (zlen_nonneg l). rewrite u64_small by lia. unfold zlen. lia.
Qed.

(** ** Construction *)

Lemma init_thenx m this (l : list Z) (k : St mem unit) (Q : unit -> mem -> Prop) (X : exn -> mem -> Prop) :
  slot m this -> zlen l < 2 ^ 64 - 1 -> (forall e m', failed this m (zlen l) e m' -> X e m') ->
  (forall m1 p cap d, RawD m1 this p (zlen l) cap d -> d !! length l = Some 0 ->
     evolves this m this (-1) m1 p cap -> 0 <= cap -> wpx k m1 Q X) ->
  wpx (do! init this (zlen l) in k) m Q X.
Proof.
  intros Hsl Hl HX Hk. apply wpx_bind. eapply wpx_mono; [apply init_ok; [done|]|..|exact HX].
  { pose proof (zlen_nonneg l). lia. }
  intros _ m1 (p & cap & d & R & Hd & Hev). unfold zlen in Hd. rewrite Nat2Z.id in Hd.
  pose proof (raw_cap R). by apply (Hk m1 p cap d); try lia.
Qed.

Lemma init_then m this (l : list Z) (k : St mem unit) (Q : unit -> mem -> Prop) :
  slot m this -> zlen l < 2 ^ 64 - 1 ->
  (forall m1 p cap d, RawD m1 this p (zlen l) cap d -> d !! length l = Some 0 ->
     evolves this m this (-1) m1 p cap -> 0 <= cap -> wpx k m1 Q (fun e _ => e = BadAlloc)) ->
  wpx (do! init this (zlen l) in k) m Q (fun e _ => e = BadAlloc).
Proof. intros Hsl Hl. apply init_thenx; [done..|]. by intros e m' []. Qed.

(** A source region outside the object under construction. *)
Definition outside (this s : Z) (k : list Z) : Prop := k = [] \/ disj this 32 s (zlen k).

Lemma outside_clear this s k m : outside this s k -> pts m s k -> clear_of this this (-1) s k.
Proof.
  intros [->|Hd] Hk; [by left|]. destruct k as [|c k]; [by left|right]. split; [done|].
  unfold disj in *. lia.
Qed.

Lemma ctor_range_ok m this s l :
  slot m this -> zlen l < 2 ^ 64 - 1 -> pts m s l -> outside this s l ->
  wpx (ctor_range this s (zlen l)) m (fun _ m' => created this m l m') (fun e _ => e = BadAlloc).
Proof.
  intros Hsl Hl Hs Ho. apply init_then; [done..|]. intros m1 p cap d R1 _ Hev1 Hcap.
  wpx_run (get_ptr_ok R1). pose proof (outside_clear _ _ _ _ Ho Hs) as Hcl.
  pose proof (evolves_pts _ _ _ _ _ _ _ _ _ Hev1 Hs Hcl) as Hs1.
  pose proof (evolves_clear _ _ _ _ _ _ _ _ _ Hev1 Hs Hcl Hcap) as Hcl1.
  pose proof (raw_size _ _ _ _ _ _ R1) as Hn1. pose proof (raw_len _ _ _ _ _ _ R1) as Hlen.
  destruct (raw_copy_in m1 d 0 s l R1 Hs1 Hcl1) as (m2 & Hrun & R2 & Hev2); [lia..|].
  rewrite Z.add_0_r in Hrun. replace (Z.to_nat (zlen l)) with (length l) by (unfold zlen; lia).
  wpx_run Hrun.
  destruct (raw_store_ok m2 _ (zlen l) 0 R2) as (m3 & Hst & R3 & Hev3); [lia|].
  wpx_run Hst. exists p, cap. split; [|by do 2 (eapply evolves_trans; [eassumption|])].
  replace (Z.to_nat (zlen l)) with (length l) in R3 by (unfold zlen; lia).
  eapply rep_terminated; [exact R3|]. unfold zlen in *. lia.
Qed.

Lemma ctor_fill_ok m this count ch :
  slot m this -> 0 <= count < 2 ^ 64 - 1 ->
  wpx (ctor_fill this count ch) m (fun _ m' => created this m (replicate (Z.to_nat count) ch) m')
    (fun e _ => e = BadAlloc).
Proof.
  intros Hsl Hc. remember (replicate (Z.to_nat count) ch) as l eqn:El.
  assert (count = zlen l) as -> by (rewrite El; unfold zlen; rewrite length_replicate; lia).
  apply init_then; [done|lia|]. intros m1 p cap d R1 _ Hev1 Hcap.
  pose proof (raw_size _ _ _ _ _ _ R1) as Hn1. pose proof (raw_len _ _ _ _ _ _ R1) as Hlen.
  wpx_run (get_ptr_ok R1).
  destruct (raw_fill m1 d 0 (zlen l) ch R1) as (m2 & Hrun & R2 & Hev2); [lia..|].
  wpx_run Hrun.
  destruct (raw_store_ok m2 _ (zlen l) 0 R2) as (m3 & Hst & R3 & Hev3); [lia|].
  wpx_run Hst. exists p, cap. split; [|by do 2 (eapply evolves_trans; [eassumption|])].
  rewrite <-El in R3. replace (Z.to_nat (zlen l)) with (length l) in R3 by (unfold zlen; lia).
  eapply rep_terminated; [exact R3|]. unfold zlen in *. lia.
Qed.

Lemma ctor_cstr_ok m this s l :
  slot m this -> pts m s (l ++ [0]) -> Forall (fun b => b <> 0) l -> outside this s l -> zlen l < 2 ^ 64 - 1 ->
  wpx (ctor_cstr this s) m (fun _ m' => created this m l m') (fun e _ => e = BadAlloc).
Proof.
  intros Hsl Hs Hnz Ho Hl. unfold ctor_cstr. wpx_run (traits_length_ok m s l Hs Hnz).
  pose proof Hs as Hs0. apply pts_app in Hs0 as [Hs0 _].
  apply init_then; [done..|]. intros m1 p cap d R1 Hd Hev1 Hcap.
  wpx_run (get_ptr_ok R1). pose proof (outside_clear _ _ _ _ Ho Hs0) as Hcl.
  pose proof (evolves_pts _ _ _ _ _ _ _ _ _ Hev1 Hs0 Hcl) as Hs1.
  pose proof (evolves_clear _ _ _ _ _ _ _ _ _ Hev1 Hs0 Hcl Hcap) as Hcl1.
  pose proof (raw_size _ _ _ _ _ _ R1) as Hn1. pose proof (raw_len _ _ _ _ _ _ R1) as Hlen.
  destruct (raw_copy_in m1 d 0 s l R1 Hs1 Hcl1) as (m2 & Hrun & R2 & Hev2); [lia..|].
  rewrite Z.add_0_r in Hrun. replace (Z.to_nat (zlen l)) with (length l) by (unfold zlen; lia).
  wpx_run Hrun. exists p, cap. split; [|by eapply evolves_trans].
  eexists. split; [exact R2|]. apply take_splice_nul; [done|unfold zlen in *; lia].
Qed.

(** [basic_string()]. *)
Lemma ctor_default_ok m this :
  slot m this -> wp (ctor_default this) m (fun _ m' => created this m [] m').
Proof.
  intros (H0 & H1 & Hm & Hnb). pose proof Hm as (o & Ho & Hol). unfold ctor_default.
  assert (clear_arr this m = Ok tt (upd m this (replicate 32 0))) as Hclr.
  { unfold clear_arr, memset. eapply store_bytes_ok; [exact Ho|]. unfold zlen in Hol. rewrite length_replicate. lia. }
  apply wp_bind. unfold wp at 1. rewrite Hclr. set (m1 := upd m this (replicate 32 0)).
  assert (slot m1 this) as Hsl1 by (split_and!; [done|done|apply mapped_upd; [done|lia|done]|done]).
  destruct (init_sso m1 this 0 Hsl1) as (d & m2 & Hst & R & Hev); [unfold max_in_buffer_size; lia|].
  change (u8 0) with 0 in Hst. unfold wp. rewrite Hst. exists (this + 1), max_in_buffer_size. split.
  - exists d. split; [exact R|]. destruct d as [|b d]; [by pose proof (raw_len _ _ _ _ _ _ R)|].
    change (take (S (length [])) (b :: d)) with [b]. simpl. f_equal. pose proof (raw_data _ _ _ _ _ _ R) as Hd. apply pts_cons in Hd as [Hb _].
    destruct Hev as (_ & _ & _ & _). assert (bytes m2 !! (this + 1) = Some 0) as Hb0; [|congruence].
    apply store_inv in Hst as ->. rewrite lookup_upd. rewrite decide_False by (change (zlen [0]) with 1; lia).
    unfold m1. rewrite lookup_upd. rewrite decide_True by (change (zlen (replicate 32 0)) with 32; lia).
    by replace (Z.to_nat (this + 1 - this)) with 1%nat by lia.
  - eapply evolves_trans; [|exact Hev]. apply evolves_inplace; [|done].
    intros a x Ha Hna. unfold m1. rewrite lookup_upd. unfold foot in Hna.
    rewrite decide_False by (change (zlen (replicate 32 0)) with 32; lia). done.
Qed.

(** The copy constructor. *)
Lemma ctor_copy_ok m this other l q c :
  slot m this -> RepAt m other l q c -> separate this this (-1) other q c -> zlen l < 2 ^ 64 - 1 ->
  wpx (ctor_copy this other) m (fun _ m' => created this m l m' /\ RepAt m' other l q c) (fun e _ => e = BadAlloc).
Proof.
  intros Hsl HR Hsep Hl. pose proof HR as (d & R & Ht). unfold ctor_copy.
  destruct (in_buffer_ok R) as ([] & Hib & Hf); wpx_run Hib.
  - destruct Hf as (Hb & -> & ->). destruct (raw_obj _ _ _ _ _ _ R) as (o & Ho & Hol).
    assert (o = zlen l :: d) as ->.
    { eapply pts_inj; [exact Ho|apply pts_cons; split; [done|apply R]|]. pose proof (raw_len _ _ _ _ _ _ R).
      unfold zlen, max_in_buffer_size in *. simpl. lia. }
    destruct Hsl as (H0 & H1 & Hm & Hnb). pose proof Hm as (o & Hto & Htl).
    assert (memcpy this other 32 m = Ok tt (upd m this (zlen l :: d))) as Hcp.
    { assert (length (zlen l :: d) = 32%nat) as L32 by (rewrite zlen_cons in Hol; unfold zlen in Hol; simpl; lia).
      rewrite <-L32. eapply memcpy_ok; [done|done|]. unfold zlen in Htl. lia. }
    eapply wpx_ok; [exact Hcp|]. pose proof (pts_upd_same m this (zlen l :: d)) as Hnew.
    apply pts_cons in Hnew as [Hn0 Hnd]. pose proof R as [_ _ Hs Hd Hld _ _].
    assert (evolves this m this (-1) (upd m this (zlen l :: d)) (this + 1) max_in_buffer_size) as Hev.
    { apply obj_write_constructs; [|unfold max_in_buffer_size; intros; lia|done|done|apply Hnb; lia].
      intros a Ha. rewrite lookup_upd. rewrite Hol. by rewrite decide_False by lia. }
    split; [|by destruct (evolves_rep _ _ _ _ _ _ _ _ _ _ _ Hev HR Hsep ltac:(by right))].
    exists (this + 1), max_in_buffer_size. split; [|done]. exists d. split; [|done].
    constructor; try done; try (unfold max_in_buffer_size in *; lia).
    + apply mapped_upd; [done|lia|lia].
    + left. by split_and!.
  - wpx_run (size_ok R). apply init_then; [done..|]. intros m1 p cap d1 R1 Hz Hev1 Hcap.
    destruct (evolves_rep _ _ _ _ _ _ _ _ _ _ _ Hev1 HR Hsep ltac:(by right)) as [HR1 Hsep1].
    destruct (separate_clear _ _ _ _ _ _ _ _ HR1 Hsep1 ltac:(lia)) as [Hq Hcl].
    wpx_run (rep_begin _ _ _ _ _ HR1). wpx_run (rep_end _ _ _ _ _ HR1). wpx_run (begin_ok R1).
    rewrite steps_to_len by lia. pose proof (raw_size _ _ _ _ _ _ R1). pose proof (raw_len _ _ _ _ _ _ R1) as Hlen.
    destruct (raw_copy_in m1 d1 0 q l R1 Hq Hcl) as (m2 & Hrun & R2 & Hev2); [lia..|].
    rewrite Z.add_0_r in Hrun. wpx_run Hrun. wpx_run (get_ptr_ok R2).
    destruct (raw_store_ok m2 _ (zlen l) 0 R2) as (m3 & Hst & R3 & Hev3); [lia|]. eapply wpx_ok; [exact Hst|].
    assert (evolves this m1 p cap m3 p cap) as Hev13 by (by eapply evolves_trans).
    split; [|by destruct (evolves_rep _ _ _ _ _ _ _ _ _ _ _ Hev13 HR1 Hsep1 ltac:(by left))].
    exists p, cap. split; [|by eapply evolves_trans].
    replace (Z.to_nat (zlen l)) with (length l) in R3 by (unfold zlen; lia).
    eapply rep_terminated; [exact R3|]. unfold zlen in *. lia.
Qed.

(** [basic_string(other, pos, count)] and [substr]. *)
Lemma ctor_substr_ok m this other l q c pos count :
  slot m this -> RepAt m other l q c -> separate this this (-1) other q c ->
  0 <= pos -> 0 <= count -> zlen l < 2 ^ 64 - 1 ->
  wpx (ctor_substr this other pos count) m
    (fun _ m' => pos <= zlen l /\ updates this m this (-1) (take (Z.to_nat count) (drop (Z.to_nat pos) l)) m' /\
       RepAt m' other l q c)
    (fun e m' => if zlen l <? pos then e = OutOfRange /\ m' = m else failed this m (zlen l) e m').
Proof.
  intros Hsl HR Hsep Hpos Hcount Hl. unfold ctor_substr. wpx_run (rep_size _ _ _ _ _ HR). case_test.
  { eapply wpx_throw; done. }
  set (k := take (Z.to_nat count) (drop (Z.to_nat pos) l)).
  assert (zlen k = if zlen l - pos <? count then zlen l - pos else count) as Hk.
  { unfold k, zlen in *. rewrite length_take, length_drop. case_test; lia. }
  assert (exists m0, (if pos =? zlen l then clear_arr this else ret tt) m = Ok tt m0 /\
    slot m0 this /\ evolves this m this (-1) m0 this (-1) /\
    (forall a, ~ (this <= a < this + 32) -> bytes m0 !! a = bytes m !! a) /\ blocks m0 = blocks m)
    as (m0 & Hrun0 & Hsl0 & Hev0 & Hout0 & Hbl0).
  { destruct (pos =? zlen l); [|exists m; split_and!; try done; apply evolves_refl].
    destruct Hsl as (H0 & H1 & Hm & Hnb). pose proof Hm as (o & Ho & Hol).
    exists (upd m this (replicate 32 0)). split_and!.
    - unfold clear_arr, memset. eapply store_bytes_ok; [exact Ho|]. unfold zlen in Hol. rewrite length_replicate. lia.
    - split_and!; [done|done|apply mapped_upd; [done|lia|done]|done].
    - apply evolves_inplace; [|done]. intros a x Ha Hna. rewrite lookup_upd. unfold foot in Hna.
      rewrite decide_False by (change (zlen (replicate 32 0)) with 32; lia). done.
    - intros a Ha. rewrite lookup_upd. by rewrite decide_False by (change (zlen (replicate 32 0)) with 32; lia).
    - done. }
  wpx_run Hrun0. rewrite <-Hk. pose proof (zlen_nonneg k).
  destruct (evolves_rep _ _ _ _ _ _ _ _ _ _ _ Hev0 HR Hsep ltac:(by right)) as [HR0 Hsep0].
  apply init_thenx; [done|destruct (zlen l - pos <? count) eqn:E; bool_prop; lia| |].
  { intros e m' (-> & Hn & Ho & Hb). split_and!; [done| |by intros; rewrite Ho, Hout0|congruence].
    destruct (zlen l - pos <? count) eqn:E; bool_prop; lia. }
  intros m1 p cap d1 R1 Hz Hev1 Hcap.
  destruct (evolves_rep _ _ _ _ _ _ _ _ _ _ _ Hev1 HR0 Hsep0 ltac:(by right)) as [HR1 Hsep1].
  destruct (separate_clear _ _ _ _ _ _ _ _ HR1 Hsep1 ltac:(lia)) as [Hq Hcl].
  assert (pts m1 (q + pos) k /\ clear_of this p cap (q + pos) k) as [Hqk Hclk].
  { split.
    - replace (q + pos) with (q + Z.of_nat (Z.to_nat pos)) by lia. by apply pts_take, pts_drop.
    - destruct (decide (k = [])); [by left|right]. destruct Hcl as [->|[Ha Hb]].
      { exfalso. apply n. unfold k. by rewrite drop_nil, take_nil. }
      split; unfold disj in *; unfold k, zlen in *; rewrite length_take, length_drop in *; lia. }
  wpx_run (get_ptr_ok R1). wpx_run (rep_get_ptr _ _ _ _ _ HR1).
  replace (Z.to_nat (zlen k)) with (length k) by (unfold zlen; lia).
  pose proof (raw_size _ _ _ _ _ _ R1). pose proof (raw_len _ _ _ _ _ _ R1) as Hlen.
  destruct (raw_copy_in m1 d1 0 (q + pos) k R1 Hqk Hclk) as (m2 & Hrun & R2 & Hev2); [lia..|].
  rewrite Z.add_0_r in Hrun. wpx_run Hrun.
  destruct (raw_store_ok m2 _ (zlen k) 0 R2) as (m3 & Hst & R3 & Hev3); [lia|]. eapply wpx_ok; [exact Hst|].
  assert (evolves this m1 p cap m3 p cap) as Hev13 by (by eapply evolves_trans).
  split; [lia|]. split; [|by destruct (evolves_rep _ _ _ _ _ _ _ _ _ _ _ Hev13 HR1 Hsep1 ltac:(by left))].
  exists p, cap. split; [|by do 2 (eapply evolves_trans; [eassumption|])].
  replace (Z.to_nat (zlen k)) with (length k) in R3 by (unfold zlen; lia).
  eapply rep_terminated; [exact R3|]. unfold zlen in *. lia.
Qed.

(** ** Growing and assigning *)

Lemma reserve_then m this p cap l c (k : St mem unit) (Q : unit -> mem -> Prop) :
  RepAt m this l p cap -> 0 <= c < 2 ^ 64 ->
  (forall m1 p1 cap1 d1, RawD m1 this p1 (zlen l) cap1 d1 -> take (length l) d1 = l ->
     d1 !! length l = Some 0 -> c <= cap1 -> evolves this m p cap m1 p1 cap1 -> wpx k m1 Q (strong m)) ->
  wpx (do! reserve this c in k) m Q (strong m).
Proof.
  intros HR Hc Hk. apply rep_raw in HR as (d & R & Hd & Hz & Hlen). apply wpx_bind.
  eapply wpx_mono; [by apply (reserve_ok m this p (zlen l) cap d c)| |done].
  intros _ m1 (p1 & cap1 & d1 & R1 & Hc1 & Hcap1 & Ht & Hev).
  replace (Z.to_nat (zlen l + 1)) with (S (length l)) in Ht by (unfold zlen; lia).
  assert (forall i, (i <= length l)%nat -> d1 !! i = d !! i) as Hsame.
  { intros i Hi. rewrite <-(lookup_take_lt d1 (S (length l))), Ht by lia. by rewrite lookup_take_lt by lia. }
  apply (Hk m1 p1 cap1 d1); try done.
  - rewrite <-Hd at 2. apply list_eq. intros i. destruct (decide (i < length l)%nat).
    + rewrite !lookup_take_lt by lia. apply Hsame. lia.
    + rewrite !lookup_take_ge by lia. done.
  - rewrite Hsame by lia. done.
Qed.

(** The last steps of every assignment: [set_size(n); *end() = 0]. *)
Lemma finish_ok m this p n cap l d X :
  RawD m this p n cap (splice 0 l d) -> zlen l <= cap ->
  wpx (do! set_size this (zlen l) in let! e := end_ this in store e 0) m
    (fun _ m' => updates this m p cap l m') X.
Proof.
  intros R Hl. pose proof (zlen_nonneg l). pose proof (raw_len _ _ _ _ _ _ R) as Hlen.
  destruct (set_size_ok _ _ _ _ _ _ (zlen l) R) as (m1 & Hs & R1 & Hev1); [lia|].
  wpx_run Hs. wpx_run (end_ok R1).
  destruct (raw_store_ok m1 _ (zlen l) 0 R1) as (m2 & Hst & R2 & Hev2); [lia|].
  wpx_run Hst. exists p, cap. split; [|by eapply evolves_trans].
  replace (Z.to_nat (zlen l)) with (length l) in R2 by (unfold zlen; lia).
  eapply rep_terminated; [exact R2|]. unfold zlen in Hlen. rewrite length_splice0 in Hlen. unfold zlen in *. lia.
Qed.

Lemma updates_trans this m p cap m1 p1 cap1 l m2 :
  evolves this m p cap m1 p1 cap1 -> updates this m1 p1 cap1 l m2 -> updates this m p cap l m2.
Proof. intros Hev (p2 & cap2 & HR & Hev2). exists p2, cap2. split; [done|]. by eapply evolves_trans. Qed.

(** [assign(s, count)], [operator=] from a C string and the initializer-list forms share
    their body. *)
Lemma assign_body m this p cap l0 s l :
  RepAt m this l0 p cap -> pts m s l -> clear_of this p cap s l -> zlen l < 2 ^ 64 ->
  wpx (assign_range this s (zlen l)) m (fun _ m' => updates this m p cap l m') (strong m).
Proof.
  intros HR Hs Hcl Hl. pose proof (zlen_nonneg l). eapply reserve_then; [done|lia|].
  intros m1 p1 cap1 d1 R1 Ht Hz Hc Hev. pose proof (raw_cap R1).
  pose proof (evolves_pts _ _ _ _ _ _ _ _ _ Hev Hs Hcl) as Hs1.
  pose proof (evolves_clear _ _ _ _ _ _ _ _ _ Hev Hs Hcl ltac:(lia)) as Hcl1.
  wpx_run (begin_ok R1).
  destruct (raw_copy_in m1 d1 0 s l R1 Hs1 Hcl1) as (m2 & Hrun & R2 & Hev2); [lia..|].
  rewrite Z.add_0_r in Hrun. replace (Z.to_nat (zlen l)) with (length l) by (unfold zlen; lia).
  wpx_run Hrun. eapply wpx_mono; [by eapply finish_ok| |done].
  intros ? m3 Hu. eapply updates_trans; [|exact Hu]. by eapply evolves_trans.
Qed.

(** ** Copying between strings *)

(** [operator=(const basic_string&)]. *)
Lemma assign_copy_ok m this p cap l0 str l q c :
  RepAt m this l0 p cap -> RepAt m str l q c -> separate this p cap str q c ->
  wpx (assign_copy this str) m
    (fun _ m' => updates this m p cap l m' /\ RepAt m' str l q c) (strong m).
Proof.
  intros HR HS Hsep. destruct (rep_cap _ _ _ _ _ HR) as [Hc30 _]. destruct (rep_cap _ _ _ _ _ HS) as (_ & Hl & _).
  unfold assign_copy. wpx_run (rep_size _ _ _ _ _ HS). pose proof (zlen_nonneg l).
  eapply reserve_then; [done|lia|]. intros m1 p1 cap1 d1 R1 Ht Hz Hc Hev. pose proof (raw_cap R1).
  destruct (evolves_rep _ _ _ _ _ _ _ _ _ _ _ Hev HS Hsep ltac:(lia)) as [HS1 Hsep1].
  destruct (separate_clear _ _ _ _ _ _ _ _ HS1 Hsep1 ltac:(lia)) as [Hp1 Hcl1].
  wpx_run (rep_begin _ _ _ _ _ HS1). wpx_run (rep_end _ _ _ _ _ HS1). wpx_run (begin_ok R1).
  rewrite steps_to_len by lia.
  destruct (raw_copy_in m1 d1 0 q l R1 Hp1 Hcl1) as (m2 & Hrun & R2 & Hev2); [lia..|].
  rewrite Z.add_0_r in Hrun. wpx_run Hrun.
  destruct (evolves_rep _ _ _ _ _ _ _ _ _ _ _ Hev2 HS1 Hsep1 ltac:(lia)) as [HS2 Hsep2].
  wpx_run (rep_size _ _ _ _ _ HS2). eapply wpx_mono; [by eapply finish_ok| |done].
  intros ? m3 (p3 & cap3 & HR3 & Hev3).
  destruct (evolves_rep _ _ _ _ _ _ _ _ _ _ _ Hev3 HS2 Hsep2 ltac:(lia)) as [HS3 _]. split; [|done].
  exists p3, cap3. split; [done|]. do 2 (eapply evolves_trans; [eassumption|]). done.
Qed.

(** [assign(count, ch)]. *)
Lemma assign_fill_ok m this p cap l0 count ch :
  RepAt m this l0 p cap -> 0 <= count < 2 ^ 64 ->
  wpx (assign_fill this count ch) m
    (fun _ m' => updates this m p cap (replicate (Z.to_nat count) ch) m') (strong m).
Proof.
  intros HR Hcount. unfold assign_fill. eapply reserve_then; [done|lia|].
  intros m1 p1 cap1 d1 R1 _ _ Hc Hev. pose proof (raw_cap R1). wpx_run (begin_ok R1).
  destruct (raw_fill m1 d1 0 count ch R1) as (m2 & Hrun & R2 & Hev2); [lia..|]. wpx_run Hrun.
  remember (replicate (Z.to_nat count) ch) as l eqn:El.
  assert (count = zlen l) as -> by (rewrite El; unfold zlen; rewrite length_replicate; lia).
  eapply wpx_mono; [by eapply finish_ok| |done].
  intros ? m3 Hu. eapply updates_trans; [|exact Hu]. by eapply evolves_trans.
Qed.

(** ** One character at a time *)

(** Appending one character to the data area. *)
Lemma snoc_splices (l d : list Z) c :
  take (length l) d = l -> (S (length l) < length d)%nat ->
  take (S (S (length l))) (splice (S (length l)) [0] (splice (length l) [c] d)) = (l ++ [c]) ++ [0].
Proof.
  intros Ht Hl. rewrite <-app_assoc. replace (S (length l)) with (length l + length [c])%nat at 2 by (simpl; lia).
  rewrite splice_app by (simpl; lia).
  replace (S (S (length l))) with (length l + length [c; 0%Z])%nat by (simpl; lia).
  rewrite take_splice_end by lia. by rewrite Ht.
Qed.

Lemma push_back_ok m this p cap l c :
  RepAt m this l p cap ->
  wpx (push_back this c) m (fun _ m' => updates this m p cap (l ++ [c]) m') (strong m).
Proof.
  intros HR. destruct (rep_cap _ _ _ _ _ HR) as (Hc30 & Hl & Hp). pose proof HR as (d & R & _).
  unfold push_back. wpx_run (rep_size _ _ _ _ _ HR). wpx_run (capacity_ok R).
  pose proof (zlen_nonneg l).
  assert (wpx (if zlen l =? cap then let! n := size this in reserve this (u64 (n + 1)) else ret tt) m
    (fun _ m1 => exists p1 cap1 d1, RawD m1 this p1 (zlen l) cap1 d1 /\ take (length l) d1 = l /\
       zlen l + 1 <= cap1 /\ evolves this m p cap m1 p1 cap1) (strong m)) as Hgrow.
  { apply rep_raw in HR as (d0 & R0 & Hd & Hz & Hlen). destruct (zlen l =? cap) eqn:E; bool_prop.
    - wpx_run (size_ok R0). rewrite u64_small by lia.
      eapply wpx_mono; [apply (reserve_ok m this p (zlen l) cap d0 (zlen l + 1) R0); lia| |done].
      intros ? m1 (p1 & cap1 & d1 & R1 & Hc1 & _ & Ht & Hev). exists p1, cap1, d1. split_and!; try done.
      pose proof (f_equal (take (length l)) Ht) as Ht'. rewrite !take_take, !Nat.min_l in Ht' by (unfold zlen; lia).
      by rewrite Ht'.
    - apply (wpx_ok _ _ tt m); [done|]. exists p, cap, d0. split_and!; try done; [lia|apply evolves_refl]. }
  apply wpx_bind. eapply wpx_mono; [exact Hgrow| |done]. intros ? m1 (p1 & cap1 & d1 & R1 & Ht & Hc & Hev).
  pose proof (raw_len _ _ _ _ _ _ R1) as Hlen1.
  wpx_run (size_ok R1). wpx_run (subscript_ok R1).
  destruct (raw_store_ok m1 d1 (zlen l) c R1) as (m2 & Hst & R2 & Hev2); [lia|]. wpx_run Hst.
  wpx_run (size_ok R2). pose proof (raw_cap R2). rewrite u64_small by lia.
  destruct (set_size_ok _ _ _ _ _ _ (zlen l + 1) R2) as (m3 & Hs & R3 & Hev3); [lia|]. wpx_run Hs.
  wpx_run (size_ok R3). wpx_run (subscript_ok R3).
  destruct (raw_store_ok m3 _ (zlen l + 1) 0 R3) as (m4 & Hst4 & R4 & Hev4); [lia|]. eapply wpx_ok; [exact Hst4|].
  exists p1, cap1. split; [|do 3 (eapply evolves_trans; [eassumption|]); done].
  eexists. replace (zlen (l ++ [c])) with (zlen l + 1) by (rewrite zlen_app; done). split; [exact R4|].
  replace (Z.to_nat (zlen l + 1)) with (S (length l)) by (unfold zlen; lia).
  replace (Z.to_nat (zlen l)) with (length l) by (unfold zlen; lia).
  rewrite length_app. simpl. rewrite Nat.add_1_r. apply snoc_splices; [done|]. unfold zlen in *. lia.
Qed.

(** [pop_back()] on a string that is not empty. *)
Lemma pop_back_ok m this p cap l c :
  RepAt m this (l ++ [c]) p cap -> wp (pop_back this) m (fun _ m' => updates this m p cap l m').
Proof.
  intros HR. destruct (rep_cap _ _ _ _ _ HR) as (Hc30 & Hl & Hp). apply rep_raw in HR as (d & R & Ht & _ & Hlen).
  assert (zlen (l ++ [c]) = zlen l + 1) as Hz by (rewrite zlen_app; done). rewrite Hz in *. pose proof (zlen_nonneg l).
  unfold pop_back. apply wp_bind. unfold wp at 1. rewrite (size_ok R). rewrite Z.add_simpl_r, u64_small by lia.
  destruct (set_size_ok _ _ _ _ _ _ (zlen l) R) as (m1 & Hs & R1 & Hev1); [lia|]. apply wp_bind. unfold wp at 1. rewrite Hs.
  apply wp_bind. unfold wp at 1. rewrite (size_ok R1). apply wp_bind. unfold wp at 1. rewrite (subscript_ok R1).
  destruct (raw_store_ok m1 _ (zlen l) 0 R1) as (m2 & Hst & R2 & Hev2); [lia|]. unfold wp. rewrite Hst.
  exists p, cap. split; [|by eapply evolves_trans]. eexists. split; [exact R2|].
  replace (Z.to_nat (zlen l)) with (length l) by (unfold zlen; lia). rewrite length_app in *. simpl in *.
  replace (S (length l)) with (length l + length [0%Z])%nat by (simpl; lia). rewrite take_splice_end by lia. f_equal.
  pose proof (f_equal (take (length l)) Ht) as Ht'. rewrite take_take, Nat.min_l in Ht' by lia.
  by rewrite Ht', take_app_length.
Qed.

(** [clear()]. *)
Lemma clear_ok m this p cap l :
  RepAt m this l p cap -> wp (clear this) m (fun _ m' => updates this m p cap [] m').
Proof.
  intros (d & R & _). pose proof (raw_cap R). unfold clear. apply wp_bind. unfold wp at 1. rewrite (get_ptr_ok R).
  destruct (raw_store_ok m d 0 0 R) as (m1 & Hst & R1 & Hev1); [lia|]. rewrite Z.add_0_r in Hst.
  apply wp_bind. unfold wp at 1. rewrite Hst.
  destruct (set_size_ok _ _ _ _ _ _ 0 R1) as (m2 & Hs & R2 & Hev2); [lia|]. unfold wp. rewrite Hs.
  exists p, cap. split; [|by eapply evolves_trans]. by apply (rep_splice m2 this p cap [] d).
Qed.

End Ops.
