(* ===== verification/StringInsert.v ===== *)
(** * Strings: insertion, removal, replacement, resizing *)

From S2P Require Import Prelude Memory String StringRep StringData StringOps.

Import Str.

(** ** The list behind an insertion *)

(** NUL at the new end, tail shifted up, then the gap filled. *)
Lemma insert_splices (old l d : list Z) (index : nat) :
  take (length old) d = old -> (index <= length old)%nat -> (length old + length l < length d)%nat ->
  let ns := (length old + length l)%nat in
  let d1 := splice ns [0] d in
  let d2 := splice (index + length l) (take (length old - index) (drop index d1)) d1 in
  take (S ns) (splice index l d2) = (take index old ++ l ++ drop index old) ++ [0].
Proof.
  intros Ht Hi Hl ns d1 d2.
  assert (length d1 = length d) as L1 by (unfold d1; rewrite length_splice; simpl; lia).
  assert (length (take (length old - index) (drop index d1)) = length old - index)%nat as Lt
    by (rewrite length_take, length_drop; lia).
  assert (length d2 = length d) as L2 by (unfold d2; rewrite length_splice; lia).
  assert (forall j, (j < length old)%nat -> d1 !! j = old !! j) as Hd1.
  { intros j Hj. unfold d1. rewrite lookup_splice by (simpl; lia). rewrite decide_False by lia.
    transitivity (take (length old) d !! j); [by rewrite lookup_take_lt|by rewrite Ht]. }
  apply list_eq. intros j. destruct (decide (j < S ns)%nat) as [Hj|Hj].
  2: { rewrite lookup_take_ge by lia. symmetry. apply lookup_ge_None.
    rewrite !length_app, length_take, length_drop. simpl. lia. }
  rewrite lookup_take_lt, lookup_splice by lia.
  destruct (decide (j < index)%nat).
  { rewrite decide_False by lia. unfold d2. rewrite lookup_splice, decide_False by lia. rewrite Hd1 by lia.
    rewrite !lookup_app_l by (rewrite ?length_app, length_take; lia). by rewrite lookup_take_lt. }
  rewrite <-!app_assoc.
  rewrite lookup_app_r; rewrite length_take, Nat.min_l by lia; [|lia].
  destruct (decide (j < index + length l)%nat).
  { rewrite decide_True by lia. by rewrite lookup_app_l by lia. }
  rewrite decide_False by lia. rewrite lookup_app_r by lia.
  unfold d2. rewrite lookup_splice by lia. rewrite Lt.
  destruct (decide (j < ns)%nat).
  - rewrite decide_True by lia. rewrite lookup_take_lt, lookup_drop, Hd1 by lia.
    rewrite lookup_app_l by (rewrite length_drop; lia). rewrite lookup_drop. f_equal. lia.
  - rewrite decide_False by lia. assert (j = ns) as -> by lia. unfold d1. rewrite splice_last by lia.
    rewrite lookup_app_r by (rewrite length_drop; lia). rewrite length_drop.
    by replace (ns - index - length l - (length old - index))%nat with 0%nat by lia.
Qed.

Lemma rep_eq m this l l' p cap : RepAt m this l p cap -> l = l' -> RepAt m this l' p cap.
Proof. by intros ? <-. Qed.

Lemma drop_splice_after {A} (l d : list A) i n : (i + length l <= n)%nat -> (i + length l <= length d)%nat ->
  drop n (splice i l d) = drop n d.
Proof.
  intros Hn Hd. apply list_eq. intros j. rewrite !lookup_drop, lookup_splice by lia.
  by rewrite decide_False by lia.
Qed.

Lemma for_loop_ext {S} n : forall i (f g : Z -> St S unit) s,
  (forall i, f i = g i) -> for_loop n i f s = for_loop n i g s.
Proof.
  induction n as [|n IH]; intros i f g s Hfg; cbn [for_loop]; [done|]. unfold bind. rewrite Hfg.
  destruct (g i s); auto.
Qed.

Section Ops.
Context `{Allocator}.

(** [insert_gap] with a [fill] that writes [l] into the gap. *)
Lemma insert_common m this p cap old l index (fill : Z -> St mem unit) :
  RepAt m this old p cap -> 0 <= index <= zlen old -> zlen old + zlen l < 2 ^ 64 ->
  (forall m1 p1 cap1 n1 d1, RawD m1 this p1 n1 cap1 d1 -> evolves this m p cap m1 p1 cap1 ->
     index + zlen l <= cap1 + 1 -> 0 <= cap1 ->
     exists m2, fill p1 m1 = Ok tt m2 /\ RawD m2 this p1 n1 cap1 (splice (Z.to_nat index) l d1) /\
       evolves this m1 p1 cap1 m2 p1 cap1) ->
  wpx (insert_gap this (zlen old) (u64 (zlen old + zlen l)) (zlen old - index) fill) m
    (fun _ m' => updates this m p cap (take (Z.to_nat index) old ++ l ++ drop (Z.to_nat index) old) m')
    (strong m).
Proof.
  intros HR Hi Hl Hfill. pose proof (zlen_nonneg l). pose proof (zlen_nonneg old). unfold insert_gap.
  rewrite u64_small by lia. eapply reserve_then; [done|lia|].
  intros m1 p1 cap1 d1 R1 Ht Hz Hc Hev. pose proof (raw_len _ _ _ _ _ _ R1) as Hlen.
  wpx_run (get_ptr_ok R1).
  destruct (raw_store_ok m1 d1 (zlen old + zlen l) 0 R1) as (m2 & Hst & R2 & Hev2); [lia|]. wpx_run Hst.
  destruct (shift_up_ok m2 _ (zlen old) (zlen old + zlen l) (zlen old - index) R2) as (m3 & Hsh & R3 & Hev3); [lia..|].
  wpx_run Hsh.
  destruct (Hfill m3 p1 cap1 _ _ R3) as (m4 & Hf & R4 & Hev4);
    [do 2 (eapply evolves_trans; [eassumption|]); done|lia|lia|]. wpx_run Hf.
  destruct (set_size_ok _ _ _ _ _ _ (zlen old + zlen l) R4) as (m5 & Hs & R5 & Hev5); [lia|].
  eapply wpx_ok; [exact Hs|]. exists p1, cap1.
  split; [|do 4 (eapply evolves_trans; [eassumption|]); done]. eexists.
  assert (zlen (take (Z.to_nat index) old ++ l ++ drop (Z.to_nat index) old) = zlen old + zlen l) as Hzl.
  { rewrite !zlen_app. unfold zlen in *. rewrite length_take, length_drop. lia. }
  rewrite Hzl. split; [exact R5|].
  replace (S (length (take (Z.to_nat index) old ++ l ++ drop (Z.to_nat index) old)))
    with (S (length old + length l)) by (unfold zlen in Hzl; lia).
  replace (Z.to_nat (zlen old + zlen l)) with (length old + length l)%nat by (unfold zlen; lia).
  replace (Z.to_nat (zlen old + zlen l - (zlen old - index))) with (Z.to_nat index + length l)%nat by (unfold zlen in *; lia).
  replace (Z.to_nat (zlen old - index)) with (length old - Z.to_nat index)%nat by (unfold zlen in *; lia).
  replace (Z.to_nat (zlen old - (zlen old - index))) with (Z.to_nat index) by lia.
  apply insert_splices; [done| |]; unfold zlen in *; lia.
Qed.

(** [insert(index, count, ch)]. *)
Lemma insert_fill_ok m this p cap old index count ch :
  RepAt m this old p cap -> 0 <= index -> 0 <= count -> zlen old + count < 2 ^ 64 ->
  wpx (insert_fill this index count ch) m
    (fun _ m' => index <= zlen old /\
       updates this m p cap (take (Z.to_nat index) old ++ replicate (Z.to_nat count) ch ++ drop (Z.to_nat index) old) m')
    (fun e m' => if zlen old <? index then e = OutOfRange /\ m' = m else strong m e m').
Proof.
  intros HR Hi Hc Hl. unfold insert_fill. wpx_run (rep_size _ _ _ _ _ HR). case_test.
  { eapply wpx_throw; done. }
  remember (replicate (Z.to_nat count) ch) as l eqn:El.
  assert (count = zlen l) as -> by (rewrite El; unfold zlen; rewrite length_replicate; lia).
  wpx_run (rep_size _ _ _ _ _ HR).
  eapply wpx_mono; [eapply (insert_common m this p cap old l index
    (fun ptr => for_loop (Z.to_nat (zlen l)) 0 (fun i => store (ptr + (index + i)) ch))); try done|done..].
  intros m1 p1 cap1 n1 d1 R1 _ Hle Hcap. pose proof (zlen_nonneg l).
  destruct (raw_fill m1 d1 index (zlen l) ch R1) as (m2 & Hrun & R2 & Hev2); [lia..|].
  exists m2. split_and!; [done|by rewrite El|done].
Qed.

(** [insert(index, s, count)] with a source outside the string. *)
Lemma insert_range_ok m this p cap old index s l :
  RepAt m this old p cap -> 0 <= index -> zlen old + zlen l < 2 ^ 64 -> pts m s l -> clear_of this p cap s l ->
  wpx (insert_range this index s (zlen l)) m
    (fun _ m' => index <= zlen old /\
       updates this m p cap (take (Z.to_nat index) old ++ l ++ drop (Z.to_nat index) old) m')
    (fun e m' => if zlen old <? index then e = OutOfRange /\ m' = m else strong m e m').
Proof.
  intros HR Hi Hl Hs Hcl. unfold insert_range. wpx_run (rep_size _ _ _ _ _ HR). case_test.
  { eapply wpx_throw; done. }
  eapply wpx_mono; [eapply (insert_common m this p cap old l index
    (fun ptr => for_loop (Z.to_nat (zlen l)) 0 (fun i => let! c := load (s + i) in store (ptr + (index + i)) c)));
    try done|done..].
  intros m1 p1 cap1 n1 d1 R1 Hev Hle Hcap.
  replace (Z.to_nat (zlen l)) with (length l) by (unfold zlen; lia).
  apply raw_copy_loop; try done; try lia; [by eapply evolves_pts|by eapply evolves_clear].
Qed.

(** The iterator form: [insert(pos, first, last)] on a range outside the string. *)
Lemma insert_it_range_ok m this p cap old index s l :
  RepAt m this old p cap -> 0 <= index <= zlen old -> zlen old + zlen l < 2 ^ 64 -> pts m s l ->
  clear_of this p cap s l ->
  wpx (insert_it_range this (p + index) s (s + zlen l)) m
    (fun r m' => exists p' cap', r = p' + index /\ evolves this m p cap m' p' cap' /\
       RepAt m' this (take (Z.to_nat index) old ++ l ++ drop (Z.to_nat index) old) p' cap')
    (strong m).
Proof.
  intros HR Hi Hl Hs Hcl. unfold insert_it_range. wpx_run (rep_size _ _ _ _ _ HR).
  wpx_run (rep_begin _ _ _ _ _ HR). rewrite !Z.add_simpl_l.
  pose proof (zlen_nonneg l). destruct (zlen l <? 0) eqn:E; bool_prop; [lia|].
  replace (u64 (zlen old - index)) with (zlen old - index) by (rewrite u64_small; lia).
  wpxb.
  eapply wpx_mono; [eapply (insert_common m this p cap old l index
    (fun ptr => for_loop (Z.to_nat (zlen l)) 0 (fun i => let! c := load (s + i) in store (ptr + (index + i)) c)));
    try done| |done].
  - intros m1 p1 cap1 n1 d1 R1 Hev Hle Hcap.
    replace (Z.to_nat (zlen l)) with (length l) by (unfold zlen; lia).
    apply raw_copy_loop; try done; try lia; [by eapply evolves_pts|by eapply evolves_clear].
  - intros ? m' (p' & cap' & HR' & Hev). wpx_run (rep_begin _ _ _ _ _ HR').
    eapply wpx_ok; [done|]. by exists p', cap'.
Qed.

(** [append(first, last)], [append(s, count)] and, through them, the other forms. *)
Lemma append_iter_ok m this p cap old s l :
  RepAt m this old p cap -> zlen old + zlen l < 2 ^ 64 -> pts m s l -> clear_of this p cap s l ->
  wpx (append_iter this s (s + zlen l)) m (fun _ m' => updates this m p cap (old ++ l) m') (strong m).
Proof.
  intros HR Hl Hs Hcl. unfold append_iter. wpx_run (rep_end _ _ _ _ _ HR). wpxb.
  pose proof (zlen_nonneg old).
  eapply wpx_mono; [apply (insert_it_range_ok m this p cap old (zlen old) s l); try done; lia| |done].
  intros r m' (p' & cap' & _ & Hev & HR'). eapply wpx_ok; [done|]. exists p', cap'. split; [|done].
  unfold zlen in HR'. rewrite Nat2Z.id, firstn_all, drop_all, app_nil_r in HR'. done.
Qed.

Lemma append_str_ok m this p cap old str l q c :
  RepAt m this old p cap -> RepAt m str l q c -> separate this p cap str q c -> zlen old + zlen l < 2 ^ 64 ->
  wpx (append_str this str) m
    (fun _ m' => updates this m p cap (old ++ l) m' /\ RepAt m' str l q c) (strong m).
Proof.
  intros HR HS Hsep Hl. destruct (rep_cap _ _ _ _ _ HR) as [Hc30 _].
  destruct (separate_clear _ _ _ _ _ _ _ _ HS Hsep ltac:(lia)) as [Hq Hcl].
  unfold append_str. wpx_run (rep_begin _ _ _ _ _ HS). wpx_run (rep_end _ _ _ _ _ HS).
  eapply wpx_mono; [by apply (append_iter_ok m this p cap old q l)| |done].
  intros ? m' (p' & cap' & HR' & Hev). split; [by exists p', cap'|].
  by destruct (evolves_rep _ _ _ _ _ _ _ _ _ _ _ Hev HS Hsep ltac:(lia)).
Qed.

Lemma append_fill_ok m this p cap old count ch :
  RepAt m this old p cap -> 0 <= count -> zlen old + count < 2 ^ 64 ->
  wpx (append_fill this count ch) m
    (fun _ m' => updates this m p cap (old ++ replicate (Z.to_nat count) ch) m') (strong m).
Proof.
  intros HR Hc Hl. unfold append_fill. wpx_run (rep_size _ _ _ _ _ HR). pose proof (zlen_nonneg old).
  eapply wpx_mono; [apply (insert_fill_ok m this p cap old (zlen old) count ch HR); lia|..].
  - intros ? m' [_ Hu]. unfold zlen in Hu. rewrite Nat2Z.id, firstn_all, drop_all, app_nil_r in Hu. done.
  - intros e m' He. by rewrite Z.ltb_irrefl in He.
Qed.

(** ** Removal *)

Lemma erase_loop_S k this f l :
  erase_loop (S k) this f l =
    (let! e := end_ this in
     if l =? e then ret tt
     else let! c := load l in do! store f c in erase_loop k this (f + 1) (l + 1)).
Proof. done. Qed.

(** The loop of [erase]: [j] characters are still to be moved. *)
Lemma erase_loop_ok this p n cap j : forall m d f l,
  RawD m this p n cap d -> 0 <= f <= l -> l + Z.of_nat j = n ->
  exists m', erase_loop (S j) this (p + f) (p + l) m = Ok tt m' /\
    RawD m' this p n cap (splice (Z.to_nat f) (take j (drop (Z.to_nat l) d)) d) /\ evolves this m p cap m' p cap.
Proof.
  induction j as [|j IH]; intros m d f l R Hfl Hn; rewrite erase_loop_S.
  { exists m. unfold bind. rewrite (end_ok R). replace (p + l =? p + n) with true by (symmetry; apply Z.eqb_eq; lia).
    rewrite take_0, splice_nil. split_and!; [done|done|apply evolves_refl]. }
  pose proof (raw_size _ _ _ _ _ _ R). pose proof (raw_len _ _ _ _ _ _ R) as Hlen.
  destruct (lookup_lt_is_Some_2 d (Z.to_nat l)) as [c Hc]; [unfold zlen in Hlen; lia|].
  unfold bind at 1. rewrite (end_ok R). replace (p + l =? p + n) with false by (symmetry; apply Z.eqb_neq; lia).
  unfold bind at 1. rewrite (raw_load _ _ _ _ _ _ l c R ltac:(lia) Hc).
  destruct (raw_store_ok m d f c R) as (m1 & Hst & R1 & Hev1); [lia|]. unfold bind at 1. rewrite Hst.
  destruct (IH m1 _ (f + 1) (l + 1) R1) as (m2 & Hrun & R2 & Hev2); [lia..|].
  exists m2. rewrite <-!Z.add_assoc. split_and!; [done| |by eapply evolves_trans].
  apply (raw_eq _ _ _ R2). rewrite (drop_S _ _ _ Hc). cbn [take].
  replace (Z.to_nat (f + 1)) with (Z.to_nat f + length [c])%nat by (simpl; lia).
  replace (Z.to_nat (l + 1)) with (S (Z.to_nat l)) by lia.
  replace (drop (S (Z.to_nat l)) (splice (Z.to_nat f) [c] d)) with (drop (S (Z.to_nat l)) d).
  - rewrite splice_app; [done|]. rewrite length_take, length_drop. unfold zlen in Hlen. simpl. lia.
  - apply list_eq. intros i. rewrite !lookup_drop, lookup_splice by (unfold zlen in Hlen; simpl; lia).
    by rewrite decide_False by (simpl; lia).
Qed.

(** The list behind an erasure. *)
Lemma erase_splices (old d : list Z) (index k : nat) :
  take (length old) d = old -> (index + k <= length old)%nat -> (length old < length d)%nat ->
  take (S (length old - k)) (splice (length old - k) [0]
    (splice index (take (length old - index - k) (drop (index + k) d)) d)) =
  (take index old ++ drop (index + k) old) ++ [0].
Proof.
  intros Ht Hk Hl. set (tl := take (length old - index - k) (drop (index + k) d)).
  assert (tl = drop (index + k) old) as Htl.
  { unfold tl. rewrite <-Ht at 2. rewrite skipn_firstn_comm. f_equal. lia. }
  assert (length tl = length old - index - k)%nat as Ltl by (rewrite Htl, length_drop; lia).
  replace (length old - k)%nat with (index + length tl)%nat by lia.
  rewrite splice_app by (simpl; lia).
  replace (S (index + length tl)) with (index + length (tl ++ [0%Z]))%nat by (rewrite length_app; simpl; lia).
  rewrite take_splice_end by lia. rewrite Htl, app_assoc. do 2 f_equal.
  transitivity (take index (take (length old) d)); [rewrite take_take; f_equal; lia|by rewrite Ht].
Qed.

(** [erase(first, last)] on a range of the string. *)
Lemma erase_it_ok m this p cap old index k :
  RepAt m this old p cap -> 0 <= index -> 0 <= k -> index + k <= zlen old ->
  wp (erase_it this (p + index) (p + index + k)) m
    (fun r m' => r = p + index /\ evolves this m p cap m' p cap /\
       RepAt m' this (take (Z.to_nat index) old ++ drop (Z.to_nat (index + k)) old) p cap).
Proof.
  intros HR Hi Hk Hle. destruct (rep_cap _ _ _ _ _ HR) as (Hc30 & Hl & Hp).
  apply rep_raw in HR as (d & R & Ht & _ & Hlen). unfold erase_it.
  apply wp_bind. unfold wp at 1. rewrite (begin_ok R). apply wp_bind. unfold wp at 1. rewrite (begin_ok R).
  replace (p + index + k - (p + index)) with k by lia. replace (p + (p + index - p)) with (p + index) by lia.
  apply wp_bind. unfold wp at 1. rewrite (end_ok R).
  destruct (erase_loop_ok this p (zlen old) cap (Z.to_nat (zlen old - (index + k))) m d index (index + k) R)
    as (m1 & Hrun & R1 & Hev1); [lia..|].
  apply wp_bind. unfold wp at 1.
  replace (steps_to (p + index + k) (p + zlen old)) with (Z.to_nat (zlen old - (index + k)))
    by (unfold steps_to; rewrite u64_small; f_equal; lia).
  rewrite <-Z.add_assoc. rewrite Hrun.
  apply wp_bind. unfold wp at 1. rewrite (size_ok R1). rewrite u64_small by lia.
  destruct (set_size_ok _ _ _ _ _ _ (zlen old - k) R1) as (m2 & Hs & R2 & Hev2); [lia|].
  apply wp_bind. unfold wp at 1. rewrite Hs. apply wp_bind. unfold wp at 1. rewrite (size_ok R2).
  apply wp_bind. unfold wp at 1. rewrite (subscript_ok R2).
  destruct (raw_store_ok m2 _ (zlen old - k) 0 R2) as (m3 & Hst & R3 & Hev3); [lia|].
  apply wp_bind. unfold wp at 1. rewrite Hst. apply wp_ret. split_and!; [done|by do 2 (eapply evolves_trans; [eassumption|])|].
  assert (zlen (take (Z.to_nat index) old ++ drop (Z.to_nat (index + k)) old) = zlen old - k) as Hzl.
  { rewrite zlen_app. unfold zlen in *. rewrite length_take, length_drop. lia. }
  eexists. rewrite Hzl. split; [exact R3|].
  replace (length (take (Z.to_nat index) old ++ drop (Z.to_nat (index + k)) old)) with (length old - Z.to_nat k)%nat
    by (unfold zlen in *; lia).
  replace (Z.to_nat (zlen old - k)) with (length old - Z.to_nat k)%nat by (unfold zlen in *; lia).
  replace (Z.to_nat (zlen old - (index + k))) with (length old - Z.to_nat index - Z.to_nat k)%nat by (unfold zlen in *; lia).
  replace (Z.to_nat (index + k)) with (Z.to_nat index + Z.to_nat k)%nat by lia.
  apply erase_splices; [done| |done]. unfold zlen in *. lia.
Qed.

(** [erase(index, count)]. *)
Lemma erase_ok m this p cap old index count :
  RepAt m this old p cap -> 0 <= index -> 0 <= count < 2 ^ 64 -> zlen old < 2 ^ 63 ->
  wpx (erase this index count) m
    (fun _ m' => index <= zlen old /\ updates this m p cap
       (take (Z.to_nat index) old ++ drop (Z.to_nat (index + count)) old) m')
    (fun e m' => e = OutOfRange /\ zlen old < index /\ m' = m).
Proof.
  intros HR Hi Hc Hl. unfold erase. wpx_run (rep_size _ _ _ _ _ HR). case_test.
  { eapply wpx_throw; [done|]. split_and!; [done|lia|done]. }
  wpx_run (rep_begin _ _ _ _ _ HR). pose proof (zlen_nonneg old).
  set (k := Z.min count (zlen old - index)).
  assert ((if (count =? npos) || (zlen old <=? count) || (zlen old <? u64 (index + count))
      then end_ this else ret (p + index + count)) m = Ok (p + index + k) m) as Hlast.
  { destruct (_ || _ || _)%bool eqn:E.
    - rewrite (rep_end _ _ _ _ _ HR). f_equal. unfold k, npos, SIZE_MAX in *.
      apply orb_true_iff in E as [E|E]; [apply orb_true_iff in E as [E|E]|]; bool_prop; try lia.
      destruct (decide (zlen old <= count)); [lia|]. rewrite u64_small in E by lia. lia.
    - bool_prop. unfold ret. f_equal. unfold k. rewrite u64_small in * by lia. lia. }
  wpx_run Hlast. wpxb.
  pose proof (erase_it_ok m this p cap old index k HR Hi ltac:(lia) ltac:(lia)) as Her.
  apply wp_inv in Her as (r & m' & Hrun & _ & Hev & HR'). wpx_run Hrun. eapply wpx_ok; [done|].
  split; [lia|]. exists p, cap. split; [|done].
  replace (drop (Z.to_nat (index + count)) old) with (drop (Z.to_nat (index + k)) old); [done|].
  unfold k. destruct (decide (count <= zlen old - index)); [by rewrite Z.min_l by lia|].
  rewrite !drop_ge; [done|unfold zlen in *; lia..].
Qed.

(** ** Resizing *)

Lemma resize_splices (old d : list Z) ch (c : nat) :
  take (length old) d = old -> (c < length d)%nat -> (length old < length d)%nat ->
  take (S c) (if decide (c <= length old)%nat then splice c [0] d
    else splice (length old) (replicate (c - length old) ch) (splice c [0] d)) =
  (take c old ++ replicate (c - length old) ch) ++ [0].
Proof.
  intros Ht Hc Hl. case_decide.
  - replace (c - length old)%nat with 0%nat by lia. simpl. rewrite app_nil_r.
    replace (S c) with (c + length [0%Z])%nat by (simpl; lia). rewrite take_splice_end by lia. f_equal.
    transitivity (take c (take (length old) d)); [rewrite take_take; f_equal; lia|by rewrite Ht].
  - rewrite (take_ge old) by lia. rewrite (take_S_r _ _ 0).
    + f_equal. replace c with (length old + length (replicate (c - length old) ch))%nat at 1
        by (rewrite length_replicate; lia).
      rewrite take_splice_end by (rewrite length_splice; simpl; lia). f_equal.
      rewrite take_splice_before by lia. done.
    + rewrite lookup_splice by (rewrite length_replicate, length_splice; simpl; lia).
      rewrite decide_False by (rewrite length_replicate; lia). apply splice_last. lia.
Qed.

(** [resize(count, ch)]. *)
Lemma resize_ok m this p cap old count ch :
  RepAt m this old p cap -> 0 <= count < 2 ^ 64 ->
  wpx (resize this count ch) m
    (fun _ m' => updates this m p cap
       (take (Z.to_nat count) old ++ replicate (Z.to_nat count - length old) ch) m') (strong m).
Proof.
  intros HR Hc. unfold resize. wpx_run (rep_size _ _ _ _ _ HR). eapply reserve_then; [done|lia|].
  intros m1 p1 cap1 d1 R1 Ht Hz Hc1 Hev. pose proof (raw_len _ _ _ _ _ _ R1) as Hlen.
  pose proof (raw_size _ _ _ _ _ _ R1) as Hn. pose proof (raw_ptr _ _ _ _ _ _ R1). pose proof (raw_cap R1).
  wpx_run (begin_ok R1).
  destruct (raw_store_ok m1 d1 count 0 R1) as (m2 & Hst & R2 & Hev2); [lia|]. wpx_run Hst. wpx_run (end_ok R2).
  destruct (set_size_ok _ _ _ _ _ _ count R2) as (m3 & Hs & R3 & Hev3); [lia|]. wpx_run Hs.
  pose proof (resize_splices old d1 ch (Z.to_nat count) Ht ltac:(unfold zlen in *; lia) ltac:(unfold zlen in *; lia)) as Hres.
  set (l' := take (Z.to_nat count) old ++ replicate (Z.to_nat count - length old) ch) in *.
  assert (zlen l' = count) as Hzl.
  { unfold l'. rewrite zlen_app. unfold zlen. rewrite length_take, length_replicate. lia. }
  assert (S (length l') = S (Z.to_nat count)) as Hsl by (unfold zlen in Hzl; lia).
  case_test.
  - eapply wpx_ok; [done|]. exists p1, cap1. split; [|do 2 (eapply evolves_trans; [eassumption|]); done].
    exists (splice (Z.to_nat count) [0] d1). rewrite Hzl, Hsl. split; [exact R3|].
    rewrite decide_True in Hres by (unfold zlen in *; lia). done.
  - wpx_run (end_ok R3).
    replace (steps_to (p1 + zlen old) (p1 + count)) with (Z.to_nat (count - zlen old))
      by (unfold steps_to; rewrite u64_small; f_equal; lia).
    destruct (raw_fill m3 _ (zlen old) (count - zlen old) ch R3) as (m4 & Hrun & R4 & Hev4); [lia..|].
    assert (for_loop (Z.to_nat (count - zlen old)) 0 (fun i => store (p1 + zlen old + i) ch) m3 = Ok tt m4) as Hrun'.
    { rewrite <-Hrun. apply for_loop_ext. intros i. by rewrite Z.add_assoc. }
    eapply wpx_ok; [exact Hrun'|]. exists p1, cap1. split; [|do 3 (eapply evolves_trans; [eassumption|]); done].
    eexists. rewrite Hzl, Hsl. split; [exact R4|]. rewrite decide_False in Hres by (unfold zlen in *; lia).
    replace (Z.to_nat (zlen old)) with (length old) by (unfold zlen; lia).
    replace (Z.to_nat (count - zlen old)) with (Z.to_nat count - length old)%nat by (unfold zlen; lia). done.
Qed.

(** ** Replacement *)

Lemma take_splice_in {A} (l d : list A) i n : (i + length l <= n)%nat -> (n <= length d)%nat ->
  take n (splice i l d) = splice i l (take n d).
Proof.
  intros Hi Hn. apply list_eq. intros j. destruct (decide (j < n)%nat).
  - rewrite lookup_take_lt by lia. rewrite !lookup_splice by (rewrite ?length_take; lia).
    case_decide; [done|]. by rewrite lookup_take_lt by lia.
  - rewrite lookup_take_ge by lia. symmetry. apply lookup_ge_None.
    rewrite length_splice; rewrite length_take; lia.
Qed.

(** Overwriting characters in place. *)
Lemma overwrite_rep m this p cap old d i k :
  RawD m this p (zlen old) cap (splice i k d) -> take (S (length old)) d = old ++ [0] ->
  (i + length k <= length old)%nat -> (length old < length d)%nat -> RepAt m this (splice i k old) p cap.
Proof.
  intros R Ht Hi Hl. exists (splice i k d). assert (length (splice i k old) = length old) as Hlen
    by (by apply length_splice). unfold zlen in *. rewrite Hlen. split; [done|].
  rewrite take_splice_in by lia. rewrite Ht. unfold splice. rewrite take_app_le by lia.
  rewrite drop_app_le by lia. by rewrite <-!app_assoc.
Qed.

Lemma replace_loop_ok this p n cap : forall (g : nat) m d i s l,
  RawD m this p n cap d -> 0 <= i -> i + Z.of_nat g <= cap + 1 -> pts m s l -> clear_of this p cap s l ->
  exists m', replace_loop (S g) (p + i) (p + i + Z.of_nat g) s (s + zlen l) m =
      Ok (p + i + Z.of_nat (g `min` length l), s + Z.of_nat (g `min` length l)) m' /\
    RawD m' this p n cap (splice (Z.to_nat i) (take g l) d) /\ evolves this m p cap m' p cap.
Proof.
  induction g as [|g IH]; intros m d i s l R Hi Hle Hs Hcl.
  { exists m. cbn [replace_loop]. rewrite Z.add_0_r, Z.eqb_refl. cbn [negb andb].
    rewrite take_0, splice_nil. simpl. rewrite !Z.add_0_r. split_and!; [done|done|apply evolves_refl]. }
  destruct l as [|c l].
  { exists m. cbn [replace_loop]. change (zlen []) with 0. rewrite Z.add_0_r, Z.eqb_refl, andb_false_r.
    rewrite Nat.min_0_r. simpl. rewrite splice_nil, !Z.add_0_r. split_and!; [done|done|apply evolves_refl]. }
  pose proof (zlen_nonneg l). rewrite zlen_cons in *. apply pts_cons in Hs as [Hc Hs].
  assert (clear_of this p cap (s + 1) l) as Hcl'.
  { destruct Hcl as [?|[Ha Hb]]; [done|]. rewrite zlen_cons in *. right. split; unfold disj in *; lia. }
  change (replace_loop (S (S g)) (p + i) (p + i + Z.of_nat (S g)) s (s + (1 + zlen l))) with
    (if negb (p + i =? p + i + Z.of_nat (S g)) && negb (s =? s + (1 + zlen l)) then
       let! c := load s in do! store (p + i) c in
       replace_loop (S g) (p + i + 1) (p + i + Z.of_nat (S g)) (s + 1) (s + (1 + zlen l))
     else ret (p + i, s)).
  replace (p + i =? p + i + Z.of_nat (S g)) with false by (symmetry; apply Z.eqb_neq; lia).
  replace (s =? s + (1 + zlen l)) with false by (symmetry; apply Z.eqb_neq; lia). cbn [negb andb].
  unfold bind at 1. rewrite (load_ok _ _ _ Hc).
  destruct (raw_store_ok m d i c R) as (m1 & Hst & R1 & Hev1); [lia|]. unfold bind at 1. rewrite Hst.
  destruct (IH m1 _ (i + 1) (s + 1) l R1) as (m2 & Hrun & R2 & Hev2); [lia|lia|by eapply evolves_pts| |].
  { by eapply evolves_clear; [exact Hev1|done..|lia]. }
  exists m2. replace (p + i + Z.of_nat (S g)) with (p + (i + 1) + Z.of_nat g) by lia.
  replace (s + (1 + zlen l)) with (s + 1 + zlen l) by lia. replace (p + i + 1) with (p + (i + 1)) by lia.
  rewrite Hrun. split_and!; [|apply (raw_eq _ _ _ R2)|by eapply evolves_trans].
  - do 2 f_equal; cbn [length]; lia.
  - cbn [take]. replace (Z.to_nat (i + 1)) with (Z.to_nat i + length [c])%nat by (simpl; lia).
    rewrite splice_app; [done|]. pose proof (raw_len _ _ _ _ _ _ R). unfold zlen in *. rewrite length_take. simpl. lia.
Qed.

(** [replace(first, last, first2, last2)] with a source outside the string. *)
Lemma replace_it_range_ok m this p cap old i g s l :
  RepAt m this old p cap -> 0 <= i -> i + Z.of_nat g <= zlen old -> pts m s l -> clear_of this p cap s l ->
  zlen old + zlen l < 2 ^ 64 ->
  wpx (replace_it_range this (p + i) (p + i + Z.of_nat g) s (s + zlen l)) m
    (fun _ m' => updates this m p cap (take (Z.to_nat i) old ++ l ++ drop (Z.to_nat i + g) old) m')
    (fun e m' => e = LengthError \/ e = BadAlloc).
Proof.
  intros HR Hi Hg Hs Hcl Hsum. destruct (rep_cap _ _ _ _ _ HR) as (Hc30 & Hl & Hp). pose proof HR as (d & R & Ht).
  unfold replace_it_range. wpx_run (begin_ok R). wpx_run (begin_ok R).
  replace (p + (p + i - p)) with (p + i) by lia. replace (p + i + Z.of_nat g - (p + i)) with (Z.of_nat g) by lia.
  replace (steps_to (p + i) (p + i + Z.of_nat g)) with g by (unfold steps_to; rewrite u64_small; lia).
  destruct (replace_loop_ok this p (zlen old) cap g m d i s l R) as (m1 & Hrun & R1 & Hev1); [lia..|done|done|].
  wpx_run Hrun. cbv beta iota. pose proof (raw_len _ _ _ _ _ _ R) as Hlen. pose proof (zlen_nonneg l).
  assert (RepAt m1 this (splice (Z.to_nat i) (take g l) old) p cap) as HR1.
  { eapply overwrite_rep; [exact R1|done|rewrite length_take; unfold zlen in *; lia|unfold zlen in *; lia]. }
  assert (length (splice (Z.to_nat i) (take g l) old) = length old) as Hlen'.
  { apply length_splice. rewrite length_take. unfold zlen in *. lia. }
  destruct (decide (length l < g)%nat) as [Hlt|Hge].
  - rewrite Nat.min_r by lia. destruct (Z.eqb_spec (p + i + Z.of_nat (length l)) (p + i + Z.of_nat g)); [lia|]. cbn [negb].
    pose proof (erase_it_ok m1 this p cap _ (i + zlen l) (Z.of_nat g - zlen l) HR1) as Her.
    apply wp_inv in Her as (r & m2 & Hrun2 & _ & Hev2 & HR2); [|unfold zlen in *; lia..].
    replace (p + i + Z.of_nat (length l)) with (p + (i + zlen l)) by (unfold zlen; lia).
    replace (p + i + Z.of_nat g) with (p + (i + zlen l) + (Z.of_nat g - zlen l)) by lia.
    wpx_run Hrun2. eapply wpx_ok; [done|]. exists p, cap. split; [|by eapply evolves_trans].
    rewrite (take_ge l) in HR2 by lia. eapply rep_eq; [exact HR2|].
    replace (Z.to_nat (i + zlen l)) with (Z.to_nat i + length l)%nat by (unfold zlen; lia).
    rewrite take_splice_end by (unfold zlen in *; lia). rewrite <-app_assoc. do 2 f_equal.
    replace (Z.to_nat (i + zlen l + (Z.of_nat g - zlen l))) with (Z.to_nat i + g)%nat by lia.
    apply drop_splice_after; unfold zlen in *; lia.
  - rewrite Nat.min_l by lia. rewrite Z.eqb_refl. cbn [negb].
    destruct (Z.eqb_spec (s + Z.of_nat g) (s + zlen l)) as [Heq|Hne]; cbn [negb].
    + eapply wpx_ok; [done|]. exists p, cap. split; [|done]. eapply rep_eq; [exact HR1|].
      unfold splice. rewrite (take_ge l) by (unfold zlen in *; lia).
      do 2 f_equal. f_equal. unfold zlen in *. lia.
    + assert (pts m1 (s + Z.of_nat g) (drop g l) /\ clear_of this p cap (s + Z.of_nat g) (drop g l)) as [Hs1 Hcl1].
      { split; [apply pts_drop; by eapply evolves_pts|]. destruct Hcl as [->|[Ha Hb]]; [left; apply drop_nil|].
        right. unfold apart, disj, zlen in *. rewrite length_drop. lia. }
      assert (zlen (drop g l) = zlen l - Z.of_nat g) as Hzd by (unfold zlen in *; rewrite length_drop; lia).
      replace (s + zlen l) with (s + Z.of_nat g + zlen (drop g l)) by lia.
      replace (p + i + Z.of_nat g) with (p + (i + Z.of_nat g)) by lia. wpxb.
      eapply wpx_mono; [apply (insert_it_range_ok m1 this p cap _ (i + Z.of_nat g) (s + Z.of_nat g) (drop g l) HR1);
        [unfold zlen in *; lia|unfold zlen in *; rewrite Hlen'; lia|done|done]|..].
      * intros r m2 (p2 & cap2 & _ & Hev2 & HR2). eapply wpx_ok; [done|]. exists p2, cap2.
        split; [|by eapply evolves_trans]. eapply rep_eq; [exact HR2|].
        replace (Z.to_nat (i + Z.of_nat g)) with (Z.to_nat i + length (take g l))%nat at 1
          by (rewrite length_take; unfold zlen in *; lia).
        rewrite take_splice_end by (unfold zlen in *; lia).
        replace (Z.to_nat (i + Z.of_nat g)) with (Z.to_nat i + g)%nat by lia.
        rewrite drop_splice_after by (rewrite length_take; unfold zlen in *; lia).
        rewrite <-!app_assoc. f_equal. rewrite app_assoc. by rewrite take_drop.
      * intros e m' [_ ?]. done.
Qed.

End Ops.
