(* ===== verification/StringSearch.v ===== *)
(** * Strings: comparison, search, hashing

    The read-only operations of [crossbow/string.hpp] against reference definitions on
    lists of characters, and the inputs on which [find] and [find_last_of] differ from
    what [std::string] promises under these names. *)

From S2P Require Import Prelude Memory String StringRep StringData StringOps.

Import Str.

(** ** Reference definitions *)

(** Lexicographic order. *)
Fixpoint lex (l k : list Z) : comparison :=
  match l, k with
  | [], [] => Eq
  | [], _ :: _ => Lt
  | _ :: _, [] => Gt
  | a :: l, b :: k => match a ?= b with Eq => lex l k | c => c end
  end.

(** The least index in [[i, i + n)] that satisfies [P]. *)
Fixpoint first_from (P : nat -> bool) (i n : nat) : option nat :=
  match n with
  | O => None
  | S k => if P i then Some i else first_from P (S i) k
  end.

(** The greatest index below [n] that satisfies [P]. *)
Fixpoint last_below (P : nat -> bool) (n : nat) : option nat :=
  match n with
  | O => None
  | S k => if P k then Some k else last_below P k
  end.

Definition index_or_npos (r : option nat) : Z := match r with Some i => Z.of_nat i | None => npos end.

(** [pat] occurs in [l] at [i]. *)
Definition occurs (pat l : list Z) (i : nat) : bool := bool_decide (take (length pat) (drop i l) = pat).

(** Character [i] of [l] is one of [pat] (or not, with [want = false]). *)
Definition char_in (want : bool) (pat l : list Z) (i : nat) : bool :=
  match l !! i with Some c => Bool.eqb (bool_decide (c ∈ pat)) want | None => false end.

(** What the reference definitions mean. *)
Lemma first_from_spec P i n :
  match first_from P i n with
  | Some j => (i <= j < i + n)%nat /\ P j = true /\ forall j', (i <= j' < j)%nat -> P j' = false
  | None => forall j', (i <= j' < i + n)%nat -> P j' = false
  end.
Proof.
  revert i. induction n as [|n IH]; intros i; simpl; [lia|]. destruct (P i) eqn:E; [split_and!; try done; lia|].
  specialize (IH (S i)). destruct (first_from P (S i) n) as [j|].
  - destruct IH as (Hj & HP & Hlt). split_and!; [lia|lia|done|]. intros j' Hj'.
    destruct (decide (j' = i)) as [->|]; [done|]. apply Hlt. lia.
  - intros j' Hj'. destruct (decide (j' = i)) as [->|]; [done|]. apply IH. lia.
Qed.

Lemma last_below_spec P n :
  match last_below P n with
  | Some j => (j < n)%nat /\ P j = true /\ forall j', (j < j' < n)%nat -> P j' = false
  | None => forall j', (j' < n)%nat -> P j' = false
  end.
Proof.
  induction n as [|n IH]; simpl; [lia|]. destruct (P n) eqn:E; [split_and!; try done; lia|].
  destruct (last_below P n) as [j|].
  - destruct IH as (Hj & HP & Hlt). split_and!; [lia|done|]. intros j' Hj'.
    destruct (decide (j' = n)) as [->|]; [done|]. apply Hlt. lia.
  - intros j' Hj'. destruct (decide (j' = n)) as [->|]; [done|]. apply IH. lia.
Qed.

Lemma lex_eq l k : lex l k = Eq <-> l = k.
Proof.
  revert k. induction l as [|a l IH]; intros [|b k]; simpl; try done.
  destruct (Z.compare_spec a b) as [->|?|?]; [rewrite IH; split; congruence|..];
    split; try done; intros; simplify_eq; lia.
Qed.

(** ** Matching a pattern *)

(** [pat] matched against the bytes [t]; [None] when [t] ends first. *)
Fixpoint mcount (pat t : list Z) : option nat :=
  match pat, t with
  | [], _ => Some 0%nat
  | x :: pat, y :: t => if x =? y then S <$> mcount pat t else Some 0%nat
  | _ :: _, [] => None
  end.

Lemma mcount_full pat t r : mcount pat t = Some r -> r = length pat <-> take (length pat) t = pat.
Proof.
  revert t r. induction pat as [|x pat IH]; intros [|y t] r Hr; simpl in *; simplify_eq; try done.
  destruct (Z.eqb_spec x y) as [->|Hne].
  - destruct (mcount pat t) as [r'|] eqn:E; simpl in *; simplify_eq.
    specialize (IH t r' E). split; [intros ?; f_equal; apply IH; lia|intros [=]; f_equal; by apply IH].
  - simplify_eq. split; [lia|]. intros [=]. done.
Qed.

Lemma mcount_long pat t : (length pat <= length t)%nat -> is_Some (mcount pat t).
Proof.
  revert t. induction pat as [|x pat IH]; intros [|y t] Hl; simpl in *; try lia; eauto.
  case_match; [|eauto]. destruct (IH t) as [r ->]; [lia|]. simpl. eauto.
Qed.

Lemma mcount_nul pat l : Forall (fun b => b <> 0) pat -> is_Some (mcount pat (l ++ [0])).
Proof.
  revert l. induction pat as [|x pat IH]; intros l Hnz; simpl; [eauto|]. inversion_clear Hnz as [|?? Hx Hp].
  destruct l as [|y l]; simpl.
  - destruct (Z.eqb_spec x 0); [done|]. eauto.
  - case_match; [|eauto]. destruct (IH l Hp) as [r ->]. simpl. eauto.
Qed.

(** A pattern reader yields the characters of [pat]. *)
Definition reads (m : mem) (rd : Z -> St mem Z) (pat : list Z) : Prop :=
  forall i x, pat !! i = Some x -> rd (Z.of_nat i) m = Ok x m.

Lemma reads_ptr m s pat : pts m s pat -> reads m (at_ptr s) pat.
Proof. intros Hs i x Hi. unfold at_ptr. by eapply pts_load. Qed.

Lemma reads_char m ch : reads m (at_char ch) [ch].
Proof. intros [|i] x Hi; simpl in Hi; simplify_eq. done. Qed.

Lemma match_count_ok m rd pat : forall i b t r,
  (forall j x, pat !! j = Some x -> rd (i + Z.of_nat j) m = Ok x m) ->
  pts m (b + i) t -> mcount pat t = Some r ->
  match_count (length pat) rd i b m = Ok (Z.of_nat r) m.
Proof.
  induction pat as [|x pat IH]; intros i b t r Hrd Hb Hr; simpl in *; simplify_eq; [done|].
  destruct t as [|y t]; [done|]. apply pts_cons in Hb as [Hy Hb].
  unfold bind at 1. pose proof (Hrd 0%nat x eq_refl) as H0. rewrite Z.add_0_r in H0. rewrite H0.
  unfold bind at 1. rewrite (load_ok _ _ _ Hy). destruct (x =? y); [|injection Hr as <-; done].
  destruct (mcount pat t) as [r'|] eqn:E; simpl in *; simplify_eq.
  unfold bind. rewrite (IH (i + 1) b t r'); [| | |done].
  - unfold ret. f_equal. lia.
  - intros j x' Hj. rewrite <-(Hrd (S j) x' Hj). f_equal. lia.
  - by rewrite Z.add_assoc.
Qed.

Lemma match_at m rd pat b t :
  reads m rd pat -> pts m b t -> is_Some (mcount pat t) ->
  exists r, match_count (length pat) rd 0 b m = Ok (Z.of_nat r) m /\
    (Z.of_nat r =? zlen pat) = bool_decide (take (length pat) t = pat).
Proof.
  intros Hrd Hb [r Hr]. exists r. split.
  - eapply match_count_ok; [exact Hrd|by rewrite Z.add_0_r|done].
  - pose proof (mcount_full _ _ _ Hr) as Hf. unfold zlen. case_bool_decide as Hd.
    + apply Z.eqb_eq. f_equal. tauto.
    + apply Z.eqb_neq. intros ?. apply Hd, Hf. lia.
Qed.

Lemma one_of_ok m rd pat c : forall i,
  (forall j x, pat !! j = Some x -> rd (i + Z.of_nat j) m = Ok x m) ->
  one_of (length pat) rd i c m = Ok (bool_decide (c ∈ pat)) m.
Proof.
  induction pat as [|x pat IH]; intros i Hrd; cbn [one_of length]; [done|].
  unfold bind at 1. pose proof (Hrd 0%nat x eq_refl) as H0. rewrite Z.add_0_r in H0. rewrite H0.
  destruct (Z.eqb_spec c x) as [->|Hne].
  - unfold ret. f_equal. symmetry. apply bool_decide_eq_true_2. by left.
  - rewrite (IH (i + 1)).
    + f_equal. apply bool_decide_ext. rewrite elem_of_cons. naive_solver.
    + intros j x' Hj. rewrite <-(Hrd (S j) x' Hj). f_equal. lia.
Qed.

(** ** The scanning loops *)

Section Scan.
Context {m : mem} {rd : Z -> St mem Z} {pat l : list Z} {p : Z} {want : bool}.
Hypothesis Hrd : reads m rd pat.
Hypothesis Hp : pts m p l.
Hypothesis Hr : 0 <= p /\ p + zlen l < 2 ^ 64.

Lemma scan_char i c : l !! i = Some c ->
  load (p + Z.of_nat i) m = Ok c m /\
  one_of (Z.to_nat (zlen pat)) rd 0 c m = Ok (bool_decide (c ∈ pat)) m /\
  u64 (p + Z.of_nat i - p) = Z.of_nat i.
Proof.
  intros Hc. split_and!.
  - by eapply pts_load.
  - replace (Z.to_nat (zlen pat)) with (length pat) by (unfold zlen; lia). apply one_of_ok. exact Hrd.
  - apply lookup_lt_Some in Hc. unfold zlen in *. rewrite u64_small; lia.
Qed.

Lemma scan_up n : forall i, (i + n <= length l)%nat ->
  scan n rd (zlen pat) want 1 p (p + Z.of_nat i) m =
    Ok (index_or_npos (first_from (char_in want pat l) i n)) m.
Proof.
  induction n as [|n IH]; intros i Hi; cbn [scan first_from]; [done|].
  destruct (lookup_lt_is_Some_2 l i) as [c Hc]; [lia|]. destruct (scan_char i c Hc) as (H1 & H2 & H3).
  unfold bind. rewrite H1, H2. unfold char_in at 1. rewrite Hc.
  destruct (Bool.eqb _ want); [unfold ret; by rewrite H3|].
  replace (p + Z.of_nat i + 1) with (p + Z.of_nat (S i)) by lia. apply IH. lia.
Qed.

Lemma scan_down n : (n <= length l)%nat ->
  scan n rd (zlen pat) want (-1) p (p + (Z.of_nat n - 1)) m =
    Ok (index_or_npos (last_below (char_in want pat l) n)) m.
Proof.
  induction n as [|n IH]; intros Hn; cbn [scan last_below]; [done|].
  replace (p + (Z.of_nat (S n) - 1)) with (p + Z.of_nat n) by lia.
  destruct (lookup_lt_is_Some_2 l n) as [c Hc]; [lia|]. destruct (scan_char n c Hc) as (H1 & H2 & H3).
  unfold bind. rewrite H1, H2. unfold char_in at 1. rewrite Hc.
  destruct (Bool.eqb _ want); [unfold ret; by rewrite H3|].
  replace (p + Z.of_nat n + -1) with (p + (Z.of_nat n - 1)) by lia. apply IH. lia.
Qed.

End Scan.

(** ** The searches of the class *)

Section Search.
Context `{Allocator}.
Context {m : mem} {this p cap : Z} {l : list Z}.
Hypothesis HR : RepAt m this l p cap.

Lemma rep_chars : pts m p l /\ 0 <= p /\ p + zlen l < 2 ^ 64.
Proof.
  pose proof (rep_cap _ _ _ _ _ HR). pose proof (rep_pts _ _ _ _ _ HR) as Hp. apply pts_app in Hp as [Hp _].
  split_and!; [done|lia..].
Qed.

Lemma first_gen_ok want rd pat pos :
  reads m rd pat -> 0 <= pos ->
  first_gen want this rd pos (zlen pat) m =
    Ok (index_or_npos (first_from (char_in want pat l) (Z.to_nat pos) (length l - Z.to_nat pos))) m.
Proof.
  intros Hrd Hpos. destruct rep_chars as (Hp & Hr). unfold first_gen, bind. rewrite (rep_size _ _ _ _ _ HR).
  destruct (zlen l <=? pos) eqn:E; bool_prop; unfold zlen in E.
  { replace (length l - Z.to_nat pos)%nat with O by lia. done. }
  rewrite (rep_begin _ _ _ _ _ HR). replace (Z.to_nat (zlen l - pos)) with (length l - Z.to_nat pos)%nat by (unfold zlen; lia).
  replace (p + pos) with (p + Z.of_nat (Z.to_nat pos)) by lia. by apply scan_up; [..|lia].
Qed.

(** The start of the backward scans. *)
Definition last_start (n pos : Z) : nat := Z.to_nat (n - (if n <=? pos then 0 else pos)).

Lemma last_gen_ok want rd pat pos :
  reads m rd pat -> 0 <= pos ->
  last_gen want this rd pos (zlen pat) m =
    Ok (index_or_npos (last_below (char_in want pat l) (last_start (zlen l) pos))) m.
Proof.
  intros Hrd Hpos. destruct rep_chars as (Hp & Hr). pose proof (zlen_nonneg l).
  unfold last_gen, bind. rewrite (rep_size _ _ _ _ _ HR), (rep_begin _ _ _ _ _ HR).
  set (k := if zlen l <=? pos then 0 else pos).
  assert (0 <= k <= zlen l) as Hk by (unfold k; destruct (zlen l <=? pos) eqn:E; bool_prop; lia).
  assert (last_start (zlen l) pos = Z.to_nat (zlen l - k)) as -> by done.
  replace (zlen l - 1 - k + 1) with (zlen l - k) by lia.
  replace (p + (zlen l - 1 - k)) with (p + (Z.of_nat (Z.to_nat (zlen l - k)) - 1)) by lia.
  apply scan_down; [done..|unfold zlen in *; lia].
Qed.

(** [find] looks at the positions below [size() - count]. *)
Lemma find_loop_ok s pat : pts m s pat -> forall n i,
  (i + n + length pat = length l)%nat ->
  find_loop (S n) s (zlen pat) (p + Z.of_nat i) (p + zlen l) (Z.of_nat i) m =
    Ok (index_or_npos (first_from (occurs pat l) i n)) m.
Proof.
  intros Hs n. destruct rep_chars as (Hp & Hr). induction n as [|n IH]; intros i Hi.
  - cbn [find_loop first_from]. rewrite (proj2 (Z.eqb_eq _ _)) by (unfold zlen; lia). done.
  - change (find_loop (S (S n)) s (zlen pat) (p + Z.of_nat i) (p + zlen l) (Z.of_nat i) m)
      with ((if p + Z.of_nat i + zlen pat =? p + zlen l then ret npos
             else let! matches := match_count (Z.to_nat (zlen pat)) (at_ptr s) 0 (p + Z.of_nat i) in
               if matches =? zlen pat then ret (Z.of_nat i)
               else find_loop (S n) s (zlen pat) (p + Z.of_nat i + 1) (p + zlen l) (Z.of_nat i + 1)) m).
    rewrite (proj2 (Z.eqb_neq _ _)) by (unfold zlen; lia).
    destruct (match_at m (at_ptr s) pat (p + Z.of_nat i) (drop i l)) as (r & Hrun & Heq).
    + by apply reads_ptr.
    + by apply pts_drop.
    + apply mcount_long. rewrite length_drop. lia.
    + unfold bind. replace (Z.to_nat (zlen pat)) with (length pat) by (unfold zlen; lia). rewrite Hrun, Heq.
      cbn [first_from]. unfold occurs at 1. case_bool_decide; [done|].
      replace (p + Z.of_nat i + 1) with (p + Z.of_nat (S i)) by lia.
      replace (Z.of_nat i + 1) with (Z.of_nat (S i)) by lia. apply IH. lia.
Qed.

Lemma find_ok s pat pos :
  pts m s pat -> 0 <= pos -> pos + zlen pat <= zlen l ->
  find this s pos (zlen pat) m =
    Ok (index_or_npos (first_from (occurs pat l) (Z.to_nat pos) (length l - length pat - Z.to_nat pos))) m.
Proof.
  intros Hs Hpos Hle. destruct rep_chars as (Hp & Hr). pose proof (zlen_nonneg pat). unfold find, bind.
  rewrite (rep_size _ _ _ _ _ HR). destruct (zlen l <=? pos) eqn:E; bool_prop.
  { replace (length l - length pat - Z.to_nat pos)%nat with O by (unfold zlen in *; lia). done. }
  rewrite (rep_begin _ _ _ _ _ HR), (rep_end _ _ _ _ _ HR).
  assert (steps_to (p + pos + zlen pat) (p + zlen l) = length l - length pat - Z.to_nat pos)%nat as ->.
  { unfold steps_to. rewrite u64_small by lia. unfold zlen in *. lia. }
  pose proof (find_loop_ok s pat Hs (length l - length pat - Z.to_nat pos) (Z.to_nat pos)) as Hf.
  rewrite Z2Nat.id in Hf by lia. apply Hf. unfold zlen in *. lia.
Qed.

(** [rfind] may look at the NUL behind the characters. *)
Lemma rfind_loop_ok rd pat : reads m rd pat -> Forall (fun b => b <> 0) pat -> forall n,
  (n <= S (length l))%nat ->
  rfind_loop n rd (zlen pat) p (p + (Z.of_nat n - 1)) m = Ok (index_or_npos (last_below (occurs pat l) n)) m.
Proof.
  intros Hrd Hnz n. destruct rep_chars as (_ & Hr). pose proof (rep_pts _ _ _ _ _ HR) as Hp.
  pose proof (zlen_nonneg l).
  induction n as [|n IH]; intros Hn; [done|]. cbn [rfind_loop last_below].
  replace (p + (Z.of_nat (S n) - 1)) with (p + Z.of_nat n) by lia.
  destruct (match_at m rd pat (p + Z.of_nat n) (drop n l ++ [0])) as (r & Hrun & Heq); [done| |by apply mcount_nul|].
  { rewrite <-drop_app_le by lia. by apply pts_drop. }
  unfold bind. replace (Z.to_nat (zlen pat)) with (length pat) by (unfold zlen; lia). rewrite Hrun, Heq.
  rewrite (bool_decide_ext _ (take (length pat) (drop n l) = pat)).
  2: { destruct (decide (length pat <= length (drop n l))%nat); [by rewrite take_app_le|].
    rewrite (take_ge (drop n l)) by lia. split.
    - intros Ht. exfalso. apply (f_equal (fun k => k !! length (drop n l))) in Ht as Ht'.
      rewrite lookup_take_lt, lookup_app_r, Nat.sub_diag in Ht' by lia. simpl in Ht'.
      symmetry in Ht'. apply (Forall_lookup_1 _ _ _ _ Hnz) in Ht'. done.
    - intros Ht. exfalso. apply (f_equal length) in Ht. lia. }
  fold (occurs pat l n). destruct (occurs pat l n) eqn:E; [unfold ret; rewrite u64_small by (unfold zlen in *; lia); f_equal; simpl; lia|].
  replace (p + Z.of_nat n - 1) with (p + (Z.of_nat n - 1)) by lia. apply IH. lia.
Qed.

Lemma occurs_short pat i : (length l < length pat)%nat -> occurs pat l i = false.
Proof.
  intros Hlt. apply bool_decide_eq_false_2. intros Ht. apply (f_equal length) in Ht.
  rewrite length_take, length_drop in Ht. lia.
Qed.

Lemma rfind_gen_ok rd pat pos :
  reads m rd pat -> Forall (fun b => b <> 0) pat -> 0 <= pos ->
  rfind_gen this rd pos (zlen pat) m =
    Ok (index_or_npos (last_below (occurs pat l) (S (length l `min` Z.to_nat pos)))) m.
Proof.
  intros Hrd Hnz Hpos. pose proof (zlen_nonneg l). unfold rfind_gen, bind.
  rewrite (rep_size _ _ _ _ _ HR), (rep_begin _ _ _ _ _ HR).
  destruct (zlen l <? zlen pat) eqn:E; bool_prop.
  - unfold ret. do 2 f_equal. pose proof (last_below_spec (occurs pat l) (S (length l `min` Z.to_nat pos))) as Hs.
    destruct (last_below _ _) as [j|]; [|done]. destruct Hs as (_ & Hj & _).
    rewrite occurs_short in Hj; [done|]. unfold zlen in *. lia.
  - set (q := if zlen l <=? pos then zlen l else pos).
    assert (q = Z.of_nat (length l `min` Z.to_nat pos)) as ->
      by (unfold q, zlen in *; destruct (_ <=? pos) eqn:E2; bool_prop; lia).
    replace (Z.to_nat _) with (S (length l `min` Z.to_nat pos)) by lia.
    replace (p + Z.of_nat (length l `min` Z.to_nat pos))
      with (p + (Z.of_nat (S (length l `min` Z.to_nat pos)) - 1)) by lia.
    apply rfind_loop_ok; [done..|lia].
Qed.

(** ** Comparison *)

Definition sign (c : comparison) : Z := match c with Eq => 0 | Lt => -1 | Gt => 1 end.

Lemma traits_compare_ok : forall (a b : list Z) q r n, pts m q a -> pts m r b -> (n <= length a)%nat -> (n <= length b)%nat ->
  traits_compare n q r m = Ok (sign (lex (take n a) (take n b))) m.
Proof.
  intros a. induction a as [|x a IH]; intros [|y b] q r [|n] Ha Hb H1 H2; simpl in *; try done; try lia.
  apply pts_cons in Ha as [Hx Ha]. apply pts_cons in Hb as [Hy Hb]. unfold bind.
  rewrite (load_ok _ _ _ Hx), (load_ok _ _ _ Hy).
  destruct (Z.compare_spec x y) as [->|?|?].
  - rewrite Z.ltb_irrefl. apply IH; [done..|lia|lia].
  - rewrite (proj2 (Z.ltb_lt _ _)) by done. done.
  - rewrite (proj2 (Z.ltb_ge _ _)) by lia. rewrite (proj2 (Z.ltb_lt _ _)) by done. done.
Qed.

Lemma lex_take (a b : list Z) : let n := (length a `min` length b)%nat in
  lex a b = match lex (take n a) (take n b) with
            | Eq => (length a ?= length b)%nat | c => c end.
Proof.
  revert b. induction a as [|x a IH]; intros [|y b]; simpl; try done.
  destruct (x ?= y); [apply IH|done..].
Qed.

Lemma compare_ok s k :
  pts m s k ->
  compare this 0 npos s (zlen k) m =
    Ok (match lex (take (length l `min` length k) l) (take (length l `min` length k) k) with
        | Eq => to_signed 32 (u64 (zlen l - zlen k)) | c => sign c end) m.
Proof.
  intros Hk. destruct rep_chars as (Hp & Hr). pose proof (zlen_nonneg l). unfold compare, bind.
  rewrite (rep_size _ _ _ _ _ HR). rewrite (proj2 (Z.ltb_ge _ _)) by lia.
  set (c1 := if zlen l <? u64 (0 + npos) then zlen l - 0 else npos).
  assert (c1 = zlen l) as ->.
  { subst c1. change (u64 (0 + npos)) with (2 ^ 64 - 1). change npos with (2 ^ 64 - 1).
    destruct (_ <? _) eqn:E; bool_prop; lia. }
  unfold data. rewrite (rep_begin _ _ _ _ _ HR), Z.add_0_r.
  replace (Z.to_nat (zlen l `min` zlen k)) with (length l `min` length k)%nat by (unfold zlen; lia).
  rewrite (traits_compare_ok l k) by (done || lia). unfold ret. f_equal.
  destruct (lex _ _); simpl sign; [by rewrite Z.eqb_refl|done..].
Qed.

(** The sign of [compare], for lengths that differ by less than [2^31]. *)
Lemma compare_sign s k :
  pts m s k -> - 2 ^ 31 <= zlen l - zlen k < 2 ^ 31 ->
  exists r, compare this 0 npos s (zlen k) m = Ok r m /\ (r ?= 0) = lex l k.
Proof.
  intros Hk Hd. eexists. split; [by apply compare_ok|]. rewrite (lex_take l k). destruct (lex _ _); [|done..].
  assert (to_signed 32 (u64 (zlen l - zlen k)) = zlen l - zlen k) as ->.
  { unfold to_signed. unfold wrap. unfold zlen in *.
    rewrite <-Znumtheory.Zmod_div_mod by (try lia; by exists (2 ^ 32)).
    set (d := Z.of_nat (length l) - Z.of_nat (length k)) in *. clearbody d.
    change (2 ^ (32 - 1)) with (2 ^ 31).
    destruct (decide (0 <= d)).
    - rewrite Z.mod_small by lia. destruct (_ <? _) eqn:E; bool_prop; lia.
    - rewrite <-(Z_mod_plus_full _ 1), Z.mod_small by lia. destruct (_ <? _) eqn:E; bool_prop; lia. }
  unfold zlen. destruct (Nat.compare_spec (length l) (length k)).
  - apply Z.compare_eq_iff. lia.
  - apply Z.compare_lt_iff. lia.
  - apply Z.compare_gt_iff. lia.
Qed.

End Search.
