(* ===== verification/StringClaims.v ===== *)
(** * Strings: what the class promises

    The contract of [crossbow/string.hpp] in terms of lists of characters, one theorem per
    group of operations, and the inputs on which an operation does something else than
    its counterpart in [std::string]. *)

From S2P Require Import Prelude Memory String StringRep StringData StringOps StringInsert StringSearch.

Import Str.

(** ** A small memory for the witnesses

    The string ["ab"] at 1000, storage for an object at 1100, the characters ["bc"] with a
    NUL at 1200, the string ["x"] at 1300. *)

Definition obj_ab : list Z := 2 :: 97 :: 98 :: replicate 29 0.
Definition obj_x : list Z := 1 :: 120 :: replicate 30 0.

Definition demo_mem : mem :=
  upd (upd (upd (upd (Mem ∅ ∅ []) 1000 obj_ab) 1100 (replicate 32 0)) 1200 [98; 99; 0]) 1300 obj_x.

Fixpoint pts_b (m : mem) (p : Z) (l : list Z) : bool :=
  match l with
  | [] => true
  | x :: l => bool_decide (bytes m !! p = Some x) && pts_b m (p + 1) l
  end.

Lemma pts_b_ok m p l : pts_b m p l = true -> pts m p l.
Proof.
  revert p. induction l as [|x l IH]; intros p Hb; simpl in *; [apply pts_nil|].
  apply andb_true_iff in Hb as [Hx Hl]. apply pts_cons. split; [by apply bool_decide_eq_true_1 in Hx|auto].
Qed.

Ltac demo_pts := apply pts_b_ok; vm_compute; reflexivity.

Lemma sso_rep m this l tl :
  pts_b m this (zlen l :: l ++ 0 :: tl) = true -> zlen (l ++ 0 :: tl) = 31 -> zlen l <= 30 ->
  0 < this -> this + 32 < 2 ^ 64 -> RepAt m this l (this + 1) 30.
Proof.
  intros Hb Hl Hlen Ht Ht2. apply pts_b_ok in Hb. exists (l ++ 0 :: tl). pose proof (zlen_nonneg l). split.
  - assert (mapped m this 32) by (exists (zlen l :: l ++ 0 :: tl); split; [done|rewrite zlen_cons; lia]).
    apply pts_cons in Hb as [Hb Hd]. constructor; try done; try lia. by left.
  - rewrite (app_assoc l [0] tl : l ++ 0 :: tl = (l ++ [0]) ++ tl).
    rewrite take_app_le by (rewrite length_app; simpl; lia). apply take_ge. rewrite length_app. simpl. lia.
Qed.

Lemma demo_ab : RepAt demo_mem 1000 [97; 98] 1001 30.
Proof. by apply (sso_rep demo_mem 1000 [97; 98] (replicate 28 0)). Qed.

Lemma demo_x : RepAt demo_mem 1300 [120] 1301 30.
Proof. by apply (sso_rep demo_mem 1300 [120] (replicate 29 0)). Qed.

Lemma demo_slot : slot demo_mem 1100.
Proof.
  split_and!; [lia|lia| |by intros]. exists (replicate 32 0). split; [demo_pts|done].
Qed.

Lemma demo_separate : separate 1000 1001 30 1300 1301 30.
Proof. unfold separate, foot. lia. Qed.

Lemma demo_bc : pts demo_mem 1200 [98; 99].
Proof. demo_pts. Qed.

Section Claims.
Context `{Allocator}.

(** ** Construction *)

(** the constructors build what they are asked for: the empty string, [count] copies of
    a character, a C string, a character range, a copy of another string, and the
    substring of another string ([std::out_of_range] exactly when [pos] exceeds its
    size). Memory outside the new object is untouched; the only other failure is that of
    the allocator. *)
Theorem string_construction (m : mem) (this s other q c count ch pos n : Z) (l k : list Z) :
  slot m this -> 0 <= count < 2 ^ 64 - 1 -> 0 <= pos -> 0 <= n ->
  pts m s (l ++ [0]) -> Forall (fun b => b <> 0) l -> outside this s l -> zlen l < 2 ^ 64 - 1 ->
  RepAt m other k q c -> separate this this (-1) other q c -> zlen k < 2 ^ 64 - 1 ->
  wp (ctor_default this) m (fun _ m' => created this m [] m') /\
  wpx (ctor_fill this count ch) m (fun _ m' => created this m (replicate (Z.to_nat count) ch) m')
    (fun e _ => e = BadAlloc) /\
  wpx (ctor_cstr this s) m (fun _ m' => created this m l m') (fun e _ => e = BadAlloc) /\
  wpx (ctor_range this s (zlen l)) m (fun _ m' => created this m l m') (fun e _ => e = BadAlloc) /\
  wpx (ctor_copy this other) m (fun _ m' => created this m k m' /\ RepAt m' other k q c)
    (fun e _ => e = BadAlloc) /\
  wpx (ctor_substr this other pos n) m
    (fun _ m' => pos <= zlen k /\ created this m (take (Z.to_nat n) (drop (Z.to_nat pos) k)) m' /\
       RepAt m' other k q c)
    (fun e m' => if zlen k <? pos then e = OutOfRange /\ m' = m else e = BadAlloc).
Proof.
  intros Hs Hc Hpos Hn Hl Hnz Ho Hzl Hk Hsep Hzk. split_and!.
  - by apply ctor_default_ok.
  - by apply ctor_fill_ok.
  - by apply ctor_cstr_ok.
  - apply ctor_range_ok; try done. by apply pts_app in Hl as [? _].
  - by apply ctor_copy_ok.
  - eapply wpx_mono; [by apply ctor_substr_ok|done|]. intros e m'. case_match; [done|]. by intros [].
Qed.

(** ** Capacity *)

(** [reserve] makes room for [new_cap] characters, never shrinks, keeps the characters,
    touches nothing outside the object, and either succeeds or throws [std::length_error]
    or [std::bad_alloc] with the memory exactly as it was. *)
Theorem string_reserve (m : mem) (this p cap c : Z) (l : list Z) :
  RepAt m this l p cap -> 0 <= c < 2 ^ 64 ->
  wpx (reserve this c) m
    (fun _ m' => exists p' cap', RepAt m' this l p' cap' /\ c <= cap' /\ cap <= cap' /\
       evolves this m p cap m' p' cap')
    (strong m).
Proof.
  intros (d & R & Ht) Hc. eapply wpx_mono; [by apply (reserve_ok m this p (zlen l) cap d)| |done].
  intros _ m' (p' & cap' & d' & R' & H1 & H2 & Ht' & Hev). exists p', cap'. split_and!; try done.
  exists d'. split; [done|]. rewrite <-Ht. by replace (S (length l)) with (Z.to_nat (zlen l + 1)) by (unfold zlen; lia).
Qed.

(** ** Assignment, growth and truncation *)

(** assignment from a string, a character range and a fill makes the object equal to
    the source; [push_back], [pop_back], [clear] and [resize] change the end of the
    string only. Each keeps the representation, leaves other memory alone, and throws
    (if at all) before it changed anything. *)
Theorem string_assignment (m : mem) (this p cap str q c s count ch : Z) (old l k : list Z) (x : Z) :
  RepAt m this (old ++ [x]) p cap -> RepAt m str k q c -> separate this p cap str q c ->
  pts m s l -> clear_of this p cap s l -> zlen l < 2 ^ 64 -> 0 <= count < 2 ^ 64 ->
  wpx (assign_copy this str) m (fun _ m' => updates this m p cap k m' /\ RepAt m' str k q c) (strong m) /\
  wpx (assign_range this s (zlen l)) m (fun _ m' => updates this m p cap l m') (strong m) /\
  wpx (assign_fill this count ch) m (fun _ m' => updates this m p cap (replicate (Z.to_nat count) ch) m') (strong m) /\
  wpx (push_back this ch) m (fun _ m' => updates this m p cap ((old ++ [x]) ++ [ch]) m') (strong m) /\
  wp (pop_back this) m (fun _ m' => updates this m p cap old m') /\
  wp (clear this) m (fun _ m' => updates this m p cap [] m') /\
  wpx (resize this count ch) m
    (fun _ m' => updates this m p cap
       (take (Z.to_nat count) (old ++ [x]) ++ replicate (Z.to_nat count - length (old ++ [x])) ch) m') (strong m).
Proof.
  intros HR Hk Hsep Hs Hcl Hzl Hc. split_and!.
  - by eapply assign_copy_ok.
  - by eapply assign_body.
  - by eapply assign_fill_ok.
  - by eapply push_back_ok.
  - by eapply pop_back_ok.
  - by eapply clear_ok.
  - by eapply resize_ok.
Qed.

(** ** Insertion *)

(** C32: [insert] of a fill or of a character range puts the characters between the first
    [index] characters and the rest; it throws [std::out_of_range] exactly when [index]
    exceeds the size, and no exception changes anything. *)
Theorem string_insert (m : mem) (this p cap index count ch s : Z) (old l : list Z) :
  RepAt m this old p cap -> 0 <= index -> 0 <= count -> zlen old + count < 2 ^ 64 ->
  pts m s l -> clear_of this p cap s l -> zlen old + zlen l < 2 ^ 64 ->
  wpx (insert_fill this index count ch) m
    (fun _ m' => index <= zlen old /\ updates this m p cap
       (take (Z.to_nat index) old ++ replicate (Z.to_nat count) ch ++ drop (Z.to_nat index) old) m')
    (fun e m' => if zlen old <? index then e = OutOfRange /\ m' = m else strong m e m') /\
  wpx (insert_range this index s (zlen l)) m
    (fun _ m' => index <= zlen old /\ updates this m p cap
       (take (Z.to_nat index) old ++ l ++ drop (Z.to_nat index) old) m')
    (fun e m' => if zlen old <? index then e = OutOfRange /\ m' = m else strong m e m').
Proof. intros. split; [by eapply insert_fill_ok|by eapply insert_range_ok]. Qed.

(** [append] of another string or of a fill puts the new characters behind the old
    ones; the other string is unchanged and an exception changes nothing. *)
Theorem string_append (m : mem) (this p cap str q c count ch : Z) (old l : list Z) :
  RepAt m this old p cap -> RepAt m str l q c -> separate this p cap str q c ->
  zlen old + zlen l < 2 ^ 64 -> 0 <= count -> zlen old + count < 2 ^ 64 ->
  wpx (append_str this str) m
    (fun _ m' => updates this m p cap (old ++ l) m' /\ RepAt m' str l q c) (strong m) /\
  wpx (append_fill this count ch) m
    (fun _ m' => updates this m p cap (old ++ replicate (Z.to_nat count) ch) m') (strong m).
Proof. intros. split; [by eapply append_str_ok|by eapply append_fill_ok]. Qed.

(** ** Removal and replacement *)

(** [erase(index, count)] removes the characters [index, index + count) and keeps the
    others in order; it throws [std::out_of_range] exactly when [index] exceeds the size.
    [erase(first, last)] also returns the iterator behind the removed range, and neither
    moves the storage. *)
Theorem string_erase (m : mem) (this p cap index count k : Z) (old : list Z) :
  RepAt m this old p cap -> 0 <= index -> 0 <= count < 2 ^ 64 -> zlen old < 2 ^ 63 -> 0 <= k ->
  wpx (erase this index count) m
    (fun _ m' => index <= zlen old /\
       updates this m p cap (take (Z.to_nat index) old ++ drop (Z.to_nat (index + count)) old) m')
    (fun e m' => e = OutOfRange /\ zlen old < index /\ m' = m) /\
  (index + k <= zlen old ->
   wp (erase_it this (p + index) (p + index + k)) m
     (fun r m' => r = p + index /\ evolves this m p cap m' p cap /\
        RepAt m' this (take (Z.to_nat index) old ++ drop (Z.to_nat (index + k)) old) p cap)).
Proof. intros. split; [by eapply erase_ok|intros; by eapply erase_it_ok]. Qed.

(** [replace(first, last, first2, last2)] replaces the characters of its range by the
    given ones, whichever of the two ranges is longer. *)
Theorem string_replace (m : mem) (this p cap i s : Z) (g : nat) (old l : list Z) :
  RepAt m this old p cap -> 0 <= i -> i + Z.of_nat g <= zlen old -> pts m s l -> clear_of this p cap s l ->
  zlen old + zlen l < 2 ^ 64 ->
  wpx (replace_it_range this (p + i) (p + i + Z.of_nat g) s (s + zlen l)) m
    (fun _ m' => updates this m p cap (take (Z.to_nat i) old ++ l ++ drop (Z.to_nat i + g) old) m')
    (fun e _ => e = LengthError \/ e = BadAlloc).
Proof. apply replace_it_range_ok. Qed.

(** ** Search and comparison *)

(** [find_first_of] and [find_first_not_of] return the least position from [pos] on
    whose character is (is not) in the pattern; [rfind] returns the greatest position up
    to [pos] where a NUL-free pattern occurs; [npos] when there is none. Searching never
    changes the memory. *)
Theorem string_search (m : mem) (this p cap s pos : Z) (l pat : list Z) :
  RepAt m this l p cap -> pts m s pat -> Forall (fun b => b <> 0) pat -> 0 <= pos ->
  find_first_of this s pos (zlen pat) m =
    Ok (index_or_npos (first_from (char_in true pat l) (Z.to_nat pos) (length l - Z.to_nat pos))) m /\
  find_first_not_of this s pos (zlen pat) m =
    Ok (index_or_npos (first_from (char_in false pat l) (Z.to_nat pos) (length l - Z.to_nat pos))) m /\
  rfind this s pos (zlen pat) m =
    Ok (index_or_npos (last_below (occurs pat l) (S (length l `min` Z.to_nat pos)))) m.
Proof.
  intros HR Hs Hnz Hpos. apply reads_ptr in Hs.
  split_and!; [by apply (first_gen_ok HR)|by apply (first_gen_ok HR)|by apply (rfind_gen_ok HR)].
Qed.

(** [find] returns the least position [i >= pos] at which the pattern occurs and which
    lies strictly below [size() - count], so an occurrence at the very end of the string
    is not found. *)
Theorem string_find_exact (m : mem) (this p cap s pos : Z) (l pat : list Z) :
  RepAt m this l p cap -> pts m s pat -> 0 <= pos -> pos + zlen pat <= zlen l ->
  find this s pos (zlen pat) m =
    Ok (index_or_npos (first_from (occurs pat l) (Z.to_nat pos) (length l - length pat - Z.to_nat pos))) m.
Proof. intros. by apply find_ok with (1 := H0). Qed.

(** with [pos < size()], [find_last_of] looks at the positions up to
    [size() - 1 - pos] instead of those up to [pos]; with [pos >= size()] it is the
    greatest position whose character is in the pattern. *)
Theorem string_find_last_of_exact (m : mem) (this p cap s pos : Z) (l pat : list Z) :
  RepAt m this l p cap -> pts m s pat -> 0 <= pos ->
  find_last_of this s pos (zlen pat) m =
    Ok (index_or_npos (last_below (char_in true pat l)
      (if zlen l <=? pos then length l else (length l - Z.to_nat pos)%nat))) m.
Proof.
  intros HR Hs Hpos. unfold find_last_of. rewrite (last_gen_ok HR true _ pat pos (reads_ptr _ _ _ Hs) Hpos).
  unfold last_start. destruct (zlen l <=? pos) eqn:E; bool_prop; do 3 f_equal; unfold zlen in *; lia.
Qed.

(** C33: [compare] of two strings whose lengths differ by less than 2^31 has the sign of
    the lexicographic order, and the comparison operators decide that order; equality
    is equality of the characters. *)
Theorem string_compare (m : mem) (this p cap str q c : Z) (l k : list Z) :
  RepAt m this l p cap -> RepAt m str k q c -> - 2 ^ 31 <= zlen l - zlen k < 2 ^ 31 ->
  (exists r, compare_str this str m = Ok r m /\ (r ?= 0) = lex l k) /\
  eq_str this str m = Ok (bool_decide (l = k)) m /\
  lt_str this str m = Ok (match lex l k with Lt => true | _ => false end) m /\
  le_str this str m = Ok (match lex l k with Gt => false | _ => true end) m.
Proof.
  intros HR HK Hd. destruct (rep_chars HK) as (Hk & _).
  destruct (compare_sign HR q k Hk Hd) as (r & Hrun & Hsign).
  assert (compare_str this str m = Ok r m) as Hc.
  { unfold compare_str, bind, c_str. by rewrite (rep_begin _ _ _ _ _ HK), (rep_size _ _ _ _ _ HK). }
  split_and!; [eauto|unfold eq_str|unfold lt_str|unfold le_str]; unfold bind; rewrite Hc; unfold ret; f_equal.
  - pose proof (lex_eq l k) as He. rewrite <-Hsign in He. case_bool_decide as Hlk.
    + apply Z.eqb_eq, Z.compare_eq_iff. tauto.
    + apply Z.eqb_neq. intros ->. tauto.
  - rewrite <-Hsign. unfold Z.ltb. done.
  - rewrite <-Hsign. unfold Z.leb. done.
Qed.

End Claims.

(** ** Deviations *)

Section Deviations.
Context `{Allocator}.

(** a suffix of a string is never found at the position where it starts: [find] from
    there returns [npos], although the pattern occurs there. *)
Theorem string_find_skips_suffix (m : mem) (this p cap s : Z) (l pat : list Z) :
  RepAt m this (l ++ pat) p cap -> pts m s pat ->
  find this s (zlen l) (zlen pat) m = Ok npos m /\ occurs pat (l ++ pat) (length l) = true.
Proof.
  intros HR Hs. pose proof (zlen_nonneg l). split.
  - rewrite (find_ok HR s pat (zlen l) Hs) by (try lia; unfold zlen; rewrite length_app; lia).
    replace (length (l ++ pat) - length pat - Z.to_nat (zlen l))%nat with O by (rewrite length_app; unfold zlen; lia). done.
  - apply bool_decide_eq_true_2. rewrite drop_app_length. by apply take_ge.
Qed.

End Deviations.

(** appending a string to itself reads freed memory once the characters are on the
    heap and the append has to grow: the range [str.begin(), str.end()] is taken before
    [reserve] releases the block. *)
Theorem string_self_append_dangles :
  wp (ctor_fill 1100 40 97) demo_mem (fun _ m' =>
    append_str 1100 1100 m' = UB /\ wp (append_str 1100 1300) m' (fun _ m'' => size 1100 m'' = Ok 41 m'')).
Proof. vm_compute. split; reflexivity. Qed.

(** [append(str, pos, count)] never reads [str]. *)
Lemma append_substr_ignores_str {A : Allocator} this str str' pos count m :
  append_substr this str pos count m = append_substr this str' pos count m.
Proof. done. Qed.

(** [operator==(const std::string&, const basic_string&)] accepts every standard string that
    starts with the characters of the other one. *)
Lemma eq_std_str_prefix {A : Allocator} m this l p cap tl :
  RepAt m this l p cap -> eq_std_str (l ++ tl) this m = Ok true m.
Proof.
  intros HR. destruct (rep_chars HR) as (Hp & _). unfold eq_std_str, bind, c_str.
  rewrite (rep_size _ _ _ _ _ HR), (rep_begin _ _ _ _ _ HR).
  replace (Z.to_nat (zlen l)) with (length l) by (unfold zlen; lia).
  rewrite (load_bytes_ok _ _ _ Hp), take_app_length. unfold ret. by rewrite bool_decide_eq_true_2.
Qed.

(** A heap string is allocated with one byte more than the size it is released with. *)
Lemma dtor_size_mismatch :
  wp (do! ctor_fill 1100 40 97 in dtor 1100) demo_mem (fun _ m' => freed m' = [(1344, 41, 40)]).
Proof. vm_compute. reflexivity. Qed.

(** ** Witnesses *)

Lemma string_construction_witness :
  wpx (ctor_substr 1100 1000 1 5) demo_mem
    (fun _ m' => 1 <= 2 /\ created 1100 demo_mem [98] m' /\ RepAt m' 1000 [97; 98] 1001 30)
    (fun e m' => if 2 <? 1 then e = OutOfRange /\ m' = demo_mem else e = BadAlloc).
Proof.
  destruct (string_construction demo_mem 1100 1200 1000 1001 30 40 120 1 5 [98; 99] [97; 98]) as (_ & _ & _ & _ & _ & Hw); [..|exact Hw];
    [apply demo_slot|lia|lia|lia|demo_pts|by repeat constructor|right; left; vm_compute; discriminate|done
    |apply demo_ab|unfold separate, foot; lia|done].
Defined.

Lemma string_reserve_witness :
  wpx (reserve 1000 31) demo_mem
    (fun _ m' => exists p' cap', RepAt m' 1000 [97; 98] p' cap' /\ 31 <= cap' /\ 30 <= cap' /\
       evolves 1000 demo_mem 1001 30 m' p' cap')
    (strong demo_mem).
Proof. apply (string_reserve demo_mem 1000 1001 30 31 [97; 98]); [apply demo_ab|lia]. Defined.

Lemma demo_bc_clear : clear_of 1000 1001 30 1200 [98; 99].
Proof. right. split; unfold disj; vm_compute; left; discriminate. Qed.

Lemma string_assignment_witness :
  wpx (assign_range 1000 1200 2) demo_mem
    (fun _ m' => updates 1000 demo_mem 1001 30 [98; 99] m') (strong demo_mem).
Proof.
  destruct (string_assignment demo_mem 1000 1001 30 1300 1301 30 1200 3 121 [97] [98; 99] [120] 98) as (_ & Hw & _); [..|exact Hw];
    [apply demo_ab|apply demo_x|apply demo_separate|apply demo_bc|apply demo_bc_clear|done|lia].
Defined.

Lemma string_insert_witness :
  wpx (insert_range 1000 1 1200 2) demo_mem
    (fun _ m' => 1 <= 2 /\ updates 1000 demo_mem 1001 30 [97; 98; 99; 98] m')
    (fun e m' => if 2 <? 1 then e = OutOfRange /\ m' = demo_mem else strong demo_mem e m').
Proof.
  destruct (string_insert demo_mem 1000 1001 30 1 4 120 1200 [97; 98] [98; 99]) as (_ & Hw); [..|exact Hw];
    [apply demo_ab|lia|lia|done|apply demo_bc|apply demo_bc_clear|done].
Defined.

Lemma string_append_witness :
  wpx (append_str 1000 1300) demo_mem
    (fun _ m' => updates 1000 demo_mem 1001 30 [97; 98; 120] m' /\ RepAt m' 1300 [120] 1301 30) (strong demo_mem).
Proof.
  destruct (string_append demo_mem 1000 1001 30 1300 1301 30 4 120 [97; 98] [120]) as (Hw & _); [..|exact Hw];
    [apply demo_ab|apply demo_x|apply demo_separate|done|lia|done].
Defined.

Lemma string_erase_witness :
  wpx (erase 1000 0 1) demo_mem
    (fun _ m' => 0 <= 2 /\ updates 1000 demo_mem 1001 30 [98] m')
    (fun e m' => e = OutOfRange /\ 2 < 0 /\ m' = demo_mem).
Proof.
  destruct (string_erase demo_mem 1000 1001 30 0 1 1 [97; 98]) as (Hw & _); [..|exact Hw]; [apply demo_ab|lia|lia|done|lia].
Defined.

Lemma string_replace_witness :
  wpx (replace_it_range 1000 1001 1002 1200 1202) demo_mem
    (fun _ m' => updates 1000 demo_mem 1001 30 [98; 99; 98] m') (fun e _ => e = LengthError \/ e = BadAlloc).
Proof.
  apply (string_replace demo_mem 1000 1001 30 0 1200 1 [97; 98] [98; 99]);
    [apply demo_ab|lia|done|apply demo_bc|apply demo_bc_clear|done].
Defined.

Lemma string_search_witness : rfind 1000 1200 npos 1 demo_mem = Ok 1 demo_mem.
Proof.
  destruct (string_search demo_mem 1000 1001 30 1200 npos [97; 98] [98]) as (_ & _ & Hw); [..|exact Hw];
    [apply demo_ab|demo_pts|by repeat constructor|done].
Defined.

Lemma string_find_exact_witness : find 1000 1200 0 1 demo_mem = Ok npos demo_mem.
Proof.
  apply (string_find_exact demo_mem 1000 1001 30 1200 0 [97; 98] [98]); [apply demo_ab|demo_pts|done|done].
Defined.

Lemma string_find_last_of_exact_witness : find_last_of 1000 1200 1 1 demo_mem = Ok npos demo_mem.
Proof.
  apply (string_find_last_of_exact demo_mem 1000 1001 30 1200 1 [97; 98] [98]); [apply demo_ab|demo_pts|done].
Defined.

Lemma string_compare_witness : lt_str 1000 1300 demo_mem = Ok true demo_mem.
Proof.
  destruct (string_compare demo_mem 1000 1001 30 1300 1301 30 [97; 98] [120]) as (_ & _ & Hw & _); [..|exact Hw]; [apply demo_ab|apply demo_x|done].
Defined.

Lemma string_find_skips_suffix_witness : find 1000 1200 1 1 demo_mem = Ok npos demo_mem.
Proof.
  destruct (string_find_skips_suffix demo_mem 1000 1001 30 1200 [97] [98]) as (Hw & _); [..|exact Hw]; [apply demo_ab|demo_pts].
Defined.
