(* ===== verification/Serializer.v ===== *)
(** * Serialization

    [crossbow/Serializer.hpp] and the policies under [crossbow/serializer/].  A policy template
    that is specialised per type is a definition per specialisation; which one [ar & x]
    selects is resolved by the class [Archived], as the compiler resolves the template.
    Serializer and deserializer are a memory and the position [pos] in it, the sizer is
    its counter.  [Lawful] states what every archived type promises to the types built
    from it: the bytes the serializer writes are those the sizer counted, and the
    deserializer reads the value back from them.

    Classes with a member [operator&], which the policies also accept, are not modelled.
    Values of the standard containers are lists; their own allocations are taken to
    succeed. *)

From S2P Require Import Prelude Memory.

(** ** Archivers *)

Record archive := Ar { ar_mem : mem; ar_pos : Z }.

Definition on_mem {A} (c : St mem A) : St archive A := fun s =>
  match c (ar_mem s) with
  | Ok a m => Ok a (Ar m (ar_pos s))
  | Throw e m => Throw e (Ar m (ar_pos s))
  | UB => UB
  | NoFuel => NoFuel
  end.

Definition get_pos : St archive Z := fun s => Ok (ar_pos s) s.
Definition set_pos (p : Z) : St archive unit := fun s => Ok tt (Ar (ar_mem s) p).

(** [ar & x] for the three archivers, and the value of a variable [T x;]. *)
Class Archived (A : Type) := {
  sizer_and : A -> St Z unit;
  serializer_and : A -> St archive unit;
  deserializer_and : A -> St archive A;
  default_init : A
}.
#[export] Hint Mode Archived ! : typeclass_instances.

(** [sizer::other_impl]: [s.size += p(s, obj)], the counter read after the call. *)
Definition other_impl {A} (policy : A -> St Z Z) (obj : A) : St Z unit :=
  let! r := policy obj in
  let! s := get in
  put (u64 (s + r)).

(** [serializer::operator&]: [pos = ser(ar, obj, pos)]. *)
Definition serializer_policy {A} (ser : A -> Z -> St archive Z) (obj : A) : St archive unit :=
  let! pos := get_pos in
  let! p := ser obj pos in
  set_pos p.

(** [deserializer::operator&]; the policy gets the old value of the object. *)
Definition deserializer_policy {A} (des : A -> Z -> St archive (A * Z)) (out : A) : St archive A :=
  let! pos := get_pos in
  let! (a, p) := des out pos in
  do! set_pos p in
  ret a.

(** ** Plain data *)

(** Object representation of a trivially copyable type. *)
Class Pod (A : Type) := {
  sizeof : nat;
  to_bytes : A -> list Z;
  of_bytes : list Z -> A;
  indeterminate : A;
  pod_wf : A -> Prop;
  pod_length : forall a, length (to_bytes a) = sizeof;
  pod_back : forall a, pod_wf a -> of_bytes (to_bytes a) = a
}.

Definition serialize_pod `{Pod A} (obj : A) (pos : Z) : St archive Z :=
  do! on_mem (store_bytes pos (to_bytes obj)) in
  ret (pos + Z.of_nat sizeof).

Definition deserialize_pod `{Pod A} (out : A) (ptr : Z) : St archive (A * Z) :=
  let! l := on_mem (load_bytes sizeof ptr) in
  ret (of_bytes l, ptr + Z.of_nat sizeof).

Definition size_pod `{Pod A} (obj : A) : St Z Z := ret (Z.of_nat sizeof).

Instance pod_archived `{Pod A} : Archived A := {|
  sizer_and := other_impl size_pod;
  serializer_and := serializer_policy serialize_pod;
  deserializer_and := deserializer_policy deserialize_pod;
  default_init := indeterminate
|}.

(** Unsigned integers of [w] bytes. *)
Record uint (w : nat) := UInt { uval : Z }.
Arguments UInt {w} uval.
Arguments uval {w} u.
Abbreviation size_t := (uint 8).

#[refine] Instance uint_pod (w : nat) : Pod (uint w) := {|
  sizeof := w;
  to_bytes := fun u => le_bytes w (uval u);
  of_bytes := fun l => UInt (le_val l);
  indeterminate := UInt 0;
  pod_wf := fun u => 0 <= uval u < 2 ^ (8 * Z.of_nat w)
|}.
Proof.
  - intros. apply length_le_bytes.
  - intros [u] Hu. simpl in *. f_equal. by apply le_val_bytes_small.
Defined.

(** ** [bool] *)

Definition serialize_bool (b : bool) (pos : Z) : St archive Z :=
  let r := if b then 1 else 0 in
  do! on_mem (store pos r) in
  ret (pos + 1).

Definition deserialize_bool (out : bool) (ptr : Z) : St archive (bool * Z) :=
  let! x := on_mem (load ptr) in
  ret (x =? 1, ptr + 1).

Definition size_bool (b : bool) : St Z Z := ret 1.

Instance bool_archived : Archived bool := {|
  sizer_and := other_impl size_bool;
  serializer_and := serializer_policy serialize_bool;
  deserializer_and := deserializer_policy deserialize_bool;
  default_init := false
|}.

(** ** [std::pair] *)

Section Pair.
Context {U V : Type} `{Archived U} `{Archived V}.

Definition serialize_pair (p : U * V) (pos : Z) : St archive Z :=
  do! serializer_and p.1 in
  do! serializer_and p.2 in
  get_pos.

Definition deserialize_pair (p : U * V) (ptr : Z) : St archive ((U * V) * Z) :=
  let! u := deserializer_and p.1 in
  let! v := deserializer_and p.2 in
  let! pos := get_pos in
  ret ((u, v), pos).

Definition size_pair (p : U * V) : St Z Z :=
  do! sizer_and p.1 in
  do! sizer_and p.2 in
  ret 0.

#[global] Instance pair_archived : Archived (U * V) := {|
  sizer_and := other_impl size_pair;
  serializer_and := serializer_policy serialize_pair;
  deserializer_and := deserializer_policy deserialize_pair;
  default_init := (default_init, default_init)
|}.

End Pair.

(** ** [std::tuple]

    [std::tuple<T0, ..., Tn>] is [tsnoc (... (tsnoc tnil T0) ...) Tn], so that the recursion
    of the [_tuple_impl] templates on the index is recursion on the type. *)

Variant tnil := TNil.
Record tsnoc (A B : Type) := TSnoc { tinit : A; tlast : B }.
Arguments TSnoc {A B} tinit tlast.
Arguments tinit {A B} t.
Arguments tlast {A B} t.

Class TupleImpl (A : Type) := {
  size_tuple_impl : A -> St Z unit;
  serialize_tuple_impl : A -> St archive unit;
  deserialize_tuple_impl : A -> St archive A;
  tuple_init : A
}.

(** Index -1. *)
Instance tnil_impl : TupleImpl tnil := {|
  size_tuple_impl := fun _ => ret tt;
  serialize_tuple_impl := fun _ => ret tt;
  deserialize_tuple_impl := fun t => ret t;
  tuple_init := TNil
|}.

Section Tuple.
Context {A B : Type} `{TupleImpl A} `{Archived B}.

(** The sizer takes the last element first. *)
Definition size_tuple_snoc (v : tsnoc A B) : St Z unit :=
  do! sizer_and (tlast v) in
  size_tuple_impl (tinit v).

Definition serialize_tuple_snoc (v : tsnoc A B) : St archive unit :=
  do! serialize_tuple_impl (tinit v) in
  serializer_and (tlast v).

Definition deserialize_tuple_snoc (v : tsnoc A B) : St archive (tsnoc A B) :=
  let! a := deserialize_tuple_impl (tinit v) in
  let! b := deserializer_and (tlast v) in
  ret (TSnoc a b).

#[global] Instance tsnoc_impl : TupleImpl (tsnoc A B) := {|
  size_tuple_impl := size_tuple_snoc;
  serialize_tuple_impl := serialize_tuple_snoc;
  deserialize_tuple_impl := deserialize_tuple_snoc;
  tuple_init := TSnoc tuple_init default_init
|}.

End Tuple.

(** The element types [A] as a tuple object, and as the members of a class whose
    [visit] applies the archiver to them in order. *)
Record tuple (A : Type) := Tuple { elements : A }.
Arguments Tuple {A} elements.
Arguments elements {A} t.
Record visited (A : Type) := Visited { members : A }.
Arguments Visited {A} members.
Arguments members {A} v.

Section TupleObject.
Context {A : Type} `{TupleImpl A}.

Definition serialize_tuple (v : tuple A) (pos : Z) : St archive Z :=
  do! serialize_tuple_impl (elements v) in get_pos.

Definition deserialize_tuple (out : tuple A) (pos : Z) : St archive (tuple A * Z) :=
  let! a := deserialize_tuple_impl (elements out) in
  let! p := get_pos in
  ret (Tuple a, p).

Definition size_tuple (obj : tuple A) : St Z Z :=
  do! size_tuple_impl (elements obj) in ret 0.

#[global] Instance tuple_archived : Archived (tuple A) := {|
  sizer_and := other_impl size_tuple;
  serializer_and := serializer_policy serialize_tuple;
  deserializer_and := deserializer_policy deserialize_tuple;
  default_init := Tuple tuple_init
|}.

(** Classes with [visit] do not go through a policy. *)
Definition sizer_visit (o : visited A) : St Z unit := size_tuple_impl (members o).
Definition serializer_visit (o : visited A) : St archive unit := serialize_tuple_impl (members o).
Definition deserializer_visit (o : visited A) : St archive (visited A) :=
  let! a := deserialize_tuple_impl (members o) in ret (Visited a).

#[global] Instance visited_archived : Archived (visited A) := {|
  sizer_and := sizer_visit;
  serializer_and := serializer_visit;
  deserializer_and := deserializer_visit;
  default_init := Visited tuple_init
|}.

End TupleObject.

(** ** [boost::optional] *)

Section Optional.
Context {A : Type} `{Archived A}.

Definition is_set (obj : option A) : bool := match obj with Some _ => true | None => false end.

Definition serialize_optional (obj : option A) (pos : Z) : St archive Z :=
  do! serializer_and (is_set obj) in
  do! match obj with Some x => serializer_and x | None => ret tt end in
  get_pos.

(** An unset optional leaves [p] as it was. *)
Definition deserialize_optional (p : option A) (ptr : Z) : St archive (option A * Z) :=
  let! b := deserializer_and false in
  let! p := (if b : bool then let! res := deserializer_and default_init in ret (Some res) else ret p) in
  let! pos := get_pos in
  ret (p, pos).

Definition size_optional (obj : option A) : St Z Z :=
  do! sizer_and (is_set obj) in
  do! match obj with Some x => sizer_and x | None => ret tt end in
  ret 0.

#[global] Instance optional_archived : Archived (option A) := {|
  sizer_and := other_impl size_optional;
  serializer_and := serializer_policy serialize_optional;
  deserializer_and := deserializer_policy deserialize_optional;
  default_init := None
|}.

End Optional.

(** ** [std::vector] *)

(** [std::vector<T>::max_size()]. *)
Class VectorMax (A : Type) := { vector_max_size : Z }.

(** [for (auto& e : v) ar & e]. *)
Fixpoint each {S A} (f : A -> St S unit) (l : list A) : St S unit :=
  match l with
  | [] => ret tt
  | x :: l => do! f x in each f l
  end.

Section Vector.
Context {A : Type} `{Archived A} `{VectorMax A}.

Definition serialize_vector (v : list A) (pos : Z) : St archive Z :=
  do! serializer_and (UInt (zlen v) : size_t) in
  do! each serializer_and v in
  get_pos.

(** The elements are appended to [out]. *)
Fixpoint deserialize_vector_loop (n : nat) (out : list A) : St archive (list A) :=
  match n with
  | O => ret out
  | S k =>
      let! obj := deserializer_and default_init in
      deserialize_vector_loop k (out ++ [obj])
  end.

Definition deserialize_vector (out : list A) (ptr : Z) : St archive (list A * Z) :=
  let! s := on_mem (load_word 8 ptr) in
  do! set_pos (ptr + 8) in
  if vector_max_size <? s then throw LengthError
  else
    let! out := deserialize_vector_loop (Z.to_nat s) out in
    let! pos := get_pos in
    ret (out, pos).

Definition size_vector (obj : list A) : St Z Z :=
  do! sizer_and (default_init : size_t) in
  do! each sizer_and obj in
  ret 0.

#[global] Instance vector_archived : Archived (list A) := {|
  sizer_and := other_impl size_vector;
  serializer_and := serializer_policy serialize_vector;
  deserializer_and := deserializer_policy deserialize_vector;
  default_init := []
|}.

End Vector.

(** ** Strings

    [std::string] and [crossbow::string] have the same policies; [chars] are the [size()]
    characters at [data()]. *)

Record bstring := BString { chars : list Z }.

Definition serialize_string (obj : bstring) (pos : Z) : St archive Z :=
  let len := u32 (zlen (chars obj)) in
  do! on_mem (store_word 4 pos len) in
  let pos := pos + 4 in
  do! on_mem (store_bytes pos (take (Z.to_nat len) (chars obj))) in
  ret (pos + len).

Definition deserialize_string (out : bstring) (ptr : Z) : St archive (bstring * Z) :=
  let! s := on_mem (load_word 4 ptr) in
  let! l := on_mem (load_bytes (Z.to_nat s) (ptr + 4)) in
  ret (BString l, ptr + 4 + s).

Definition size_string (obj : bstring) : St Z Z := ret (u64 (4 + zlen (chars obj))).

Instance string_archived : Archived bstring := {|
  sizer_and := other_impl size_string;
  serializer_and := serializer_policy serialize_string;
  deserializer_and := deserializer_policy deserialize_string;
  default_init := BString []
|}.

(** ** Associative containers

    [std::map], [std::multimap] and [std::unordered_map] have the same policies, over the
    container's iteration order and its [emplace]. *)

Class Container (C K V : Type) := {
  c_empty : C;
  c_elems : C -> list (K * V);
  c_emplace : K -> V -> C -> C
}.
#[export] Hint Mode Container ! - - : typeclass_instances.

(** The container as an object of the archive. *)
Record assoc (C : Type) := Assoc { contents : C }.
Arguments Assoc {C} contents.
Arguments contents {C} a.

Section Map.
Context {C K V : Type} `{Container C K V} `{Archived K} `{Archived V}.

Definition serialize_map (map : assoc C) (pos : Z) : St archive Z :=
  do! serializer_and (UInt (zlen (c_elems (contents map))) : size_t) in
  do! each (fun e => do! serializer_and e.1 in serializer_and e.2) (c_elems (contents map)) in
  get_pos.

(** The elements are emplaced into [out]. *)
Fixpoint deserialize_map_loop (n : nat) (out : C) : St archive C :=
  match n with
  | O => ret out
  | S k =>
      let! f := deserializer_and default_init in
      let! s := deserializer_and default_init in
      deserialize_map_loop k (c_emplace f s out)
  end.

Definition deserialize_map (out : assoc C) (ptr : Z) : St archive (assoc C * Z) :=
  let! sz := deserializer_and (default_init : size_t) in
  let! c := deserialize_map_loop (Z.to_nat (uval sz)) (contents out) in
  let! pos := get_pos in
  ret (Assoc c, pos).

Definition size_map (map : assoc C) : St Z Z :=
  do! sizer_and (default_init : size_t) in
  do! each (fun e => do! sizer_and e.1 in sizer_and e.2) (c_elems (contents map)) in
  ret 0.

#[global] Instance map_archived : Archived (assoc C) := {|
  sizer_and := other_impl size_map;
  serializer_and := serializer_policy serialize_map;
  deserializer_and := deserializer_policy deserialize_map;
  default_init := Assoc c_empty
|}.

End Map.

(** ** The entry points *)

Section Entry.
Context `{Allocator}.

(** [delete[] p]; a null pointer is ignored. *)
Definition delete_array (p : Z) : St mem unit := fun m =>
  if p =? 0 then Ok tt m
  else match blocks m !! p with Some k => deallocate p k m | None => UB end.

(** [crossbow::serialize(res, obj)]: the new buffer and its size; [res] is the buffer the
    pointer held before. *)
Definition serialize `{Archived A} (res : Z) (obj : A) : St mem (Z * Z) := fun m =>
  match sizer_and obj 0 with
  | Ok _ size =>
      (let! buffer := allocate size in
       fun m1 =>
         match serializer_and obj (Ar m1 buffer) with
         | Ok _ ser =>
             (do! delete_array res in
              do! massert (ar_pos ser =? buffer + size) in
              ret (buffer, size)) (ar_mem ser)
         | Throw e ser => (do! delete_array buffer in throw e) (ar_mem ser)
         | UB => UB
         | NoFuel => NoFuel
         end) m
  | Throw e _ => Throw e m
  | UB => UB
  | NoFuel => NoFuel
  end.

(** [crossbow::deserialize(out, buffer)]: the new value and the end of what was read. *)
Definition deserialize `{Archived A} (out : A) (buffer : Z) : St mem (A * Z) := fun m =>
  match deserializer_and out (Ar m buffer) with
  | Ok a des => Ok (a, ar_pos des) (ar_mem des)
  | Throw e des => Throw e (ar_mem des)
  | UB => UB
  | NoFuel => NoFuel
  end.

End Entry.
