(* ===== verification/SerializerSpec.v ===== *)
(** * Serialization: size, round trip

    [Lawful]: what an archived type guarantees.  Every policy of the library is shown to
    be lawful when its element types are, so the guarantee holds for every type that
    can be built from them; [serialize] and [deserialize] are then inverse to each
    other. *)

From Stdlib Require Import Sorting.Sorted.
From S2P Require Import Prelude Memory Serializer.

(** ** What an archiver step does *)

(** Adds [n] to the size. *)
Definition grows (c : St Z unit) (n : Z) : Prop :=
  forall s, 0 <= s < 2 ^ 64 -> c s = Ok tt (u64 (s + n)).

(** Writes [k] at the position and moves behind it. *)
Definition writes (c : St archive unit) (k : list Z) : Prop :=
  forall m pos l0, pts m pos l0 -> length l0 = length k ->
    c (Ar m pos) = Ok tt (Ar (upd m pos k) (pos + zlen k)).

(** Reads [a] from [k] and moves behind it. *)
Definition reads_as {A} (c : St archive A) (k : list Z) (a : A) : Prop :=
  forall m pos, pts m pos k -> c (Ar m pos) = Ok a (Ar m (pos + zlen k)).

Class Lawful (A : Type) `{Archived A} := {
  encode : A -> list Z;
  wf : A -> Prop;
  fresh : A -> Prop;
  size_law : forall a, wf a -> grows (sizer_and a) (zlen (encode a));
  serialize_law : forall a, wf a -> writes (serializer_and a) (encode a);
  deserialize_law : forall a out, wf a -> fresh out -> reads_as (deserializer_and out) (encode a) a;
  default_fresh : fresh default_init
}.

(** ** Composition *)

Lemma grows_seq c1 c2 n1 n2 : grows c1 n1 -> grows c2 n2 -> grows (do! c1 in c2) (n1 + n2).
Proof.
  intros H1 H2 s Hs. unfold bind. rewrite H1 by done. rewrite H2 by (apply wrap_range; lia).
  f_equal. unfold wrap. rewrite Zplus_mod_idemp_l. f_equal. lia.
Qed.

Lemma grows_nil : grows (ret tt) 0.
Proof. intros s Hs. unfold ret. f_equal. rewrite Z.add_0_r. symmetry. by apply u64_small. Qed.

Lemma writes_seq c1 c2 k1 k2 : writes c1 k1 -> writes c2 k2 -> writes (do! c1 in c2) (k1 ++ k2).
Proof.
  intros H1 H2 m pos l0 Hl Hlen. rewrite length_app in Hlen.
  rewrite <-(take_drop (length k1) l0) in Hl. apply pts_app in Hl as [Ha Hb].
  assert (length (take (length k1) l0) = length k1) as Hk by (rewrite length_take; lia).
  unfold bind. rewrite (H1 _ _ _ Ha Hk). unfold zlen in Hb. rewrite Hk in Hb. fold (zlen k1) in Hb.
  rewrite (H2 _ _ (drop (length k1) l0)).
  - rewrite upd_app, zlen_app. by rewrite Z.add_assoc.
  - apply pts_upd_disj; [done|]. left. lia.
  - rewrite length_drop. lia.
Qed.

Lemma writes_nil : writes (ret tt) [].
Proof. intros m pos l0 _ _. rewrite upd_nil. by rewrite Z.add_0_r. Qed.

Lemma reads_bind {A B} (c : St archive A) (f : A -> St archive B) k1 k2 a b :
  reads_as c k1 a -> reads_as (f a) k2 b -> reads_as (bind c f) (k1 ++ k2) b.
Proof.
  intros H1 H2 m pos Hp. apply pts_app in Hp as [Ha Hb]. unfold bind. rewrite (H1 _ _ Ha), (H2 _ _ Hb).
  rewrite zlen_app. by rewrite Z.add_assoc.
Qed.

Lemma reads_ret {A} (a : A) : reads_as (ret a) [] a.
Proof. intros m pos _. by rewrite Z.add_0_r. Qed.

Lemma reads_map {A B} (c : St archive A) (g : A -> B) k a :
  reads_as c k a -> reads_as (let! x := c in ret (g x)) k (g a).
Proof. intros Hc. rewrite <-(app_nil_r k). eapply reads_bind; [done|]. apply reads_ret. Qed.

(** ** From a policy to [&] *)

Lemma policy_grows {A} (p : A -> St Z Z) a c n :
  (forall s, p a s = (do! c in ret 0) s) -> grows c n -> grows (other_impl p a) n.
Proof.
  intros Hp Hc s Hs. unfold other_impl, bind. rewrite Hp. unfold bind. rewrite Hc by done.
  unfold ret, get, put. f_equal. rewrite Z.add_0_r. apply u64_small. apply wrap_range. lia.
Qed.

Lemma policy_writes {A} (p : A -> Z -> St archive Z) a c k :
  (forall pos s, p a pos s = (do! c in get_pos) s) -> writes c k -> writes (serializer_policy p a) k.
Proof.
  intros Hp Hc m pos l0 Hl Hlen. unfold serializer_policy, bind, get_pos. cbn [ar_pos]. rewrite Hp.
  unfold bind. by rewrite (Hc _ _ _ Hl Hlen).
Qed.

Lemma policy_reads {A} (p : A -> Z -> St archive (A * Z)) out c k a :
  (forall pos s, p out pos s = (let! x := c in let! pos := get_pos in ret (x, pos)) s) ->
  reads_as c k a -> reads_as (deserializer_policy p out) k a.
Proof.
  intros Hp Hc m pos Hk. unfold deserializer_policy, bind, get_pos. cbn [ar_pos]. rewrite Hp.
  unfold bind. by rewrite (Hc _ _ Hk).
Qed.

(** ** Plain data and [bool] *)

Lemma policy_grows_const {A} (p : A -> St Z Z) a n : (forall s, p a s = Ok n s) -> grows (other_impl p a) n.
Proof. intros Hp s Hs. unfold other_impl, bind. by rewrite Hp. Qed.

Lemma pod_writes `{Pod A} (a : A) : writes (serializer_policy serialize_pod a) (to_bytes a).
Proof.
  intros m pos l0 Hl Hlen. unfold serializer_policy, serialize_pod, bind, get_pos, on_mem. cbn [ar_pos ar_mem].
  rewrite (store_bytes_ok _ _ l0 _ Hl) by done. unfold ret, set_pos, zlen. by rewrite pod_length.
Qed.

Lemma pod_reads `{Pod A} (a out : A) : pod_wf a -> reads_as (deserializer_policy deserialize_pod out) (to_bytes a) a.
Proof.
  intros Hw m pos Hk. unfold deserializer_policy, deserialize_pod, bind, get_pos, on_mem. cbn [ar_pos ar_mem].
  rewrite <-(pod_length a), (load_bytes_ok _ _ _ Hk). unfold ret, set_pos. by rewrite pod_back.
Qed.

#[export, refine] Instance pod_lawful `{Pod A} : Lawful A := {|
  encode := to_bytes;
  wf := pod_wf;
  fresh := fun _ : A => True;
  default_fresh := I
|}.
Proof.
  - intros a _. apply policy_grows_const. intros s. unfold zlen. by rewrite pod_length.
  - intros a _. apply pod_writes.
  - intros a out Hw _. by apply pod_reads.
Defined.

#[export, refine] Instance bool_lawful : Lawful bool := {|
  encode := fun b : bool => [if b then 1 else 0];
  wf := fun _ : bool => True;
  fresh := fun _ : bool => True;
  default_fresh := I
|}.
Proof.
  - intros a _. by apply policy_grows_const.
  - intros a _ m pos l0 Hl Hlen. destruct l0 as [|x [|]]; try done. apply pts_cons in Hl as [Hx _].
    unfold serializer_and, bool_archived, serializer_policy, serialize_bool, bind, get_pos, on_mem. cbn [ar_pos ar_mem].
    by rewrite (store_ok _ _ _ _ Hx).
  - intros a out _ _ m pos Hk. apply pts_cons in Hk as [Hx _].
    unfold deserializer_and, bool_archived, deserializer_policy, deserialize_bool, bind, get_pos, on_mem. cbn [ar_pos ar_mem].
    rewrite (load_ok _ _ _ Hx). by destruct a.
Defined.

(** ** Pairs and tuples *)

Lemma bind_assoc {S A B C} (c : St S A) (f : A -> St S B) (g : B -> St S C) s :
  bind c (fun x => bind (f x) g) s = bind (bind c f) g s.
Proof. unfold bind. by destruct (c s). Qed.

Section Pair.
Context {U V : Type} `{Lawful U} `{Lawful V}.

#[export, refine] Instance pair_lawful : Lawful (U * V) := {|
  encode := fun p : U * V => encode p.1 ++ encode p.2;
  wf := fun p : U * V => wf p.1 /\ wf p.2;
  fresh := fun p : U * V => fresh p.1 /\ fresh p.2
|}.
Proof.
  - intros [u v] [Hu Hv]. rewrite zlen_app.
    apply (policy_grows _ _ (do! sizer_and u in sizer_and v)); [intros; apply bind_assoc|].
    by apply grows_seq; apply size_law.
  - intros [u v] [Hu Hv]. apply (policy_writes _ _ (do! serializer_and u in serializer_and v));
      [intros; apply bind_assoc|]. by apply writes_seq; apply serialize_law.
  - intros [u v] [u0 v0] [Hu Hv] [Fu Fv]. simpl in *.
    apply (policy_reads _ _ (let! x := deserializer_and u0 in let! y := deserializer_and v0 in ret (x, y))).
    + intros pos s. unfold deserialize_pair, bind. cbn [fst snd]. destruct (deserializer_and u0 s) as [x s'|e s'| |]; try done.
      by destruct (deserializer_and v0 s').
    + eapply reads_bind; [by apply deserialize_law|]. apply (reads_map _ (fun y => (u, y))).
      by apply deserialize_law.
  - split; apply default_fresh.
Defined.

End Pair.
#[export] Existing Instance pair_lawful.

Class TupleLawful (A : Type) `{TupleImpl A} := {
  tencode : A -> list Z;
  twf : A -> Prop;
  tfresh : A -> Prop;
  tsize_law : forall a, twf a -> grows (size_tuple_impl a) (zlen (tencode a));
  tserialize_law : forall a, twf a -> writes (serialize_tuple_impl a) (tencode a);
  tdeserialize_law : forall a out, twf a -> tfresh out -> reads_as (deserialize_tuple_impl out) (tencode a) a;
  tdefault_fresh : tfresh tuple_init
}.

#[export, refine] Instance tnil_lawful : TupleLawful tnil := {|
  tencode := fun _ : tnil => [];
  twf := fun _ : tnil => True;
  tfresh := fun _ : tnil => True;
  tdefault_fresh := I
|}.
Proof.
  - intros a _. apply grows_nil.
  - intros a _. apply writes_nil.
  - intros [] [] _ _. apply reads_ret.
Defined.

Section Tuple.
Context {A B : Type} `{TupleLawful A} `{Lawful B}.

#[export, refine] Instance tsnoc_lawful : TupleLawful (tsnoc A B) := {|
  tencode := fun t : tsnoc A B => tencode (tinit t) ++ encode (tlast t);
  twf := fun t : tsnoc A B => twf (tinit t) /\ wf (tlast t);
  tfresh := fun t : tsnoc A B => tfresh (tinit t) /\ fresh (tlast t)
|}.
Proof.
  - intros [a b] [Ha Hb]. rewrite zlen_app, Z.add_comm. apply grows_seq; [by apply size_law|by apply tsize_law].
  - intros [a b] [Ha Hb]. apply writes_seq; [by apply tserialize_law|by apply serialize_law].
  - intros [a b] [a0 b0] [Ha Hb] [Fa Fb]. eapply reads_bind; [by apply tdeserialize_law|].
    apply (reads_map _ (fun y => TSnoc a y)). by apply deserialize_law.
  - split; [apply tdefault_fresh|apply default_fresh].
Defined.

#[export, refine] Instance tuple_lawful : Lawful (tuple A) := {|
  encode := fun t : tuple A => tencode (elements t);
  wf := fun t : tuple A => twf (elements t);
  fresh := fun t : tuple A => tfresh (elements t)
|}.
Proof.
  - intros [a] Ha. apply (policy_grows _ _ (size_tuple_impl a)); [done|]. by apply tsize_law.
  - intros [a] Ha. apply (policy_writes _ _ (serialize_tuple_impl a)); [done|]. by apply tserialize_law.
  - intros [a] [a0] Ha Fa. apply (policy_reads _ _ (let! x := deserialize_tuple_impl a0 in ret (Tuple x))).
    + intros pos s. unfold deserialize_tuple, bind. simpl. by destruct (deserialize_tuple_impl a0 s).
    + apply reads_map. by apply tdeserialize_law.
  - apply tdefault_fresh.
Defined.

#[export, refine] Instance visited_lawful : Lawful (visited A) := {|
  encode := fun t : visited A => tencode (members t);
  wf := fun t : visited A => twf (members t);
  fresh := fun t : visited A => tfresh (members t)
|}.
Proof.
  - intros [a] Ha. by apply tsize_law.
  - intros [a] Ha. by apply tserialize_law.
  - intros [a] [a0] Ha Fa. apply reads_map. by apply tdeserialize_law.
  - apply tdefault_fresh.
Defined.

End Tuple.
#[export] Existing Instances tsnoc_lawful tuple_lawful visited_lawful.

(** ** Optionals *)

Section Optional.
Context {A : Type} `{Lawful A}.

Definition encode_optional (o : option A) : list Z :=
  match o with Some x => 1 :: encode x | None => [0] end.

(** What is read back: an unset optional leaves the old value. *)
Definition read_optional (o out : option A) : option A :=
  match o with Some x => Some x | None => out end.

Lemma optional_reads (a out : option A) :
  (forall x, a = Some x -> wf x) ->
  reads_as (deserializer_and out) (encode_optional a) (read_optional a out).
Proof.
  intros Hw. apply (policy_reads _ _ (let! b := deserializer_and false in
    (if b : bool then let! res := deserializer_and default_init in ret (Some res) else ret out))).
  - intros pos s. unfold deserialize_optional. by rewrite bind_assoc.
  - replace (encode_optional a) with ((encode (is_set a) : list Z) ++ match a with Some x => encode x | None => [] end)
      by (by destruct a).
    eapply reads_bind; [by apply (deserialize_law (is_set a) false)|]. destruct a as [x|]; simpl.
    + apply (reads_map _ Some). apply deserialize_law; [auto|apply default_fresh].
    + apply reads_ret.
Qed.

#[export, refine] Instance optional_lawful : Lawful (option A) := {|
  encode := encode_optional;
  wf := fun o : option A => forall x, o = Some x -> wf x;
  fresh := fun o : option A => o = None;
  default_fresh := eq_refl
|}.
Proof.
  - intros a Hw. apply (policy_grows _ _ (do! sizer_and (is_set a) in
      match a with Some x => sizer_and x | None => ret tt end)); [intros; apply bind_assoc|].
    destruct a as [x|]; [rewrite (zlen_cons 1 _ : zlen (encode_optional (Some x)) = _)|]; cbn [is_set].
    + apply grows_seq; [exact (size_law true I)|by apply size_law, Hw].
    + apply (grows_seq _ _ 1 0); [exact (size_law false I)|apply grows_nil].
  - intros a Hw. apply (policy_writes _ _ (do! serializer_and (is_set a) in
      match a with Some x => serializer_and x | None => ret tt end)); [intros; apply bind_assoc|].
    destruct a as [x|]; cbn [is_set].
    + apply (writes_seq _ _ [1]); [exact (serialize_law true I)|by apply serialize_law, Hw].
    + apply (writes_seq _ _ [0] []); [exact (serialize_law false I)|apply writes_nil].
  - intros a out Hw ->. replace a with (read_optional a None) at 2 by (by destruct a). by apply optional_reads.
Defined.

End Optional.
#[export] Existing Instance optional_lawful.

(** ** Sequences *)

Definition encode_all {A} (enc : A -> list Z) (l : list A) : list Z := concat (map enc l).

Lemma each_grows {A} (f : A -> St Z unit) enc l :
  Forall (fun x => grows (f x) (zlen (enc x))) l -> grows (each f l) (zlen (encode_all enc l)).
Proof.
  induction 1 as [|x l Hx Hl IH]; [apply grows_nil|]. unfold encode_all. cbn [map concat]. rewrite zlen_app.
  by apply grows_seq.
Qed.

Lemma each_writes {A} (f : A -> St archive unit) enc l :
  Forall (fun x => writes (f x) (enc x)) l -> writes (each f l) (encode_all enc l).
Proof. induction 1 as [|x l Hx Hl IH]; [apply writes_nil|]. by apply writes_seq. Qed.

Lemma zlen_size_bytes n : zlen (le_bytes 8 n) = 8.
Proof. unfold zlen. by rewrite length_le_bytes. Qed.

(** The length prefix. *)
Lemma prefix_grows (c : St Z unit) n :
  grows c n -> grows (do! sizer_and (default_init : size_t) in c) (8 + n).
Proof. intros Hc. apply grows_seq; [|done]. by apply policy_grows_const. Qed.

Lemma prefix_writes (c : St archive unit) n k :
  writes c k -> writes (do! serializer_and (UInt n : size_t) in c) (le_bytes 8 n ++ k).
Proof. intros Hc. apply writes_seq; [|done]. exact (pod_writes (UInt n : size_t)). Qed.

Section Vector.
Context {A : Type} `{Lawful A} `{VectorMax A}.

Definition encode_vector (v : list A) : list Z := le_bytes 8 (zlen v) ++ encode_all encode v.

Definition wf_vector (v : list A) : Prop :=
  zlen v < 2 ^ 64 /\ zlen v <= vector_max_size /\ Forall wf v.

Lemma vector_loop_reads (v out : list A) :
  Forall wf v -> reads_as (deserialize_vector_loop (length v) out) (encode_all encode v) (out ++ v).
Proof.
  intros Hw. revert out. induction Hw as [|x v Hx Hv IH]; intros out; simpl.
  - rewrite app_nil_r. apply reads_ret.
  - eapply reads_bind; [apply deserialize_law; [done|apply default_fresh]|].
    rewrite (app_assoc out [x] v : out ++ x :: v = _). apply IH.
Qed.

(** The elements read are appended to what [out] held. *)
Lemma vector_reads (v out : list A) :
  wf_vector v -> reads_as (deserializer_and out) (encode_vector v) (out ++ v).
Proof.
  intros (Hv1 & Hv2 & Hw) m pos Hk. unfold deserializer_and, vector_archived, deserializer_policy, deserialize_vector.
  unfold encode_vector in Hk. apply pts_app in Hk as [Hn Hk]. rewrite zlen_size_bytes in Hk.
  unfold bind, get_pos, on_mem. cbn [ar_pos ar_mem]. rewrite (load_word_ok 8 _ _ _ Hn) by apply length_le_bytes.
  rewrite le_val_bytes_small by (pose proof (zlen_nonneg v); simpl; lia). unfold set_pos at 1. cbn [ar_mem].
  rewrite (proj2 (Z.ltb_ge _ _)) by done. replace (Z.to_nat (zlen v)) with (length v) by (unfold zlen; lia).
  rewrite (vector_loop_reads v out Hw _ _ Hk). unfold ret, set_pos. cbn [ar_mem ar_pos].
  unfold encode_vector. rewrite zlen_app, zlen_size_bytes. by rewrite Z.add_assoc.
Qed.

#[export, refine] Instance vector_lawful : Lawful (list A) := {|
  encode := encode_vector;
  wf := wf_vector;
  fresh := fun l : list A => l = [];
  default_fresh := eq_refl
|}.
Proof.
  - intros v (Hv1 & Hv2 & Hw). unfold encode_vector. rewrite zlen_app, zlen_size_bytes.
    apply (policy_grows _ _ (do! sizer_and (default_init : size_t) in each sizer_and v)); [intros; apply bind_assoc|].
    apply prefix_grows, each_grows. eapply Forall_impl; [|exact Hw]. intros x Hx. by apply size_law.
  - intros v (Hv1 & Hv2 & Hw).
    apply (policy_writes _ _ (do! serializer_and (UInt (zlen v) : size_t) in each serializer_and v));
      [intros; apply bind_assoc|].
    apply prefix_writes, each_writes. eapply Forall_impl; [|exact Hw]. intros x Hx. by apply serialize_law.
  - intros v out Hw ->. by apply (vector_reads v []).
Defined.

End Vector.
#[export] Existing Instance vector_lawful.

(** ** Strings *)

Definition encode_string (s : bstring) : list Z := le_bytes 4 (zlen (chars s)) ++ chars s.

#[export, refine] Instance string_lawful : Lawful bstring := {|
  encode := encode_string;
  wf := fun s : bstring => zlen (chars s) < 2 ^ 32;
  fresh := fun _ : bstring => True;
  default_fresh := I
|}.
Proof.
  - intros [l] Hl. apply policy_grows_const. intros s. unfold encode_string. rewrite zlen_app.
    unfold size_string, ret. cbn [chars] in *. pose proof (zlen_nonneg l). by rewrite u64_small by lia.
  - intros [l] Hl m pos l0 Hp Hlen. cbn [chars] in Hl. pose proof (zlen_nonneg l).
    assert (zlen (encode_string (BString l)) = 4 + zlen l) as Hz
      by (unfold encode_string; rewrite zlen_app; unfold zlen at 1; by rewrite length_le_bytes).
    unfold encode_string in Hlen. rewrite length_app, length_le_bytes in Hlen. cbn [chars] in Hlen.
    rewrite <-(take_drop 4 l0) in Hp. apply pts_app in Hp as [H1 H2].
    assert (length (take 4 l0) = 4%nat) as Ht by (rewrite length_take; lia).
    unfold zlen in H2 at 1. rewrite Ht in H2.
    unfold serializer_and, string_archived, serializer_policy, serialize_string, bind, get_pos, on_mem. cbn [ar_pos ar_mem chars].
    rewrite u32_small by lia. rewrite (store_word_ok 4 _ _ _ _ H1 Ht).
    replace (Z.to_nat (zlen l)) with (length l) by (unfold zlen; lia). rewrite take_ge by done.
    assert (zlen (le_bytes 4 (zlen l)) = 4) as H4 by (unfold zlen; by rewrite length_le_bytes).
    rewrite (store_bytes_ok _ (pos + 4) (drop 4 l0)).
    + unfold ret, set_pos. cbn [ar_mem]. rewrite Hz. f_equal. f_equal; [|lia].
      rewrite <-H4. apply upd_app.
    + apply pts_upd_disj; [done|]. left. rewrite H4. lia.
    + rewrite length_drop. lia.
  - intros [l] out Hl _ m pos Hk. cbn [chars] in Hl. pose proof (zlen_nonneg l).
    unfold encode_string in Hk. cbn [chars] in Hk. apply pts_app in Hk as [H1 H2].
    assert (zlen (le_bytes 4 (zlen l)) = 4) as H4 by (unfold zlen; by rewrite length_le_bytes).
    rewrite H4 in H2.
    unfold deserializer_and, string_archived, deserializer_policy, deserialize_string, bind, get_pos, on_mem. cbn [ar_pos ar_mem].
    rewrite (load_word_ok 4 _ _ _ H1) by apply length_le_bytes. rewrite le_val_bytes_small by (simpl; lia).
    replace (Z.to_nat (zlen l)) with (length l) by (unfold zlen; lia).
    cbn [ar_mem]. rewrite (load_bytes_ok _ _ _ H2).
    unfold ret, set_pos. cbn [ar_mem]. f_equal. f_equal. unfold encode_string. cbn [chars]. rewrite zlen_app, H4. lia.
Defined.

(** ** Associative containers *)

(** Emplacing the elements of a container in iteration order rebuilds it. *)
Class ContainerLaw (C K V : Type) `{Container C K V} := {
  c_inv : C -> Prop;
  c_rebuild : forall c, c_inv c ->
    fold_left (fun acc e => c_emplace e.1 e.2 acc) (c_elems c) c_empty = c
}.

Section Map.
Context {C K V : Type} `{ContainerLaw C K V} `{Lawful K} `{Lawful V}.

Definition encode_entry (e : K * V) : list Z := encode e.1 ++ encode e.2.
Definition encode_map (a : assoc C) : list Z :=
  le_bytes 8 (zlen (c_elems (contents a))) ++ encode_all encode_entry (c_elems (contents a)).

Definition wf_map (a : assoc C) : Prop :=
  zlen (c_elems (contents a)) < 2 ^ 64 /\ Forall (fun e : K * V => wf e.1 /\ wf e.2) (c_elems (contents a)) /\
  c_inv (contents a).

Lemma map_loop_reads (l : list (K * V)) (out : C) :
  Forall (fun e => wf e.1 /\ wf e.2) l ->
  reads_as (deserialize_map_loop (length l) out) (encode_all encode_entry l)
    (fold_left (fun acc e => c_emplace e.1 e.2 acc) l out).
Proof.
  intros Hw. revert out. induction Hw as [|[k v] l [Hk Hv] Hl IH]; intros out; simpl; [apply reads_ret|].
  unfold encode_all. cbn [map concat]. unfold encode_entry at 1. rewrite <-app_assoc.
  eapply reads_bind; [apply deserialize_law; [exact Hk|apply default_fresh]|].
  eapply reads_bind; [apply deserialize_law; [exact Hv|apply default_fresh]|]. apply IH.
Qed.

Lemma map_reads (a out : assoc C) :
  wf_map a -> reads_as (deserializer_and out) (encode_map a)
    (Assoc (fold_left (fun acc e => c_emplace e.1 e.2 acc) (c_elems (contents a)) (contents out))).
Proof.
  intros (Hz & Hw & _). apply (policy_reads _ _ (let! sz := deserializer_and (default_init : size_t) in
    let! c := deserialize_map_loop (Z.to_nat (uval sz)) (contents out) in ret (Assoc c))).
  - intros pos s. unfold deserialize_map, bind. destruct (deserializer_and _ s) as [sz s'|e s'| |]; try done.
    by destruct (deserialize_map_loop _ _ s').
  - pose proof (zlen_nonneg (c_elems (contents a))). set (n := zlen (c_elems (contents a))) in *.
    assert (pod_wf (UInt n : size_t)) as Hn by (simpl; lia).
    eapply (reads_bind _ _ _ _ (UInt n : size_t)); [exact (pod_reads (UInt n : size_t) default_init Hn)|].
    apply (reads_map _ Assoc). cbn [uval]. replace (Z.to_nat n) with (length (c_elems (contents a))) by (unfold n, zlen; lia).
    by apply map_loop_reads.
Qed.

#[export, refine] Instance map_lawful : Lawful (assoc C) := {|
  encode := encode_map;
  wf := wf_map;
  fresh := fun a : assoc C => contents a = c_empty;
  default_fresh := eq_refl
|}.
Proof.
  - intros a (Hz & Hw & _). unfold encode_map. rewrite zlen_app, zlen_size_bytes.
    apply (policy_grows _ _ (do! sizer_and (default_init : size_t) in
      each (fun e => do! sizer_and e.1 in sizer_and e.2) (c_elems (contents a)))); [intros; apply bind_assoc|].
    apply prefix_grows, each_grows. eapply Forall_impl; [|exact Hw]. intros [k v] [Hk Hv].
    unfold encode_entry. rewrite zlen_app. by apply grows_seq; apply size_law.
  - intros a (Hz & Hw & _).
    apply (policy_writes _ _ (do! serializer_and (UInt (zlen (c_elems (contents a))) : size_t) in
      each (fun e => do! serializer_and e.1 in serializer_and e.2) (c_elems (contents a)))); [intros; apply bind_assoc|].
    apply prefix_writes, each_writes. eapply Forall_impl; [|exact Hw]. intros [k v] [Hk Hv].
    by apply writes_seq; apply serialize_law.
  - intros [c] out Hw Hf. rewrite <-(c_rebuild c) at 2 by apply Hw. rewrite <-Hf. by apply (map_reads (Assoc c)).
Defined.

End Map.
#[export] Existing Instance map_lawful.

(** The containers of the standard library: [std::map] and [std::multimap] iterate in key
    order, [emplace] on a map keeps an entry with an equivalent key. *)
Section Containers.
Context {K V : Type} (ltb : K -> K -> bool).

Fixpoint map_emplace (k : K) (v : V) (l : list (K * V)) : list (K * V) :=
  match l with
  | [] => [(k, v)]
  | e :: l' => if ltb k e.1 then (k, v) :: l else if ltb e.1 k then e :: map_emplace k v l' else l
  end.

Fixpoint multimap_emplace (k : K) (v : V) (l : list (K * V)) : list (K * V) :=
  match l with
  | [] => [(k, v)]
  | e :: l' => if ltb k e.1 then (k, v) :: l else e :: multimap_emplace k v l'
  end.

Definition std_map : Container (list (K * V)) K V :=
  {| c_empty := []; c_elems := fun l => l; c_emplace := map_emplace |}.
Definition std_multimap : Container (list (K * V)) K V :=
  {| c_empty := []; c_elems := fun l => l; c_emplace := multimap_emplace |}.

(** Rebuilding a list whose elements belong behind all earlier ones. *)
Lemma rebuild_sorted (emplace : K -> V -> list (K * V) -> list (K * V)) (R : K -> K -> Prop) l :
  (forall k v acc, Forall (fun e => R e.1 k) acc -> emplace k v acc = acc ++ [(k, v)]) ->
  StronglySorted (fun a b => R a.1 b.1) l ->
  forall acc, Forall (fun a => Forall (fun b : K * V => R a.1 b.1) l) acc ->
  fold_left (fun acc e => emplace e.1 e.2 acc) l acc = acc ++ l.
Proof.
  intros Hem. induction 1 as [|[k v] l Hl IH Hk]; intros acc Hacc; simpl; [by rewrite app_nil_r|].
  rewrite Hem, IH.
  - by rewrite <-app_assoc.
  - apply Forall_app. split; [|by constructor]. eapply Forall_impl; [|exact Hacc]. intros a Ha. by inversion Ha.
  - eapply Forall_impl; [|exact Hacc]. intros a Ha. by inversion Ha.
Qed.

Lemma map_emplace_last k v acc :
  (forall a b, ltb a b = true -> ltb b a = false) ->
  Forall (fun e => ltb e.1 k = true) acc -> map_emplace k v acc = acc ++ [(k, v)].
Proof.
  intros Has. induction 1 as [|e acc He Hacc IH]; simpl; [done|]. by rewrite (Has _ _ He), He, IH.
Qed.

Lemma multimap_emplace_last k v acc :
  Forall (fun e => ltb k e.1 = false) acc -> multimap_emplace k v acc = acc ++ [(k, v)].
Proof. induction 1 as [|e acc He Hacc IH]; simpl; [done|]. by rewrite He, IH. Qed.

#[refine] Instance std_map_law (Has : forall a b, ltb a b = true -> ltb b a = false) :
  ContainerLaw (H := std_map) (list (K * V)) K V :=
  {| c_inv := StronglySorted (fun a b => ltb a.1 b.1 = true) |}.
Proof.
  intros l Hl. apply (rebuild_sorted map_emplace (fun a b => ltb a b = true) l); [|done|done].
  intros. by apply map_emplace_last.
Defined.

#[refine] Instance std_multimap_law : ContainerLaw (H := std_multimap) (list (K * V)) K V :=
  {| c_inv := StronglySorted (fun a b => ltb b.1 a.1 = false) |}.
Proof.
  intros l Hl. apply (rebuild_sorted multimap_emplace (fun a b => ltb b a = false) l); [|done|done].
  intros. by apply multimap_emplace_last.
Defined.

End Containers.

(** [std::unordered_map]: any iteration order. *)
Section Unordered.
Context {K V : Type} `{Countable K} (iterate : gmap K V -> list (K * V)).
Context (iterate_perm : forall g, iterate g ≡ₚ map_to_list g).

Definition unordered_emplace (k : K) (v : V) (g : gmap K V) : gmap K V :=
  match g !! k with Some _ => g | None => <[k := v]> g end.

Definition unordered_map : Container (gmap K V) K V :=
  {| c_empty := ∅; c_elems := iterate; c_emplace := unordered_emplace |}.

Lemma rebuild_unordered (l : list (K * V)) : NoDup l.*1 -> forall acc, (forall k, k ∈ l.*1 -> acc !! k = None) ->
  fold_left (fun acc e => unordered_emplace e.1 e.2 acc) l acc = list_to_map l ∪ acc.
Proof.
  induction l as [|[k v] l IH]; intros Hnd acc Hacc; simpl in *; [by rewrite map_empty_union|].
  inversion_clear Hnd as [|?? Hk Hnd']. unfold unordered_emplace at 2. rewrite Hacc by set_solver.
  rewrite IH; [| done |].
  - rewrite <-insert_union_l. rewrite <-insert_union_r; [done|]. by apply not_elem_of_list_to_map_1.
  - intros k' Hk'. rewrite lookup_insert_ne by set_solver. apply Hacc. set_solver.
Qed.

#[refine] Instance unordered_map_law : ContainerLaw (H := unordered_map) (gmap K V) K V := {| c_inv := fun _ => True |}.
Proof.
  intros g _. simpl. pose proof (iterate_perm g) as Hp.
  assert (NoDup (iterate g).*1) as Hnd by (rewrite Hp; apply NoDup_fst_map_to_list).
  rewrite rebuild_unordered; [|done|intros; apply lookup_empty]. rewrite map_union_empty.
  rewrite (list_to_map_proper _ _ Hnd Hp). apply list_to_map_to_list.
Defined.

End Unordered.
