(* ===== verification/SerializerClaims.v ===== *)
(** * Serialization: what the entry points promise

    [serialize] and [deserialize] of [crossbow/Serializer.hpp] for every lawful type, and the
    policies whose deserialization depends on the old value of the object. *)

From S2P Require Import Prelude Memory Serializer SerializerSpec.

Section Entry.
Context `{Allocator}.

(** A buffer [std::unique_ptr<uint8_t[]>] owns: none, or a live block. *)
Definition owned (m : mem) (p : Z) : Prop :=
  p = 0 \/ exists l, blocks m !! p = Some (zlen l) /\ pts m p l.

(** The address does not lie in the old buffer. *)
Definition not_in (m : mem) (p a : Z) : Prop :=
  forall n, blocks m !! p = Some n -> p <> 0 -> ~ (p <= a < p + n).

Lemma delete_array_ok m m1 p :
  owned m p -> (forall n, blocks m !! p = Some n -> blocks m1 !! p = Some n) ->
  exists m2, delete_array p m1 = Ok tt m2 /\
    (forall a x, bytes m1 !! a = Some x -> not_in m p a -> bytes m2 !! a = Some x) /\
    (forall q n, blocks m1 !! q = Some n -> q <> p \/ p = 0 -> blocks m2 !! q = Some n).
Proof.
  intros Ho Hbl. unfold delete_array. destruct (Z.eqb_spec p 0) as [->|Hp]; [exists m1; split_and!; done|].
  destruct Ho as [|(l & Hb & Hl)]; [done|]. rewrite (Hbl _ Hb). unfold deallocate. rewrite (Hbl _ Hb).
  eexists. split; [done|]. split.
  - intros a x Ha Hn. simpl. rewrite lookup_del_range. specialize (Hn _ Hb Hp). pose proof (zlen_nonneg l).
    rewrite decide_False by lia. done.
  - intros q n Hq [Hne|]; [|done]. simpl. by rewrite lookup_delete_ne.
Qed.

(** The new buffer lies outside the old one. *)
Lemma fresh_not_in m size buf p a :
  alloc_pick m size = Some buf -> 0 <= size -> owned m p -> buf <= a < buf + size -> not_in m p a.
Proof.
  intros Hpick Hs Ho Ha n Hn Hp Hin. destruct (alloc_fresh _ _ _ Hpick Hs) as (_ & _ & _ & _ & Hf).
  destruct Ho as [|(l & Hb & Hl)]; [done|]. simplify_eq.
  destruct (lookup_lt_is_Some_2 l (Z.to_nat (a - p))) as [x Hx]; [unfold zlen in *; lia|].
  apply Hl in Hx. replace (p + Z.of_nat (Z.to_nat (a - p))) with a in Hx by lia. by rewrite Hf in Hx.
Qed.

Lemma serialize_run `{Lawful A} m res (a : A) buf :
  wf a -> zlen (encode a) < 2 ^ 64 -> owned m res -> alloc_pick m (zlen (encode a)) = Some buf ->
  exists m', serialize res a m = Ok (buf, zlen (encode a)) m' /\ pts m' buf (encode a) /\
    blocks m' !! buf = Some (zlen (encode a)) /\
    (forall q x, bytes m !! q = Some x -> not_in m res q -> bytes m' !! q = Some x).
Proof.
  intros Hw Hz Ho Hpick. set (k := encode a) in *. pose proof (zlen_nonneg k) as Hk.
  unfold serialize. rewrite (size_law a Hw 0) by lia. fold k. rewrite Z.add_0_l, u64_small by lia.
  unfold bind at 1. unfold allocate. rewrite Hpick.
  destruct (alloc_fresh _ _ _ Hpick Hk) as (Hpos & _ & _ & Hnone & Hfree).
  set (m1 := new_block m buf (zlen k)).
  pose proof (new_block_pts m buf (zlen k) Hk) as Hnew. fold m1 in Hnew.
  rewrite (serialize_law a Hw m1 buf _ Hnew)
    by (rewrite length_map, length_seqZ_nat by done; unfold k, zlen; lia).
  cbn [ar_mem ar_pos]. fold k.
  destruct (delete_array_ok m (upd m1 buf k) res Ho) as (m2 & Hdel & Hbytes & Hblocks).
  { intros n Hn. simpl. rewrite lookup_insert_ne; [done|]. intros ->. congruence. }
  unfold bind. rewrite Hdel. unfold massert. rewrite Z.eqb_refl. unfold ret. exists m2. split_and!; try done.
  - intros i x Hi. apply Hbytes; [by apply (pts_upd_same m1 buf k)|].
    apply lookup_lt_Some in Hi as Hlt. eapply fresh_not_in; [exact Hpick|done|done|]. unfold zlen. lia.
  - apply Hblocks; [simpl; apply lookup_insert_eq|]. destruct (decide (res = 0)); [by right|left].
    intros <-. destruct Ho as [|(l & Hb & _)]; congruence.
  - intros q x Hq Hn. apply Hbytes; [|done].
    assert (~ (buf <= q < buf + zlen k)) as Hout by (intros Hin; rewrite Hfree in Hq; done).
    rewrite lookup_upd, decide_False by lia. simpl. rewrite lookup_write_bytes.
    rewrite decide_False; [done|]. unfold zlen at 1. rewrite length_map, length_seqZ_nat by done. lia.
Qed.

(** C4: for every lawful type, [serialize] allocates exactly the number of bytes the sizer
    counted, fills all of them, releases the old buffer and returns the size (its closing
    assertion holds), and [deserialize] on the buffer gives back the value and the end of
    the buffer; other memory is untouched. It fails only when the allocation fails, and
    then nothing was changed. *)
Theorem serialize_roundtrip `{Lawful A} (m : mem) (res : Z) (a : A) :
  wf a -> zlen (encode a) < 2 ^ 64 -> owned m res ->
  wpx (serialize res a) m
    (fun r m' => r.2 = zlen (encode a) /\ blocks m' !! r.1 = Some r.2 /\ pts m' r.1 (encode a) /\
       (forall out, fresh out -> deserialize out r.1 m' = Ok (a, r.1 + r.2) m') /\
       (forall q x, bytes m !! q = Some x -> not_in m res q -> bytes m' !! q = Some x))
    (fun e m' => e = BadAlloc /\ m' = m).
Proof.
  intros Hw Hz Ho. destruct (alloc_pick m (zlen (encode a))) as [buf|] eqn:Hpick.
  - destruct (serialize_run m res a buf Hw Hz Ho Hpick) as (m' & Hrun & Hp & Hb & Hfr).
    eapply wpx_ok; [done|]. split_and!; try done. intros out Hout. unfold deserialize. simpl.
    by rewrite (deserialize_law a out Hw Hout _ _ Hp).
  - pose proof (zlen_nonneg (encode a)). eapply wpx_throw; [|done]. unfold serialize.
    rewrite (size_law a Hw 0) by lia. rewrite Z.add_0_l, u64_small by lia. unfold bind, allocate. by rewrite Hpick.
Qed.

(** deserializing does not assign: a vector gets the elements that were read behind
    those it had, a container has them emplaced into it, and an optional that was unset
    when it was written keeps the value it had. *)
Theorem deserialize_into_old_value `{Lawful A} `{VectorMax A} (m : mem) (buf : Z) (v old : list A) (x : A) :
  pts m buf (encode v ++ encode (None : option A)) -> wf v ->
  deserialize old buf m = Ok (old ++ v, buf + zlen (encode v)) m /\
  deserialize (Some x) (buf + zlen (encode v)) m = Ok (Some x, buf + zlen (encode v) + 1) m.
Proof.
  intros Hp Hw. apply pts_app in Hp as [Hv Hn]. unfold deserialize. split.
  - by rewrite (vector_reads v old Hw _ _ Hv).
  - by rewrite (optional_reads None (Some x) ltac:(done) _ _ Hn).
Qed.

(** a string of 2^32 characters or more is announced with its length modulo 2^32 and
    only that many characters are written, while the sizer counted all of them:
    the closing assertion of [serialize] fails. *)
Theorem serialize_string_truncates (m : mem) (l : list Z) (buf : Z) :
  2 ^ 32 <= zlen l < 2 ^ 64 - 4 -> alloc_pick m (4 + zlen l) = Some buf ->
  serialize 0 (BString l) m = UB.
Proof.
  intros Hl Hpick. unfold serialize.
  assert (sizer_and (BString l) 0 = Ok tt (4 + zlen l)) as Hs.
  { unfold sizer_and, string_archived, other_impl, size_string, bind, ret, get, put. cbn [chars].
    by rewrite Z.add_0_l, !u64_small by (rewrite ?u64_small; lia). }
  rewrite Hs. unfold bind at 1. unfold allocate. rewrite Hpick.
  destruct (alloc_fresh _ _ _ Hpick ltac:(lia)) as (Hpos & _).
  set (m1 := new_block m buf (4 + zlen l)).
  pose proof (new_block_pts m buf (4 + zlen l) ltac:(lia)) as Hnew. fold m1 in Hnew.
  set (d := map _ _) in Hnew.
  assert (length d = 4 + length l)%nat as Hd by (unfold d; rewrite length_map, length_seqZ_nat by lia; unfold zlen; lia).
  rewrite <-(take_drop 4 d) in Hnew. apply pts_app in Hnew as [H1 H2].
  assert (length (take 4 d) = 4%nat) as Ht by (rewrite length_take; lia).
  unfold zlen in H2 at 1. rewrite Ht in H2.
  pose proof (wrap_range 32 (zlen l) ltac:(lia)) as Hu. set (n := u32 (zlen l)) in *.
  set (m2 := upd m1 buf (le_bytes 4 n)). set (k := take (Z.to_nat n) l).
  assert (length k = Z.to_nat n) as Hk by (unfold k; rewrite length_take; unfold zlen in *; lia).
  assert (serializer_and (BString l) (Ar m1 buf) = Ok tt (Ar (upd m2 (buf + 4) k) (buf + 4 + n))) as Hser.
  { unfold serializer_and, string_archived, serializer_policy, serialize_string, bind, get_pos, on_mem. cbn [ar_pos ar_mem chars].
    fold n. rewrite (store_word_ok 4 _ _ _ _ H1 Ht). fold m2. fold k. cbn [ar_mem].
    rewrite (store_bytes_ok _ _ (take (Z.to_nat n) (drop 4 d))); [done| |].
    - apply pts_take, pts_upd_disj; [done|]. left. unfold zlen. rewrite length_le_bytes. lia.
    - rewrite length_take, length_drop, Hk. unfold zlen in *. lia. }
  rewrite Hser. unfold bind, delete_array. cbn [ar_mem ar_pos Z.eqb].
  rewrite (proj2 (Z.eqb_neq _ _)) by lia. done.
Qed.

End Entry.

(** ** Witnesses *)

#[local] Instance demo_max A : VectorMax A := {| vector_max_size := 2 ^ 60 |}.

(** A vector of pairs of a 32-bit integer and an optional string. *)
Definition demo_value : list (uint 4 * option bstring) :=
  [(UInt 7, Some (BString [104; 105])); (UInt 258, None)].

Definition demo_empty : mem := Mem ∅ ∅ [].

Lemma demo_value_wf : wf demo_value.
Proof.
  split; [done|]. split; [by vm_compute|]. repeat constructor; simpl; try lia; intros x Hx; by simplify_eq.
Qed.

Lemma serialize_roundtrip_witness :
  wpx (serialize 0 demo_value) demo_empty
    (fun r m' => r.2 = zlen (encode demo_value) /\ blocks m' !! r.1 = Some r.2 /\ pts m' r.1 (encode demo_value) /\
       (forall out, fresh out -> deserialize out r.1 m' = Ok (demo_value, r.1 + r.2) m') /\
       (forall q x, bytes demo_empty !! q = Some x -> not_in demo_empty 0 q -> bytes m' !! q = Some x))
    (fun e m' => e = BadAlloc /\ m' = demo_empty).
Proof. apply (serialize_roundtrip demo_empty 0 demo_value); [apply demo_value_wf|vm_compute; reflexivity|left; reflexivity]. Defined.

Lemma deserialize_into_old_value_witness :
  let v : list (uint 4) := [UInt 5] in
  let m := upd demo_empty 16 (encode v ++ encode (None : option (uint 4))) in
  deserialize ([UInt 1] : list (uint 4)) 16 m = Ok ([UInt 1; UInt 5], 28) m.
Proof.
  intros v m. destruct (deserialize_into_old_value m 16 v [UInt 1] (UInt 0)) as [Hv _]; [..|exact Hv].
  - apply pts_upd_same.
  - split; [done|]. split; [by vm_compute|]. repeat constructor; simpl; lia.
Defined.

Lemma serialize_string_truncates_witness :
  serialize 0 (BString (replicate (Z.to_nat (2 ^ 32)) 97)) demo_empty = UB.
Proof.
  apply (serialize_string_truncates demo_empty _ 16).
  - unfold zlen. rewrite length_replicate, Z2Nat.id; lia.
  - unfold zlen. rewrite length_replicate, Z2Nat.id by lia. by vm_compute.
Defined.
