(* ===== verification/ConcurrentMap.v ===== *)
(** * concurrent_map

    [crossbow/concurrent_map.hpp] with its default template arguments.  A bucket is an
    array of one element and an overflow vector.  Every public operation runs under the
    mutex of its key's hash (or under all mutexes), so it is a function on the state of
    the map; [getMutex] says which mutex that is. *)

From S2P Require Import Prelude.

Definition ConcurrencyLevel : Z := 32.
Definition InitialCapacity : Z := 32.
Definition LoadFactor : Z := 75.

Inductive ElemState := UNASSIGNED | DELETED | VALID.

#[global] Instance ElemState_eq_dec : EqDecision ElemState.
Proof. solve_decision. Defined.

Section Map.
Context {K V : Type} `{Countable K}.
(** [std::hash<Key>], [Key()] and [T()]. *)
Context (hash_ : K -> Z) (key_init : K) (mapped_init : V).

Record elem := Elem { e_state : ElemState; e_key : K; e_value : V }.

Definition elem_init : elem := Elem UNASSIGNED key_init mapped_init.
Definition elem_make (k : K) (v : V) : elem := Elem VALID k v.
Definition set_value (v : V) (e : elem) : elem := Elem (e_state e) (e_key e) v.

Record bucket := Bucket { arr : list elem; overflow : list elem }.

Definition bucket_init : bucket := Bucket [elem_init] [].

Definition is_valid_and_equal (key : K) (el : elem) : bool :=
  bool_decide (e_state el = VALID) && bool_decide (e_key el = key).

(** ** Operations of [Bucket] *)

(** The loop of [insert] over the array; [None]: neither a free element nor the key. *)
Fixpoint insert_arr (key : K) (value : V) (l : list elem) : option (list elem * (bool * V)) :=
  match l with
  | [] => None
  | el :: l =>
      if bool_decide (e_state el = UNASSIGNED) then
        Some (Elem VALID key value :: l, (true, mapped_init))
      else if is_valid_and_equal key el then
        Some (set_value value el :: l, (false, e_value el))
      else '(l', r) ← insert_arr key value l; Some (el :: l', r)
  end.

(** The loop over the overflow vector does not look at the state. *)
Fixpoint insert_overflow (key : K) (value : V) (l : list elem) : option (list elem * (bool * V)) :=
  match l with
  | [] => None
  | el :: l =>
      if bool_decide (e_key el = key) then Some (set_value value el :: l, (false, e_value el))
      else '(l', r) ← insert_overflow key value l; Some (el :: l', r)
  end.

Definition bucket_insert (key : K) (value : V) (b : bucket) : bucket * (bool * V) :=
  match insert_arr key value (arr b) with
  | Some (a, r) => (Bucket a (overflow b), r)
  | None =>
      match insert_overflow key value (overflow b) with
      | Some (o, r) => (Bucket (arr b) o, r)
      | None => (Bucket (arr b) (overflow b ++ [elem_make key value]), (true, mapped_init))
      end
  end.

Fixpoint fill_free (element : elem) (l : list elem) : option (list elem) :=
  match l with
  | [] => None
  | el :: l =>
      if bool_decide (e_state el = UNASSIGNED) then Some (element :: l)
      else l' ← fill_free element l; Some (el :: l')
  end.

Definition insertNoDuplicateCheck (element : elem) (b : bucket) : bucket :=
  match fill_free element (arr b) with
  | Some a => Bucket a (overflow b)
  | None => Bucket (arr b) (overflow b ++ [element])
  end.

(** [erase(decltype(arr.begin()) i)]: the last overflow element moves into the gap. *)
Definition erase_arr_at (i : nat) (el : elem) (b : bucket) : bucket * (bool * V) :=
  match list.last (overflow b) with
  | Some e => (Bucket (<[i := e]> (arr b)) (removelast (overflow b)), (true, e_value el))
  | None => (Bucket (<[i := Elem UNASSIGNED (e_key el) (e_value el)]> (arr b)) [], (true, e_value el))
  end.

(** [erase(decltype(overflow.begin()) i)]. *)
Definition erase_overflow_at (i : nat) (el : elem) (b : bucket) : bucket * (bool * V) :=
  (Bucket (arr b) (delete i (overflow b)), (true, e_value el)).

(** The first element from index [i] on that satisfies [p]. *)
Fixpoint find_elem (p : elem -> bool) (i : nat) (l : list elem) : option (nat * elem) :=
  match l with
  | [] => None
  | el :: l => if p el then Some (i, el) else find_elem p (S i) l
  end.

Definition bucket_erase (key : K) (b : bucket) : bucket * (bool * V) :=
  match find_elem (is_valid_and_equal key) 0 (arr b) with
  | Some (i, el) => erase_arr_at i el b
  | None =>
      match find_elem (fun el => bool_decide (e_key el = key)) 0 (overflow b) with
      | Some (i, el) => erase_overflow_at i el b
      | None => (b, (false, mapped_init))
      end
  end.

Definition bucket_at (key : K) (b : bucket) : bool * V :=
  match find_elem (is_valid_and_equal key) 0 (arr b) with
  | Some (_, el) => (true, e_value el)
  | None =>
      match find_elem (is_valid_and_equal key) 0 (overflow b) with
      | Some (_, el) => (true, e_value el)
      | None => (false, mapped_init)
      end
  end.

(** The calls [for_each] makes. *)
Definition valid_entries (l : list elem) : list (K * V) :=
  omap (fun el => if bool_decide (e_state el = VALID) then Some (e_key el, e_value el) else None) l.
Definition bucket_for_each (b : bucket) : list (K * V) := valid_entries (arr b) ++ valid_entries (overflow b).

(** [exec_on]: [fun_] may change the value and says whether to drop it.  The integer is
    what is added to the global count. *)
Definition bucket_exec_on (key : K) (fun_ : V -> V * bool) (b : bucket) : bucket * Z :=
  match find_elem (is_valid_and_equal key) 0 (arr b) with
  | Some (i, el) =>
      let (v, drop) := fun_ (e_value el) in
      let b := Bucket (<[i := set_value v el]> (arr b)) (overflow b) in
      if drop then ((erase_arr_at i (set_value v el) b).1, -1) else (b, 0)
  | None =>
      match find_elem (is_valid_and_equal key) 0 (overflow b) with
      | Some (i, el) =>
          let (v, drop) := fun_ (e_value el) in
          let b := Bucket (arr b) (<[i := set_value v el]> (overflow b)) in
          if drop then ((erase_overflow_at i (set_value v el) b).1, -1) else (b, 0)
      | None =>
          let (v, drop) := fun_ mapped_init in
          if drop then (b, 0) else (insertNoDuplicateCheck (elem_make key v) b, 1)
      end
  end.

(** The loops of [clear]: both advance their iterator after [erase] changed the
    sequence below it. *)
Fixpoint clear_arr_loop (n i : nat) (b : bucket) : bucket :=
  match n with
  | O => b
  | S k =>
      match arr b !! i with
      | Some el =>
          clear_arr_loop k (S i) (if bool_decide (e_state el = VALID) then (erase_arr_at i el b).1 else b)
      | None => b
      end
  end.

Fixpoint clear_overflow_loop (n i : nat) (b : bucket) : bucket :=
  match n with
  | O => b
  | S k =>
      match overflow b !! i with
      | Some el =>
          clear_overflow_loop k (S i) (if bool_decide (e_state el = VALID) then (erase_overflow_at i el b).1 else b)
      | None => b
      end
  end.

Definition bucket_clear (b : bucket) : bucket :=
  let b := clear_arr_loop (length (arr b)) 0 b in
  clear_overflow_loop (length (overflow b)) 0 b.

(** ** The map *)

Record cmap := CMap {
  m_buckets : list bucket;
  m_count : Z;
  m_upper_bound : Z;
  m_bucket_flag : Z
}.

Definition map_init : cmap :=
  CMap (replicate (Z.to_nat InitialCapacity) bucket_init) 0
    (InitialCapacity * LoadFactor / 100) (SIZE_MAX mod InitialCapacity).

Definition getMutex (hash : Z) : Z := hash mod ConcurrencyLevel.

Definition bucket_index (flag hash : Z) : nat := Z.to_nat (Z.land hash flag).

Definition getBucket (hash : Z) (m : cmap) : bucket :=
  default bucket_init (m_buckets m !! bucket_index (m_bucket_flag m) hash).

Definition set_bucket (hash : Z) (b : bucket) (m : cmap) : cmap :=
  CMap (<[bucket_index (m_bucket_flag m) hash := b]> (m_buckets m)) (m_count m) (m_upper_bound m) (m_bucket_flag m).

Definition add_count (d : Z) (m : cmap) : cmap :=
  CMap (m_buckets m) (u64 (m_count m + d)) (m_upper_bound m) (m_bucket_flag m).

(** [resize]: the elements of one old bucket.  The overflow vector is skipped when a free
    element was met in the array. *)
Definition move_elem (m : cmap) (el : elem) : cmap :=
  let h := hash_ (e_key el) in set_bucket h (insertNoDuplicateCheck el (getBucket h m)) m.

Fixpoint move_arr (l : list elem) (m : cmap) : cmap * bool :=
  match l with
  | [] => (m, false)
  | el :: l =>
      if bool_decide (e_state el = UNASSIGNED) then (m, true) else move_arr l (move_elem m el)
  end.

Definition move_bucket (m : cmap) (buk : bucket) : cmap :=
  let (m, done) := move_arr (arr buk) m in
  if done : bool then m else fold_left move_elem (overflow buk) m.

Definition resize (new_size : Z) (m : cmap) : cmap :=
  fold_left move_bucket (m_buckets m)
    (CMap (replicate (Z.to_nat new_size) bucket_init) (m_count m)
       (u64 (new_size * LoadFactor) / 100) (SIZE_MAX mod new_size)).

(** The loop of [reserve]; [None] when the bound runs out. *)
Fixpoint grow_loop (fuel : nat) (new_size count : Z) : option Z :=
  match fuel with
  | O => None
  | S k =>
      if u64 (new_size * LoadFactor) / 100 <? count then grow_loop k (u64 (new_size * 2)) count
      else Some new_size
  end.

Definition reserve (count : Z) (m : cmap) : option cmap :=
  if count <? m_upper_bound m then Some m
  else
    new_size ← grow_loop 64 (u64 (zlen (m_buckets m) * 2)) count;
    Some (resize new_size m).

Definition insert (key : K) (value : V) (m : cmap) : option (cmap * (bool * V)) :=
  let hash := hash_ key in
  m ← reserve (m_count m) m;
  let (b, r) := bucket_insert key value (getBucket hash m) in
  let m := set_bucket hash b m in
  Some (if r.1 : bool then add_count 1 m else m, r).

Definition erase (key : K) (m : cmap) : cmap * (bool * V) :=
  let hash := hash_ key in
  let (b, r) := bucket_erase key (getBucket hash m) in
  let m := set_bucket hash b m in
  (if r.1 : bool then add_count (-1) m else m, r).

Definition at_ (key : K) (m : cmap) : bool * V := bucket_at key (getBucket (hash_ key) m).

Definition exec_on (key : K) (fun_ : V -> V * bool) (m : cmap) : option cmap :=
  let hash := hash_ key in
  m ← reserve (m_count m) m;
  let (b, d) := bucket_exec_on key fun_ (getBucket hash m) in
  Some (add_count d (set_bucket hash b m)).

Definition for_each (m : cmap) : list (K * V) := concat (map bucket_for_each (m_buckets m)).

(** [clear] does not touch the count. *)
Definition clear (m : cmap) : cmap :=
  CMap (map bucket_clear (m_buckets m)) (m_count m) (m_upper_bound m) (m_bucket_flag m).

Definition size (m : cmap) : Z := m_count m.

End Map.
Arguments elem : clear implicits.
Arguments bucket : clear implicits.
Arguments cmap : clear implicits.
