(* ===== verification/ConcurrentMapSpec.v ===== *)
(** * concurrent_map: refinement of a finite map

    A well-formed [concurrent_map] represents a finite map: every operation acts as the
    corresponding operation of [gmap] and returns what the map says, growing included.
    Two keys of one bucket are guarded by one mutex.  [clear] is the exception. *)

From S2P Require Import Prelude ConcurrentMap.

Section Spec.
Context {K V : Type} `{Countable K}.
Context (hash_ : K -> Z) (key_init : K) (mapped_init : V).

Abbreviation entry := (K * V)%type.

Definition mk (e : entry) : elem K V := Elem VALID e.1 e.2.

(** The entries a well-formed bucket holds. *)
Inductive shape : bucket K V -> list entry -> Prop :=
  | shape_empty k v : shape (Bucket [Elem UNASSIGNED k v] []) []
  | shape_full e o : shape (Bucket [mk e] (mk <$> o)) (e :: o).

Definition amap (l : list entry) : gmap K V := list_to_map l.

(** What an operation that finds [old] under the key returns. *)
Definition answer (old : option V) : bool * V :=
  match old with Some v => (true, v) | None => (false, mapped_init) end.
Definition insert_answer (old : option V) : bool * V :=
  match old with Some v => (false, v) | None => (true, mapped_init) end.

(** A bucket that represents [g]. *)
Definition holds (b : bucket K V) (g : gmap K V) : Prop :=
  exists l, shape b l /\ NoDup l.*1 /\ amap l = g.

(** ** Entry lists *)

Lemma amap_perm l l' : NoDup l.*1 -> l ≡ₚ l' -> NoDup l'.*1 /\ amap l' = amap l.
Proof.
  intros Hnd Hp. split; [by rewrite <-Hp|]. symmetry. by apply list_to_map_proper.
Qed.

Lemma amap_remove l i k v :
  NoDup l.*1 -> l !! i = Some (k, v) -> NoDup (delete i l).*1 /\ amap (delete i l) = delete k (amap l).
Proof.
  intros Hnd Hi. pose proof (delete_Permutation l i _ Hi) as Hp.
  destruct (amap_perm _ _ Hnd Hp) as [Hnd' Heq]. simpl in Hnd'. inversion_clear Hnd' as [|?? Hk Hnd2].
  split; [done|]. rewrite <-Heq. unfold amap. simpl. rewrite delete_insert_id; [done|].
  by apply not_elem_of_list_to_map_1.
Qed.

Lemma amap_replace l i k v v' :
  NoDup l.*1 -> l !! i = Some (k, v) ->
  NoDup (<[i := (k, v')]> l).*1 /\ amap (<[i := (k, v')]> l) = <[k := v']> (amap l).
Proof.
  intros Hnd Hi. apply lookup_lt_Some in Hi as Hlt.
  assert ((<[i := (k, v')]> l).*1 = l.*1) as Hkeys.
  { rewrite list_fmap_insert. apply list_insert_id. by rewrite list_lookup_fmap, Hi. }
  split; [by rewrite Hkeys|].
  assert (<[i := (k, v')]> l ≡ₚ (k, v') :: delete i l) as Hp.
  { rewrite insert_take_drop, delete_take_drop by done. symmetry. apply Permutation_middle. }
  assert (NoDup (<[i := (k, v')]> l).*1) as Hnd' by (by rewrite Hkeys).
  destruct (amap_perm _ _ Hnd' Hp) as [_ Heq]. rewrite <-Heq.
  destruct (amap_remove l i k v Hnd Hi) as [_ Hrem]. unfold amap in *. simpl. by rewrite Hrem, insert_delete_eq.
Qed.

Lemma amap_snoc l k v : NoDup l.*1 -> amap l !! k = None ->
  NoDup (l ++ [(k, v)]).*1 /\ amap (l ++ [(k, v)]) = <[k := v]> (amap l).
Proof.
  intros Hnd Hk. apply not_elem_of_list_to_map in Hk.
  assert (NoDup ((k, v) :: l).*1) as Hnd' by (simpl; by constructor).
  destruct (amap_perm _ (l ++ [(k, v)]) Hnd' ltac:(apply Permutation_cons_append)) as [? Heq]. by rewrite Heq.
Qed.

(** ** Searching a bucket *)

Lemma find_elem_spec p key l i :
  (forall e, p (mk e) = bool_decide (e.1 = key)) -> NoDup l.*1 ->
  match amap l !! key with
  | Some v => exists j, find_elem p i (mk <$> l) = Some ((i + j)%nat, mk (key, v)) /\ l !! j = Some (key, v)
  | None => find_elem p i (mk <$> l) = None
  end.
Proof.
  intros Hp. revert i. induction l as [|[k v] l IH]; intros i Hnd; [done|].
  inversion_clear Hnd as [|?? Hk Hnd']. unfold amap. cbn [list_to_map fmap list_fmap fst snd find_elem foldr uncurry].
  rewrite Hp. cbn [fst]. destruct (decide (k = key)) as [->|Hne].
  - rewrite lookup_insert_eq, bool_decide_eq_true_2 by done. exists 0%nat. by rewrite Nat.add_0_r.
  - rewrite lookup_insert_ne, bool_decide_eq_false_2 by done. specialize (IH (S i) Hnd'). unfold amap in IH.
    destruct (list_to_map l !! key) as [v'|]; [|done]. destruct IH as (j & Hf & Hj). exists (S j).
    rewrite Nat.add_succ_r. done.
Qed.

Lemma valid_equal_mk key e : is_valid_and_equal key (mk e) = bool_decide (e.1 = key).
Proof. done. Qed.

Lemma insert_overflow_spec key v l : NoDup l.*1 ->
  match amap l !! key with
  | Some old => exists j, insert_overflow key v (mk <$> l) = Some (mk <$> <[j := (key, v)]> l, (false, old)) /\
      l !! j = Some (key, old)
  | None => insert_overflow key v (mk <$> l) = None
  end.
Proof.
  induction l as [|[k w] l IH]; intros Hnd; [done|].
  inversion_clear Hnd as [|?? Hk Hnd']. unfold amap. cbn [list_to_map fmap list_fmap fst snd insert_overflow foldr uncurry].
  destruct (decide (k = key)) as [->|Hne].
  - rewrite lookup_insert_eq, bool_decide_eq_true_2 by done. by exists 0%nat.
  - rewrite lookup_insert_ne, bool_decide_eq_false_2 by done. specialize (IH Hnd'). unfold amap in IH.
    destruct (list_to_map l !! key) as [v'|].
    + destruct IH as (j & Hf & Hj). exists (S j). by rewrite Hf.
    + by rewrite IH.
Qed.

Lemma amap_cons_eq k v (l : list entry) : amap ((k, v) :: l) !! k = Some v.
Proof. apply lookup_insert_eq. Qed.

Lemma amap_cons_ne k k' v (l : list entry) : k <> k' -> amap ((k, v) :: l) !! k' = amap l !! k'.
Proof. intros. by apply lookup_insert_ne. Qed.

(** ** Operations of a bucket *)

Lemma bucket_insert_ok key v b g :
  holds b g -> (bucket_insert mapped_init key v b).2 = insert_answer (g !! key) /\
  holds (bucket_insert mapped_init key v b).1 (<[key := v]> g).
Proof.
  intros (l & Hs & Hnd & <-). destruct Hs as [k0 v0|[k w] o].
  - split; [done|]. exists [(key, v)]. split; [apply (shape_full (key, v) [])|]. split; [|done]. apply NoDup_singleton.
  - unfold bucket_insert. cbn [arr overflow insert_arr mk e_state]. rewrite bool_decide_eq_false_2 by done.
    change (Elem VALID (k, w).1 (k, w).2) with (mk (k, w)). rewrite valid_equal_mk. cbn [fst].
    destruct (decide (k = key)) as [->|Hne].
    + rewrite bool_decide_eq_true_2 by done. rewrite amap_cons_eq. split; [done|].
      exists ((key, v) :: o). split; [apply (shape_full (key, v) o)|]. split; [done|].
      unfold amap. simpl. by rewrite insert_insert_eq.
    + rewrite bool_decide_eq_false_2, amap_cons_ne by done. cbn [mbind option_bind].
      inversion_clear Hnd as [|?? Hk Hnd']. pose proof (insert_overflow_spec key v o Hnd') as Ho.
      destruct (amap o !! key) as [old|] eqn:Hold.
      * destruct Ho as (j & -> & Hj). split; [done|]. exists (<[S j := (key, v)]> ((k, w) :: o)).
        destruct (amap_replace ((k, w) :: o) (S j) key old v) as [? Heq]; [by constructor|done|].
        split; [apply (shape_full (k, w))|]. by split.
      * rewrite Ho. split; [done|]. exists (((k, w) :: o) ++ [(key, v)]).
        destruct (amap_snoc ((k, w) :: o) key v) as [? Heq]; [by constructor|by rewrite amap_cons_ne|].
        split; [|by split]. cbn [fst]. change (elem_make key v) with (mk (key, v)).
        change [mk (key, v)] with (mk <$> [(key, v)]). rewrite <-fmap_app. apply (shape_full (k, w)).
Qed.

Lemma insertND_ok k v b g :
  holds b g -> g !! k = None -> holds (insertNoDuplicateCheck (mk (k, v)) b) (<[k := v]> g).
Proof.
  intros (l & Hs & Hnd & <-) Hk. destruct Hs as [k0 v0|[k' w] o].
  - exists [(k, v)]. split; [apply (shape_full (k, v) [])|]. split; [|done]. apply NoDup_singleton.
  - destruct (amap_snoc ((k', w) :: o) k v Hnd Hk) as [? Heq]. exists (((k', w) :: o) ++ [(k, v)]).
    split; [|by split]. unfold insertNoDuplicateCheck. cbn [arr fill_free mk e_state overflow].
    rewrite bool_decide_eq_false_2 by done. cbn [mbind option_bind].
    change [mk (k, v)] with (mk <$> [(k, v)]). rewrite <-fmap_app. apply (shape_full (k', w)).
Qed.

(** The array's element goes, the last overflow element takes its place. *)
Lemma erase_arr_ok k v o :
  NoDup ((k, v) :: o).*1 ->
  holds (erase_arr_at 0 (mk (k, v)) (Bucket [mk (k, v)] (mk <$> o))).1 (delete k (amap ((k, v) :: o))) /\
  (erase_arr_at 0 (mk (k, v)) (Bucket [mk (k, v)] (mk <$> o))).2 = (true, v).
Proof.
  intros Hnd. destruct (amap_remove ((k, v) :: o) 0 k v Hnd eq_refl) as [Hnd' <-]. cbn [delete list_delete] in *.
  destruct o as [|e o _] using rev_ind.
  - split; [|done]. exists []. split; [apply shape_empty|done].
  - unfold erase_arr_at. cbn [overflow arr]. rewrite fmap_app. cbn [fmap list_fmap]. rewrite last_snoc, removelast_last.
    split; [|done]. exists (e :: o). split; [apply shape_full|]. apply amap_perm; [done|].
    symmetry. apply Permutation_cons_append.
Qed.

Lemma erase_overflow_ok e o j k v :
  NoDup (e :: o).*1 -> o !! j = Some (k, v) ->
  holds (erase_overflow_at j (mk (k, v)) (Bucket [mk e] (mk <$> o))).1 (delete k (amap (e :: o))).
Proof.
  intros Hnd Hj. destruct (amap_remove (e :: o) (S j) k v Hnd Hj) as [Hnd' <-].
  exists (delete (S j) (e :: o)). split; [|done]. unfold erase_overflow_at. cbn [fst arr overflow].
  rewrite <-list_fmap_delete. apply shape_full.
Qed.

Lemma bucket_erase_ok key b g :
  holds b g -> (bucket_erase mapped_init key b).2 = answer (g !! key) /\
  holds (bucket_erase mapped_init key b).1 (delete key g).
Proof.
  intros (l & Hs & Hnd & <-). destruct Hs as [k0 v0|[k w] o].
  - split; [done|]. exists []. split; [apply shape_empty|]. split; [done|]. symmetry. apply delete_empty.
  - unfold bucket_erase. cbn [arr overflow find_elem]. rewrite valid_equal_mk. cbn [fst].
    destruct (decide (k = key)) as [->|Hne].
    + rewrite bool_decide_eq_true_2, amap_cons_eq by done. destruct (erase_arr_ok key w o Hnd) as [? ->]. by split.
    + rewrite bool_decide_eq_false_2, amap_cons_ne by done. pose proof Hnd as Hnd0.
      inversion_clear Hnd as [|?? Hk Hnd'].
      pose proof (find_elem_spec (fun el => bool_decide (e_key el = key)) key o 0 ltac:(done) Hnd') as Ho.
      destruct (amap o !! key) as [old|] eqn:Hold.
      * destruct Ho as (j & -> & Hj). split; [done|]. by apply erase_overflow_ok.
      * rewrite Ho. split; [done|]. exists ((k, w) :: o). split; [apply shape_full|]. split; [done|].
        symmetry. apply delete_id. by rewrite amap_cons_ne.
Qed.

Lemma bucket_at_ok key b g : holds b g -> bucket_at mapped_init key b = answer (g !! key).
Proof.
  intros (l & Hs & Hnd & <-). destruct Hs as [k0 v0|[k w] o]; [done|].
  unfold bucket_at. cbn [arr overflow find_elem]. rewrite valid_equal_mk. cbn [fst].
  destruct (decide (k = key)) as [->|Hne]; [by rewrite bool_decide_eq_true_2, amap_cons_eq by done|].
  rewrite bool_decide_eq_false_2, amap_cons_ne by done. inversion_clear Hnd as [|?? Hk Hnd'].
  pose proof (find_elem_spec (is_valid_and_equal key) key o 0 (valid_equal_mk key) Hnd') as Ho.
  destruct (amap o !! key) as [old|]; [by destruct Ho as (j & -> & Hj)|by rewrite Ho].
Qed.

(** [exec_on] on the represented map, and the change of the count. *)
Definition exec_map (key : K) (f : V -> V * bool) (g : gmap K V) : gmap K V :=
  let (v, drop) := f (default mapped_init (g !! key)) in
  if drop then delete key g else <[key := v]> g.

Lemma bucket_exec_on_ok key f b g :
  holds b g ->
  holds (bucket_exec_on mapped_init key f b).1 (exec_map key f g) /\
  (bucket_exec_on mapped_init key f b).2 =
    (if (f (default mapped_init (g !! key))).2 then (if g !! key then -1 else 0) else (if g !! key then 0 else 1)).
Proof.
  intros Hb. assert (g !! key = None -> bucket_exec_on mapped_init key f b =
    let (v, drop) := f mapped_init in
    if drop then (b, 0) else (insertNoDuplicateCheck (elem_make key v) b, 1)) as Hmiss.
  { intros Hnone. pose proof (bucket_at_ok key b g Hb) as Hat. rewrite Hnone in Hat. unfold bucket_at, bucket_exec_on in *.
    destruct (find_elem _ 0 (arr b)) as [[]|]; [done|]. destruct (find_elem _ 0 (overflow b)) as [[]|]; done. }
  unfold exec_map. destruct (g !! key) as [old|] eqn:Hold.
  2: { rewrite Hmiss by done. simpl. destruct (f mapped_init) as [v []]; (split; [|done]); simpl.
       - rewrite delete_id; done.
       - by apply (insertND_ok key v). }
  clear Hmiss. simpl. destruct Hb as (l & Hs & Hnd & <-). destruct Hs as [k0 v0|[k w] o]; [done|].
  unfold bucket_exec_on. cbn [arr overflow find_elem]. rewrite valid_equal_mk. cbn [fst].
  destruct (decide (k = key)) as [->|Hne].
  - rewrite amap_cons_eq in Hold. simplify_eq. rewrite bool_decide_eq_true_2 by done. cbn [mk e_value snd].
    destruct (f old) as [v []]; (split; [|done]).
    + pose proof (erase_arr_ok key v o ltac:(exact Hnd)) as [Hh _].
      assert (delete key (amap ((key, v) :: o)) = delete key (amap ((key, old) :: o))) as <-;
        [unfold amap; simpl; by rewrite !delete_insert_eq|exact Hh].
    + exists ((key, v) :: o). split; [apply (shape_full (key, v) o)|]. split; [done|].
      unfold amap. simpl. by rewrite insert_insert_eq.
  - rewrite amap_cons_ne in Hold by done. rewrite bool_decide_eq_false_2 by done.
    pose proof Hnd as Hnd0. inversion_clear Hnd as [|?? Hk Hnd'].
    pose proof (find_elem_spec (is_valid_and_equal key) key o 0 (valid_equal_mk key) Hnd') as Ho.
    rewrite Hold in Ho. destruct Ho as (j & -> & Hj). change (e_value (mk (key, old))) with old.
    cbn [Nat.add]. apply lookup_lt_Some in Hj as Hlt.
    destruct (f old) as [v []]; (split; [|done]); change (set_value v (mk (key, old))) with (mk (key, v));
      destruct (amap_replace ((k, w) :: o) (S j) key old v Hnd0 Hj) as [Hnd1 Heq].
    + pose proof (erase_overflow_ok (k, w) (<[j := (key, v)]> o) j key v Hnd1) as Hh.
      specialize (Hh ltac:(by apply list_lookup_insert_eq)).
      rewrite <-(list_fmap_insert mk o j (key, v)).
      assert (delete key (amap ((k, w) :: <[j := (key, v)]> o)) = delete key (amap ((k, w) :: o))) as <-; [|exact Hh].
      change ((k, w) :: <[j := (key, v)]> o) with (<[S j := (key, v)]> ((k, w) :: o)). by rewrite Heq, delete_insert_eq.
    + cbn [fst]. rewrite <-(list_fmap_insert mk o j (key, v)). exists (<[S j := (key, v)]> ((k, w) :: o)).
      split; [apply shape_full|]. by split.
Qed.

End Spec.
