(* ===== verification/ConcurrentMapClaims.v ===== *)
(** * concurrent_map: the operations of the map

    The invariant of the whole map, growing, and the theorems about the public
    operations. *)

From S2P Require Import Prelude ConcurrentMap ConcurrentMapSpec.

Section Map.
Context {K V : Type} `{Countable K}.
Context (hash_ : K -> Z) (key_init : K) (mapped_init : V).

Abbreviation M := (cmap K V).
Abbreviation idx m k := (bucket_index (m_bucket_flag m) (hash_ k)).

(** Bucket [i] holds exactly the entries of [g] whose hash selects it. *)
Definition part (m : M) (g : gmap K V) (i : nat) (b : bucket K V) : Prop :=
  exists gb, holds b gb /\ forall k, gb !! k = if decide (idx m k = i) then g !! k else None.

(** The map without its counter: [2^a] buckets. *)
Definition stores (m : M) (g : gmap K V) : Prop :=
  (exists a, 5 <= a <= 52 /\ zlen (m_buckets m) = 2 ^ a /\ m_bucket_flag m = Z.ones a /\
     m_upper_bound m = 2 ^ a * LoadFactor / 100) /\
  (forall i b, m_buckets m !! i = Some b -> part m g i b).

Definition minv (m : M) (g : gmap K V) : Prop := stores m g /\ m_count m = Z.of_nat (base.size g).

(** ** Selecting a bucket *)

Lemma bucket_index_ones a h : 0 <= a -> bucket_index (Z.ones a) h = Z.to_nat (h mod 2 ^ a).
Proof. intros. unfold bucket_index. by rewrite Z.land_ones. Qed.

Lemma idx_lt m g k : stores m g -> (idx m k < length (m_buckets m))%nat.
Proof.
  intros ((a & Ha & Hl & Hf & _) & _). rewrite Hf, bucket_index_ones by lia. unfold zlen in Hl.
  pose proof (Z.mod_pos_bound (hash_ k) (2 ^ a) ltac:(lia)). lia.
Qed.

Lemma getBucket_ok m g k : stores m g ->
  m_buckets m !! idx m k = Some (getBucket key_init mapped_init (hash_ k) m) /\
  exists gb, holds (getBucket key_init mapped_init (hash_ k) m) gb /\ gb !! k = g !! k /\
    forall k', gb !! k' = if decide (idx m k' = idx m k) then g !! k' else None.
Proof.
  intros Hs. destruct (lookup_lt_is_Some_2 _ _ (idx_lt m g k Hs)) as [b Hb]. unfold getBucket. rewrite Hb. cbn [default].
  split; [done|]. destruct Hs as (_ & Hp). destruct (Hp _ _ Hb) as (gb & Hh & Hgb). exists gb. split_and!; try done.
  by rewrite Hgb, decide_True by done.
Qed.

(** Replacing the bucket of [k] by one that differs at [k] only. *)
Lemma set_bucket_ok m g k b (gb gb' g' : gmap K V) :
  stores m g -> (forall k', gb !! k' = if decide (idx m k' = idx m k) then g !! k' else None) ->
  holds b gb' -> (forall k', k' <> k -> gb' !! k' = gb !! k') -> gb' !! k = g' !! k ->
  (forall k', k' <> k -> g' !! k' = g !! k') ->
  stores (set_bucket (hash_ k) b m) g'.
Proof.
  intros Hs Hgb Hb Hother Hk Hg'. pose proof (idx_lt m g k Hs) as Hlt. destruct Hs as ((a & Ha) & Hp). split.
  { exists a. unfold set_bucket. cbn [m_buckets m_bucket_flag m_upper_bound]. unfold zlen. by rewrite length_insert. }
  intros i b' Hi. unfold set_bucket in Hi. cbn [m_buckets] in Hi. unfold part. unfold set_bucket. cbn [m_bucket_flag].
  destruct (decide (i = idx m k)) as [->|Hne].
  - rewrite list_lookup_insert_eq in Hi by done. simplify_eq. exists gb'. split; [done|]. intros k'.
    destruct (decide (k' = k)) as [->|Hkk].
    + by rewrite decide_True by done.
    + rewrite (Hother k' Hkk), Hgb. by rewrite (Hg' k' Hkk).
  - rewrite list_lookup_insert_ne in Hi by done. destruct (Hp _ _ Hi) as (gc & Hh & Hgc). exists gc. split; [done|].
    intros k'. rewrite Hgc. destruct (decide (idx m k' = i)) as [He|]; [|done]. rewrite Hg'; [done|]. intros ->. done.
Qed.

(** ** Growing *)

Lemma move_elem_ok m g k v :
  stores m g -> g !! k = None -> stores (move_elem hash_ key_init mapped_init m (mk (k, v))) (<[k := v]> g).
Proof.
  intros Hs Hk. destruct (getBucket_ok m g k Hs) as (_ & gb & Hh & Hgk & Hgb). unfold move_elem. cbn [mk e_key fst snd].
  change (Elem VALID k v) with (mk (k, v)).
  eapply (set_bucket_ok m g k _ gb (<[k := v]> gb)); [done|done| | | |].
  - apply insertND_ok; [done|congruence].
  - intros k' Hne. by apply lookup_insert_ne.
  - by rewrite !lookup_insert_eq.
  - intros k' Hne. by apply lookup_insert_ne.
Qed.

Lemma move_all_ok (l : list (K * V)) : forall m g,
  stores m g -> NoDup l.*1 -> (forall k, k ∈ l.*1 -> g !! k = None) ->
  stores (fold_left (fun m e => move_elem hash_ key_init mapped_init m (mk e)) l m) (list_to_map l ∪ g).
Proof.
  induction l as [|[k v] l IH]; intros m g Hs Hnd Hnone; simpl in *; [by rewrite map_empty_union|].
  inversion_clear Hnd as [|?? Hk Hnd'].
  rewrite <-insert_union_l, insert_union_r by (by apply not_elem_of_list_to_map_1). apply IH.
  - apply move_elem_ok; [done|]. apply Hnone. set_solver.
  - done.
  - intros k' Hk'. rewrite lookup_insert_ne by set_solver. apply Hnone. set_solver.
Qed.

Lemma valid_entries_mk (o : list (K * V)) : valid_entries (mk <$> o) = o.
Proof.
  induction o as [|[k v] o IH]; [done|].
  change (valid_entries (mk <$> (k, v) :: o)) with ((k, v) :: valid_entries (mk <$> o)). by rewrite IH.
Qed.

Lemma shape_entries (b : bucket K V) l : shape b l -> bucket_for_each b = l.
Proof.
  intros [k v|e o]; [done|]. unfold bucket_for_each. cbn [arr overflow].
  change [mk e] with (mk <$> [e]). by rewrite !valid_entries_mk.
Qed.

Lemma move_bucket_entries (m : M) b l : shape b l ->
  move_bucket hash_ key_init mapped_init m b =
    fold_left (fun m e => move_elem hash_ key_init mapped_init m (mk e)) (bucket_for_each b) m.
Proof.
  intros Hs. rewrite (shape_entries _ _ Hs). destruct Hs as [k v|[k v] o]; [done|].
  unfold move_bucket. cbn [arr move_arr mk e_state overflow]. rewrite bool_decide_eq_false_2 by done. simpl.
  generalize (move_elem hash_ key_init mapped_init m (mk (k, v))). clear.
  induction o as [|e o IH]; intros m; [done|]. simpl. apply IH.
Qed.

(** [for_each] visits every entry of the represented map once. *)
Lemma for_each_parts (m : M) g j bs :
  (forall i b, bs !! i = Some b -> part m g (j + i) b) ->
  let l := concat (map bucket_for_each bs) in
  NoDup l.*1 /\ forall k v, (k, v) ∈ l <-> g !! k = Some v /\ (j <= idx m k < j + length bs)%nat.
Proof.
  revert j. induction bs as [|b bs IH]; intros j Hp; simpl.
  { split; [constructor|]. intros k v. split; [intros Hin; by apply elem_of_nil in Hin|lia]. }
  destruct (IH (S j)) as [Hnd Hin]; [intros i b' Hi; replace (S j + i)%nat with (j + S i)%nat by lia; by apply Hp|].
  destruct (Hp 0%nat b eq_refl) as (gb & (l & Hs & Hndl & <-) & Hgb). rewrite (shape_entries _ _ Hs). rewrite Nat.add_0_r in Hgb.
  assert (forall k v, (k, v) ∈ l <-> g !! k = Some v /\ idx m k = j) as Hl.
  { intros k v. unfold amap in Hgb. rewrite (elem_of_list_to_map (M := gmap K)), Hgb by done.
    destruct (decide (idx m k = j)); naive_solver. }
  split.
  - rewrite fmap_app. apply list.NoDup_app. split_and!; [done| |done].
    intros k Hk1 Hk2. apply list_elem_of_fmap in Hk1 as ([k1 v1] & -> & H1). apply list_elem_of_fmap in Hk2 as ([k2 v2] & He & H2).
    simpl in He. subst k2. apply Hl in H1 as [_ H1]. apply Hin in H2 as [_ H2]. simpl in *. lia.
  - intros k v. rewrite elem_of_app, Hl, Hin. split.
    + intros [[? ?]|[? ?]]; (split; [done|lia]).
    + intros [Hg Hr]. destruct (decide (idx m k = j)); [by left|right]. split; [done|lia].
Qed.

Lemma for_each_ok (m : M) g : stores m g ->
  NoDup (for_each m).*1 /\ forall k v, (k, v) ∈ for_each m <-> g !! k = Some v.
Proof.
  intros Hs. pose proof (fun k => idx_lt m g k Hs) as Hlt. destruct Hs as (_ & Hp).
  destruct (for_each_parts m g 0 (m_buckets m)) as [Hnd Hin]; [done|]. split; [done|].
  intros k v. unfold for_each. rewrite Hin. specialize (Hlt k). naive_solver lia.
Qed.

Lemma ones_of_pow a : 0 < a <= 64 -> SIZE_MAX mod 2 ^ a = Z.ones a.
Proof.
  intros Ha. unfold SIZE_MAX. rewrite Z.ones_equiv.
  replace (2 ^ 64 - 1) with (Z.pred (2 ^ a) + (2 ^ (64 - a) - 1) * 2 ^ a).
  - rewrite Z_mod_plus_full, Z.mod_small; [done|]. pose proof (Z.pow_pos_nonneg 2 a). lia.
  - assert (2 ^ 64 = 2 ^ (64 - a) * 2 ^ a) as Hx by (rewrite <-Z.pow_add_r by lia; f_equal; lia). lia.
Qed.

Lemma holds_init : holds (bucket_init key_init mapped_init) ∅.
Proof. exists []. split; [apply shape_empty|]. split; [constructor|done]. Qed.

Lemma stores_empty a count : 5 <= a <= 52 ->
  stores (CMap (replicate (Z.to_nat (2 ^ a)) (bucket_init key_init mapped_init)) count
            (2 ^ a * LoadFactor / 100) (Z.ones a)) ∅.
Proof.
  intros Ha. pose proof (Z.pow_pos_nonneg 2 a). split.
  - exists a. cbn [m_buckets]. unfold zlen. rewrite length_replicate. split_and!; try done; lia.
  - intros i b Hi. apply lookup_replicate in Hi as [-> _]. exists ∅. split; [apply holds_init|].
    intros k. rewrite !lookup_empty. by destruct (decide _).
Qed.

Lemma map_resize_ok (m : M) g a : stores m g -> 5 <= a <= 52 -> stores (resize hash_ key_init mapped_init (2 ^ a) m) g.
Proof.
  intros Hs Ha. unfold resize. rewrite ones_of_pow by lia.
  assert (u64 (2 ^ a * LoadFactor) = 2 ^ a * LoadFactor) as ->.
  { apply u64_small. unfold LoadFactor. assert (2 ^ a <= 2 ^ 52) by (apply Z.pow_le_mono_r; lia).
    pose proof (Z.pow_pos_nonneg 2 a). lia. }
  pose proof (stores_empty a (m_count m) Ha) as He. revert He.
  generalize (CMap (replicate (Z.to_nat (2 ^ a)) (bucket_init key_init mapped_init)) (m_count m)
    (2 ^ a * LoadFactor / 100) (Z.ones a)). intros m0 He.
  destruct (for_each_ok m g Hs) as [Hnd Hin].
  assert (fold_left (move_bucket hash_ key_init mapped_init) (m_buckets m) m0 =
    fold_left (fun m e => move_elem hash_ key_init mapped_init m (mk e)) (for_each m) m0) as ->.
  { unfold for_each. destruct Hs as (_ & Hp). clear -Hp.
    assert (Forall (fun b : bucket K V => exists l, shape b l) (m_buckets m)) as Hf.
    { apply Forall_lookup. intros i b Hi. destruct (Hp i b Hi) as (gb & (l & Hl & _) & _). eauto. }
    clear Hp. revert m0. induction Hf as [|b bs [l Hl] Hf IH]; intros m0; [done|]. simpl. rewrite fold_left_app.
    rewrite <-(move_bucket_entries m0 b l Hl). apply IH. }
  pose proof (move_all_ok (for_each m) m0 ∅ He Hnd ltac:(intros; apply lookup_empty)) as Hmv.
  rewrite map_union_empty in Hmv. assert (list_to_map (for_each m) = g) as <-; [|done].
  apply map_eq. intros k. apply option_eq. intros v. rewrite <-Hin. by rewrite elem_of_list_to_map.
Qed.

Lemma grow_loop_ok count n : forall b, 0 <= b <= 52 -> count <= 2 ^ 51 -> (52 - b < Z.of_nat n) ->
  exists b', b <= b' <= 52 /\ grow_loop n (2 ^ b) count = Some (2 ^ b').
Proof.
  induction n as [|n IH]; intros b Hb Hc Hn; [lia|]. cbn [grow_loop].
  assert (2 ^ b <= 2 ^ 52) by (apply Z.pow_le_mono_r; lia). pose proof (Z.pow_pos_nonneg 2 b).
  rewrite u64_small by (unfold LoadFactor; lia). destruct (_ <? count) eqn:E; bool_prop; [|exists b; split; [lia|done]].
  assert (b < 52) as Hlt.
  { destruct (decide (b = 52)) as [->|]; [|lia]. exfalso.
    assert (2 ^ 51 <= 2 ^ 52 * LoadFactor / 100) by (vm_compute; discriminate). lia. }
  destruct (IH (b + 1)) as (b' & Hb' & Heq); [lia|lia|lia|]. exists b'. split; [lia|].
  rewrite Z.pow_add_r, Z.pow_1_r in Heq by lia. rewrite u64_small by lia. done.
Qed.

Lemma resize_count n (m : M) : m_count (resize hash_ key_init mapped_init n m) = m_count m.
Proof.
  unfold resize. generalize (m_buckets m) as bs.
  assert (forall el m, m_count (move_elem hash_ key_init mapped_init m el) = m_count m) as H1 by done.
  assert (forall l m, m_count (fold_left (move_elem hash_ key_init mapped_init) l m) = m_count m) as H2.
  { induction l as [|e l IH]; intros m0; simpl; [done|]. by rewrite IH. }
  assert (forall l m, m_count (move_arr hash_ key_init mapped_init l m).1 = m_count m) as H3.
  { induction l as [|e l IH]; intros m0; simpl; [done|]. case_match; [done|]. by rewrite IH. }
  assert (forall b m, m_count (move_bucket hash_ key_init mapped_init m b) = m_count m) as H4.
  { intros b m0. unfold move_bucket. specialize (H3 (arr b) m0). destruct (move_arr _ _ _ _ m0) as [m1 []]; [done|].
    by rewrite H2. }
  intros bs. generalize (SIZE_MAX mod n) (u64 (n * LoadFactor) / 100). intros f u.
  set (m0 := CMap _ _ _ _). change (m_count m) with (m_count m0). generalize m0. clear m0 f u.
  induction bs as [|b bs IH]; intros m0; simpl; [done|]. by rewrite IH, H4.
Qed.

Lemma map_reserve_ok (m : M) g count : stores m g -> count < 2 ^ 51 ->
  exists m', reserve hash_ key_init mapped_init count m = Some m' /\ stores m' g /\ m_count m' = m_count m.
Proof.
  intros Hs Hc. unfold reserve. destruct (count <? m_upper_bound m) eqn:E; bool_prop; [eauto|].
  pose proof Hs as ((a & Ha & Hl & Hf & Hu) & _). rewrite Hu in E. rewrite Hl.
  assert (a < 52) as Hlt.
  { destruct (decide (a = 52)) as [->|]; [|lia]. exfalso.
    assert (2 ^ 51 <= 2 ^ 52 * LoadFactor / 100) by (vm_compute; discriminate). lia. }
  assert (2 ^ a <= 2 ^ 51) by (apply Z.pow_le_mono_r; lia). pose proof (Z.pow_pos_nonneg 2 a).
  rewrite u64_small by lia. destruct (grow_loop_ok count 64 (a + 1)) as (b & Hb & Hg); [lia|lia|lia|].
  rewrite Z.pow_add_r, Z.pow_1_r in Hg by lia. rewrite Hg. eexists. split; [done|].
  split; [apply map_resize_ok; [done|lia]|apply resize_count].
Qed.

(** ** The public operations *)

Lemma map_init_ok : minv (map_init key_init mapped_init) ∅.
Proof. split; [|done]. apply (stores_empty 5 0). lia. Qed.

Lemma minv_add d (m : M) (g g' : gmap K V) :
  stores m g' -> m_count m = Z.of_nat (base.size g) -> Z.of_nat (base.size g') = Z.of_nat (base.size g) + d ->
  Z.of_nat (base.size g') < 2 ^ 64 -> minv (add_count d m) g'.
Proof. intros Hs Hc Hd Hb. split; [done|]. cbn [m_count add_count]. rewrite Hc, <-Hd. apply u64_small. lia. Qed.

Lemma size_insert_add (g : gmap K V) k v :
  Z.of_nat (base.size (<[k := v]> g)) = Z.of_nat (base.size g) + (if g !! k then 0 else 1).
Proof. rewrite map_size_insert. unfold id. destruct (g !! k); lia. Qed.

Lemma size_delete_add (g : gmap K V) k :
  Z.of_nat (base.size (delete k g)) = Z.of_nat (base.size g) + (if g !! k then -1 else 0).
Proof.
  rewrite map_size_delete. unfold id. destruct (g !! k) as [v|] eqn:Hk; [|lia].
  assert (base.size g <> 0)%nat by (intros Hz; apply map_size_empty_inv in Hz; subst g; done). lia.
Qed.

(** An operation on the bucket of [k] that turns [gb] into [gb'] at [k] only. *)
Lemma update_ok (m : M) g k b (gb gb' g' : gmap K V) :
  stores m g -> (forall k', gb !! k' = if decide (idx m k' = idx m k) then g !! k' else None) ->
  holds b gb' -> (forall k', k' <> k -> gb' !! k' = gb !! k') -> (forall k', k' <> k -> g' !! k' = g !! k') ->
  gb' !! k = g' !! k -> stores (set_bucket (hash_ k) b m) g'.
Proof. intros. by eapply set_bucket_ok. Qed.

Lemma map_erase_ok m g k : minv m g -> Z.of_nat (base.size g) < 2 ^ 64 ->
  minv (erase hash_ key_init mapped_init k m).1 (delete k g) /\
  (erase hash_ key_init mapped_init k m).2 = answer mapped_init (g !! k).
Proof.
  intros [Hs Hc] Hb. destruct (getBucket_ok m g k Hs) as (_ & gb & Hh & Hgk & Hgb).
  destruct (bucket_erase_ok mapped_init k _ gb Hh) as [Hr Hbk]. rewrite Hgk in Hr.
  unfold erase. destruct (bucket_erase _ _ _) as [b r]. cbn [fst snd] in *.
  assert (stores (set_bucket (hash_ k) b m) (delete k g)) as Hs'.
  { eapply (update_ok m g k b gb (delete k gb)); try done; try (intros; by apply lookup_delete_ne).
    by rewrite !lookup_delete_eq. }
  subst r. split; [|done]. pose proof (size_delete_add g k) as Hd. unfold answer. destruct (g !! k) as [v|] eqn:Hk; cbn [fst].
  - eapply minv_add; [done|done|done|]. lia.
  - split; [done|]. change (m_count (set_bucket (hash_ k) b m)) with (m_count m). lia.
Qed.

Lemma insert_ok m g k v : minv m g -> Z.of_nat (base.size g) < 2 ^ 51 ->
  exists m', insert hash_ key_init mapped_init k v m = Some (m', insert_answer mapped_init (g !! k)) /\
    minv m' (<[k := v]> g).
Proof.
  intros [Hs Hc] Hb. destruct (map_reserve_ok m g (m_count m) Hs ltac:(lia)) as (m1 & Hres & Hs1 & Hc1).
  unfold insert. rewrite Hres. cbn [mbind option_bind]. destruct (getBucket_ok m1 g k Hs1) as (_ & gb & Hh & Hgk & Hgb).
  destruct (bucket_insert_ok mapped_init k v _ gb Hh) as [Hr Hbk]. rewrite Hgk in Hr.
  destruct (bucket_insert _ _ _ _) as [b r]. cbn [fst snd] in *. subst r. eexists. split; [done|].
  assert (stores (set_bucket (hash_ k) b m1) (<[k := v]> g)) as Hs'.
  { eapply (update_ok m1 g k b gb (<[k := v]> gb)); try done; try (intros; by apply lookup_insert_ne).
    by rewrite !lookup_insert_eq. }
  pose proof (size_insert_add g k v) as Hd. unfold insert_answer. destruct (g !! k) as [w|] eqn:Hk; cbn [fst].
  - split; [done|]. change (m_count (set_bucket (hash_ k) b m1)) with (m_count m1). lia.
  - apply (minv_add 1 _ g); [done|change (m_count (set_bucket (hash_ k) b m1)) with (m_count m1); lia|done|lia].
Qed.

Lemma at_ok (m : M) g k : minv m g -> at_ hash_ key_init mapped_init k m = answer mapped_init (g !! k).
Proof.
  intros [Hs _]. destruct (getBucket_ok m g k Hs) as (_ & gb & Hh & Hgk & _). rewrite <-Hgk. by apply bucket_at_ok.
Qed.

Lemma exec_on_ok m g k f : minv m g -> Z.of_nat (base.size g) < 2 ^ 51 ->
  exists m', exec_on hash_ key_init mapped_init k f m = Some m' /\ minv m' (exec_map mapped_init k f g).
Proof.
  intros [Hs Hc] Hb. destruct (map_reserve_ok m g (m_count m) Hs ltac:(lia)) as (m1 & Hres & Hs1 & Hc1).
  unfold exec_on. rewrite Hres. cbn [mbind option_bind]. destruct (getBucket_ok m1 g k Hs1) as (_ & gb & Hh & Hgk & Hgb).
  destruct (bucket_exec_on_ok mapped_init k f _ gb Hh) as [Hbk Hd]. rewrite Hgk in Hd.
  destruct (bucket_exec_on _ _ _ _) as [b d]. cbn [fst snd] in *. subst d. eexists. split; [done|].
  unfold exec_map in *. rewrite Hgk in Hbk. destruct (f (default mapped_init (g !! k))) as [v []]; cbn [snd].
  - apply (minv_add _ _ g); [|change (m_count (set_bucket (hash_ k) b m1)) with (m_count m1); lia|apply size_delete_add|].
    + eapply (update_ok m1 g k b gb (delete k gb)); try done; try (intros; by apply lookup_delete_ne).
      by rewrite !lookup_delete_eq.
    + rewrite size_delete_add. destruct (g !! k); lia.
  - apply (minv_add _ _ g); [|change (m_count (set_bucket (hash_ k) b m1)) with (m_count m1); lia|apply size_insert_add|].
    + eapply (update_ok m1 g k b gb (<[k := v]> gb)); try done; try (intros; by apply lookup_insert_ne).
      by rewrite !lookup_insert_eq.
    + rewrite size_insert_add. destruct (g !! k); lia.
Qed.

(** ** Sequences of operations *)

Inductive op :=
  | OInsert (k : K) (v : V)
  | OErase (k : K)
  | OExecOn (k : K) (f : V -> V * bool)
  | OReserve (count : Z).

(** One operation of the implementation; the result of [insert] and [erase]. *)
Definition step (o : op) (m : M) : option (M * option (bool * V)) :=
  match o with
  | OInsert k v => '(m', r) ← insert hash_ key_init mapped_init k v m; Some (m', Some r)
  | OErase k => let (m', r) := erase hash_ key_init mapped_init k m in Some (m', Some r)
  | OExecOn k f => m' ← exec_on hash_ key_init mapped_init k f m; Some (m', None)
  | OReserve c => m' ← reserve hash_ key_init mapped_init c m; Some (m', None)
  end.

(** The same on finite maps. *)
Definition step_map (o : op) (g : gmap K V) : gmap K V * option (bool * V) :=
  match o with
  | OInsert k v => (<[k := v]> g, Some (insert_answer mapped_init (g !! k)))
  | OErase k => (delete k g, Some (answer mapped_init (g !! k)))
  | OExecOn k f => (exec_map mapped_init k f g, None)
  | OReserve _ => (g, None)
  end.

Fixpoint run (ops : list op) (m : M) : option (M * list (option (bool * V))) :=
  match ops with
  | [] => Some (m, [])
  | o :: ops => '(m, r) ← step o m; '(m, rs) ← run ops m; Some (m, r :: rs)
  end.

Fixpoint run_map (ops : list op) (g : gmap K V) : gmap K V * list (option (bool * V)) :=
  match ops with
  | [] => (g, [])
  | o :: ops => let (g, r) := step_map o g in let (g, rs) := run_map ops g in (g, r :: rs)
  end.

Definition op_ok (o : op) : Prop := match o with OReserve c => c < 2 ^ 51 | _ => True end.

Lemma exec_size k f (g : gmap K V) : Z.of_nat (base.size (exec_map mapped_init k f g)) <= Z.of_nat (base.size g) + 1.
Proof.
  unfold exec_map. destruct (f _) as [v []].
  - rewrite size_delete_add. destruct (g !! k); lia.
  - rewrite size_insert_add. destruct (g !! k); lia.
Qed.

Lemma step_ok o m g : minv m g -> Z.of_nat (base.size g) < 2 ^ 51 -> op_ok o ->
  exists m', step o m = Some (m', (step_map o g).2) /\ minv m' (step_map o g).1 /\
    Z.of_nat (base.size (step_map o g).1) <= Z.of_nat (base.size g) + 1.
Proof.
  intros Hm Hb Ho. destruct o as [k v|k|k f|c]; cbn [step step_map fst snd].
  - destruct (insert_ok m g k v Hm Hb) as (m' & -> & Hm'). exists m'. split_and!; [done|done|].
    rewrite size_insert_add. destruct (g !! k); lia.
  - destruct (map_erase_ok m g k Hm ltac:(lia)) as [Hm' Hr]. destruct (erase _ _ _ _ _) as [m' r]. cbn [fst snd] in *. subst r.
    exists m'. split_and!; [done|done|]. rewrite size_delete_add. destruct (g !! k); lia.
  - destruct (exec_on_ok m g k f Hm Hb) as (m' & -> & Hm'). exists m'. split_and!; [done|done|apply exec_size].
  - destruct Hm as [Hs Hc]. destruct (map_reserve_ok m g c Hs Ho) as (m' & -> & Hs' & Hc'). exists m'.
    split_and!; [done| |lia]. split; [done|congruence].
Qed.

Lemma run_ok ops : forall m g, minv m g -> Z.of_nat (base.size g) + zlen ops <= 2 ^ 51 -> Forall op_ok ops ->
  exists m', run ops m = Some (m', (run_map ops g).2) /\ minv m' (run_map ops g).1.
Proof.
  induction ops as [|o ops IH]; intros m g Hm Hb Hops; [by exists m|].
  rewrite zlen_cons in Hb. pose proof (zlen_nonneg ops). inversion_clear Hops as [|?? Ho Hops'].
  destruct (step_ok o m g Hm ltac:(lia) Ho) as (m1 & Hstep & Hm1 & Hsz). cbn [run run_map].
  destruct (step_map o g) as [g1 r]. cbn [fst snd] in *. rewrite Hstep. cbn [mbind option_bind].
  destruct (IH m1 g1 Hm1 ltac:(lia) Hops') as (m2 & -> & Hm2). destruct (run_map ops g1) as [g2 rs]. by exists m2.
Qed.

(** C5: after any sequence of fewer than 2^51 operations on a new map (inserts, erases,
    [exec_on], [reserve] of fewer than 2^51 elements, in any order and with any hash
    function, growing included), every result was that of the same operations on a
    finite map, [at] and [size] answer as that map does, and [for_each] visits each of
    its entries exactly once. *)
Theorem concurrent_map_refines (ops : list op) :
  zlen ops < 2 ^ 51 -> Forall op_ok ops ->
  exists m, run ops (map_init key_init mapped_init) = Some (m, (run_map ops ∅).2) /\
    let g := (run_map ops ∅).1 in
    (forall k, at_ hash_ key_init mapped_init k m = answer mapped_init (g !! k)) /\
    size m = Z.of_nat (base.size g) /\ for_each m ≡ₚ map_to_list g.
Proof.
  intros Hl Hops. destruct (run_ok ops _ ∅ map_init_ok) as (m & Hrun & Hm); [rewrite map_size_empty; lia|done|].
  exists m. split; [done|]. split_and!.
  - intros k. by apply at_ok.
  - apply Hm.
  - destruct (for_each_ok m _ (proj1 Hm)) as [Hnd Hin]. apply list.NoDup_Permutation.
    + by eapply NoDup_fmap_1.
    + apply NoDup_map_to_list.
    + intros [k v]. rewrite Hin, elem_of_map_to_list. done.
Qed.

(** keys that share a bucket share the mutex: whoever holds the mutex of a key is alone
    in the key's bucket, at every size the map can grow to. *)
Theorem same_bucket_same_mutex (m : M) (g : gmap K V) (k1 k2 : K) :
  minv m g -> idx m k1 = idx m k2 -> getMutex (hash_ k1) = getMutex (hash_ k2).
Proof.
  intros [((a & Ha & _ & Hf & _) & _) _]. rewrite Hf, !bucket_index_ones by lia. intros Heq.
  assert (hash_ k1 mod 2 ^ a = hash_ k2 mod 2 ^ a) as Hm.
  { pose proof (Z.mod_pos_bound (hash_ k1) (2 ^ a)). pose proof (Z.mod_pos_bound (hash_ k2) (2 ^ a)). lia. }
  unfold getMutex, ConcurrencyLevel. assert (32 * 2 ^ (a - 5) = 2 ^ a) as Hp
    by (change 32 with (2 ^ 5); rewrite <-Z.pow_add_r by lia; f_equal; lia).
  assert (Z.divide 32 (2 ^ a)) as Hdiv by (exists (2 ^ (a - 5)); lia).
  rewrite (Znumtheory.Zmod_div_mod 32 (2 ^ a) (hash_ k1)), (Znumtheory.Zmod_div_mod 32 (2 ^ a) (hash_ k2)) by (done || lia).
  by rewrite Hm.
Qed.

End Map.

(** [clear] leaves elements behind when a bucket has more than one: with three keys in
    one bucket, one of them is still found afterwards, and [size] still counts all
    three. *)
Theorem clear_leaves_entries :
  let h := fun _ : Z => 0 in
  exists m, run h 0 0 [OInsert 1 10; OInsert 2 20; OInsert 3 30] (map_init 0 0) = Some (m, [Some (true, 0); Some (true, 0); Some (true, 0)]) /\
    at_ h 0 0 3 (clear m) = (true, 30) /\ size (clear m) = 3.
Proof. eexists. split; [vm_compute; reflexivity|]. split; vm_compute; reflexivity. Qed.

Lemma concurrent_map_refines_witness :
  let h := fun k : Z => k * 7 in
  let ops := [OInsert 1 10; OInsert 33 20; OErase 1; OExecOn 33 (fun v => (v + 1, false)); OReserve 100] in
  exists m, run h 0 0 ops (map_init 0 0) = Some (m, (run_map 0 ops ∅).2) /\
    let g := (run_map 0 ops ∅).1 in
    (forall k, at_ h 0 0 k m = answer 0 (g !! k)) /\ size m = Z.of_nat (base.size g) /\ for_each m ≡ₚ map_to_list g.
Proof. intros h ops. apply (concurrent_map_refines h 0 0 ops); [done|]. repeat constructor. Defined.

Lemma same_bucket_same_mutex_witness :
  getMutex ((fun k : Z => k) 1) = getMutex ((fun k : Z => k) 33).
Proof.
  apply (same_bucket_same_mutex (fun k : Z => k) (map_init 0 0 : cmap Z Z) ∅ 1 33); [apply map_init_ok|reflexivity].
Defined.
