(* ===== verification/FixedSizeStack.v ===== *)
(** * fixed_size_stack

    [crossbow/fixed_size_stack.hpp] as threads that interleave at every access to the
    shared head or the shared array.  [readHead] and [writeHead] are 32-bit integers in
    one atomic word.  A push claims a slot by advancing the write head, stores its
    element and publishes it by advancing the read head in slot order. *)

From S2P Require Import Prelude.

Section Stack.
Context {T : Type}.

Record Head := mkHead { readHead : Z; writeHead : Z }.

#[global] Instance Head_eq_dec : EqDecision Head.
Proof. solve_decision. Defined.

(** What a thread still has to do, and the results so far. *)
Inductive call := Push (element : T) | Pop.
Inductive answer := Pushed (ok : bool) | Popped (result : option T).

(** Where in [push] or [pop] a thread is, with its local variables. *)
Inductive pc :=
  | Idle
  | PopLoad
  | PopRead (head : Head)
  | PopCas (head : Head) (result : T)
  | PushLoad (element : T)
  | PushClaim (element : T) (head : Head)
  | PushStore (element : T) (head : Head) (wHead : Z)
  | PushWait (head : Head) (wHead : Z)
  | PushPublish (head : Head) (wHead : Z).

Record thread := Thread { t_pc : pc; t_calls : list call; t_answers : list answer }.

Record config := Config { mVec : list T; mHead : Head; threads : list thread }.

(** [fixed_size_stack(size, nullValue)]. *)
Definition stack_init (size : nat) (nullValue : T) (progs : list (list call)) : config :=
  Config (replicate size nullValue) (mkHead 0 0) (map (fun p => Thread Idle p []) progs).

Definition goto (p : pc) (t : thread) : thread := Thread p (t_calls t) (t_answers t).
Definition return_ (a : answer) (t : thread) : thread := Thread Idle (t_calls t) (t_answers t ++ [a]).

(** One access of a thread: the new array, head and thread.  [None]: the thread has
    nothing left to do, or it reads or writes outside the array. *)
Definition tstep (vec : list T) (h : Head) (t : thread) : option (list T * Head * thread) :=
  match t_pc t with
  | Idle =>
      match t_calls t with
      | [] => None
      | Pop :: cs => Some (vec, h, Thread PopLoad cs (t_answers t))
      | Push e :: cs => Some (vec, h, Thread (PushLoad e) cs (t_answers t))
      end
  (* pop *)
  | PopLoad =>
      if negb (writeHead h =? readHead h) then Some (vec, h, goto PopLoad t)
      else if readHead h =? 0 then Some (vec, h, return_ (Popped None) t)
      else Some (vec, h, goto (PopRead h) t)
  | PopRead head =>
      x ← vec !! Z.to_nat (u32 (readHead head - 1));
      Some (vec, h, goto (PopCas head x) t)
  | PopCas head x =>
      if decide (h = head) then
        Some (vec, mkHead (u32 (readHead head - 1)) (u32 (writeHead head - 1)), return_ (Popped (Some x)) t)
      else Some (vec, h, goto PopLoad t)
  (* push *)
  | PushLoad e => Some (vec, h, goto (PushClaim e h) t)
  | PushClaim e head =>
      if writeHead head =? zlen vec then Some (vec, h, return_ (Pushed false) t)
      else if decide (h = head) then
        Some (vec, mkHead (readHead head) (u32 (writeHead head + 1)), goto (PushStore e head (writeHead head)) t)
      else Some (vec, h, goto (PushClaim e h) t)
  | PushStore e head wHead =>
      match vec !! Z.to_nat wHead with
      | Some _ => Some (<[Z.to_nat wHead := e]> vec, h, goto (PushWait head wHead) t)
      | None => None
      end
  | PushWait head wHead =>
      if negb (readHead head =? wHead) then Some (vec, h, goto (PushWait h wHead) t)
      else Some (vec, h, goto (PushPublish head wHead) t)
  | PushPublish head wHead =>
      if decide (h = head) then
        Some (vec, mkHead (u32 (wHead + 1)) (writeHead head), return_ (Pushed true) t)
      else Some (vec, h, goto (PushPublish h wHead) t)
  end.

(** Thread [i] moves. *)
Definition step (i : nat) (c : config) : option config :=
  t ← threads c !! i;
  '(vec, h, t') ← tstep (mVec c) (mHead c) t;
  Some (Config vec h (<[i := t']> (threads c))).

Inductive reachable (c0 : config) : config -> Prop :=
  | reach_init : reachable c0 c0
  | reach_step c i c' : reachable c0 c -> step i c = Some c' -> reachable c0 c'.

Fixpoint schedule (is_ : list nat) (c : config) : option config :=
  match is_ with
  | [] => Some c
  | i :: is_ => c' ← step i c; schedule is_ c'
  end.

Definition size (c : config) : Z := readHead (mHead c).
Definition capacity (c : config) : Z := zlen (mVec c).

(** ** The invariant *)

(** The slot a thread has claimed and not yet published. *)
Definition claim (t : thread) : option Z :=
  match t_pc t with
  | PushStore _ _ w | PushWait _ w | PushPublish _ w => Some w
  | _ => None
  end.
Definition claims (c : config) : list Z := omap claim (threads c).

(** What the local variables of a thread say; [h] is the shared head. *)
Definition local_ok (n : Z) (h : Head) (t : thread) : Prop :=
  match t_pc t with
  | PopRead head | PopCas head _ => readHead head = writeHead head /\ 0 < readHead head <= n
  | PushClaim _ head => writeHead head <= n
  | PushStore _ head _ | PushWait head _ => readHead head <= readHead h
  | PushPublish head w => readHead head = w /\ readHead head <= readHead h
  | _ => True
  end.

Record inv (n : Z) (c : config) : Prop := {
  inv_len : zlen (mVec c) = n;
  inv_head : 0 <= readHead (mHead c) <= writeHead (mHead c) /\ writeHead (mHead c) <= n;
  inv_nodup : NoDup (claims c);
  inv_range : forall w, w ∈ claims c -> readHead (mHead c) <= w < writeHead (mHead c);
  inv_count : zlen (claims c) = writeHead (mHead c) - readHead (mHead c);
  inv_local : Forall (local_ok n (mHead c)) (threads c)
}.

End Stack.
Arguments call : clear implicits.
Arguments answer : clear implicits.
Arguments pc : clear implicits.
Arguments thread : clear implicits.
Arguments config : clear implicits.
