(* ===== verification/FixedSizeStackSpec.v ===== *)
(** * fixed_size_stack: invariant and anomalies

    In every interleaving the claimed slots are exactly the positions between the read
    and the write head, each claimed by one thread, so no two threads write one slot and
    no access leaves the array.  The compare-and-swap of [pop] only looks at the heads,
    so an element can be returned twice. *)

From S2P Require Import Prelude FixedSizeStack.

Section Inv.
Context {T : Type}.
Implicit Types (c : config T) (t : thread T).

(** Local knowledge survives what other threads do to the head. *)
Lemma local_mono n h h' t :
  readHead h <= readHead h' \/ claim t = None -> local_ok n h t -> local_ok n h' t.
Proof. unfold local_ok, claim. destruct (t_pc t); naive_solver lia. Qed.

(** A step of thread [i], with the claims the new head must account for. *)
Lemma inv_move n c i t t' vec h :
  inv n c -> threads c !! i = Some t -> local_ok n h t' -> zlen vec = n ->
  0 <= readHead h <= writeHead h -> writeHead h <= n ->
  readHead (mHead c) <= readHead h \/ claims c = [] ->
  (forall rest, claims c ≡ₚ option_list (claim t) ++ rest ->
     NoDup (option_list (claim t') ++ rest) /\
     (forall w, w ∈ option_list (claim t') ++ rest -> readHead h <= w < writeHead h) /\
     zlen (option_list (claim t') ++ rest) = writeHead h - readHead h) ->
  inv n (Config vec h (<[i := t']> (threads c))).
Proof.
  intros [H1 H2 H3 H4 H5 H6] Hi Hl Hv Hh Hh' Hm Hc. destruct (omap_insert_split claim _ _ _ Hi) as (rest & Hp & Hp').
  destruct (Hc rest Hp) as (Hnd & Hr & Hn). specialize (Hp' t').
  constructor; cbn [mVec mHead threads]; try done; unfold claims; cbn [threads].
  - by rewrite Hp'.
  - intros w Hw. rewrite Hp' in Hw. auto.
  - unfold zlen in *. by rewrite Hp'.
  - apply Forall_insert; [|done]. apply Forall_lookup. intros j tj Hj.
    eapply local_mono; [|exact (Forall_lookup_1 _ _ _ _ H6 Hj)]. destruct Hm as [?|Hnone]; [by left|right].
    destruct (claim tj) as [w|] eqn:Hcl; [|done]. exfalso.
    assert (w ∈ claims c) as Hin by (apply list_elem_of_omap; exists tj; split; [by eapply list_elem_of_lookup_2|done]).
    rewrite Hnone in Hin. by apply elem_of_nil in Hin.
Qed.

(** A step that leaves head and claim alone. *)
Lemma inv_quiet n c i t t' vec :
  inv n c -> threads c !! i = Some t -> claim t' = claim t -> local_ok n (mHead c) t' -> zlen vec = n ->
  inv n (Config vec (mHead c) (<[i := t']> (threads c))).
Proof.
  intros HI Hi Hc Hl Hv. pose proof (inv_head _ _ HI). apply inv_move with (t := t); try done; [lia|lia|left; lia|].
  intros rest Hr. rewrite Hc. split_and!.
  - rewrite <-Hr. apply HI.
  - intros w Hw. rewrite <-Hr in Hw. by apply HI.
  - unfold zlen. rewrite <-Hr. apply HI.
Qed.

(** The slot a thread claims lies in the array, and it knows when its turn has come. *)
Lemma claim_range n c i t w : inv n c -> threads c !! i = Some t -> claim t = Some w ->
  readHead (mHead c) <= w < writeHead (mHead c).
Proof.
  intros HI Hi Hc. apply (inv_range _ _ HI). apply list_elem_of_omap. exists t. split; [by eapply list_elem_of_lookup_2|done].
Qed.

(** The step does not change what the thread claims. *)
Ltac same_claim := unfold claim; match goal with Hpc : t_pc _ = _ |- _ => by rewrite Hpc end.

Lemma claim_step n c i t vec h t' :
  n < 2 ^ 32 -> inv n c -> threads c !! i = Some t -> tstep (mVec c) (mHead c) t = Some (vec, h, t') ->
  inv n (Config vec h (<[i := t']> (threads c))).
Proof.
  intros Hn HI Hi Ht. pose proof (inv_head _ _ HI) as Hh. pose proof (inv_len _ _ HI) as Hlen.
  pose proof (Forall_lookup_1 _ _ _ _ (inv_local _ _ HI) Hi) as Hl.
  pose proof (fun w => claim_range n c i t w HI Hi) as Hcr.
  pose proof (inv_count _ _ HI) as Hcnt. pose proof (inv_range _ _ HI) as Hrg. pose proof (inv_nodup _ _ HI) as Hnd.
  unfold tstep in Ht. unfold local_ok in Hl. unfold claim in Hcr.
  destruct (t_pc t) as [| |hd|hd x|e|e hd|e hd w|hd w|hd w] eqn:Hpc.
  - destruct (t_calls t) as [|[e|] cs]; simplify_eq; apply inv_quiet with (t := t); try done; same_claim.
  - destruct (writeHead (mHead c) =? readHead (mHead c)) eqn:E; simpl in Ht;
      [destruct (readHead (mHead c) =? 0) eqn:E2|]; simplify_eq; bool_prop;
      apply inv_quiet with (t := t); try done; try (same_claim). cbn. lia.
  - destruct (mVec c !! _) as [x|]; simplify_option_eq. apply inv_quiet with (t := t); try done. same_claim.
  - destruct (decide (mHead c = hd)) as [<-|]; simplify_eq; [|apply inv_quiet with (t := t); try done; same_claim].
    assert (claims c = []) as Hnil by (destruct (claims c); [done|unfold zlen in Hcnt; simpl in Hcnt; lia]).
    apply inv_move with (t := t); try done; cbn [readHead writeHead]; rewrite ?(wrap_small 32) by lia; [lia|lia|by right|].
    intros rest Hr. rewrite Hnil in Hr. apply Permutation_nil_l in Hr. destruct (app_eq_nil _ _ (eq_sym Hr)) as [_ ->].
    simpl. split_and!; [constructor|intros w Hw; by apply elem_of_nil in Hw|unfold zlen; cbn; lia].
  - simplify_eq. apply inv_quiet with (t := t); try done; [same_claim|cbn; lia].
  - destruct (writeHead hd =? zlen (mVec c)) eqn:E; bool_prop; simplify_eq; [apply inv_quiet with (t := t); try done; same_claim|].
    destruct (decide (mHead c = hd)) as [<-|]; simplify_eq; [|apply inv_quiet with (t := t); try done; try same_claim; cbn; lia].
    apply inv_move with (t := t); try done; cbn [readHead writeHead]; rewrite ?(wrap_small 32) by lia;
      [cbn; lia|lia|lia|left; lia|].
    intros rest Hr. unfold claim in Hr. rewrite Hpc in Hr. simpl in *.
    assert (forall w, w ∈ rest -> readHead (mHead c) <= w < writeHead (mHead c)) as Hrest
      by (intros w Hw; apply Hrg; by rewrite Hr).
    split_and!.
    + constructor; [|by rewrite <-Hr]. intros Hin. apply Hrest in Hin. lia.
    + intros w [->|Hw]%elem_of_cons; [lia|]. apply Hrest in Hw. lia.
    + rewrite zlen_cons. unfold zlen in *. rewrite Hr in Hcnt. lia.
  - destruct (mVec c !! Z.to_nat w) as [x|]; simplify_eq. apply inv_quiet with (t := t); try done.
    + same_claim.
    + unfold zlen. by rewrite length_insert.
  - destruct (readHead hd =? w) eqn:E; simpl in Ht; bool_prop; simplify_eq; apply inv_quiet with (t := t); try done;
      try (same_claim); cbn; lia.
  - specialize (Hcr w eq_refl). destruct Hl as [Hw Hle]. assert (readHead (mHead c) = w) as Hturn by lia.
    destruct (decide (mHead c = hd)) as [<-|Hne]; simplify_eq; [|apply inv_quiet with (t := t); try done; try same_claim; cbn; lia].
    apply inv_move with (t := t); try done; cbn [readHead writeHead]; rewrite ?(wrap_small 32) by lia; try lia; [].
    intros rest Hr. unfold claim in Hr. rewrite Hpc in Hr. simpl in *. rewrite Hr in Hnd. inversion_clear Hnd as [|?? Hni Hnd'].
    split_and!; [done| |unfold zlen in *; rewrite Hr in Hcnt; simpl in Hcnt; lia].
    intros w Hin. assert (w <> readHead (mHead c)) by (intros ->; done).
    assert (readHead (mHead c) <= w < writeHead (mHead c)) by (apply Hrg; rewrite Hr; by right). lia.
Qed.

Lemma stack_init_inv (size : nat) (nullValue : T) progs :
  inv (Z.of_nat size) (stack_init size nullValue progs).
Proof.
  assert (claims (stack_init size nullValue progs) = []) as Hnil.
  { unfold claims, stack_init. cbn [threads]. induction progs as [|p ps IH]; [done|]. simpl. done. }
  constructor; rewrite ?Hnil.
  - unfold zlen, stack_init. cbn [mVec]. by rewrite length_replicate.
  - cbn. lia.
  - constructor.
  - intros w Hw. by apply elem_of_nil in Hw.
  - done.
  - apply Forall_lookup. intros i t Hi. cbn [threads stack_init] in Hi. rewrite list_lookup_fmap in Hi.
    destruct (progs !! i); simplify_eq/=. done.
Qed.

Lemma reachable_inv (size : nat) (nullValue : T) progs c :
  Z.of_nat size < 2 ^ 32 -> reachable (stack_init size nullValue progs) c -> inv (Z.of_nat size) c.
Proof.
  intros Hn. induction 1 as [|c i c' Hr IH Hs]; [apply stack_init_inv|]. unfold step in Hs.
  destruct (threads c !! i) as [t|] eqn:Hi; [|done]. cbn [mbind option_bind] in Hs.
  destruct (tstep (mVec c) (mHead c) t) as [[[vec h] t']|] eqn:Ht; [|done]. simplify_option_eq.
  by eapply claim_step.
Qed.

End Inv.

(** ** What the stack guarantees *)

Section Claims.
Context {T : Type}.
Implicit Types (c : config T) (t : thread T).

Lemma claims_perm n c : inv n c ->
  claims c ≡ₚ seqZ (readHead (mHead c)) (writeHead (mHead c) - readHead (mHead c)).
Proof.
  intros HI. apply submseteq_length_Permutation.
  - apply NoDup_submseteq; [apply HI|]. intros w Hw. apply elem_of_seqZ. pose proof (inv_range _ _ HI w Hw). lia.
  - rewrite length_seqZ. pose proof (inv_count _ _ HI). unfold zlen in *. lia.
Qed.

Lemma not_stuck n c i t : n < 2 ^ 32 -> inv n c -> threads c !! i = Some t -> step i c = None ->
  t_pc t = Idle /\ t_calls t = [].
Proof.
  intros Hn HI Hi Hs. unfold step in Hs. rewrite Hi in Hs. cbn [mbind option_bind] in Hs.
  destruct (tstep (mVec c) (mHead c) t) as [[[vec h] t']|] eqn:Ht; [done|]. clear Hs.
  pose proof (inv_len _ _ HI) as Hlen. pose proof (inv_head _ _ HI) as Hh.
  pose proof (Forall_lookup_1 _ _ _ _ (inv_local _ _ HI) Hi) as Hl.
  pose proof (fun w => claim_range n c i t w HI Hi) as Hcr.
  unfold tstep in Ht. unfold local_ok in Hl. unfold claim in Hcr.
  destruct (t_pc t) as [| |hd|hd x|e|e hd|e hd w|hd w|hd w] eqn:Hpc; repeat case_match; try done.
  - destruct (lookup_lt_is_Some_2 (mVec c) (Z.to_nat (u32 (readHead hd - 1)))) as [x Hx]; [|by rewrite Hx in Ht].
    rewrite (wrap_small 32) by lia. unfold zlen in *. lia.
  - specialize (Hcr w eq_refl). destruct (lookup_lt_is_Some_2 (mVec c) (Z.to_nat w)) as [x Hx]; [unfold zlen in *; lia|congruence].
Qed.

(** C35: in every interleaving of any threads' pushes and pops on a stack of fewer than 2^32
    slots, the read head never passes the write head and the write head never passes
    the capacity; the slots between them are claimed by exactly one push each, so no
    slot is written by two threads; and no access leaves the array: a thread can
    always take its next step until its calls are done. *)
Theorem stack_slots_exclusive (slots : nat) (nullValue : T) (progs : list (list (call T))) (c : config T) :
  Z.of_nat slots < 2 ^ 32 -> reachable (stack_init slots nullValue progs) c ->
  0 <= readHead (mHead c) <= writeHead (mHead c) /\ writeHead (mHead c) <= Z.of_nat slots /\
  claims c ≡ₚ seqZ (readHead (mHead c)) (writeHead (mHead c) - readHead (mHead c)) /\
  forall i t, threads c !! i = Some t -> step i c = None -> t_pc t = Idle /\ t_calls t = [].
Proof.
  intros Hn Hr. pose proof (reachable_inv _ _ _ _ Hn Hr) as HI. pose proof (inv_head _ _ HI).
  split_and!; try lia; [by eapply claims_perm|]. intros i t Hi Hs. by eapply not_stuck.
Qed.

(** Thread [i] publishes slot [w] within [n] of its own steps. *)
Definition publishes (n : nat) (i : nat) (w : Z) c : Prop :=
  exists k c', (k <= n)%nat /\ schedule (replicate k i) c = Some c' /\ readHead (mHead c') = w + 1.

Lemma publishes_step n i w c t vec h t' :
  threads c !! i = Some t -> tstep (mVec c) (mHead c) t = Some (vec, h, t') ->
  (threads (Config vec h (<[i := t']> (threads c))) !! i = Some t' ->
   publishes n i w (Config vec h (<[i := t']> (threads c)))) ->
  publishes (S n) i w c.
Proof.
  intros Hi Ht Hp. destruct Hp as (k & c' & Hk & Hs & Hr); [apply list_lookup_insert_eq; by eapply lookup_lt_Some|].
  exists (S k), c'. split_and!; [lia| |done]. cbn [replicate schedule]. unfold step. rewrite Hi. cbn [mbind option_bind].
  rewrite Ht. exact Hs.
Qed.

Lemma publishes_mono n n' i w c : (n <= n')%nat -> publishes n i w c -> publishes n' i w c.
Proof. intros Hn (k & c' & Hk & Hs & Hr). exists k, c'. split_and!; [lia|done|done]. Qed.

Section Publish.
Context {w : Z} {i : nat} (Hw : 0 <= w < 2 ^ 32 - 1).

Lemma publish_now c t : threads c !! i = Some t -> t_pc t = PushPublish (mHead c) w -> publishes 1 i w c.
Proof.
  intros Hi Hpc. eapply publishes_step; [done|unfold tstep; rewrite Hpc; by rewrite decide_True|].
  intros _. exists 0%nat. eexists. split_and!; [lia|done|]. cbn. apply (wrap_small 32). lia.
Qed.

Lemma publish_soon c t hd : threads c !! i = Some t -> t_pc t = PushPublish hd w -> publishes 2 i w c.
Proof.
  intros Hi Hpc. destruct (decide (mHead c = hd)) as [<-|Hne]; [eapply (publishes_mono 1); [lia|]; by eapply publish_now|].
  eapply publishes_step; [done|unfold tstep; rewrite Hpc; by rewrite decide_False|].
  intros Hi'. by eapply publish_now.
Qed.

Lemma wait_over c t hd : threads c !! i = Some t -> t_pc t = PushWait hd w -> readHead hd = w -> publishes 3 i w c.
Proof.
  intros Hi Hpc Hr. eapply publishes_step; [done|unfold tstep; rewrite Hpc, (proj2 (Z.eqb_eq _ _)) by done; done|].
  intros Hi'. by eapply publish_soon.
Qed.

Lemma wait_soon c t hd : threads c !! i = Some t -> t_pc t = PushWait hd w -> readHead (mHead c) = w -> publishes 4 i w c.
Proof.
  intros Hi Hpc Hr. destruct (decide (readHead hd = w)) as [He|Hne].
  { eapply (publishes_mono 3); [lia|]. by eapply wait_over. }
  eapply publishes_step; [done|unfold tstep; rewrite Hpc, (proj2 (Z.eqb_neq _ _)) by done; done|].
  intros Hi'. by eapply wait_over.
Qed.

End Publish.

Lemma publish_turn n c i t w : n < 2 ^ 32 -> inv n c -> threads c !! i = Some t ->
  claim t = Some w -> readHead (mHead c) = w -> publishes 5 i w c.
Proof.
  intros Hn HI Hi Hc Hw. pose proof (claim_range n c i t w HI Hi Hc) as Hr. pose proof (inv_head _ _ HI).
  assert (0 <= w < 2 ^ 32 - 1) as Hb by lia. unfold claim in Hc.
  destruct (t_pc t) as [| |hd|hd x|e|e hd|e hd w0|hd w0|hd w0] eqn:Hpc; simplify_eq.
  - destruct (lookup_lt_is_Some_2 (mVec c) (Z.to_nat (readHead (mHead c)))) as [x Hx];
      [pose proof (inv_len _ _ HI); unfold zlen in *; lia|].
    eapply publishes_step; [done|unfold tstep; rewrite Hpc; by rewrite Hx|].
    intros Hi'. by eapply wait_soon.
  - eapply (publishes_mono 4); [lia|]. by eapply wait_soon.
  - eapply (publishes_mono 2); [lia|]. by eapply publish_soon.
Qed.

(** pushes do not deadlock: whenever a claimed slot is unpublished, some thread
    publishes the next one within five of its own steps, whatever the others do not
    do; a [pop] that spins is waiting for such a push. *)
Theorem stack_progress (slots : nat) (nullValue : T) (progs : list (list (call T))) (c : config T) :
  Z.of_nat slots < 2 ^ 32 -> reachable (stack_init slots nullValue progs) c ->
  readHead (mHead c) < writeHead (mHead c) ->
  exists i k c', (k <= 5)%nat /\ schedule (replicate k i) c = Some c' /\
    readHead (mHead c') = readHead (mHead c) + 1.
Proof.
  intros Hn Hr Hlt. pose proof (reachable_inv _ _ _ _ Hn Hr) as HI.
  assert (readHead (mHead c) ∈ claims c) as Hin by (rewrite (claims_perm _ _ HI); apply elem_of_seqZ; lia).
  apply list_elem_of_omap in Hin as (t & Ht & Hc). apply list_elem_of_lookup_1 in Ht as (i & Hi).
  destruct (publish_turn _ c i t _ Hn HI Hi Hc eq_refl) as (k & c' & ? & ? & ?). exists i, k, c'. done.
Qed.

(** ** One call at a time *)

(** The elements of the stack, the newest last. *)
Definition contents c : list T := take (Z.to_nat (readHead (mHead c))) (mVec c).

(** Thread [i], running alone, reaches a configuration that satisfies [P]. *)
Definition alone (i : nat) c (P : config T -> Prop) : Prop :=
  exists k c', schedule (replicate k i) c = Some c' /\ P c'.

Lemma alone_now i c (P : config T -> Prop) : P c -> alone i c P.
Proof. intros Hp. by exists 0%nat, c. Qed.

Lemma alone_step i c t vec h t' (P : config T -> Prop) :
  threads c !! i = Some t -> tstep (mVec c) (mHead c) t = Some (vec, h, t') ->
  (threads (Config vec h (<[i := t']> (threads c))) !! i = Some t' -> alone i (Config vec h (<[i := t']> (threads c))) P) ->
  alone i c P.
Proof.
  intros Hi Ht Hp. destruct Hp as (k & c' & Hs & Hr); [apply list_lookup_insert_eq; by eapply lookup_lt_Some|].
  exists (S k), c'. split; [|done]. cbn [replicate schedule]. unfold step. rewrite Hi. cbn [mbind option_bind].
  rewrite Ht. exact Hs.
Qed.

(** The next step of the thread, its test decided by [tac]. *)
Ltac alone_go tac :=
  eapply alone_step; [eassumption|unfold tstep; cbn [t_pc goto t_calls t_answers mVec mHead]; tac; reflexivity|];
  cbn [mVec mHead threads]; rewrite ?list_insert_insert_eq; intros ?.

Lemma push_alone n c i e cs ans : n < 2 ^ 32 -> inv n c -> readHead (mHead c) = writeHead (mHead c) ->
  threads c !! i = Some (Thread Idle (Push e :: cs) ans) ->
  alone i c (fun c' =>
    threads c' !! i = Some (Thread Idle cs (ans ++ [Pushed (readHead (mHead c) <? n)])) /\
    contents c' = (if readHead (mHead c) <? n then contents c ++ [e] else contents c) /\
    readHead (mHead c') = writeHead (mHead c')).
Proof.
  intros Hn HI Hq Hi. pose proof (inv_head _ _ HI) as Hh. pose proof (inv_len _ _ HI) as Hlen.
  alone_go idtac. alone_go idtac. destruct (readHead (mHead c) <? n) eqn:E; bool_prop.
  2: { alone_go ltac:(rewrite (proj2 (Z.eqb_eq _ _)) by lia). apply alone_now. by split_and!. }
  alone_go ltac:(rewrite (proj2 (Z.eqb_neq _ _)), decide_True by (lia || done)).
  destruct (lookup_lt_is_Some_2 (mVec c) (Z.to_nat (writeHead (mHead c)))) as [x Hx]; [unfold zlen in *; lia|].
  alone_go ltac:(rewrite Hx). alone_go ltac:(rewrite (proj2 (Z.eqb_eq _ _)) by done).
  rewrite (wrap_small 32) in * by lia.
  alone_go ltac:(rewrite decide_False by (intros Heq; apply (f_equal writeHead) in Heq; cbn in Heq; lia)).
  alone_go ltac:(rewrite decide_True by done). apply alone_now. split_and!; [done| |cbn; rewrite (wrap_small 32); lia].
  unfold contents. cbn [mHead readHead mVec]. rewrite (wrap_small 32) by lia.
  replace (Z.to_nat (writeHead (mHead c) + 1)) with (S (Z.to_nat (writeHead (mHead c)))) by lia.
  rewrite (take_S_r _ _ e) by (apply list_lookup_insert_eq; unfold zlen in *; lia).
  rewrite take_insert_ge by lia. by rewrite Hq.
Qed.

Lemma pop_alone n c i cs ans : n < 2 ^ 32 -> inv n c -> readHead (mHead c) = writeHead (mHead c) ->
  threads c !! i = Some (Thread Idle (Pop :: cs) ans) ->
  alone i c (fun c' =>
    threads c' !! i = Some (Thread Idle cs (ans ++ [Popped (list.last (contents c))])) /\
    contents c' = removelast (contents c) /\ readHead (mHead c') = writeHead (mHead c')).
Proof.
  intros Hn HI Hq Hi. pose proof (inv_head _ _ HI) as Hh. pose proof (inv_len _ _ HI) as Hlen.
  alone_go idtac. destruct (readHead (mHead c) =? 0) eqn:E; bool_prop.
  { assert (contents c = []) as Hnil by (unfold contents; by rewrite E).
    alone_go ltac:(rewrite (proj2 (Z.eqb_eq (writeHead _) _)) by done; rewrite (proj2 (Z.eqb_eq (readHead _) 0)) by done).
    apply alone_now. rewrite Hnil. by split_and!. }
  remember (readHead (mHead c)) as r eqn:Hrd.
  destruct (lookup_lt_is_Some_2 (mVec c) (Z.to_nat (r - 1))) as [x Hx]; [unfold zlen in *; lia|].
  assert (contents c = take (Z.to_nat (r - 1)) (mVec c) ++ [x]) as Hc.
  { unfold contents. rewrite <-Hrd. replace (Z.to_nat r) with (S (Z.to_nat (r - 1))) by lia. by apply take_S_r. }
  alone_go ltac:(rewrite (proj2 (Z.eqb_eq (writeHead _) _)) by lia; rewrite (proj2 (Z.eqb_neq (readHead _) 0)) by congruence).
  alone_go ltac:(rewrite (wrap_small 32) by lia; rewrite <-Hrd, Hx).
  alone_go ltac:(rewrite decide_True by done). apply alone_now.
  rewrite Hc, last_snoc, removelast_last. split_and!; [done| |cbn; congruence].
  unfold contents. cbn [mHead readHead mVec]. rewrite (wrap_small 32) by lia. by rewrite <-Hrd.
Qed.

(** called while no push is in progress and without interference, [push] appends the
    element and returns [true], or returns [false] on a full stack and changes nothing;
    [pop] removes and returns the newest element, or returns [false] on an empty stack.
    Both return. *)
Theorem stack_lifo (slots : nat) (nullValue : T) (progs : list (list (call T))) (c : config T) (i : nat)
    (call0 : call T) (cs : list (call T)) (ans : list (answer T)) :
  Z.of_nat slots < 2 ^ 32 -> reachable (stack_init slots nullValue progs) c ->
  readHead (mHead c) = writeHead (mHead c) -> threads c !! i = Some (Thread Idle (call0 :: cs) ans) ->
  alone i c (fun c' =>
    readHead (mHead c') = writeHead (mHead c') /\
    match call0 with
    | Push e =>
        threads c' !! i = Some (Thread Idle cs (ans ++ [Pushed (size c <? Z.of_nat slots)])) /\
        contents c' = if size c <? Z.of_nat slots then contents c ++ [e] else contents c
    | Pop =>
        threads c' !! i = Some (Thread Idle cs (ans ++ [Popped (list.last (contents c))])) /\
        contents c' = removelast (contents c)
    end).
Proof.
  intros Hn Hr Hq Hi. pose proof (reachable_inv _ _ _ _ Hn Hr) as HI. destruct call0 as [e|].
  - destruct (push_alone _ c i e cs ans Hn HI Hq Hi) as (k & c' & ? & ? & ? & ?). exists k, c'. unfold size. by split_and!.
  - destruct (pop_alone _ c i cs ans Hn HI Hq Hi) as (k & c' & ? & ? & ? & ?). exists k, c'. by split_and!.
Qed.

End Claims.

(** ** The anomaly of [pop] *)

(** Two threads: one pushes 7 and pops; the other pops, then pushes 8. *)
Definition aba_start : config Z := stack_init 4 0 [[Push 7; Pop]; [Pop; Push 8]].

(** Thread 0 pushes (7 steps), starts its pop and reads the element (3 steps); thread 1 pops
    and pushes; thread 0 finishes. *)
Definition aba_schedule : list nat := replicate 10 0%nat ++ replicate 11 1%nat ++ [0%nat].

(** C37: [pop] compares only the heads, so between its read and its compare-and-swap the slot
    can be popped and refilled: both pops return the element 7, and the element 8, whose
    push succeeded, is gone. *)
Theorem stack_pop_aba :
  exists c, schedule aba_schedule aba_start = Some c /\
    t_answers <$> threads c = [[Pushed true; Popped (Some 7)]; [Popped (Some 7); Pushed true]] /\
    size c = 0.
Proof. eexists. split; [vm_compute; reflexivity|]. by split. Qed.

(** ** Witnesses *)

Lemma stack_schedule_reachable {T} (c0 : config T) is_ : forall c c', reachable c0 c -> schedule is_ c = Some c' -> reachable c0 c'.
Proof.
  induction is_ as [|i is_ IH]; intros c c' Hr Hs; cbn [schedule] in Hs; [by simplify_eq|].
  destruct (step i c) as [c1|] eqn:E; [|done]. cbn [mbind option_bind] in Hs. eapply IH; [|exact Hs].
  by eapply reach_step.
Qed.

(** Thread 0 has claimed slot 0 and not stored its element. *)
Definition demo_claimed : config Z :=
  Config [0; 0; 0; 0] (mkHead 0 1) [Thread (PushStore 7 (mkHead 0 0) 0) [Pop] []; Thread Idle [Pop; Push 8] []].

Lemma demo_claimed_reachable : reachable aba_start demo_claimed.
Proof. apply (stack_schedule_reachable _ [0%nat; 0%nat; 0%nat] aba_start); [constructor|reflexivity]. Qed.

Lemma stack_slots_exclusive_witness :
  claims demo_claimed ≡ₚ seqZ 0 (1 - 0).
Proof.
  destruct (stack_slots_exclusive 4 0 [[Push 7; Pop]; [Pop; Push 8]] demo_claimed) as (_ & _ & Hp & _);
    [reflexivity|apply demo_claimed_reachable|exact Hp].
Defined.

Lemma stack_progress_witness :
  exists i k c', (k <= 5)%nat /\ schedule (replicate k i) demo_claimed = Some c' /\ readHead (mHead c') = 0 + 1.
Proof.
  apply (stack_progress 4 0 [[Push 7; Pop]; [Pop; Push 8]] demo_claimed); [reflexivity|apply demo_claimed_reachable|reflexivity].
Defined.

Lemma stack_lifo_witness :
  alone 0 aba_start (fun c' => readHead (mHead c') = writeHead (mHead c') /\
    threads c' !! 0%nat = Some (Thread Idle [Pop] [Pushed true]) /\ contents c' = [7]).
Proof.
  apply (stack_lifo 4 0 [[Push 7; Pop]; [Pop; Push 8]] aba_start 0 (Push 7) [Pop] []);
    [reflexivity|constructor|reflexivity|reflexivity].
Defined.
