(* ===== verification/SingleConsumerQueue.v ===== *)
(** * SingleConsumerQueue

    [crossbow/singleconsumerqueue.hpp]: any number of producers and one consumer, interleaved
    at every access to shared memory.  A producer takes a position from [_insert_place],
    waits until the ring has room for it, stores its value and marks the item valid; the
    consumer takes items in position order.  [log] and [outs] record what was
    inserted, in position order, and what was read. *)

From S2P Require Import Prelude.

Section Queue.
Context {T : Type} (QueueSize : Z).

Record Item := mkItem { value : T; is_valid : bool }.

Inductive pcall := Write (x : T) | TryWrite (x : T).
Inductive ccall := Read | ReadMultiple (room : nat).

(** A producer, with the local variables of [write] and [tryWrite]. *)
Inductive ppc :=
  | PIdle
  | PWait (x : T) (pos : Z)
  | TCheck (x : T) (pos : Z)
  | TCas (x : T) (pos : Z)
  | PStore (x : T) (pos : Z)
  | PValid (pos : Z).

(** The consumer; [room] and [i] are the loop of [readMultiple]. *)
Inductive cpc :=
  | CIdle
  | CCheck
  | CMove
  | CStore
  | MLoop (room i : nat)
  | MMove (room i : nat)
  | MStore (i : nat).

Record producer := Producer { p_pc : ppc; p_calls : list pcall; p_results : list bool }.

Record qstate := QState {
  _data : list Item;
  _consumed : Z;
  _insert_place : Z;
  producers : list producer;
  consumer : cpc;
  ccalls : list ccall;
  log : list T;
  outs : list T
}.

Definition queue_init (x0 : T) (progs : list (list pcall)) (reads : list ccall) : qstate :=
  QState (replicate (Z.to_nat QueueSize) (mkItem x0 false)) SIZE_MAX 0
    (map (fun p => Producer PIdle p []) progs) CIdle reads [] [].

Definition slot (pos : Z) : nat := Z.to_nat (pos mod QueueSize).

Definition isFull (pos : Z) (s : qstate) : bool := QueueSize <=? u64 (pos - _consumed s).

(** ** Producers *)

Definition set_producer (i : nat) (p : producer) (s : qstate) : qstate :=
  QState (_data s) (_consumed s) (_insert_place s) (<[i := p]> (producers s)) (consumer s) (ccalls s) (log s) (outs s).
Definition set_data (d : list Item) (s : qstate) : qstate :=
  QState d (_consumed s) (_insert_place s) (producers s) (consumer s) (ccalls s) (log s) (outs s).
(** [_insert_place] advances and the position belongs to [x]. *)
Definition insert_at (x : T) (s : qstate) : qstate :=
  QState (_data s) (_consumed s) (u64 (_insert_place s + 1)) (producers s) (consumer s) (ccalls s) (log s ++ [x]) (outs s).

Definition pgoto (c : ppc) (p : producer) : producer := Producer c (p_calls p) (p_results p).
Definition preturn (b : bool) (p : producer) : producer := Producer PIdle (p_calls p) (p_results p ++ [b]).

Definition pstep (i : nat) (s : qstate) : option qstate :=
  p ← producers s !! i;
  match p_pc p with
  | PIdle =>
      match p_calls p with
      | [] => None
      | Write x :: cs =>
          Some (set_producer i (Producer (PWait x (_insert_place s)) cs (p_results p)) (insert_at x s))
      | TryWrite x :: cs => Some (set_producer i (Producer (TCheck x (_insert_place s)) cs (p_results p)) s)
      end
  | PWait x pos =>
      if isFull pos s then Some s else Some (set_producer i (pgoto (PStore x pos) p) s)
  | TCheck x pos =>
      if (_consumed s <? pos) && (QueueSize <=? u64 (pos - _consumed s)) then Some (set_producer i (preturn false p) s)
      else Some (set_producer i (pgoto (TCas x pos) p) s)
  | TCas x pos =>
      if _insert_place s =? pos then Some (set_producer i (pgoto (PStore x pos) p) (insert_at x s))
      else Some (set_producer i (pgoto (TCheck x (_insert_place s)) p) s)
  | PStore x pos =>
      item ← _data s !! slot pos;
      Some (set_producer i (pgoto (PValid pos) p) (set_data (<[slot pos := mkItem x (is_valid item)]> (_data s)) s))
  | PValid pos =>
      item ← _data s !! slot pos;
      Some (set_producer i (preturn true p) (set_data (<[slot pos := mkItem (value item) true]> (_data s)) s))
  end.

(** ** The consumer *)

Definition cgoto (c : cpc) (s : qstate) : qstate :=
  QState (_data s) (_consumed s) (_insert_place s) (producers s) c (ccalls s) (log s) (outs s).
Definition cstart (c : cpc) (cs : list ccall) (s : qstate) : qstate :=
  QState (_data s) (_consumed s) (_insert_place s) (producers s) c cs (log s) (outs s).
Definition emit (x : T) (s : qstate) : qstate :=
  QState (_data s) (_consumed s) (_insert_place s) (producers s) (consumer s) (ccalls s) (log s) (outs s ++ [x]).
Definition store_consumed (n : Z) (s : qstate) : qstate :=
  QState (_data s) (u64 n) (_insert_place s) (producers s) (consumer s) (ccalls s) (log s) (outs s).

Definition invalidate (pos : Z) (s : qstate) : option qstate :=
  item ← _data s !! slot pos;
  Some (set_data (<[slot pos := mkItem (value item) false]> (_data s)) s).

(** The test of [is_valid] and its reset are one step: no producer touches a valid item. *)
Definition cstep (s : qstate) : option qstate :=
  let next := u64 (_consumed s + 1) in
  match consumer s with
  | CIdle =>
      match ccalls s with
      | [] => None
      | Read :: cs =>
          if _insert_place s <=? next then Some (cstart CIdle cs s) else Some (cstart CCheck cs s)
      | ReadMultiple room :: cs => Some (cstart (MLoop room 0) cs s)
      end
  | CCheck =>
      item ← _data s !! slot next;
      if is_valid item then s ← invalidate next s; Some (cgoto CMove s) else Some (cgoto CIdle s)
  | CMove =>
      item ← _data s !! slot next;
      Some (cgoto CStore (emit (value item) s))
  | CStore => Some (cgoto CIdle (store_consumed next s))
  | MLoop room i =>
      let pos := u64 (_consumed s + 1 + Z.of_nat i) in
      item ← _data s !! slot pos;
      if negb (is_valid item) || bool_decide (room = 0%nat) then Some (cgoto (MStore i) s)
      else s ← invalidate pos s; Some (cgoto (MMove room i) s)
  | MMove room i =>
      let pos := u64 (_consumed s + Z.of_nat i + 1) in
      item ← _data s !! slot pos;
      Some (cgoto (MLoop (room - 1) (S i)) (emit (value item) s))
  | MStore i => Some (cgoto CIdle (store_consumed (_consumed s + Z.of_nat i) s))
  end.

Inductive actor := AProducer (i : nat) | AConsumer.

Definition step (a : actor) (s : qstate) : option qstate :=
  match a with AProducer i => pstep i s | AConsumer => cstep s end.

Inductive reachable (s0 : qstate) : qstate -> Prop :=
  | reach_init : reachable s0 s0
  | reach_step s a s' : reachable s0 s -> step a s = Some s' -> reachable s0 s'.

Fixpoint schedule (l : list actor) (s : qstate) : option qstate :=
  match l with
  | [] => Some s
  | a :: l => s' ← step a s; schedule l s'
  end.

End Queue.
Arguments Item : clear implicits.
Arguments pcall : clear implicits.
Arguments ppc : clear implicits.
Arguments producer : clear implicits.
Arguments qstate : clear implicits.
