(* ===== verification/SingleConsumerQueueSpec.v ===== *)
(** * SingleConsumerQueue: first in, first out

    With producers that use [write], the consumer reads exactly what was inserted, in the
    order of the positions, in every interleaving: nothing is lost, duplicated or
    overwritten while unread.  [tryWrite] does not have that property before the
    first read. *)

From S2P Require Import Prelude SingleConsumerQueue.

Section Fifo.
Context {T : Type} (N : Z) (HN : 1 <= N < 2 ^ 62).
Implicit Types (s : qstate T) (p : producer T).

Abbreviation slot := (slot N).
Abbreviation len s := (zlen (log s)).






(** ** Slots *)







(** ** The consumer's moves *)





(** ** The producers' moves *)








(** ** Every step *)















End Fifo.

(** [tryWrite] never refuses before the first [read], because [_consumed] starts at the
    largest value: on a queue of size 2 three of them succeed, the third overwrites the
    first, unread item, and the reader gets 3 and 2 where 1, 2, 3 were inserted. *)
Theorem tryWrite_overwrites :
  exists s, schedule 2 (replicate 15 (AProducer 0) ++ replicate 10 AConsumer)
      (queue_init 2 0 [[TryWrite 1; TryWrite 2; TryWrite 3]] [Read; Read; Read]) = Some s /\
    p_results <$> producers s = [[true; true; true]] /\ log s = [1; 2; 3] /\ outs s = [3; 2].
Proof. eexists. split; [vm_compute; reflexivity|]. by split_and!. Qed.




