(* ===== verification/ChunkAllocator.v ===== *)
(** * ChunkMemoryPool and ChunkAllocator

    [crossbow/ChunkAllocator.hpp] and [ChunkAllocator.cpp]: an arena that hands out memory by moving
    a pointer through chunks from [new char[]] and gives everything back at once in its
    destructor.  The chunks are remembered in a [std::vector<char*>], whose buffer comes from the
    same heap: a [push_back] may throw [std::bad_alloc] after the chunk has been allocated.  The
    blocks the pool hands out are aligned and never share a byte, their contents stay, and
    destroying the pool releases everything but the chunks the vector could not take. *)

From S2P Require Import Prelude Memory ByteBuffer.

(** ** [std::vector<char*>]

    The elements, the block that holds them and the number of elements it has room for. *)
Record vec := Vec {
  v_buf : Z;
  v_cap : Z;
  v_items : list Z
}.

Definition sizeof_ptr : Z := 8.

Record pool := Pool {
  mChunkSize : Z;
  mCurrent : Z;
  mEnd : Z;
  mChunks : vec
}.

Definition CHUNK_DEFAULT_SIZE : Z := 1 * 1024 * 1024.

(** The heap and the pool object. *)
Notation PoolM := (St (mem * pool)).

Definition on_heap {A} (c : St mem A) : PoolM A := fun s =>
  match c s.1 with
  | Ok a m => Ok a (m, s.2)
  | Throw e m => Throw e (m, s.2)
  | UB => UB
  | NoFuel => NoFuel
  end.
Definition get_pool : PoolM pool := fun s => Ok s.2 s.
Definition put_pool (p : pool) : PoolM unit := fun s => Ok tt (s.1, p).

(** [delete[] c]. *)
Definition delete_chunk (c : Z) : St mem unit := fun m =>
  match blocks m !! c with Some n => deallocate c n m | None => UB end.

Section Pool.
Context `{Allocator}.

(** The vector made from the list [{x}]. *)
Definition vec_of (x : Z) : St mem vec :=
  let! b := allocate (sizeof_ptr * 1) in
  ret (Vec b 1 [x]).

(** [push_back]: a full vector moves to a block of twice the size before it takes the
    element; when there is none it is left as it was. *)
Definition vec_push_back (v : vec) (x : Z) : St mem vec :=
  if zlen (v_items v) <? v_cap v then ret (Vec (v_buf v) (v_cap v) (v_items v ++ [x]))
  else
    let cap := zlen (v_items v) + Z.max 1 (zlen (v_items v)) in
    let! b := allocate (sizeof_ptr * cap) in
    do! deallocate (v_buf v) (sizeof_ptr * v_cap v) in
    ret (Vec b cap (v_items v ++ [x])).

Definition vec_destroy (v : vec) : St mem unit := deallocate (v_buf v) (sizeof_ptr * v_cap v).

Definition ChunkMemoryPool (chunkSize : Z) : St mem pool :=
  let! c := allocate chunkSize in
  let! v := vec_of c in
  ret (Pool chunkSize c (u64 (c + chunkSize)) v).

(** [mChunks.push_back(c)]. *)
Definition push_chunk (c : Z) : PoolM unit :=
  let! p := get_pool in
  let! v := on_heap (vec_push_back (mChunks p) c) in
  put_pool (Pool (mChunkSize p) (mCurrent p) (mEnd p) v).

Definition appendNewChunk : PoolM unit :=
  let! p := get_pool in
  let! c := on_heap (allocate (mChunkSize p)) in
  do! put_pool (Pool (mChunkSize p) c (u64 (c + mChunkSize p)) (mChunks p)) in
  push_chunk c.

(** Takes the block at [mCurrent]. *)
Definition bump (size : Z) : PoolM Z :=
  let! p := get_pool in
  do! put_pool (Pool (mChunkSize p) (align_ptr (u64 (mCurrent p + size)) 8) (mEnd p) (mChunks p)) in
  ret (mCurrent p).

Definition pool_allocate (size : Z) : PoolM Z :=
  let! p := get_pool in
  if mEnd p <? u64 (mCurrent p + size) then
    if mChunkSize p <? size then
      let! res := on_heap (allocate size) in
      do! push_chunk res in
      ret res
    else do! appendNewChunk in bump size
  else bump size.

(** [ChunkAllocator<T>::allocate(n)]. *)
Definition chunk_allocate (sizeof_T n : Z) : PoolM Z := pool_allocate (u64 (sizeof_T * n)).
(** [ChunkAllocator<T>::deallocate] and [ChunkObject::operator delete]. *)
Definition chunk_deallocate (p n : Z) : PoolM unit := ret tt.

Fixpoint delete_chunks (l : list Z) : St mem unit :=
  match l with
  | [] => ret tt
  | c :: l => do! delete_chunk c in delete_chunks l
  end.

(** [~ChunkMemoryPool()], with the destructor of its member. *)
Definition destroy_pool (p : pool) : St mem unit :=
  do! delete_chunks (v_items (mChunks p)) in
  vec_destroy (mChunks p).

(** A client that asks for a block for each of the given byte strings and writes the string
    into it; it goes on after [std::bad_alloc]. *)
Definition save (data : list Z) : PoolM (option Z) := fun s =>
  match (let! q := pool_allocate (zlen data) in do! on_heap (store_bytes q data) in ret q) s with
  | Ok q s => Ok (Some q) s
  | Throw BadAlloc s => Ok None s
  | Throw e s => Throw e s
  | UB => UB
  | NoFuel => NoFuel
  end.

Fixpoint save_all (datas : list (list Z)) : PoolM (list (option Z)) :=
  match datas with
  | [] => ret []
  | d :: ds => let! r := save d in let! rs := save_all ds in ret (r :: rs)
  end.

End Pool.

(** ** A heap with some blocks more *)

(** No byte belongs to both blocks. *)
Definition apart (b b' : Z * Z) : Prop :=
  forall a, b.1 <= a < b.1 + b.2 -> b'.1 <= a < b'.1 + b'.2 -> False.

(** The byte lies in one of the blocks [l]. *)
Definition covered (m : mem) (l : list Z) (a : Z) : Prop :=
  exists c n, c ∈ l /\ blocks m !! c = Some n /\ c <= a < c + n.

(** [m] is [m0] and the blocks [l], which are new and apart from each other. *)
Record heap_plus (m0 m : mem) (l : list Z) : Prop := {
  hp_nodup : NoDup l;
  hp_blocks : forall c, (c ∈ l -> blocks m0 !! c = None) /\ (c ∉ l -> blocks m !! c = blocks m0 !! c);
  hp_bytes : forall a, (covered m l a -> bytes m0 !! a = None) /\ (~ covered m l a -> bytes m !! a = bytes m0 !! a);
  hp_live : forall c, c ∈ l -> exists n, blocks m !! c = Some n /\ 0 <= n /\
    forall a, c <= a < c + n -> is_Some (bytes m !! a);
  hp_apart : forall c c' n n', c ∈ l -> c' ∈ l -> c <> c' ->
    blocks m !! c = Some n -> blocks m !! c' = Some n' -> apart (c, n) (c', n')
}.

(** What was in memory is still there. *)
Definition grows (m m' : mem) : Prop :=
  (forall a b, bytes m !! a = Some b -> bytes m' !! a = Some b) /\
  (forall c n, blocks m !! c = Some n -> blocks m' !! c = Some n).

Lemma covered_dec m (l : list Z) a : Decision (covered m l a).
Proof.
  pose (P := fun c => match blocks m !! c with Some n => c <= a < c + n | None => False end).
  assert (forall c, Decision (P c)) as HP by (intros c; unfold P; destruct (blocks m !! c); apply _).
  destruct (decide (Exists P l)) as [Hx|Hx]; rewrite list.Exists_exists in Hx; unfold P in Hx; [left|right].
  - destruct Hx as (c & Hc & Hr). destruct (blocks m !! c) as [n|] eqn:E; [|done]. by exists c, n.
  - intros (c & n & Hc & Hn & Hr). apply Hx. exists c. by rewrite Hn.
Defined.

Lemma heap_plus_refl m : heap_plus m m [].
Proof.
  split; try done; try (intros; set_solver).
  - apply NoDup_nil_2.
  - intros a. split; [|done]. intros (c & n & Hc & _). set_solver.
Qed.

Lemma heap_plus_nil m0 m : heap_plus m0 m [] -> bytes m = bytes m0 /\ blocks m = blocks m0.
Proof.
  intros HI. split; apply map_eq; intros a.
  - apply (hp_bytes _ _ _ HI). intros (c & n & Hc & _). set_solver.
  - apply (hp_blocks _ _ _ HI). set_solver.
Qed.

Lemma heap_plus_grows m0 m l : heap_plus m0 m l -> grows m0 m.
Proof.
  intros HI. split.
  - intros a b Ha. destruct (hp_bytes _ _ _ HI a) as [H1 H2]. destruct (covered_dec m l a) as [Hx|Hx].
    + rewrite (H1 Hx) in Ha. done.
    + by rewrite (H2 Hx).
  - intros c n Hc. destruct (hp_blocks _ _ _ HI c) as [H1 H2]. destruct (decide (c ∈ l)) as [Hx|Hx].
    + rewrite (H1 Hx) in Hc. done.
    + by rewrite (H2 Hx).
Qed.

Lemma heap_plus_perm m0 m l l' : Permutation l l' -> heap_plus m0 m l -> heap_plus m0 m l'.
Proof.
  intros Hp [H1 H2 H3 H4 H5]. assert (forall a, covered m l' a <-> covered m l a) as Hc
    by (intros a; unfold covered; by setoid_rewrite Hp).
  split; try (setoid_rewrite <-Hp; done).
  intros a. rewrite Hc. apply H3.
Qed.

#[global] Instance heap_plus_proper m0 m : Proper (Permutation ==> iff) (heap_plus m0 m).
Proof. intros l l' Hl. split; by apply heap_plus_perm. Qed.

(** Writing into the new blocks. *)
Lemma heap_plus_upd m0 m l p d : heap_plus m0 m l -> (forall a, p <= a < p + zlen d -> covered m l a) ->
  heap_plus m0 (upd m p d) l.
Proof.
  intros [H1 H2 H3 H4 H5] Hd. split; try done.
  - intros a. change (covered (upd m p d) l a) with (covered m l a). split; [apply H3|]. intros Hx.
    rewrite lookup_upd, decide_False; [by apply H3|]. auto.
  - intros c Hc. destruct (H4 c Hc) as (n & Hn & Hn0 & Hmap). exists n. split_and!; [done..|].
    intros a Ha. rewrite lookup_upd. case_decide; [|by apply Hmap]. apply lookup_lt_is_Some. unfold zlen in *. lia.
Qed.

Lemma heap_plus_free m0 m c l n k : heap_plus m0 m (c :: l) -> blocks m !! c = Some n ->
  exists m', deallocate c k m = Ok tt m' /\ heap_plus m0 m' l /\
    (forall d, d <> c -> blocks m' !! d = blocks m !! d) /\
    (forall a, ~ (c <= a < c + n) -> bytes m' !! a = bytes m !! a).
Proof.
  intros [H1 H2 H3 H4 H5] Hc. apply list.NoDup_cons in H1 as [Hnew H1].
  destruct (H4 c ltac:(set_solver)) as (n' & Hn' & Hn0 & _). simplify_eq.
  unfold deallocate. rewrite Hc. eexists. split; [done|].
  assert (forall d, d <> c -> delete c (blocks m) !! d = blocks m !! d) as Hsame by (intros; by rewrite lookup_delete_ne).
  assert (forall a, covered m (c :: l) a <-> c <= a < c + n \/ covered m l a) as Hcov.
  { intros a. unfold covered. split.
    - intros (d & j & [->|Hd]%elem_of_cons & Hj & Hr); [simplify_eq; by left|right; eauto].
    - intros [Hr|(d & j & Hd & Hj & Hr)]; [exists c, n; set_solver|exists d, j; set_solver]. }
  assert (forall a, covered (Mem (del_range (bytes m) c (Z.to_nat n)) (delete c (blocks m)) ((c, n, k) :: freed m)) l a <->
    covered m l a) as Hcov'.
  { intros a. unfold covered. cbn [blocks]. split; intros (d & j & Hd & Hj & Hr); exists d, j; split_and!; try done; try lia;
      (rewrite Hsame in * || rewrite Hsame); congruence. }
  assert (forall a, c <= a < c + n -> ~ covered m l a) as Hdis.
  { intros a Ha (d & j & Hd & Hj & Hr). eapply (H5 c d n j); [set_solver|set_solver|congruence|done|done| |]; cbn; eauto. }
  split_and!; [split| |]; cbn [bytes blocks].
  - done.
  - intros d. destruct (H2 d) as [Ha Hb]. split; [set_solver|]. intros Hd. destruct (decide (d = c)) as [->|Hne].
    + rewrite lookup_delete_eq. symmetry. apply Ha. set_solver.
    + rewrite Hsame by done. apply Hb. set_solver.
  - intros a. destruct (H3 a) as [Ha Hb]. rewrite lookup_del_range, Hcov'. split; [intros Hx; apply Ha, Hcov; by right|].
    intros Hx. case_decide as Hr.
    + symmetry. apply Ha, Hcov. left. lia.
    + apply Hb. rewrite Hcov. intros [?|?]; [lia|done].
  - intros d Hd. assert (d <> c) by congruence. destruct (H4 d ltac:(set_solver)) as (j & Hj & Hj0 & Hmap).
    exists j. rewrite Hsame by done. split_and!; [done..|]. intros a Ha. rewrite lookup_del_range, decide_False; [by apply Hmap|].
    intros Hr. apply (Hdis a); [lia|]. exists d, j. auto.
  - intros d d' j j' Hd Hd' Hne Hj Hj'. rewrite Hsame in Hj, Hj' by congruence. eapply H5; set_solver.
  - intros d Hd. by apply Hsame.
  - intros a Ha. rewrite lookup_del_range, decide_False; [done|lia].
Qed.

(** Destroying the chunks of a pool. *)
Lemma delete_chunks_ok m0 m l k : heap_plus m0 m (l ++ k) ->
  exists m', delete_chunks l m = Ok tt m' /\ heap_plus m0 m' k /\ forall d, d ∉ l -> blocks m' !! d = blocks m !! d.
Proof.
  revert m. induction l as [|c l IH]; intros m HI; [by exists m|].
  destruct (hp_live _ _ _ HI c) as (n & Hn & _); [set_solver|].
  destruct (heap_plus_free _ _ _ _ n n HI Hn) as (m1 & Hrun & HI1 & Hb & _).
  destruct (IH _ HI1) as (m2 & Hrun2 & HI2 & Hb2). exists m2. split_and!; [|done|].
  - cbn [delete_chunks]. unfold bind, delete_chunk. rewrite Hn, Hrun. exact Hrun2.
  - intros d Hd. rewrite Hb2 by set_solver. apply Hb. set_solver.
Qed.

Section Pool_invariant.
Context `{Allocator}.

Lemma new_block_bytes m p n a : 0 <= n ->
  bytes (new_block m p n) !! a = if decide (p <= a < p + n) then Some (alloc_init a) else bytes m !! a.
Proof.
  intros Hn. cbn [bytes new_block]. rewrite lookup_write_bytes. unfold zlen.
  rewrite length_map, length_seqZ_nat, Z2Nat.id by done. case_decide as Hd; [|done].
  rewrite list_lookup_fmap, lookup_seqZ_lt by lia. cbn. do 2 f_equal. lia.
Qed.

Lemma new_block_grows m p n : alloc_pick m n = Some p -> 0 <= n -> grows m (new_block m p n).
Proof.
  intros Hp Hn. destruct (alloc_fresh _ _ _ Hp Hn) as (_ & _ & _ & Hb & Hf). split.
  - intros a b Ha. rewrite new_block_bytes by done. case_decide; [|done]. by rewrite Hf in Ha.
  - intros c k Hc. cbn. rewrite lookup_insert_ne; [done|congruence].
Qed.

Lemma pick_aligned m n c : alloc_pick m n = Some c -> 0 <= n -> 0 < c /\ c mod 8 = 0.
Proof.
  intros Hc Hn. destruct (alloc_fresh _ _ _ Hc Hn) as (Hp & _ & Hal & _). split; [done|].
  apply Z.mod_divide in Hal as [x ->]; [|lia]. apply Z.mod_divide; [lia|exists (x * 2); lia].
Qed.

(** A fresh block is apart from the blocks there are. *)
Lemma pick_apart m0 m l n c d k : heap_plus m0 m l -> alloc_pick m n = Some c -> 0 <= n ->
  d ∈ l -> blocks m !! d = Some k -> d <> c /\ apart (d, k) (c, n).
Proof.
  intros HI Hc Hn Hd Hk. destruct (alloc_fresh _ _ _ Hc Hn) as (_ & _ & _ & Hb & Hf). split; [congruence|].
  intros a Ha1 Ha2. destruct (hp_live _ _ _ HI _ Hd) as (k' & Hk' & _ & Hmap). simplify_eq.
  destruct (Hmap a Ha1) as [b Hab]. by rewrite Hf in Hab.
Qed.

Lemma heap_plus_new m0 m l n c : heap_plus m0 m l -> alloc_pick m n = Some c -> 0 <= n ->
  heap_plus m0 (new_block m c n) (c :: l).
Proof.
  intros HI Hc Hn. pose proof (fun d k => pick_apart _ _ _ _ _ d k HI Hc Hn) as Hap.
  destruct (alloc_fresh _ _ _ Hc Hn) as (_ & _ & _ & Hb & Hf).
  pose proof (new_block_grows _ _ _ Hc Hn) as [Hgb Hgk]. pose proof HI as [H1 H2 H3 H4 H5].
  assert (c ∉ l) as Hnew. { intros Hin. destruct (H4 _ Hin) as (k & Hk & _). congruence. }
  assert (blocks (new_block m c n) !! c = Some n) as Hself by (cbn; apply lookup_insert_eq).
  assert (forall d, d <> c -> blocks (new_block m c n) !! d = blocks m !! d) as Hsame by (intros; cbn; by rewrite lookup_insert_ne).
  assert (forall a, covered (new_block m c n) (c :: l) a <-> c <= a < c + n \/ covered m l a) as Hcov.
  { intros a. unfold covered. split.
    - intros (d & j & [->|Hd]%elem_of_cons & Hj & Hr); [left; congruence|right].
      exists d, j. rewrite <-Hsame by congruence. auto.
    - intros [Hr|(d & j & Hd & Hj & Hr)]; [exists c, n; set_solver|].
      exists d, j. rewrite Hsame by congruence. set_solver. }
  split.
  - by apply list.NoDup_cons.
  - intros d. destruct (H2 d) as [Ha Hb']. split.
    + intros [->|Hd]%elem_of_cons; [|auto]. rewrite <-Hb' by done. done.
    + intros [Hne Hd]%not_elem_of_cons. rewrite Hsame by done. auto.
  - intros a. destruct (H3 a) as [Ha Hb']. rewrite Hcov, new_block_bytes by done. split.
    + intros [Hr|Hx]; [|auto]. destruct (covered_dec m l a) as [Hx|Hx]; [auto|]. rewrite <-Hb' by done. auto.
    + intros Hno. rewrite decide_False by tauto. apply Hb'. tauto.
  - intros d [->|Hd]%elem_of_cons.
    + exists n. split_and!; [done..|]. intros a Ha. rewrite new_block_bytes, decide_True by done. eauto.
    + destruct (H4 d Hd) as (k & Hk & Hk0 & Hmap). exists k. split_and!; [by apply Hgk|done|].
      intros a Ha. destruct (Hmap a Ha) as [b Hab]. exists b. by apply Hgb.
  - intros d d' k k' [->|Hd]%elem_of_cons [->|Hd']%elem_of_cons Hne Hk Hk'; [done|..].
    + rewrite Hself in Hk. rewrite Hsame in Hk' by congruence. simplify_eq. intros a Ha1 Ha2.
      by eapply (proj2 (Hap _ _ Hd' Hk')).
    + rewrite Hself in Hk'. rewrite Hsame in Hk by congruence. simplify_eq. by apply Hap.
    + rewrite Hsame in Hk, Hk' by congruence. eauto.
Qed.

(** ** The invariant of a pool

    [leaked] are the chunks that were allocated and that the vector could not take, [given]
    the blocks the pool has handed out, with what their owner wrote into them. *)

Definition in_chunk (m : mem) (l : list Z) (b : Z * Z) : Prop :=
  exists c n, c ∈ l /\ blocks m !! c = Some n /\ c <= b.1 /\ b.1 + b.2 <= c + n.

Definition chunks (p : pool) (leaked : list Z) : list Z := v_items (mChunks p) ++ leaked.

(** The block a byte string was written to. *)
Definition extent (b : Z * list Z) : Z * Z := (b.1, zlen b.2).

(** The bytes the next block is taken from. *)
Definition unused (p : pool) (a : Z) : Prop := mCurrent p <= a < mEnd p.

Record pool_inv (m0 m : mem) (p : pool) (leaked : list Z) (given : list (Z * list Z)) : Prop := {
  pi_heap : heap_plus m0 m (v_buf (mChunks p) :: chunks p leaked);
  pi_vec : 0 <= v_cap (mChunks p) /\ blocks m !! v_buf (mChunks p) = Some (sizeof_ptr * v_cap (mChunks p));
  pi_size : 0 <= mChunkSize p;
  pi_chunk : in_chunk m (chunks p leaked) (mEnd p - mChunkSize p, mChunkSize p);
  pi_cur : mEnd p - mChunkSize p <= mCurrent p < mEnd p + 8 /\ mCurrent p mod 8 = 0;
  pi_end : 0 < mEnd p - mChunkSize p /\ mEnd p < 2 ^ 63;
  pi_given : forall b, b ∈ given -> b.1 mod 8 = 0 /\ in_chunk m (chunks p leaked) (extent b) /\ pts m b.1 b.2 /\
    forall a, b.1 <= a < b.1 + zlen b.2 -> ~ unused p a;
  pi_apart : ForallOrdPairs (fun b b' => apart (extent b) (extent b')) given
}.

(** The heap may change in any way that keeps the chunks and their bytes. *)
Lemma inv_heap m0 m m' p p' leaked leaked' given :
  pool_inv m0 m p leaked given ->
  heap_plus m0 m' (v_buf (mChunks p') :: chunks p' leaked') ->
  0 <= v_cap (mChunks p') /\ blocks m' !! v_buf (mChunks p') = Some (sizeof_ptr * v_cap (mChunks p')) ->
  (forall c, c ∈ chunks p leaked -> c ∈ chunks p' leaked' /\ blocks m' !! c = blocks m !! c) ->
  (forall a, covered m (chunks p leaked) a -> bytes m' !! a = bytes m !! a) ->
  mChunkSize p' = mChunkSize p -> mCurrent p' = mCurrent p -> mEnd p' = mEnd p ->
  pool_inv m0 m' p' leaked' given.
Proof.
  intros HI Hheap Hvec Hb Hy Hcs Hcur Hend.
  assert (forall b, in_chunk m (chunks p leaked) b -> in_chunk m' (chunks p' leaked') b) as Hin.
  { intros b (c & n & Hc & Hn & Hr). destruct (Hb c Hc) as [Hc' Hbc]. exists c, n. by rewrite Hbc. }
  destruct HI as [_ _ H3 H4 H5 H6 H7 H8].
  split; rewrite ?Hcs, ?Hcur, ?Hend; auto.
  intros b Hg. destruct (H7 b Hg) as (Ha & Hc & Hp & Hu). split_and!; [done|auto| |].
  - intros i x Hi. rewrite Hy; [by apply Hp|]. destruct Hc as (c & n & Hc & Hn & Hr1 & Hr2). exists c, n.
    apply lookup_lt_Some in Hi. unfold extent, zlen in *. cbn [fst snd] in *. split_and!; [done..|lia|lia].
  - unfold unused. by rewrite Hcur, Hend.
Qed.

(** The next block starts further on. *)
Lemma inv_advance m0 m p leaked given cur en :
  pool_inv m0 m p leaked given ->
  in_chunk m (chunks p leaked) (en - mChunkSize p, mChunkSize p) ->
  en - mChunkSize p <= cur < en + 8 /\ cur mod 8 = 0 -> 0 < en - mChunkSize p /\ en < 2 ^ 63 ->
  (forall b a, b ∈ given -> b.1 <= a < b.1 + zlen b.2 -> ~ (cur <= a < en)) ->
  pool_inv m0 m (Pool (mChunkSize p) cur en (mChunks p)) leaked given.
Proof.
  intros [H1 H2 H3 H4 H5 H6 H7 H8] Hin Hcur Hen Hg. split; cbn [mChunks mChunkSize mCurrent mEnd]; try done.
  intros b Hb. destruct (H7 b Hb) as (Ha & Hc & Hp & Hu). split_and!; [done..|].
  intros a Hr. by apply (Hg b a).
Qed.
End Pool_invariant.

Section Pool_operations.
Context `{Allocator} (m0 : mem).

(** A chunk from the heap that is not in the vector yet. *)
Lemma inv_new_chunk m p leaked given c n :
  pool_inv m0 m p leaked given -> alloc_pick m n = Some c -> 0 <= n ->
  pool_inv m0 (new_block m c n) p (c :: leaked) given.
Proof.
  intros HI Hc Hn. pose proof (new_block_grows _ _ _ Hc Hn) as [Hgb Hgk]. pose proof (pi_heap _ _ _ _ _ HI) as Hh.
  eapply inv_heap; [exact HI|..]; try done.
  - eapply heap_plus_perm; [|by eapply heap_plus_new]. unfold chunks. solve_Permutation.
  - destruct (pi_vec _ _ _ _ _ HI) as [? Hb]. split; [done|]. by apply Hgk.
  - intros d Hd. split; [unfold chunks in *; set_solver|].
    destruct (hp_live _ _ _ Hh d) as (k & Hk & _); [set_solver|]. by rewrite Hk, (Hgk _ _ Hk).
  - intros a (d & k & Hd & Hk & Hr). destruct (hp_live _ _ _ Hh d) as (k' & Hk' & _ & Hmap); [set_solver|]. simplify_eq.
    destruct (Hmap a Hr) as [b Hb]. by rewrite Hb, (Hgb _ _ Hb).
Qed.

(** The vector takes the chunk, or throws and leaves everything as it is. *)
Lemma push_chunk_ok m p c leaked given : pool_inv m0 m p (c :: leaked) given ->
  wpx (push_chunk c) (m, p)
    (fun _ s => pool_inv m0 s.1 s.2 leaked given /\ c ∈ v_items (mChunks s.2) /\
       (forall d, d ∈ chunks p (c :: leaked) -> blocks s.1 !! d = blocks m !! d) /\
       mChunkSize s.2 = mChunkSize p /\ mCurrent s.2 = mCurrent p /\ mEnd s.2 = mEnd p)
    (fun e s => e = BadAlloc /\ s = (m, p)).
Proof.
  intros HI. pose proof (pi_heap _ _ _ _ _ HI) as Hh. pose proof (pi_vec _ _ _ _ _ HI) as [Hcap Hbuf].
  assert (v_buf (mChunks p) ∉ chunks p (c :: leaked)) as Hnb by (apply list.NoDup_cons; apply (hp_nodup _ _ _ Hh)).
  assert (Permutation (chunks p (c :: leaked)) ((v_items (mChunks p) ++ [c]) ++ leaked)) as Hperm
    by (unfold chunks; solve_Permutation).
  unfold wpx, push_chunk, vec_push_back, bind, get_pool, on_heap, put_pool. cbn [fst snd].
  destruct (_ <? _).
  { cbn. split_and!; try done; [|set_solver]. eapply inv_heap; [exact HI|..]; cbn [mChunks v_buf v_cap]; try done.
    - unfold chunks at 1. cbn [mChunks v_items]. by rewrite <-Hperm.
    - unfold chunks at 2. cbn [mChunks v_items]. intros d. by rewrite <-Hperm. }
  unfold allocate. set (cap := zlen (v_items (mChunks p)) + Z.max 1 (zlen (v_items (mChunks p)))).
  assert (0 <= cap) as Hcap' by (unfold cap, zlen; lia).
  destruct (alloc_pick m (sizeof_ptr * cap)) as [b|] eqn:Ep; [|done].
  assert (0 <= sizeof_ptr * cap) as Hsz by (unfold sizeof_ptr; lia).
  pose proof (new_block_grows _ _ _ Ep Hsz) as [Hgb Hgk].
  pose proof (heap_plus_new _ _ _ _ _ Hh Ep Hsz) as Hh1.
  assert (Permutation (b :: v_buf (mChunks p) :: chunks p (c :: leaked))
    (v_buf (mChunks p) :: b :: (v_items (mChunks p) ++ [c]) ++ leaked)) as Hp1
    by (rewrite <-Hperm; apply perm_swap).
  assert (b ∉ v_buf (mChunks p) :: chunks p (c :: leaked)) as Hbn by (apply list.NoDup_cons; apply (hp_nodup _ _ _ Hh1)).
  apply (heap_plus_perm _ _ _ _ Hp1) in Hh1.
  destruct (heap_plus_free _ _ _ _ _ (sizeof_ptr * v_cap (mChunks p)) Hh1 (Hgk _ _ Hbuf)) as (m' & -> & Hh2 & Hbl & Hby).
  cbn. assert (forall d, d ∈ chunks p (c :: leaked) -> blocks m' !! d = blocks m !! d) as Hsame.
  { intros d Hd. rewrite Hbl by congruence. destruct (hp_live _ _ _ Hh d) as (k & Hk & _); [set_solver|].
    by rewrite Hk, (Hgk _ _ Hk). }
  split_and!; try done; [|set_solver]. eapply inv_heap; [exact HI|..]; cbn [mChunks v_buf v_cap]; try done.
  - split; [done|]. rewrite Hbl by set_solver. cbn. apply lookup_insert_eq.
  - intros d Hd. split; [|by apply Hsame]. unfold chunks. cbn [mChunks v_items]. by rewrite <-Hperm.
  - intros a (d & k & Hd & Hk & Hr). destruct (hp_live _ _ _ Hh d) as (k' & Hk' & _ & Hmap); [set_solver|]. simplify_eq.
    destruct (Hmap a Hr) as [x Hx]. rewrite Hby; [by rewrite Hx, (Hgb _ _ Hx)|]. intros Hr'.
    eapply (hp_apart _ _ _ Hh d (v_buf (mChunks p))); [set_solver|set_solver|congruence|done|done|exact Hr|exact Hr'].
Qed.

(** A block that may be handed out. *)
Definition free_block (m : mem) (p : pool) (leaked : list Z) (given : list (Z * list Z)) (q size : Z) : Prop :=
  q mod 8 = 0 /\ in_chunk m (chunks p leaked) (q, size) /\ (forall b, b ∈ given -> apart (q, size) (extent b)) /\
  forall a, q <= a < q + size -> ~ unused p a.

(** Its owner writes to it. *)
Lemma inv_give m p leaked given q d :
  pool_inv m0 m p leaked given -> free_block m p leaked given q (zlen d) ->
  store_bytes q d m = Ok tt (upd m q d) /\ pool_inv m0 (upd m q d) p leaked ((q, d) :: given).
Proof.
  intros HI (H8 & Hin & Hap & Hu). pose proof HI as [Hh Hv Hs Hc Hcur He Hg Hap'].
  assert (forall a, q <= a < q + zlen d -> covered m (v_buf (mChunks p) :: chunks p leaked) a) as Hcov.
  { intros a Ha. destruct Hin as (c & n & Hc' & Hn & Hr1 & Hr2). cbn in *. exists c, n. split_and!; [set_solver|done|lia|lia]. }
  split.
  { destruct Hin as (c & n & Hc' & Hn & Hr1 & Hr2). cbn in Hr1, Hr2.
    destruct (hp_live _ _ _ Hh c) as (n' & Hn' & _ & Hmap); [set_solver|]. simplify_eq.
    assert (exists d0, length d0 = length d /\ pts m q d0) as (d0 & Hl & Hd0); [|by eapply store_bytes_ok].
    exists (map (fun i => default 0 (bytes m !! (q + i))) (seqZ 0 (zlen d))).
    rewrite length_map, length_seqZ_nat by (unfold zlen; lia). split; [unfold zlen; lia|].
    intros i x Hi. rewrite list_lookup_fmap in Hi. apply fmap_Some in Hi as (z & Hz & ->).
    apply lookup_seqZ in Hz as [-> Hz]. destruct (Hmap (q + (0 + Z.of_nat i))) as [x Hx]; [lia|]. cbn in *. by rewrite Hx. }
  split; try done; [by apply heap_plus_upd| |].
  - intros b [->|Hb]%elem_of_cons; cbn [fst snd].
    + split_and!; [done|done|apply pts_upd_same|done].
    + destruct (Hg b Hb) as (Hb8 & Hbin & Hbp & Hbu). split_and!; [done|done| |done].
      intros i x Hi. rewrite lookup_upd, decide_False; [by apply Hbp|]. intros Hr.
      apply (Hap b Hb (b.1 + Z.of_nat i)); cbn; [lia|]. apply lookup_lt_Some in Hi. unfold zlen. lia.
  - constructor; [|done]. apply list.Forall_forall. intros b Hb. by apply Hap.
Qed.

Lemma bump_ok m p leaked given size :
  pool_inv m0 m p leaked given -> 0 <= size -> mCurrent p + size <= mEnd p ->
  exists p', bump size (m, p) = Ok (mCurrent p) (m, p') /\ pool_inv m0 m p' leaked given /\
    free_block m p' leaked given (mCurrent p) size.
Proof.
  intros HI Hs Hfit. pose proof (pi_end _ _ _ _ _ HI) as [? ?]. pose proof (pi_cur _ _ _ _ _ HI) as [Hc Hc8].
  pose proof (pi_size _ _ _ _ _ HI).
  exists (Pool (mChunkSize p) (align_ptr (u64 (mCurrent p + size)) 8) (mEnd p) (mChunks p)). split; [done|].
  rewrite (u64_small (mCurrent p + size)) by lia. change 8 with (2 ^ 3). rewrite align_ptr_round_up by lia. change (2 ^ 3) with 8.
  pose proof (round_up_bounds (mCurrent p + size) 8 ltac:(lia)) as Hr. split; [|split_and!].
  - apply inv_advance; try done; [apply (pi_chunk _ _ _ _ _ HI)|split; [lia|apply round_up_mod; lia]|].
    intros b a Hb Ha. destruct (pi_given _ _ _ _ _ HI b Hb) as (_ & _ & _ & Hu). specialize (Hu a Ha). unfold unused in Hu. lia.
  - done.
  - destruct (pi_chunk _ _ _ _ _ HI) as (c & n & Hin & Hn & Hr1 & Hr2). cbn in Hr1, Hr2. exists c, n. cbn. split_and!; [done..|lia|lia].
  - intros b Hb a Ha1 Ha2. destruct (pi_given _ _ _ _ _ HI b Hb) as (_ & _ & _ & Hu). cbn in Ha1. specialize (Hu a Ha2). unfold unused in Hu. lia.
  - intros a Ha. unfold unused. cbn. lia.
Qed.

(** A new chunk meets none of the blocks that were handed out. *)
Lemma chunk_apart m p leaked given c n b : pool_inv m0 m p leaked given -> alloc_pick m n = Some c -> 0 <= n ->
  b ∈ given -> apart (c, n) (extent b).
Proof.
  intros HI Hc Hn Hb a Ha1 Ha2. destruct (pi_given _ _ _ _ _ HI b Hb) as (_ & (d & k & Hd & Hk & Hr1 & Hr2) & _).
  destruct (pick_apart _ _ _ _ _ d k (pi_heap _ _ _ _ _ HI) Hc Hn) as [_ Hap]; [set_solver|done|].
  apply (Hap a); cbn in *; lia.
Qed.

(** Addresses lie in the user half of the address space. *)
Context (Hlow : forall m n p, alloc_pick m n = Some p -> p + n < 2 ^ 63).

(** The state after a request: at most one chunk has leaked, and only if it failed. *)
Lemma appendNewChunk_ok m p leaked given : pool_inv m0 m p leaked given ->
  wpx appendNewChunk (m, p)
    (fun _ s => pool_inv m0 s.1 s.2 leaked given /\ mCurrent s.2 + mChunkSize p = mEnd s.2)
    (fun e s => e = BadAlloc /\ exists leaked', (length leaked' <= S (length leaked))%nat /\ pool_inv m0 s.1 s.2 leaked' given).
Proof.
  intros HI. pose proof (pi_size _ _ _ _ _ HI) as Hcs. unfold appendNewChunk, wpx, bind at 1 2, get_pool, on_heap, allocate. cbn [fst snd].
  destruct (alloc_pick m (mChunkSize p)) as [c|] eqn:Ep; [|eauto]. pose proof (Hlow _ _ _ Ep).
  destruct (pick_aligned _ _ _ Ep Hcs) as [Hpos H8]. rewrite u64_small by lia. unfold bind, put_pool. cbn [fst snd].
  pose proof (inv_new_chunk _ _ _ _ _ _ HI Ep Hcs) as HI1.
  apply (inv_advance m0 _ _ _ _ c (c + mChunkSize p)) in HI1; cycle 1.
  { exists c, (mChunkSize p). cbn. split_and!; [unfold chunks; set_solver|apply lookup_insert_eq|lia|lia]. }
  { split; [lia|done]. } { lia. }
  { intros b a Hb Ha Hr. by eapply (chunk_apart _ _ _ _ _ _ b HI Ep Hcs Hb a). }
  pose proof (push_chunk_ok _ _ _ _ _ HI1) as Hpush. unfold wpx in Hpush.
  destruct (push_chunk c _) as [[] s|e s| |]; [|..]; try done; cycle 1.
  { destruct Hpush as (-> & ->). split; [done|]. exists (c :: leaked). split; [cbn; lia|done]. }
  destruct Hpush as (HI2 & _ & _ & Hs & Hcu & He). split; [done|]. rewrite Hcu, He. done.
Qed.

Lemma pool_allocate_ok m p leaked given size :
  pool_inv m0 m p leaked given -> 0 <= size < 2 ^ 63 - 16 ->
  wpx (pool_allocate size) (m, p)
    (fun q s => pool_inv m0 s.1 s.2 leaked given /\ free_block s.1 s.2 leaked given q size)
    (fun e s => e = BadAlloc /\ exists leaked', (length leaked' <= S (length leaked))%nat /\ pool_inv m0 s.1 s.2 leaked' given).
Proof.
  intros HI Hs. pose proof (pi_end _ _ _ _ _ HI). pose proof (pi_cur _ _ _ _ _ HI) as [Hc _]. pose proof (pi_size _ _ _ _ _ HI) as Hcs.
  unfold pool_allocate. wpxb. eapply wpx_ok; [reflexivity|]. cbn [snd]. rewrite u64_small by lia. case_test.
  - case_test.
    + wpxb. unfold wpx at 1, on_heap, allocate. cbn [fst snd]. destruct (alloc_pick m size) as [c|] eqn:Ep; [|eauto].
      destruct (pick_aligned _ _ _ Ep ltac:(lia)) as [Hpos H8]. wpxb.
      pose proof (inv_new_chunk _ _ _ _ _ _ HI Ep ltac:(lia)) as HI1.
      eapply wpx_mono; [exact (push_chunk_ok _ _ _ _ _ HI1)| |].
      * intros _ [m2 p2] (HI2 & Hin & Hbl & _ & Hcu & He). cbn [fst snd] in *. apply wpx_ok with c (m2, p2); [done|].
        split; [done|]. split_and!; [done| | |].
        -- exists c, size. cbn. split_and!; [unfold chunks; set_solver| |lia|lia].
           rewrite Hbl by (unfold chunks; set_solver). apply lookup_insert_eq.
        -- intros b Hb. apply (chunk_apart _ _ _ _ _ _ b HI Ep); [lia|done].
        -- intros a Ha. unfold unused. cbn [snd]. rewrite Hcu, He. intros Hr.
           destruct (pi_chunk _ _ _ _ _ HI) as (d & k & Hd & Hk & Hr1 & Hr2).
           destruct (pick_apart _ _ _ _ _ d k (pi_heap _ _ _ _ _ HI) Ep ltac:(lia)) as [_ Hap]; [set_solver|done|].
           apply (Hap a); cbn in *; lia.
      * intros e s (-> & ->). split; [done|]. exists (c :: leaked). split; [cbn; lia|done].
    + wpxb. eapply wpx_mono; [by apply appendNewChunk_ok| |done]. intros _ [m2 p2] (HI2 & Hroom). cbn [fst snd] in *.
      assert (mCurrent p2 + size <= mEnd p2) as Hfit by lia.
      destruct (bump_ok _ _ _ _ size HI2 ltac:(lia) Hfit) as (p' & Hrun & Hinv & Hfree).
      eapply wpx_ok; [exact Hrun|]. done.
  - destruct (bump_ok _ _ _ _ size HI ltac:(lia) ltac:(lia)) as (p' & Hrun & Hinv & Hfree). eapply wpx_ok; [exact Hrun|]. done.
Qed.
End Pool_operations.

(** ** The life of a pool *)

(** The blocks of the requests that were served. *)
Definition served (rs : list (option Z)) (datas : list (list Z)) : list (Z * list Z) :=
  omap (fun x : option Z * list Z => (fun q => (q, x.2)) <$> x.1) (zip rs datas).

Definition failures (rs : list (option Z)) : nat := length (List.filter (fun r : option Z => if r then false else true) rs).

Section Life.
Context `{Allocator} (Hlow : forall m n p, alloc_pick m n = Some p -> p + n < 2 ^ 63).

Lemma pool_init_ok chunkSize m :
  0 <= chunkSize ->
  wpx (ChunkMemoryPool chunkSize) m (fun p m' => pool_inv m m' p [] [])
    (fun e m' => e = BadAlloc /\ exists leaked, (length leaked <= 1)%nat /\ heap_plus m m' leaked).
Proof.
  intros Hc. unfold ChunkMemoryPool. wpxb. unfold wpx at 1, allocate.
  destruct (alloc_pick m chunkSize) as [c|] eqn:E.
  2: { split; [done|]. exists []. split; [cbn; lia|apply heap_plus_refl]. }
  pose proof (heap_plus_new _ _ _ _ _ (heap_plus_refl m) E Hc) as H1. pose proof (Hlow _ _ _ E).
  destruct (pick_aligned _ _ _ E Hc) as [Hpos H8]. wpxb. unfold wpx, vec_of, bind, allocate.
  set (m1 := new_block m c chunkSize) in *. destruct (alloc_pick m1 (sizeof_ptr * 1)) as [b|] eqn:Eb.
  2: { split; [done|]. exists [c]. split; [cbn; lia|done]. }
  pose proof (heap_plus_new _ _ _ _ _ H1 Eb ltac:(unfold sizeof_ptr; lia)) as H2.
  assert (b <> c) as Hbc by (pose proof (hp_nodup _ _ _ H2) as Hnd; apply list.NoDup_cons in Hnd; set_solver).
  cbn [ret]. rewrite u64_small by lia. constructor; cbn [mChunks mChunkSize mCurrent mEnd v_cap v_buf]; try done.
  - split; [lia|]. apply lookup_insert_eq.
  - exists c, chunkSize. unfold chunks. cbn. split_and!; [set_solver| |lia|lia].
    rewrite lookup_insert_ne by done. apply lookup_insert_eq.
  - split; [lia|done].
  - lia.
  - intros x Hx. set_solver.
  - constructor.
Qed.

Lemma save_ok m0 m p leaked given d :
  pool_inv m0 m p leaked given -> zlen d < 2 ^ 63 - 16 ->
  wp (save d) (m, p) (fun r s => exists leaked', (length leaked' <= failures [r] + length leaked)%nat /\
    pool_inv m0 s.1 s.2 leaked' (served [r] [d] ++ given)).
Proof.
  intros HI Hd. pose proof (pool_allocate_ok m0 Hlow _ _ _ _ (zlen d) HI ltac:(unfold zlen in *; lia)) as Hrun.
  unfold wp, save, bind at 1. unfold wpx in Hrun. destruct (pool_allocate (zlen d) (m, p)) as [q [m1 p1]|e s| |]; try done.
  - destruct Hrun as [HI1 Hfree]. destruct (inv_give m0 _ _ _ _ _ _ HI1 Hfree) as [Hst HI2]. cbn [fst snd] in *.
    unfold bind, on_heap. cbn [fst snd]. rewrite Hst. cbn. eauto.
  - destruct Hrun as (-> & leaked' & Hl & HI1). cbn. eauto.
Qed.

Lemma save_all_ok m0 datas m p leaked given :
  pool_inv m0 m p leaked given -> Forall (fun d => zlen d < 2 ^ 63 - 16) datas ->
  wp (save_all datas) (m, p) (fun rs s => length rs = length datas /\
    exists leaked', (length leaked' <= failures rs + length leaked)%nat /\
      pool_inv m0 s.1 s.2 leaked' (reverse (served rs datas) ++ given)).
Proof.
  revert m p leaked given. induction datas as [|d datas IH]; intros m p leaked given HI Hs.
  { cbn. eauto. }
  apply list.Forall_cons in Hs as [Hd Hs]. cbn [save_all]. apply wp_bind. wpm (save_ok _ _ _ _ _ _ HI Hd).
  intros r [m1 p1] (leaked1 & Hl1 & HI1). apply wp_bind. wpm (IH _ _ _ _ HI1 Hs).
  intros rs [m2 p2] (Hlen & leaked2 & Hl2 & HI2). apply wp_ret. split; [cbn; lia|]. exists leaked2. split.
  - unfold failures in *. destruct r; cbn in *; lia.
  - replace (reverse (served (r :: rs) (d :: datas)) ++ given) with (reverse (served rs datas) ++ served [r] [d] ++ given); [done|].
    unfold served. cbn [zip zip_with omap list_omap fst snd]. destruct r; cbn [fmap option_fmap option_map]; [|done].
    by rewrite reverse_cons, <-app_assoc.
Qed.

Lemma destroy_pool_ok m0 m p leaked given :
  pool_inv m0 m p leaked given -> wp (destroy_pool p) m (fun _ m' => heap_plus m0 m' leaked).
Proof.
  intros HI. pose proof (pi_heap _ _ _ _ _ HI) as Hh. destruct (pi_vec _ _ _ _ _ HI) as [_ Hb].
  assert (v_buf (mChunks p) ∉ v_items (mChunks p)) as Hn.
  { pose proof (hp_nodup _ _ _ Hh) as Hnd. apply list.NoDup_cons in Hnd. unfold chunks in Hnd. set_solver. }
  unfold chunks in Hh. rewrite (Permutation_middle (v_items (mChunks p))) in Hh.
  destruct (delete_chunks_ok _ _ _ _ Hh) as (m1 & Hrun & Hh1 & Hsame).
  rewrite <-Hsame in Hb by done.
  destruct (heap_plus_free _ _ _ _ _ (sizeof_ptr * v_cap (mChunks p)) Hh1 Hb) as (m2 & Hrun2 & Hh2 & _).
  unfold wp, destroy_pool, bind, vec_destroy. by rewrite Hrun, Hrun2.
Qed.

Lemma ord_pairs_lookup (l : list (Z * list Z)) i j b b' :
  ForallOrdPairs (fun b b' => apart (extent b) (extent b')) l -> i <> j -> l !! i = Some b -> l !! j = Some b' ->
  apart (extent b) (extent b').
Proof.
  intros Hl. revert i j. induction Hl as [|x l Hx Hl IH]; intros i j Hij Hi Hj; [by rewrite lookup_nil in Hi|].
  rewrite list.Forall_forall in Hx. destruct i as [|i], j as [|j]; cbn in *; simplify_eq.
  - eapply Hx, list_elem_of_lookup_2; eauto.
  - intros a H1 H2. eapply (Hx b); [eapply list_elem_of_lookup_2; eauto|exact H2|exact H1].
  - eapply (IH i j); eauto.
Qed.

(** Every block that was handed out: aligned, in memory that was unused before the pool
    existed, apart from the others, and it holds what was written into it. *)
Definition blocks_ok (m m' : mem) (bs : list (Z * list Z)) : Prop :=
  (forall q d, (q, d) ∈ bs -> q mod 8 = 0 /\ pts m' q d /\ forall a, q <= a < q + zlen d -> bytes m !! a = None) /\
  (forall i j b b', i <> j -> bs !! i = Some b -> bs !! j = Some b' -> apart (extent b) (extent b')).

Lemma inv_blocks_ok m0 m p leaked bs : pool_inv m0 m p leaked (reverse bs) -> blocks_ok m0 m bs.
Proof.
  intros HI. split.
  - intros q d Hin. destruct (pi_given _ _ _ _ _ HI (q, d)) as (H8 & (c & n & Hc & Hn & Hr) & Hp & _); [by apply elem_of_reverse|].
    split_and!; [done..|]. intros a Ha. apply (hp_bytes _ _ _ (pi_heap _ _ _ _ _ HI) a).
    exists c, n. cbn in Hr. split_and!; [set_solver|done|lia..].
  - intros i j b b' Hij Hi Hj. pose proof (pi_apart _ _ _ _ _ HI) as Hap.
    apply lookup_lt_Some in Hi as Hil. apply lookup_lt_Some in Hj as Hjl.
    rewrite <-(reverse_involutive bs) in Hi, Hj. rewrite reverse_lookup in Hi, Hj by (rewrite length_reverse; lia).
    eapply ord_pairs_lookup; [exact Hap| |exact Hi|exact Hj]. rewrite length_reverse. lia.
Qed.

(** C34: A pool of any chunk size serves any sequence of requests of a client that writes into
    its blocks and goes on when a request throws [std::bad_alloc]: the blocks it returns are
    8-byte aligned, lie in memory that was unused before, share no byte with each other and
    keep what was written into them, and what was in memory before the pool existed is not
    disturbed.  Destroying the pool afterwards is well defined (nothing is freed twice)
    and leaves the heap as it was before the pool was created, exactly
    when no request failed, and else up to at most one leaked block for each request that
    failed; a constructor that throws leaks at most one block. *)
Theorem chunk_pool_lifetime chunkSize datas m :
  0 <= chunkSize -> Forall (fun d => zlen d < 2 ^ 63 - 16) datas ->
  wpx (ChunkMemoryPool chunkSize) m
    (fun p m1 =>
       wp (save_all datas) (m1, p) (fun rs s =>
         length rs = length datas /\ blocks_ok m s.1 (served rs datas) /\ grows m s.1 /\
         wp (destroy_pool s.2) s.1 (fun _ m2 =>
           (exists leaked, (length leaked <= failures rs)%nat /\ heap_plus m m2 leaked) /\
           (failures rs = 0%nat -> bytes m2 = bytes m /\ blocks m2 = blocks m))))
    (fun e m1 => e = BadAlloc /\ exists leaked, (length leaked <= 1)%nat /\ heap_plus m m1 leaked).
Proof.
  intros Hc Hs. eapply wpx_mono; [by apply pool_init_ok| |done].
  intros p m1 HI. cbv beta. wpm (save_all_ok _ _ _ _ _ _ HI Hs). intros rs [m2 p2] (Hlen & leaked & Hl & HI2). cbn [fst snd] in *.
  rewrite app_nil_r in HI2. rewrite Nat.add_0_r in Hl. split_and!; [done|by eapply inv_blocks_ok| |].
  - eapply heap_plus_grows, pi_heap, HI2.
  - wpm (destroy_pool_ok _ _ _ _ _ HI2). intros [] m3 Hh. split; [eauto|].
    intros Hf. rewrite Hf in Hl. destruct leaked; [|cbn in Hl; lia]. by apply heap_plus_nil.
Qed.

End Life.

(** The bump allocator, below half of the address space; it refuses requests of [no] bytes. *)
#[refine] Definition low_allocator (no : Z) : Allocator := {|
  alloc_pick := fun m n =>
    match bump_pick m n with Some p => if (p + n <? 2 ^ 63) && negb (n =? no) then Some p else None | None => None end;
  alloc_init := fun _ => 205;
  alloc_max_size := SIZE_MAX
|}.
Proof.
  - intros _. unfold is_byte. lia.
  - unfold SIZE_MAX. lia.
  - intros m n p Hp Hn. destruct (bump_pick m n) as [q|] eqn:E; [|done]. case_match; [|done]. simplify_eq.
    by apply (@alloc_fresh bump_allocator).
Defined.

Definition empty_mem : mem := Mem ∅ ∅ [].

Definition pool_demo (no : Z) (sizes : list nat) : outcome (mem * pool) (list (option Z)) :=
  match @ChunkMemoryPool (low_allocator no) 64 empty_mem with
  | Ok p m => @save_all (low_allocator no) (map (fun n => replicate n 7) sizes) (m, p)
  | _ => UB
  end.

Example pool_demo_runs : result (pool_demo 1 [13; 30; 100; 24; 0; 60]%nat) =
  Some [Some 16; Some 32; Some 112; Some 256; Some 280; Some 384].
Proof. vm_compute. reflexivity. Qed.

(** The heap refuses the 16 bytes for two pointers: both chunks that were allocated for the
    vector are still there after the pool has been destroyed. *)
Example pool_leaks_chunks :
  match pool_demo 16 [100; 60; 20]%nat with
  | Ok rs (m, p) =>
      match destroy_pool p m with
      | Ok _ m2 => Some (rs, map_to_list (blocks m2))
      | _ => None
      end
  | _ => None
  end = Some ([None; Some 16; None], [(112, 100); (224, 64)]).
Proof. vm_compute. reflexivity. Qed.

(** The heap that refuses the block for two pointers. *)
Lemma chunk_pool_lifetime_witness :
  wpx (@ChunkMemoryPool (low_allocator 16) 64) empty_mem
    (fun p m1 =>
       wp (@save_all (low_allocator 16) [replicate 100 7; replicate 60 7; replicate 20 7]) (m1, p) (fun rs s =>
         length rs = 3%nat /\ blocks_ok empty_mem s.1 (served rs [replicate 100 7; replicate 60 7; replicate 20 7]) /\
         grows empty_mem s.1 /\
         wp (destroy_pool s.2) s.1 (fun _ m2 =>
           (exists leaked, (length leaked <= failures rs)%nat /\ heap_plus empty_mem m2 leaked) /\
           (failures rs = 0%nat -> bytes m2 = bytes empty_mem /\ blocks m2 = blocks empty_mem))))
    (fun e m1 => e = BadAlloc /\ exists leaked, (length leaked <= 1)%nat /\ heap_plus empty_mem m1 leaked).
Proof.
  apply (@chunk_pool_lifetime (low_allocator 16)).
  - intros m n p Hp. cbn in Hp. destruct (bump_pick m n); [|done]. destruct (_ && _) eqn:E; [|done].
    bool_prop. simplify_eq. lia.
  - lia.
  - repeat constructor.
Defined.
