(* ===== verification/Epoch.v ===== *)
(** * The epoch-based allocator

    [crossbow/allocator.hpp] and [allocator.cpp]: an [allocator] object on the stack is a guard;
    memory given to [free] is reclaimed when every guard that could still use it is gone.
    Guards are counted in the counter of the epoch they started in; a destructor that finds
    the two older counters at zero rotates counters and lists and deletes the oldest list.

    Any number of threads run calls of the interface, interleaved at every access to an
    atomic variable or to a shared node (sequentially consistent memory).  Pointers to the three
    counters and to [lists] objects are small numbers, pointers to nodes are addresses.
    [holders], [gid], [gepoch], [born], [stamp], [next_gid], the recorded stamp of the destructor
    and the fields of [event] are bookkeeping that no step reads. *)

From S2P Require Import Prelude.

Definition NUM_LISTS : nat := 64.

(** The value of [next] in a node that was not freed. *)
Definition NOT_OWNED : Z := 1.

(** [lists::node]; [holders]: the guards alive when it was freed. *)
Record node := Node { next : Z; destr : option Z; holders : list nat }.

(** [lists]: the 64 heads; [born]: the epoch it collects. *)
Record lists := Lists { heads : list Z; born : nat }.

(** An [allocator] object: its counter; its identity and the epoch it started in. *)
Record guard := Guard { cnt_ : nat; gid : nat; gepoch : nat }.

(** The calls of the interface.  [Free a t d]: [free(a, d)] with time stamp [t]; the [d] of a
    call stands for the closure. *)
Inductive call :=
  | Enter
  | Exit
  | Malloc (a : Z)
  | Free (a t d : Z)
  | FreeInOrder (a d : Z)
  | FreeNow (a : Z).

(** [list::append] in progress: target list, slot, node, closure, guards alive at the call. *)
Record append := Append { ap_list : nat; ap_slot : nat; ap_node : Z; ap_destr : Z; ap_holders : list nat }.

(** Where a thread is, with its local variables. *)
Inductive pc :=
  | Idle
  (* allocator() *)
  | EnterLoad (c : nat)
  | EnterCas (c : nat) (v : Z)
  (* ~allocator(), the tests; [st] is the recorded stamp *)
  | ExitOld
  | ExitOldest (st : nat) (oc : nat)
  | ExitActive (st : nat) (oc xc : nat)
  | ExitLoad (st : nat) (oc xc ac : nat)
  | ExitTestOldest (st : nat) (oc xc ac : nat) (v : Z)
  | ExitTestOld (st : nat) (oc xc ac : nat) (v : Z)
  | ExitCas (st : nat) (oc xc ac : nat) (v : Z)
  (* ~allocator(), the rotation *)
  | R1 | R2 (a : nat) | R3 (a x : nat) | R4 (a : nat) | R5 (a o : nat) | R6 (a : nat)
  | R7 | R8 (t : nat) | R9 (t l : nat) | R10 (t : nat) | R11 (t l : nat) | R12 (t : nat)
  | R13 (t : nat) | R14 (t c : nat)
  | Delete (t : nat)
  (* list::append *)
  | OwnLoad (p : append)
  | OwnCas (p : append)
  | OwnStore (p : append)
  | HeadLoad (p : append)
  | NextStore (p : append) (h : Z)
  | HeadCas (p : append) (h : Z).

Record thread := Thread { t_pc : pc; t_calls : list call; held : list guard }.

(** A node that was reclaimed, with the guards alive when it was freed and those alive now. *)
Record event := Event { ev_node : Z; ev_destr : Z; ev_holders : list nat; ev_guards : list nat }.

Record est := Est {
  cnts : list Z;
  active_cnt : nat;
  old_cnt : nat;
  oldest_cnt : nat;
  lists_ : gmap nat lists;
  active_list : nat;
  old_list : nat;
  oldest_list : nat;
  next_list : nat;
  nodes : gmap Z node;
  threads : list thread;
  log : list event;
  stamp : nat;
  next_gid : nat
}.

Definition new_lists (b : nat) : lists := Lists (replicate NUM_LISTS 0) b.

(** [allocator::init()]. *)
Definition init (progs : list (list call)) : est :=
  Est [1; 0; 0] 0 1 2 {[ 0%nat := new_lists 2; 1%nat := new_lists 1; 2%nat := new_lists 0 ]} 0 1 2 3
    ∅ (map (fun p => Thread Idle p []) progs) [] 4 0.

(** ** Updates *)

Definition set_thread (i : nat) (t : thread) (s : est) : est :=
  Est (cnts s) (active_cnt s) (old_cnt s) (oldest_cnt s) (lists_ s) (active_list s) (old_list s) (oldest_list s)
    (next_list s) (nodes s) (<[i := t]> (threads s)) (log s) (stamp s) (next_gid s).
Definition set_cnt (c : nat) (v : Z) (s : est) : est :=
  Est (<[c := u64 v]> (cnts s)) (active_cnt s) (old_cnt s) (oldest_cnt s) (lists_ s) (active_list s) (old_list s)
    (oldest_list s) (next_list s) (nodes s) (threads s) (log s) (stamp s) (next_gid s).
Definition set_cnt_ptrs (a o x : nat) (s : est) : est :=
  Est (cnts s) a o x (lists_ s) (active_list s) (old_list s) (oldest_list s) (next_list s) (nodes s) (threads s)
    (log s) (stamp s) (next_gid s).
Definition set_list_ptrs (a o x : nat) (s : est) : est :=
  Est (cnts s) (active_cnt s) (old_cnt s) (oldest_cnt s) (lists_ s) a o x (next_list s) (nodes s) (threads s)
    (log s) (stamp s) (next_gid s).
Definition set_lists (m : gmap nat lists) (s : est) : est :=
  Est (cnts s) (active_cnt s) (old_cnt s) (oldest_cnt s) m (active_list s) (old_list s) (oldest_list s)
    (next_list s) (nodes s) (threads s) (log s) (stamp s) (next_gid s).
Definition set_nodes (m : gmap Z node) (s : est) : est :=
  Est (cnts s) (active_cnt s) (old_cnt s) (oldest_cnt s) (lists_ s) (active_list s) (old_list s) (oldest_list s)
    (next_list s) m (threads s) (log s) (stamp s) (next_gid s).
Definition set_log (l : list event) (s : est) : est :=
  Est (cnts s) (active_cnt s) (old_cnt s) (oldest_cnt s) (lists_ s) (active_list s) (old_list s) (oldest_list s)
    (next_list s) (nodes s) (threads s) l (stamp s) (next_gid s).
Definition tick (s : est) : est :=
  Est (cnts s) (active_cnt s) (old_cnt s) (oldest_cnt s) (lists_ s) (active_list s) (old_list s) (oldest_list s)
    (next_list s) (nodes s) (threads s) (log s) (S (stamp s)) (next_gid s).
Definition new_gid (s : est) : est :=
  Est (cnts s) (active_cnt s) (old_cnt s) (oldest_cnt s) (lists_ s) (active_list s) (old_list s) (oldest_list s)
    (next_list s) (nodes s) (threads s) (log s) (stamp s) (S (next_gid s)).
(** [active_list.store(new lists())]. *)
Definition store_new_list (s : est) : est :=
  Est (cnts s) (active_cnt s) (old_cnt s) (oldest_cnt s) (<[next_list s := new_lists (Nat.div2 (S (stamp s)))]> (lists_ s))
    (next_list s) (old_list s) (oldest_list s) (S (next_list s)) (nodes s) (threads s) (log s) (stamp s) (next_gid s).

Definition guards (s : est) : list guard := t ← threads s; held t.
Definition guard_ids (s : est) : list nat := map gid (guards s).

(** ** Deleting a [lists] object *)

(** [list::destruct(node)]: the tail first.  [fuel] bounds the recursion; more than the number of
    nodes is enough.  [None]: a pointer that leads to no live node, or an empty closure. *)
Fixpoint destruct (fuel : nat) (h : Z) (alive : list nat) (st : gmap Z node * list event)
    : option (gmap Z node * list event) :=
  match fuel with
  | O => None
  | S k =>
      if h =? 0 then Some st
      else
        n ← st.1 !! h;
        st ← destruct k (next n) alive st;
        n ← st.1 !! h;
        d ← destr n;
        Some (delete h st.1, st.2 ++ [Event h d (holders n) alive])
  end.

(** The destructor of the array: last element first. *)
Fixpoint destruct_heads (fuel : nat) (hs : list Z) (alive : list nat) (st : gmap Z node * list event)
    : option (gmap Z node * list event) :=
  match hs with
  | [] => Some st
  | h :: hs => st ← destruct_heads fuel hs alive st; destruct fuel h alive st
  end.

(** [delete l]. *)
Definition delete_lists (l : nat) (s : est) : option est :=
  o ← lists_ s !! l;
  '(ns, lg) ← destruct_heads (S (base.size (nodes s))) (heads o) (guard_ids s) (nodes s, log s);
  Some (set_lists (delete l (lists_ s)) (set_log lg (set_nodes ns s))).

(** ** Steps *)

Definition goto (i : nat) (t : thread) (p : pc) (s : est) : option est :=
  Some (set_thread i (Thread p (t_calls t) (held t)) s).

(** A call leaves [ks] to do; [h] are the guards held then. *)
Definition began (i : nat) (p : pc) (ks : list call) (h : list guard) (s : est) : est := set_thread i (Thread p ks h) s.

(** [malloc(size)]: the node constructor; [a] is the address of the node. *)
Definition malloc_step (i : nat) (t : thread) (a : Z) (ks : list call) (s : est) : option est :=
  match nodes s !! a with
  | None => if 1 <? a then Some (began i Idle ks (held t) (set_nodes (<[a := Node NOT_OWNED None []]> (nodes s)) s)) else None
  | Some _ => None
  end.

(** [free(ptr, destruct)], up to the load of [active_list]. *)
Definition free_start (i : nat) (t : thread) (a cycles d : Z) (ks : list call) (s : est) : option est :=
  let slot := Z.to_nat (cycles mod Z.of_nat NUM_LISTS) in
  Some (began i (OwnLoad (Append (active_list s) slot a d (guard_ids s))) ks (held t) s).

(** [free_now(ptr)]. *)
Definition free_now_step (i : nat) (t : thread) (a : Z) (ks : list call) (s : est) : option est :=
  match nodes s !! a with
  | Some _ => Some (began i Idle ks (held t) (set_nodes (delete a (nodes s)) s))
  | None => None
  end.

(** [~allocator()]: [cnt_->fetch_sub(2)]. *)
Definition leave_step (i : nat) (t : thread) (ks : list call) (s : est) : option est :=
  match held t with
  | [] => None
  | g :: gs => v ← cnts s !! cnt_ g; Some (began i ExitOld ks gs (set_cnt (cnt_ g) (v - 2) s))
  end.

(** The first access of a call. *)
Definition start (i : nat) (t : thread) (k : call) (ks : list call) (s : est) : option est :=
  match k with
  | Enter => Some (began i (EnterLoad (active_cnt s)) ks (held t) s)
  | Exit => leave_step i t ks s
  | Malloc a => malloc_step i t a ks s
  | Free a cycles d => free_start i t a cycles d ks s
  | FreeInOrder a d => free_start i t a 0 d ks s
  | FreeNow a => free_now_step i t a ks s
  end.

Definition enter_step (i : nat) (t : thread) (s : est) : option est :=
  match t_pc t with
  | EnterLoad c => v ← cnts s !! c; goto i t (EnterCas c v) s
  | EnterCas c v =>
      w ← cnts s !! c;
      if Z.odd v && (w =? v) then
        Some (set_thread i (Thread Idle (t_calls t) (Guard c (next_gid s) (Nat.div2 (stamp s)) :: held t)) (new_gid (set_cnt c (v + 2) s)))
      else goto i t (EnterLoad (active_cnt s)) s
  | _ => None
  end.

Definition exit_step (i : nat) (t : thread) (s : est) : option est :=
  match t_pc t with
  | ExitOld => goto i t (ExitOldest (stamp s) (old_cnt s)) s
  | ExitOldest st oc => goto i t (ExitActive st oc (oldest_cnt s)) s
  | ExitActive st oc xc => goto i t (ExitLoad st oc xc (active_cnt s)) s
  | ExitLoad st oc xc ac => v ← cnts s !! ac; goto i t (ExitTestOldest st oc xc ac v) s
  | ExitTestOldest st oc xc ac v =>
      w ← cnts s !! xc; goto i t (if w =? 0 then ExitTestOld st oc xc ac v else Idle) s
  | ExitTestOld st oc xc ac v =>
      w ← cnts s !! oc; goto i t (if (w =? 0) && Z.odd v then ExitCas st oc xc ac v else Idle) s
  | ExitCas st oc xc ac v =>
      w ← cnts s !! ac;
      if w =? v then goto i t R1 (tick (set_cnt ac (v - 1) s)) else goto i t Idle s
  | _ => None
  end.

Definition rotate_step (i : nat) (t : thread) (s : est) : option est :=
  match t_pc t with
  | R1 => goto i t (R2 (active_cnt s)) s
  | R2 a => goto i t (R3 a (oldest_cnt s)) s
  | R3 a x => goto i t (R4 a) (set_cnt_ptrs x (old_cnt s) (oldest_cnt s) s)
  | R4 a => goto i t (R5 a (old_cnt s)) s
  | R5 a o => goto i t (R6 a) (set_cnt_ptrs (active_cnt s) (old_cnt s) o s)
  | R6 a => goto i t R7 (set_cnt_ptrs (active_cnt s) a (oldest_cnt s) s)
  | R7 => goto i t (R8 (oldest_list s)) s
  | R8 d => goto i t (R9 d (old_list s)) s
  | R9 d l => goto i t (R10 d) (set_list_ptrs (active_list s) (old_list s) l s)
  | R10 d => goto i t (R11 d (active_list s)) s
  | R11 d l => goto i t (R12 d) (set_list_ptrs (active_list s) l (oldest_list s) s)
  | R12 d => goto i t (R13 d) (store_new_list s)
  | R13 d => goto i t (R14 d (active_cnt s)) s
  | R14 d c => v ← cnts s !! c; goto i t (Delete d) (tick (set_cnt c (v + 1) s))
  | Delete d => s ← delete_lists d s; goto i t Idle s
  | _ => None
  end.

(** [node::own]. *)
Definition own_step (i : nat) (t : thread) (s : est) : option est :=
  match t_pc t with
  | OwnLoad p => n ← nodes s !! ap_node p; goto i t (if next n =? NOT_OWNED then OwnCas p else Idle) s
  | OwnCas p =>
      n ← nodes s !! ap_node p;
      if next n =? NOT_OWNED then
        goto i t (OwnStore p) (set_nodes (<[ap_node p := Node 0 (destr n) (ap_holders p)]> (nodes s)) s)
      else goto i t (OwnLoad p) s
  | OwnStore p =>
      n ← nodes s !! ap_node p;
      goto i t (HeadLoad p) (set_nodes (<[ap_node p := Node (next n) (Some (ap_destr p)) (holders n)]> (nodes s)) s)
  | _ => None
  end.

(** [list::append], after the node is owned. *)
Definition push_step (i : nat) (t : thread) (s : est) : option est :=
  match t_pc t with
  | HeadLoad p =>
      o ← lists_ s !! ap_list p; h ← heads o !! ap_slot p; goto i t (NextStore p h) s
  | NextStore p h =>
      n ← nodes s !! ap_node p;
      goto i t (HeadCas p h) (set_nodes (<[ap_node p := Node h (destr n) (holders n)]> (nodes s)) s)
  | HeadCas p h =>
      o ← lists_ s !! ap_list p; h' ← heads o !! ap_slot p;
      if h' =? h then
        goto i t Idle (set_lists (<[ap_list p := Lists (<[ap_slot p := ap_node p]> (heads o)) (born o)]> (lists_ s)) s)
      else goto i t (HeadLoad p) s
  | _ => None
  end.

Definition tstep (i : nat) (s : est) : option est :=
  t ← threads s !! i;
  match t_pc t with
  | Idle => match t_calls t with [] => None | k :: ks => start i t k ks s end
  | EnterLoad _ | EnterCas _ _ => enter_step i t s
  | ExitOld | ExitOldest _ _ | ExitActive _ _ _ | ExitLoad _ _ _ _
  | ExitTestOldest _ _ _ _ _ | ExitTestOld _ _ _ _ _ | ExitCas _ _ _ _ _ => exit_step i t s
  | OwnLoad _ | OwnCas _ | OwnStore _ => own_step i t s
  | HeadLoad _ | NextStore _ _ | HeadCas _ _ => push_step i t s
  | _ => rotate_step i t s
  end.

Fixpoint run (l : list nat) (s : est) : option est :=
  match l with
  | [] => Some s
  | i :: l => s ← tstep i s; run l s
  end.

(** [allocator::destroy()]. *)
Definition destroy (s : est) : option est :=
  s ← delete_lists (oldest_list s) s;
  s ← delete_lists (old_list s) s;
  delete_lists (active_list s) s.

(** ** Layout of a block: [malloc(size, align)] *)

Definition node_padding (sizeof_node align : Z) : Z :=
  if negb (sizeof_node mod align =? 0) then align - sizeof_node mod align else 0.

(** Size of the block requested, position of the node in it, position of the memory returned. *)
Definition malloc_layout (sizeof_node size align : Z) : Z * Z * Z :=
  let pad := node_padding sizeof_node align in
  (size + sizeof_node + pad, pad, sizeof_node + pad).
