(* ===== verification/EpochSpec.v ===== *)
(** * The epoch-based allocator: the invariant

    Threads obey a discipline: [free] is called inside a guard, [free_now] on memory that was not
    freed, and no rotation happens between the first load of a destructor's test and its
    successful compare-and-swap.  The invariant of disciplined executions is
    split by the part of the state it is about: counters and roles ([cnt_inv]), [lists] objects
    ([list_inv]), nodes and chains ([node_inv]) and what each thread knows ([thread_ok]). *)

From S2P Require Import Prelude Epoch.

(** The discipline, for the next step of thread [i]. *)
Definition disciplined (i : nat) (s : est) : bool :=
  match threads s !! i with
  | Some t =>
      match t_pc t, t_calls t with
      | Idle, (Free _ _ _ | FreeInOrder _ _) :: _ => negb (bool_decide (held t = []))
      | Idle, FreeNow a :: _ =>
          match nodes s !! a with Some n => next n =? NOT_OWNED | None => false end
      | ExitCas st _ _ ac v, _ => bool_decide (st = stamp s) || negb (bool_decide (cnts s !! ac = Some v))
      | _, _ => true
      end
  | None => true
  end.

Inductive dreachable (s0 : est) : est -> Prop :=
  | dreach_init : dreachable s0 s0
  | dreach_step s i s' : dreachable s0 s -> disciplined i s = true -> tstep i s = Some s' -> dreachable s0 s'.

(** ** Rotations *)

Definition rot (t : thread) : option pc :=
  match t_pc t with
  | R1 | R2 _ | R3 _ _ | R4 _ | R5 _ _ | R6 _ | R7 | R8 _ | R9 _ _ | R10 _ | R11 _ _ | R12 _ | R13 _ | R14 _ _ => Some (t_pc t)
  | _ => None
  end.
Definition deleting (t : thread) : option nat := match t_pc t with Delete d => Some d | _ => None end.
Definition owning (t : thread) : option Z :=
  match t_pc t with
  | OwnStore p | HeadLoad p | NextStore p _ | HeadCas p _ => Some (ap_node p)
  | _ => None
  end.

(** Who plays which role when no rotation is going on, and the list a rotation creates. *)
Record cfg := Cfg { A : nat; O : nat; X : nat; La : nat; Lo : nat; Lx : nat; Ln : nat; E : nat }.

(** [active_cnt], [old_cnt] and [oldest_cnt] in each phase of a rotation. *)
Definition cnt_layout (p : option pc) (k : cfg) : nat * nat * nat :=
  match p with
  | Some (R4 _ | R5 _ _) => (X k, O k, X k)
  | Some (R6 _) => (X k, O k, O k)
  | Some (R7 | R8 _ | R9 _ _ | R10 _ | R11 _ _ | R12 _ | R13 _ | R14 _ _) => (X k, A k, O k)
  | _ => (A k, O k, X k)
  end.
Definition list_layout (p : option pc) (k : cfg) : nat * nat * nat :=
  match p with
  | Some (R10 _ | R11 _ _) => (La k, Lo k, Lo k)
  | Some (R12 _) => (La k, La k, Lo k)
  | Some (R13 _ | R14 _ _) => (Ln k, La k, Lo k)
  | _ => (La k, Lo k, Lx k)
  end.
(** What the rotating thread holds in its local variables. *)
Definition locals_ok (p : option pc) (k : cfg) : Prop :=
  match p with
  | Some (R2 a | R4 a | R6 a) => a = A k
  | Some (R3 a x) => a = A k /\ x = X k
  | Some (R5 a o) => a = A k /\ o = O k
  | Some (R8 t | R10 t | R12 t | R13 t) => t = Lx k
  | Some (R9 t l) => t = Lx k /\ l = Lo k
  | Some (R11 t l) => t = Lx k /\ l = La k
  | Some (R14 t c) => t = Lx k /\ c = X k
  | _ => True
  end.
(** The live [lists] objects of a phase, with the epoch they collect plus two. *)
Definition epochs (p : option pc) (k : cfg) : list (nat * nat) :=
  match p with Some (R13 _ | R14 _ _) => [(Ln k, E k + 3)%nat] | _ => [] end ++
  [(La k, E k + 2)%nat; (Lo k, E k + 1)%nat; (Lx k, E k)].
Definition live_ids (p : option pc) (k : cfg) : list nat := map fst (epochs p k).

Definition count (c : nat) (G : list guard) : Z := zlen (filter (fun g => cnt_ g = c) G).

Record cnt_inv (cn : list Z) (ptrs : nat * nat * nat) (st : nat) (G : list guard) (k : cfg) (p : option pc) : Prop := {
  ci_roles : (A k < 3 /\ O k < 3 /\ X k < 3)%nat /\ A k <> O k /\ A k <> X k /\ O k <> X k;
  ci_len : length cn = 3%nat;
  ci_ptrs : ptrs = cnt_layout p k;
  ci_stamp : st = (2 * E k + (if p then 1 else 0))%nat /\ (2 <= E k)%nat;
  ci_val : forall c v, cn !! c = Some v ->
    v = u64 (2 * count c G + (if p then 0 else if decide (c = A k) then 1 else 0));
  ci_guards : forall g, g ∈ G -> (cnt_ g = A k /\ gepoch g = E k) \/ (p = None /\ cnt_ g = O k /\ S (gepoch g) = E k);
  ci_bound : zlen G < 2 ^ 62
}.

Record list_inv (ls : gmap nat lists) (ptrs : nat * nat * nat) (nl : nat) (D : list nat) (G : list guard) (k : cfg) (p : option pc) : Prop := {
  li_ptrs : ptrs = list_layout p k;
  li_nodup : NoDup (live_ids p k ++ D);
  li_dom : forall l, is_Some (ls !! l) <-> l ∈ live_ids p k ++ D;
  li_fresh : forall l, l ∈ live_ids p k ++ D -> (l < nl)%nat;
  li_born : forall l b o, (l, b) ∈ epochs p k -> ls !! l = Some o -> (born o + 2)%nat = b;
  li_del : forall d o, d ∈ D -> ls !! d = Some o ->
    (born o < E k)%nat /\ forall g, g ∈ G -> (born o < gepoch g)%nat
}.

(** The nodes from a head on. *)
Fixpoint chain (ns : gmap Z node) (h : Z) (l : list Z) : Prop :=
  match l with
  | [] => h = 0
  | a :: l => h = a /\ a <> 0 /\ exists n, ns !! a = Some n /\ chain ns (next n) l
  end.

(** The guards that may still use a node of this list. *)
Definition holders_ok (hs : list nat) (b : nat) (G : list guard) (ng : nat) : Prop :=
  (forall g, g ∈ G -> gid g ∈ hs -> (gepoch g <= b)%nat) /\ (forall x, x ∈ hs -> (x < ng)%nat).

(** [home]: the list and slot of each node that is in a list. *)
Record node_inv (ns : gmap Z node) (ls : gmap nat lists) (F : list Z) (G : list guard) (ng : nat) (home : gmap Z (nat * nat)) : Prop := {
  ni_addr : forall a n, ns !! a = Some n -> 1 < a;
  ni_len : forall l o, ls !! l = Some o -> length (heads o) = NUM_LISTS;
  ni_chain : forall l o i h, ls !! l = Some o -> heads o !! i = Some h ->
    exists c, chain ns h c /\ NoDup c /\ forall a, a ∈ c <-> home !! a = Some (l, i);
  ni_home : forall a l i, home !! a = Some (l, i) -> exists o n,
    ls !! l = Some o /\ (i < NUM_LISTS)%nat /\ ns !! a = Some n /\ next n <> NOT_OWNED /\ is_Some (destr n) /\ holders_ok (holders n) (born o) G ng;
  ni_owned : forall a n, ns !! a = Some n -> next n <> NOT_OWNED -> is_Some (home !! a) \/ a ∈ F;
  ni_nodup : NoDup F;
  ni_flight : forall a, a ∈ F -> home !! a = None;
  ni_gid : forall g, g ∈ G -> (gid g < ng)%nat
}.

(** An append in progress knows that its list is not going to be deleted. *)
Definition append_ok (ls : gmap nat lists) (G : list guard) (ng : nat) (t : thread) (p : append) : Prop :=
  exists o, ls !! ap_list p = Some o /\ (ap_slot p < NUM_LISTS)%nat /\
    (exists g, g ∈ held t /\ (gepoch g <= born o)%nat) /\ holders_ok (ap_holders p) (born o) G ng.
Definition own_ok (ns : gmap Z node) (p : append) (P : node -> Prop) : Prop :=
  exists n, ns !! ap_node p = Some n /\ next n <> NOT_OWNED /\ holders n = ap_holders p /\ P n.

(** The recorded stamp is current, and no rotation was going on. *)
Definition fresh (st stamp : nat) : Prop := st = stamp /\ Nat.Even st.

Definition thread_ok (s : est) (t : thread) : Prop :=
  let G := guards s in
  match t_pc t with
  | ExitOldest st oc | ExitActive st oc _ | ExitLoad st oc _ _ | ExitTestOldest st oc _ _ _ | ExitTestOld st oc _ _ _ =>
      (st <= stamp s)%nat /\ (fresh st (stamp s) -> oc = old_cnt s)
  | ExitCas st oc _ _ v =>
      Z.odd v = true /\ (st <= stamp s)%nat /\ (fresh st (stamp s) -> oc = old_cnt s /\ count oc G = 0)
  | OwnLoad p | OwnCas p => append_ok (lists_ s) G (next_gid s) t p
  | OwnStore p => append_ok (lists_ s) G (next_gid s) t p /\ own_ok (nodes s) p (fun _ => True)
  | HeadLoad p => append_ok (lists_ s) G (next_gid s) t p /\ own_ok (nodes s) p (fun n => is_Some (destr n))
  | NextStore p h => append_ok (lists_ s) G (next_gid s) t p /\ own_ok (nodes s) p (fun n => is_Some (destr n)) /\ h <> NOT_OWNED
  | HeadCas p h => append_ok (lists_ s) G (next_gid s) t p /\ own_ok (nodes s) p (fun n => is_Some (destr n) /\ next n = h)
  | _ => True
  end.

Definition weight (t : thread) : nat :=
  length (t_calls t) + length (held t) + (match t_pc t with EnterLoad _ | EnterCas _ _ => 1 | _ => 0 end).
Definition total (s : est) : nat := sum_list_with weight (threads s).

Definition log_ok (s : est) : Prop :=
  forall e x, e ∈ log s -> x ∈ ev_holders e -> x ∉ ev_guards e.

Record einv (s : est) (k : cfg) (p : option pc) (home : gmap Z (nat * nat)) : Prop := {
  ei_rot : omap rot (threads s) = option_list p;
  ei_loc : locals_ok p k;
  ei_cnt : cnt_inv (cnts s) (active_cnt s, old_cnt s, oldest_cnt s) (stamp s) (guards s) k p;
  ei_list : list_inv (lists_ s) (active_list s, old_list s, oldest_list s) (next_list s) (omap deleting (threads s)) (guards s) k p;
  ei_node : node_inv (nodes s) (lists_ s) (omap owning (threads s)) (guards s) (next_gid s) home;
  ei_threads : forall t, t ∈ threads s -> thread_ok s t;
  ei_total : Z.of_nat (total s) < 2 ^ 62;
  ei_log : log_ok s
}.

(** ** Lists indexed by threads *)

Lemma omap_insert_same {T B} (f : T -> option B) (l : list T) i x y :
  l !! i = Some x -> f y = f x -> omap f (<[i := y]> l) = omap f l.
Proof.
  revert i. induction l as [|z l IH]; intros [|i] Hi Hf; simplify_eq/=; [by rewrite Hf|].
  destruct (f z); [f_equal|]; auto.
Qed.

Lemma omap_NoDup_inj {T B} (f : T -> option B) (l : list T) i j x y b :
  NoDup (omap f l) -> l !! i = Some x -> l !! j = Some y -> f x = Some b -> f y = Some b -> i = j.
Proof.
  revert i j. induction l as [|z l IH]; intros i j Hnd Hi Hj Hx Hy; [by rewrite lookup_nil in Hi|].
  assert (forall k w, l !! k = Some w -> f w = Some b -> b ∈ omap f l) as Hin.
  { intros k w Hk Hw. apply list_elem_of_omap. exists w. split; [by eapply list_elem_of_lookup_2|done]. }
  destruct i as [|i], j as [|j]; simplify_eq/=; try done.
  - rewrite Hx in Hnd. apply list.NoDup_cons in Hnd as [Hn _]. destruct Hn. eauto.
  - rewrite Hy in Hnd. apply list.NoDup_cons in Hnd as [Hn _]. destruct Hn. eauto.
  - f_equal. eapply IH; eauto. destruct (f z); [by apply list.NoDup_cons in Hnd as [_ ?]|done].
Qed.

(** The one rotating thread. *)
Lemma rot_step l i t t' p : omap rot l = option_list p -> l !! i = Some t -> rot t = p ->
  omap rot (<[i := t']> l) = option_list (rot t').
Proof.
  intros Hp Hi Hr. destruct (omap_insert_split rot l i t Hi) as (rest & H1 & H2).
  assert (rest = []) as ->.
  { rewrite Hp, Hr in H1. destruct p; simpl in H1; [by apply Permutation_cons_inv, Permutation_nil in H1|by apply Permutation_nil in H1]. }
  specialize (H2 t'). rewrite app_nil_r in H2. destruct (rot t') as [q|]; simpl in *.
  - by apply Permutation_singleton_r in H2.
  - symmetry in H2. by apply Permutation_nil in H2.
Qed.

Lemma rot_self l i t q p : omap rot l = option_list p -> l !! i = Some t -> rot t = Some q -> p = Some q.
Proof.
  intros Hp Hi Hr. assert (q ∈ omap rot l) as Hin by (apply list_elem_of_omap; exists t; split; [by eapply list_elem_of_lookup_2|done]).
  rewrite Hp in Hin. destruct p; simpl in Hin; [apply list_elem_of_singleton in Hin; congruence|by apply not_elem_of_nil in Hin].
Qed.

Definition guards_of (l : list thread) : list guard := t ← l; held t.

Lemma guards_insert l i t : l !! i = Some t ->
  exists rest, guards_of l ≡ₚ held t ++ rest /\ forall t', guards_of (<[i := t']> l) ≡ₚ held t' ++ rest.
Proof.
  revert i. induction l as [|u l IH]; intros [|i] Hi; simplify_eq/=.
  - exists (guards_of l). split; [done|]. done.
  - destruct (IH i Hi) as (rest & H1 & H2). exists (held u ++ rest). unfold guards_of in *. split.
    + rewrite H1. rewrite !app_assoc. by rewrite (Permutation_app_comm (held u)).
    + intros t'. rewrite (H2 t'). rewrite !app_assoc. by rewrite (Permutation_app_comm (held u)).
Qed.

Lemma guards_same l i t t' : l !! i = Some t -> held t' = held t -> guards_of (<[i := t']> l) = guards_of l.
Proof.
  revert i. induction l as [|u l IH]; intros [|i] Hi Hh; simplify_eq/=; [by rewrite Hh|].
  unfold guards_of in *. f_equal. auto.
Qed.

Lemma total_insert l i t t' : l !! i = Some t ->
  (sum_list_with weight (<[i := t']> l) + weight t = sum_list_with weight l + weight t')%nat.
Proof. revert i. induction l as [|u l IH]; intros [|i] Hi; simplify_eq/=; [lia|]. specialize (IH i Hi). lia. Qed.

Lemma guards_total l : (length (guards_of l) <= sum_list_with weight l)%nat.
Proof.
  induction l as [|u l IH]; [done|]. cbn. unfold guards_of in *. rewrite length_app. unfold weight at 1. lia.
Qed.

(** ** Counting guards *)

Lemma count_cons c g G : count c (g :: G) = (if decide (cnt_ g = c) then 1 else 0) + count c G.
Proof. unfold count. rewrite filter_cons. case_decide; [rewrite zlen_cons; lia|lia]. Qed.

Lemma count_perm c G G' : G ≡ₚ G' -> count c G = count c G'.
Proof. intros H. unfold count, zlen. by rewrite H. Qed.

Lemma count_range c G : 0 <= count c G <= zlen G.
Proof. unfold count, zlen. pose proof (length_filter (fun g => cnt_ g = c) G). lia. Qed.

Lemma count_zero c G : (forall g, g ∈ G -> cnt_ g <> c) -> count c G = 0.
Proof.
  induction G as [|g G IH]; intros H; [done|]. rewrite count_cons.
  rewrite decide_False by (apply H; by left). rewrite IH; [done|]. intros x Hx. apply H. by right.
Qed.

Lemma count_zero_inv c G g : count c G = 0 -> g ∈ G -> cnt_ g <> c.
Proof.
  induction G as [|x G IH]; intros Hc Hg; [by apply not_elem_of_nil in Hg|]. rewrite count_cons in Hc.
  pose proof (count_range c G). apply elem_of_cons in Hg as [->|Hg].
  - intros Heq. rewrite decide_True in Hc by done. lia.
  - apply IH; [|done]. case_decide; lia.
Qed.

Lemma u64_odd x : Z.odd (u64 x) = Z.odd x.
Proof.
  unfold wrap. rewrite (Z.div_mod x (2 ^ 64)) at 2 by lia.
  rewrite Z.odd_add, Z.odd_mul. change (Z.odd (2 ^ 64)) with false. by rewrite andb_false_l, xorb_false_l.
Qed.

Lemma u64_shift x y : u64 (u64 x + y) = u64 (x + y).
Proof. unfold wrap. apply Zplus_mod_idemp_l. Qed.

(** ** Permutations of the guards *)

Lemma cnt_inv_perm cn ptrs st G G' k p : G ≡ₚ G' -> cnt_inv cn ptrs st G k p -> cnt_inv cn ptrs st G' k p.
Proof.
  intros HG [? ? ? ? Hv Hg Hb]. constructor; try done.
  - intros c v Hc. rewrite <-(count_perm c _ _ HG). by apply Hv.
  - intros g Hin. apply Hg. by rewrite HG.
  - unfold zlen in *. by rewrite <-HG.
Qed.

Lemma list_inv_perm ls ptrs nl D D' G G' k p :
  D ≡ₚ D' -> G ≡ₚ G' -> list_inv ls ptrs nl D G k p -> list_inv ls ptrs nl D' G' k p.
Proof.
  intros HD HG [? Hn Hd Hf ? Hdel]. constructor; try done.
  - by rewrite <-HD.
  - intros l. rewrite Hd. by rewrite HD.
  - intros l. rewrite <-HD. apply Hf.
  - intros d o Hin Ho. rewrite <-HD in Hin. destruct (Hdel d o Hin Ho) as [? Hg]. split; [done|].
    intros g. rewrite <-HG. apply Hg.
Qed.

Lemma holders_ok_sub hs b G G' ng ng' :
  holders_ok hs b G ng -> (forall g, g ∈ G' -> g ∈ G \/ (ng <= gid g)%nat) -> (ng <= ng')%nat -> holders_ok hs b G' ng'.
Proof.
  intros [H1 H2] Hs Hn. split.
  - intros g Hg Hh. destruct (Hs g Hg); [auto|]. apply H2 in Hh. lia.
  - intros x Hx. apply H2 in Hx. lia.
Qed.

Lemma node_inv_perm ns ls F F' G G' ng home :
  F ≡ₚ F' -> G ≡ₚ G' -> node_inv ns ls F G ng home -> node_inv ns ls F' G' ng home.
Proof.
  intros HF HG [? ? ? Hh Ho Hn Hf Hg]. constructor; try done.
  - intros a l i Ha. destruct (Hh a l i Ha) as (o & n & ? & ? & ? & ? & ? & Hhs). exists o, n. split_and!; try done.
    eapply holders_ok_sub; [done| |done]. intros g Hin. left. by rewrite HG.
  - intros a n Ha Hne. rewrite <-HF. eauto.
  - by rewrite <-HF.
  - intros a Ha. rewrite <-HF in Ha. auto.
  - intros g Hin. rewrite <-HG in Hin. auto.
Qed.

Lemma node_inv_guards ns ls F G G' ng ng' home :
  node_inv ns ls F G ng home -> (ng <= ng')%nat ->
  (forall g, g ∈ G' -> g ∈ G \/ (ng <= gid g < ng')%nat) -> node_inv ns ls F G' ng' home.
Proof.
  intros [? ? ? Hh ? ? ? Hgid] Hle HG. constructor; try done.
  - intros a l j Ha. destruct (Hh a l j Ha) as (o & n & ? & ? & ? & ? & ? & Hhs). exists o, n. split_and!; try done.
    eapply holders_ok_sub; [done| |lia]. intros g Hg. destruct (HG g Hg); [by left|right; lia].
  - intros g Hg. destruct (HG g Hg) as [Hin|]; [|lia]. specialize (Hgid g Hin). lia.
Qed.

(** ** Stability of what the other threads know *)

Definition append_of (t : thread) : option append :=
  match t_pc t with
  | OwnLoad p | OwnCas p | OwnStore p | HeadLoad p | NextStore p _ | HeadCas p _ => Some p
  | _ => None
  end.

Record stable (s s' : est) (u : thread) : Prop := {
  sb_stamp : stamp s' = S (stamp s) \/
    (stamp s' = stamp s /\ (Nat.Even (stamp s) -> old_cnt s' = old_cnt s /\
       (count (old_cnt s) (guards s) = 0 -> count (old_cnt s) (guards s') = 0)));
  sb_lists : forall p o g, append_of u = Some p -> lists_ s !! ap_list p = Some o -> g ∈ held u -> (gepoch g <= born o)%nat ->
    exists o', lists_ s' !! ap_list p = Some o' /\ born o' = born o;
  sb_guards : forall g, g ∈ guards s' -> g ∈ guards s \/ (next_gid s <= gid g)%nat;
  sb_gid : (next_gid s <= next_gid s')%nat;
  sb_nodes : forall a n, owning u = Some a -> nodes s !! a = Some n -> next n <> NOT_OWNED -> nodes s' !! a = Some n
}.

Lemma append_ok_stable s s' u p :
  stable s s' u -> append_of u = Some p ->
  append_ok (lists_ s) (guards s) (next_gid s) u p -> append_ok (lists_ s') (guards s') (next_gid s') u p.
Proof.
  intros HS Hu (o & Ho & Hslot & (g & Hg & Hge) & Hh). destruct (sb_lists _ _ _ HS _ _ _ Hu Ho Hg Hge) as (o' & Ho' & Hb).
  exists o'. rewrite Hb. split_and!; [done..|by exists g|]. eapply holders_ok_sub; [done|apply HS|apply HS].
Qed.

Lemma own_ok_stable s s' u p P :
  stable s s' u -> owning u = Some (ap_node p) -> own_ok (nodes s) p P -> own_ok (nodes s') p P.
Proof.
  intros HS Hu (n & Hn & Hne & Hh & HP). exists n. split_and!; try done. by apply (sb_nodes _ _ _ HS).
Qed.

Lemma thread_ok_stable s s' u : stable s s' u -> thread_ok s u -> thread_ok s' u.
Proof.
  intros HS Hu. unfold thread_ok in *.
  assert (forall st, fresh st (stamp s') -> (st <= stamp s)%nat -> fresh st (stamp s) /\
    old_cnt s' = old_cnt s /\ (count (old_cnt s) (guards s) = 0 -> count (old_cnt s) (guards s') = 0)) as Hfr.
  { intros st [Hst Hev] Hle. destruct (sb_stamp _ _ _ HS) as [|[Heq Hsame]]; [lia|]. rewrite Heq in Hst. subst st.
    split; [by split|by apply Hsame]. }
  assert (forall st, (st <= stamp s)%nat -> (st <= stamp s')%nat) as Hle by (destruct (sb_stamp _ _ _ HS); lia).
  destruct (t_pc u) eqn:Epc; try done.
  all: try (destruct Hu as [H1 H2]; split; [by apply Hle|]; intros Hf; destruct (Hfr _ Hf H1) as (Hf' & -> & _); by apply H2).
  - destruct Hu as (Hodd & H1 & H2). split_and!; [done|by apply Hle|]. intros Hf.
    destruct (Hfr _ Hf H1) as (Hf' & -> & Hc). destruct (H2 Hf') as [-> Hz]. auto.
  - eapply append_ok_stable; [done|unfold append_of; by rewrite Epc|done].
  - eapply append_ok_stable; [done|unfold append_of; by rewrite Epc|done].
  - destruct Hu as [H1 H2]. split; [eapply append_ok_stable|eapply own_ok_stable]; unfold append_of, owning; rewrite ?Epc; done.
  - destruct Hu as [H1 H2]. split; [eapply append_ok_stable|eapply own_ok_stable]; unfold append_of, owning; rewrite ?Epc; done.
  - destruct Hu as (H1 & H2 & H3). split_and!; [eapply append_ok_stable|eapply own_ok_stable|]; unfold append_of, owning; rewrite ?Epc; done.
  - destruct Hu as [H1 H2]. split; [eapply append_ok_stable|eapply own_ok_stable]; unfold append_of, owning; rewrite ?Epc; done.
Qed.

(** ** One thread moves *)

(** [s1] is the state after the shared update, before the thread's own. *)
Lemma einv_move s s1 i t t' k p home k' p' home' :
  einv s k p home -> threads s !! i = Some t -> threads s1 = threads s ->
  let s' := set_thread i t' s1 in
  omap rot (threads s') = option_list p' -> locals_ok p' k' ->
  cnt_inv (cnts s') (active_cnt s', old_cnt s', oldest_cnt s') (stamp s') (guards s') k' p' ->
  list_inv (lists_ s') (active_list s', old_list s', oldest_list s') (next_list s') (omap deleting (threads s')) (guards s') k' p' ->
  node_inv (nodes s') (lists_ s') (omap owning (threads s')) (guards s') (next_gid s') home' ->
  thread_ok s' t' ->
  (forall j u, j <> i -> threads s !! j = Some u -> stable s s' u) ->
  (weight t' <= weight t)%nat -> log_ok s' -> einv s' k' p' home'.
Proof.
  intros HI Hi Hth s' Hr Hl Hc Hls Hn Ht Hst Hw Hlog. constructor; try done.
  - intros u Hu. unfold s' in Hu. cbn in Hu. rewrite Hth in Hu. apply list_elem_of_lookup_1 in Hu as [j Hj].
    destruct (decide (j = i)) as [->|Hne].
    + rewrite list_lookup_insert_eq in Hj by (by eapply lookup_lt_Some). by simplify_eq.
    + rewrite list_lookup_insert_ne in Hj by done. eapply thread_ok_stable; [by eapply Hst|].
      apply (ei_threads _ _ _ _ HI). by eapply list_elem_of_lookup_2.
  - pose proof (ei_total _ _ _ _ HI). unfold total in *. unfold s'. cbn. rewrite Hth.
    pose proof (total_insert _ _ _ t' Hi). lia.
Qed.
