(* ===== verification/EpochNodes.v ===== *)
(** * The epoch-based allocator: chains of freed nodes

    What the steps of [append] do to the chains behind the heads, and what deleting a [lists]
    object does: it reclaims exactly the nodes of its chains, each once, oldest first. *)

From S2P Require Import Prelude Epoch EpochSpec.

(** ** Chains *)

Lemma chain_ext ns ns' h c :
  chain ns h c -> (forall a, a ∈ c -> forall n, ns !! a = Some n -> exists n', ns' !! a = Some n' /\ next n' = next n) -> chain ns' h c.
Proof.
  revert h. induction c as [|a c IH]; intros h; [done|]. intros (-> & Ha & n & Hn & Hc) Hext.
  destruct (Hext a ltac:(by left) n Hn) as (n' & Hn' & Hnx). split_and!; [done..|]. exists n'. split; [done|].
  rewrite Hnx. apply IH; [done|]. intros b Hb. apply Hext. by right.
Qed.

Lemma chain_insert ns h c a n : chain ns h c -> a ∉ c -> chain (<[a := n]> ns) h c.
Proof.
  intros Hc Ha. eapply chain_ext; [done|]. intros b Hb m Hm. exists m. split; [|done].
  rewrite lookup_insert_ne; [done|]. by intros ->.
Qed.

Lemma chain_delete ns h c a : chain ns h c -> a ∉ c -> chain (delete a ns) h c.
Proof.
  intros Hc Ha. eapply chain_ext; [done|]. intros b Hb m Hm. exists m. split; [|done].
  rewrite lookup_delete_ne; [done|]. by intros ->.
Qed.

Lemma chain_nodes ns h c a : chain ns h c -> a ∈ c -> is_Some (ns !! a).
Proof.
  revert h. induction c as [|b c IH]; intros h Hc Ha; [by apply not_elem_of_nil in Ha|].
  destruct Hc as (-> & _ & n & Hn & Hc). apply elem_of_cons in Ha as [->|Ha]; [by eexists|eauto].
Qed.

Lemma chain_length ns h c : chain ns h c -> NoDup c -> (length c <= base.size ns)%nat.
Proof.
  intros Hc Hnd. assert (list_to_set c ⊆ dom ns) as Hsub.
  { intros a Ha. apply elem_of_list_to_set in Ha. apply elem_of_dom. by eapply chain_nodes. }
  apply subseteq_size in Hsub. rewrite size_list_to_set, size_dom in Hsub by done. done.
Qed.

(** ** Deleting a chain *)

(** The events of reclaiming the nodes of [c], oldest (last) first. *)
Definition events_ok (ns : gmap Z node) (alive : list nat) (c : list Z) (evs : list event) : Prop :=
  map ev_node evs = reverse c /\
  forall e, e ∈ evs -> exists n, ns !! ev_node e = Some n /\ destr n = Some (ev_destr e) /\
    ev_holders e = holders n /\ ev_guards e = alive.

(** [ns'] is [ns] without the nodes of [c]. *)
Definition without (ns ns' : gmap Z node) (c : list Z) : Prop :=
  forall a, ns' !! a = if decide (a ∈ c) then None else ns !! a.

Lemma destruct_ok fuel h alive ns lg c :
  chain ns h c -> NoDup c -> (length c < fuel)%nat ->
  (forall a n, a ∈ c -> ns !! a = Some n -> is_Some (destr n)) ->
  exists ns' evs, destruct fuel h alive (ns, lg) = Some (ns', lg ++ evs) /\ without ns ns' c /\ events_ok ns alive c evs.
Proof.
  revert fuel h. induction c as [|a c IH]; intros [|fuel] h Hc Hnd Hf Hd; cbn in Hf; try lia.
  { cbn in Hc. subst h. exists ns, []. cbn. rewrite app_nil_r. split; [done|]. split.
    - intros b. rewrite decide_False; [done|]. apply not_elem_of_nil.
    - split; [done|]. intros e He. by apply not_elem_of_nil in He. }
  destruct Hc as (-> & Ha & n & Hn & Hc). apply list.NoDup_cons in Hnd as [Hac Hnd].
  destruct (IH fuel (next n) Hc Hnd ltac:(lia)) as (ns1 & evs & Hrun & Hw & Hmap & Hev).
  { intros b m Hb. apply Hd. by right. }
  destruct (Hd a n ltac:(by left) Hn) as [d Hdn].
  exists (delete a ns1), (evs ++ [Event a d (holders n) alive]). cbn [destruct].
  rewrite (proj2 (Z.eqb_neq a 0) Ha). cbn. rewrite Hn. cbn. rewrite Hrun. cbn.
  rewrite (Hw a), decide_False, Hn by done. cbn. rewrite Hdn. cbn. split_and!.
  - by rewrite <-app_assoc.
  - intros b. destruct (decide (b = a)) as [->|Hne].
    + rewrite lookup_delete_eq. rewrite decide_True; [done|by left].
    + rewrite lookup_delete_ne by done. rewrite Hw. destruct (decide (b ∈ c)).
      * rewrite decide_True; [done|by right].
      * rewrite decide_False; [done|]. by rewrite elem_of_cons; intros [?|?].
  - split.
    + rewrite map_app, Hmap, reverse_cons. done.
    + intros e [He|He]%elem_of_app; [auto|]. apply list_elem_of_singleton in He as ->. exists n. done.
Qed.

Lemma without_chain ns ns' c h c' : without ns ns' c -> chain ns h c' -> (forall a, a ∈ c' -> a ∉ c) -> chain ns' h c'.
Proof.
  intros Hw Hc Hd. eapply chain_ext; [done|]. intros a Ha n Hn. exists n. split; [|done]. rewrite Hw, decide_False; auto.
Qed.

Lemma destruct_heads_ok fuel hs alive ns lg cs :
  Forall2 (chain ns) hs cs -> NoDup (concat cs) -> (base.size ns < fuel)%nat ->
  (forall a n, a ∈ concat cs -> ns !! a = Some n -> is_Some (destr n)) ->
  exists ns' evs, destruct_heads fuel hs alive (ns, lg) = Some (ns', lg ++ evs) /\
    without ns ns' (concat cs) /\ events_ok ns alive (concat cs) evs.
Proof.
  intros Hcs. induction Hcs as [|h c hs cs Hc Hcs IH]; intros Hnd Hf Hd.
  { exists ns, []. cbn. rewrite app_nil_r. split; [done|]. split.
    - intros b. rewrite decide_False; [done|]. apply not_elem_of_nil.
    - split; [done|]. intros e He. by apply not_elem_of_nil in He. }
  cbn [concat] in Hnd. apply list.NoDup_app in Hnd as (Hnc & Hdis & Hnd).
  destruct IH as (ns1 & evs & Hrun & Hw & Hmap & Hev); [done|done| |].
  { intros a n Ha. apply Hd. cbn. apply elem_of_app. by right. }
  assert (chain ns1 h c) as Hc1 by (by eapply without_chain).
  destruct (destruct_ok fuel h alive ns1 (lg ++ evs) c) as (ns2 & evs2 & Hrun2 & Hw2 & Hmap2 & Hev2); [done|done| | |].
  - pose proof (chain_length _ _ _ Hc Hnc). lia.
  - intros a n Ha Hn. apply (Hd a n); [cbn; apply elem_of_app; by left|].
    rewrite Hw, decide_False in Hn; [done|]. by apply Hdis.
  - exists ns2, (evs ++ evs2). cbn [destruct_heads]. rewrite Hrun. cbn [mbind option_bind]. rewrite Hrun2. split_and!.
    + by rewrite <-app_assoc.
    + intros a. rewrite Hw2, Hw. cbn [concat]. destruct (decide (a ∈ c)).
      * rewrite decide_True; [done|apply elem_of_app; by left].
      * destruct (decide (a ∈ concat cs)); [rewrite decide_True; [done|apply elem_of_app; by right]|].
        rewrite decide_False; [done|]. rewrite elem_of_app. tauto.
    + split; [rewrite map_app, Hmap, Hmap2; symmetry; apply reverse_app|].
      intros e [He|He]%elem_of_app; [auto|]. destruct (Hev2 e He) as (n & Hn & ?). exists n. split; [|done].
      rewrite Hw in Hn. by case_decide.
Qed.

(** ** Deleting a [lists] object *)

Lemma collect_chains ns home l (hs : list Z) off :
  (forall i h, hs !! i = Some h -> exists c, chain ns h c /\ NoDup c /\ forall a, a ∈ c <-> home !! a = Some (l, (off + i)%nat)) ->
  exists cs, Forall2 (chain ns) hs cs /\ NoDup (concat cs) /\
    forall a, a ∈ concat cs <-> exists i, (off <= i < off + length hs)%nat /\ (home : gmap Z (nat * nat)) !! a = Some (l, i).
Proof.
  revert off. induction hs as [|h hs IH]; intros off H.
  { exists []. split_and!; [constructor..|]. intros a. split; [by intros ?%not_elem_of_nil|]. intros (i & Hi & _). cbn in Hi. lia. }
  destruct (H 0%nat h eq_refl) as (c & Hc & Hnd & Hin). rewrite Nat.add_0_r in Hin.
  destruct (IH (S off)) as (cs & Hcs & Hnds & Hins).
  { intros i h' Hi. destruct (H (S i) h' Hi) as (c' & ? & ? & Hc'). exists c'. split_and!; try done.
    intros a. rewrite Hc'. by rewrite Nat.add_succ_r. }
  exists (c :: cs). split_and!; [by constructor| |].
  - cbn. apply list.NoDup_app. split_and!; [done| |done]. intros a Ha Ha'. apply Hin in Ha. apply Hins in Ha' as (i & Hi & Ha').
    rewrite Ha in Ha'. simplify_eq. lia.
  - intros a. cbn. rewrite elem_of_app, Hin, Hins. split.
    + intros [Ha|(i & Hi & Ha)]; [exists off|exists i]; split; (done || lia).
    + intros (i & Hi & Ha). destruct (decide (i = off)) as [->|Hne]; [by left|right]. exists i. split; [lia|done].
Qed.

Lemma delete_lists_ok s l o F G ng home :
  node_inv (nodes s) (lists_ s) F G ng home -> lists_ s !! l = Some o ->
  exists ns cs evs, delete_lists l s = Some (set_lists (delete l (lists_ s)) (set_log (log s ++ evs) (set_nodes ns s))) /\
    without (nodes s) ns cs /\ events_ok (nodes s) (guard_ids s) cs evs /\ NoDup cs /\
    (forall a, a ∈ cs <-> exists i, home !! a = Some (l, i)).
Proof.
  intros HN Ho. destruct (collect_chains (nodes s) home l (heads o) 0) as (cs & Hcs & Hnd & Hin).
  { intros i h Hi. destruct (ni_chain _ _ _ _ _ _ HN _ _ _ _ Ho Hi) as (c & ? & ? & Hc). exists c. done. }
  assert (forall a, a ∈ concat cs <-> exists i, home !! a = Some (l, i)) as Hin'.
  { intros a. rewrite Hin. split; [intros (i & _ & Ha); by exists i|]. intros (i & Ha). exists i. split; [|done].
    destruct (ni_home _ _ _ _ _ _ HN _ _ _ Ha) as (o' & n & Ho' & Hi & _). rewrite (ni_len _ _ _ _ _ _ HN _ _ Ho). lia. }
  destruct (destruct_heads_ok (S (base.size (nodes s))) (heads o) (guard_ids s) (nodes s) (log s) cs) as (ns & evs & Hrun & Hw & Hev);
    [done|done|lia| |].
  - intros a n Ha Hn. apply Hin' in Ha as (i & Ha). destruct (ni_home _ _ _ _ _ _ HN _ _ _ Ha) as (? & n' & ? & ? & ? & ? & ? & _).
    by simplify_eq.
  - exists ns, (concat cs), evs. split_and!; try done. unfold delete_lists. rewrite Ho. cbn [mbind option_bind]. by rewrite Hrun.
Qed.

(** What is left when the nodes of one object are gone. *)
Lemma node_inv_delete ns ns' ls F G ng home l cs :
  node_inv ns ls F G ng home -> without ns ns' cs -> (forall a, a ∈ cs <-> exists i, home !! a = Some (l, i)) ->
  exists home', node_inv ns' (delete l ls) F G ng home'.
Proof.
  intros [Haddr Hlen Hch Hh Hown Hnd Hfl Hg] Hw Hcs. exists (filter (fun x => x.2.1 <> l) home).
  assert (forall a l' i, filter (fun x => x.2.1 <> l) home !! a = Some (l', i) <-> home !! a = Some (l', i) /\ l' <> l) as Hf
    by (intros a l' i; by rewrite map_lookup_filter_Some).
  assert (forall a l' i, home !! a = Some (l', i) -> l' <> l -> a ∉ cs) as Hnot
    by (intros a l' i Ha Hne Hin; apply Hcs in Hin as [j Hj]; congruence).
  constructor; try done.
  - intros a n Ha. rewrite Hw in Ha. case_decide; [done|eauto].
  - intros l' o Ho. apply lookup_delete_Some in Ho as [_ Ho]. eauto.
  - intros l' o i h Ho Hi. apply lookup_delete_Some in Ho as [Hne Ho]. destruct (Hch _ _ _ _ Ho Hi) as (c & Hc & Hn & Hin).
    exists c. split_and!; [|done|].
    + eapply without_chain; [done..|]. intros a Ha. apply Hin in Ha. by eapply Hnot.
    + intros a. rewrite Hf, Hin. split; [intros ?; split; [done|congruence]|tauto].
  - intros a l' i [Ha Hne]%Hf. destruct (Hh a l' i Ha) as (o & n & Ho & Hi & Hn & ?). exists o, n.
    rewrite lookup_delete_ne, Hw, decide_False by (try congruence; by eapply Hnot). done.
  - intros a n Ha Hne. rewrite Hw in Ha. case_decide as Hin; [done|]. destruct (Hown a n Ha Hne) as [[[l' i] Hl]|]; [left|by right].
    exists (l', i). apply Hf. split; [done|]. intros ->. apply Hin, Hcs. by exists i.
  - intros a Ha. apply eq_None_not_Some. intros [[l' i] [Hi _]%Hf]. by rewrite Hfl in Hi.
Qed.

(** A node that is in no list is written. *)
Lemma node_inv_insert ns ls F F' G ng home a n :
  node_inv ns ls F G ng home -> home !! a = None -> 1 < a ->
  (next n <> NOT_OWNED -> a ∈ F') -> (forall b, b ∈ F -> b ∈ F') -> NoDup F' -> (forall b, b ∈ F' -> home !! b = None) ->
  node_inv (<[a := n]> ns) ls F' G ng home.
Proof.
  intros [Haddr Hlen Hch Hh Hown Hnd Hfl Hg] Ha H1 Hn HF HndF Hfl'. constructor; try done.
  - intros b m Hb. apply lookup_insert_Some in Hb as [[<- <-]|[_ Hb]]; eauto.
  - intros l o i h Ho Hi. destruct (Hch _ _ _ _ Ho Hi) as (c & Hc & Hc' & Hin). exists c. split_and!; try done.
    apply chain_insert; [done|]. rewrite Hin. congruence.
  - intros b l i Hb. destruct (Hh b l i Hb) as (o & m & ? & ? & ? & ?). exists o, m. rewrite lookup_insert_ne; [done|congruence].
  - intros b m Hb Hne. apply lookup_insert_Some in Hb as [[<- <-]|[_ Hb]]; [right; auto|].
    destruct (Hown b m Hb Hne); [by left|right; auto].
Qed.

(** A node that was never freed is released. *)
Lemma node_inv_free_now ns ls F G ng home a :
  node_inv ns ls F G ng home -> home !! a = None -> node_inv (delete a ns) ls F G ng home.
Proof.
  intros [Haddr Hlen Hch Hh Hown Hnd Hfl Hg] Ha. constructor; try done.
  - intros b m [_ Hb]%lookup_delete_Some. eauto.
  - intros l o i h Ho Hi. destruct (Hch _ _ _ _ Ho Hi) as (c & Hc & Hc' & Hin). exists c. split_and!; try done.
    apply chain_delete; [done|]. rewrite Hin. congruence.
  - intros b l i Hb. destruct (Hh b l i Hb) as (o & m & ? & ? & ? & ?). exists o, m. rewrite lookup_delete_ne; [done|congruence].
  - intros b m [_ Hb]%lookup_delete_Some. eauto.
Qed.

(** The owner of a node pushes it. *)
Lemma node_inv_push ns ls F F' G ng home a n l o i :
  node_inv ns ls F G ng home -> F ≡ₚ a :: F' -> ns !! a = Some n -> next n <> NOT_OWNED -> is_Some (destr n) ->
  ls !! l = Some o -> heads o !! i = Some (next n) -> holders_ok (holders n) (born o) G ng ->
  node_inv ns (<[l := Lists (<[i := a]> (heads o)) (born o)]> ls) F' G ng (<[a := (l, i)]> home).
Proof.
  intros [Haddr Hlen Hch Hh Hown Hnd Hfl Hg] HF Hn Hne Hd Ho Hi Hhs.
  assert (home !! a = None) as Ha by (apply Hfl; rewrite HF; by left).
  rewrite HF in Hnd. apply list.NoDup_cons in Hnd as [HaF Hnd].
  assert (i < NUM_LISTS)%nat as Hib by (rewrite <-(Hlen _ _ Ho); by eapply lookup_lt_Some).
  constructor; try done.
  - intros l' o' Ho'. destruct (decide (l' = l)) as [->|Hll].
    + rewrite lookup_insert_eq in Ho'. simplify_eq. cbn. rewrite length_insert. eauto.
    + rewrite lookup_insert_ne in Ho' by done. eauto.
  - assert (forall l' o' j h, ls !! l' = Some o' -> heads o' !! j = Some h -> (l', j) <> (l, i) ->
      exists c, chain ns h c /\ NoDup c /\ forall b, b ∈ c <-> <[a := (l, i)]> home !! b = Some (l', j)) as Hother.
    { intros l' o' j h Ho' Hj Hlj. destruct (Hch _ _ _ _ Ho' Hj) as (c & ? & ? & Hin). exists c. split_and!; try done.
      intros b. rewrite Hin. destruct (decide (b = a)) as [->|]; [rewrite lookup_insert_eq; naive_solver congruence|by rewrite lookup_insert_ne]. }
    intros l' o' j h Ho' Hj. destruct (decide (l' = l)) as [->|Hll].
    2: { rewrite lookup_insert_ne in Ho' by done. eapply Hother; [done..|congruence]. }
    rewrite lookup_insert_eq in Ho'. injection Ho' as <-. cbn [heads] in Hj.
    destruct (decide (j = i)) as [->|Hji]; [|rewrite list_lookup_insert_ne in Hj by done; eapply Hother; [done..|congruence]].
    rewrite list_lookup_insert_eq in Hj by (by eapply lookup_lt_Some). injection Hj as <-.
    destruct (Hch _ _ _ _ Ho Hi) as (c & Hc & Hnc & Hin). exists (a :: c). split_and!.
    + split_and!; [done|pose proof (Haddr a n Hn); lia|]. by exists n.
    + apply list.NoDup_cons. split; [|done]. rewrite Hin. congruence.
    + intros b. rewrite elem_of_cons, Hin. destruct (decide (b = a)) as [->|Hba].
      * rewrite lookup_insert_eq. tauto.
      * rewrite lookup_insert_ne by done. naive_solver.
  - intros b l' j Hb. apply lookup_insert_Some in Hb as [[<- [=<- <-]]|[_ Hb]].
    + exists (Lists (<[i:=a]> (heads o)) (born o)), n. rewrite lookup_insert_eq. done.
    + destruct (Hh b l' j Hb) as (o' & m & Ho' & ? & ? & ? & ? & ?). destruct (decide (l' = l)) as [->|Hll].
      * simplify_eq. exists (Lists (<[i:=a]> (heads o)) (born o)), m. rewrite lookup_insert_eq. done.
      * exists o', m. rewrite lookup_insert_ne by done. done.
  - intros b m Hb Hbn. destruct (decide (b = a)) as [->|Hba]; [left; rewrite lookup_insert_eq; by eexists|].
    rewrite lookup_insert_ne by done. destruct (Hown b m Hb Hbn) as [?|Hin]; [by left|]. right.
    rewrite HF in Hin. apply elem_of_cons in Hin as [?|?]; done.
  - intros b Hb. rewrite lookup_insert_ne; [apply Hfl; rewrite HF; by right|]. intros ->. done.
Qed.
