(* ===== verification/EpochClaims.v ===== *)
(** * The epoch-based allocator: no use after free

    Every step of a disciplined execution keeps the invariant, so memory is reclaimed only when
    no guard that was alive when it was freed is alive any more.  Without the
    discipline of the rotation test this fails: [epoch_stale_rotation]. *)

From S2P Require Import Prelude Epoch EpochSpec EpochNodes.

Section Steps.
Implicit Types (s : est) (t : thread) (k : cfg) (p : option pc) (home : gmap Z (nat * nat)).

Lemma guards_set_thread s i t t' : threads s !! i = Some t -> held t' = held t -> guards (set_thread i t' s) = guards s.
Proof. apply guards_same. Qed.

(** Other threads notice nothing when only a thread's own part changes. *)
Lemma stable_quiet s i t t' u : threads s !! i = Some t -> held t' = held t -> stable s (set_thread i t' s) u.
Proof.
  intros Hi Hh. pose proof (guards_set_thread s i t t' Hi Hh) as HG. constructor; rewrite ?HG; cbn; eauto.
Qed.

Lemma einv_quiet s i t t' k p home :
  einv s k p home -> threads s !! i = Some t -> held t' = held t ->
  rot t' = rot t -> deleting t' = deleting t -> owning t' = owning t -> (weight t' <= weight t)%nat ->
  thread_ok s t' -> einv (set_thread i t' s) k p home.
Proof.
  intros HI Hi Hh Hr Hd Ho Hw Ht. pose proof (guards_set_thread s i t t' Hi Hh) as HG.
  eapply (einv_move s s i t); try done; try exact HI; rewrite ?HG; cbn.
  - rewrite (omap_insert_same _ _ _ _ _ Hi Hr). apply HI.
  - apply (ei_loc _ _ _ _ HI).
  - apply (ei_cnt _ _ _ _ HI).
  - rewrite (omap_insert_same _ _ _ _ _ Hi Hd). apply HI.
  - rewrite (omap_insert_same _ _ _ _ _ Hi Ho). apply HI.
  - unfold thread_ok in *. by rewrite HG.
  - intros j u _ _. by eapply stable_quiet.
  - apply (ei_log _ _ _ _ HI).
Qed.

(** ** Entering *)

Lemma cnt_value s k p home c v : einv s k p home -> cnts s !! c = Some v ->
  v = u64 (2 * count c (guards s) + (if p then 0 else if decide (c = A k) then 1 else 0)).
Proof. intros HI. apply (ci_val _ _ _ _ _ _ (ei_cnt _ _ _ _ HI)). Qed.

(** An odd counter is the active one, and nobody rotates. *)
Lemma odd_active s k p home c v : einv s k p home -> cnts s !! c = Some v -> Z.odd v = true ->
  p = None /\ c = A k /\ v = u64 (2 * count c (guards s) + 1).
Proof.
  intros HI Hc Hodd. pose proof (cnt_value _ _ _ _ _ _ HI Hc) as Hv. rewrite Hv, u64_odd in Hodd. destruct p; [by rewrite Z.add_0_r, Z.odd_mul in Hodd|].
  case_decide; [done|]. by rewrite Z.add_0_r, Z.odd_mul in Hodd.
Qed.

(** Adding or removing a guard. *)
Lemma guards_new s i t ks (q : pc) g : threads s !! i = Some t ->
  guards (set_thread i (Thread q ks (g :: held t)) s) ≡ₚ g :: guards s.
Proof.
  intros Hi. destruct (guards_insert _ _ _ Hi) as (rest & H1 & H2). unfold guards. cbn. unfold guards_of in *.
  rewrite H2, H1. done.
Qed.

Lemma guards_drop s i t ks (q : pc) g gs : threads s !! i = Some t -> held t = g :: gs ->
  guards s ≡ₚ g :: guards (set_thread i (Thread q ks gs) s).
Proof.
  intros Hi Hh. destruct (guards_insert _ _ _ Hi) as (rest & H1 & H2). unfold guards. cbn. unfold guards_of in *.
  rewrite H2, H1, Hh. done.
Qed.

Lemma einv_enter s i t c v k p home :
  einv s k p home -> threads s !! i = Some t -> t_pc t = EnterCas c v -> cnts s !! c = Some v -> Z.odd v = true ->
  einv (set_thread i (Thread Idle (t_calls t) (Guard c (next_gid s) (Nat.div2 (stamp s)) :: held t)) (new_gid (set_cnt c (v + 2) s))) k p home.
Proof.
  intros HI Hi Hpc Hc Hodd. destruct (odd_active _ _ _ _ _ _ HI Hc Hodd) as (-> & -> & Hv).
  set (g := Guard _ _ _). set (t' := Thread _ _ _).
  set (s1 := new_gid (set_cnt (A k) (v + 2) s)).
  assert (guards (set_thread i t' s1) ≡ₚ g :: guards s) as HG by (apply (guards_new s1 i t); done).
  pose proof (ei_cnt _ _ _ _ HI) as HC. destruct (ci_roles _ _ _ _ _ _ HC) as (Hlt & Hne).
  destruct (ci_stamp _ _ _ _ _ _ HC) as [Hst HE].
  assert (gepoch g = E k) as Hge by (cbn [gepoch g]; rewrite Hst, Nat.add_0_r; apply Nat.div2_double).
  eapply (einv_move s s1 i t); [exact HI|done|done|..].
  - cbn. rewrite (omap_insert_same _ _ _ t); [apply HI|done|unfold rot; by rewrite Hpc].
  - apply HI.
  - apply (cnt_inv_perm _ _ _ (g :: guards s)); [done|]. destruct HC as [? Hlen ? ? Hval Hgd Hb]. constructor; cbn; try done.
    + by rewrite length_insert.
    + intros d w Hd. rewrite count_cons. destruct (decide (d = A k)) as [->|Hda].
      * rewrite list_lookup_insert_eq in Hd by (by eapply lookup_lt_Some). simplify_eq.
        rewrite decide_True by done. rewrite u64_shift. f_equal. lia.
      * rewrite list_lookup_insert_ne in Hd by done. rewrite (Hval d w Hd).
        rewrite decide_False by (cbn; congruence). rewrite decide_False by done. f_equal.
    + intros x [->|Hx]%elem_of_cons; [by left|auto].
    + pose proof (ei_total _ _ _ _ HI) as Ht. unfold total in Ht.
      pose proof (total_insert _ _ _ t' Hi) as Hw. pose proof (guards_total (<[i:=t']> (threads s))) as Hg.
      unfold zlen. change (guards_of (<[i:=t']> (threads s))) with (guards (set_thread i t' s1)) in Hg.
      rewrite HG in Hg. cbn [length] in Hg. unfold weight in Hw at 2 4. cbn in Hw. rewrite Hpc in Hw. cbn. lia.
  - eapply list_inv_perm; [|symmetry; exact HG|].
    { cbn. rewrite (omap_insert_same deleting _ _ t); [done|done|unfold deleting; by rewrite Hpc]. }
    destruct (ei_list _ _ _ _ HI) as [? ? ? ? Hborn Hdel]. constructor; try done.
    intros d o Hd Ho. destruct (Hdel d o Hd Ho) as [? Hg]. split; [done|].
    intros x [->|Hx]%elem_of_cons; [by rewrite Hge|auto].
  - eapply node_inv_perm; [|symmetry; exact HG|].
    { cbn. rewrite (omap_insert_same owning _ _ t); [done|done|unfold owning; by rewrite Hpc]. }
    eapply node_inv_guards; [apply HI|cbn; lia|]. intros x [->|Hx]%elem_of_cons; [right; cbn; lia|by left].
  - done.
  - intros j u Hj Hu. constructor; try (cbn; lia); eauto.
    + right. split; [done|]. intros _. split; [done|]. intros Hz.
      rewrite (count_perm _ _ _ HG), count_cons. rewrite decide_False; [done|].
      rewrite (f_equal (fun x => x.1.2) (ci_ptrs _ _ _ _ _ _ HC) : old_cnt s = O k). cbn. tauto.
    + intros x Hx. rewrite HG in Hx. apply elem_of_cons in Hx as [->|Hx]; [right; cbn; lia|by left].
  - unfold weight. cbn. rewrite Hpc. lia.
  - apply (ei_log _ _ _ _ HI).
Qed.

(** ** Leaving *)

Lemma einv_leave s i t ks g gs v k p home :
  einv s k p home -> threads s !! i = Some t -> t_pc t = Idle -> t_calls t = Exit :: ks -> held t = g :: gs ->
  cnts s !! cnt_ g = Some v ->
  einv (set_thread i (Thread ExitOld ks gs) (set_cnt (cnt_ g) (v - 2) s)) k p home.
Proof.
  intros HI Hi Hpc Hks Hh Hc. set (t' := Thread _ _ _). set (s1 := set_cnt _ _ s).
  assert (guards s ≡ₚ g :: guards (set_thread i t' s1)) as HG by (by apply (guards_drop s i t ks ExitOld g gs)).
  assert (forall x, x ∈ guards (set_thread i t' s1) -> x ∈ guards s) as Hsub by (intros x Hx; rewrite HG; by right).
  eapply (einv_move s s1 i t); [exact HI|done|done|..].
  - cbn. rewrite (omap_insert_same _ _ _ t); [apply HI|done|unfold rot; by rewrite Hpc].
  - apply HI.
  - destruct (ei_cnt _ _ _ _ HI) as [? Hlen ? ? Hval Hgd Hb]. constructor; try done.
    + cbn. by rewrite length_insert.
    + intros d w Hd. cbn [cnts set_thread s1 set_cnt] in Hd.
      assert (count d (guards s) = (if decide (cnt_ g = d) then 1 else 0) + count d (guards (set_thread i t' s1))) as Hcd
        by (rewrite (count_perm _ _ _ HG); apply count_cons).
      destruct (decide (d = cnt_ g)) as [->|Hda].
      * rewrite list_lookup_insert_eq in Hd by (by eapply lookup_lt_Some). simplify_eq.
        rewrite decide_True in Hcd by done. rewrite (Hval _ _ Hc), Hcd.
        unfold Z.sub. rewrite u64_shift. f_equal. lia.
      * rewrite list_lookup_insert_ne in Hd by done. rewrite (Hval d w Hd), Hcd. rewrite decide_False by done. f_equal.
    + intros x Hx. auto.
    + apply Permutation_length in HG. unfold zlen in *. cbn [length] in HG. lia.
  - eapply list_inv_perm; [|reflexivity|].
    { cbn. rewrite (omap_insert_same deleting _ _ t); [done|done|unfold deleting; by rewrite Hpc]. }
    destruct (ei_list _ _ _ _ HI) as [? ? ? ? ? Hdel]. constructor; try done.
    intros d o Hd Ho. destruct (Hdel d o Hd Ho) as [? Hg]. split; [done|]. auto.
  - eapply node_inv_perm; [|reflexivity|].
    { cbn. rewrite (omap_insert_same owning _ _ t); [done|done|unfold owning; by rewrite Hpc]. }
    eapply node_inv_guards; [apply HI|done|]. auto.
  - done.
  - intros j u Hj Hu. constructor; eauto. right. split; [done|]. intros _. split; [done|].
    intros Hz. rewrite (count_perm _ _ _ HG), count_cons in Hz.
    pose proof (count_range (old_cnt s) (guards (set_thread i t' s1))). case_decide; lia.
  - unfold weight. cbn. rewrite Hpc, Hks, Hh. cbn. lia.
  - apply (ei_log _ _ _ _ HI).
Qed.

(** ** The test of the destructor *)

Lemma einv_exit_quiet s i t s' k p home :
  einv s k p home -> threads s !! i = Some t ->
  (forall st oc xc ac v, t_pc t = ExitCas st oc xc ac v -> cnts s !! ac <> Some v) ->
  exit_step i t s = Some s' -> einv s' k p home.
Proof.
  intros HI Hi Hcas Hstep.
  assert (thread_ok s t) as Hok by (apply HI; by eapply list_elem_of_lookup_2).
  assert (forall q, exit_step i t s = goto i t q s -> rot t = None -> deleting t = None -> owning t = None ->
    rot (Thread q [] []) = None -> deleting (Thread q [] []) = None -> owning (Thread q [] []) = None ->
    (weight (Thread q (t_calls t) (held t)) <= weight t)%nat -> thread_ok s (Thread q (t_calls t) (held t)) -> einv s' k p home) as Hq.
  { intros q Heq H1 H2 H3 H4 H5 H6 Hw Ht. rewrite Heq in Hstep. unfold goto in Hstep. injection Hstep as <-.
    eapply einv_quiet; try done; unfold rot, deleting, owning in *; cbn in *; congruence. }
  unfold thread_ok in Hok. unfold exit_step in *.
  destruct (t_pc t) eqn:Epc; try done.
  - eapply Hq; unfold rot, deleting, owning, weight, thread_ok; rewrite ?Epc; cbn; done.
  - eapply Hq; unfold rot, deleting, owning, weight, thread_ok; rewrite ?Epc; cbn; done.
  - eapply Hq; unfold rot, deleting, owning, weight, thread_ok; rewrite ?Epc; cbn; done.
  - destruct (cnts s !! ac) eqn:Ev; [|done].
    eapply Hq; unfold rot, deleting, owning, weight, thread_ok; rewrite ?Epc; cbn; done.
  - destruct (cnts s !! xc) as [w|] eqn:Ev; [|done]. cbn [mbind option_bind] in *. destruct (w =? 0);
    eapply Hq; unfold rot, deleting, owning, weight, thread_ok; rewrite ?Epc; cbn; done.
  - destruct (cnts s !! oc) as [w|] eqn:Ev; [|done]. cbn [mbind option_bind] in *. destruct ((w =? 0) && Z.odd v) eqn:Eb;
    eapply Hq; unfold rot, deleting, owning, weight, thread_ok; rewrite ?Epc; cbn; try done.
    bool_prop. subst w. destruct Hok as [H1 H2]. split_and!; [done..|]. intros Hf. split; [auto|].
    pose proof (cnt_value _ _ _ _ _ _ HI Ev) as Hz. pose proof (count_range oc (guards s)).
    pose proof (ci_bound _ _ _ _ _ _ (ei_cnt _ _ _ _ HI)). rewrite u64_small in Hz; repeat case_match; lia.
  - destruct (cnts s !! ac) as [w|] eqn:Ev; [|done]. cbn [mbind option_bind] in *. destruct (w =? v) eqn:Eb.
    { bool_prop. subst w. by destruct (Hcas _ _ _ _ _ eq_refl). }
    eapply Hq; unfold rot, deleting, owning, weight, thread_ok; rewrite ?Epc; cbn; done.
Qed.

(** ** The rotation *)

Lemma einv_rotate_start s i t st oc xc ac v k p home :
  einv s k p home -> threads s !! i = Some t -> t_pc t = ExitCas st oc xc ac v -> cnts s !! ac = Some v -> st = stamp s ->
  einv (set_thread i (Thread R1 (t_calls t) (held t)) (tick (set_cnt ac (v - 1) s))) k (Some R1) home.
Proof.
  intros HI Hi Hpc Hc ->. assert (thread_ok s t) as Hok by (apply HI; by eapply list_elem_of_lookup_2).
  unfold thread_ok in Hok. rewrite Hpc in Hok. destruct Hok as (Hodd & _ & Hfr).
  destruct (odd_active _ _ _ _ _ _ HI Hc Hodd) as (-> & -> & Hv).
  pose proof (ei_cnt _ _ _ _ HI) as HC. destruct (ci_stamp _ _ _ _ _ _ HC) as [Hst HE].
  destruct (ci_roles _ _ _ _ _ _ HC) as (Hlt & Hne). pose proof (ci_ptrs _ _ _ _ _ _ HC) as Hptr. cbn in Hptr.
  assert (count (O k) (guards s) = 0) as Hz.
  { assert (fresh (stamp s) (stamp s)) as Hf by (split; [done|exists (E k); lia]).
    destruct (Hfr Hf) as [-> Hz]. injection Hptr as _ <- _. done. }
  set (t' := Thread _ _ _). set (s1 := tick _).
  assert (guards (set_thread i t' s1) = guards s) as HG by (by apply (guards_set_thread s1 i t)).
  eapply (einv_move s s1 i t); [exact HI|done|done|..]; rewrite ?HG.
  - cbn. rewrite (rot_step _ _ t _ None); [done|apply HI|done|unfold rot; by rewrite Hpc].
  - done.
  - destruct HC as [? Hlen ? ? Hval Hgd Hb]. constructor; cbn; try done.
    + by rewrite length_insert.
    + lia.
    + intros d w Hd. destruct (decide (d = A k)) as [->|Hda].
      * rewrite list_lookup_insert_eq in Hd by (by eapply lookup_lt_Some). simplify_eq.
        unfold Z.sub. rewrite u64_shift. f_equal. lia.
      * rewrite list_lookup_insert_ne in Hd by done. rewrite (Hval d w Hd). by rewrite decide_False.
    + intros g Hg. destruct (Hgd g Hg) as [?|(_ & Ho & _)]; [by left|]. exfalso. by eapply (count_zero_inv (O k)).
  - cbn. rewrite (omap_insert_same deleting _ _ t); [|done|unfold deleting; by rewrite Hpc].
    destruct (ei_list _ _ _ _ HI). by constructor.
  - cbn. rewrite (omap_insert_same owning _ _ t); [|done|unfold owning; by rewrite Hpc]. apply HI.
  - done.
  - intros j u Hj Hu. constructor; rewrite ?HG; eauto.
  - unfold weight. cbn. rewrite Hpc. done.
  - apply (ei_log _ _ _ _ HI).
Qed.

(** A step of the rotation that moves one of the six pointers or none. *)
Lemma einv_rotate s s1 i t q k home :
  einv s k (Some (t_pc t)) home -> threads s !! i = Some t -> rot t = Some (t_pc t) ->
  (cnts s1 = cnts s /\ lists_ s1 = lists_ s /\ next_list s1 = next_list s /\ nodes s1 = nodes s) ->
  (threads s1 = threads s /\ log s1 = log s /\ stamp s1 = stamp s /\ next_gid s1 = next_gid s) ->
  rot (Thread q (t_calls t) (held t)) = Some q -> locals_ok (Some q) k ->
  (active_cnt s1, old_cnt s1, oldest_cnt s1) = cnt_layout (Some q) k ->
  (active_list s1, old_list s1, oldest_list s1) = list_layout (Some q) k ->
  epochs (Some q) k = epochs (Some (t_pc t)) k ->
  einv (set_thread i (Thread q (t_calls t) (held t)) s1) k (Some q) home.
Proof.
  intros HI Hi Hr (E1 & E2 & E3 & E4) (E5 & E6 & E7 & E8) Hq Hl Hcp Hlp Hep. set (t' := Thread _ _ _) in *.
  assert (guards (set_thread i t' s1) = guards s) as HG by (unfold guards; cbn; rewrite E5; by apply (guards_same _ _ t)).
  assert (deleting t = None /\ owning t = None) as [Hd Ho] by (unfold rot, deleting, owning in *; by destruct (t_pc t)).
  assert (deleting t' = None /\ owning t' = None) as [Hd' Ho'] by (unfold rot, deleting, owning in *; cbn in *; by destruct q).
  eapply (einv_move s s1 i t); [exact HI|done|done|..]; rewrite ?HG; cbn; rewrite ?E1, ?E2, ?E3, ?E4, ?E5, ?E7, ?E8.
  - erewrite rot_step; [by rewrite Hq|apply HI|done|done].
  - done.
  - destruct (ei_cnt _ _ _ _ HI) as [? ? ? ? ? Hg ?]. constructor; try done.
    intros g Hin. destruct (Hg g Hin) as [?|[? _]]; [by left|done].
  - rewrite (omap_insert_same deleting _ _ t) by congruence. destruct (ei_list _ _ _ _ HI).
    constructor; unfold live_ids in *; rewrite ?Hep; done.
  - rewrite (omap_insert_same owning _ _ t) by congruence. apply HI.
  - unfold thread_ok, rot in *. cbn in *. by destruct q.
  - intros j u Hj Hu. constructor; rewrite ?HG; cbn; rewrite ?E2, ?E4, ?E7, ?E8; eauto. right. split; [done|].
    intros [x Hx]. destruct (ci_stamp _ _ _ _ _ _ (ei_cnt _ _ _ _ HI)). lia.
  - unfold weight. cbn. unfold rot in Hq, Hr. destruct q; try done; destruct (t_pc t); done || lia.
  - unfold log_ok. cbn. rewrite E6. apply HI.
Qed.

(** [active_list.store(new lists())]. *)
Lemma einv_new_list s i t d k home :
  einv s k (Some (R12 d)) home -> threads s !! i = Some t -> t_pc t = R12 d ->
  einv (set_thread i (Thread (R13 d) (t_calls t) (held t)) (store_new_list s))
    (Cfg (A k) (O k) (X k) (La k) (Lo k) (Lx k) (next_list s) (E k)) (Some (R13 d)) home.
Proof.
  intros HI Hi Hpc. set (t' := Thread _ _ _). set (s1 := store_new_list s). set (k' := Cfg _ _ _ _ _ _ _ _).
  assert (guards (set_thread i t' s1) = guards s) as HG by (by apply (guards_set_thread s1 i t)).
  destruct (ei_list _ _ _ _ HI) as [Hp Hnd Hdom Hfresh Hborn Hdel]. cbn in Hp, Hnd, Hdom, Hfresh, Hborn.
  assert (lists_ s !! next_list s = None) as Hnew.
  { apply eq_None_not_Some. rewrite Hdom. intros Hin. apply Hfresh in Hin. lia. }
  assert (Nat.div2 (S (stamp s)) = S (E k)) as Hborn'.
  { destruct (ci_stamp _ _ _ _ _ _ (ei_cnt _ _ _ _ HI)) as [-> _]. replace (S (2 * E k + 1)) with (2 * S (E k))%nat by lia.
    apply Nat.div2_double. }
  eapply (einv_move s s1 i t); [exact HI|done|done|..]; rewrite ?HG.
  - cbn. erewrite rot_step; [done|apply HI|done|unfold rot; by rewrite Hpc].
  - apply (ei_loc _ _ _ _ HI).
  - destruct (ei_cnt _ _ _ _ HI) as [? ? ? ? ? Hg ?]. constructor; try done.
    intros g Hin. destruct (Hg g Hin) as [?|[? _]]; [by left|done].
  - cbn. rewrite (omap_insert_same deleting _ _ t); [|done|unfold deleting; by rewrite Hpc].
    constructor; cbn.
    + simplify_eq. congruence.
    + apply list.NoDup_cons. split; [|done]. intros Hin. apply Hfresh in Hin. lia.
    + intros l. rewrite lookup_insert_is_Some, Hdom, (elem_of_cons _ l (next_list s)).
      destruct (decide (l = next_list s)) as [->|Hne]; [split; by left|]. split; [intros [?|[_ ?]]; [congruence|by right]|].
      intros [?|?]; [congruence|]. right. split; [congruence|done].
    + intros l [->|Hl]%elem_of_cons; [lia|]. apply Hfresh in Hl. lia.
    + intros l b o [Hin|Hin]%elem_of_cons Ho.
      * simplify_eq. rewrite lookup_insert_eq in Ho. injection Ho as <-.
        change (Nat.div2 (S (stamp s)) + 2 = E k + 3)%nat. rewrite Hborn'. lia.
      * rewrite lookup_insert_ne in Ho; [by eapply Hborn|]. intros <-.
        assert (next_list s < next_list s)%nat; [|lia]. apply Hfresh. rewrite !elem_of_cons in *.
        destruct Hin as [Hin|[Hin|[Hin|Hin]]]; simplify_eq; auto. by apply not_elem_of_nil in Hin.
    + intros l o Hl Ho. rewrite lookup_insert_ne in Ho; [by eapply Hdel|]. intros <-.
      assert (next_list s < next_list s)%nat; [|lia]. apply Hfresh. rewrite !elem_of_cons. auto.
  - cbn. rewrite (omap_insert_same owning _ _ t); [|done|unfold owning; by rewrite Hpc].
    destruct (ei_node _ _ _ _ HI) as [? Hlen Hch Hh ? ? ? ?]. constructor; try done.
    + intros l o Ho. destruct (decide (l = next_list s)) as [->|Hne].
      * rewrite lookup_insert_eq in Ho. by simplify_eq.
      * rewrite lookup_insert_ne in Ho by done. eauto.
    + intros l o j h Ho Hj. destruct (decide (l = next_list s)) as [->|Hne].
      * rewrite lookup_insert_eq in Ho. simplify_eq. cbn [heads new_lists] in Hj. apply lookup_replicate in Hj as [-> _].
        exists []. split_and!; [done|constructor|]. intros a. split; [by intros ?%not_elem_of_nil|].
        intros Ha. destruct (Hh _ _ _ Ha) as (o & n & Ho & _). congruence.
      * rewrite lookup_insert_ne in Ho by done. eauto.
    + intros a l j Ha. destruct (Hh _ _ _ Ha) as (o & n & Ho & ?). exists o, n. rewrite lookup_insert_ne; [done|congruence].
  - done.
  - intros j u Hj Hu. constructor; rewrite ?HG; eauto.
    intros q o g _ Ho _ _. exists o. split; [|done]. cbn. rewrite lookup_insert_ne; [done|congruence].
  - unfold weight. cbn. rewrite Hpc. done.
  - apply (ei_log _ _ _ _ HI).
Qed.

(** [active_cnt.load()->fetch_add(1)]: the new epoch begins. *)
Lemma einv_rotate_end s i t d c v k home :
  einv s k (Some (R14 d c)) home -> threads s !! i = Some t -> t_pc t = R14 d c -> cnts s !! c = Some v ->
  einv (set_thread i (Thread (Delete d) (t_calls t) (held t)) (tick (set_cnt c (v + 1) s)))
    (Cfg (X k) (A k) (O k) (Ln k) (La k) (Lo k) 0 (S (E k))) None home.
Proof.
  intros HI Hi Hpc Hc. pose proof (ei_loc _ _ _ _ HI) as [-> ->]. set (t' := Thread _ _ _). set (s1 := tick _). set (k' := Cfg _ _ _ _ _ _ _ _).
  assert (guards (set_thread i t' s1) = guards s) as HG by (by apply (guards_set_thread s1 i t)).
  pose proof (ei_cnt _ _ _ _ HI) as HC. destruct (ci_stamp _ _ _ _ _ _ HC) as [Hst HE].
  destruct (ci_roles _ _ _ _ _ _ HC) as (Hlt & Hne).
  assert (forall g, g ∈ guards s -> cnt_ g = A k /\ gepoch g = E k) as Hall
    by (intros g Hg; destruct (ci_guards _ _ _ _ _ _ HC g Hg) as [?|[? _]]; done).
  destruct (omap_insert_split deleting _ _ _ Hi) as (D & HD1 & HD2). unfold deleting at 2 in HD1. rewrite Hpc in HD1. cbn in HD1.
  specialize (HD2 t'). cbn in HD2.
  eapply (einv_move s s1 i t); [exact HI|done|done|..]; rewrite ?HG.
  - cbn. erewrite rot_step; [done|apply HI|done|unfold rot; by rewrite Hpc].
  - done.
  - destruct HC as [? Hlen Hptr ? Hval Hgd Hb]. cbn in Hptr. constructor; cbn; try done.
    + naive_solver.
    + by rewrite length_insert.
    + lia.
    + intros e w He. destruct (decide (e = X k)) as [->|Hda].
      * rewrite list_lookup_insert_eq in He by (by eapply lookup_lt_Some). simplify_eq.
        rewrite (Hval _ _ Hc), u64_shift. f_equal. lia.
      * rewrite list_lookup_insert_ne in He by done. by rewrite (Hval e w He).
    + intros g Hg. destruct (Hall g Hg). right. split_and!; [done..|lia].
  - cbn [lists_ active_list old_list oldest_list next_list threads set_thread s1 tick set_cnt].
    apply (list_inv_perm _ _ _ (Lx k :: D) _ (guards s)); [by rewrite HD2|done|].
    destruct (ei_list _ _ _ _ HI) as [Hp Hnd Hdom Hfr Hborn Hdel]. cbn in Hp.
    assert (live_ids None k' ++ Lx k :: D ≡ₚ live_ids (Some (R14 (Lx k) (X k))) k ++ omap deleting (threads s)) as Hids
      by (rewrite HD1; cbn; done).
    constructor.
    + done.
    + by rewrite Hids.
    + intros l. rewrite Hdom. by rewrite Hids.
    + intros l. rewrite Hids. apply Hfr.
    + intros l b o Hin Ho. apply (Hborn l b o); [|done]. cbn in *. rewrite !elem_of_cons in *.
      destruct Hin as [Hin|[Hin|[Hin|Hin]]]; simplify_eq; rewrite ?Nat.add_succ_r; cbn; auto; by apply not_elem_of_nil in Hin.
    + intros e o [->|He]%elem_of_cons Ho.
      * assert (born o + 2 = E k)%nat as Hb by (apply (Hborn (Lx k) (E k) o); [cbn; rewrite !elem_of_cons; auto|done]).
        split; [cbn; lia|]. intros g Hg. destruct (Hall g Hg). lia.
      * destruct (Hdel e o) as [? Hg]; [by rewrite HD1|done|]. split; [cbn; lia|done].
  - cbn. rewrite (omap_insert_same owning _ _ t); [|done|unfold owning; by rewrite Hpc]. apply HI.
  - done.
  - intros j u Hj Hu. constructor; rewrite ?HG; eauto.
  - unfold weight. cbn. rewrite Hpc. done.
  - apply (ei_log _ _ _ _ HI).
Qed.

(** ** Deleting the oldest list *)

Lemma held_guards s u g : u ∈ threads s -> g ∈ held u -> g ∈ guards s.
Proof. intros Hu Hg. unfold guards. apply list_elem_of_bind. by exists u. Qed.

Lemma einv_delete s i t d k p home :
  einv s k p home -> threads s !! i = Some t -> t_pc t = Delete d ->
  exists s2 home', delete_lists d s = Some s2 /\ einv (set_thread i (Thread Idle (t_calls t) (held t)) s2) k p home'.
Proof.
  intros HI Hi Hpc. destruct (ei_list _ _ _ _ HI) as [Hp Hnd Hdom Hfr Hborn Hdel].
  destruct (omap_insert_split deleting _ _ _ Hi) as (D & HD1 & HD2). unfold deleting at 2 in HD1. rewrite Hpc in HD1. cbn in HD1.
  assert (d ∈ omap deleting (threads s)) as Hd by (rewrite HD1; by left).
  assert (is_Some (lists_ s !! d)) as [o Ho] by (apply Hdom, elem_of_app; by right).
  destruct (Hdel d o Hd Ho) as [HbE Hbg].
  destruct (delete_lists_ok s d o _ _ _ _ (ei_node _ _ _ _ HI) Ho) as (ns & cs & evs & Hrun & Hw & [Hmap Hev] & Hndc & Hin).
  destruct (node_inv_delete _ _ _ _ _ _ _ _ _ (ei_node _ _ _ _ HI) Hw Hin) as (home' & HN').
  eexists _, home'. split; [exact Hrun|]. set (t' := Thread _ _ _). set (s1 := set_lists _ _).
  specialize (HD2 t'). cbn in HD2.
  assert (guards (set_thread i t' s1) = guards s) as HG by (by apply (guards_set_thread s1 i t)).
  assert (live_ids p k ++ omap deleting (threads s) ≡ₚ d :: live_ids p k ++ D) as Hids
    by (rewrite HD1; symmetry; apply Permutation_middle).
  rewrite Hids in Hnd. apply list.NoDup_cons in Hnd as [Hdn Hnd'].
  eapply (einv_move s s1 i t); [exact HI|done|done|..]; rewrite ?HG.
  - cbn. rewrite (omap_insert_same rot _ _ t); [apply HI|done|unfold rot; by rewrite Hpc].
  - apply HI.
  - apply HI.
  - cbn [lists_ active_list old_list oldest_list next_list threads set_thread s1 set_lists set_log set_nodes].
    apply (list_inv_perm _ _ _ D _ (guards s)); [by rewrite HD2|done|]. constructor; try done.
    + intros l. rewrite lookup_delete_is_Some, Hdom, Hids, elem_of_cons. split.
      * intros [Hne [?|?]]; [congruence|done].
      * intros Hl. split; [|by right]. by intros ->.
    + intros l Hl. apply Hfr. rewrite Hids. by right.
    + intros l b x Hl Hx. apply lookup_delete_Some in Hx as [_ Hx]. eauto.
    + intros l x Hl Hx. apply lookup_delete_Some in Hx as [_ Hx]. apply (Hdel l x); [|done]. rewrite HD1. by right.
  - cbn. rewrite (omap_insert_same owning _ _ t); [exact HN'|done|unfold owning; by rewrite Hpc].
  - done.
  - intros j u Hj Hu. constructor; rewrite ?HG; eauto.
    + intros q x g Hq Hx Hg Hge. exists x. split; [|done]. cbn. rewrite lookup_delete_ne; [done|]. intros Heq.
      rewrite <-Heq, Ho in Hx; injection Hx as <-. assert (born o < gepoch g)%nat; [|lia]. apply Hbg. eapply held_guards; [|done].
      by eapply list_elem_of_lookup_2.
    + intros a n Ha Hn Hne. cbn. rewrite Hw, decide_False; [done|]. intros [x Hx]%Hin.
      assert (a ∈ omap owning (threads s)) as Hf by (apply list_elem_of_omap; exists u; split; [by eapply list_elem_of_lookup_2|done]).
      by rewrite (ni_flight _ _ _ _ _ _ (ei_node _ _ _ _ HI) a Hf) in Hx.
  - unfold weight. cbn. rewrite Hpc. done.
  - intros e x He Hx. cbn in He. apply elem_of_app in He as [He|He]; [by apply (ei_log _ _ _ _ HI e)|].
    destruct (Hev e He) as (n & Hn & _ & Hhs & ->). rewrite Hhs in Hx. unfold guard_ids. intros (g & -> & Hg)%list_elem_of_fmap.
    assert (ev_node e ∈ cs) as Hc.
    { apply elem_of_reverse. rewrite <-Hmap. apply list_elem_of_fmap. by exists e. }
    apply Hin in Hc as [y Hy]. destruct (ni_home _ _ _ _ _ _ (ei_node _ _ _ _ HI) _ _ _ Hy) as (o' & n' & ? & _ & ? & _ & _ & [Hok _]).
    simplify_eq. specialize (Hok g Hg Hx). specialize (Hbg g Hg). lia.
Qed.

Lemma rotate_preserves s i t s' k p home :
  einv s k p home -> threads s !! i = Some t -> rotate_step i t s = Some s' -> exists k' p' home', einv s' k' p' home'.
Proof.
  intros HI Hi Hstep. unfold rotate_step, goto in Hstep.
  destruct (t_pc t) eqn:Epc; try done.
  all: try (assert (rot t = Some (t_pc t)) as Hr by (unfold rot; by rewrite Epc);
    pose proof (rot_self _ _ _ _ _ (ei_rot _ _ _ _ HI) Hi Hr) as Hp; subst p).
  all: try (rewrite Epc in HI; pose proof (ei_loc _ _ _ _ HI) as Hloc; cbn in Hloc;
    pose proof (ci_ptrs _ _ _ _ _ _ (ei_cnt _ _ _ _ HI)) as Hcp; cbn in Hcp;
    pose proof (li_ptrs _ _ _ _ _ _ _ (ei_list _ _ _ _ HI)) as Hlp; cbn in Hlp;
    injection Hcp as Hc1 Hc2 Hc3; injection Hlp as Hl1 Hl2 Hl3; rewrite <-Epc in HI).
  all: try (injection Hstep as <-; do 3 eexists; eapply einv_rotate; [exact HI|done|exact Hr|done|done|done|..];
    cbn; rewrite ?Epc; cbn; intuition congruence).
  - injection Hstep as <-. rewrite Epc in HI. do 3 eexists. by eapply einv_new_list.
  - destruct (cnts s !! c) as [v|] eqn:Ec; [|done]. cbn in Hstep. injection Hstep as <-. rewrite Epc in HI. do 3 eexists.
    by eapply einv_rotate_end.
  - destruct (einv_delete _ _ _ _ _ _ _ HI Hi Epc) as (s2 & home' & Hd & HI'). rewrite Hd in Hstep. cbn in Hstep.
    injection Hstep as <-. eauto.
Qed.

(** ** Nodes *)

Lemma owning_elem s j u a : threads s !! j = Some u -> owning u = Some a -> a ∈ omap owning (threads s).
Proof. intros Hu Ha. apply list_elem_of_omap. exists u. split; [by eapply list_elem_of_lookup_2|done]. Qed.

(** A node somebody owns was freed and is in no list. *)
Lemma owned_node s k p home j u a : einv s k p home -> threads s !! j = Some u -> owning u = Some a ->
  exists n, nodes s !! a = Some n /\ next n <> NOT_OWNED /\ home !! a = None.
Proof.
  intros HI Hj Ha. assert (thread_ok s u) as Hok by (apply HI; by eapply list_elem_of_lookup_2).
  pose proof (ni_flight _ _ _ _ _ _ (ei_node _ _ _ _ HI) a (owning_elem _ _ _ _ Hj Ha)) as Hh.
  unfold thread_ok, owning in *. destruct (t_pc u); simplify_eq;
    [destruct Hok as (_ & n & ? & ? & _)|destruct Hok as (_ & n & ? & ? & _)|destruct Hok as (_ & (n & ? & ? & _) & _)|destruct Hok as (_ & n & ? & ? & _)];
    by exists n.
Qed.

(** A node that was not freed is in no list and nobody owns it. *)
Lemma unowned_node s k p home a n : einv s k p home -> nodes s !! a = Some n -> next n = NOT_OWNED ->
  home !! a = None /\ forall j u, threads s !! j = Some u -> owning u <> Some a.
Proof.
  intros HI Ha Hn. split.
  - apply eq_None_not_Some. intros [[l i] Hl]. destruct (ni_home _ _ _ _ _ _ (ei_node _ _ _ _ HI) _ _ _ Hl) as (? & m & _ & _ & Hm & Hne & _).
    congruence.
  - intros j u Hj Hu. destruct (owned_node _ _ _ _ _ _ _ HI Hj Hu) as (m & Hm & Hne & _). congruence.
Qed.

Lemma einv_node s i t t' a n k p home :
  einv s k p home -> threads s !! i = Some t -> held t' = held t -> rot t = None -> rot t' = None ->
  deleting t = None -> deleting t' = None -> home !! a = None -> 1 < a ->
  (forall j u, j <> i -> threads s !! j = Some u -> owning u <> Some a) ->
  (owning t' = owning t \/ (owning t = None /\ owning t' = Some a)) -> (next n <> NOT_OWNED -> owning t' = Some a) ->
  (weight t' <= weight t)%nat ->
  thread_ok (set_thread i t' (set_nodes (<[a := n]> (nodes s)) s)) t' ->
  einv (set_thread i t' (set_nodes (<[a := n]> (nodes s)) s)) k p home.
Proof.
  intros HI Hi Hh Hr Hr' Hd Hd' Ha H1 Hoth Hown Hne Hw Ht. set (s1 := set_nodes _ s) in *.
  assert (guards (set_thread i t' s1) = guards s) as HG by (by apply (guards_set_thread s1 i t)).
  destruct (omap_insert_split owning _ _ _ Hi) as (F & HF1 & HF2). specialize (HF2 t').
  assert (a ∉ F) as HaF.
  { intros Hin. assert (a ∈ omap owning (threads s)) as Hin' by (rewrite HF1; apply elem_of_app; by right).
    apply list_elem_of_omap in Hin' as (u & Hu & Hou). apply list_elem_of_lookup_1 in Hu as [j Hj].
    destruct (decide (j = i)) as [->|Hji]; [|by eapply Hoth]. simplify_eq.
    pose proof (ni_nodup _ _ _ _ _ _ (ei_node _ _ _ _ HI)) as Hnd. rewrite HF1, Hou in Hnd. cbn in Hnd.
    by apply list.NoDup_cons in Hnd as [? _]. }
  eapply (einv_move s s1 i t); [exact HI|done|done|..]; rewrite ?HG.
  - cbn. rewrite (omap_insert_same rot _ _ t) by congruence. apply HI.
  - apply HI.
  - apply HI.
  - cbn. rewrite (omap_insert_same deleting _ _ t) by congruence. apply HI.
  - pose proof (ei_node _ _ _ _ HI) as HN. pose proof (ni_nodup _ _ _ _ _ _ HN) as Hnd. pose proof (ni_flight _ _ _ _ _ _ HN) as Hfl.
    assert (forall b, b ∈ omap owning (threads s) -> b ∈ omap owning (threads (set_thread i t' s1))) as Hsub.
    { intros b. cbn. rewrite HF1, HF2. rewrite !elem_of_app. destruct Hown as [->|[-> _]]; [done|]. intros [?%not_elem_of_nil|?]; [done|by right]. }
    eapply node_inv_insert; [exact HN|done|done| |exact Hsub| |].
    + intros Hn. eapply (owning_elem (set_thread i t' s1) i t'); [|auto]. cbn. apply list_lookup_insert_eq. by eapply lookup_lt_Some.
    + cbn. destruct Hown as [Heq|[H0 Heq]]; [by rewrite (omap_insert_same owning _ _ t)|].
      rewrite HF2, Heq. rewrite HF1, H0 in Hnd. cbn in *. by apply list.NoDup_cons.
    + intros b Hb. cbn in Hb. destruct Hown as [Heq|[H0 Heq]]; [rewrite (omap_insert_same owning _ _ t) in Hb by done; auto|].
      rewrite HF2, Heq in Hb. cbn in Hb. apply elem_of_cons in Hb as [->|Hb]; [done|]. apply Hfl. rewrite HF1. apply elem_of_app. by right.
  - done.
  - intros j u Hj Hu. constructor; rewrite ?HG; eauto.
    intros b m Hb Hm _. cbn. rewrite lookup_insert_ne; [done|]. intros ->. by eapply Hoth.
  - done.
  - apply (ei_log _ _ _ _ HI).
Qed.

Lemma einv_push s i t q n o k p home :
  einv s k p home -> threads s !! i = Some t -> t_pc t = HeadCas q (next n) -> nodes s !! ap_node q = Some n ->
  lists_ s !! ap_list q = Some o -> heads o !! ap_slot q = Some (next n) ->
  exists home', einv (set_thread i (Thread Idle (t_calls t) (held t))
    (set_lists (<[ap_list q := Lists (<[ap_slot q := ap_node q]> (heads o)) (born o)]> (lists_ s)) s)) k p home'.
Proof.
  intros HI Hi Hpc Hn Ho Hh. set (t' := Thread _ _ _). set (s1 := set_lists _ s).
  assert (guards (set_thread i t' s1) = guards s) as HG by (by apply (guards_set_thread s1 i t)).
  assert (thread_ok s t) as Hok by (apply HI; by eapply list_elem_of_lookup_2). unfold thread_ok in Hok. rewrite Hpc in Hok.
  destruct Hok as ((o' & Ho' & Hslot & _ & Hhs) & n' & Hn' & Hne & Hhol & Hd & _). simplify_eq.
  destruct (omap_insert_split owning _ _ _ Hi) as (F & HF1 & HF2). unfold owning at 2 in HF1. rewrite Hpc in HF1. cbn in HF1.
  specialize (HF2 t'). cbn in HF2.
  exists (<[ap_node q := (ap_list q, ap_slot q)]> home).
  eapply (einv_move s s1 i t); [exact HI|done|done|..]; rewrite ?HG.
  - cbn. rewrite (omap_insert_same rot _ _ t); [apply HI|done|unfold rot; by rewrite Hpc].
  - apply HI.
  - apply HI.
  - cbn. rewrite (omap_insert_same deleting _ _ t); [|done|unfold deleting; by rewrite Hpc].
    destruct (ei_list _ _ _ _ HI) as [? ? Hdom ? Hborn Hdel].
    assert (forall l x, <[ap_list q := Lists (<[ap_slot q:=ap_node q]> (heads o)) (born o)]> (lists_ s) !! l = Some x ->
      exists y, lists_ s !! l = Some y /\ born y = born x) as Hsame.
    { intros l x Hx. apply lookup_insert_Some in Hx as [[<- <-]|[_ Hx]]; [by exists o|by exists x]. }
    constructor; try done.
    + intros l. rewrite <-Hdom, lookup_insert_is_Some. split; [intros [<-|[_ ?]]; [by eexists|done]|].
      intros Hl. destruct (decide (ap_list q = l)); [by left|by right].
    + intros l b x Hl Hx. destruct (Hsame l x Hx) as (y & Hy & <-). eauto.
    + intros l x Hl Hx. destruct (Hsame l x Hx) as (y & Hy & <-). eauto.
  - cbn [nodes lists_ next_gid threads set_thread s1 set_lists].
    eapply node_inv_push; [apply HI| |done|done|done|done|done|by rewrite Hhol]. rewrite HF1. by rewrite HF2.
  - done.
  - intros j u Hj Hu. constructor; rewrite ?HG; eauto.
    intros r x g _ Hx _ _. cbn. destruct (decide (ap_list r = ap_list q)) as [Heq|Hne'].
    + rewrite Heq, lookup_insert_eq. eexists. split; [done|]. cbn. congruence.
    + rewrite lookup_insert_ne by done. by exists x.
  - unfold weight. cbn. rewrite Hpc. done.
  - apply (ei_log _ _ _ _ HI).
Qed.

Lemma append_preserves s i t s' k p home :
  einv s k p home -> threads s !! i = Some t -> own_step i t s = Some s' \/ push_step i t s = Some s' -> exists home', einv s' k p home'.
Proof.
  intros HI Hi Hstep. assert (thread_ok s t) as Hok by (apply HI; by eapply list_elem_of_lookup_2).
  assert (forall q, rot (Thread q [] []) = rot t -> deleting (Thread q [] []) = deleting t -> owning (Thread q [] []) = owning t ->
    (weight (Thread q (t_calls t) (held t)) <= weight t)%nat -> thread_ok s (Thread q (t_calls t) (held t)) ->
    einv (set_thread i (Thread q (t_calls t) (held t)) s) k p home) as Hq by (intros q ? ? ? ? ?; by eapply einv_quiet).
  assert (forall q a n, nodes s !! a = Some n \/ True -> guards (set_thread i (Thread q (t_calls t) (held t)) (set_nodes (<[a := n]> (nodes s)) s)) = guards s) as HG
    by (intros q a n _; by apply (guards_set_thread (set_nodes (<[a := n]> (nodes s)) s) i t)).
  unfold own_step, push_step, goto in Hstep. unfold thread_ok in Hok.
  destruct (t_pc t) as [| | | | | | | | | | | | | | | | | | | | | | | | |q|q|q|q|q h|q h] eqn:Epc; destruct Hstep as [Hstep|Hstep]; try done.
  - destruct (nodes s !! ap_node q) as [n|] eqn:En; [|done]. cbn in Hstep. injection Hstep as <-. exists home.
    destruct (next n =? NOT_OWNED); apply Hq; unfold rot, deleting, owning, weight, thread_ok; rewrite ?Epc; cbn; (done || lia).
  - destruct (nodes s !! ap_node q) as [n|] eqn:En; [|done]. cbn in Hstep. exists home. destruct (Z.eqb_spec (next n) NOT_OWNED) as [Heq|Hne].
    + injection Hstep as <-. destruct (unowned_node _ _ _ _ _ _ HI En Heq) as [Hh Hnoone].
      pose proof (ni_addr _ _ _ _ _ _ (ei_node _ _ _ _ HI) _ _ En).
      eapply (einv_node s i t); try solve [unfold rot, deleting, owning, weight; rewrite ?Epc; cbn; (done || lia || eauto)].
      unfold thread_ok. rewrite HG by (by right). split; [exact Hok|]. eexists. cbn. rewrite lookup_insert_eq. done.
    + injection Hstep as <-. apply Hq; unfold rot, deleting, owning, weight, thread_ok; rewrite ?Epc; cbn; (done || lia).
  - destruct (nodes s !! ap_node q) as [n|] eqn:En; [|done]. cbn in Hstep. injection Hstep as <-. exists home.
    destruct Hok as (Hap & m & Hm & Hne & Hhol & _). simplify_eq.
    assert (owning t = Some (ap_node q)) as Ho by (unfold owning; by rewrite Epc).
    destruct (owned_node _ _ _ _ _ _ _ HI Hi Ho) as (_ & _ & _ & Hh). pose proof (ni_addr _ _ _ _ _ _ (ei_node _ _ _ _ HI) _ _ En).
    eapply (einv_node s i t); try solve [unfold rot, deleting, weight; rewrite ?Epc; cbn; (done || lia || eauto)].
    + intros j u Hj Hu Hou. destruct Hj. eapply omap_NoDup_inj; [apply HI|..]; eauto.
    + unfold thread_ok. rewrite HG by (by right). split; [exact Hap|]. eexists. cbn. rewrite lookup_insert_eq. done.
  - destruct Hok as [Hap Hown]. destruct (lists_ s !! ap_list q) as [o|] eqn:Eo; [|done]. cbn in Hstep.
    destruct (heads o !! ap_slot q) as [h|] eqn:Eh; [|done]. cbn in Hstep. injection Hstep as <-. exists home.
    apply Hq; unfold rot, deleting, owning, weight, thread_ok; rewrite ?Epc; cbn; try done. split_and!; try done.
    destruct (ni_chain _ _ _ _ _ _ (ei_node _ _ _ _ HI) _ _ _ _ Eo Eh) as ([|a c] & Hc & _); cbn in Hc; [by subst h|].
    destruct Hc as (-> & _ & n & Hn & _). pose proof (ni_addr _ _ _ _ _ _ (ei_node _ _ _ _ HI) _ _ Hn). unfold NOT_OWNED. lia.
  - destruct (nodes s !! ap_node q) as [n|] eqn:En; [|done]. cbn in Hstep. injection Hstep as <-. exists home.
    destruct Hok as (Hap & (m & Hm & Hne & Hhol & Hd) & Hh1). simplify_eq.
    assert (owning t = Some (ap_node q)) as Ho by (unfold owning; by rewrite Epc).
    destruct (owned_node _ _ _ _ _ _ _ HI Hi Ho) as (_ & _ & _ & Hh). pose proof (ni_addr _ _ _ _ _ _ (ei_node _ _ _ _ HI) _ _ En).
    eapply (einv_node s i t); try solve [unfold rot, deleting, weight; rewrite ?Epc; cbn; (done || lia || eauto)].
    + intros j u Hj Hu Hou. destruct Hj. eapply omap_NoDup_inj; [apply HI|..]; eauto.
    + unfold thread_ok. rewrite HG by (by right). split; [exact Hap|]. eexists. cbn. rewrite lookup_insert_eq. done.
  - destruct Hok as (Hap & n & Hn & Hne & Hhol & Hd & Hnx). destruct (lists_ s !! ap_list q) as [o|] eqn:Eo; [|done]. cbn in Hstep.
    destruct (heads o !! ap_slot q) as [h'|] eqn:Eh; [|done]. cbn in Hstep. destruct (Z.eqb_spec h' h) as [->|Hhh]; injection Hstep as <-.
    + subst h. by eapply einv_push.
    + exists home. apply Hq; unfold rot, deleting, owning, weight, thread_ok; rewrite ?Epc; cbn; try done. split; [done|]. by exists n.
Qed.

(** ** Calls *)

Lemma append_started s t i k p home a d (slot : nat) :
  einv s k p home -> threads s !! i = Some t -> held t <> [] -> (slot < NUM_LISTS)%nat ->
  append_ok (lists_ s) (guards s) (next_gid s) t (Append (active_list s) slot a d (guard_ids s)).
Proof.
  intros HI Hi Hh Hs. destruct (held t) as [|g gs] eqn:Eh; [done|].
  destruct (ei_list _ _ _ _ HI) as [Hp _ Hdom _ Hborn _]. 
  assert (active_list s = (list_layout p k).1.1) as Ha by (by rewrite <-Hp).
  assert (exists b, (active_list s, b) ∈ epochs p k /\ (E k + 2 <= b)%nat) as (b & Hin & Hb).
  { rewrite Ha. destruct p as [[]|]; cbn; eexists; (split; [apply elem_of_cons; by left|lia]). }
  assert (is_Some (lists_ s !! active_list s)) as [o Ho].
  { apply Hdom, elem_of_app. left. unfold live_ids. apply list_elem_of_fmap. exists (active_list s, b). done. }
  pose proof (Hborn _ _ _ Hin Ho) as Hbo.
  assert (forall x, x ∈ guards s -> (gepoch x <= born o)%nat) as Hall.
  { intros x Hx. destruct (ci_guards _ _ _ _ _ _ (ei_cnt _ _ _ _ HI) x Hx) as [[_ ?]|(_ & _ & ?)]; lia. }
  exists o. split_and!; [done..| |split].
  - exists g. rewrite Eh. split; [by left|]. apply Hall. eapply held_guards; [by eapply list_elem_of_lookup_2|]. rewrite Eh. by left.
  - auto.
  - intros x (g' & -> & Hg')%list_elem_of_fmap. by apply (ni_gid _ _ _ _ _ _ (ei_node _ _ _ _ HI)).
Qed.

Lemma start_preserves s i t c ks s' k p home :
  einv s k p home -> threads s !! i = Some t -> t_pc t = Idle -> t_calls t = c :: ks -> disciplined i s = true ->
  start i t c ks s = Some s' -> exists home', einv s' k p home'.
Proof.
  intros HI Hi Hpc Hks Hdis Hstep. unfold disciplined in Hdis. rewrite Hi, Hpc, Hks in Hdis.
  assert (rot t = None /\ deleting t = None /\ owning t = None) as (Hr & Hd & Ho) by (unfold rot, deleting, owning; by rewrite Hpc).
  assert (weight t = S (length ks + length (held t))) as Hw by (unfold weight; rewrite Hpc, Hks; cbn; lia).
  destruct c as [| |a|a cyc d|a d|a]; cbn [start] in Hstep; unfold leave_step, malloc_step, free_start, free_now_step, began in Hstep.
  - injection Hstep as <-. exists home. eapply einv_quiet; try done. rewrite Hw. unfold weight. cbn. lia.
  - destruct (held t) as [|g gs] eqn:Eh; [done|]. destruct (cnts s !! cnt_ g) as [v|] eqn:Ev; [|done]. cbn in Hstep.
    injection Hstep as <-. exists home. by eapply einv_leave.
  - destruct (nodes s !! a) as [n|] eqn:En; [done|]. destruct (1 <? a) eqn:Ea; [|done]. bool_prop. injection Hstep as <-. exists home.
    assert (home !! a = None) as Hh.
    { apply eq_None_not_Some. intros [[l j] Hl]. destruct (ni_home _ _ _ _ _ _ (ei_node _ _ _ _ HI) _ _ _ Hl) as (? & ? & _ & _ & ? & _). congruence. }
    eapply (einv_node s i t); try done; [|by left|unfold weight in *; cbn; lia].
    intros j u _ Hu Hou. destruct (owned_node _ _ _ _ _ _ _ HI Hu Hou) as (? & ? & _). congruence.
  - injection Hstep as <-. exists home. bool_prop. apply bool_decide_eq_false in Hdis.
    eapply einv_quiet; try done; [unfold weight in *; cbn; lia|].
    eapply (append_started s t); [done..|]. unfold NUM_LISTS. pose proof (Z.mod_pos_bound cyc (Z.of_nat 64) ltac:(lia)). lia.
  - injection Hstep as <-. exists home. bool_prop. apply bool_decide_eq_false in Hdis.
    eapply einv_quiet; try done; [unfold weight in *; cbn; lia|]. eapply (append_started s t); [done..|]. vm_compute. lia.
  - destruct (nodes s !! a) as [n|] eqn:En; [|done]. bool_prop. injection Hstep as <-. exists home.
    destruct (unowned_node _ _ _ _ _ _ HI En Hdis) as [Hh Hno]. set (t' := Thread _ _ _). set (s1 := set_nodes _ s).
    assert (guards (set_thread i t' s1) = guards s) as HG by (by apply (guards_set_thread s1 i t)).
    eapply (einv_move s s1 i t); [exact HI|done|done|..]; rewrite ?HG; try (apply HI); try done.
    + cbn. rewrite (omap_insert_same rot _ _ t t' Hi); [apply HI|by rewrite Hr].
    + cbn. rewrite (omap_insert_same deleting _ _ t t' Hi); [apply HI|by rewrite Hd].
    + cbn. rewrite (omap_insert_same owning _ _ t t' Hi); [|by rewrite Ho]. apply node_inv_free_now; [apply HI|done].
    + intros j u Hj Hu. constructor; rewrite ?HG; eauto. intros b m Hb Hm _. cbn. rewrite lookup_delete_ne; [done|]. intros ->. by eapply Hno.
    + unfold weight in *. cbn. lia.
Qed.

Lemma step_preserves s i s' k p home :
  einv s k p home -> disciplined i s = true -> tstep i s = Some s' -> exists k' p' home', einv s' k' p' home'.
Proof.
  intros HI Hdis Hstep. unfold tstep in Hstep. destruct (threads s !! i) as [t|] eqn:Hi; [|done]. cbn in Hstep.
  assert ((exists home', einv s' k p home') -> exists k' p' home', einv s' k' p' home') as Hsame by (intros [h' ?]; eauto).
  destruct (t_pc t) eqn:Epc; try (by eapply rotate_preserves);
    try (apply Hsame; eapply append_preserves; [done|done|by left]); try (apply Hsame; eapply append_preserves; [done|done|by right]);
    try (do 3 eexists; eapply einv_exit_quiet; [done..| |done]; congruence).
  - destruct (t_calls t) as [|c ks] eqn:Eks; [done|]. apply Hsame. by eapply start_preserves.
  - unfold enter_step, goto in Hstep. rewrite Epc in Hstep. destruct (cnts s !! c) eqn:Ec; [|done]. cbn in Hstep. injection Hstep as <-.
    do 3 eexists. eapply einv_quiet; unfold rot, deleting, owning, weight; rewrite ?Epc; cbn; done || exact HI.
  - unfold enter_step, goto in Hstep. rewrite Epc in Hstep. destruct (cnts s !! c) as [w|] eqn:Ec; [|done]. cbn in Hstep.
    destruct (Z.odd v && (w =? v)) eqn:Eb.
    + bool_prop. subst w. injection Hstep as <-. do 3 eexists. by eapply einv_enter.
    + injection Hstep as <-. do 3 eexists. eapply einv_quiet; unfold rot, deleting, owning, weight; rewrite ?Epc; cbn; done || exact HI.
  - destruct (decide (cnts s !! ac = Some v)) as [Hc|Hc].
    + unfold disciplined in Hdis. rewrite Hi, Epc in Hdis. apply orb_true_iff in Hdis as [Hst|Hno].
      * apply bool_decide_eq_true in Hst. unfold exit_step in Hstep. rewrite Epc, Hc in Hstep. cbn in Hstep. rewrite Z.eqb_refl in Hstep.
        injection Hstep as <-. do 3 eexists. by eapply einv_rotate_start.
      * by rewrite bool_decide_true in Hno.
    + do 3 eexists. eapply einv_exit_quiet; [done..| |done]. congruence.
Qed.

End Steps.

(** ** Executions *)

Definition cfg0 : cfg := Cfg 0 1 2 0 1 2 0 2.

Lemma idle_threads (f : thread -> option nat) progs :
  (forall q, f (Thread Idle q []) = None) -> omap f (map (fun q => Thread Idle q []) progs) = [].
Proof. intros Hf. induction progs as [|q progs IH]; [done|]. cbn. by rewrite Hf. Qed.

Lemma init_guards progs : guards (init progs) = [].
Proof. unfold guards. cbn. induction progs; [done|]. cbn. done. Qed.

Lemma einv_init progs : Z.of_nat (sum_list_with length progs) < 2 ^ 62 -> einv (init progs) cfg0 None ∅.
Proof.
  intros Hsum. constructor; rewrite ?init_guards.
  - cbn. induction progs; [done|]. cbn. apply IHprogs. cbn in Hsum. lia.
  - done.
  - constructor; cbn; try done; try lia.
    + intros c v Hc. destruct c as [|[|[|c]]]; cbn in Hc; simplify_eq; vm_compute; done.
    + intros g Hg. by apply not_elem_of_nil in Hg.
  - assert (omap deleting (threads (init progs)) = []) as -> by (by apply idle_threads).
    assert (forall l, is_Some (lists_ (init progs) !! l) <-> l ∈ [0; 1; 2]%nat) as Hdom.
    { intros l. cbn [lists_ init]. rewrite !lookup_insert_is_Some, !elem_of_cons. split.
      - intros [<-|[_ [<-|[_ Hl]]]]; [auto..|]. apply lookup_singleton_is_Some in Hl as <-. auto.
      - intros [->|[->|[->|Hl]]]; [by left|right; split; [done|by left]|right; split; [done|right; split; [done|]]|by apply not_elem_of_nil in Hl].
        rewrite lookup_singleton_eq. by eexists. }
    constructor; try done.
    + cbn. repeat constructor; rewrite ?elem_of_cons, ?not_elem_of_nil; set_solver.
    + cbn. intros l Hl. rewrite !elem_of_cons in Hl. destruct Hl as [->|[->|[->|Hl]]]; [lia..|by apply not_elem_of_nil in Hl].
    + cbn. intros l b o Hin Ho. rewrite !elem_of_cons in Hin.
      destruct Hin as [Hin|[Hin|[Hin|Hin]]]; simplify_eq; [..|by apply not_elem_of_nil in Hin]; vm_compute in Ho; by simplify_eq.
    + intros d o Hd. by apply not_elem_of_nil in Hd.
  - assert (omap owning (threads (init progs)) = []) as ->.
    { cbn. clear. induction progs; done. }
    assert (forall l o, lists_ (init progs) !! l = Some o -> heads o = replicate NUM_LISTS 0) as Hheads.
    { intros l o Ho. cbn [lists_ init] in Ho. apply lookup_insert_Some in Ho as [[_ <-]|[_ Ho]]; [done|].
      apply lookup_insert_Some in Ho as [[_ <-]|[_ Ho]]; [done|]. apply lookup_singleton_Some in Ho as [_ <-]. done. }
    constructor; try done.
    + intros l o Ho. rewrite (Hheads _ _ Ho). by rewrite length_replicate.
    + intros l o i h Ho Hi. rewrite (Hheads _ _ Ho) in Hi. apply lookup_replicate in Hi as [-> _]. exists [].
      split_and!; [done|constructor|]. intros a. rewrite lookup_empty. split; [by intros ?%not_elem_of_nil|done].
    + constructor.
    + intros g Hg. by apply not_elem_of_nil in Hg.
  - intros t Ht. cbn in Ht. apply list_elem_of_fmap in Ht as (q & -> & _). done.
  - unfold total. cbn. clear -Hsum. enough (sum_list_with weight (map (fun q => Thread Idle q []) progs) = sum_list_with length progs) as -> by done.
    clear. induction progs as [|q progs IH]; [done|]. cbn. rewrite IH. unfold weight. cbn. lia.
  - intros e x He. by apply not_elem_of_nil in He.
Qed.

Lemma dreachable_einv progs s :
  Z.of_nat (sum_list_with length progs) < 2 ^ 62 -> dreachable (init progs) s -> exists k p home, einv s k p home.
Proof.
  intros Hsum Hr. induction Hr as [|s i s' Hr (k & p & home & HI) Hd Hstep].
  - do 3 eexists. by apply einv_init.
  - by eapply step_preserves.
Qed.

(** C6: In every interleaving of any programs in which [free] is called inside a guard and a
    rotation starts only when no other rotation happened since its thread began to test the
    counters, a node is reclaimed only when no guard that was alive when it was freed is still
    alive; and deleting a list never fails: it follows no dangling pointer, calls no empty
    closure and terminates. *)
Theorem epoch_no_use_after_free progs s :
  Z.of_nat (sum_list_with length progs) < 2 ^ 62 -> dreachable (init progs) s ->
  (forall e x, e ∈ log s -> x ∈ ev_holders e -> x ∉ ev_guards e) /\
  (forall i t d, threads s !! i = Some t -> t_pc t = Delete d -> is_Some (tstep i s)).
Proof.
  intros Hsum Hr. destruct (dreachable_einv _ _ Hsum Hr) as (k & p & home & HI). split; [apply (ei_log _ _ _ _ HI)|].
  intros i t d Hi Hpc. destruct (einv_delete _ _ _ _ _ _ _ HI Hi Hpc) as (s2 & home' & Hd & _).
  unfold tstep. rewrite Hi. cbn. rewrite Hpc. unfold rotate_step. rewrite Hpc, Hd. by eexists.
Qed.

(** Nobody is inside a call or a guard. *)
Definition quiescent (s : est) : Prop := forall t, t ∈ threads s -> t_pc t = Idle /\ held t = [].

Definition quiescentb (s : est) : bool :=
  forallb (fun t => match t_pc t, held t with Idle, [] => true | _, _ => false end) (threads s).

Lemma quiescentb_ok s : quiescentb s = true -> quiescent s.
Proof.
  unfold quiescentb, quiescent. intros Hq t Ht. rewrite forallb_forall in Hq. apply list_elem_of_In in Ht.
  specialize (Hq t Ht). destruct (t_pc t), (held t); done.
Qed.

Lemma quiescent_omap {B} (f : thread -> option B) s :
  (forall t, t_pc t = Idle -> f t = None) -> quiescent s -> omap f (threads s) = [].
Proof.
  intros Hf Hq. unfold quiescent in Hq. induction (threads s) as [|t l IH]; [done|]. cbn.
  rewrite (Hf t) by (apply Hq; by left). apply IH. intros u Hu. apply Hq. by right.
Qed.

(** Deleting one [lists] object of a quiescent state. *)
Lemma delete_one s l o F G ng home :
  node_inv (nodes s) (lists_ s) F G ng home -> lists_ s !! l = Some o ->
  exists s' home', delete_lists l s = Some s' /\ node_inv (nodes s') (lists_ s') F G ng home' /\
    lists_ s' = delete l (lists_ s) /\ old_list s' = old_list s /\ active_list s' = active_list s /\
    (forall a n, nodes s' !! a = Some n -> nodes s !! a = Some n) /\
    (forall a n, nodes s !! a = Some n -> next n = NOT_OWNED -> nodes s' !! a = Some n).
Proof.
  intros HN Ho. destruct (delete_lists_ok _ _ _ _ _ _ _ HN Ho) as (ns & cs & evs & Hrun & Hw & _ & _ & Hin).
  destruct (node_inv_delete _ _ _ _ _ _ _ _ _ HN Hw Hin) as (home' & HN'). eexists _, home'. split; [exact Hrun|].
  split_and!; try done; cbn.
  - intros a n Ha. rewrite Hw in Ha. by case_decide.
  - intros a n Ha Hn. rewrite Hw. rewrite decide_False; [done|]. intros [i Hi]%Hin.
    destruct (ni_home _ _ _ _ _ _ HN _ _ _ Hi) as (? & m & _ & _ & Hm & Hne & _). congruence.
Qed.

(** When every thread is idle and outside guards, [destroy] succeeds and leaves exactly the
    nodes that were never freed: every node ever handed to [free] has been reclaimed, by an
    earlier rotation or now, and none is left behind. *)
Theorem epoch_destroy_reclaims progs s :
  Z.of_nat (sum_list_with length progs) < 2 ^ 62 -> dreachable (init progs) s -> quiescent s ->
  exists s', destroy s = Some s' /\
    forall a n, nodes s' !! a = Some n <-> nodes s !! a = Some n /\ next n = NOT_OWNED.
Proof.
  intros Hsum Hr Hq. destruct (dreachable_einv _ _ Hsum Hr) as (k & p & home & HI).
  pose proof (ei_rot _ _ _ _ HI) as Hrot. rewrite quiescent_omap in Hrot; [|intros t Ht; unfold rot; by rewrite Ht|done].
  destruct p; [done|]. destruct (ei_list _ _ _ _ HI) as [Hp Hnd Hdom _ _ _].
  assert (omap deleting (threads s) = []) as HD by (apply quiescent_omap; [intros t Ht; unfold deleting; by rewrite Ht|done]).
  rewrite HD in Hnd, Hdom.
  cbn in Hp, Hnd, Hdom. injection Hp as Ha Hol Hox.
  pose proof (ei_node _ _ _ _ HI) as HN. rewrite (quiescent_omap owning) in HN; [|intros t Ht; unfold owning; by rewrite Ht|done].
  assert (forall l, l ∈ [La k; Lo k; Lx k] -> is_Some (lists_ s !! l)) as Hlive by (intros l Hl; by apply Hdom).
  apply list.NoDup_cons in Hnd as [H1 Hnd]. apply list.NoDup_cons in Hnd as [H2 _].
  assert (La k <> Lo k /\ La k <> Lx k /\ Lo k <> Lx k) as (N1 & N2 & N3) by (split_and!; intros Heq; [apply H1|apply H1|apply H2]; rewrite Heq, ?elem_of_cons; auto).
  destruct (Hlive (Lx k)) as [o1 Ho1]; [rewrite !elem_of_cons; auto|].
  destruct (delete_one s (Lx k) o1 _ _ _ _ HN Ho1) as (s1 & home1 & Hd1 & HN1 & Hl1 & Hol1 & Hal1 & Hs1 & Hk1).
  destruct (Hlive (Lo k)) as [o2 Ho2]; [rewrite !elem_of_cons; auto|].
  destruct (delete_one s1 (Lo k) o2 _ _ _ _ HN1) as (s2 & home2 & Hd2 & HN2 & Hl2 & _ & Hal2 & Hs2 & Hk2); [by rewrite Hl1, lookup_delete_ne|].
  destruct (Hlive (La k)) as [o3 Ho3]; [rewrite !elem_of_cons; auto|].
  destruct (delete_one s2 (La k) o3 _ _ _ _ HN2) as (s3 & home3 & Hd3 & HN3 & Hl3 & _ & _ & Hs3 & Hk3);
    [by rewrite Hl2, Hl1, !lookup_delete_ne by congruence|].
  exists s3. split.
  - unfold destroy. rewrite Hox, Hd1. cbn. rewrite Hol1, Hol, Hd2. cbn. by rewrite Hal2, Hal1, Ha, Hd3.
  - intros a n. split; [|intros [? ?]; auto]. intros Hn. split; [auto|].
    destruct (decide (next n = NOT_OWNED)) as [|Hne]; [done|]. exfalso.
    destruct (ni_owned _ _ _ _ _ _ HN3 a n Hn Hne) as [[[l i] Hl]|Hf]; [|by apply not_elem_of_nil in Hf].
    destruct (ni_home _ _ _ _ _ _ HN3 _ _ _ Hl) as (o & _ & Ho & _). rewrite Hl3, Hl2, Hl1 in Ho.
    apply lookup_delete_Some in Ho as [? Ho]. apply lookup_delete_Some in Ho as [? Ho]. apply lookup_delete_Some in Ho as [? Ho].
    assert (l ∈ [La k; Lo k; Lx k]) as Hin by (apply Hdom; by eexists). rewrite !elem_of_cons in Hin.
    destruct Hin as [->|[->|[->|Hin]]]; try done. by apply not_elem_of_nil in Hin.
Qed.

(** ** Running the model *)

(** A schedule that obeys the discipline. *)
Fixpoint drun (l : list nat) (s : est) : option est :=
  match l with
  | [] => Some s
  | i :: l => if disciplined i s then s' ← tstep i s; drun l s' else None
  end.

Lemma drun_reachable s0 l s s' : dreachable s0 s -> drun l s = Some s' -> dreachable s0 s'.
Proof.
  revert s. induction l as [|i l IH]; intros s Hr Hrun; cbn in Hrun; [by simplify_eq|].
  destruct (disciplined i s) eqn:Ed; [|done]. destruct (tstep i s) as [s1|] eqn:Es; [|done]. cbn in Hrun.
  eapply IH; [|done]. by eapply dreach_step.
Qed.

Definition times (n i : nat) : list nat := replicate n i.

(** One thread frees a node inside a guard that starts and ends, the other starts and ends guards until
    the node is reclaimed; a second node is never freed. *)
Definition demo_progs : list (list call) :=
  [[Enter; Malloc 64; Malloc 96; Free 64 7 1; Exit]; [Enter; Exit; Enter; Exit]].
Definition demo_sched : list nat := (times 12 0 ++ times 23 0 ++ times 3 1 ++ times 23 1 ++ times 26 1)%nat.
Definition demo : option est := drun demo_sched (init demo_progs).

Lemma epoch_no_use_after_free_witness :
  (s ← demo; Some (map ev_node (log s), map ev_holders (log s))) = Some ([64], [[0%nat]]) /\
  forall s, demo = Some s -> forall e x, e ∈ log s -> x ∈ ev_holders e -> x ∉ ev_guards e.
Proof.
  split; [vm_compute; reflexivity|]. intros s Hs.
  apply (epoch_no_use_after_free demo_progs s); [vm_compute; reflexivity|].
  eapply drun_reachable; [apply dreach_init|exact Hs].
Defined.

(** The node of the first thread is still in a list when the threads are done. *)
Definition demo_early : option est := drun (times 35 0) (init demo_progs).

Lemma epoch_destroy_reclaims_witness :
  (s ← demo_early; s' ← destroy s; Some (map fst (map_to_list (nodes s)), map fst (map_to_list (nodes s')), map ev_node (log s')))
    = Some ([96; 64], [96], [64]) /\
  forall s, demo_early = Some s -> exists s', destroy s = Some s' /\
    forall a n, nodes s' !! a = Some n <-> nodes s !! a = Some n /\ next n = NOT_OWNED.
Proof.
  split; [vm_compute; reflexivity|]. intros s Hs. apply (epoch_destroy_reclaims demo_progs s).
  - vm_compute. reflexivity.
  - eapply drun_reachable; [apply dreach_init|exact Hs].
  - apply quiescentb_ok.
    assert (option_map quiescentb demo_early = Some true) as Hq by (vm_compute; reflexivity).
    rewrite Hs in Hq. by injection Hq.
Defined.

(** ** The rotation test is not atomic *)

(** Thread 3 stays inside its guard.  Threads 0 and 1 are interrupted between loading [old_cnt], [oldest_cnt] and
    [active_cnt], so that they test the same counter twice and not the one thread 3 is counted in. *)
Definition stale_progs : list (list call) :=
  [[Enter; Exit]; [Enter; Exit; Enter; Exit]; [Enter; Malloc 64; Free 64 7 1; Exit]; [Enter]].
Definition stale_sched : list nat :=
  (times 5 0 ++ times 26 1 ++ times 1 0 ++ times 3 3 ++ times 11 2 ++ times 5 1 ++ times 23 2 ++ times 21 1 ++ times 20 0)%nat.

(** C38: The three pointers a destructor tests are loaded one after the other, so a rotation in
    between lets it test the wrong counters: an interleaving of four threads that only use the
    interface as intended ([free] inside a guard) reclaims a node while a guard that was
    alive when the node was freed is still alive. *)
Theorem epoch_stale_rotation :
  exists s e x, run stale_sched (init stale_progs) = Some s /\
    e ∈ log s /\ x ∈ ev_holders e /\ x ∈ ev_guards e /\ x ∈ guard_ids s.
Proof.
  destruct (run stale_sched (init stale_progs)) as [s|] eqn:Hs; [|vm_compute in Hs; discriminate].
  assert ((s ← run stale_sched (init stale_progs); Some (log s, guard_ids s)) = Some ([Event 64 1 [3; 2]%nat [2]%nat], [2]%nat)) as Hl
    by (vm_compute; reflexivity).
  rewrite Hs in Hl. cbn [mbind option_bind] in Hl. injection Hl as Hlog Hg. exists s, (Event 64 1 [3; 2]%nat [2]%nat), 2%nat.
  rewrite Hlog, Hg. cbn [ev_holders ev_guards]. split_and!; [done|by left|right; by left|by left|by left].
Qed.

(** ** Layout of aligned blocks *)

(** The node fits in front of the memory, both fit in the block, and the memory is as aligned as
    the block. *)
Lemma malloc_layout_ok sizeof_node size align res :
  0 < align -> 0 <= sizeof_node -> 0 <= size -> res mod align = 0 ->
  let '(total, at_node, at_mem) := malloc_layout sizeof_node size align in
  0 <= at_node < align /\ at_node + sizeof_node = at_mem /\ at_mem + size = total /\ (res + at_mem) mod align = 0.
Proof.
  intros Ha Hn Hs Hr. unfold malloc_layout, node_padding. pose proof (Z.mod_pos_bound sizeof_node align Ha).
  pose proof (Z.div_mod sizeof_node align ltac:(lia)) as Hdm.
  destruct (Z.eqb_spec (sizeof_node mod align) 0) as [E0|E0]; cbn; split_and!; try lia.
  - rewrite Z.add_0_r, Zplus_mod, Hr, E0. by rewrite Z.mod_0_l by lia.
  - rewrite Zplus_mod, Hr. replace (sizeof_node + (align - sizeof_node mod align)) with ((sizeof_node / align + 1) * align) by lia.
    rewrite Z.mod_mul, Z.mod_0_l by lia. done.
Qed.
