(* ===== verification/ProgramOptions.v ===== *)
(** Command line options: [crossbow/program_options.hpp] and the headers of
    [crossbow/program_options/] (parser, type_printer, exceptions).

    An argument is a C string: the characters before its terminating NUL, each a
    (signed) [char].  [argv] is the list of arguments; the pointer behind the last
    one, [argv[argc]], is null.  The template [options<First, Rest...>] is a list of
    option declarations ([opt]); the objects' mutable members are the state [world]:
    the member [value] of every option, the caller's variables that [value_ptr]
    points to (two options may share one), and the calls of the callbacks.  A
    callback is a function of the caller: it maps the value it is given to the
    value it leaves or returns, and may throw. *)
From Stdlib Require Import String Ascii.
From S2P Require Import Prelude.

Module Po.

Notation cstr := (list Z) (only parsing).

(** The characters of a string literal. *)
Fixpoint codes (s : string) : cstr :=
  match s with
  | EmptyString => []
  | String.String c s => Z.of_N (N_of_ascii c) :: codes s
  end.

Definition dash : Z := 45.

(** [str[k]]: the terminating NUL can be read, nothing behind it. *)
Definition char_at {S} (str : cstr) (k : nat) : St S Z :=
  match str !! k with
  | Some c => ret c
  | None => if (k =? length str)%nat then ret 0 else ub
  end.

(** [std::isspace]: undefined for a negative [char] other than [EOF]. *)
Definition is_space (c : Z) : bool := (c =? 32) || ((9 <=? c) && (c <=? 13)).
Definition isspace {S} (c : Z) : St S bool := if c <? -1 then ub else ret (is_space c).

(** ** Exceptions *)

Definition parse_error (what_arg : cstr) : exn :=
  ParseError (codes "Error while parsing arguments: " ++ what_arg).
Definition inexpected_value (value : cstr) : exn :=
  parse_error (codes "Unexpected value '" ++ value ++ codes "'").
Definition argument_not_found (arg : cstr) : exn :=
  parse_error (codes "Unknown argument '" ++ arg ++ codes "'").

(** ** Integer conversions of the standard library

    [std::stol] and its relatives with base 0: white space, a sign, a base prefix,
    then the longest run of digits; what follows it is not looked at. *)

Fixpoint skip_space (s : cstr) : cstr :=
  match s with
  | c :: t => if is_space c then skip_space t else s
  | [] => []
  end.

Definition read_sign (s : cstr) : bool * cstr :=
  match s with
  | c :: t => if c =? 45 then (true, t) else if c =? 43 then (false, t) else (false, s)
  | [] => (false, [])
  end.

Definition digit_val (base c : Z) : option Z :=
  let d := if (48 <=? c) && (c <=? 57) then c - 48
           else if (97 <=? c) && (c <=? 122) then c - 87
           else if (65 <=? c) && (c <=? 90) then c - 55 else 36 in
  if d <? base then Some d else None.

Definition base_prefix (s : cstr) : Z * cstr :=
  match s with
  | c :: t =>
      if c =? 48 then
        match t with
        | x :: t' =>
            if ((x =? 120) || (x =? 88)) && match t' with d :: _ => bool_decide (is_Some (digit_val 16 d)) | [] => false end
            then (16, t') else (8, s)
        | [] => (8, s)
        end
      else (10, s)
  | [] => (10, [])
  end.

Fixpoint read_digits (base : Z) (s : cstr) (acc : Z) : Z :=
  match s with
  | c :: t => match digit_val base c with Some d => read_digits base t (acc * base + d) | None => acc end
  | [] => acc
  end.

(** Sign and magnitude of the numeral at the start of [s]; [None] if there is none. *)
Definition read_number (s : cstr) : option (bool * Z) :=
  let '(neg, s1) := read_sign (skip_space s) in
  let '(base, s2) := base_prefix s1 in
  match s2 with
  | c :: _ => match digit_val base c with Some _ => Some (neg, read_digits base s2 0) | None => None end
  | [] => None
  end.

Definition in_signed (w v : Z) : bool := (- 2 ^ (w - 1) <=? v) && (v <? 2 ^ (w - 1)).
Definition in_unsigned (w v : Z) : bool := (0 <=? v) && (v <? 2 ^ w).

Definition stol (s : cstr) : Z + exn :=
  match read_number s with
  | None => inr InvalidArgument
  | Some (neg, m) => let v := if neg then - m else m in if in_signed 64 v then inl v else inr OutOfRange
  end.
Definition stoi (s : cstr) : Z + exn :=
  match stol s with
  | inl v => if in_signed 32 v then inl v else inr OutOfRange
  | inr e => inr e
  end.
(** A minus sign negates the magnitude as an unsigned number. *)
Definition stoul (s : cstr) : Z + exn :=
  match read_number s with
  | None => inr InvalidArgument
  | Some (neg, m) => if m <? 2 ^ 64 then inl (if neg then u64 (- m) else m) else inr OutOfRange
  end.

(** ** Value types and their parsers *)

Inductive vtype :=
  | TBool | TChar | TShort | TUShort | TInt | TUInt | TLong | TULong | TLongLong | TULongLong
  | TStdString | TString.

#[global] Instance vtype_eq_dec : EqDecision vtype.
Proof. solve_decision. Defined.

Inductive value :=
  | VBool (b : bool)
  | VInt (z : Z)
  | VStr (s : cstr).

(** The value [value()] that value-initialisation gives. *)
Definition default_value (t : vtype) : value :=
  match t with
  | TBool => VBool false
  | TStdString | TString => VStr []
  | _ => VInt 0
  end.

(** [try { val = ...; range check; return val; } catch (...) { throw parse_error(msg); }] *)
Definition catch_all (r : Z + exn) (in_range : Z -> bool) (msg : cstr) : value + exn :=
  match r with
  | inl v => if in_range v then inl (VInt v) else inr (parse_error msg)
  | inr _ => inr (parse_error msg)
  end.

Definition parser_char (str : cstr) : value + exn :=
  match str with
  | [c] => inl (VInt c)
  | _ => inr (parse_error (codes "Could not parse char: " ++ str))
  end.
Definition parser_short (str : cstr) : value + exn :=
  catch_all (stoi str) (in_signed 16) (str ++ codes " is not a valid short").
Definition parser_int (str : cstr) : value + exn :=
  catch_all (stoi str) (fun _ => true) (str ++ codes "is not a valid int").
Definition parser_long (str : cstr) : value + exn :=
  catch_all (stol str) (fun _ => true) (str ++ codes "is not a valid long").
Definition parser_long_long (str : cstr) : value + exn :=
  catch_all (stol str) (fun _ => true) (str ++ codes "is not a valid long long").
Definition parser_unsigned_short (str : cstr) : value + exn :=
  catch_all (stoul str) (in_unsigned 16) (str ++ codes " is not a valid unsigned short").
Definition parser_unsigned (str : cstr) : value + exn :=
  catch_all (stoul str) (in_unsigned 32) (str ++ codes " is not a valid unsigned").
Definition parser_unsigned_long (str : cstr) : value + exn :=
  catch_all (stoul str) (fun _ => true) (str ++ codes "is not a valid unsigned long").
Definition parser_unsigned_long_long (str : cstr) : value + exn :=
  catch_all (stoul str) (fun _ => true) (str ++ codes "is not a valid unsigned long long").
Definition parser_string (str : cstr) : value + exn := inl (VStr str).

(** [parser<T>]; there is no specialisation for [bool], which takes no argument. *)
Definition parser (t : vtype) : option (cstr -> value + exn) :=
  match t with
  | TBool => None
  | TChar => Some parser_char
  | TShort => Some parser_short
  | TUShort => Some parser_unsigned_short
  | TInt => Some parser_int
  | TUInt => Some parser_unsigned
  | TLong => Some parser_long
  | TULong => Some parser_unsigned_long
  | TLongLong => Some parser_long_long
  | TULongLong => Some parser_unsigned_long_long
  | TStdString | TString => Some parser_string
  end.

(** [type_printer<T>] *)
Definition type_printer (t : vtype) : cstr :=
  match t with
  | TBool => []
  | TChar => codes "character"
  | TShort => codes "short"
  | TUShort => codes "unsigned short"
  | TInt => codes "int"
  | TUInt => codes "unsigned"
  | TLong => codes "long"
  | TULong => codes "unsigned long"
  | TLongLong => codes "long long"
  | TULongLong => codes "unsigned long long"
  | TStdString => codes "string"
  | TString => codes "string"
  end.

(** ** The tags of an option: [o_options<Head, Tail...>]

    Each query takes the first tag of its kind. *)

Inductive tag :=
  | Show (b : bool)
  | IgnoreShort (b : bool)
  | IgnoreLong (b : bool)
  | Description (text : cstr)
  | Callback (f : value -> value * option exn).

Fixpoint show_option (ts : list tag) : bool :=
  match ts with
  | Show b :: _ => b
  | _ :: ts => show_option ts
  | [] => true
  end.
Fixpoint ignore_short_option (ts : list tag) : bool :=
  match ts with
  | IgnoreShort b :: _ => b
  | _ :: ts => ignore_short_option ts
  | [] => false
  end.
Fixpoint ignore_long_option (ts : list tag) : bool :=
  match ts with
  | IgnoreLong b :: _ => b
  | _ :: ts => ignore_long_option ts
  | [] => false
  end.
Fixpoint description (ts : list tag) : cstr :=
  match ts with
  | Description d :: _ => d
  | _ :: ts => description ts
  | [] => []
  end.
Fixpoint find_callback (ts : list tag) : option (value -> value * option exn) :=
  match ts with
  | Callback f :: _ => Some f
  | _ :: ts => find_callback ts
  | [] => None
  end.

(** ** One option *)

Record opt := Opt {
  name : Z;
  ty : vtype;
  longoption : cstr;
  value_ptr : option Z;
  this_opts : list tag
}.
Definition ignore_short (o : opt) : bool := ignore_short_option (this_opts o).
Definition ignore_long (o : opt) : bool := ignore_long_option (this_opts o).

Record world := World {
  values : list value;
  vars : gmap Z value;
  calls : list (Z * value)
}.
Definition set_values (x : list value) (w : world) : world := World x (vars w) (calls w).
Definition set_vars (x : gmap Z value) (w : world) : world := World (values w) x (calls w).
Definition set_calls (x : list (Z * value)) (w : world) : world := World (values w) (vars w) x.
Definition modify (f : world -> world) : St world unit := fun w => Ok tt (f w).

(** [option::value = v] of the option at position [k] *)
Definition write_value (k : nat) (v : value) : St world unit :=
  modify (fun w => set_values (<[k := v]> (values w)) w).

(** [this_opts.callback(value)]: the callback works on the member [value] itself. *)
Definition callback (k : nat) (o : opt) (v : value) : St world value :=
  match find_callback (this_opts o) with
  | None => ret v
  | Some f =>
      do! modify (fun w => set_calls (calls w ++ [(name o, v)]) w) in
      match f v with
      | (v', None) => ret v'
      | (v', Some e) => do! write_value k v' in throw e
      end
  end.

Definition set_value (k : nat) (o : opt) (v : value) : St world unit :=
  do! write_value k v in
  let! v' := callback k o v in
  do! write_value k v' in
  match value_ptr o with
  | Some p => modify (fun w => set_vars (<[p := v']> (vars w)) w)
  | None => ret tt
  end.

Definition newline : cstr := [10].

Definition option_print_help (o : opt) : cstr :=
  if ignore_short o && ignore_long o then [] else
  codes " " ++
  (if negb (ignore_short o) then
     [dash; name o] ++ (if negb (ignore_long o) then codes "," else []) else []) ++
  (if negb (ignore_long o) then codes "--" ++ longoption o else []) ++
  codes " " ++ type_printer (ty o) ++
  (if 0 <? zlen (description (this_opts o))
   then newline ++ codes "    " ++ description (this_opts o) else []) ++
  newline.

(** ** [options<First, Rest...>] *)

Fixpoint is_unique (os : list opt) (n : Z) : bool :=
  match os with
  | o :: os => negb (name o =? n) && is_unique os n
  | [] => true
  end.

(** The static assertions of [option] and [options]. *)
Fixpoint options_ok (os : list opt) : bool :=
  match os with
  | o :: os => negb (ignore_long o && ignore_short o) && is_unique os (name o) && options_ok os
  | [] => true
  end.

(** [get<Name>()]; a name that is not declared does not compile. *)
Fixpoint get (os : list opt) (vs : list value) (n : Z) : option value :=
  match os, vs with
  | o :: os, v :: vs => if name o =? n then Some v else get os vs n
  | _, _ => None
  end.

(** [parse_impl<T>]: returns the new value of the index [i]; [args[++i]] may be the
    null pointer behind the arguments, which no parser may be given. *)
Definition parse_impl (k : nat) (o : opt) (i : nat) (args : list cstr) : St world nat :=
  match parser (ty o) with
  | None => do! set_value k o (VBool true) in ret i
  | Some p =>
      match args !! S i with
      | None => ub
      | Some str =>
          match p str with
          | inl v => do! set_value k o v in ret (S i)
          | inr e => throw e
          end
      end
  end.

(** [while ( *arg == '-') ++arg;] *)
Fixpoint strip_dashes (s : cstr) : cstr :=
  match s with
  | c :: t => if c =? dash then strip_dashes t else s
  | [] => []
  end.

Fixpoint parse_long (k : nat) (os : list opt) (i : nat) (args : list cstr) : St world nat :=
  match args !! i with
  | None => ub
  | Some arg =>
      match os with
      | [] => throw (argument_not_found (codes "--" ++ arg))
      | o :: os =>
          if ignore_long o || negb (bool_decide (strip_dashes arg = longoption o))
          then parse_long (S k) os i args
          else parse_impl k o i args
      end
  end.

(** The characters of an array up to its first NUL. *)
Fixpoint c_str (s : list Z) : cstr :=
  match s with
  | c :: t => if c =? 0 then [] else c :: c_str t
  | [] => []
  end.

Fixpoint parse_short (k : nat) (os : list opt) (n : Z) (i : nat) (args : list cstr) : St world nat :=
  match os with
  | [] => throw (argument_not_found (c_str [dash; n; 0]))
  | o :: os =>
      if (name o =? n) && negb (ignore_short o)
      then parse_impl k o i args
      else parse_short (S k) os n i args
  end.

Fixpoint options_print_help (os : list opt) : cstr :=
  match os with
  | o :: os => option_print_help o ++ options_print_help os
  | [] => []
  end.

(** [print_help] of the root object, the one made by [create_options] *)
Definition print_help (global_name : cstr) (os : list opt) : cstr :=
  match os with
  | [] => []
  | _ => codes "Usage: " ++ global_name ++ codes " [OPTION...]" ++ newline ++ options_print_help os
  end.

(** [create_options] *)
Definition create_options (os : list opt) (vars : gmap Z value) : world :=
  World (map (fun o => default_value (ty o)) os) vars [].

(** ** [parse] *)

(** [argv[j][0] == '-' && argv[j][1] == '-' && argv[j][2] == '\0'] *)
Definition is_dashdash (a : cstr) : St world bool :=
  let! c0 := char_at a 0 in
  if negb (c0 =? dash) then ret false else
  let! c1 := char_at a 1 in
  if negb (c1 =? dash) then ret false else
  let! c2 := char_at a 2 in
  ret (c2 =? 0).

(** The inner loop over the remaining arguments [argv[j]]. *)
Fixpoint parse_rest (str : cstr) (i : nat) (l : list cstr) : St world nat :=
  match l with
  | [] => ret i
  | a :: l =>
      let! b := is_dashdash a in
      if b then ret i else
      let! c0 := char_at a 0 in
      if c0 =? dash then throw (inexpected_value str) else parse_rest str i l
  end.

(** [str[0] == '-' && str[1] == '-' && (std::isspace(str[2]) || str[2] == '\0')] *)
Definition is_terminator (str : cstr) : St world bool :=
  let! c0 := char_at str 0 in
  if negb (c0 =? dash) then ret false else
  let! c1 := char_at str 1 in
  if negb (c1 =? dash) then ret false else
  let! c2 := char_at str 2 in
  let! sp := isspace c2 in
  if sp then ret true else ret (c2 =? 0).

(** [str[0] == '-' && str[1] == '-'] *)
Definition is_long (str : cstr) : St world bool :=
  let! c0 := char_at str 0 in
  if negb (c0 =? dash) then ret false else
  let! c1 := char_at str 1 in
  ret (c1 =? dash).

Fixpoint parse_loop (fuel : nat) (os : list opt) (i : nat) (argv : list cstr) : St world nat :=
  match fuel with
  | O => nofuel
  | S fuel =>
      match argv !! i with
      | None => ret i
      | Some str =>
          let! t := is_terminator str in
          if t then ret (S i) else
          let! l := is_long str in
          if l then
            let! i := parse_long 0 os i argv in
            parse_loop fuel os (S i) argv
          else
            let! c0 := char_at str 0 in
            if c0 =? dash then
              let! c2 := char_at str 2 in
              if negb (c2 =? 0) then throw (parse_error (codes "Long options must start with '--'")) else
              let! c1 := char_at str 1 in
              let! i := parse_short 0 os c1 i argv in
              parse_loop fuel os (S i) argv
            else parse_rest str i (drop i argv)
      end
  end.

(** [parse(opts, argc, argv)] with [argc] the length of [argv].  Every round of the
    loop moves [i] on, so [argc] rounds (and the final test) are enough. *)
Definition parse (os : list opt) (argv : list cstr) : St world nat :=
  parse_loop (S (length argv)) os 1 argv.

End Po.
