(* ===== verification/ProgramOptionsSpec.v ===== *)
(** A reference description of the command lines [program_options::parse] accepts,
    and the lemmas that relate it to the loop: which option an argument selects, what
    setting an option leaves behind, and how a run over the settings of a command
    line composes. *)
From Stdlib Require Import String.
From S2P Require Import Prelude ProgramOptions.

Import Po.

(** A C string has no NUL among its characters. *)
Definition valid_arg (a : list Z) : Prop := Forall (fun c => c <> 0) a.

(** ** The shape of an argument *)

Inductive shape :=
  | Terminator          (* "--", alone or followed by white space *)
  | LongOption
  | ShortOption (n : Z)
  | BadLong             (* "-ab" *)
  | LoneDash            (* "-" *)
  | BadChar             (* "--" followed by a negative character *)
  | Operand.

Definition classify (a : list Z) : shape :=
  match a with
  | c0 :: t =>
      if c0 =? dash then
        match t with
        | [] => LoneDash
        | c1 :: u =>
            if c1 =? dash then
              match u with
              | [] => Terminator
              | c2 :: _ => if c2 <? -1 then BadChar else if is_space c2 then Terminator else LongOption
              end
            else match u with [] => ShortOption c1 | _ => BadLong end
        end
      else Operand
  | [] => Operand
  end.

(** ** Selection: the first declared option that is not ignored *)

Fixpoint find_opt (p : opt -> bool) (k : nat) (os : list opt) : option (nat * opt) :=
  match os with
  | o :: os => if p o then Some (k, o) else find_opt p (S k) os
  | [] => None
  end.
Definition has_long (n : list Z) (o : opt) : bool :=
  negb (ignore_long o) && bool_decide (n = longoption o).
Definition has_short (n : Z) (o : opt) : bool := (name o =? n) && negb (ignore_short o).

Definition select (os : list opt) (a : list Z) : option (nat * opt) :=
  match classify a with
  | LongOption => find_opt (has_long (strip_dashes a)) 0 os
  | ShortOption n => find_opt (has_short n) 0 os
  | _ => None
  end.

(** ** Settings *)

Definition run_callback (o : opt) (v : value) : value * option exn :=
  match find_callback (this_opts o) with Some f => f v | None => (v, None) end.

(** What setting option [o] at position [k] to [v] leaves behind. *)
Definition assign (k : nat) (o : opt) (v : value) (w : world) : world :=
  let v' := fst (run_callback o v) in
  World (<[k := v']> (values w))
        (match value_ptr o with Some p => <[p := v']> (vars w) | None => vars w end)
        (calls w ++ (if find_callback (this_opts o) then [(name o, v)] else [])).

(** One setting of a command line: the argument that names the option, the argument
    with its value unless the option is a flag, and the value it stands for. *)
Record setting := Setting {
  s_pos : nat;
  s_opt : opt;
  s_arg : list Z;
  s_text : option (list Z);
  s_val : value
}.
Definition args_of (s : setting) : list (list Z) := s_arg s :: option_list (s_text s).
Definition text_ok (s : setting) : Prop :=
  match parser (ty (s_opt s)), s_text s with
  | None, None => s_val s = VBool true
  | Some p, Some t => p t = inl (s_val s)
  | _, _ => False
  end.
Definition setting_ok (os : list opt) (s : setting) : Prop :=
  select os (s_arg s) = Some (s_pos s, s_opt s) /\ text_ok s /\
  snd (run_callback (s_opt s) (s_val s)) = None.

Definition line (ss : list setting) : list (list Z) := concat (map args_of ss).
Definition apply_settings (ss : list setting) (w : world) : world :=
  fold_left (fun w s => assign (s_pos s) (s_opt s) (s_val s) w) ss w.

(** ** What follows the settings

    [ending tail n]: the arguments [tail] end the options, and the first operand is
    the [n]-th of them. *)

Definition is_operand (a : list Z) : Prop := classify a = Operand.
Definition ddash : list Z := [dash; dash].

Inductive operands : list (list Z) -> Prop :=
  | operands_nil : operands []
  | operands_dashdash l : operands (ddash :: l)
  | operands_cons a l : is_operand a -> operands l -> operands (a :: l).

Inductive ending : list (list Z) -> nat -> Prop :=
  | ending_nil : ending [] 0
  | ending_terminator a l : classify a = Terminator -> ending (a :: l) 1
  | ending_operands a l : is_operand a -> operands l -> ending (a :: l) 0.

(** ** Reading characters *)


Ltac chars a :=
  destruct a as [|?c0 [|?c1 [|?c2 ?t]]];
  unfold valid_arg in *;
  repeat match goal with H : Forall _ (_ :: _) |- _ => apply list.Forall_cons in H as [? H]; cbv beta in * end.
Ltac run_chars :=
  unfold is_terminator, is_long, is_dashdash, isspace, char_at, bind, ret, ub; cbn;
  repeat (case_test; subst; cbn; try done; try lia); try done;
  try (rewrite (proj2 (Z.eqb_neq _ _)) by done; done).

Lemma is_terminator_eq a w : valid_arg a ->
  is_terminator a w = match classify a with
                      | Terminator => Ok true w
                      | BadChar => UB
                      | _ => Ok false w
                      end.
Proof. intros Ha. chars a; run_chars. Qed.

Lemma is_long_eq a w : classify a <> Terminator -> classify a <> BadChar ->
  is_long a w = Ok (match classify a with LongOption => true | _ => false end) w.
Proof. intros H1 H2. chars a; revert H1 H2; run_chars. Qed.

Lemma is_dashdash_eq a w : valid_arg a -> is_dashdash a w = Ok (bool_decide (a = ddash)) w.
Proof.
  intros Ha. chars a; run_chars; f_equal; symmetry;
    first [apply bool_decide_eq_false; unfold ddash; congruence | apply bool_decide_eq_true; done].
Qed.

Lemma first_char_eq {S} a (w : S) : valid_arg a ->
  exists c, char_at a 0 w = Ok c w /\ (c =? dash) = negb (match classify a with Operand => true | _ => false end).
Proof. intros Ha. chars a; unfold char_at; cbn; eexists; split; try done; run_chars. Qed.

Lemma parse_rest_operands str i l w :
  Forall valid_arg l -> operands l -> parse_rest str i l w = Ok i w.
Proof.
  intros Hv Hl. induction Hl as [|l|a l Ha Hl IH]; [done|done|].
  apply list.Forall_cons in Hv as [Hva Hv]. cbn [parse_rest].
  unfold bind at 1. rewrite is_dashdash_eq by done. case_bool_decide as Hd; [done|].
  destruct (first_char_eq a w Hva) as (c & Hc & Hcd). unfold bind. rewrite Hc, Hcd, Ha. by apply IH.
Qed.

Lemma parse_rest_inv str i l w j w' :
  Forall valid_arg l -> parse_rest str i l w = Ok j w' -> j = i /\ w' = w /\ operands l.
Proof.
  induction 1 as [|a l Hva Hv IH]; cbn [parse_rest]; intros Hr.
  { unfold ret in Hr. simplify_eq. auto using operands. }
  unfold bind at 1 in Hr. rewrite is_dashdash_eq in Hr by done. case_bool_decide as Hd.
  { unfold ret in Hr. simplify_eq. auto using operands. }
  destruct (first_char_eq a w Hva) as (c & Hc & Hcd). unfold bind in Hr. rewrite Hc, Hcd in Hr.
  destruct (classify a) eqn:Ha; try done. cbn in Hr. destruct (IH Hr) as (? & ? & ?). auto using operands.
Qed.

(** ** Selection *)

Lemma parse_long_find k os i args a w : args !! i = Some a ->
  parse_long k os i args w =
    match find_opt (has_long (strip_dashes a)) k os with
    | Some (k', o) => parse_impl k' o i args w
    | None => Throw (argument_not_found (ddash ++ a)) w
    end.
Proof.
  intros Ha. revert k. induction os as [|o os IH]; intros k; cbn; rewrite Ha; [done|].
  unfold has_long at 1. destruct (ignore_long o); cbn; [apply IH|].
  case_bool_decide; cbn; [done|apply IH].
Qed.

Lemma parse_short_find k os n i args w :
  parse_short k os n i args w =
    match find_opt (has_short n) k os with
    | Some (k', o) => parse_impl k' o i args w
    | None => Throw (argument_not_found (c_str [dash; n; 0])) w
    end.
Proof.
  revert k. induction os as [|o os IH]; intros k; cbn; [done|].
  unfold has_short at 1. destruct (_ && _); [done|apply IH].
Qed.

(** ** Setting one option *)

Lemma set_value_ok k o v w : snd (run_callback o v) = None ->
  set_value k o v w = Ok tt (assign k o v w).
Proof.
  unfold set_value, callback, run_callback, assign, bind, write_value, modify.
  unfold run_callback. destruct w as [vs vr cs]. destruct (find_callback _) as [f|]; cbn.
  - destruct (f v) as [v' e]; cbn. intros ->. cbn. unfold ret, set_values, set_vars, set_calls. cbn.
    destruct (value_ptr o); cbn; rewrite list_insert_insert_eq; done.
  - intros _. unfold ret, set_values, set_vars, set_calls. cbn.
    destruct (value_ptr o); cbn; rewrite list_insert_insert_eq, app_nil_r; done.
Qed.

Lemma set_value_throws k o v w e : snd (run_callback o v) = Some e ->
  exists w', set_value k o v w = Throw e w'.
Proof.
  unfold set_value, callback, run_callback, bind, write_value, modify.
  destruct (find_callback _) as [f|]; cbn; [|done].
  destruct (f v) as [v' [e'|]]; cbn; [|done]. intros [= ->]. eauto.
Qed.

#[local] Arguments set_value : simpl never.

Lemma parse_impl_setting s i args w :
  text_ok s -> snd (run_callback (s_opt s) (s_val s)) = None ->
  (forall t, s_text s = Some t -> args !! S i = Some t) ->
  parse_impl (s_pos s) (s_opt s) i args w =
    Ok (i + length (option_list (s_text s)))%nat (assign (s_pos s) (s_opt s) (s_val s) w).
Proof.
  intros Ht Hc Ha. unfold text_ok in Ht. unfold parse_impl, bind.
  destruct (parser (ty (s_opt s))), (s_text s) as [t|]; try done; cbn.
  - rewrite (Ha t eq_refl), Ht, set_value_ok by done. unfold ret. do 2 f_equal. lia.
  - rewrite <-Ht, set_value_ok by done. unfold ret. do 2 f_equal. lia.
Qed.

Lemma parse_impl_inv k o i args a w j w' : parse_impl k o i args w = Ok j w' ->
  exists s, s_pos s = k /\ s_opt s = o /\ s_arg s = a /\ text_ok s /\
    snd (run_callback o (s_val s)) = None /\ (forall t, s_text s = Some t -> args !! S i = Some t) /\
    j = (i + length (option_list (s_text s)))%nat /\ w' = assign k o (s_val s) w.
Proof.
  unfold parse_impl, bind. intros Hr.
  assert (forall v, snd (run_callback o v) = None \/ exists e, snd (run_callback o v) = Some e) as Hcb.
  { intros v. destruct (snd _); eauto. }
  destruct (parser (ty o)) as [p|] eqn:Hp.
  - destruct (args !! S i) as [t|] eqn:Ht; [|done]. destruct (p t) as [v|] eqn:Hv; [|done].
    destruct (Hcb v) as [Hc|[e Hc]]; [|by destruct (set_value_throws k o v w e Hc) as [? Hx]; rewrite Hx in Hr].
    rewrite set_value_ok in Hr by done. unfold ret in Hr. simplify_eq.
    exists (Setting k o a (Some t) v). cbn. unfold text_ok; cbn. rewrite Hp.
    repeat split; auto; lia.
  - destruct (Hcb (VBool true)) as [Hc|[e Hc]];
      [|by destruct (set_value_throws k o (VBool true) w e Hc) as [? Hx]; rewrite Hx in Hr].
    rewrite set_value_ok in Hr by done. unfold ret in Hr. simplify_eq.
    exists (Setting k o a None (VBool true)). cbn. unfold text_ok; cbn. rewrite Hp.
    repeat split; auto; done || lia.
Qed.

(** ** The loop *)

(** One round, by the shape of the argument. *)
Lemma parse_loop_step fuel os i argv a w : argv !! i = Some a -> valid_arg a ->
  parse_loop (S fuel) os i argv w =
    match classify a with
    | Terminator => Ok (S i) w
    | LongOption | ShortOption _ =>
        match select os a with
        | Some (k, o) => (let! j := parse_impl k o i argv in parse_loop fuel os (S j) argv) w
        | None => Throw (argument_not_found (match classify a with LongOption => ddash ++ a | _ => a end)) w
        end
    | BadLong => Throw (parse_error (codes "Long options must start with '--'")) w
    | LoneDash | BadChar => UB
    | Operand => parse_rest a i (drop i argv) w
    end.
Proof.
  intros Ha Hv. cbn [parse_loop]. rewrite Ha. unfold bind at 1. rewrite is_terminator_eq by done.
  destruct (classify a) eqn:Hc; try done; unfold bind at 1; rewrite is_long_eq, ?Hc by (rewrite Hc; done).
  - unfold bind, select. rewrite (parse_long_find _ _ _ _ a), Hc by done. by destruct (find_opt _ _ _) as [[]|].
  - unfold select. rewrite Hc. chars a; revert Hc; cbn; repeat case_test; intros [= <-] || done.
    subst. unfold bind, char_at, ret. cbn. rewrite parse_short_find. destruct (find_opt _ _ _) as [[]|]; [done|].
    cbn. by rewrite (proj2 (Z.eqb_neq c1 0)) by done.
  - chars a; revert Hc; cbn; repeat case_test; intros; try done. subst. unfold bind, char_at, ret. cbn.
    rewrite (proj2 (Z.eqb_neq c2 0)) by done. done.
  - chars a; revert Hc; cbn; repeat case_test; intros; try done; by subst.
  - destruct (first_char_eq a w Hv) as (c & Hcc & Hcd). unfold bind. by rewrite Hcc, Hcd, Hc.
Qed.

Lemma classify_select os a k o : select os a = Some (k, o) ->
  classify a = LongOption \/ exists n, classify a = ShortOption n.
Proof. unfold select. destruct (classify a); try done; eauto. Qed.

Lemma drop_S_lookup {A} (l : list A) i x t : drop i l = x :: t -> l !! i = Some x /\ drop (S i) l = t.
Proof.
  intros H. split.
  - rewrite <-(Nat.add_0_r i), <-lookup_drop, H. done.
  - rewrite <-Nat.add_1_r, <-drop_drop, H. done.
Qed.

(** A valid setting is consumed by one round. *)
Lemma parse_loop_setting fuel os i argv s tail w :
  setting_ok os s -> Forall valid_arg argv -> drop i argv = args_of s ++ tail ->
  parse_loop (S fuel) os i argv w =
    parse_loop fuel os (i + length (args_of s)) argv (assign (s_pos s) (s_opt s) (s_val s) w) /\
  drop (i + length (args_of s)) argv = tail.
Proof.
  intros (Hs & Ht & Hc) Hv Hd. pose proof Hd as Hd'. unfold args_of in Hd'. cbn in Hd'.
  apply drop_S_lookup in Hd' as [Ha Hd'].
  split; [|rewrite <-drop_drop, Hd, drop_app_length; done].
  rewrite (parse_loop_step _ _ _ _ (s_arg s)) by (done || by eapply Forall_lookup_1).
  replace (i + length (args_of s))%nat with (S (i + length (option_list (s_text s)))) by (unfold args_of; cbn; lia).
  rewrite Hs. unfold bind. rewrite parse_impl_setting; [|done|done|].
  - destruct (classify_select _ _ _ _ Hs) as [->|[n ->]]; done.
  - intros t Htx. rewrite Htx in Hd'. cbn in Hd'. by apply drop_S_lookup in Hd' as [].
Qed.

Lemma parse_loop_settings fuel os i argv ss tail w :
  Forall (setting_ok os) ss -> Forall valid_arg argv -> drop i argv = line ss ++ tail ->
  parse_loop (length ss + fuel) os i argv w =
    parse_loop fuel os (i + length (line ss)) argv (apply_settings ss w) /\
  drop (i + length (line ss)) argv = tail.
Proof.
  intros Hss Hv. revert i w. induction Hss as [|s ss Hs Hss IH]; intros i w Hd.
  { cbn. rewrite Nat.add_0_r. done. }
  assert (drop i argv = args_of s ++ line ss ++ tail) as Hd1 by (by rewrite Hd, app_assoc).
  destruct (parse_loop_setting (length ss + fuel) os i argv s (line ss ++ tail) w) as [Hr Hd'];
    [done..|].
  destruct (IH _ (assign (s_pos s) (s_opt s) (s_val s) w) Hd') as [Hr' Hd''].
  replace (i + length (line (s :: ss)))%nat with (i + length (args_of s) + length (line ss))%nat
    by (unfold line; cbn; rewrite length_app; lia).
  split; [|done]. cbn [length Nat.add]. by rewrite Hr, Hr'.
Qed.

(** Every argument of a run that returned is a setting or belongs to the ending. *)
Lemma parse_loop_inv fuel os i argv w j w' : Forall valid_arg argv ->
  parse_loop fuel os i argv w = Ok j w' ->
  exists ss tail n, drop i argv = line ss ++ tail /\ Forall (setting_ok os) ss /\ ending tail n /\
    j = (i + length (line ss) + n)%nat /\ w' = apply_settings ss w.
Proof.
  intros Hv. revert i w. induction fuel as [|fuel IH]; intros i w Hr; [done|].
  destruct (argv !! i) as [a|] eqn:Ha; cycle 1.
  { cbn in Hr. rewrite Ha in Hr. unfold ret in Hr. simplify_eq. exists [], [], 0%nat. cbn.
    rewrite drop_ge by (by apply lookup_ge_None_1). repeat split; auto using ending. lia. }
  pose proof (drop_S argv a i Ha) as Hd. assert (valid_arg a) as Hva by (by eapply Forall_lookup_1).
  rewrite (parse_loop_step _ _ _ _ a) in Hr by done.
  assert (forall k o, select os a = Some (k, o) ->
    (let! j := parse_impl k o i argv in parse_loop fuel os (S j) argv) w = Ok j w' -> 
    exists ss tail n, drop i argv = line ss ++ tail /\ Forall (setting_ok os) ss /\ ending tail n /\
      j = (i + length (line ss) + n)%nat /\ w' = apply_settings ss w) as Hopt.
  { intros k o Hsel Hb. unfold bind in Hb. destruct (parse_impl k o i argv w) as [i' w1|e w1| |] eqn:Hp; try done.
    destruct (parse_impl_inv k o i argv a w i' w1 Hp) as (s & <- & <- & <- & Ht & Hc & Hat & -> & ->).
    destruct (IH _ _ Hb) as (ss & tail & n & Hd' & Hss & Hend & -> & ->).
    exists (s :: ss), tail, n. split; [|split; [|split; [done|]]].
    - rewrite Hd. unfold line. cbn. f_equal. rewrite <-app_assoc. fold (line ss). rewrite <-Hd'.
      destruct (s_text s) as [t|] eqn:Htx; cbn.
      + rewrite Nat.add_1_r. by rewrite (drop_S _ _ _ (Hat t eq_refl)).
      + by rewrite Nat.add_0_r.
    - constructor; [|done]. done.
    - unfold line. cbn. rewrite length_app. fold (line ss). split; [lia|done]. }
  destruct (classify a) eqn:Hc; try done.
  - simplify_eq. exists [], (drop i argv), 1%nat. rewrite Hd. cbn. repeat split; auto using ending. lia.
  - destruct (select os a) as [[k o]|]; [eauto|done].
  - destruct (select os a) as [[k o]|]; [eauto|done].
  - apply parse_rest_inv in Hr as (-> & -> & Hop); [|by apply Forall_drop].
    exists [], (drop i argv), 0%nat. cbn. repeat split; auto; [|lia]. rewrite Hd in Hop |- *.
    inversion Hop; subst; [done|]. by constructor.
Qed.

(** Enough fuel for the settings and the ending. *)
Lemma parse_loop_ending fuel os i argv tail n w : Forall valid_arg argv ->
  drop i argv = tail -> ending tail n -> (0 < fuel)%nat -> parse_loop fuel os i argv w = Ok (i + n)%nat w.
Proof.
  intros Hv Hd He Hf. destruct fuel as [|fuel]; [lia|]. destruct He as [|a l Hc|a l Ha Hl].
  - cbn. rewrite lookup_ge_None_2; [by rewrite Nat.add_0_r|]. apply (f_equal length) in Hd.
    rewrite length_drop in Hd. cbn in Hd. lia.
  - apply drop_S_lookup in Hd as [Hd _]. rewrite (parse_loop_step _ _ _ _ a) by (done || by eapply Forall_lookup_1).
    rewrite Hc. f_equal. lia.
  - pose proof Hd as Hd'. apply drop_S_lookup in Hd' as [Hla _].
    rewrite (parse_loop_step _ _ _ _ a) by (done || by eapply Forall_lookup_1).
    rewrite Ha, parse_rest_operands, Nat.add_0_r; [done|by apply Forall_drop|].
    rewrite Hd. by constructor.
Qed.

Lemma line_length ss : (length ss <= length (line ss))%nat.
Proof. induction ss as [|s ss IH]; [done|]. unfold line in *. cbn. rewrite length_app. lia. Qed.

(** The run of [parse] over the settings of a command line. *)
Lemma parse_settings os prog ss tail w :
  Forall (setting_ok os) ss -> Forall valid_arg (prog :: line ss ++ tail) ->
  exists fuel, (length tail < fuel)%nat /\
    parse os (prog :: line ss ++ tail) w =
      parse_loop fuel os (1 + length (line ss)) (prog :: line ss ++ tail) (apply_settings ss w).
Proof.
  intros Hss Hv. pose proof (line_length ss). set (argv := prog :: line ss ++ tail) in *.
  assert (length argv = S (length (line ss) + length tail)) as Hlen by (unfold argv; cbn; rewrite length_app; lia).
  exists (S (length argv) - length ss)%nat. split; [lia|]. unfold parse.
  replace (S (length argv)) with (length ss + (S (length argv) - length ss))%nat at 1 by lia.
  by apply (parse_loop_settings _ _ _ _ _ tail).
Qed.
