(* ===== verification/ProgramOptionsClaims.v ===== *)
(** The theorems about command line parsing: which command lines are accepted and
    what they set, how the others fail, and which numerals the integer parsers
    accept. *)
From Stdlib Require Import String.
From S2P Require Import Prelude ProgramOptions ProgramOptionsSpec.

Import Po.

(** ** Failing command lines *)

(** [failure os tail r]: at the start of [tail] there is no valid setting and no end
    of the options; [r] is the exception, [None] a read of memory that is not part
    of the arguments. *)
Inductive failure (os : list opt) : list (list Z) -> option exn -> Prop :=
  | unknown_long a l : classify a = LongOption -> select os a = None ->
      failure os (a :: l) (Some (argument_not_found (ddash ++ a)))
  | unknown_short a l n : classify a = ShortOption n -> select os a = None ->
      failure os (a :: l) (Some (argument_not_found a))
  | bad_long a l : classify a = BadLong ->
      failure os (a :: l) (Some (parse_error (codes "Long options must start with '--'")))
  | bad_value a t l k o p e : select os a = Some (k, o) -> parser (ty o) = Some p -> p t = inr e ->
      failure os (a :: t :: l) (Some e)
  | stray_option a pre b l : is_operand a -> Forall is_operand pre ->
      ~ is_operand b -> b <> ddash -> failure os (a :: pre ++ b :: l) (Some (inexpected_value a))
  | missing_value a k o p : select os a = Some (k, o) -> parser (ty o) = Some p -> failure os [a] None
  | lone_dash a l : classify a = LoneDash -> failure os (a :: l) None
  | bad_char a l : classify a = BadChar -> failure os (a :: l) None.

Lemma parse_rest_stray str i pre b l w :
  Forall valid_arg pre -> valid_arg b -> Forall is_operand pre -> ~ is_operand b -> b <> ddash ->
  parse_rest str i (pre ++ b :: l) w = Throw (inexpected_value str) w.
Proof.
  intros Hv Hb Hpre Hnb Hdd. unfold is_operand in *. induction pre as [|a pre IH]; cbn [parse_rest app].
  - unfold bind at 1. rewrite is_dashdash_eq, bool_decide_eq_false_2 by done.
    destruct (first_char_eq b w Hb) as (c & Hc & Hcd). unfold bind. rewrite Hc, Hcd. by destruct (classify b).
  - apply list.Forall_cons in Hv as [Hva Hv]. apply list.Forall_cons in Hpre as [Ha Hpre].
    unfold bind at 1. rewrite is_dashdash_eq by done. case_bool_decide; [by subst|].
    destruct (first_char_eq a w Hva) as (c & Hc & Hcd). unfold bind. rewrite Hc, Hcd, Ha. by apply IH.
Qed.

Lemma parse_loop_failure fuel os i argv tail r w :
  failure os tail r -> Forall valid_arg argv -> drop i argv = tail -> (0 < fuel)%nat ->
  parse_loop fuel os i argv w = match r with Some e => Throw e w | None => UB end.
Proof.
  intros Hf Hv Hd Hfuel. destruct fuel as [|fuel]; [lia|].
  assert (exists a l, tail = a :: l) as (a0 & l0 & Ht) by (destruct Hf; eauto). rewrite Ht in Hd.
  pose proof (drop_S_lookup _ _ _ _ Hd) as [Ha _].
  rewrite (parse_loop_step _ _ _ _ a0) by (done || by eapply Forall_lookup_1).
  destruct Hf as [a l Hc Hs|a l n Hc Hs|a l Hc|a t l k o p e Hs Hp He|a pre b l Ho Hpre Hb Hnb|a k o p Hs Hp|a l Hc|a l Hc];
    simplify_eq; rewrite ?Hc, ?Hs; try done.
  - unfold bind, parse_impl. rewrite Hp. apply drop_S_lookup in Hd as [_ Hd]. apply drop_S_lookup in Hd as [-> _]. rewrite He.
    destruct (classify_select _ _ _ _ Hs) as [->|[n ->]]; done.
  - rewrite Ho, Hd. rewrite app_comm_cons.
    assert (Forall valid_arg ((a0 :: pre) ++ b :: l)) as Hv' by (cbn; rewrite <-Hd; by apply Forall_drop).
    apply Forall_app in Hv' as [Hv1 Hv2]. apply list.Forall_cons in Hv2 as [Hvb _].
    by apply parse_rest_stray; [..|constructor| |].
  - unfold bind, parse_impl. rewrite Hp. rewrite lookup_ge_None_2.
    + destruct (classify_select _ _ _ _ Hs) as [->|[n ->]]; done.
    + apply (f_equal length) in Hd. rewrite length_drop in Hd. cbn in Hd. lia.
Qed.

(** ** Numerals *)

(** The decimal notation of [n]; twenty digits hold every 64-bit number. *)
Fixpoint dec (fuel : nat) (n : Z) (acc : list Z) : list Z :=
  match fuel with
  | O => acc
  | S f => let acc := 48 + n mod 10 :: acc in if n <? 10 then acc else dec f (n / 10) acc
  end.
Definition decimal (z : Z) (tail : list Z) : list Z :=
  if z <? 0 then 45 :: dec 20 (- z) tail else dec 20 z tail.

(** What may follow a numeral without becoming part of it. *)
Definition ends_number (z : Z) (g : list Z) : Prop :=
  match g with [] => True | c :: _ => z <> 0 /\ digit_val 10 c = None end.

Lemma digit_val_dec d : 0 <= d < 10 -> digit_val 10 (48 + d) = Some d.
Proof. 
  intros. unfold digit_val. assert ((48 <=? 48 + d) && (48 + d <=? 57) = true) as -> by lia.
  replace (48 + d - 48) with d by lia. case_test; [done|lia].
Qed.

Lemma read_digits_dec f n g : 0 <= n < 10 ^ Z.of_nat f -> (0 < f)%nat ->
  read_digits 10 (dec f n g) 0 = read_digits 10 g n.
Proof.
  revert n g. induction f as [|f IH]; intros n g Hn Hf; [lia|]. cbn [dec]. cbv zeta.
  pose proof (Z.mod_pos_bound n 10). pose proof (Z.div_mod n 10).
  case_test.
  - cbn [read_digits]. rewrite digit_val_dec by lia. rewrite Z.mod_small by lia. done.
  - rewrite Nat2Z.inj_succ, Z.pow_succ_r in Hn by lia.
    destruct f as [|f]; [lia|]. rewrite IH by lia. cbn [read_digits].
    rewrite digit_val_dec by lia. f_equal. lia.
Qed.

Lemma dec_head f n g : 0 <= n < 10 ^ Z.of_nat f -> (0 < f)%nat ->
  exists d t, dec f n g = 48 + d :: t /\ 0 <= d < 10 /\ (d = 0 -> n = 0 /\ t = g).
Proof.
  revert n g. induction f as [|f IH]; intros n g Hn Hf; [lia|]. cbn [dec]. cbv zeta.
  pose proof (Z.mod_pos_bound n 10). pose proof (Z.div_mod n 10). case_test.
  - exists (n mod 10), g. rewrite Z.mod_small by lia. repeat split; lia.
  - rewrite Nat2Z.inj_succ, Z.pow_succ_r in Hn by lia. destruct f as [|f]; [lia|].
    destruct (IH (n / 10) (48 + n mod 10 :: g)) as (d & t & -> & Hd & Hz); [lia..|].
    exists d, t. split; [done|]. split; [done|]. intros ->. destruct Hz; [done|]. lia.
Qed.

Lemma read_digits_end base g n : match g with [] => True | c :: _ => digit_val base c = None end -> read_digits base g n = n.
Proof. destruct g as [|c g]; [done|]. cbn. by intros ->. Qed.

(** The magnitude behind an optional minus sign. *)
Lemma read_number_dec n g : 0 <= n < 10 ^ 20 -> ends_number n g ->
  let '(base, s) := base_prefix (dec 20 n g) in
  match s with
  | c :: _ => match digit_val base c with Some _ => Some (read_digits base s 0) | None => None end
  | [] => None
  end = Some n.
Proof.
  intros Hn Hg. destruct (dec_head 20 n g) as (d & t & Hd & Hr & Hz); [lia|lia|].
  pose proof (read_digits_dec 20 n g ltac:(lia) ltac:(lia)) as Hrd. rewrite Hd in *.
  destruct (decide (d = 0)) as [->|Hd0].
  - destruct Hz as [-> ->]; [done|]. destruct g as [|c g]; [done|]. by destruct Hg.
  - unfold base_prefix. case_test; [lia|]. rewrite digit_val_dec by done. f_equal. rewrite Hrd.
    apply read_digits_end. destruct g as [|c g]; [done|]. by destruct Hg.
Qed.

Lemma read_number_decimal z g : Z.abs z < 10 ^ 20 -> ends_number z g ->
  read_number (decimal z g) = Some (z <? 0, Z.abs z).
Proof.
  intros Hz Hg.
  assert (ends_number (Z.abs z) g) as Hg' by (destruct g; [done|]; cbn in *; split; [lia|apply Hg]).
  pose proof (read_number_dec (Z.abs z) g ltac:(lia) Hg') as Hr. unfold read_number, decimal. case_test.
  - rewrite Z.abs_neq in * by lia. cbn [skip_space is_space]. cbn -[dec base_prefix read_digits].
    destruct (base_prefix _) as [base [|c s]]; [done|]. destruct (digit_val base c); [|done]. congruence.
  - rewrite Z.abs_eq in * by lia. destruct (dec_head 20 z g) as (d & t & Hd & Hr' & _); [lia|lia|].
    rewrite Hd in *. cbn [skip_space]. unfold is_space. case_test; [lia|].
    cbn [read_sign]. do 2 (case_test; [lia|]).
    destruct (base_prefix _) as [base [|c s]]; [done|]. destruct (digit_val base c); [|done]. congruence.
Qed.

(** The number a parser of type [t] makes of the numeral of [z]. *)
Definition signed_width (t : vtype) : option Z :=
  match t with TShort => Some 16 | TInt => Some 32 | TLong | TLongLong => Some 64 | _ => None end.
Definition unsigned_width (t : vtype) : option Z :=
  match t with TUShort => Some 16 | TUInt => Some 32 | TULong | TULongLong => Some 64 | _ => None end.
Definition number_of (t : vtype) (z : Z) : option Z :=
  match signed_width t, unsigned_width t with
  | Some w, _ => if in_signed w z then Some z else None
  | None, Some w => if (- 2 ^ 64 <? z) && (z <? 2 ^ 64) && (u64 z <? 2 ^ w) then Some (u64 z) else None
  | None, None => None
  end.

Lemma stol_decimal z g : Z.abs z < 10 ^ 20 -> ends_number z g ->
  stol (decimal z g) = if in_signed 64 z then inl z else inr OutOfRange.
Proof.
  intros Hz Hg. unfold stol. rewrite read_number_decimal by done. cbv zeta.
  replace (if z <? 0 then - Z.abs z else Z.abs z) with z by (case_test; lia). done.
Qed.

Lemma stoul_decimal z g : Z.abs z < 10 ^ 20 -> ends_number z g ->
  stoul (decimal z g) = if (- 2 ^ 64 <? z) && (z <? 2 ^ 64) then inl (u64 z) else inr OutOfRange.
Proof.
  intros Hz Hg. unfold stoul. rewrite read_number_decimal by done. destruct (z <? 0) eqn:Hs; bool_prop.
  - rewrite Z.abs_neq, Z.opp_involutive by lia.
    destruct (- z <? 2 ^ 64) eqn:?, (- 2 ^ 64 <? z) eqn:?, (z <? 2 ^ 64) eqn:?; bool_prop; try done; lia.
  - rewrite Z.abs_eq by lia.
    destruct (z <? 2 ^ 64) eqn:?, (- 2 ^ 64 <? z) eqn:?; bool_prop; try done; try lia. by rewrite u64_small by lia.
Qed.

(** ** Termination *)

Lemma set_value_fuel k o v w : set_value k o v w <> NoFuel.
Proof.
  unfold set_value, callback, bind, write_value, modify.
  destruct (find_callback _) as [f|]; [destruct (f v) as [? []]|]; cbn; try done; by destruct (value_ptr o).
Qed.

Lemma parse_impl_fuel k o i args w : parse_impl k o i args w <> NoFuel.
Proof.
  unfold parse_impl, bind. destruct (parser (ty o)).
  - destruct (args !! S i); [|done]. destruct (s l) as [v|]; [|done].
    pose proof (set_value_fuel k o v w). by destruct (set_value k o v w).
  - pose proof (set_value_fuel k o (VBool true) w). by destruct (set_value k o (VBool true) w).
Qed.

Lemma parse_rest_fuel str i l w : Forall valid_arg l -> parse_rest str i l w <> NoFuel.
Proof.
  induction 1 as [|a l Hva Hv IH]; cbn [parse_rest]; [done|]. unfold bind. rewrite is_dashdash_eq by done.
  case_bool_decide; [done|]. destruct (first_char_eq a w Hva) as (c & -> & _). by destruct (c =? dash).
Qed.

Lemma parse_loop_fuel fuel os i argv w : Forall valid_arg argv -> (length argv < i + fuel)%nat ->
  (0 < fuel)%nat -> parse_loop fuel os i argv w <> NoFuel.
Proof.
  intros Hv. revert i w. induction fuel as [|fuel IH]; intros i w Hlen Hf; [lia|].
  destruct (argv !! i) as [a|] eqn:Ha; [|cbn; by rewrite Ha].
  assert (valid_arg a) by (by eapply Forall_lookup_1). rewrite (parse_loop_step _ _ _ _ a) by done.
  assert (forall k o, (let! j := parse_impl k o i argv in parse_loop fuel os (S j) argv) w <> NoFuel) as Hopt.
  { intros k o. unfold bind. pose proof (parse_impl_fuel k o i argv w).
    destruct (parse_impl k o i argv w) as [j w1| | |] eqn:Hp; try done.
    destruct (parse_impl_inv _ _ _ _ [] _ _ _ Hp) as (s & _ & _ & _ & _ & _ & Hat & -> & _).
    apply lookup_lt_Some in Ha. apply IH; lia. }
  destruct (classify a); try done; try (by destruct (select os a) as [[]|]).
  apply parse_rest_fuel. by apply Forall_drop.
Qed.

Lemma ending_length tail n : ending tail n -> (n <= length tail)%nat.
Proof. destruct 1; cbn; lia. Qed.

(** ** Show tags *)

(** Two options that differ in their [show] tags only. *)
Definition no_show (t : tag) : bool := match t with Show _ => false | _ => true end.
Definition drop_show (o : opt) : opt :=
  Opt (name o) (ty o) (longoption o) (value_ptr o) (List.filter no_show (this_opts o)).

Lemma drop_show_tags ts :
  ignore_short_option (List.filter no_show ts) = ignore_short_option ts /\
  ignore_long_option (List.filter no_show ts) = ignore_long_option ts /\
  description (List.filter no_show ts) = description ts.
Proof. induction ts as [|[] ts IH]; cbn; naive_solver. Qed.

(** [print_help] never looks at [show_option]: an option tagged [show<false>] is
    listed like every other. *)
Lemma print_help_lists_hidden g os : print_help g (map drop_show os) = print_help g os.
Proof.
  assert (options_print_help (map drop_show os) = options_print_help os) as Ho.
  { induction os as [|o os IH]; cbn; [done|]. rewrite IH. f_equal.
    destruct (drop_show_tags (this_opts o)) as (H1 & H2 & H3).
    unfold option_print_help, ignore_short, ignore_long, drop_show. cbn. by rewrite H1, H2, H3. }
  destruct os as [|o os]; [done|]. unfold print_help. cbn [map]. by rewrite <-Ho.
Qed.

(** ** Claims *)

(** The options of [test/program_options/po_simple_test.cpp], and an integer. *)
Definition sample : list opt :=
  [ Opt 97 TBool (codes "all") (Some 0) [IgnoreShort true; Description (codes "All Test")];
    Opt 98 TBool (codes "all2") (Some 1) [IgnoreLong true];
    Opt (-1) TBool (codes "bar") (Some 2) [IgnoreShort true];
    Opt 115 TString (codes "string") (Some 3) [Callback (fun v => (v, None))];
    Opt 102 TChar (codes "foo") (Some 4) [];
    Opt 110 TInt (codes "num") None [] ].
Definition sample_gamma : gmap Z vtype :=
  {[0 := TBool; 1 := TBool; 2 := TBool; 3 := TString; 4 := TChar]}.
Definition sample_world : world := create_options sample (default_value <$> sample_gamma).
Definition sample_settings : list setting :=
  [ Setting 0 (Opt 97 TBool (codes "all") (Some 0) [IgnoreShort true; Description (codes "All Test")])
      (codes "--all") None (VBool true);
    Setting 5 (Opt 110 TInt (codes "num") None []) (codes "-n") (Some (codes "0x1F")) (VInt 31);
    Setting 4 (Opt 102 TChar (codes "foo") (Some 4) []) (codes "----foo") (Some (codes "-")) (VInt 45) ].
Definition sample_argv : list (list Z) :=
  map codes ["prog"; "--all"; "-n"; "0x1F"; "----foo"; "-"; "--"; "rest"]%string.

Ltac args_valid := repeat constructor; cbn; lia.

(** C18: A command line is accepted exactly when it is a sequence of settings (each an
    argument that names a declared, not ignored option in its short form or behind two
    or more dashes, followed by a text its parser takes unless the option is a flag),
    then an ending: nothing, a terminator, or operands none of which starts with a
    dash before the next "--".  The index returned is that of the first operand, and
    the options, the caller's variables and the callbacks are those of the settings
    applied one after the other, in the order of the arguments. *)
Theorem parse_accepts_iff os prog args w i w' :
  Forall valid_arg (prog :: args) ->
  parse os (prog :: args) w = Ok i w' <->
  exists ss tail n, args = line ss ++ tail /\ Forall (setting_ok os) ss /\ ending tail n /\
    i = (1 + length (line ss) + n)%nat /\ w' = apply_settings ss w.
Proof.
  intros Hv. split.
  - intros Hr. apply parse_loop_inv in Hr as (ss & tail & n & Hd & Hr); [|done]. cbn in Hd. subst. by eauto 10.
  - intros (ss & tail & n & -> & Hss & He & -> & ->).
    destruct (parse_settings os prog ss tail w Hss Hv) as (fuel & Hfuel & ->).
    apply (parse_loop_ending _ _ _ _ tail); [done| |done|lia].
    cbn. by rewrite drop_app_length.
Qed.

Lemma parse_accepts_iff_witness :
  result (parse sample sample_argv sample_world) = Some 7%nat /\
  exists ss tail n, tl sample_argv = line ss ++ tail /\ Forall (setting_ok sample) ss /\ ending tail n /\
    7%nat = (1 + length (line ss) + n)%nat /\
    apply_settings sample_settings sample_world = apply_settings ss sample_world.
Proof.
  split; [by vm_compute|].
  apply (parse_accepts_iff sample (codes "prog") (tl sample_argv)); [args_valid|].
  apply (parse_accepts_iff sample (codes "prog") (tl sample_argv)); [args_valid|].
  exists sample_settings, (map codes ["--"; "rest"]%string), 1%nat.
  repeat split; try done; [|by constructor]. repeat constructor.
Defined.

(** The first argument that is neither part of a setting nor the end of the
    options decides how parsing fails, and the settings before it have taken effect:
    an unknown option, a misspelt long option, a text its parser rejects and an option
    behind the first operand are reported by their exceptions; an option whose value is
    missing at the end of the line, a lone "-" and "--" before a negative character
    read outside the arguments or a table and have no defined behaviour. *)
Theorem parse_failures os prog ss tail r w :
  Forall valid_arg (prog :: line ss ++ tail) -> Forall (setting_ok os) ss -> failure os tail r ->
  parse os (prog :: line ss ++ tail) w =
    match r with Some e => Throw e (apply_settings ss w) | None => UB end.
Proof.
  intros Hv Hss Hf. destruct (parse_settings os prog ss tail w Hss Hv) as (fuel & Hfuel & ->).
  apply (parse_loop_failure _ _ _ _ tail); [done|done| |lia]. cbn. by rewrite drop_app_length.
Qed.

Lemma parse_failures_witness :
  parse sample (codes "prog" :: line sample_settings ++ map codes ["--nope"; "x"]%string) sample_world
    = Throw (argument_not_found (codes "----nope")) (apply_settings sample_settings sample_world) /\
  parse sample (codes "prog" :: line sample_settings ++ [codes "--num"]) sample_world = UB.
Proof.
  split.
  - apply (parse_failures sample (codes "prog") sample_settings (map codes ["--nope"; "x"]%string)
      (Some (argument_not_found (codes "----nope")))); [args_valid|repeat constructor|].
    by apply (unknown_long sample (codes "--nope")).
  - apply (parse_failures sample (codes "prog") sample_settings [codes "--num"] None);
      [args_valid|repeat constructor|].
    by eapply (missing_value sample (codes "--num")).
Defined.

(** The value of a numeral. *)
Lemma parse_numeral t p z g :
  parser t = Some p -> (is_Some (signed_width t) \/ is_Some (unsigned_width t)) ->
  Z.abs z < 10 ^ 20 -> ends_number z g ->
  match number_of t z with
  | Some v => p (decimal z g) = inl (VInt v)
  | None => exists msg, p (decimal z g) = inr (parse_error msg)
  end.
Proof.
  intros Hp Ht Hz Hg. unfold number_of.
  pose proof (stol_decimal z g Hz Hg) as Hl. pose proof (stoul_decimal z g Hz Hg) as Hul.
  pose proof (wrap_range 64 z ltac:(lia)).
  destruct t; cbn in Ht; try (by destruct Ht as [[] |[]]); simplify_eq/=;
    unfold parser_short, parser_unsigned_short, parser_int, parser_unsigned, parser_long, parser_unsigned_long,
      parser_long_long, parser_unsigned_long_long, catch_all, stoi; rewrite ?Hl, ?Hul;
    unfold in_signed, in_unsigned; clear Hl Hul;
    repeat (case_test; try lia); eauto; try lia.
Qed.

(** C39: An integer parser given the decimal numeral of [z], followed by nothing or by
    text that does not continue it, returns [z] if it lies in the range of the type and
    reports a parse error if it does not; the text behind the numeral is ignored.  The
    unsigned types also take a negative numeral above -2^64, as its value modulo 2^64
    if that lies in their range. *)
Theorem parser_decimal t p z g :
  parser t = Some p -> (is_Some (signed_width t) \/ is_Some (unsigned_width t)) ->
  Z.abs z < 10 ^ 20 -> ends_number z g ->
  match number_of t z with
  | Some v => p (decimal z g) = inl (VInt v)
  | None => exists msg, p (decimal z g) = inr (parse_error msg)
  end.
Proof. apply parse_numeral. Qed.

Lemma parser_decimal_witness :
  parser_short (decimal (-32768) (codes "k")) = inl (VInt (-32768)) /\
  parser_unsigned (decimal (-1) []) = inr (parse_error (codes "-1 is not a valid unsigned")) /\
  parser_unsigned_long (decimal (-1) []) = inl (VInt (2 ^ 64 - 1)).
Proof.
  split; [|split; [by vm_compute|]].
  - apply (parser_decimal TShort parser_short (-32768) (codes "k")); [done|left; by eexists|lia|by split].
  - apply (parser_decimal TULong parser_unsigned_long (-1) []); [done|right; by eexists|lia|done].
Defined.

(** Parsing ends after at most one round per argument, and an index it returns
    lies behind the program name and is at most the number of arguments. *)
Theorem parse_terminates os prog args w :
  Forall valid_arg (prog :: args) ->
  parse os (prog :: args) w <> NoFuel /\
  forall i w', parse os (prog :: args) w = Ok i w' -> (1 <= i <= 1 + length args)%nat.
Proof.
  intros Hv. split; [apply parse_loop_fuel; cbn; [done|lia..]|].
  intros i w' Hr. apply parse_loop_inv in Hr as (ss & tail & n & Hd & _ & He & -> & _); [|done].
  apply ending_length in He. apply (f_equal length) in Hd. rewrite length_drop, length_app in Hd. cbn in Hd. lia.
Qed.

Lemma parse_terminates_witness :
  parse sample sample_argv sample_world <> NoFuel /\
  forall i w', parse sample sample_argv sample_world = Ok i w' -> (1 <= i <= 8)%nat.
Proof. apply (parse_terminates sample (codes "prog") (tl sample_argv)). args_valid. Defined.
