(* ===== verification/Protocol.v ===== *)
(** Remote calls over a byte stream: [crossbow/Protocol.hpp].

    A request is |8 bytes: total size|4 bytes: command|arguments|, a reply with a result
    |8 bytes: total size|result|, a reply without one a single byte.  Client and server
    each own one buffer in the memory of their process.  The calls of the asynchronous
    socket are actions the operations return ([cact], [sact]); the completion handlers
    are the operations [client_on_read], [client_on_written], [server_on_read] and
    [server_on_written].  [feed] is the socket itself: bytes that arrive in pieces of any
    size, at most as many per read as the buffer it was given can hold.

    The types of a command's arguments and result are those the serializer handles
    ([Archived]); a value with its type is an [aval]. *)
From S2P Require Import Prelude Memory Serializer.

Record atype := AType { carrier : Type; carrier_archived : Archived carrier }.
#[global] Existing Instance carrier_archived.
Record aval := AVal { a_type : atype; a_obj : carrier a_type }.

(** [argsType<Args...>::type] *)
Fixpoint tuple_of (T : Type) (impl : TupleImpl T) (l : list atype) : atype :=
  match l with
  | [] => AType (tuple T) tuple_archived
  | a :: l => tuple_of (tsnoc T (carrier a)) tsnoc_impl l
  end.
Definition argsType (l : list atype) : option atype :=
  match l with
  | [] => None
  | [a] => Some a
  | l => Some (tuple_of tnil tnil_impl l)
  end.

(** [Signature<C>] *)
Record signature := Sig { arguments : option atype; result_type : option atype }.

(** [ArgSerializer<Args...>::exec] with the sizer and with the serializer *)
Fixpoint exec_sizer (args : list aval) : St Z unit :=
  match args with
  | [] => ret tt
  | head :: tail => do! sizer_and (a_obj head) in exec_sizer tail
  end.
Fixpoint exec_serializer (args : list aval) : St archive unit :=
  match args with
  | [] => ret tt
  | head :: tail => do! serializer_and (a_obj head) in exec_serializer tail
  end.

(** An archiver that starts at [pos] of a memory. *)
Definition run_archive {A} (c : St archive A) (pos : Z) : St mem A := fun m =>
  match c (Ar m pos) with
  | Ok a s => Ok a (ar_mem s)
  | Throw e s => Throw e (ar_mem s)
  | UB => UB
  | NoFuel => NoFuel
  end.

(** The counter of a sizer that starts at 0. *)
Definition run_sizer {S} (c : St Z unit) : St S Z := fun s =>
  match c 0 with
  | Ok _ n => Ok n s
  | Throw e _ => Throw e s
  | UB => UB
  | NoFuel => NoFuel
  end.

Section Protocol.
Context `{Allocator}.

(** [buf.reset(new uint8_t[n])] *)
Definition reset_buffer (buf n : Z) : St mem Z :=
  let! p := allocate n in
  do! delete_array buf in
  ret p.

(** The new buffer gets the first [k] bytes of the old one and takes its place. *)
Definition grow_buffer (buf k n : Z) : St mem Z :=
  let! newBuf := allocate n in
  do! memcpy newBuf buf (Z.to_nat k) in
  do! delete_array buf in
  ret newBuf.

(** ** Client *)

Record client := Client { cl_mem : mem; mCurrSize : Z; mCurrentRequest : Z }.

Inductive cact :=
  | CWrite (data : list Z)
  | CRead (ptr len bytes_read : Z)
  | CCallback (ec : Z) (res : option aval).

Definition on_client {A} (c : St mem A) : St client A := fun s =>
  match c (cl_mem s) with
  | Ok a m => Ok a (Client m (mCurrSize s) (mCurrentRequest s))
  | Throw e m => Throw e (Client m (mCurrSize s) (mCurrentRequest s))
  | UB => UB
  | NoFuel => NoFuel
  end.
Definition cset_request (p : Z) : St client unit := fun s => Ok tt (Client (cl_mem s) (mCurrSize s) p).
Definition cset_size (n : Z) : St client unit := fun s => Ok tt (Client (cl_mem s) n (mCurrentRequest s)).

(** [Client::Client] in the memory [m] *)
Definition client_make (m : mem) : outcome client unit :=
  (let! p := on_client (allocate 1024) in cset_request p) (Client m 1024 0).

(** [readResponse] of a command without a result *)
Definition readResponse_void (bytes_read : Z) : St client (list cact) :=
  do! massert (bytes_read <=? 1) in
  let! s := get in
  ret ((if bytes_read =? 0 then [] else [CCallback 0 None]) ++
       [CRead (mCurrentRequest s) (mCurrSize s) bytes_read]).

(** [readResponse] of a command with a result of type [R]; a buffer that is too small
    is replaced, [mCurrSize] stays as it is. *)
Definition readResponse (R : atype) (bytes_read : Z) : St client (list cact) :=
  let! s := get in
  let! respSize := on_client (load_word 8 (mCurrentRequest s)) in
  if (8 <=? bytes_read) && (respSize =? bytes_read) then
    let! res := on_client (run_archive (deserializer_and (default_init : carrier R)) (mCurrentRequest s + 8)) in
    ret [CCallback 0 (Some (AVal R res))]
  else
    do! (if (8 <=? bytes_read) && (mCurrSize s <? respSize) then
           let! p := on_client (grow_buffer (mCurrentRequest s) (mCurrSize s) respSize) in
           cset_request p
         else ret tt) in
    let! s := get in
    ret [CRead (mCurrentRequest s + bytes_read) (u64 (mCurrSize s - bytes_read)) bytes_read].

(** [error<Res>] *)
Definition client_error (R : option atype) (ec : Z) : list cact :=
  match R with
  | None => [CCallback ec None]
  | Some R => [CCallback ec (Some (AVal R default_init))]
  end.

Definition read_response (R : option atype) (bytes_read : Z) : St client (list cact) :=
  match R with None => readResponse_void bytes_read | Some R => readResponse R bytes_read end.

(** The handler of the read that was started with [bytes_read] *)
Definition client_on_read (R : option atype) (bytes_read ec br : Z) : St client (list cact) :=
  if negb (ec =? 0) then ret (client_error R ec) else read_response R (u64 (bytes_read + br)).

(** The handler of the write of a request *)
Definition client_on_written (R : option atype) (ec : Z) : St client (list cact) :=
  if negb (ec =? 0) then ret (client_error R ec) else read_response R 0.

(** [Client::execute<C>(callback, args...)] *)
Definition client_execute (C : Z) (args : list aval) : St client (list cact) :=
  let! size := run_sizer (
    do! sizer_and (default_init : size_t) in
    do! sizer_and (UInt C : uint 4) in
    exec_sizer args) in
  let! s := get in
  do! (if mCurrSize s <? size then
         let! p := on_client (reset_buffer (mCurrentRequest s) size) in
         do! cset_request p in
         cset_size size
       else ret tt) in
  let! s := get in
  do! on_client (run_archive (
    do! serializer_and (UInt size : size_t) in
    do! serializer_and (UInt C : uint 4) in
    exec_serializer args) (mCurrentRequest s)) in
  let! data := on_client (load_bytes (Z.to_nat size) (mCurrentRequest s)) in
  ret [CWrite data].

(** ** Server *)

Record server := Server { sv_mem : mem; mBufSize : Z; mBuffer : Z; doQuit : bool }.

Inductive sact :=
  | SRead (ptr len bytes_read : Z)
  | SExecute (cmd : Z) (args : option aval)
  | SWrite (data : list Z)
  | SStop
  | SClose.

Definition on_server {A} (c : St mem A) : St server A := fun s =>
  match c (sv_mem s) with
  | Ok a m => Ok a (Server m (mBufSize s) (mBuffer s) (doQuit s))
  | Throw e m => Throw e (Server m (mBufSize s) (mBuffer s) (doQuit s))
  | UB => UB
  | NoFuel => NoFuel
  end.
Definition sset_buffer (p : Z) : St server unit := fun s => Ok tt (Server (sv_mem s) (mBufSize s) p (doQuit s)).
Definition sset_size (n : Z) : St server unit := fun s => Ok tt (Server (sv_mem s) n (mBuffer s) (doQuit s)).

(** [Server::Server] *)
Definition server_make (m : mem) : outcome server unit :=
  (let! p := on_server (allocate 1024) in sset_buffer p) (Server m 1024 0 false).

Definition quit : St server unit := fun s => Ok tt (Server (sv_mem s) (mBufSize s) (mBuffer s) true).

(** The commands of [GEN_COMMANDS], numbered from 1. *)
Context (commands : list signature).
Definition command (cmd : Z) : option signature :=
  if 1 <=? cmd then commands !! Z.to_nat (cmd - 1) else None.

(** [Server::execute<C>(callback)]: the call of the implementation. *)
Definition server_execute (cmd : Z) (sig : signature) : St server (list sact) :=
  match arguments sig with
  | None => ret [SExecute cmd None]
  | Some A =>
      let! s := get in
      let! args := on_server (run_archive (deserializer_and (default_init : carrier A)) (mBuffer s + 8 + 4)) in
      ret [SExecute cmd (Some (AVal A args))]
  end.

(** [execute_impl]: a command that is not in the list is none of the cases. *)
Definition execute_impl (cmd : Z) : St server (list sact) :=
  match command cmd with
  | Some sig => server_execute cmd sig
  | None => ret []
  end.

Definition server_read (bytes_read : Z) : St server (list sact) :=
  let! s := get in
  let stop := if (bytes_read =? 0) && doQuit s then [SStop] else [] in
  let! reqSize := (if bytes_read =? 0 then ret 0 else on_server (load_word 8 (mBuffer s))) in
  if negb (bytes_read =? 0) && (reqSize =? bytes_read) then
    let! cmd := on_server (load_word 4 (mBuffer s + 8)) in
    execute_impl cmd
  else
    do! (if (8 <=? bytes_read) && (mBufSize s <? reqSize) then
           let! p := on_server (grow_buffer (mBuffer s) (mBufSize s) reqSize) in
           do! sset_buffer p in
           sset_size reqSize
         else ret tt) in
    let! s := get in
    ret (stop ++ [SRead (mBuffer s + bytes_read) (u64 (mBufSize s - bytes_read)) bytes_read]).

Definition run : St server (list sact) := server_read 0.

(** The callback the implementation calls with the result of a command *)
Definition server_reply_void : St server (list sact) :=
  let! s := get in
  do! on_server (store (mBuffer s) 1) in
  let! data := on_server (load_bytes 1 (mBuffer s)) in
  ret [SWrite data].

Definition server_reply (result : aval) : St server (list sact) :=
  let! size := run_sizer (
    do! sizer_and (default_init : size_t) in
    sizer_and (a_obj result)) in
  let! s := get in
  do! (if mBufSize s <? size then
         let! p := on_server (reset_buffer (mBuffer s) size) in
         sset_buffer p
       else ret tt) in
  let! s := get in
  do! on_server (run_archive (
    do! serializer_and (UInt size : size_t) in
    serializer_and (a_obj result)) (mBuffer s)) in
  let! data := on_server (load_bytes (Z.to_nat size) (mBuffer s)) in
  ret [SWrite data].

(** The handler of the write of a reply; only one of them closes on an error. *)
Definition server_on_written (is_void : bool) (ec : Z) : St server (list sact) :=
  if negb (ec =? 0) then ret (if is_void then [] else [SClose]) else server_read 0.

(** The handler of the read that was started with [bytes_read] *)
Definition server_on_read (bytes_read ec br : Z) : St server (list sact) :=
  if negb (ec =? 0) then ret [SClose] else server_read (u64 (bytes_read + br)).

End Protocol.

(** ** The socket

    [async_read_some]: with room for no byte it completes at once; otherwise it waits for
    bytes and takes some of those that have arrived, at most [S n] here. *)
Section Feed.
Context {T A : Type} (read_of : A -> option (Z * Z * Z)) (deliver : Z -> list Z -> St T unit)
        (on_read : Z -> Z -> Z -> St T (list A)).

(** Completes the read that is the last of [acts], one read per element of [ns].  The
    result is the list of actions after the last one, and the bytes that are left. *)
Fixpoint feed (ns : list nat) (stream : list Z) (acts : list A) : St T (list A * list Z) :=
  match ns, list.last acts ≫= read_of with
  | n :: ns, Some (ptr, len, bytes_read) =>
      if negb (len =? 0) && bool_decide (stream = []) then ret (acts, stream) else
      let k := (S n `min` Z.to_nat len `min` length stream)%nat in
      do! deliver ptr (take k stream) in
      let! acts := on_read bytes_read 0 (Z.of_nat k) in
      feed ns (drop k stream) acts
  | _, _ => ret (acts, stream)
  end.
End Feed.

Definition cread_of (a : cact) : option (Z * Z * Z) :=
  match a with CRead p l b => Some (p, l, b) | _ => None end.
Definition sread_of (a : sact) : option (Z * Z * Z) :=
  match a with SRead p l b => Some (p, l, b) | _ => None end.

Definition client_feed `{Allocator} (R : option atype) : list nat -> list Z -> list cact -> St client (list cact * list Z) :=
  feed cread_of (fun p k => on_client (store_bytes p k)) (client_on_read R).
Definition server_feed `{Allocator} (commands : list signature) : list nat -> list Z -> list sact -> St server (list sact * list Z) :=
  feed sread_of (fun p k => on_server (store_bytes p k)) (server_on_read commands).
