(* ===== verification/ProtocolSpec.v ===== *)
(** Remote calls: the buffers of client and server, the bytes of requests and replies,
    and the step lemmas of reading them in pieces. *)
From S2P Require Import Prelude Memory Serializer SerializerSpec SerializerClaims Protocol.

(** ** Values with their laws *)

Record lval := LVal {
  l_type : Type;
  l_archived : Archived l_type;
  l_lawful : Lawful l_type;
  l_obj : l_type
}.
#[global] Existing Instances l_archived l_lawful.

Definition aval_of (x : lval) : aval := AVal (AType (l_type x) (l_archived x)) (l_obj x).
Definition l_encode (x : lval) : list Z := encode (l_obj x).
Definition l_wf (x : lval) : Prop := wf (l_obj x).
Definition encode_args (l : list lval) : list Z := encode_all l_encode l.

(** The object the arguments of a call arrive in. *)
Record tval := TVal { t_type : Type; t_impl : TupleImpl t_type; t_lawful : TupleLawful t_type; t_obj : t_type }.
#[global] Existing Instances t_impl t_lawful.

Definition tsnoc_val (t : tval) (x : lval) : tval :=
  TVal (tsnoc (t_type t) (l_type x)) tsnoc_impl tsnoc_lawful (TSnoc (t_obj t) (l_obj x)).
Definition tuple_val (t : tval) : lval := LVal (tuple (t_type t)) tuple_archived tuple_lawful (Tuple (t_obj t)).
Definition tnil_val : tval := TVal tnil tnil_impl tnil_lawful TNil.
Definition args_val (l : list lval) : option lval :=
  match l with
  | [] => None
  | [x] => Some x
  | l => Some (tuple_val (fold_left tsnoc_val l tnil_val))
  end.

Lemma exec_sizer_grows l : Forall l_wf l -> grows (exec_sizer (map aval_of l)) (zlen (encode_args l)).
Proof.
  induction 1 as [|x l Hx Hl IH]; cbn; [apply grows_nil|].
  unfold encode_args, encode_all. cbn. rewrite zlen_app. apply grows_seq; [by apply size_law|exact IH].
Qed.

Lemma exec_serializer_writes l : Forall l_wf l -> writes (exec_serializer (map aval_of l)) (encode_args l).
Proof.
  induction 1 as [|x l Hx Hl IH]; cbn; [apply writes_nil|].
  unfold encode_args, encode_all. cbn. apply writes_seq; [by apply serialize_law|exact IH].
Qed.

Lemma fold_tsnoc_encode l t :
  tencode (t_obj (fold_left tsnoc_val l t)) = tencode (t_obj t) ++ encode_args l.
Proof.
  revert t. induction l as [|x l IH]; intros t; cbn; [by rewrite app_nil_r|].
  rewrite IH. cbn. unfold encode_args, encode_all. cbn. by rewrite <-app_assoc.
Qed.

Lemma fold_tsnoc_wf l t : Forall l_wf l -> twf (t_obj t) -> twf (t_obj (fold_left tsnoc_val l t)).
Proof. intros Hl. revert t. induction Hl as [|x l Hx Hl IH]; intros t Ht; [done|]. apply IH. by split. Qed.

(** The arguments object has the bytes of the arguments one after the other. *)
Lemma args_val_spec l x : args_val l = Some x -> Forall l_wf l -> l_wf x /\ l_encode x = encode_args l.
Proof.
  intros Hx Hl. destruct l as [|y [|z l]]; [done| |].
  - cbn in Hx. simplify_eq. apply list.Forall_cons in Hl as [Hy _]. split; [done|].
    unfold encode_args, encode_all. cbn. by rewrite app_nil_r.
  - assert (x = tuple_val (fold_left tsnoc_val (y :: z :: l) tnil_val)) as -> by (cbn in *; congruence). split.
    + apply (fold_tsnoc_wf _ tnil_val Hl). done.
    + apply (fold_tsnoc_encode _ tnil_val).
Qed.

Definition ltype (x : lval) : atype := AType (l_type x) (l_archived x).

Lemma tuple_of_fold l t :
  tuple_of (t_type t) (t_impl t) (map ltype l) = ltype (tuple_val (fold_left tsnoc_val l t)).
Proof. revert t. induction l as [|x l IH]; intros t; [done|]. cbn. apply (IH (tsnoc_val t x)). Qed.

(** Its type is the one [argsType] computes. *)
Lemma args_val_type l : argsType (map ltype l) = option_map ltype (args_val l).
Proof.
  destruct l as [|y [|z l]]; [done..|]. unfold args_val, argsType. cbn [map option_map].
  f_equal. apply (tuple_of_fold (y :: z :: l) tnil_val).
Qed.

(** ** Messages *)

Definition request_size (l : list lval) : Z := 12 + zlen (encode_args l).
Definition request (C : Z) (l : list lval) : list Z :=
  le_bytes 8 (request_size l) ++ le_bytes 4 C ++ encode_args l.
Definition reply_size (r : lval) : Z := 8 + zlen (l_encode r).
Definition reply (r : lval) : list Z := le_bytes 8 (reply_size r) ++ l_encode r.

Lemma zlen_request C l : zlen (request C l) = request_size l.
Proof. unfold request, request_size. rewrite !zlen_app, !zlen_le_bytes. lia. Qed.

Lemma zlen_reply r : zlen (reply r) = reply_size r.
Proof. unfold reply, reply_size. rewrite zlen_app, zlen_le_bytes. lia. Qed.

Section Buffers.
Context `{Allocator}.

(** [holds m buf n k]: [buf] is a live block of at least [n] bytes that starts with [k]. *)
Definition holds (m : mem) (buf n : Z) (k : list Z) : Prop :=
  exists d, 0 < buf /\ blocks m !! buf = Some (zlen d) /\ pts m buf d /\ n <= zlen d /\ k `prefix_of` d.

Lemma holds_pts m buf n k : holds m buf n k -> pts m buf k.
Proof. intros (d & _ & _ & Hd & _ & e & ->). by apply pts_app in Hd as []. Qed.

Lemma holds_owned m buf n k : holds m buf n k -> owned m buf.
Proof. intros (d & _ & Hb & Hd & _). right. eauto. Qed.

Lemma holds_nil m buf n k : holds m buf n k -> holds m buf n [].
Proof. intros (d & ? & ? & ? & ? & _). exists d. eauto 10 using prefix_nil. Qed.

Lemma holds_prefix m buf n k k' : holds m buf n (k ++ k') -> holds m buf n k.
Proof. intros (d & ? & ? & ? & ? & Hp). exists d. split_and!; try done. etrans; [|done]. by eexists. Qed.

(** Writing [c] behind [k]. *)
Lemma holds_upd m buf n k c : holds m buf n k -> zlen k + zlen c <= n ->
  holds (upd m (buf + zlen k) c) buf n (k ++ c).
Proof.
  intros (d & Hb0 & Hb & Hd & Hn & e & ->) Hc. unfold zlen in Hc, Hn. rewrite length_app in Hn.
  exists (splice (length k) c (k ++ e)).
  assert (length (splice (length k) c (k ++ e)) = length (k ++ e)) as Hlen by (apply length_splice; rewrite length_app; lia).
  split_and!; try done.
  - unfold zlen. by rewrite Hlen.
  - apply pts_upd_in; [done|]. rewrite length_app. lia.
  - unfold zlen. rewrite Hlen, length_app. lia.
  - unfold splice. rewrite take_app_length, app_assoc. by eexists.
Qed.

Lemma holds_room m buf n k (c : list Z) : holds m buf n k -> zlen k + zlen c <= n ->
  exists l0, pts m (buf + zlen k) l0 /\ length l0 = length (c : list Z).
Proof.
  intros (d & _ & _ & Hd & Hn & e & ->) Hc. apply pts_app in Hd as [_ He].
  exists (take (length c) e). split; [by apply pts_take|]. unfold zlen in *. rewrite length_app in Hn.
  rewrite length_take. lia.
Qed.

Lemma deliver_ok m buf n k c : holds m buf n k -> zlen k + zlen c <= n ->
  store_bytes (buf + zlen k) c m = Ok tt (upd m (buf + zlen k) c) /\
  holds (upd m (buf + zlen k) c) buf n (k ++ c).
Proof.
  intros Hh Hc. destruct (holds_room _ _ _ _ _ Hh Hc) as (l0 & Hl0 & Hlen). split.
  - by apply (store_bytes_ok _ _ l0).
  - by apply holds_upd.
Qed.

Lemma write_ok c k m buf n : writes c k -> holds m buf n [] -> zlen k <= n ->
  run_archive c buf m = Ok tt (upd m buf k) /\ holds (upd m buf k) buf n k.
Proof.
  intros Hw Hh Hk. destruct (holds_room m buf n [] k Hh Hk) as (l0 & Hl0 & Hlen). cbn in Hl0. rewrite Z.add_0_r in Hl0.
  split; [unfold run_archive; by rewrite (Hw _ _ _ Hl0 Hlen)|].
  pose proof (holds_upd m buf n [] k Hh Hk) as Hu. cbn in Hu. by rewrite Z.add_0_r in Hu.
Qed.

(** A new block. *)
Lemma new_holds m size p : 0 < size -> alloc_pick m size = Some p -> holds (new_block m p size) p size [].
Proof.
  intros Hs Hp. destruct (alloc_fresh _ _ _ Hp ltac:(lia)) as (Hp0 & _).
  pose proof (new_block_pts m p size ltac:(lia)) as Hnew.
  assert (zlen (map (fun i => alloc_init (p + i)) (seqZ 0 size)) = size) as Hlen
    by (unfold zlen; rewrite length_map, length_seqZ_nat by lia; lia).
  eexists. split_and!; [done| |exact Hnew| |apply prefix_nil]; rewrite ?Hlen; [apply lookup_insert_eq|done].
Qed.

(** A new block, with the old one still there. *)
Lemma alloc_holds m buf n k size p : holds m buf n k -> 0 < size -> alloc_pick m size = Some p ->
  holds (new_block m p size) p size [] /\ holds (new_block m p size) buf n k /\ p <> buf.
Proof.
  intros (d & Hb0 & Hb & Hd & Hn & Hk) Hs Hp.
  destruct (alloc_fresh _ _ _ Hp ltac:(lia)) as (Hp0 & _ & _ & Hnone & Hfree).
  assert (p <> buf) as Hne by congruence.
  split_and!; [| |done].
  - by apply new_holds.
  - exists d. split_and!; try done.
    + cbn. by rewrite lookup_insert_ne.
    + apply new_block_frame; [done|lia|done].
Qed.

(** Releasing the old buffer leaves the other one. *)
Lemma delete_holds m buf n k p n' k' : holds m buf n k -> holds m p n' k' -> p <> buf ->
  (forall a, p <= a < p + n' -> not_in m buf a) ->
  (forall s, blocks m !! p = Some s -> s = n') ->
  exists m', delete_array buf m = Ok tt m' /\ holds m' p n' k'.
Proof.
  intros Hh (d & Hp0 & Hb & Hd & Hn & Hk) Hne Hout Hsz.
  destruct (delete_array_ok m m buf (holds_owned _ _ _ _ Hh)) as (m' & Hdel & Hbytes & Hblocks); [done|].
  exists m'. split; [done|]. exists d. split_and!; try done.
  - apply Hblocks; [done|by left].
  - intros i x Hi. apply Hbytes; [by apply Hd|]. apply Hout. rewrite <-(Hsz _ Hb).
    apply lookup_lt_Some in Hi. unfold zlen. lia.
Qed.

Lemma fresh_block_not_in m p size buf n k a : holds m buf n k -> 0 < size -> alloc_pick m size = Some p ->
  p <= a < p + size -> not_in (new_block m p size) buf a.
Proof.
  intros Hh Hs Hp Ha n' Hn' Hb0.
  assert (p <> buf) as Hne by (by destruct (alloc_holds _ _ _ _ _ _ Hh Hs Hp) as (_ & _ & ?)).
  cbn in Hn'. rewrite lookup_insert_ne in Hn' by done.
  by apply (fresh_not_in m size p buf a Hp ltac:(lia) (holds_owned _ _ _ _ Hh) Ha).
Qed.

Lemma reset_ok m buf n k size : holds m buf n k -> 0 < size ->
  wpx (reset_buffer buf size) m (fun p m' => holds m' p size []) (fun e m' => e = BadAlloc /\ m' = m).
Proof.
  intros Hh Hs. unfold reset_buffer, wpx, bind, allocate. destruct (alloc_pick m size) as [p|] eqn:Hp; [|done].
  destruct (alloc_holds _ _ _ _ _ _ Hh Hs Hp) as (Hnew & Hold & Hne).
  destruct (delete_holds _ _ _ _ _ _ _ Hold Hnew Hne) as (m' & Hdel & Hm').
  - intros a Ha. by eapply fresh_block_not_in.
  - cbn. rewrite lookup_insert_eq. congruence.
  - by rewrite Hdel.
Qed.

Lemma grow_ok m buf n k size : holds m buf n k -> zlen k <= n -> n <= size -> 0 < size ->
  wpx (grow_buffer buf n size) m (fun p m' => holds m' p size k) (fun e m' => e = BadAlloc /\ m' = m).
Proof.
  intros Hh Hk Hn Hs. unfold grow_buffer, wpx, bind, allocate. destruct (alloc_pick m size) as [p|] eqn:Hp; [|done].
  destruct (alloc_holds _ _ _ _ _ _ Hh Hs Hp) as (Hnew & Hold & Hne).
  pose proof (zlen_nonneg k). set (m1 := new_block m p size) in *.
  destruct Hold as (d & Hb0 & Hb & Hd & Hnd & e & He).
  pose (c := take (Z.to_nat n) d).
  assert (zlen c = n) as Hc by (unfold c, zlen in *; rewrite length_take; lia).
  destruct (holds_room m1 p size [] c Hnew) as (l0 & Hl0 & Hlen0); [unfold zlen at 1; cbn; lia|].
  cbn in Hl0. rewrite Z.add_0_r in Hl0.
  assert (memcpy p buf (Z.to_nat n) m1 = Ok tt (upd m1 p c)) as ->.
  { replace (Z.to_nat n) with (length c) by (unfold zlen in Hc; lia).
    apply (memcpy_ok _ _ _ _ l0); [by apply pts_take|done|done]. }
  pose proof (holds_upd m1 p size [] c Hnew ltac:(unfold zlen at 1; cbn; lia)) as Hnew'.
  cbn in Hnew'. rewrite Z.add_0_r in Hnew'.
  assert (holds (upd m1 p c) buf n []) as Hold'.
  { exists d. split_and!; try done; [|apply prefix_nil]. apply pts_upd_disj; [done|].
    assert (pts m buf d) as Hdm.
    { destruct Hh as (d' & _ & Hb' & Hd' & _). cbn in Hb. rewrite lookup_insert_ne in Hb by done.
      assert (d' = d) as <-; [|done]. apply (pts_inj m1 buf); [apply new_block_frame; [done|lia|done]|done|].
      rewrite Hb' in Hb. unfold zlen in Hb. simplify_eq. lia. }
    destruct (alloc_disj m p size buf d Hp ltac:(lia) Hdm) as [Hdj|[|Hd0]]; [unfold disj in *; lia|lia|].
    apply (f_equal length) in Hd0. cbn in Hd0. unfold disj, zlen in *. lia. }
  destruct (delete_holds _ _ _ _ _ _ _ Hold' Hnew' Hne) as (m' & Hdel & Hm').
  - intros a Ha n' Hn'. exact (fresh_block_not_in m p size buf n k a Hh Hs Hp Ha n' Hn').
  - cbn. rewrite lookup_insert_eq. congruence.
  - rewrite Hdel. destruct Hm' as (d1 & ? & ? & ? & ? & Hpre). exists d1. split_and!; try done.
    etrans; [|exact Hpre]. unfold c. rewrite He, take_app_ge by (unfold zlen in *; lia). by eexists.
Qed.
End Buffers.
