(* ===== verification/ProtocolClaims.v ===== *)
(** The theorems about remote calls: a request and a reply survive delivery in pieces,
    and the three ways in which reading goes wrong. *)
From S2P Require Import Prelude Memory Serializer SerializerSpec SerializerClaims Protocol ProtocolSpec.

Section Endpoints.
Context `{Allocator}.

Definition cholds (s : client) (k : list Z) : Prop :=
  holds (cl_mem s) (mCurrentRequest s) (mCurrSize s) k /\ 1024 <= mCurrSize s < 2 ^ 64.
Definition sholds (s : server) (k : list Z) : Prop :=
  holds (sv_mem s) (mBuffer s) (mBufSize s) k /\ 1024 <= mBufSize s < 2 ^ 64.

(** ** Running memory operations of an endpoint *)

Lemma wpx_client {A} (c : St mem A) s Q (X : exn -> client -> Prop) :
  wpx c (cl_mem s) (fun a m => Q a (Client m (mCurrSize s) (mCurrentRequest s)))
    (fun e m => X e (Client m (mCurrSize s) (mCurrentRequest s))) -> wpx (on_client c) s Q X.
Proof. unfold wpx, on_client. by destruct (c (cl_mem s)). Qed.

Lemma wpx_server {A} (c : St mem A) s Q (X : exn -> server -> Prop) :
  wpx c (sv_mem s) (fun a m => Q a (Server m (mBufSize s) (mBuffer s) (doQuit s)))
    (fun e m => X e (Server m (mBufSize s) (mBuffer s) (doQuit s))) -> wpx (on_server c) s Q X.
Proof. unfold wpx, on_server. by destruct (c (sv_mem s)). Qed.

Lemma client_pure {A} (c : St mem A) s a : c (cl_mem s) = Ok a (cl_mem s) -> on_client c s = Ok a s.
Proof. unfold on_client. intros ->. by destruct s. Qed.

Lemma server_pure {A} (c : St mem A) s a : c (sv_mem s) = Ok a (sv_mem s) -> on_server c s = Ok a s.
Proof. unfold on_server. intros ->. by destruct s. Qed.

Lemma run_sizer_ok {S} c n (s : S) : grows c n -> 0 <= n < 2 ^ 64 -> run_sizer c s = Ok n s.
Proof. intros Hc Hn. unfold run_sizer. rewrite Hc by lia. by rewrite Z.add_0_l, u64_small. Qed.

Lemma run_reads {A} (c : St archive A) k a m pos : reads_as c k a -> pts m pos k -> run_archive c pos m = Ok a m.
Proof. intros Hc Hk. unfold run_archive. by rewrite (Hc _ _ Hk). Qed.

(** The size in front of a message that is complete up to it. *)
Lemma load_header m buf n k size rest : holds m buf n k -> k = le_bytes 8 size ++ rest -> 0 <= size < 2 ^ 64 ->
  load_word 8 buf m = Ok size m.
Proof.
  intros Hh -> Hs. apply holds_pts in Hh. apply pts_app in Hh as [Hh _].
  rewrite (load_word_ok 8 _ _ _ Hh) by apply length_le_bytes. by rewrite le_val_bytes_small.
Qed.

Lemma load_any m buf n : holds m buf n [] -> 8 <= n -> exists v, load_word 8 buf m = Ok v m.
Proof.
  intros Hh Hn. destruct (holds_room m buf n [] (replicate 8 0) Hh) as (l & Hl & Hlen); [unfold zlen; cbn; lia|].
  cbn in Hl. rewrite Z.add_0_r in Hl. eexists. by apply (load_word_ok 8 _ _ _ Hl).
Qed.

(** A message whose first eight bytes are there starts with its size. *)
Lemma header_prefix size body k rest : k ++ rest = le_bytes 8 size ++ body -> 8 <= zlen k ->
  exists t, k = le_bytes 8 size ++ t.
Proof.
  intros Heq Hk. exists (drop 8 k). rewrite <-(take_drop 8 k) at 1. f_equal.
  assert (take 8 (k ++ rest) = take 8 (le_bytes 8 size ++ body)) as Ht by (by rewrite Heq).
  rewrite take_app_le in Ht by (unfold zlen in Hk; lia). rewrite Ht, take_app_le by (rewrite length_le_bytes; lia).
  apply take_ge. by rewrite length_le_bytes.
Qed.

(** ** The client sends *)

Lemma uint_grows w (x : uint w) : grows (sizer_and x) (Z.of_nat w).
Proof. apply policy_grows_const. done. Qed.
Lemma uint_writes w (x : uint w) : writes (serializer_and x) (le_bytes w (uval x)).
Proof. exact (@pod_writes (uint w) (uint_pod w) x). Qed.

Lemma request_grows C l : Forall l_wf l ->
  grows (do! sizer_and (default_init : size_t) in do! sizer_and (UInt C : uint 4) in exec_sizer (map aval_of l))
    (request_size l).
Proof.
  intros Hl. unfold request_size. replace (12 + _) with (8 + (4 + zlen (encode_args l))) by lia.
  apply grows_seq; [apply (uint_grows 8)|]. apply grows_seq; [apply (uint_grows 4)|by apply exec_sizer_grows].
Qed.

Lemma request_writes C l : Forall l_wf l ->
  writes (do! serializer_and (UInt (request_size l) : size_t) in
          do! serializer_and (UInt C : uint 4) in exec_serializer (map aval_of l)) (request C l).
Proof.
  intros Hl. apply writes_seq; [apply (uint_writes 8)|]. apply writes_seq; [apply (uint_writes 4)|].
  by apply exec_serializer_writes.
Qed.

Lemma client_execute_ok s C l :
  cholds s [] -> Forall l_wf l -> request_size l < 2 ^ 64 ->
  wpx (client_execute C (map aval_of l)) s
    (fun acts s' => acts = [CWrite (request C l)] /\ cholds s' (request C l))
    (fun e s' => e = BadAlloc /\ s' = s).
Proof.
  intros [Hh Hn] Hl Hsz. pose proof (zlen_nonneg (encode_args l)). assert (0 <= request_size l) by (unfold request_size; lia).
  unfold client_execute. wpxb. eapply wpx_ok; [by apply run_sizer_ok; [apply request_grows|]|]. cbv beta.
  wpxb. eapply wpx_ok; [done|]. cbv beta. wpxb.
  eapply (wpx_mono _ _ (fun _ s1 => cholds s1 [] /\ request_size l <= mCurrSize s1) _ (fun e s' => e = BadAlloc /\ s' = s)).
  - case_test.
    + wpxb. apply wpx_client. eapply wpx_mono; [apply (reset_ok _ _ _ _ _ Hh); unfold request_size; lia| |].
      * intros p m' Hp. unfold bind, cset_request, cset_size, wpx. cbn. split; [split; cbn; [done|lia]|lia].
      * intros e m' [-> ->]. split; [done|]. by destruct s.
    + unfold wpx, ret. split; [done|lia].
  - intros _ s1 [[Hh1 Hn1] Hs1]. unfold get. wpxb. eapply wpx_ok; [done|]. cbv beta. wpxb.
    destruct (write_ok _ _ (cl_mem s1) (mCurrentRequest s1) (mCurrSize s1) (request_writes C l Hl) Hh1) as [Hw Hh2];
      [by rewrite zlen_request|].
    assert (length (request C l) = Z.to_nat (request_size l)) as Hlen
      by (rewrite <-(zlen_request C l); unfold zlen; lia).
    pose proof (load_bytes_ok _ _ _ (holds_pts _ _ _ _ Hh2)) as Hld. rewrite Hlen in Hld.
    apply wpx_client. eapply wpx_ok; [exact Hw|]. cbv beta. wpxb.
    apply wpx_client. eapply wpx_ok; [exact Hld|]. unfold wpx, ret. split; [done|]. by split.
  - done.
Qed.

(** ** The server reads *)

Section Server.
Context (commands : list signature) (C : Z) (l : list lval) (sig : signature).
Hypothesis HC : 0 <= C < 2 ^ 32.
Hypothesis Hl : Forall l_wf l.
Hypothesis Hsize : request_size l < 2 ^ 64.
Hypothesis Hcmd : command commands C = Some sig.
Hypothesis Hsig : arguments sig = argsType (map ltype l).

Let req := request C l.

Lemma request_size_pos : 12 <= request_size l.
Proof. unfold request_size. pose proof (zlen_nonneg (encode_args l)). lia. Qed.

Lemma server_read_more s k rest :
  sholds s k -> k ++ rest = req -> rest <> [] -> 8 <= zlen k <= mBufSize s ->
  wpx (server_read commands (zlen k)) s
    (fun acts s' => acts = [SRead (mBuffer s' + zlen k) (mBufSize s' - zlen k) (zlen k)] /\
       sholds s' k /\ zlen k < mBufSize s') (fun e s' => e = BadAlloc /\ s' = s).
Proof.
  intros [Hh Hn] Hk Hrest Hk8. pose proof request_size_pos.
  assert (zlen k + zlen rest = request_size l) as Hlen by (rewrite <-(zlen_request C l), <-zlen_app; by rewrite Hk).
  assert (0 < zlen rest) by (destruct rest; [done|rewrite zlen_cons; pose proof (zlen_nonneg rest); lia]).
  destruct (header_prefix (request_size l) _ k rest Hk ltac:(lia)) as [t Ht].
  unfold server_read. wpxb. eapply wpx_ok; [done|]. cbv beta zeta. wpxb.
  destruct (zlen k =? 0) eqn:Hz; bool_prop; [lia|]. cbn [andb negb].
  eapply wpx_ok; [apply server_pure; eapply load_header; [exact Hh|exact Ht|lia]|]. cbv beta.
  destruct (request_size l =? zlen k) eqn:Hq; bool_prop; [lia|].
  assert ((8 <=? zlen k) = true) as -> by lia. cbn [andb]. wpxb.
  eapply (wpx_mono _ _ (fun _ s1 => sholds s1 k /\ zlen k < mBufSize s1) _ (fun e s' => e = BadAlloc /\ s' = s)).
  - case_test.
    + wpxb. apply wpx_server.
      eapply wpx_mono; [apply (grow_ok _ _ _ k (request_size l) Hh); lia| |].
      * intros p m' Hp. unfold bind, sset_buffer, sset_size, wpx. cbn. split; [split; cbn; [done|lia]|lia].
      * intros e m' [-> ->]. split; [done|]. by destruct s.
    + unfold wpx, ret. split; [by split|lia].
  - intros _ s1 [[Hh1 Hn1] Hs1]. wpxb. eapply wpx_ok; [done|]. cbv beta. unfold wpx, ret. cbn.
    rewrite u64_small by lia. split; [done|]. split; [by split|done].
  - done.
Qed.

Lemma server_read_done s : sholds s req ->
  server_read commands (request_size l) s = Ok [SExecute C (option_map aval_of (args_val l))] s.
Proof.
  intros [Hh Hn]. pose proof request_size_pos. pose proof (holds_pts _ _ _ _ Hh) as Hp.
  unfold req, request in Hp. apply pts_app in Hp as [_ Hp]. apply pts_app in Hp as [Hc Ha].
  rewrite zlen_le_bytes in Hc, Ha. rewrite zlen_le_bytes in Ha.
  change (Z.of_nat 8) with 8 in *. change (Z.of_nat 4) with 4 in *.
  unfold server_read, bind, get. destruct (request_size l =? 0) eqn:Hz; bool_prop; [lia|].
  rewrite (server_pure _ _ (request_size l)) by (eapply load_header; [exact Hh|done|lia]).
  rewrite Z.eqb_refl. cbn [andb negb].
  rewrite (server_pure _ _ C); cycle 1.
  { rewrite (load_word_ok 4 _ _ _ Hc) by apply length_le_bytes. by rewrite le_val_bytes_small. }
  unfold execute_impl. rewrite Hcmd. unfold server_execute. rewrite Hsig, args_val_type.
  destruct (args_val l) as [x|] eqn:Hx; [|done]. cbn [option_map]. unfold bind, get.
  destruct (args_val_spec l x Hx Hl) as [Hwx Hex]. rewrite <-Hex in Ha.
  rewrite (server_pure _ _ (l_obj x)); [done|].
  apply (run_reads _ (l_encode x)); [|done]. apply deserialize_law; [done|apply default_fresh].
Qed.

Lemma server_feed_ok ns s k rest :
  sholds s k -> k ++ rest = req -> rest <> [] -> zlen k < mBufSize s -> (length rest <= length ns)%nat ->
  (8 <= zlen k \/ k = [] /\ (7 <= hd 0 ns)%nat) ->
  wpx (server_feed commands ns rest [SRead (mBuffer s + zlen k) (mBufSize s - zlen k) (zlen k)]) s
    (fun r s' => r = ([SExecute C (option_map aval_of (args_val l))], []) /\ sholds s' req)
    (fun e _ => e = BadAlloc).
Proof.
  revert s k rest. induction ns as [|n ns IH]; intros s k rest Hh Hk Hrest Hcap Hlen H8.
  { destruct rest; [done|cbn in Hlen; lia]. }
  unfold server_feed. cbn [feed]. cbn [list.last mbind option_bind sread_of].
  destruct (mBufSize s - zlen k =? 0) eqn:Hz; bool_prop; [lia|].
  rewrite bool_decide_eq_false_2 by done. cbn [andb negb]. cbv zeta.
  set (j := (S n `min` Z.to_nat (mBufSize s - zlen k) `min` length rest)%nat).
  pose proof (zlen_nonneg k) as Hk0. pose proof Hh as [Hh' Hn].
  assert (0 < length rest)%nat as Hr0 by (destruct rest; cbn; [done|lia]).
  assert (zlen (take j rest) = Z.of_nat j) as Hj by (unfold zlen; rewrite length_take; lia).
  wpxb. apply wpx_server.
  destruct (deliver_ok _ _ _ k (take j rest) Hh') as [Hst Hh1]; [lia|].
  eapply wpx_ok; [exact Hst|]. cbv beta.
  set (s1 := Server (upd (sv_mem s) (mBuffer s + zlen k) (take j rest)) (mBufSize s) (mBuffer s) (doQuit s)).
  assert (sholds s1 (k ++ take j rest)) as Hs1 by (by split).
  assert (zlen k + zlen rest = request_size l) as Hsz
    by (rewrite <-(zlen_request C l), <-zlen_app; by rewrite Hk).
  assert (zlen (k ++ take j rest) = zlen k + Z.of_nat j) as Hkj by (by rewrite zlen_app, Hj).
  pose proof request_size_pos. unfold server_on_read. cbn [Z.eqb negb].
  rewrite u64_small by (unfold zlen in *; lia). rewrite <-Hkj. wpxb.
  destruct (decide (drop j rest = [])) as [Hd|Hd].
  - assert (k ++ take j rest = req) as Hall by (rewrite <-Hk; f_equal; rewrite <-(take_drop j rest) at 2; by rewrite Hd, app_nil_r).
    rewrite Hall in *. unfold req at 1. rewrite zlen_request.
    eapply wpx_ok; [by apply server_read_done|]. cbv beta. rewrite Hd. destruct ns; done.
  - assert (j < length rest)%nat as Hjl
      by (destruct (decide (j < length rest)%nat); [done|]; exfalso; apply Hd, drop_ge; lia).
    assert (8 <= zlen k + Z.of_nat j) as H8j.
    { destruct H8 as [|[-> H8]]; [lia|]. cbn in H8. change (zlen (@nil Z)) with 0 in *. lia. }
    assert ((k ++ take j rest) ++ drop j rest = req) as Hk' by (by rewrite <-app_assoc, take_drop).
    eapply wpx_mono; [apply (server_read_more s1 (k ++ take j rest) (drop j rest) Hs1 Hk' Hd)| |].
    + rewrite Hkj. change (mBufSize s1) with (mBufSize s). lia.
    + intros acts s2 (-> & Hs2 & Hc2). apply IH; try done; [|rewrite Hkj; by left].
      rewrite length_drop. cbn in Hlen. lia.
    + by intros e s2 [-> _].
Qed.
End Server.

(** ** The server answers *)

Lemma reply_grows r : l_wf r -> grows (do! sizer_and (default_init : size_t) in sizer_and (l_obj r)) (reply_size r).
Proof. intros Hr. unfold reply_size. apply grows_seq; [apply (uint_grows 8)|by apply size_law]. Qed.

Lemma reply_writes r : l_wf r ->
  writes (do! serializer_and (UInt (reply_size r) : size_t) in serializer_and (l_obj r)) (reply r).
Proof. intros Hr. apply writes_seq; [apply (uint_writes 8)|by apply serialize_law]. Qed.

Lemma holds_le m buf n n' k : holds m buf n k -> n' <= n -> holds m buf n' k.
Proof. intros (d & ? & ? & ? & ? & ?) Hn. exists d. split_and!; try done. lia. Qed.

Lemma server_reply_ok s k r :
  sholds s k -> l_wf r -> reply_size r < 2 ^ 64 ->
  wpx (server_reply (aval_of r)) s
    (fun acts s' => acts = [SWrite (reply r)] /\ sholds s' (if reply_size r <=? mBufSize s then reply r else []))
    (fun e s' => e = BadAlloc /\ s' = s).
Proof.
  intros [Hh Hn] Hr Hsz. pose proof (zlen_nonneg (l_encode r)). assert (8 <= reply_size r) by (unfold reply_size; lia).
  unfold server_reply. wpxb. eapply wpx_ok; [apply run_sizer_ok; [by apply reply_grows|lia]|]. cbv beta.
  wpxb. eapply wpx_ok; [done|]. cbv beta. wpxb.
  pose (n1 := Z.max (mBufSize s) (reply_size r)).
  eapply (wpx_mono _ _ (fun _ s1 => holds (sv_mem s1) (mBuffer s1) n1 [] /\ mBufSize s1 = mBufSize s)
            _ (fun e s' => e = BadAlloc /\ s' = s)).
  - case_test.
    + wpxb. apply wpx_server. eapply wpx_mono; [apply (reset_ok _ _ _ _ (reply_size r) Hh); lia| |].
      * intros p m' Hp. unfold sset_buffer, wpx. cbn. split; [|done]. apply (holds_le _ _ (reply_size r)); [exact Hp|unfold n1; lia].
      * intros e m' [-> ->]. split; [done|]. by destruct s.
    + unfold wpx, ret. split; [|done]. unfold n1. rewrite Z.max_l by lia. by eapply holds_nil.
  - intros _ s1 [Hh1 Hs1]. wpxb. eapply wpx_ok; [done|]. cbv beta. wpxb.
    destruct (write_ok _ _ (sv_mem s1) (mBuffer s1) n1 (reply_writes r Hr) Hh1) as [Hw Hh2];
      [rewrite zlen_reply; unfold n1; lia|].
    assert (length (reply r) = Z.to_nat (reply_size r)) as Hlen by (rewrite <-(zlen_reply r); unfold zlen; lia).
    pose proof (load_bytes_ok _ _ _ (holds_pts _ _ _ _ Hh2)) as Hld. rewrite Hlen in Hld.
    apply wpx_server. eapply wpx_ok; [exact Hw|]. cbv beta. wpxb.
    apply wpx_server. eapply wpx_ok; [exact Hld|]. unfold wpx, ret. split; [done|].
    assert (holds (upd (sv_mem s1) (mBuffer s1) (reply r)) (mBuffer s1) (mBufSize s1) (reply r)) as Hh3
      by (eapply holds_le; [exact Hh2|unfold n1; lia]).
    split; cbn; [|lia]. case_test; [done|by eapply holds_nil].
  - done.
Qed.

(** ** The client reads *)

Section Client.
Context (r : lval).
Hypothesis Hr : l_wf r.
Hypothesis Hsize : reply_size r < 2 ^ 64.

Lemma reply_size_pos : 8 <= reply_size r.
Proof. unfold reply_size. pose proof (zlen_nonneg (l_encode r)). lia. Qed.

Lemma client_read_more s k rest :
  cholds s k -> k ++ rest = reply r -> rest <> [] -> zlen k <= mCurrSize s ->
  wpx (readResponse (ltype r) (zlen k)) s
    (fun acts s' => acts = [CRead (mCurrentRequest s' + zlen k) (mCurrSize s' - zlen k) (zlen k)] /\
       cholds s' k /\ mCurrSize s' = mCurrSize s)
    (fun e s' => e = BadAlloc /\ mCurrSize s < reply_size r).
Proof.
  intros [Hh Hn] Hk Hrest Hcap. pose proof reply_size_pos. pose proof (zlen_nonneg k).
  assert (zlen k + zlen rest = reply_size r) as Hlen by (rewrite <-(zlen_reply r), <-zlen_app; by rewrite Hk).
  assert (0 < zlen rest) by (destruct rest; [done|rewrite zlen_cons; pose proof (zlen_nonneg rest); lia]).
  unfold readResponse. wpxb. eapply wpx_ok; [done|]. cbv beta. wpxb.
  assert (exists v, load_word 8 (mCurrentRequest s) (cl_mem s) = Ok v (cl_mem s) /\ (8 <= zlen k -> v = reply_size r))
    as (v & Hv & Hv8).
  { destruct (decide (8 <= zlen k)) as [H8|H8].
    - exists (reply_size r). split; [|done]. destruct (header_prefix (reply_size r) _ k rest Hk H8) as [t Ht].
      eapply load_header; [exact Hh|exact Ht|lia].
    - destruct (load_any (cl_mem s) (mCurrentRequest s) (mCurrSize s)) as [v Hv]; [by eapply holds_nil|lia|].
      exists v. split; [done|lia]. }
  eapply wpx_ok; [by apply client_pure|]. cbv beta.
  destruct ((8 <=? zlen k) && (v =? zlen k)) eqn:Hdone; bool_prop; [lia|]. wpxb.
  eapply (wpx_mono _ _ (fun _ s1 => cholds s1 k /\ mCurrSize s1 = mCurrSize s) _
            (fun e s' => e = BadAlloc /\ mCurrSize s < reply_size r)).
  - case_test.
    + wpxb. apply wpx_client. rewrite (Hv8 ltac:(lia)) in *.
      eapply wpx_mono; [apply (grow_ok _ _ _ k (reply_size r) Hh); lia| |].
      * intros p m' Hp. unfold cset_request, wpx. cbn. split; [|done]. split; cbn; [|lia].
        eapply holds_le; [exact Hp|lia].
      * intros e m' [-> ->]. done.
    + unfold wpx, ret. by split.
  - intros _ s1 [[Hh1 Hn1] Hs1]. wpxb. eapply wpx_ok; [done|]. cbv beta. unfold wpx, ret.
    rewrite u64_small by lia. split; [done|]. split; [by split|done].
  - done.
Qed.

Lemma client_read_done s : cholds s (reply r) ->
  readResponse (ltype r) (reply_size r) s = Ok [CCallback 0 (Some (aval_of r))] s.
Proof.
  intros [Hh Hn]. pose proof reply_size_pos. pose proof (holds_pts _ _ _ _ Hh) as Hp.
  unfold reply in Hp. apply pts_app in Hp as [_ Hp]. rewrite zlen_le_bytes in Hp. change (Z.of_nat 8) with 8 in Hp.
  unfold readResponse, bind, get.
  rewrite (client_pure _ _ (reply_size r)) by (eapply load_header; [exact Hh|done|lia]).
  assert ((8 <=? reply_size r) = true) as -> by lia. rewrite Z.eqb_refl. cbn [andb].
  rewrite (client_pure _ _ (l_obj r)); [done|].
  apply (run_reads _ (l_encode r)); [|done]. apply deserialize_law; [done|apply default_fresh].
Qed.

(** One completed read: [k] has arrived, [c] comes next. *)
Lemma client_feed_step n ns s k rest :
  cholds s k -> k ++ rest = reply r -> rest <> [] -> zlen k <= mCurrSize s ->
  let j := (S n `min` Z.to_nat (mCurrSize s - zlen k) `min` length rest)%nat in
  exists s1, cholds s1 (k ++ take j rest) /\ mCurrSize s1 = mCurrSize s /\ mCurrentRequest s1 = mCurrentRequest s /\
    zlen (k ++ take j rest) = zlen k + Z.of_nat j /\ zlen k + Z.of_nat j <= mCurrSize s /\
    client_feed (Some (ltype r)) (n :: ns) rest
      [CRead (mCurrentRequest s + zlen k) (mCurrSize s - zlen k) (zlen k)] s =
    (let! acts := readResponse (ltype r) (zlen (k ++ take j rest)) in
     client_feed (Some (ltype r)) ns (drop j rest) acts) s1.
Proof.
  intros [Hh Hn] Hk Hrest Hcap j. pose proof (zlen_nonneg k).
  assert (zlen (take j rest) = Z.of_nat j) as Hj by (unfold zlen; rewrite length_take; lia).
  destruct (deliver_ok _ _ _ k (take j rest) Hh) as [Hst Hh1]; [lia|].
  exists (Client (upd (cl_mem s) (mCurrentRequest s + zlen k) (take j rest)) (mCurrSize s) (mCurrentRequest s)).
  split; [by split|]. split_and!; try done; [by rewrite zlen_app, Hj|lia|].
  unfold client_feed at 1. cbn [feed]. cbn [list.last mbind option_bind cread_of].
  rewrite (bool_decide_eq_false_2 (rest = [])), andb_false_r by done. cbv zeta. fold j.
  unfold bind at 1, on_client. rewrite Hst. unfold bind. unfold client_on_read. cbn [Z.eqb negb read_response].
  rewrite zlen_app, Hj, u64_small by lia. done.
Qed.

Lemma client_feed_ok ns s k rest :
  cholds s k -> k ++ rest = reply r -> rest <> [] -> reply_size r <= mCurrSize s -> (length rest <= length ns)%nat ->
  wpx (client_feed (Some (ltype r)) ns rest [CRead (mCurrentRequest s + zlen k) (mCurrSize s - zlen k) (zlen k)]) s
    (fun res s' => res = ([CCallback 0 (Some (aval_of r))], []) /\ cholds s' (reply r)) (fun _ _ => False).
Proof.
  revert s k rest. induction ns as [|n ns IH]; intros s k rest Hh Hk Hrest Hcap Hlen.
  { destruct rest; [done|cbn in Hlen; lia]. }
  assert (zlen k + zlen rest = reply_size r) as Hsz by (rewrite <-(zlen_reply r), <-zlen_app; by rewrite Hk).
  assert (0 < length rest)%nat by (destruct rest; cbn; [done|lia]).
  destruct (client_feed_step n ns s k rest Hh Hk Hrest) as (s1 & Hs1 & Hn1 & Hb1 & Hkj & Hle & Heq);
    [pose proof (zlen_nonneg rest); lia|].
  set (j := (S n `min` Z.to_nat (mCurrSize s - zlen k) `min` length rest)%nat) in *.
  assert ((k ++ take j rest) ++ drop j rest = reply r) as Hk' by (by rewrite <-app_assoc, take_drop).
  unfold wpx. rewrite Heq. fold (wpx (let! acts := readResponse (ltype r) (zlen (k ++ take j rest)) in
     client_feed (Some (ltype r)) ns (drop j rest) acts) s1
     (fun res s' => res = ([CCallback 0 (Some (aval_of r))], []) /\ cholds s' (reply r)) (fun _ _ => False)).
  wpxb. destruct (decide (drop j rest = [])) as [Hd|Hd].
  - rewrite Hd, app_nil_r in *. rewrite Hk' in *. rewrite zlen_reply.
    eapply wpx_ok; [by apply client_read_done|]. cbv beta. by destruct ns.
  - eapply wpx_mono; [apply (client_read_more s1 _ (drop j rest) Hs1 Hk' Hd); lia| |].
    + intros acts s2 (-> & Hs2 & Hn2). apply IH; try done; [lia|].
      rewrite length_drop. unfold zlen in *. cbn in Hlen. lia.
    + intros e s2 [_ Hbad]. lia.
Qed.

(** A reply that does not fit: the read that is pending is never the last one. *)
Lemma client_feed_stalls ns s k rest :
  cholds s k -> k ++ rest = reply r -> mCurrSize s < reply_size r -> zlen k <= mCurrSize s ->
  wpx (client_feed (Some (ltype r)) ns rest [CRead (mCurrentRequest s + zlen k) (mCurrSize s - zlen k) (zlen k)]) s
    (fun res _ => res.2 <> [] /\ exists p n b, res.1 = [CRead p n b]) (fun e _ => e = BadAlloc).
Proof.
  revert s k rest. induction ns as [|n ns IH]; intros s k rest Hh Hk Hbig Hcap.
  all: assert (zlen k + zlen rest = reply_size r) as Hsz by (rewrite <-(zlen_reply r), <-zlen_app; by rewrite Hk).
  all: assert (rest <> []) as Hrest by (intros ->; change (zlen (@nil Z)) with 0 in Hsz; lia).
  { unfold wpx. cbn. split; [done|]. by do 3 eexists. }
  destruct (client_feed_step n ns s k rest Hh Hk Hrest Hcap) as (s1 & Hs1 & Hn1 & Hb1 & Hkj & Hle & Heq).
  set (j := (S n `min` Z.to_nat (mCurrSize s - zlen k) `min` length rest)%nat) in *.
  assert ((k ++ take j rest) ++ drop j rest = reply r) as Hk' by (by rewrite <-app_assoc, take_drop).
  unfold wpx. rewrite Heq. fold (wpx (let! acts := readResponse (ltype r) (zlen (k ++ take j rest)) in
     client_feed (Some (ltype r)) ns (drop j rest) acts) s1
     (fun (res : list cact * list Z) (_ : client) => res.2 <> [] /\ exists p n b, res.1 = [CRead p n b]) (fun e _ => e = BadAlloc)).
  wpxb. assert (drop j rest <> []) as Hd.
  { intros Hd. rewrite Hd, app_nil_r in Hk'. rewrite Hk', zlen_reply in Hkj. lia. }
  eapply wpx_mono; [apply (client_read_more s1 _ (drop j rest) Hs1 Hk' Hd); lia| |].
  - intros acts s2 (-> & Hs2 & Hn2). apply IH; try done; lia.
  - by intros e s2 [-> _].
Qed.
End Client.

(** ** Construction *)

Lemma client_make_ok m p : alloc_pick m 1024 = Some p ->
  client_make m = Ok tt (Client (new_block m p 1024) 1024 p) /\ cholds (Client (new_block m p 1024) 1024 p) [].
Proof.
  intros Hp. unfold client_make, bind, on_client, allocate. cbn [cl_mem]. rewrite Hp. split; [done|].
  split; [|cbn; lia]. by apply new_holds.
Qed.

Lemma server_make_ok m p : alloc_pick m 1024 = Some p ->
  server_make m = Ok tt (Server (new_block m p 1024) 1024 p false) /\
  sholds (Server (new_block m p 1024) 1024 p false) [].
Proof.
  intros Hp. unfold server_make, bind, on_server, allocate. cbn [sv_mem]. rewrite Hp. split; [done|].
  split; [|cbn; lia]. by apply new_holds.
Qed.

(** The reply of a command without a result overwrites the first byte. *)
Lemma server_reply_void_ok s b k : sholds s (b :: k) ->
  exists s', server_reply_void s = Ok [SWrite [1]] s' /\ sholds s' (1 :: k) /\
    mBuffer s' = mBuffer s /\ mBufSize s' = mBufSize s /\ doQuit s' = doQuit s.
Proof.
  intros [Hh Hn]. pose proof (holds_pts _ _ _ _ Hh) as Hp. apply pts_cons in Hp as [Hb _].
  exists (Server (upd (sv_mem s) (mBuffer s) [1]) (mBufSize s) (mBuffer s) (doQuit s)).
  assert (holds (upd (sv_mem s) (mBuffer s) [1]) (mBuffer s) (mBufSize s) (1 :: k)) as Hh'.
  { destruct Hh as (d & Hb0 & Hbl & Hd & Hnd & e & ->). exists (1 :: k ++ e).
    split_and!; try done; [|by exists e].
    pose proof (pts_upd_in (sv_mem s) (mBuffer s) ((b :: k) ++ e) 0 [1] Hd ltac:(cbn; lia)) as Hu.
    rewrite Z.add_0_r in Hu. exact Hu. }
  split; [|split; [by split|done]].
  unfold server_reply_void, bind, get, on_server. rewrite (store_ok _ _ _ _ Hb). cbn [sv_mem mBuffer mBufSize doQuit].
  rewrite (load_bytes_ok _ _ [1]); [done|]. apply pts_upd_same.
Qed.

(** The first byte of a request that arrives alone, over the bytes of the last one. *)
Lemma first_byte_stale commands C' sig s b0 ns stream :
  0 <= C' < 2 ^ 32 -> command commands C' = Some sig -> arguments sig = None ->
  sholds s (1 :: tl (request C' [])) ->
  server_feed commands (0%nat :: ns) (1 :: stream) (b0 ++ [SRead (mBuffer s) (mBufSize s) 0]) s =
    Ok ([SExecute C' None], stream) s.
Proof.
  intros HC Hcmd Hargs [Hh Hn]. pose proof (holds_pts _ _ _ _ Hh) as Hp. pose proof Hp as Hp'.
  apply pts_cons in Hp' as [Hb _].
  change (1 :: tl (request C' [])) with (le_bytes 8 1 ++ le_bytes 4 C') in *.
  apply pts_app in Hp as [Hp8 Hp4].
  unfold server_feed. cbn [feed]. rewrite last_snoc. cbn [mbind option_bind sread_of].
  rewrite (bool_decide_eq_false_2 (1 :: stream = [])), andb_false_r by done. cbv zeta.
  replace (1 `min` Z.to_nat (mBufSize s) `min` length (1%Z :: stream))%nat with 1%nat by (cbn [length]; lia).
  change (take 1 (1 :: stream)) with [1]. change (drop 1 (1 :: stream)) with stream.
  unfold bind at 1.
  assert (on_server (store_bytes (mBuffer s) [1]) s = Ok tt s) as ->.
  { apply server_pure. cbn. unfold bind. rewrite (store_ok _ _ _ _ Hb). unfold ret. f_equal.
    destruct (sv_mem s) as [g bl fr] eqn:Hm. unfold upd, set_bytes. cbn. f_equal. by apply insert_id. }
  unfold bind at 1. unfold server_on_read. cbn [Z.eqb negb]. change (u64 (0 + Z.of_nat 1)) with 1.
  unfold server_read, bind at 1, get. cbn [Z.eqb andb negb]. unfold bind at 1.
  rewrite (server_pure _ _ 1); cycle 1.
  { rewrite (load_word_ok 8 _ _ _ Hp8) by apply length_le_bytes. done. }
  cbn [Z.eqb andb negb Pos.eqb]. unfold bind at 1. rewrite zlen_le_bytes in Hp4. change (Z.of_nat 8) with 8 in Hp4.
  rewrite (server_pure _ _ C'); cycle 1.
  { rewrite (load_word_ok 4 _ _ _ Hp4) by apply length_le_bytes. by rewrite le_val_bytes_small. }
  unfold execute_impl. rewrite Hcmd. unfold server_execute. rewrite Hargs. unfold ret. by destruct ns.
Qed.

(** ** Claims *)

(** C19: A request the client sends reaches the implementation behind the server as the
    command and the arguments it was made of, whatever the sizes of the pieces in which
    its bytes arrive, also when it is larger than the server's buffer; the first piece
    must hold the eight bytes of the size.  Only an allocation that fails stops it. *)
Theorem request_reaches_server commands C l sig cs ss :
  0 <= C < 2 ^ 32 -> Forall l_wf l -> request_size l < 2 ^ 64 ->
  command commands C = Some sig -> arguments sig = argsType (map ltype l) ->
  cholds cs [] -> sholds ss [] ->
  wpx (client_execute C (map aval_of l)) cs
    (fun acts cs' => exists data, acts = [CWrite data] /\
       forall n ns, (7 <= n)%nat -> (length data <= length (n :: ns))%nat ->
         wpx (server_feed commands (n :: ns) data [SRead (mBuffer ss) (mBufSize ss) 0]) ss
           (fun r _ => r = ([SExecute C (option_map aval_of (args_val l))], []))
           (fun e _ => e = BadAlloc))
    (fun e cs' => e = BadAlloc /\ cs' = cs).
Proof.
  intros HC Hl Hsz Hcmd Hsig Hcs Hss. eapply wpx_mono; [by apply client_execute_ok| |done].
  intros acts cs' [-> _]. exists (request C l). split; [done|]. intros n ns Hn Hlen.
  pose proof (server_feed_ok commands C l sig HC Hl Hsz Hcmd Hsig (n :: ns) ss [] (request C l)) as Hf.
  change (zlen (@nil Z)) with 0 in Hf. rewrite Z.add_0_r, Z.sub_0_r in Hf.
  eapply wpx_mono; [apply Hf; try done|naive_solver|done]; [destruct Hss; lia|by right].
Qed.

(** C20: The reply to a command with a result, delivered in pieces of any sizes, makes the
    client call back once, without an error and with the result the server was given,
    provided the reply fits into the client's buffer. *)
Theorem reply_reaches_client r cs ss k :
  l_wf r -> reply_size r < 2 ^ 64 -> sholds ss k -> cholds cs [] -> reply_size r <= mCurrSize cs ->
  wpx (server_reply (aval_of r)) ss
    (fun acts ss' => exists data, acts = [SWrite data] /\
       forall ns, (length data <= length ns)%nat ->
         wpx (let! acts := client_on_written (Some (ltype r)) 0 in client_feed (Some (ltype r)) ns data acts) cs
           (fun res _ => res = ([CCallback 0 (Some (aval_of r))], [])) (fun _ _ => False))
    (fun e ss' => e = BadAlloc /\ ss' = ss).
Proof.
  intros Hr Hsz Hss Hcs Hfit. eapply wpx_mono; [by apply (server_reply_ok ss k r)| |done].
  intros acts ss' [-> _]. exists (reply r). split; [done|]. intros ns Hlen. wpxb.
  assert (reply r <> []) as Hne by (intros Heq; pose proof (zlen_reply r) as Hz; rewrite Heq in Hz;
    pose proof (reply_size_pos r); change (zlen (@nil Z)) with 0 in Hz; lia).
  unfold client_on_written. cbn [Z.eqb negb read_response].
  eapply wpx_mono; [apply (client_read_more r Hsz cs [] (reply r) Hcs eq_refl Hne);
    change (zlen (@nil Z)) with 0; destruct Hcs; lia| |].
  - intros acts cs1 (-> & Hcs1 & Hn1). eapply wpx_mono; [apply (client_feed_ok r Hr Hsz); try done; lia| |done].
    naive_solver.
  - intros e cs1 [_ Hbad]. lia.
Qed.

(** A reply that is larger than the client's buffer never arrives: the buffer is
    replaced by a larger one but [mCurrSize] keeps its value, so that however many reads
    complete, one more is pending, bytes of the reply are left in the socket and the
    callback is not called. *)
Theorem large_reply_stalls r cs ns :
  l_wf r -> reply_size r < 2 ^ 64 -> cholds cs [] -> mCurrSize cs < reply_size r ->
  wpx (let! acts := client_on_written (Some (ltype r)) 0 in client_feed (Some (ltype r)) ns (reply r) acts) cs
    (fun res _ => res.2 <> [] /\ exists p n b, res.1 = [CRead p n b]) (fun e _ => e = BadAlloc).
Proof.
  intros Hr Hsz Hcs Hbig. wpxb. unfold client_on_written. cbn [Z.eqb negb read_response].
  assert (reply r <> []) as Hne by (intros Heq; pose proof (zlen_reply r) as Hz; rewrite Heq in Hz;
    pose proof (reply_size_pos r); change (zlen (@nil Z)) with 0 in Hz; lia).
  eapply wpx_mono; [apply (client_read_more r Hsz cs [] (reply r) Hcs eq_refl Hne);
    change (zlen (@nil Z)) with 0; destruct Hcs; lia| |].
  - intros acts cs1 (-> & Hcs1 & Hn1). apply client_feed_stalls; try done; [lia|].
    change (zlen (@nil Z)) with 0. destruct Hcs1. lia.
  - by intros e cs1 [-> _].
Qed.

(** The server looks at the size before its eight bytes are there.  When a command
    without arguments and result has been answered and of the next request, of a size
    that is 1 modulo 256, the first byte arrives alone, the server executes the old
    command again and the rest of the request is left in the socket. *)
Theorem split_header_repeats_command commands C' sig C l s :
  0 <= C' < 2 ^ 32 -> command commands C' = Some sig -> arguments sig = None ->
  request_size l mod 256 = 1 -> sholds s (request C' []) ->
  wp (do! server_reply_void in
      let! acts := server_on_written commands true 0 in
      server_feed commands [0%nat] (request C l) acts) s
    (fun res _ => res = ([SExecute C' None], tl (request C l))).
Proof.
  intros HC Hcmd Hargs Hmod Hs.
  destruct (server_reply_void_ok s 12 (tl (request C' [])) Hs) as (s1 & Hrep & Hs1 & Hb1 & Hn1 & Hq1).
  unfold wp. unfold bind at 1. rewrite Hrep. unfold bind at 1. unfold server_on_written. cbn [Z.eqb negb].
  assert (exists b0, server_read commands 0 s1 = Ok (b0 ++ [SRead (mBuffer s1) (mBufSize s1) 0]) s1) as (b0 & ->).
  { unfold server_read, bind, get, ret. cbn. rewrite Z.add_0_r, Z.sub_0_r, u64_small by (destruct Hs1; lia). eauto. }
  assert (request C l = 1 :: tl (request C l)) as -> by (unfold request at 1; cbn; by rewrite Hmod).
  by rewrite (first_byte_stale commands C' sig s1 b0 [] _ HC Hcmd Hargs Hs1).
Qed.

(** The client answers the reply to a command without a result by the callback and by
    a further read; the next byte on the connection, that of the reply to the next such
    command, completes that read and fails the assertion on the number of bytes. *)
Theorem void_reply_keeps_reading s n n' x :
  cholds s [] -> 
  wp (client_feed None [n] [1] [CRead (mCurrentRequest s) (mCurrSize s) 0]) s
    (fun res _ => res = ([CCallback 0 None; CRead (mCurrentRequest s) (mCurrSize s) 1], [])) /\
  client_feed None [n; n'] [1; x] [CRead (mCurrentRequest s) (mCurrSize s) 0] s = UB.
Proof.
  intros [Hh Hn].
  assert (forall m (k : list Z), holds m (mCurrentRequest s) (mCurrSize s) [] -> zlen k <= mCurrSize s ->
    exists m', store_bytes (mCurrentRequest s) k m = Ok tt m' /\ holds m' (mCurrentRequest s) (mCurrSize s) []) as Hst.
  { intros m k Hm Hk. destruct (deliver_ok m _ _ [] k Hm Hk) as [Hd Hm']. change (zlen (@nil Z)) with 0 in *.
    rewrite Z.add_0_r in *. eauto using holds_nil. }
  assert (forall j, (0 < j)%nat -> (j `min` Z.to_nat (mCurrSize s) `min` 1 = 1)%nat) as Hmin1 by lia.
  assert ((mCurrSize s =? 0) = false) as Hne by lia.
  destruct (Hst (cl_mem s) [1] Hh) as (m1 & Hm1 & Hh1); [unfold zlen; cbn; lia|].
  unfold client_feed. cbn [feed list.last mbind option_bind cread_of]. rewrite Hne. cbn [andb negb].
  rewrite !bool_decide_eq_false_2 by done. cbv zeta. cbn [length].
  split.
  - rewrite Hmin1 by lia. unfold wp, bind, on_client. cbn [take]. rewrite Hm1. done.
  - destruct (decide (n = 0)%nat) as [->|].
    + replace (1 `min` Z.to_nat (mCurrSize s) `min` 2)%nat with 1%nat by lia. cbn [take drop].
      unfold bind at 1. unfold on_client at 1. rewrite Hm1.
      unfold bind at 1. cbn [client_on_read Z.eqb negb read_response].
      unfold client_on_read. cbn [Z.eqb negb read_response]. change (u64 (0 + Z.of_nat 1)) with 1.
      unfold readResponse_void, bind at 1. cbn [massert Z.leb Z.compare Pos.compare Pos.compare_cont].
      unfold ret at 1, bind, get, ret. cbn [list.last app Z.eqb mbind option_bind cread_of mCurrSize mCurrentRequest].
      rewrite Hne. cbn [andb negb]. rewrite bool_decide_eq_false_2 by done. cbn [length]. rewrite Hmin1 by lia. cbn [take].
      unfold on_client at 1. cbn [cl_mem]. destruct (Hst m1 [x] Hh1) as (m2 & -> & _); [unfold zlen; cbn; lia|].
      done.
    + replace (S n `min` Z.to_nat (mCurrSize s) `min` 2)%nat with 2%nat by lia. cbn [take drop].
      destruct (Hst (cl_mem s) [1; x] Hh) as (m2 & Hm2 & _); [unfold zlen; cbn; lia|].
      unfold bind, on_client. rewrite Hm2. done.
Qed.
End Endpoints.

(** ** Witnesses *)

Definition demo_number : lval := LVal (uint 4) _ pod_lawful (UInt 7).
Definition demo_text (n : nat) : lval := LVal bstring _ string_lawful (BString (replicate n 97)).
Definition demo_args : list lval := [demo_number; demo_text 2].
Definition demo_commands : list signature :=
  [Sig None None; Sig (argsType (map ltype demo_args)) (Some (ltype (demo_text 0)))].
Definition demo_client : client := Client (new_block demo_empty 16 1024) 1024 16.
Definition demo_server : server := Server (new_block demo_empty 16 1024) 1024 16 false.

Lemma demo_pick : alloc_pick demo_empty 1024 = Some 16.
Proof. by vm_compute. Qed.

Lemma demo_client_ok : cholds demo_client [].
Proof. apply client_make_ok, demo_pick. Qed.

Lemma demo_server_ok : sholds demo_server [].
Proof. apply server_make_ok, demo_pick. Qed.

Lemma demo_text_wf n : Z.of_nat n < 2 ^ 32 -> l_wf (demo_text n).
Proof. intros Hn. unfold l_wf, demo_text. cbn. unfold zlen. by rewrite length_replicate. Qed.

Lemma demo_args_wf : Forall l_wf demo_args.
Proof. repeat constructor; cbn; lia. Qed.

Lemma request_reaches_server_witness :
  wpx (client_execute 2 (map aval_of demo_args)) demo_client
    (fun acts _ => exists data, acts = [CWrite data] /\
       forall n ns, (7 <= n)%nat -> (length data <= length (n :: ns))%nat ->
         wpx (server_feed demo_commands (n :: ns) data [SRead 16 1024 0]) demo_server
           (fun r _ => r = ([SExecute 2 (option_map aval_of (args_val demo_args))], []))
           (fun e _ => e = BadAlloc))
    (fun e cs' => e = BadAlloc /\ cs' = demo_client).
Proof.
  apply (request_reaches_server demo_commands 2 demo_args
    (Sig (argsType (map ltype demo_args)) (Some (ltype (demo_text 0)))) demo_client demo_server);
    [lia|apply demo_args_wf|by vm_compute|done|done|apply demo_client_ok|apply demo_server_ok].
Defined.

Lemma reply_reaches_client_witness :
  wpx (server_reply (aval_of (demo_text 5))) demo_server
    (fun acts _ => exists data, acts = [SWrite data] /\
       forall ns, (length data <= length ns)%nat ->
         wpx (let! acts := client_on_written (Some (ltype (demo_text 5))) 0 in
              client_feed (Some (ltype (demo_text 5))) ns data acts) demo_client
           (fun res _ => res = ([CCallback 0 (Some (aval_of (demo_text 5)))], [])) (fun _ _ => False))
    (fun e ss' => e = BadAlloc /\ ss' = demo_server).
Proof.
  apply (reply_reaches_client (demo_text 5) demo_client demo_server []);
    [apply demo_text_wf; lia|by vm_compute|apply demo_server_ok|apply demo_client_ok|vm_compute; discriminate].
Defined.

Lemma large_reply_stalls_witness :
  wpx (let! acts := client_on_written (Some (ltype (demo_text 2000))) 0 in
       client_feed (Some (ltype (demo_text 2000))) [99%nat; 5000%nat; 5000%nat] (reply (demo_text 2000)) acts) demo_client
    (fun res _ => res.2 <> [] /\ exists p n b, res.1 = [CRead p n b]) (fun e _ => e = BadAlloc).
Proof.
  apply (large_reply_stalls (demo_text 2000) demo_client [99%nat; 5000%nat; 5000%nat]);
    [apply demo_text_wf; lia|by vm_compute|apply demo_client_ok|by vm_compute].
Defined.

Lemma split_header_repeats_command_witness :
  let s := Server (upd (new_block demo_empty 16 1024) 16 (request 1 [])) 1024 16 false in
  wp (do! server_reply_void in
      let! acts := server_on_written demo_commands true 0 in
      server_feed demo_commands [0%nat] (request 2 [demo_text 241]) acts) s
    (fun res _ => res = ([SExecute 1 None], tl (request 2 [demo_text 241]))).
Proof.
  intros s. apply (split_header_repeats_command demo_commands 1 (Sig None None) 2 [demo_text 241] s);
    [lia|done|done|by vm_compute|].
  destruct demo_server_ok as [Hh Hn]. split; [|exact Hn].
  apply (holds_upd _ 16 1024 [] (request 1 []) Hh). vm_compute. discriminate.
Defined.

Lemma void_reply_keeps_reading_witness :
  wp (client_feed None [3%nat] [1] [CRead 16 1024 0]) demo_client
    (fun res _ => res = ([CCallback 0 None; CRead 16 1024 1], [])) /\
  client_feed None [3%nat; 0%nat] [1; 1] [CRead 16 1024 0] demo_client = UB.
Proof. apply (void_reply_keeps_reading demo_client 3 0 1 demo_client_ok). Defined.
