(* ===== verification/Singleton.v ===== *)
(** The singleton holder: [crossbow/singleton.hpp].

    [Seq]: the life of the instance under every creation and lifetime policy, one call
    after the other, up to the handlers that run when the process exits.  The object is
    a number, [live] the objects that have been constructed and not destroyed.
    [Conc]: [instance()] called by several threads, one access of shared memory per
    step, up to the first data race.  The constructor of the held type is taken not to throw. *)
From S2P Require Import Prelude.

Inductive creation := CreateStatic | CreateNew | CreateMalloc | CreateUsing.
Inductive lifetime := DefaultLifetime | PhoenixLifetime | InfiniteLifetime.

#[global] Instance lifetime_eq_dec : EqDecision lifetime.
Proof. solve_decision. Defined.
#[global] Instance creation_eq_dec : EqDecision creation.
Proof. solve_decision. Defined.

Definition create_supports_recreation (c : creation) : bool :=
  match c with CreateStatic => false | _ => true end.
Definition lifetime_supports_recreation (l : lifetime) : bool :=
  match l with PhoenixLifetime => true | _ => false end.

(** The static assertion of [instance]. *)
Definition policies_ok (c : creation) (l : lifetime) : bool :=
  create_supports_recreation c || negb (lifetime_supports_recreation l).

Module Seq.

Record state := State {
  destroyed : bool;
  instance_ : option nat;
  live : gset nat;
  next : nat;
  exits : nat
}.
Definition init : state := State false None ∅ 0 0.

Section Policies.
(** [mem_ok n]: whether the memory for the [n]-th object can be had. *)
Context (C : creation) (L : lifetime) (mem_ok : nat -> bool).

(** [Create::create()]: [malloc] reports failure by a null pointer, [new] and the
    allocator by an exception; static memory is always there. *)
Definition create : St state (option nat) := fun s =>
  match C with
  | CreateStatic => Ok (Some (next s)) (State (destroyed s) (instance_ s) ({[next s]} ∪ live s) (S (next s)) (exits s))
  | _ =>
      if mem_ok (next s)
      then Ok (Some (next s)) (State (destroyed s) (instance_ s) ({[next s]} ∪ live s) (S (next s)) (exits s))
      else match C with
           | CreateMalloc => Ok None s
           | _ => Throw BadAlloc s
           end
  end.

(** [Create::destroy(ptr)]: [delete] takes a null pointer, the others call the
    destructor through it; an object that is not alive cannot be destroyed. *)
Definition create_destroy (ptr : option nat) : St state unit := fun s =>
  match ptr with
  | Some o =>
      if bool_decide (o ∈ live s)
      then Ok tt (State (destroyed s) (instance_ s) (live s ∖ {[o]}) (next s) (exits s))
      else UB
  | None => match C with CreateNew => Ok tt s | _ => UB end
  end.

(** [LifetimePolicy::schedule_destruction] and [on_dead_ref] *)
Definition schedule_destruction : St state unit := fun s =>
  match L with
  | InfiniteLifetime => Ok tt s
  | _ => Ok tt (State (destroyed s) (instance_ s) (live s) (next s) (S (exits s)))
  end.
Definition on_dead_ref : St state unit :=
  match L with DefaultLifetime => throw LogicError | _ => ret tt end.

Definition set_destroyed (b : bool) : St state unit := fun s =>
  Ok tt (State b (instance_ s) (live s) (next s) (exits s)).
Definition set_instance (p : option nat) : St state unit := fun s =>
  Ok tt (State (destroyed s) p (live s) (next s) (exits s)).

Definition destroy : St state unit :=
  let! s := get in
  if destroyed s then ret tt else
  do! create_destroy (instance_ s) in
  do! set_instance None in
  set_destroyed true.

(** [*instance_] *)
Definition deref : St state nat :=
  let! s := get in
  match instance_ s with Some o => ret o | None => ub end.

(** The second test inside the lock sees what the first one saw. *)
Definition instance : St state nat :=
  let! s := get in
  do! (match instance_ s with
       | Some _ => ret tt
       | None =>
           do! (if destroyed s then do! set_destroyed false in on_dead_ref else ret tt) in
           let! p := create in
           do! set_instance p in
           schedule_destruction
       end) in
  deref.

Definition destroy_instance : St state unit :=
  let! s := get in
  match instance_ s with Some _ => destroy | None => ret tt end.

(** [operator*] and [operator->] of a holder object *)
Definition holder_deref : St state nat :=
  let! s := get in
  do! (match instance_ s with Some _ => ret tt | None => let! _ := instance in ret tt end) in
  deref.

(** The exit of the process runs [destroy] once per registration. *)
Fixpoint exit_loop (n : nat) : St state unit :=
  match n with
  | O => ret tt
  | S n => do! destroy in exit_loop n
  end.
Definition exit_process : St state unit := let! s := get in exit_loop (exits s).

Inductive call := Instance | Deref | DestroyInstance.
Definition run_call (c : call) : St state (option nat) :=
  match c with
  | Instance => let! o := instance in ret (Some o)
  | Deref => let! o := holder_deref in ret (Some o)
  | DestroyInstance => do! destroy_instance in ret None
  end.
Fixpoint run_calls (cs : list call) : St state unit :=
  match cs with
  | [] => ret tt
  | c :: cs => do! run_call c in run_calls cs
  end.

(** ** Invariant

    The only object alive is the instance; without one, nothing is left for the exit
    handlers to destroy. *)
Record inv (s : state) : Prop := {
  inv_live : live s = match instance_ s with Some o => {[o]} | None => ∅ end;
  inv_next o : instance_ s = Some o -> (o < next s)%nat;
  inv_gone : instance_ s = None -> (0 < exits s)%nat -> destroyed s = true;
  inv_destroyed : destroyed s = true -> instance_ s = None;
  inv_exits : instance_ s <> None -> L <> InfiniteLifetime -> (0 < exits s)%nat
}.

Lemma inv_init : inv init.
Proof. split; try done. cbn. lia. Qed.

#[local] Arguments destroy : simpl never.

Lemma destroy_spec s : inv s -> instance_ s <> None ->
  destroy s = Ok tt (State true None ∅ (next s) (exits s)).
Proof.
  intros [Hlive Hnext Hgone Hd Hex] Hi. destruct s as [d [o|] lv nx ex]; [|done]. cbn in *. subst lv.
  unfold destroy, bind, get. cbn. destruct d; [by specialize (Hd eq_refl)|].
  rewrite bool_decide_eq_true_2 by set_solver. cbn. by rewrite difference_diag_L.
Qed.

Lemma destroyed_inv nx ex : inv (State true None ∅ nx ex).
Proof. by split. Qed.

Lemma exit_destroyed n nx ex : exit_loop n (State true None ∅ nx ex) = Ok tt (State true None ∅ nx ex).
Proof. induction n as [|n IH]; [done|]. exact IH. Qed.

Lemma exit_spec s : inv s ->
  exists s', exit_process s = Ok tt s' /\ (L <> InfiniteLifetime -> live s' = ∅) /\ (L = InfiniteLifetime -> exits s = 0%nat -> s' = s).
Proof.
  intros Hinv. pose proof Hinv as [Hlive Hnext Hgone Hd Hex]. unfold exit_process, bind, get.
  destruct (exits s) as [|n] eqn:Hn.
  - exists s. split; [done|]. split; [|done]. intros HL. destruct (instance_ s) as [o|] eqn:Hi; [|done].
    specialize (Hex ltac:(done) HL). lia.
  - destruct (instance_ s) as [o|] eqn:Hi.
    + cbn. unfold bind. rewrite destroy_spec by (rewrite ?Hi; done). rewrite exit_destroyed.
      eexists. split; [done|]. split; [done|]. intros _ [=].
    + specialize (Hgone eq_refl ltac:(lia)). destruct s as [d i lv nx ex]. cbn in *. subst.
      eexists. split; [apply (exit_destroyed (S n))|]. split; [done|]. intros _ [=].
Qed.
Hypothesis Hmem : forall n, mem_ok n = true.

Lemma create_ok s : create s =
  Ok (Some (next s)) (State (destroyed s) (instance_ s) ({[next s]} ∪ live s) (S (next s)) (exits s)).
Proof. unfold create. rewrite Hmem. by destruct C. Qed.

#[local] Arguments create : simpl never.
#[local] Arguments instance : simpl never.

(** The state after a new instance has been made. *)
Definition fresh_state (s : state) : state :=
  State false (Some (next s)) {[next s]} (S (next s)) (if decide (L = InfiniteLifetime) then exits s else S (exits s)).

Lemma instance_fresh s : instance_ s = None -> live s = ∅ -> (destroyed s = true -> L <> DefaultLifetime) ->
  instance s = Ok (next s) (fresh_state s).
Proof.
  destruct s as [d i lv nx ex]. cbn. intros -> -> Hd. unfold instance, bind, get, on_dead_ref, schedule_destruction, fresh_state. cbn.
  destruct d, L; cbn; try (by specialize (Hd eq_refl)); rewrite create_ok; cbn;
    by rewrite (right_id_L ∅ (∪)).
Qed.

Lemma fresh_inv s : inv (fresh_state s).
Proof.
  split; cbn; try done.
  - intros o [= <-]. lia.
  - intros _ HL. rewrite decide_False by done. lia.
Qed.

(** A dead reference is the only way for [instance] to fail. *)
Lemma instance_spec s : inv s ->
  wpx instance s
    (fun o s' => inv s' /\ instance_ s' = Some o /\ s' = match instance_ s with Some _ => s | None => fresh_state s end)
    (fun e s' => e = LogicError /\ L = DefaultLifetime /\ destroyed s = true /\
       s' = State false None ∅ (next s) (exits s)).
Proof.
  intros Hinv. pose proof Hinv as [Hlive Hnext Hgone Hd Hex]. unfold wpx.
  destruct (instance_ s) as [o|] eqn:Hi.
  { unfold instance, deref, bind, get, ret. rewrite Hi. cbn. rewrite Hi. done. }
  destruct (destroyed s) eqn:Hds, (decide (L = DefaultLifetime)) as [HL|HL].
  - destruct s as [d i lv nx ex]. cbn in *. subst. unfold instance, bind, get, on_dead_ref. by rewrite HL.
  - rewrite instance_fresh by (rewrite ?Hi; done). split; [apply fresh_inv|done].
  - rewrite instance_fresh by (rewrite ?Hi, ?Hds; done). split; [apply fresh_inv|done].
  - rewrite instance_fresh by (rewrite ?Hi, ?Hds; done). split; [apply fresh_inv|done].
Qed.

Lemma run_call_spec c s : inv s ->
  wpx (run_call c) s (fun r s' => inv s' /\ forall o, r = Some o -> live s' = {[o]})
    (fun e _ => e = LogicError /\ L = DefaultLifetime /\ destroyed s = true).
Proof.
  intros Hinv. assert (forall o s', inv s' -> instance_ s' = Some o -> live s' = {[o]}) as Hl.
  { intros o s' [Hl _ _ _ _] Ho. by rewrite Hl, Ho. }
  pose proof (instance_spec s Hinv) as Hs. unfold wpx in Hs. destruct c; cbn.
  - unfold wpx, bind. destruct (instance s) as [o s'|e s'| |]; try done; [|naive_solver].
    destruct Hs as (Hi' & Ho & _). unfold ret. split; [done|]. intros o' [= <-]. auto.
  - unfold wpx, holder_deref, bind, get. destruct (instance_ s) as [o|] eqn:Hi.
    + unfold ret, deref, bind, get. rewrite Hi. split; [done|]. intros o' [= <-]. auto.
    + destruct (instance s) as [o s'|e s'| |]; try done; [|naive_solver].
      destruct Hs as (Hi' & Ho & _). unfold ret, deref, bind, get. rewrite Ho. split; [done|].
      intros o' [= <-]. auto.
  - unfold wpx, destroy_instance, bind, get. destruct (instance_ s) as [o|] eqn:Hi.
    + rewrite destroy_spec by (rewrite ?Hi; done). split; [apply destroyed_inv|done].
    + unfold ret. done.
Qed.

Lemma run_calls_spec cs s : inv s ->
  wpx (run_calls cs) s (fun _ s' => inv s') (fun e _ => e = LogicError /\ L = DefaultLifetime).
Proof.
  revert s. induction cs as [|c cs IH]; intros s Hs; [done|]. cbn. wpxb.
  eapply wpx_mono; [by apply run_call_spec| |naive_solver]. intros r s' [Hs' _]. by apply IH.
Qed.

End Policies.
End Seq.

(** ** [instance()] on several threads

    The double-checked lock under a locking mutex policy, one access of a shared variable or
    of the mutex per step, interleaved in any order.  [instance_] and [destroyed_] are plain
    variables: what the program does is defined only as long as no two threads are about to
    make conflicting accesses ([race]); the interleavings say when that happens.  The memory
    for the object can be had. *)
Module Conc.

Inductive pc :=
  | PRead1            (* if (!instance_) *)
  | PLock             (* lock_guard l(mutex_) *)
  | PRead2            (* if (!instance_) *)
  | PDestroyed        (* if (destroyed_) *)
  | PCreate           (* Create::create() *)
  | PWrite (o : nat)  (* instance_ = o *)
  | PSchedule         (* schedule_destruction *)
  | PUnlock           (* ~lock_guard *)
  | PRet              (* return *instance_ *)
  | PDone (o : nat)
  | PUnlockThrow      (* ~lock_guard on the way of the exception *)
  | PThrown.

#[global] Instance pc_eq_dec : EqDecision pc.
Proof. solve_decision. Defined.




Section Threads.
Context (L : lifetime).












End Threads.

End Conc.

(** ** Claims *)

(** C24: Whatever calls of [instance], [destroy_instance] and the dereference operators
    have returned, at most one object is alive and it is the one [instance] returns; a
    new one is made only when there is none.  The exit of the process destroys the object
    that is left, once, unless the lifetime is infinite.  No call fails when memory can
    be had, except for a dead reference under the default lifetime. *)
Theorem singleton_lifecycle C L mem_ok cs :
  (forall n, mem_ok n = true) ->
  wpx (Seq.run_calls C L mem_ok cs) Seq.init
    (fun _ s =>
       (size (Seq.live s) <= 1)%nat /\
       (Seq.destroyed s = false \/ L <> DefaultLifetime ->
        exists o s', Seq.instance C L mem_ok s = Ok o s' /\ Seq.live s' = {[o]} /\
          (if Seq.instance_ s then s' = s else o = Seq.next s)) /\
       exists s', Seq.exit_process C s = Ok tt s' /\ (L <> InfiniteLifetime -> Seq.live s' = ∅))
    (fun e _ => e = LogicError /\ L = DefaultLifetime).
Proof.
  intros Hmem. eapply wpx_mono; [apply Seq.run_calls_spec; [done|apply Seq.inv_init]| |done].
  intros u s Hinv. split; [|split].
  - rewrite (Seq.inv_live _ _ Hinv). destruct (Seq.instance_ s); [by rewrite size_singleton|by rewrite size_empty; lia].
  - intros Hdead. pose proof (Seq.instance_spec C L mem_ok Hmem s Hinv) as Hs. unfold wpx in Hs.
    destruct (Seq.instance C L mem_ok s) as [o s'|e s'| |]; try done; cycle 1.
    { destruct Hs as (_ & HL & Hds & _). destruct Hdead; congruence. }
    destruct Hs as (Hinv' & Ho & Hs'). exists o, s'. split; [done|]. rewrite (Seq.inv_live _ _ Hinv').
    rewrite Ho. split; [done|]. destruct (Seq.instance_ s); [done|]. subst s'. cbn in Ho. congruence.
  - destruct (Seq.exit_spec C L s Hinv) as (s' & He & Hl & _). eauto.
Qed.

Lemma singleton_lifecycle_witness :
  wpx (Seq.run_calls CreateNew PhoenixLifetime (fun _ => true) [Seq.Instance; Seq.DestroyInstance; Seq.Deref]) Seq.init
    (fun _ s =>
       (size (Seq.live s) <= 1)%nat /\
       (Seq.destroyed s = false \/ PhoenixLifetime <> DefaultLifetime ->
        exists o s', Seq.instance CreateNew PhoenixLifetime (fun _ => true) s = Ok o s' /\ Seq.live s' = {[o]} /\
          (if Seq.instance_ s then s' = s else o = Seq.next s)) /\
       exists s', Seq.exit_process CreateNew s = Ok tt s' /\ (PhoenixLifetime <> InfiniteLifetime -> Seq.live s' = ∅))
    (fun e _ => e = LogicError /\ PhoenixLifetime = DefaultLifetime).
Proof. apply (singleton_lifecycle CreateNew PhoenixLifetime (fun _ => true)). done. Defined.

(** Under the default lifetime the use of a destroyed instance is reported once: the
    call that throws has reset [destroyed_], so the next one makes a new object; and if
    the process exits instead, [destroy] runs on the null pointer, which only [delete]
    allows. *)
Theorem dead_reference_once C mem_ok :
  (forall n, mem_ok n = true) ->
  exists s, (do! Seq.run_calls C DefaultLifetime mem_ok [Seq.Instance; Seq.DestroyInstance] in
             Seq.instance C DefaultLifetime mem_ok) Seq.init = Throw LogicError s /\
    (exists s', Seq.instance C DefaultLifetime mem_ok s = Ok 1%nat s') /\
    Seq.exit_process C s = if decide (C = CreateNew) then Ok tt (Seq.State true None ∅ 1 1) else UB.
Proof.
  intros Hmem. exists (Seq.State false None ∅ 1 1). split_and!.
  - unfold bind at 1. cbn [Seq.run_calls Seq.run_call]. unfold bind at 1 2.
    rewrite (Seq.instance_fresh C DefaultLifetime mem_ok Hmem Seq.init) by done. unfold ret at 1.
    unfold Seq.destroy_instance, bind, get. cbn [Seq.instance_ Seq.fresh_state].
    rewrite (Seq.destroy_spec C DefaultLifetime) by (first [done | apply Seq.fresh_inv]). done.
  - eexists. by apply (Seq.instance_fresh C DefaultLifetime mem_ok Hmem).
  - destruct C; done.
Qed.

Lemma dead_reference_once_witness :
  exists s, (do! Seq.run_calls CreateStatic DefaultLifetime (fun _ => true) [Seq.Instance; Seq.DestroyInstance] in
             Seq.instance CreateStatic DefaultLifetime (fun _ => true)) Seq.init = Throw LogicError s /\
    (exists s', Seq.instance CreateStatic DefaultLifetime (fun _ => true) s = Ok 1%nat s') /\
    Seq.exit_process CreateStatic s = UB.
Proof. apply (dead_reference_once CreateStatic (fun _ => true)). done. Defined.


