(* ===== verification/Verbs.v ===== *)
(** The library [libs/infinityverbs]: a thin layer over the verbs of an InfiniBand card.

    One process is the state [proc]: its context ([core/Context.cpp]) with the tracking of
    completed operations and the store of memory tokens ([core/MemoryTokenStore.cpp]), and
    its queue pairs ([queues/QueuePair.cpp]), which pointers name by position.  Calls of
    the verbs library are recorded in the order they are made ([trace]); their outcome and
    the numbers, keys and addresses they hand out are a parameter ([Verbs]), as is the
    random generator.  INFINITY_VERBS_ASSERT prints and leaves the process; here it throws,
    and nothing catches it.  [SpinLock] is [tools/Lock.cpp]. *)
From S2P Require Import Prelude.

(** ** Calls of the verbs library *)

Inductive opcode := OpSend | OpRdmaWrite | OpRdmaRead | OpCompareSwap | OpFetchAdd.

(** A signalled work request with one scatter/gather element. *)
Record work_request := WR {
  wr_id : Z;
  sg_addr : Z;
  sg_length : Z;
  sg_lkey : Z;
  wr_opcode : opcode;
  wr_remote : Z;
  wr_rkey : Z;
  wr_compare_add : Z;
  wr_swap : Z
}.

(** The attributes of [ibv_modify_qp] that depend on the connection. *)
Inductive qp_attr :=
  | ToInit (port : Z)
  | ToRtr (dest_qp_num rq_psn dlid : Z)
  | ToRts (sq_psn : Z).

Inductive vcall :=
  | GetDeviceList | OpenDevice | AllocPd | QueryPort (port : Z) | CreateCq (len : Z) | CreateSrq (max_wr : Z)
  | CreateQp (max_send_wr max_recv_wr : Z)
  | ModifyQp (qp_num : Z) (a : qp_attr)
  | PostSend (qp_num : Z) (wr : work_request)
  | PostSrqRecv (wr_id addr len lkey : Z)
  | RegMr (addr len : Z)
  | DeregMr (addr : Z)
  | DestroyQp (qp_num : Z) | DestroySrq | DeallocPd | CloseDevice
  | Alloc (len : Z) | Free (addr : Z).

(** The [n]-th call of a process: whether it succeeds, and what it returns. *)
Class Verbs := {
  vb_ok : nat -> bool;
  vb_devices : Z;
  vb_device : Z -> bool;
  vb_lid : Z;
  vb_qpn : nat -> Z;
  vb_addr : nat -> Z;
  vb_lkey : nat -> Z;
  vb_rkey : nat -> Z;
  vb_random : nat -> Z
}.

(** ** Data *)

Inductive MemoryRegionType := RDMA_BUFFER | ATOMIC_VALUE.

(** [SerializedMemoryToken] *)
Record token := Token {
  enabled : bool;
  userToken : Z;
  memoryRegionType : MemoryRegionType;
  address : Z;
  key : Z;
  sizeInBytes : Z
}.

(** [MemoryToken]; the queue pair by its position. *)
Record MemoryToken := MemToken {
  mt_userToken : Z;
  mt_queuePair : nat;
  mt_type : MemoryRegionType;
  mt_address : Z;
  mt_key : Z;
  mt_size : Z
}.

(** [MemoryTokenStore] *)
Record MemoryTokenStore := Store {
  dataBuffer : list token;
  store_addr : Z;
  store_rkey : Z
}.

Record QueuePair := QP {
  qp_num : Z;
  sequenceNumber : Z;
  localUserTokenSet : bool;
  localUserToken : Z;
  remoteUserTokenSet : bool;
  remoteUserToken : Z;
  isRemoteMemoryStoreActive : bool;
  remoteMemoryStoreAddress : Z;
  remoteMemoryStoreKey : Z;
  remoteMemoryStoreSize : Z;
  remoteMemoryStoreCache : list token;
  cache_addr : Z;
  cache_lkey : option Z
}.

(** A memory region: [RdmaBuffer] or [AtomicValue]; [mr_keys] are the local and the remote key
    of its registration, [None] when [ibv_reg_mr] returned a null pointer. *)
Record MemoryRegion := Region {
  mr_addr : Z;
  mr_size : Z;
  mr_keys : option (Z * Z);
  deregOnDelete : bool;
  deallocOnDelete : bool
}.

(** A completion: the id of the request, and whether it succeeded. *)
Record completion := Wc { wc_id : Z; wc_success : bool }.

Record proc := Proc {
  trace : list vcall;
  qps : list QueuePair;
  store : option MemoryTokenStore;
  loopback : option nat;
  lid : Z;
  port : Z;
  sendQueueLength : Z;
  receiveQueueLength : Z;
  operationIdCounter : Z;
  completedBaseCounter : Z;
  requestCompletionSet : gset Z;
  sendCq : list completion
}.

Definition set_trace x p := Proc x (qps p) (store p) (loopback p) (lid p) (port p) (sendQueueLength p)
  (receiveQueueLength p) (operationIdCounter p) (completedBaseCounter p) (requestCompletionSet p) (sendCq p).
Definition set_qps x p := Proc (trace p) x (store p) (loopback p) (lid p) (port p) (sendQueueLength p)
  (receiveQueueLength p) (operationIdCounter p) (completedBaseCounter p) (requestCompletionSet p) (sendCq p).
Definition set_store x p := Proc (trace p) (qps p) x (loopback p) (lid p) (port p) (sendQueueLength p)
  (receiveQueueLength p) (operationIdCounter p) (completedBaseCounter p) (requestCompletionSet p) (sendCq p).
Definition set_loopback x p := Proc (trace p) (qps p) (store p) x (lid p) (port p) (sendQueueLength p)
  (receiveQueueLength p) (operationIdCounter p) (completedBaseCounter p) (requestCompletionSet p) (sendCq p).
Definition set_device l pt p := Proc (trace p) (qps p) (store p) (loopback p) l pt (sendQueueLength p)
  (receiveQueueLength p) (operationIdCounter p) (completedBaseCounter p) (requestCompletionSet p) (sendCq p).
Definition set_lengths a b p := Proc (trace p) (qps p) (store p) (loopback p) (lid p) (port p) a b
  (operationIdCounter p) (completedBaseCounter p) (requestCompletionSet p) (sendCq p).
Definition set_counters n b p := Proc (trace p) (qps p) (store p) (loopback p) (lid p) (port p) (sendQueueLength p)
  (receiveQueueLength p) n b (requestCompletionSet p) (sendCq p).
Definition set_completed b s p := Proc (trace p) (qps p) (store p) (loopback p) (lid p) (port p) (sendQueueLength p)
  (receiveQueueLength p) (operationIdCounter p) b s (sendCq p).
Definition set_sendCq x p := Proc (trace p) (qps p) (store p) (loopback p) (lid p) (port p) (sendQueueLength p)
  (receiveQueueLength p) (operationIdCounter p) (completedBaseCounter p) (requestCompletionSet p) x.

Definition pmod (f : proc -> proc) : St proc unit := fun p => Ok tt (f p).

(** INFINITY_VERBS_ASSERT *)
Definition vassert (b : bool) : St proc unit := if b then ret tt else throw RuntimeError.

Definition MAX (a b : Z) : Z := if b <? a then a else b.

Section Verbs.
Context `{Verbs}.

(** Records a call; the result is the number of the call and whether it succeeded. *)
Definition vb (c : vcall) : St proc (nat * bool) := fun p =>
  let n := length (trace p) in Ok (n, vb_ok n) (set_trace (trace p ++ [c]) p).

(** ** Completed operations: [Context] *)

Definition getNextOperationId : St proc Z :=
  let! p := get in
  do! pmod (set_counters (u64 (operationIdCounter p + 1)) (completedBaseCounter p)) in
  ret (operationIdCounter p).

Definition pollNextComplitionElement : St proc Z :=
  let! p := get in
  match sendCq p with
  | wc :: cq =>
      do! pmod (set_sendCq cq) in
      do! vassert (wc_success wc) in
      ret (wc_id wc)
  | [] => ret 0
  end.

(** [while(requestCompletionSet.count(completedBaseCounter+1) > 0) ...]; the set shrinks
    in every round, so its size bounds the rounds. *)
Fixpoint advance_loop (fuel : nat) (base : Z) (done : gset Z) : option (Z * gset Z) :=
  if bool_decide (u64 (base + 1) ∈ done) then
    match fuel with
    | O => None
    | S fuel => advance_loop fuel (u64 (base + 1)) (done ∖ {[u64 (base + 1)]})
    end
  else Some (base, done).

Definition registerNextComplitionElement : St proc unit :=
  let! requestId := pollNextComplitionElement in
  if 0 <? requestId then
    let! p := get in
    if requestId =? u64 (completedBaseCounter p + 1) then
      match advance_loop (size (requestCompletionSet p)) (u64 (completedBaseCounter p + 1)) (requestCompletionSet p) with
      | Some (base, done) => pmod (set_completed base done)
      | None => nofuel
      end
    else pmod (set_completed (completedBaseCounter p) ({[requestId]} ∪ requestCompletionSet p))
  else ret tt.

Definition checkIfOperationCompleted (operationId : Z) : St proc bool :=
  do! registerNextComplitionElement in
  let! p := get in
  ret ((operationId <=? completedBaseCounter p) || bool_decide (operationId ∈ requestCompletionSet p)).

(** Spins; [fuel] bounds the rounds. *)
Fixpoint waitUntilOperationCompleted (fuel : nat) (operationId : Z) : St proc unit :=
  match fuel with
  | O => nofuel
  | S fuel =>
      let! b := checkIfOperationCompleted operationId in
      if b : bool then ret tt else waitUntilOperationCompleted fuel operationId
  end.

(** ** Memory tokens *)

(** [MemoryTokenStore::MemoryTokenStore]: only [enabled] is written; [garbage] is what the
    new memory holds.  The log line reads the registration, also when it is null. *)
Definition store_make (garbage : nat -> token) (numberOfTokens : nat) : St proc MemoryTokenStore :=
  let! (a, ok) := vb (Alloc (Z.of_nat numberOfTokens * 40)) in
  do! vassert ok in
  let! (n, ok) := vb (RegMr (vb_addr a) (Z.of_nat numberOfTokens * 40)) in
  do! massert ok in
  ret (Store (map (fun i => Token false (userToken (garbage i)) (memoryRegionType (garbage i)) (address (garbage i))
                              (key (garbage i)) (sizeInBytes (garbage i))) (seq 0 numberOfTokens))
             (vb_addr a) (vb_rkey n)).

Definition store_destroy (s : MemoryTokenStore) : St proc unit :=
  do! vb (DeregMr (store_addr s)) in
  do! vb (Free (store_addr s)) in
  ret tt.

(** The loop of [publishTokenData]: [None] when no entry is free. *)
Fixpoint publish_loop (l : list token) (t : MemoryToken) : option (list token) :=
  match l with
  | [] => None
  | e :: l =>
      if enabled e then
        match publish_loop l t with Some l' => Some (e :: l') | None => None end
      else Some (Token true (mt_userToken t) (mt_type t) (mt_address t) (mt_key t) (mt_size t) :: l)
  end.
Definition publishTokenData (s : MemoryTokenStore) (t : MemoryToken) : St proc MemoryTokenStore :=
  match publish_loop (dataBuffer s) t with
  | Some l => ret (Store l (store_addr s) (store_rkey s))
  | None => throw RuntimeError
  end.

Definition disable (e : token) : token :=
  Token false (userToken e) (memoryRegionType e) (address e) (key e) (sizeInBytes e).

(** The loop of [unpublishTokenData]: the first entry with the token, published or not. *)
Fixpoint unpublish_loop (l : list token) (ut : Z) : list token :=
  match l with
  | [] => []
  | e :: l => if userToken e =? ut then disable e :: l else e :: unpublish_loop l ut
  end.
Definition unpublishTokenData (s : MemoryTokenStore) (ut : Z) : MemoryTokenStore :=
  Store (unpublish_loop (dataBuffer s) ut) (store_addr s) (store_rkey s).

Definition getStoreSize (s : MemoryTokenStore) : Z := u32 (zlen (dataBuffer s)).
Definition getAddressWithOffset (t : MemoryToken) (offsetInBytes : Z) : Z := u64 (mt_address t + offsetInBytes).

(** ** Memory regions *)

(** [ibv_reg_mr]: the keys, when it succeeds *)
Definition reg_mr (addr len : Z) : St proc (option (Z * Z)) :=
  let! (n, ok) := vb (RegMr addr len) in
  ret (if ok : bool then Some (vb_lkey n, vb_rkey n) else None).
(** [ibv_dereg_mr] and the reads of the keys follow the pointer. *)
Definition dereg_mr (r : MemoryRegion) : St proc unit :=
  match mr_keys r with
  | Some _ => do! vb (DeregMr (mr_addr r)) in ret tt
  | None => ub
  end.
Definition getKey (r : MemoryRegion) : St proc Z := match mr_keys r with Some (lkey, _) => ret lkey | None => ub end.
Definition getRKey (r : MemoryRegion) : St proc Z := match mr_keys r with Some (_, rkey) => ret rkey | None => ub end.

Definition rdma_buffer_new (size : Z) : St proc MemoryRegion :=
  let! (a, ok) := vb (Alloc size) in
  do! vassert ok in
  let! mr := reg_mr (vb_addr a) size in
  ret (Region (vb_addr a) size mr true true).
Definition rdma_buffer_wrap (buffer size : Z) : St proc MemoryRegion :=
  let! mr := reg_mr buffer size in
  ret (Region buffer size mr true false).
Definition rdma_buffer_view (mr : option (Z * Z)) (buffer size : Z) : MemoryRegion :=
  Region buffer size mr false false.
Definition rdma_buffer_destroy (r : MemoryRegion) : St proc unit :=
  do! (if deregOnDelete r then dereg_mr r else ret tt) in
  (if deallocOnDelete r then do! vb (Free (mr_addr r)) in ret tt else ret tt).

(** [AtomicValue] at address [value_addr] of the object *)
Definition atomic_value_new (value_addr : Z) : St proc MemoryRegion :=
  let! mr := reg_mr value_addr 8 in
  ret (Region value_addr 8 mr true false).
Definition atomic_value_destroy (r : MemoryRegion) : St proc unit := dereg_mr r.

(** [getMemoryToken] of both; the queue pair is the loop-back one. *)
Definition getMemoryToken (t : MemoryRegionType) (r : MemoryRegion) (ut : Z) : St proc MemoryToken :=
  let! rkey := getRKey r in
  let! p := get in
  match loopback p with
  | Some q => ret (MemToken ut q t (mr_addr r) rkey (mr_size r))
  | None => ub
  end.

(** ** Queue pairs *)

Definition get_qp (q : nat) : St proc QueuePair :=
  let! p := get in match qps p !! q with Some x => ret x | None => ub end.
Definition put_qp (q : nat) (x : QueuePair) : St proc unit := pmod (fun p => set_qps (<[q := x]> (qps p)) p).

Definition UINT32_MAX : Z := 2 ^ 32 - 1.

(** [QueuePair::QueuePair] *)
Definition queue_pair_make : St proc nat :=
  let! p := get in
  let! (n, ok) := vb (CreateQp (MAX (sendQueueLength p) 1) (MAX (receiveQueueLength p) 1)) in
  do! vassert ok in
  let! (_, ok) := vb (ModifyQp (vb_qpn n) (ToInit (port p))) in
  do! vassert ok in
  let! p := get in
  let q := QP (vb_qpn n) (u32 (vb_random n)) false UINT32_MAX false UINT32_MAX false 0 0 0 [] 0 None in
  do! pmod (set_qps (qps p ++ [q])) in
  ret (length (qps p)).

(** [QueuePair::~QueuePair] *)
Definition queue_pair_destroy (q : nat) : St proc unit :=
  let! x := get_qp q in
  do! (if isRemoteMemoryStoreActive x then
         do! massert (match cache_lkey x with Some _ => true | None => false end) in
         let! (_, ok) := vb (DeregMr (cache_addr x)) in
         do! vassert ok in
         do! vb (Free (cache_addr x)) in ret tt
       else ret tt) in
  let! (_, ok) := vb (DestroyQp (qp_num x)) in
  vassert ok.

Definition activate (q : nat) (remoteDeviceId remoteQueuePairNumber remoteSequenceNumber : Z) : St proc unit :=
  let! x := get_qp q in
  let! (_, ok) := vb (ModifyQp (qp_num x) (ToRtr remoteQueuePairNumber remoteSequenceNumber remoteDeviceId)) in
  do! vassert ok in
  let! (_, ok) := vb (ModifyQp (qp_num x) (ToRts (sequenceNumber x))) in
  vassert ok.

Definition setLocalUserToken (q : nat) (ut : Z) : St proc unit :=
  let! x := get_qp q in
  put_qp q (QP (qp_num x) (sequenceNumber x) true ut (remoteUserTokenSet x) (remoteUserToken x)
    (isRemoteMemoryStoreActive x) (remoteMemoryStoreAddress x) (remoteMemoryStoreKey x) (remoteMemoryStoreSize x)
    (remoteMemoryStoreCache x) (cache_addr x) (cache_lkey x)).
Definition setRemoteUserToken (q : nat) (ut : Z) : St proc unit :=
  let! x := get_qp q in
  put_qp q (QP (qp_num x) (sequenceNumber x) (localUserTokenSet x) (localUserToken x) true ut
    (isRemoteMemoryStoreActive x) (remoteMemoryStoreAddress x) (remoteMemoryStoreKey x) (remoteMemoryStoreSize x)
    (remoteMemoryStoreCache x) (cache_addr x) (cache_lkey x)).

(** [calloc] clears the cache.  Its failure leaves a null pointer that every lookup follows;
    it counts as undefined here already. *)
Definition zero_token : token := Token false 0 RDMA_BUFFER 0 0 0.
Definition activateRemoteMemoryTokenStore (q : nat) (addr k storeSize : Z) : St proc unit :=
  let! x := get_qp q in
  let! (a, ok) := vb (Alloc (storeSize * 40)) in
  do! massert ok in
  let! mr := reg_mr (vb_addr a) (storeSize * 40) in
  put_qp q (QP (qp_num x) (sequenceNumber x) (localUserTokenSet x) (localUserToken x) (remoteUserTokenSet x)
    (remoteUserToken x) true addr k storeSize (replicate (Z.to_nat storeSize) zero_token) (vb_addr a) (fst <$> mr)).

(** ** Work requests *)

Definition post (q : nat) (wr : work_request) : St proc Z :=
  let! x := get_qp q in
  let! (_, ok) := vb (PostSend (qp_num x) wr) in
  do! vassert ok in
  ret (wr_id wr).

Definition synchronizeRemoteMemoryTokenStore (q : nat) : St proc Z :=
  let! x := get_qp q in
  if isRemoteMemoryStoreActive x then
    let! requestId := getNextOperationId in
    match cache_lkey x with
    | Some lkey => post q (WR requestId (cache_addr x) (u32 (remoteMemoryStoreSize x * 40)) lkey OpRdmaRead
                             (remoteMemoryStoreAddress x) (remoteMemoryStoreKey x) 0 0)
    | None => ub
    end
  else throw RuntimeError.

(** The length of the element has 32 bits. *)
Definition send (q : nat) (buffer : MemoryRegion) : St proc Z :=
  let! requestId := getNextOperationId in
  let! lkey := getKey buffer in
  post q (WR requestId (mr_addr buffer) (u32 (mr_size buffer)) lkey OpSend 0 0 0 0).
Definition write (q : nat) (buffer : MemoryRegion) (destination : MemoryToken) : St proc Z :=
  let! requestId := getNextOperationId in
  let! lkey := getKey buffer in
  post q (WR requestId (mr_addr buffer) (u32 (mr_size buffer)) lkey OpRdmaWrite
            (mt_address destination) (mt_key destination) 0 0).
Definition read (q : nat) (buffer : MemoryRegion) (source : MemoryToken) : St proc Z :=
  let! requestId := getNextOperationId in
  let! lkey := getKey buffer in
  post q (WR requestId (mr_addr buffer) (u32 (mr_size buffer)) lkey OpRdmaRead
            (mt_address source) (mt_key source) 0 0).
Definition compareAndSwap (q : nat) (destination : MemoryToken) (previousValue : MemoryRegion)
    (compare swap : Z) : St proc Z :=
  let! requestId := getNextOperationId in
  let! lkey := getKey previousValue in
  post q (WR requestId (mr_addr previousValue) (u32 (mr_size previousValue)) lkey OpCompareSwap
            (mt_address destination) (mt_key destination) compare swap).
Definition fetchAndAdd (q : nat) (destination : MemoryToken) (previousValue : MemoryRegion) (add : Z) : St proc Z :=
  let! requestId := getNextOperationId in
  let! lkey := getKey previousValue in
  post q (WR requestId (mr_addr previousValue) (u32 (mr_size previousValue)) lkey OpFetchAdd
            (mt_address destination) (mt_key destination) add 0).

(** [Context::postReceiveBuffer]; the id is the pointer to the buffer object. *)
Definition postReceiveBuffer (buffer_ptr : Z) (buffer : MemoryRegion) : St proc unit :=
  do! vassert (mr_size buffer <=? UINT32_MAX) in
  let! lkey := getKey buffer in
  let! (_, ok) := vb (PostSrqRecv buffer_ptr (mr_addr buffer) (u32 (mr_size buffer)) lkey) in
  vassert ok.

(** [Context::receive], on the completions of the receive queue: the buffer and the number of
    bytes, whatever the status. *)
Record recv_completion := RecvWc { rwc_id : Z; rwc_byte_len : Z; rwc_success : bool }.
Definition receive : St (list recv_completion) (option (Z * Z)) := fun cq =>
  match cq with
  | wc :: cq => Ok (Some (rwc_id wc, rwc_byte_len wc)) cq
  | [] => Ok None []
  end.

(** Lookup in the cache of the remote store *)
Fixpoint find_token (l : list token) (ut : Z) : option token :=
  match l with
  | [] => None
  | e :: l => if enabled e && (userToken e =? ut) then Some e else find_token l ut
  end.
Definition getRemoteMemoryToken (q : nat) (ut : Z) : St proc (option MemoryToken) :=
  let! x := get_qp q in
  ret (match find_token (remoteMemoryStoreCache x) ut with
       | Some e => Some (MemToken (userToken e) q (memoryRegionType e) (address e) (key e) (sizeInBytes e))
       | None => None
       end).

Fixpoint valid_loop (l : list token) (ut : Z) : bool :=
  match l with
  | [] => false
  | e :: l => if userToken e =? ut then enabled e else valid_loop l ut
  end.
Definition isRemoteMemoryTokenValid (q : nat) (t : MemoryToken) : St proc bool :=
  let! x := get_qp q in ret (valid_loop (remoteMemoryStoreCache x) (mt_userToken t)).

(** ** Connections: [QueuePairFactory] *)

(** [serializedQueuePair] *)
Record serializedQueuePair := SQP {
  s_localDeviceId : Z;
  s_queuePairNumber : Z;
  s_sequenceNumber : Z;
  s_userToken : Z;
  s_userTokenSet : bool;
  s_memoryTokenStoreActive : bool;
  s_memoryTokenStoreAddress : Z;
  s_memoryTokenStoreKey : Z;
  s_memoryTokenStoreSize : Z
}.

(** The message about a queue pair, field by field as the code fills it in. *)
Definition describe (q : nat) : St proc serializedQueuePair :=
  let! x := get_qp q in
  let! p := get in
  let token := if localUserTokenSet x then 1 else 0 in
  let tokenSet := negb (localUserToken x =? 0) in
  ret (match store p with
       | Some s => SQP (lid p) (qp_num x) (sequenceNumber x) token tokenSet true (store_addr s) (store_rkey s) (getStoreSize s)
       | None => SQP (lid p) (qp_num x) (sequenceNumber x) token tokenSet false 0 0 0
       end).

(** What both sides do with the message they receive. *)
Definition attach (q : nat) (m : serializedQueuePair) : St proc unit :=
  do! activate q (s_localDeviceId m) (s_queuePairNumber m) (s_sequenceNumber m) in
  do! (if s_userTokenSet m then setRemoteUserToken q (u32 (s_userToken m)) else ret tt) in
  if s_memoryTokenStoreActive m
  then activateRemoteMemoryTokenStore q (s_memoryTokenStoreAddress m) (s_memoryTokenStoreKey m) (s_memoryTokenStoreSize m)
  else ret tt.

(** A new queue pair with its local token. *)
Definition new_pair (ut : Z) (set : bool) : St proc nat :=
  let! q := queue_pair_make in
  do! (if set then setLocalUserToken q (u32 ut) else ret tt) in
  ret q.

(** [acceptIncomingConnection]: [received] is the message of the other side, [None] when
    [accept] failed or [recv] returned another number of bytes; [sent] says whether the reply,
    which comes with the queue pair, went out in full. *)
Definition acceptIncomingConnection (ut : Z) (set : bool) (received : option serializedQueuePair) (sent : bool)
    : St proc (nat * serializedQueuePair) :=
  match received with
  | None => throw RuntimeError
  | Some m =>
      let! q := new_pair ut set in
      let! reply := describe q in
      do! vassert sent in
      do! attach q m in
      ret (q, reply)
  end.

(** [connectToRemoteHost] up to the message it sends, and from the reply on. *)
Definition connect_send (ut : Z) (set connected sent : bool) : St proc (nat * serializedQueuePair) :=
  do! vassert connected in
  let! q := new_pair ut set in
  let! m := describe q in
  do! vassert sent in
  ret (q, m).
Definition connect_receive (q : nat) (received : option serializedQueuePair) : St proc nat :=
  match received with
  | None => throw RuntimeError
  | Some m => do! attach q m in ret q
  end.

Definition createLoopback (ut : Z) (set : bool) : St proc nat :=
  let! q := queue_pair_make in
  let! x := get_qp q in
  let! p := get in
  do! activate q (lid p) (qp_num x) (sequenceNumber x) in
  do! (if set then do! setLocalUserToken q (u32 ut) in setRemoteUserToken q (u32 ut) else ret tt) in
  do! (match store p with
       | Some s => activateRemoteMemoryTokenStore q (store_addr s) (store_rkey s) (getStoreSize s)
       | None => ret tt
       end) in
  ret q.

(** The closing check of [connectAllToAll]: queue pair [i] must know the token [i]. *)
Fixpoint check_all (i : Z) (l : list nat) : St proc unit :=
  match l with
  | [] => ret tt
  | q :: l =>
      let! x := get_qp q in
      do! vassert (remoteUserTokenSet x) in
      do! vassert (remoteUserToken x =? i) in
      check_all (i + 1) l
  end.

(** [connectToRemoteHost] as a whole, for a network that answers [received]. *)
Definition connectToRemoteHost (ut : Z) (set connected sent : bool) (received : option serializedQueuePair)
    : St proc nat :=
  let! (q, _) := connect_send ut set connected sent in
  connect_receive q received.

Fixpoint collect (f : nat -> St proc nat) (ms : list nat) : St proc (list nat) :=
  match ms with
  | [] => ret []
  | i :: ms => let! q := f i in let! qs := collect f ms in ret (q :: qs)
  end.

(** What the network does with machine [i]: the message from it, and whether connecting and
    sending succeed. *)
Record network := Network {
  net_received : nat -> option serializedQueuePair;
  net_connected : nat -> bool;
  net_sent : nat -> bool
}.

(** The array has [numberOfMachines] places, and the one at [localMachineOffset] is written. *)
Definition connectAllToAll (net : network) (numberOfMachines localMachineOffset : nat) : St proc (list nat) :=
  do! massert (localMachineOffset <? numberOfMachines)%nat in
  let ut := Z.of_nat localMachineOffset in
  let! lower := collect (fun i =>
    let! (q, _) := acceptIncomingConnection ut true (net_received net i) (net_sent net i) in ret q)
    (seq 0 localMachineOffset) in
  let! higher := collect (fun i =>
    connectToRemoteHost ut true (net_connected net i) (net_sent net i) (net_received net i))
    (rev (seq (S localMachineOffset) (numberOfMachines - S localMachineOffset))) in
  let! p := get in
  match loopback p with
  | None => ub
  | Some lb =>
      let queuePairs := lower ++ [lb] ++ rev higher in
      do! check_all 0 queuePairs in
      ret queuePairs
  end.

(** ** The context *)

(** [Context::initialize]; the creation of the completion queues is not checked. *)
Definition initialize (garbage : nat -> token) (ibDevice ibDevicePort sendLen recvLen : Z) : St proc unit :=
  do! pmod (set_lengths sendLen recvLen) in
  let! (_, ok) := vb GetDeviceList in
  do! vassert (0 <? vb_devices) in
  do! vassert (ibDevice <? vb_devices) in
  do! vassert ok in
  do! vassert (vb_device ibDevice) in
  let! (_, ok) := vb OpenDevice in
  do! vassert ok in
  let! (_, ok) := vb AllocPd in
  do! vassert ok in
  do! vb (QueryPort ibDevicePort) in
  do! pmod (set_device vb_lid ibDevicePort) in
  do! vb (CreateCq (MAX sendLen 1)) in
  do! vb (CreateCq (MAX recvLen 1)) in
  let! (_, ok) := vb (CreateSrq (MAX recvLen 1)) in
  do! vassert ok in
  let! s := store_make garbage 1024 in
  do! pmod (set_store (Some s)) in
  let! q := createLoopback 0 false in
  do! pmod (set_loopback (Some q)) in
  pmod (set_counters 1 0).

(** [Context::~Context] *)
Definition context_destroy : St proc unit :=
  let! p := get in
  do! (match store p with Some s => store_destroy s | None => ret tt end) in
  do! (match loopback p with Some q => queue_pair_destroy q | None => ret tt end) in
  let! (_, ok) := vb DestroySrq in
  do! vassert ok in
  let! (_, ok) := vb DeallocPd in
  do! vassert ok in
  let! (_, ok) := vb CloseDevice in
  vassert ok.

End Verbs.

(** A process before its context is made. *)
Definition empty_proc : proc := Proc [] [] None None 0 0 0 0 0 0 ∅ [].

(** ** The spin lock *)
Module SpinLock.

(** [Locked] is the section between [lock] and [unlock]. *)
Inductive pc := Idle | Trying | Locked.
Record state := State { lockFlag : Z; threads : list pc }.

(** [tas]: the atomic exchange returns the old value. *)
Definition tas (flag : Z) : Z * Z := (flag, 1).

(** One step of a thread: enter [lock], one round of its loop, or [unlock]. *)
Definition tstep (flag : Z) (p : pc) : Z * pc :=
  match p with
  | Idle => (flag, Trying)
  | Trying => let '(res, flag') := tas flag in (flag', if res =? 0 then Locked else Trying)
  | Locked => (0, Idle)
  end.

Inductive step : state -> state -> Prop :=
  | step_thread s t p : threads s !! t = Some p ->
      step s (State (tstep (lockFlag s) p).1 (<[t := (tstep (lockFlag s) p).2]> (threads s))).

Definition init (n : nat) : state := State 0 (replicate n Idle).

End SpinLock.
