(* ===== verification/VerbsSpec.v ===== *)
(** Lemmas on the InfiniBand layer: tracking of completed operations, the store of memory
    tokens as a map, the effect of connecting two queue pairs, and the spin lock. *)
From stdpp Require Import sets fin_sets.
From S2P Require Import Prelude Verbs.

(** ** Completed operations *)

(** [tracks base done D]: the counter and the set stand for the completed ids [D]; no id
    exceeds [M], so the counter does not wrap. *)
Definition M : Z := 2 ^ 64 - 2.
Record tracks (base : Z) (done D : gset Z) : Prop := {
  tr_base : 0 <= base <= M;
  tr_done x : x ∈ done -> base < x <= M;
  tr_next : base + 1 ∉ done;
  tr_ids x : 1 <= x -> (x <= base \/ x ∈ done) <-> x ∈ D
}.

Lemma M_small x : 0 <= x <= M -> u64 (x + 1) = x + 1.
Proof. intros Hx. apply u64_small. unfold M in Hx. lia. Qed.

Lemma advance_ok fuel base dn : 0 <= base <= M -> (forall x, x ∈ dn -> base < x <= M) ->
  (size dn <= fuel)%nat ->
  exists base' done', advance_loop fuel base dn = Some (base', done') /\
    base <= base' <= M /\ (forall x, x ∈ done' -> base' < x <= M) /\ base' + 1 ∉ done' /\
    forall x, (x <= base' \/ x ∈ done') <-> (x <= base \/ x ∈ dn).
Proof.
  revert base dn. induction fuel as [|fuel IH]; intros base dn Hb Hd Hs; cbn; rewrite M_small by done.
  - assert (dn = ∅) as -> by (apply leibniz_equiv, size_empty_iff; lia). rewrite bool_decide_eq_false_2 by set_solver.
    exists base, ∅. split; [done|]. split; [lia|]. split; [set_solver|]. split; [set_solver|]. done.
  - case_bool_decide as Hin.
    + destruct (IH (base + 1) (dn ∖ {[base + 1]})) as (b' & d' & Hr & Hb' & Hd' & Hn & Hiff).
      * specialize (Hd _ Hin). lia.
      * intros x Hx. apply elem_of_difference in Hx as [Hx Hne]. specialize (Hd _ Hx). assert (x <> base + 1) by set_solver. lia.
      * rewrite size_difference by set_solver. rewrite size_singleton. lia.
      * exists b', d'. split; [done|]. split; [lia|]. split; [done|]. split; [done|].
        intros x. rewrite Hiff. rewrite elem_of_difference, elem_of_singleton.
        destruct (decide (x = base + 1)) as [->|Hne]; [|intuition lia]. split; [by right|left; lia].
    + exists base, dn. split; [done|]. split; [lia|]. split; [done|]. split; [done|]. done.
Qed.

Section Completions.
Context `{Verbs}.

Definition tracked (p : proc) (D : gset Z) : Prop :=
  tracks (completedBaseCounter p) (requestCompletionSet p) D.

(** Registering takes at most one completion from the queue. *)
Lemma register_ok p D cq : tracked p D -> sendCq p = cq ->
  (forall wc, head cq = Some wc -> wc_success wc = true /\ 1 <= wc_id wc <= M /\ wc_id wc ∉ D) ->
  exists p', registerNextComplitionElement p = Ok tt p' /\ sendCq p' = tail cq /\
    tracked p' (match cq with wc :: _ => {[wc_id wc]} ∪ D | [] => D end).
Proof.
  intros [Hb Hd Hn Hiff] Hcq Hhd. unfold registerNextComplitionElement, pollNextComplitionElement, bind, get.
  rewrite Hcq. destruct cq as [|[id ok] cq].
  { cbn. eexists. split; [done|]. split; [done|]. by split. }
  destruct (Hhd _ eq_refl) as (Hok & Hid & Hnew). cbn in Hok, Hid, Hnew |- *. subst ok. cbn.
  destruct (0 <? id) eqn:Hpos; bool_prop; [|lia]. cbn.
  assert (base_lt : completedBaseCounter p < id).
  { destruct (decide (id <= completedBaseCounter p)); [|lia]. exfalso. apply Hnew, Hiff; [lia|]. by left. }
  assert (id ∉ requestCompletionSet p) as Hns by (intros Hin; apply Hnew, Hiff; [lia|]; by right).
  rewrite M_small by done. destruct (id =? completedBaseCounter p + 1) eqn:Heq; bool_prop.
  - destruct (advance_ok (size (requestCompletionSet p)) (completedBaseCounter p + 1) (requestCompletionSet p))
      as (b' & d' & Hadv & Hb' & Hd' & Hn' & Hi'); [lia| |done|].
    { intros x Hx. specialize (Hd _ Hx). destruct (decide (x = completedBaseCounter p + 1)); [by subst|lia]. }
    rewrite Hadv. eexists. split; [done|]. split; [done|]. split; cbn; [lia|done|done|].
    intros x Hx. rewrite Hi'. rewrite elem_of_union, elem_of_singleton, <-Hiff by done. subst id.
    destruct (decide (x = completedBaseCounter p + 1)) as [->|]; intuition lia.
  - eexists. split; [done|]. split; [done|]. split; cbn; [done| | |].
    + intros x [->%elem_of_singleton|Hx]%elem_of_union; [lia|]. specialize (Hd _ Hx). lia.
    + intros [Hx%elem_of_singleton|Hx]%elem_of_union; [lia|done].
    + intros x Hx. rewrite !elem_of_union, elem_of_singleton, <-Hiff by done. intuition lia.
Qed.

(** The answers of a sequence of calls of [checkIfOperationCompleted]. *)
Fixpoint run_checks (ops : list Z) : St proc (list bool) :=
  match ops with
  | [] => ret []
  | o :: ops => let! b := checkIfOperationCompleted o in let! bs := run_checks ops in ret (b :: bs)
  end.

(** The [j]-th answer, from the completions polled by then. *)
Fixpoint answers (ops ids : list Z) (D : gset Z) : list bool :=
  match ops with
  | [] => []
  | o :: ops =>
      let D' := match ids with id :: _ => {[id]} ∪ D | [] => D end in
      bool_decide (o ∈ D') :: answers ops (tail ids) D'
  end.

(** The completions [ids] wait in the queue, those of [D] were polled. *)
Record pending (p : proc) (ids : list Z) (D : gset Z) : Prop := {
  pe_tracked : tracked p D;
  pe_cq : sendCq p = map (fun i => Wc i true) ids;
  pe_range : Forall (fun i => 1 <= i <= M) ids;
  pe_nodup : NoDup ids;
  pe_new i : i ∈ ids -> i ∉ D
}.

Definition polled (ids : list Z) (D : gset Z) : gset Z :=
  match ids with id :: _ => {[id]} ∪ D | [] => D end.

Lemma check_ok p ids D o : pending p ids D -> 1 <= o ->
  exists p', checkIfOperationCompleted o p = Ok (bool_decide (o ∈ polled ids D)) p' /\
    pending p' (tail ids) (polled ids D).
Proof.
  intros [Ht Hcq Hids Hnd Hnew] Ho. destruct (register_ok p D _ Ht Hcq) as (p1 & Hreg & Hcq1 & Ht1).
  { intros wc Hwc. destruct ids as [|i ids]; [done|]. cbn in Hwc. simplify_eq. cbn.
    apply list.Forall_cons in Hids as [? _]. set_solver. }
  assert (tracked p1 (polled ids D)) as Ht1' by (by destruct ids).
  exists p1. split.
  - unfold checkIfOperationCompleted, bind, get, ret. rewrite Hreg. f_equal.
    destruct Ht1' as [_ _ _ Hiff]. specialize (Hiff o Ho). symmetry.
    destruct (o <=? completedBaseCounter p1) eqn:Hle; bool_prop; cbn.
    + apply bool_decide_eq_true, Hiff. by left.
    + apply bool_decide_ext. rewrite <-Hiff. intuition lia.
  - split; [done| | | |].
    + rewrite Hcq1. by destruct ids.
    + destruct Hids; done.
    + destruct ids; [done|]. by apply list.NoDup_cons in Hnd as [_ ?].
    + intros i Hi. destruct ids as [|j ids]; [set_solver|]. cbn in Hi. apply list.NoDup_cons in Hnd as [Hj _].
      cbn. apply not_elem_of_union. split; [|apply Hnew; set_solver]. intros ->%elem_of_singleton. done.
Qed.

Lemma run_checks_ok ops ids p D : pending p ids D -> Forall (fun o => 1 <= o) ops ->
  exists p', run_checks ops p = Ok (answers ops ids D) p'.
Proof.
  intros Hp Hops. revert ids p D Hp. induction Hops as [|o ops Ho Hops IH]; intros ids p D Hp; [by eexists|].
  destruct (check_ok p ids D o Hp Ho) as (p1 & Hc & Hp1). destruct (IH _ _ _ Hp1) as [p' Hp'].
  exists p'. cbn. unfold bind, ret. by rewrite Hc, Hp'.
Qed.

Lemma wait_ok ids p D o : pending p ids D -> 1 <= o -> o ∈ ids ->
  exists p', waitUntilOperationCompleted (length ids) o p = Ok tt p'.
Proof.
  revert p D. induction ids as [|i ids IH]; intros p D Hp Ho Hin; [set_solver|].
  destruct (check_ok p _ D o Hp Ho) as (p1 & Hc & Hp1). cbn. unfold bind. rewrite Hc. case_bool_decide as Hd; [by eexists|].
  apply (IH p1 _ Hp1 Ho). cbn in Hd. set_solver.
Qed.
End Completions.

(** ** Memory tokens *)

(** An entry never hides a published entry behind it. *)
Fixpoint good (l : list token) : Prop :=
  match l with
  | [] => True
  | e :: l => (forall e', e' ∈ l -> enabled e' = true -> userToken e' <> userToken e) /\ good l
  end.

Definition entry (t : MemoryToken) : token :=
  Token true (mt_userToken t) (mt_type t) (mt_address t) (mt_key t) (mt_size t).

Lemma find_token_in l ut e : find_token l ut = Some e -> e ∈ l /\ enabled e = true /\ userToken e = ut.
Proof.
  induction l as [|x l IH]; cbn; [done|]. destruct (enabled x && (userToken x =? ut)) eqn:Hx; bool_prop.
  - intros [= <-]. set_solver.
  - intros Hf. destruct (IH Hf) as (? & ? & ?). set_solver.
Qed.

Lemma find_token_none l ut : find_token l ut = None -> forall e, e ∈ l -> enabled e = true -> userToken e <> ut.
Proof.
  induction l as [|x l IH]; cbn; intros Hf e He Hen; [set_solver|].
  destruct (enabled x && (userToken x =? ut)) eqn:Hx; [done|].
  apply elem_of_cons in He as [->|He]; [|by apply IH]. rewrite Hen in Hx. cbn in Hx. by bool_prop.
Qed.

Lemma publish_elem l t l' e : publish_loop l t = Some l' -> e ∈ l' -> e ∈ l \/ e = entry t.
Proof.
  revert l'. induction l as [|x l IH]; intros l' Hp He; cbn in Hp; [done|]. destruct (enabled x).
  - destruct (publish_loop l t) as [l1|]; [|done]. simplify_eq. specialize (IH l1 eq_refl). set_solver.
  - simplify_eq. fold (entry t) in He. set_solver.
Qed.

Lemma publish_ok l t l' : good l -> find_token l (mt_userToken t) = None -> publish_loop l t = Some l' ->
  good l' /\ forall u, find_token l' u = if u =? mt_userToken t then Some (entry t) else find_token l u.
Proof.
  revert l'. induction l as [|x l IH]; intros l' Hg Hf Hp; cbn in Hp, Hf; [done|].
  destruct Hg as [Hx Hg]. destruct (enabled x) eqn:Hen.
  - cbn in Hf. destruct (userToken x =? mt_userToken t) eqn:Hxt; [done|]. bool_prop.
    destruct (publish_loop l t) as [l1|] eqn:Hl1; [|done]. simplify_eq.
    destruct (IH l1 Hg Hf eq_refl) as [Hg1 Hf1]. split.
    + split; [|done]. intros e' He' Hen'. destruct (publish_elem _ _ _ _ Hl1 He') as [He| ->]; [by apply Hx|].
      cbn. congruence.
    + intros u. cbn. rewrite Hen, Hf1. cbn. destruct (userToken x =? u) eqn:Hxu; [|done]. bool_prop.
      destruct (u =? mt_userToken t) eqn:Hut; [bool_prop; congruence|done].
  - simplify_eq. fold (entry t). cbn in Hf. split.
    + split; [|done]. intros e' He' Hen'. cbn. by apply (find_token_none l).
    + intros u. cbn. rewrite Hen. cbn. rewrite (Z.eqb_sym (mt_userToken t)). by destruct (u =? mt_userToken t).
Qed.

Lemma publish_full l t : publish_loop l t = None <-> Forall (fun e => enabled e = true) l.
Proof.
  induction l as [|x l IH]; cbn; [done|]. rewrite list.Forall_cons. destruct (enabled x).
  - destruct (publish_loop l t); split; [done|intros [_ Hl]; by apply IH in Hl|intros _; split; [done|by apply IH]|done].
  - split; [done|by intros []].
Qed.

Lemma unpublish_elem l ut e : e ∈ unpublish_loop l ut -> enabled e = true -> e ∈ l.
Proof.
  induction l as [|x l IH]; cbn; [done|]. destruct (userToken x =? ut).
  - intros [->|He]%elem_of_cons Hen; [done|set_solver].
  - intros [->|He]%elem_of_cons Hen; [set_solver|]. specialize (IH He Hen). set_solver.
Qed.

Lemma unpublish_ok l ut : good l ->
  good (unpublish_loop l ut) /\
  forall u, find_token (unpublish_loop l ut) u = if u =? ut then None else find_token l u.
Proof.
  induction l as [|x l IH]; intros Hg; cbn; [split; [done|]; intros; by destruct (_ =? _)|]. destruct Hg as [Hx Hg].
  destruct (userToken x =? ut) eqn:Hxt; bool_prop.
  - split; [by split|]. intros u. cbn. destruct (u =? ut) eqn:Hut; bool_prop.
    + subst. destruct (find_token l (userToken x)) as [e|] eqn:Hf; [|done].
      apply find_token_in in Hf as (He & Hen & Ht). by destruct (Hx e He Hen).
    + rewrite (proj2 (Z.eqb_neq (userToken x) u)) by congruence. by rewrite andb_false_r.
  - destruct (IH Hg) as [Hg' Hf']. split.
    + split; [|done]. intros e' He' Hen'. apply Hx; [by eapply unpublish_elem|done].
    + intros u. cbn. rewrite Hf'. destruct (enabled x && (userToken x =? u)) eqn:Hxu; bool_prop; [|done].
      destruct (u =? ut) eqn:?; bool_prop; [congruence|done].
Qed.

Lemma valid_ok l ut : good l -> valid_loop l ut = bool_decide (is_Some (find_token l ut)).
Proof.
  induction l as [|x l IH]; intros Hg; cbn; [done|]. destruct Hg as [Hx Hg].
  destruct (userToken x =? ut) eqn:Hxt; bool_prop.
  - destruct (enabled x) eqn:Hen; cbn; [done|]. symmetry. apply bool_decide_eq_false. intros [e He].
    apply find_token_in in He as (He & Hen' & Ht). apply (Hx e He Hen'). congruence.
  - rewrite andb_false_r. by apply IH.
Qed.

(** The store of published tokens as a map from user tokens. *)
Definition stands (l : list token) (m : gmap Z token) : Prop :=
  good l /\ forall u, find_token l u = m !! u.

Definition free (l : list token) : list token := filter (fun e => enabled e = false) l.

Lemma stands_cons x l m : stands (x :: l) m -> enabled x = true ->
  stands l (delete (userToken x) m) /\ m !! userToken x = Some x.
Proof.
  intros [[Hx Hg] Hf] Hen. split.
  - split; [done|]. intros u. specialize (Hf u). cbn in Hf. rewrite Hen in Hf. cbn in Hf.
    destruct (userToken x =? u) eqn:Hu; bool_prop.
    + subst. rewrite lookup_delete_eq. destruct (find_token l (userToken x)) eqn:He; [|done].
      apply find_token_in in He as (He & Hen' & Ht). by destruct (Hx _ He Hen').
    + by rewrite lookup_delete_ne.
  - rewrite <-Hf. cbn. by rewrite Hen, Z.eqb_refl.
Qed.

Lemma stands_size l m : stands l m -> (size m + length (free l) = length l)%nat.
Proof.
  revert m. induction l as [|x l IH]; intros m Hm.
  - assert (m = ∅) as ->; [|done]. apply map_eq. intros u. destruct Hm as [_ Hf]. by rewrite <-Hf, lookup_empty.
  - unfold free. destruct (enabled x) eqn:Hen.
    + destruct (stands_cons _ _ _ Hm Hen) as [Hl Hx]. rewrite filter_cons_False by congruence. cbn.
      rewrite <-(IH _ Hl). unfold free. rewrite map_size_delete_Some by eauto.
      assert (size m <> 0)%nat; [|lia]. intros Hz. apply map_size_empty_inv in Hz. by subst.
    + rewrite filter_cons_True by done. cbn. rewrite <-(IH m); [unfold free; lia|].
      destruct Hm as [[Hx Hg] Hf]. split; [done|]. intros u. specialize (Hf u). cbn in Hf. by rewrite Hen in Hf.
Qed.

(** Operations on the store of one process, and their specification on the map. *)
Inductive store_op := Publish (t : MemoryToken) | Unpublish (ut : Z).

Fixpoint run_store (ops : list store_op) (s : MemoryTokenStore) : St proc MemoryTokenStore :=
  match ops with
  | [] => ret s
  | Publish t :: ops => let! s := publishTokenData s t in run_store ops s
  | Unpublish ut :: ops => run_store ops (unpublishTokenData s ut)
  end.

Fixpoint spec_store (cap : nat) (ops : list store_op) (m : gmap Z token) : option (gmap Z token) :=
  match ops with
  | [] => Some m
  | Publish t :: ops => if (size m <? cap)%nat then spec_store cap ops (<[mt_userToken t := entry t]> m) else None
  | Unpublish ut :: ops => spec_store cap ops (delete ut m)
  end.

(** A token is published again only after it was taken back. *)
Fixpoint distinct (ops : list store_op) (m : gmap Z token) : Prop :=
  match ops with
  | [] => True
  | Publish t :: ops => m !! mt_userToken t = None /\ distinct ops (<[mt_userToken t := entry t]> m)
  | Unpublish ut :: ops => distinct ops (delete ut m)
  end.

Lemma publish_length l t l' : publish_loop l t = Some l' -> length l' = length l.
Proof.
  revert l'. induction l as [|x l IH]; intros l' Hp; cbn in Hp; [done|]. destruct (enabled x); [|by simplify_eq].
  destruct (publish_loop l t); simplify_eq. cbn. f_equal. by apply IH.
Qed.
Lemma unpublish_length l ut : length (unpublish_loop l ut) = length l.
Proof. induction l as [|x l IH]; cbn; [done|]. destruct (_ =? _); cbn; congruence. Qed.

Lemma stands_publish l m t : stands l m -> m !! mt_userToken t = None -> (size m < length l)%nat ->
  exists l', publish_loop l t = Some l' /\ stands l' (<[mt_userToken t := entry t]> m).
Proof.
  intros Hm Hfresh Hsz. pose proof (stands_size _ _ Hm) as Hlen. destruct Hm as [Hg Hf].
  destruct (publish_loop l t) as [l'|] eqn:Hp.
  - exists l'. split; [done|]. destruct (publish_ok l t l') as [Hg' Hf']; [done|by rewrite Hf|done|].
    split; [done|]. intros u. rewrite Hf'. destruct (u =? mt_userToken t) eqn:Hu; bool_prop.
    + subst. by rewrite lookup_insert_eq.
    + rewrite lookup_insert_ne by congruence. apply Hf.
  - exfalso. apply publish_full in Hp. assert (free l = []) as Hnil; [|rewrite Hnil in Hlen; cbn in Hlen; lia].
    unfold free. clear -Hp. induction Hp; [done|]. by rewrite filter_cons_False by congruence.
Qed.

Lemma stands_full l m t : stands l m -> ~ (size m < length l)%nat -> publish_loop l t = None.
Proof.
  intros Hm Hsz. pose proof (stands_size _ _ Hm) as Hlen. apply publish_full.
  assert (free l = []) as Hnil by (apply nil_length_inv; lia). unfold free in Hnil. clear -Hnil.
  induction l as [|x l IH]; [done|]. destruct (enabled x) eqn:Hen.
  - rewrite filter_cons_False in Hnil by congruence. constructor; [done|by apply IH].
  - by rewrite filter_cons_True in Hnil.
Qed.

Lemma stands_unpublish l m ut : stands l m -> stands (unpublish_loop l ut) (delete ut m).
Proof.
  intros [Hg Hf]. destruct (unpublish_ok l ut Hg) as [Hg' Hf']. split; [done|]. intros u. rewrite Hf'.
  destruct (u =? ut) eqn:Hu; bool_prop; [subst; by rewrite lookup_delete_eq|by rewrite lookup_delete_ne, Hf].
Qed.

Lemma run_store_ok ops s m p : stands (dataBuffer s) m -> distinct ops m ->
  match spec_store (length (dataBuffer s)) ops m with
  | Some m' => exists s', run_store ops s p = Ok s' p /\ stands (dataBuffer s') m'
  | None => run_store ops s p = Throw RuntimeError p
  end.
Proof.
  revert s m. induction ops as [|[t|ut] ops IH]; intros s m Hm Hd; cbn [run_store spec_store]; [by exists s| |].
  - destruct Hd as [Hfresh Hd]. unfold bind, publishTokenData. destruct (size m <? length (dataBuffer s))%nat eqn:Hlt.
    + apply Nat.ltb_lt in Hlt. destruct (stands_publish _ _ t Hm Hfresh Hlt) as (l' & Hp & Hl'). rewrite Hp. cbn.
      specialize (IH (Store l' (store_addr s) (store_rkey s)) _ Hl' Hd). cbn in IH.
      rewrite (publish_length _ _ _ Hp) in IH. exact IH.
    + apply Nat.ltb_nlt in Hlt. by rewrite (stands_full _ _ _ Hm Hlt).
  - specialize (IH (unpublishTokenData s ut) _ (stands_unpublish _ _ ut Hm) Hd). cbn in IH.
    rewrite unpublish_length in IH. exact IH.
Qed.

Lemma stands_new garbage n : stands (map (fun i => Token false (userToken (garbage i)) (memoryRegionType (garbage i))
    (address (garbage i)) (key (garbage i)) (sizeInBytes (garbage i))) (seq 0 n)) ∅.
Proof.
  generalize 0%nat as k. induction n as [|n IH]; intros k; cbn; [done|]. destruct (IH (S k)) as [Hg Hf].
  split; [|intros u; cbn; apply Hf]. split; [|done]. intros e' He'%list_elem_of_fmap Hen. destruct He' as (i & -> & _). done.
Qed.

(** ** Connections *)
Section Connections.
Context `{Verbs}.

(** The queue pair a new connection starts from. *)
Definition fresh_qp (ut : Z) (set : bool) (n : nat) : QueuePair :=
  QP (vb_qpn n) (u32 (vb_random n)) set (if set then u32 ut else UINT32_MAX) false UINT32_MAX false 0 0 0 [] 0 None.

(** The message [describe] makes of queue pair [x] in process [p]. *)
Definition message (p : proc) (x : QueuePair) : serializedQueuePair :=
  SQP (lid p) (qp_num x) (sequenceNumber x) (if localUserTokenSet x then 1 else 0) (negb (localUserToken x =? 0))
    (match store p with Some _ => true | None => false end)
    (match store p with Some s => store_addr s | None => 0 end)
    (match store p with Some s => store_rkey s | None => 0 end)
    (match store p with Some s => getStoreSize s | None => 0 end).

Lemma describe_ok p q x : qps p !! q = Some x -> describe q p = Ok (message p x) p.
Proof. intros Hq. unfold describe, get_qp, bind, get, message. rewrite Hq. cbn. by destruct (store p). Qed.

(** Parts of the process that connecting leaves alone. *)
Definition same_host (p p' : proc) : Prop := lid p' = lid p /\ store p' = store p /\ loopback p' = loopback p.

Context (Hok : forall n, vb_ok n = true).

Lemma new_pair_ok ut set p :
  exists p', new_pair ut set p = Ok (length (qps p)) p' /\ same_host p p' /\
    qps p' = qps p ++ [fresh_qp ut set (length (trace p))].
Proof.
  unfold new_pair, queue_pair_make, bind, get, vb, vassert. repeat (rewrite Hok; cbn). destruct set; cbn.
  - unfold setLocalUserToken, get_qp, put_qp, bind, get, pmod. cbn. rewrite list_lookup_middle by done. cbn.
    eexists. split; [done|]. split; [done|]. cbn. by rewrite insert_app_r_alt, Nat.sub_diag by done.
  - eexists. split; [done|]. split; [done|]. done.
Qed.

(** What a queue pair knows of the other side after its message. *)
Definition knows (m : serializedQueuePair) (x : QueuePair) : Prop :=
  remoteUserTokenSet x = s_userTokenSet m /\
  remoteUserToken x = (if s_userTokenSet m then u32 (s_userToken m) else UINT32_MAX) /\
  isRemoteMemoryStoreActive x = s_memoryTokenStoreActive m /\
  (s_memoryTokenStoreActive m = true -> remoteMemoryStoreAddress x = s_memoryTokenStoreAddress m /\
    remoteMemoryStoreKey x = s_memoryTokenStoreKey m /\ remoteMemoryStoreSize x = s_memoryTokenStoreSize m).

Definition own (x y : QueuePair) : Prop :=
  qp_num y = qp_num x /\ sequenceNumber y = sequenceNumber x /\
  localUserTokenSet y = localUserTokenSet x /\ localUserToken y = localUserToken x.

Lemma message_own p p' x y : lid p' = lid p -> store p' = store p -> own x y -> message p y = message p' x.
Proof. intros Hl Hs (H1 & H2 & H3 & H4). unfold message. by rewrite H1, H2, H3, H4, Hl, Hs. Qed.

Lemma attach_ok p q x m : qps p !! q = Some x -> remoteUserTokenSet x = false -> remoteUserToken x = UINT32_MAX ->
  isRemoteMemoryStoreActive x = false ->
  exists p' y, attach q m p = Ok tt p' /\ qps p' !! q = Some y /\ own x y /\ knows m y /\
    ModifyQp (qp_num x) (ToRtr (s_queuePairNumber m) (s_sequenceNumber m) (s_localDeviceId m)) ∈ trace p' /\
    ModifyQp (qp_num x) (ToRts (sequenceNumber x)) ∈ trace p'.
Proof.
  intros Hq H1 H2 H3. pose proof (lookup_lt_Some _ _ _ Hq) as Hlt.
  unfold attach, activate, get_qp, bind, get, vb, vassert. rewrite Hq. cbn. repeat (rewrite Hok; cbn).
  unfold setRemoteUserToken, activateRemoteMemoryTokenStore, reg_mr, massert, put_qp, get_qp, vb, bind, get, pmod, knows, own.
  destruct (s_userTokenSet m), (s_memoryTokenStoreActive m); cbn; rewrite ?Hq; cbn;
    rewrite ?list_lookup_insert_eq by done; cbn; repeat (rewrite Hok; cbn); eexists _, _; (split; [done|]); cbn;
    rewrite ?list_lookup_insert_eq by (rewrite ?length_insert; done); (split; [done|]); cbn; set_solver.
Qed.
End Connections.

(** ** All-to-all connections *)

(** Partial correctness: when [m] returns, [Q] holds. *)
Definition okp {A} (m : St proc A) (p : proc) (Q : A -> proc -> Prop) : Prop :=
  forall a p', m p = Ok a p' -> Q a p'.

Lemma okp_ret {A} (a : A) p (Q : A -> proc -> Prop) : Q a p -> okp (ret a) p Q.
Proof. intros HQ ? ? [= <- <-]. done. Qed.
Lemma okp_bind {A B} (m : St proc A) (f : A -> St proc B) p Q :
  okp m p (fun a p' => okp (f a) p' Q) -> okp (bind m f) p Q.
Proof. unfold okp, bind. intros Hm b p'. destruct (m p) eqn:Hmp; try done. by apply Hm. Qed.
Lemma okp_mono {A} (m : St proc A) p (P Q : A -> proc -> Prop) :
  okp m p P -> (forall a p', P a p' -> Q a p') -> okp m p Q.
Proof. unfold okp. eauto. Qed.
Lemma okp_any {A} (m : St proc A) p (Q : A -> proc -> Prop) : (forall a p', Q a p') -> okp m p Q.
Proof. unfold okp. eauto. Qed.
Lemma okp_get p (Q : proc -> proc -> Prop) : Q p p -> okp get p Q.
Proof. intros HQ a p' Hg. unfold get in Hg. by simplify_eq. Qed.
Lemma okp_get_qp p q x (Q : QueuePair -> proc -> Prop) : qps p !! q = Some x -> Q x p -> okp (get_qp q) p Q.
Proof. intros Hx HQ. apply okp_bind, okp_get. rewrite Hx. by apply okp_ret. Qed.

(** [m] leaves the loop-back pair and the queue pairs other than [q] alone. *)
Definition off {A} (q : nat) (m : St proc A) : Prop := forall p, okp m p (fun _ p' =>
  loopback p' = loopback p /\ forall i x, i <> q -> qps p !! i = Some x -> qps p' !! i = Some x).

Create HintDb off.

Lemma off_ret {A} q (a : A) : off q (ret a).
Proof. intros p. by apply okp_ret. Qed.
Lemma off_bind {A B} q (m : St proc A) (f : A -> St proc B) : off q m -> (forall a, off q (f a)) -> off q (bind m f).
Proof.
  intros Hm Hf p. apply okp_bind. eapply okp_mono; [apply Hm|]. intros a p1 [Hl1 H1].
  eapply okp_mono; [apply Hf|]. intros b p2 [Hl2 H2]. split; [congruence|eauto].
Qed.
Lemma off_massert q b : off q (massert b).
Proof. destruct b; [apply off_ret|]. intros ? ? ? [=]. Qed.
Lemma off_vassert q b : off q (vassert b).
Proof. destruct b; [apply off_ret|]. intros ? ? ? [=]. Qed.
Lemma off_get_qp q q' : off q (get_qp q').
Proof. intros p a p'. unfold get_qp, bind, get. destruct (qps p !! q'); [|done]. by intros [= <- <-]. Qed.
Lemma off_put_qp q x : off q (put_qp q x).
Proof. intros p a p' [= <- <-]. split; [done|]. intros i y Hi Hy. cbn. by rewrite list_lookup_insert_ne. Qed.
Lemma off_get q : off q (@get proc).
Proof. intros p a p' [= <- <-]. done. Qed.
#[local] Hint Resolve off_ret off_massert off_vassert off_get_qp off_put_qp off_get : off.

Section AllToAll.
Context `{Verbs}.

Lemma off_vb q c : off q (vb c).
Proof. intros p a p' [= <- <-]. done. Qed.
#[local] Hint Resolve off_vb : off.

(** Walks through the binds and the tests of a program. *)
Ltac off_walk := repeat first
  [ progress eauto with off | apply off_bind; [|intros ?]
  | match goal with |- off _ (let '(_, _) := ?a in _) => destruct a end
  | match goal with |- off _ (if ?b then _ else _) => destruct b end ].

Lemma off_activate q q' a b c : off q (activate q' a b c).
Proof. unfold activate. off_walk. Qed.
#[local] Hint Resolve off_activate : off.

Lemma off_attach q m : off q (attach q m).
Proof. unfold attach, setRemoteUserToken, activateRemoteMemoryTokenStore, reg_mr. off_walk. Qed.
Lemma off_local q ut : off q (setLocalUserToken q ut).
Proof. unfold setLocalUserToken. off_walk. Qed.
Lemma off_describe q q' : off q (describe q').
Proof. unfold describe. off_walk. Qed.
#[local] Hint Resolve off_attach off_local off_describe : off.

(** The loop-back pair has no token of the other side. *)
Definition lonely (lb : nat) (p : proc) : Prop :=
  loopback p = Some lb /\ exists x, qps p !! lb = Some x /\ remoteUserTokenSet x = false.

Lemma off_lonely {A} q lb (m : St proc A) p : off q m -> lonely lb p -> lb <> q -> okp m p (fun _ p' => lonely lb p').
Proof.
  intros Hm [Hl (x & Hx & Hset)] Hne. eapply okp_mono; [apply Hm|]. intros a p' [Hl' H']. split; [congruence|].
  exists x. split; [|done]. by apply H'.
Qed.

Lemma make_okp p : okp queue_pair_make p (fun q p' => q = length (qps p) /\ loopback p' = loopback p /\
  exists x, qps p' = qps p ++ [x] /\ remoteUserTokenSet x = false).
Proof.
  intros q p'. unfold queue_pair_make, bind, get, vb, vassert. destruct (vb_ok _); [|done]. cbn.
  destruct (vb_ok _); [|done]. cbn. intros [= <- <-]. cbn. eauto.
Qed.

Lemma new_pair_okp lb ut set p : lonely lb p -> okp (new_pair ut set) p (fun q p' => lb <> q /\ lonely lb p').
Proof.
  intros [Hl (x & Hx & Hset)]. apply okp_bind. eapply okp_mono; [apply make_okp|]. intros q p1 (-> & Hl1 & y & Hq & _).
  apply lookup_lt_Some in Hx as Hlt. assert (lonely lb p1) as H1.
  { split; [congruence|]. exists x. rewrite Hq, lookup_app_l by done. done. }
  apply okp_bind. destruct set.
  - eapply okp_mono; [apply (off_lonely _ lb _ p1 (off_local _ _) H1); lia|]. intros ? p2 H2. apply okp_ret.
    split; [lia|done].
  - apply okp_ret, okp_ret. split; [lia|done].
Qed.

Lemma accept_okp lb ut set m sent p : lonely lb p ->
  okp (acceptIncomingConnection ut set m sent) p (fun _ p' => lonely lb p').
Proof.
  intros Hp. destruct m as [m|]; [|intros ? ? [=]]. apply okp_bind.
  eapply okp_mono; [apply (new_pair_okp lb ut set p Hp)|]. intros q p1 [Hne H1].
  apply (off_lonely q lb); [|done|done]. off_walk.
Qed.

Lemma connect_okp lb ut set c s m p : lonely lb p ->
  okp (connectToRemoteHost ut set c s m) p (fun _ p' => lonely lb p').
Proof.
  intros Hp. apply okp_bind, okp_bind. destruct c; [|intros ? ? [=]]. apply okp_ret, okp_bind.
  eapply okp_mono; [apply (new_pair_okp lb ut set p Hp)|]. intros q p1 [Hne H1].
  apply okp_bind. eapply okp_mono; [apply (off_lonely q lb _ _ (off_describe q q) H1 Hne)|]. intros w p2 H2.
  apply okp_bind. destruct s; [|intros ? ? [=]]. apply okp_ret, okp_ret.
  destruct m as [m|]; [|intros ? ? [=]]. apply (off_lonely q lb); [|done|done]. unfold connect_receive. off_walk.
Qed.

Lemma collect_okp lb f ms p : (forall i p, lonely lb p -> okp (f i) p (fun _ p' => lonely lb p')) -> lonely lb p ->
  okp (collect f ms) p (fun _ p' => lonely lb p').
Proof.
  intros Hf. revert p. induction ms as [|i ms IH]; intros p Hp; cbn; [by apply okp_ret|].
  apply okp_bind. eapply okp_mono; [by apply Hf|]. intros q p1 H1. apply okp_bind.
  eapply okp_mono; [by apply IH|]. intros qs p2 H2. by apply okp_ret.
Qed.

Lemma check_all_lonely lb l i p : lonely lb p -> lb ∈ l -> okp (check_all i l) p (fun _ _ => False).
Proof.
  intros (Hl & x & Hx & Hset) Hin. revert i. induction l as [|q l IH]; intros i; [set_solver|]. cbn.
  intros a p'. unfold bind at 1. unfold get_qp at 1. unfold bind at 1. unfold get at 1.
  destruct (qps p !! q) as [y|] eqn:Hy; [|done]. cbn. unfold bind at 1.
  destruct (decide (q = lb)) as [->|Hne].
  - rewrite Hx in Hy. simplify_eq. by rewrite Hset.
  - destruct (remoteUserTokenSet y); [|done]. cbn. unfold bind at 1. destruct (_ =? _); [|done]. cbn.
    apply IH. set_solver.
Qed.

Lemma loopback_okp p : okp (createLoopback 0 false) p (fun q p' =>
  exists x, qps p' !! q = Some x /\ remoteUserTokenSet x = false).
Proof.
  apply okp_bind. eapply okp_mono; [apply make_okp|]. intros q p1 (-> & Hl1 & y & Hq & Hset).
  assert (qps p1 !! length (qps p) = Some y) as Hy by (rewrite Hq; by apply list_lookup_middle).
  clear Hq. revert Hy. generalize (length (qps p)) as q. intros q Hy.
  apply okp_bind. apply okp_get_qp with y; [done|]. apply okp_bind, okp_get.
  apply okp_bind. eapply okp_mono; [apply (off_activate (S q))|]. intros ? p3 [_ H2].
  specialize (H2 q y ltac:(lia) Hy). apply okp_bind, okp_ret, okp_bind.
  destruct (store p1) as [s|]; [|apply okp_ret, okp_ret; by exists y].
  intros b p4. unfold activateRemoteMemoryTokenStore, reg_mr, massert, get_qp, put_qp, pmod, bind, get, vb. rewrite H2. cbn.
  destruct (vb_ok _); [|done]. cbn. intros [= <- <-].
  apply okp_ret. cbn. apply lookup_lt_Some in H2 as Hlt. rewrite list_lookup_insert_eq by done. by eexists.
Qed.

Lemma initialize_okp garbage d pt sl rl p :
  okp (initialize garbage d pt sl rl) p (fun _ p' => exists lb, lonely lb p').
Proof.
  unfold initialize.
  do 18 (apply okp_bind, okp_any; intros ? ?; try match goal with |- okp (let '(_, _) := ?a in _) _ _ => destruct a end).
  apply okp_bind. eapply okp_mono; [apply loopback_okp|]. intros q p1 Hq.
  apply okp_bind. intros ? ? [= _ <-] ? ? [= _ <-]. by exists q.
Qed.

Lemma all_to_all_okp lb net n i p : lonely lb p -> okp (connectAllToAll net n i) p (fun _ _ => False).
Proof.
  intros Hp. apply okp_bind. destruct (i <? n)%nat; [|intros ? ? [=]]. apply okp_ret, okp_bind.
  eapply okp_mono; [apply (collect_okp lb); [|done]|].
  { intros j p1 H1. apply okp_bind. eapply okp_mono; [by apply accept_okp|]. intros [] p2 H2. by apply okp_ret. }
  intros lower p1 H1. apply okp_bind. eapply okp_mono; [apply (collect_okp lb); [intros; by apply connect_okp|done]|].
  intros higher p2 H2. apply okp_bind, okp_get. destruct H2 as [Hl H2]. rewrite Hl.
  apply okp_bind. eapply okp_mono; [apply (check_all_lonely lb); [done|set_solver]|]. done.
Qed.
End AllToAll.

(** ** The spin lock *)
Section Lock.
Import SpinLock.

Record lock_ok (s : state) : Prop := {
  lk_one t t' : threads s !! t = Some Locked -> threads s !! t' = Some Locked -> t = t';
  lk_free : lockFlag s = 0 -> forall t, threads s !! t <> Some Locked;
  lk_held : lockFlag s <> 0 -> exists t, threads s !! t = Some Locked
}.

Lemma lock_init n : lock_ok (init n).
Proof.
  assert (forall t, threads (init n) !! t <> Some Locked) as Hno by (intros t Ht; by apply lookup_replicate in Ht as [? _]).
  split; [|done|done]. intros t t' Ht. by destruct (Hno t).
Qed.

Lemma lookup_insert_cases (l : list pc) t p i q : <[t := p]> l !! i = Some q -> (i = t /\ q = p) \/ (i <> t /\ l !! i = Some q).
Proof. intros [(-> & -> & _)|[]]%list_lookup_insert_Some; [by left|by right]. Qed.

Lemma lock_step s s' : lock_ok s -> step s s' -> lock_ok s'.
Proof.
  intros Hok Hst. destruct Hst as [s0 t p Hp]. destruct Hok as [Hone Hfree Hheld]. apply lookup_lt_Some in Hp as Hlt. destruct p; cbn.
  - assert (forall i, <[t:=Trying]> (threads s0) !! i = Some Locked <-> threads s0 !! i = Some Locked) as Hiff.
    { intros i. rewrite list_lookup_insert_Some. split; [intros [(_ & ? & _)|[_ ?]]; done|].
      intros Hi. right. split; [intros ->; congruence|done]. }
    split; cbn; [intros i j; rewrite !Hiff; apply Hone|intros H0 i; rewrite Hiff; by apply Hfree|].
    intros H0. destruct (Hheld H0) as [i Hi]. exists i. by apply Hiff.
  - destruct (lockFlag s0 =? 0) eqn:H0; bool_prop; split; cbn; try done.
    + intros i j Hi Hj. apply lookup_insert_cases in Hi as [[-> _]|[_ Hi]]; [|by destruct (Hfree H0 i)].
      apply lookup_insert_cases in Hj as [[-> _]|[_ Hj]]; [done|by destruct (Hfree H0 j)].
    + intros _. exists t. by rewrite list_lookup_insert_eq.
    + intros i j Hi Hj. apply lookup_insert_cases in Hi as [[_ ?]|[_ Hi]]; [done|].
      apply lookup_insert_cases in Hj as [[_ ?]|[_ Hj]]; [done|]. by apply Hone.
    + intros _. destruct (Hheld H0) as [i Hi]. exists i. rewrite list_lookup_insert_ne; [done|]. intros ->. congruence.
  - assert (forall i, <[t:=Idle]> (threads s0) !! i <> Some Locked) as Hno.
    { intros i Hi. apply lookup_insert_cases in Hi as [[_ ?]|[Hne Hi]]; [done|]. by apply Hne, Hone. }
    split; cbn; [intros i j Hi; by destruct (Hno i)|intros _; apply Hno|done].
Qed.

Lemma lock_reach n s : rtc step (init n) s -> lock_ok s.
Proof.
  intros Hr. remember (init n) as s0. assert (lock_ok s0) as H0 by (subst; apply lock_init). clear Heqs0.
  induction Hr as [|s1 s2 s3 H12 _ IH]; [done|]. by apply IH, (lock_step s1).
Qed.
End Lock.
