(* ===== verification/VerbsClaims.v ===== *)
(** What the InfiniBand layer promises: completed operations, published memory tokens,
    connections, lengths of work requests, and the spin lock. *)
From stdpp Require Import sets.
From S2P Require Import Prelude Verbs VerbsSpec.

(** ** Completed operations *)

(** C28: Completions are tracked exactly, in whatever order they arrive: for a process that
    has registered none yet, and whose send queue will report the distinct operations [ids],
    a sequence of calls of [checkIfOperationCompleted] says yes for precisely those
    operations whose completion was polled by then (each call polls one), although only the
    ids beyond the contiguous prefix are stored; and waiting for an operation that is among
    them returns after at most as many rounds as there are completions. *)
Theorem completions_tracked ops ids p :
  completedBaseCounter p = 0 -> requestCompletionSet p = ∅ -> sendCq p = map (fun i => Wc i true) ids ->
  Forall (fun i => 1 <= i <= 2 ^ 64 - 2) ids -> NoDup ids -> Forall (fun o => 1 <= o) ops ->
  (exists p', run_checks ops p = Ok (answers ops ids ∅) p') /\
  (forall o, o ∈ ids -> exists p', waitUntilOperationCompleted (length ids) o p = Ok tt p').
Proof.
  intros Hb Hs Hcq Hids Hnd Hops. assert (pending p ids ∅) as Hp.
  { split; [|done|done|done|set_solver]. unfold tracked. rewrite Hb, Hs. split; [unfold M; lia|set_solver|set_solver|].
    intros x Hx. split; [intros [?|?]; [lia|set_solver]|set_solver]. }
  split; [by apply run_checks_ok|]. intros o Ho. apply (wait_ok _ _ _ _ Hp); [|done].
  rewrite list.Forall_forall in Hids. specialize (Hids o Ho). cbn in Hids. lia.
Qed.

Lemma completions_tracked_witness :
  (exists p', run_checks [2; 1; 1; 3] (set_sendCq [Wc 2 true; Wc 3 true; Wc 1 true] empty_proc) =
     Ok [true; false; true; true] p') /\
  exists p', waitUntilOperationCompleted 3 1 (set_sendCq [Wc 2 true; Wc 3 true; Wc 1 true] empty_proc) = Ok tt p'.
Proof.
  destruct (completions_tracked [2; 1; 1; 3] [2; 3; 1] (set_sendCq [Wc 2 true; Wc 3 true; Wc 1 true] empty_proc))
    as [Hc Hw]; [done|done|done|repeat constructor; lia| |repeat constructor; lia|].
  { repeat (apply list.NoDup_cons; split; [set_solver|]). constructor. }
  split; [exact Hc|]. apply Hw. set_solver.
Defined.

(** ** Memory tokens *)

(** The store of memory tokens refines a map from user tokens to regions: over any
    sequence of publications and withdrawals, in which a user token is published again only
    after it was withdrawn, publishing fails exactly when as many tokens are published as the
    store has entries, and a process whose cache of the store is up to date finds for every
    user token precisely the published region, and tells valid from withdrawn tokens. *)
Theorem token_store_refines `{Verbs} garbage n ops p s p1 :
  store_make garbage n p = Ok s p1 -> distinct ops ∅ ->
  match spec_store n ops ∅ with
  | None => run_store ops s p1 = Throw RuntimeError p1
  | Some m => exists s', run_store ops s p1 = Ok s' p1 /\
      forall r q x, qps r !! q = Some x -> remoteMemoryStoreCache x = dataBuffer s' ->
        (forall ut, getRemoteMemoryToken q ut r =
           Ok ((fun e => MemToken (userToken e) q (memoryRegionType e) (address e) (key e) (sizeInBytes e)) <$> m !! ut) r) /\
        (forall t, isRemoteMemoryTokenValid q t r = Ok (bool_decide (is_Some (m !! mt_userToken t))) r)
  end.
Proof.
  intros Hmake Hd. assert (stands (dataBuffer s) ∅ /\ length (dataBuffer s) = n) as [Hs Hlen].
  { unfold store_make, bind, vb, vassert in Hmake. destruct (vb_ok _); [|done]. cbn in Hmake.
    destruct (vb_ok _); [|done]. cbn in Hmake. injection Hmake as <- _.
    cbn. split; [apply stands_new|]. by rewrite length_map, length_seq. }
  pose proof (run_store_ok ops s ∅ p1 Hs Hd) as Hrun. rewrite Hlen in Hrun.
  destruct (spec_store n ops ∅) as [m|]; [|done]. destruct Hrun as (s' & Hrun & Hg & Hf). exists s'. split; [done|].
  intros r q x Hq Hcache. split; intros ut; unfold getRemoteMemoryToken, isRemoteMemoryTokenValid, get_qp, bind, get;
    rewrite Hq; cbn; rewrite Hcache.
  - rewrite Hf. by destruct (m !! ut).
  - unfold ret. f_equal. by rewrite valid_ok, Hf.
Qed.

(** A card on which every call succeeds; queue pairs are numbered from [base]. *)
Definition card (base : Z) : Verbs :=
  {| vb_ok := fun _ => true; vb_devices := 1; vb_device := fun _ => true; vb_lid := base; vb_qpn := fun n => base + Z.of_nat n;
     vb_addr := fun n => 4096 * Z.of_nat n; vb_lkey := fun n => Z.of_nat n; vb_rkey := fun n => Z.of_nat n;
     vb_random := fun n => 7 * Z.of_nat n |}.

Definition token_of (ut : Z) : MemoryToken := MemToken ut 0 RDMA_BUFFER (100 * ut) 1 64.

Lemma token_store_refines_witness :
  match spec_store 2 [Publish (token_of 1); Publish (token_of 2); Unpublish 1; Publish (token_of 3)] ∅ with
  | None => False
  | Some m => exists s', run_store [Publish (token_of 1); Publish (token_of 2); Unpublish 1; Publish (token_of 3)]
      (Store [zero_token; zero_token] 0 1) (set_trace [Alloc 80; RegMr 0 80] empty_proc) =
      Ok s' (set_trace [Alloc 80; RegMr 0 80] empty_proc)
  end.
Proof.
  pose proof (token_store_refines (H := card 1) (fun _ => zero_token) 2
    [Publish (token_of 1); Publish (token_of 2); Unpublish 1; Publish (token_of 3)] empty_proc _ _ eq_refl) as Hr.
  cbn in Hr |- *. destruct Hr as (s' & Hs' & _); [by repeat split|]. exists s'. exact Hs'.
Defined.

(** Publishing one token twice and withdrawing it twice leaves it published. *)
Example twice_withdrawn :
  find_token (unpublish_loop (unpublish_loop
    (default [] (publish_loop (default [] (publish_loop [zero_token; zero_token] (token_of 5))) (token_of 5))) 5) 5) 5 =
  Some (entry (token_of 5)).
Proof. reflexivity. Qed.

(** ** Connections *)

(** When a process connects to another one that accepts, and every call of both cards
    succeeds, the two new queue pairs are wired to each other: each is brought up with the
    number, the initial sequence number and the device id of the other, and knows where the
    other side's token store is.  The user tokens do not get across: the fields of the message
    are swapped, so each side sees token 1 or 0 for whether one was set, and takes it as
    set exactly when the token is not 0. *)
Theorem queue_pairs_connected (VA VB : Verbs) ua sa ub sb pa pb :
  (forall n, @vb_ok VA n = true) -> (forall n, @vb_ok VB n = true) ->
  exists qa m pa1 qb r pb' pa' xa xb,
    @connect_send VA ua sa true true pa = Ok (qa, m) pa1 /\
    @acceptIncomingConnection VB ub sb (Some m) true pb = Ok (qb, r) pb' /\
    @connect_receive VA qa (Some r) pa1 = Ok qa pa' /\
    qps pa' !! qa = Some xa /\ qps pb' !! qb = Some xb /\
    ModifyQp (qp_num xa) (ToRtr (qp_num xb) (sequenceNumber xb) (lid pb)) ∈ trace pa' /\
    ModifyQp (qp_num xa) (ToRts (sequenceNumber xa)) ∈ trace pa' /\
    ModifyQp (qp_num xb) (ToRtr (qp_num xa) (sequenceNumber xa) (lid pa)) ∈ trace pb' /\
    ModifyQp (qp_num xb) (ToRts (sequenceNumber xb)) ∈ trace pb' /\
    knows (message pb xb) xa /\ knows (message pa xa) xb /\
    localUserToken xa = (if sa then u32 ua else UINT32_MAX) /\ localUserToken xb = (if sb then u32 ub else UINT32_MAX) /\
    remoteUserTokenSet xa = negb (localUserToken xb =? 0) /\ remoteUserTokenSet xb = negb (localUserToken xa =? 0) /\
    (remoteUserTokenSet xa = true -> remoteUserToken xa = if sb then 1 else 0) /\
    (remoteUserTokenSet xb = true -> remoteUserToken xb = if sa then 1 else 0).
Proof.
  intros HA HB.
  destruct (new_pair_ok HA ua sa pa) as (pa1 & Ha & (Hla & Hsa & _) & Hqa).
  destruct (new_pair_ok HB ub sb pb) as (pb1 & Hb & (Hlb & Hsb & _) & Hqb).
  set (x := fresh_qp ua sa (length (trace pa))) in *. set (y := fresh_qp ub sb (length (trace pb))) in *.
  assert (qps pa1 !! length (qps pa) = Some x) as Hx by (rewrite Hqa; by apply list_lookup_middle).
  assert (qps pb1 !! length (qps pb) = Some y) as Hy by (rewrite Hqb; by apply list_lookup_middle).
  destruct (attach_ok HA pa1 _ x (message pb1 y) Hx) as (pa' & xa & Hatta & Hxa & Howna & Hka & Hra & Hta); [done..|].
  destruct (attach_ok HB pb1 _ y (message pa1 x) Hy) as (pb' & xb & Hattb & Hxb & Hownb & Hkb & Hrb & Htb); [done..|].
  pose proof (message_own pa pa1 x xa Hla Hsa Howna) as Hma. pose proof (message_own pb pb1 y xb Hlb Hsb Hownb) as Hmb.
  destruct Howna as (Ha1 & Ha2 & Ha3 & Ha4), Hownb as (Hb1 & Hb2 & Hb3 & Hb4). cbn in Hra, Hta, Hrb, Htb.
  exists (length (qps pa)), (message pa1 x), pa1, (length (qps pb)), (message pb1 y), pb', pa', xa, xb.
  split; [unfold connect_send, bind, vassert; cbn; by rewrite Ha, (describe_ok _ _ x)|].
  split; [unfold acceptIncomingConnection, bind, vassert, ret; rewrite Hb, (describe_ok _ _ y) by done; by rewrite Hattb|].
  split; [unfold connect_receive, bind; by rewrite Hatta|].
  do 2 (split; [done|]). rewrite Ha1, Ha2, Hb1, Hb2, <-Hla, <-Hlb. do 4 (split; [done|]).
  split; [congruence|]. split; [congruence|]. destruct Hka as (Ka1 & Ka2 & _), Hkb as (Kb1 & Kb2 & _).
  cbn in Ka1, Ka2, Kb1, Kb2. rewrite Ha4, Hb4. do 2 (split; [done|]). do 2 (split; [done|]).
  split; intros Hset; [rewrite Ka1 in Hset; rewrite Ka2, Hset|rewrite Kb1 in Hset; rewrite Kb2, Hset].
  - by destruct sb.
  - by destruct sa.
Qed.

Lemma queue_pairs_connected_witness :
  exists qa m pa1 qb r pb' pa' xa xb,
    @connect_send (card 10) 5 true true true empty_proc = Ok (qa, m) pa1 /\
    @acceptIncomingConnection (card 20) 6 true (Some m) true empty_proc = Ok (qb, r) pb' /\
    @connect_receive (card 10) qa (Some r) pa1 = Ok qa pa' /\
    qps pa' !! qa = Some xa /\ qps pb' !! qb = Some xb /\
    localUserToken xb = 6 /\ remoteUserToken xa = 1.
Proof.
  destruct (queue_pairs_connected (card 10) (card 20) 5 true 6 true empty_proc empty_proc (fun _ => eq_refl) (fun _ => eq_refl))
    as (qa & m & pa1 & qb & r & pb' & pa' & xa & xb & H1 & H2 & H3 & H4 & H5 & _ & _ & _ & _ & _ & _ & _ & H6 & H7 & _ & H8 & _).
  exists qa, m, pa1, qb, r, pb', pa', xa, xb. repeat (split; [done|]). apply H8. rewrite H7, H6. reflexivity.
Defined.

(** C40: Connecting all machines to each other never succeeds.  Whatever the other machines
    send, and whichever calls succeed, [connectAllToAll] on a context that [initialize] has
    set up does not return: the queue pair of the machine itself is the loop-back pair,
    which is made without tokens, so the check that it knows the token of the other side
    ends the process. *)
Theorem all_to_all_never_returns `{Verbs} garbage d pt sl rl p p1 net n i :
  initialize garbage d pt sl rl p = Ok tt p1 ->
  result (connectAllToAll net n i p1) = None.
Proof.
  intros Hinit. destruct (initialize_okp garbage d pt sl rl p tt p1 Hinit) as [lb Hlb].
  destruct (connectAllToAll net n i p1) eqn:Hr; try done. by destruct (all_to_all_okp lb net n i p1 Hlb _ _ Hr).
Qed.

Lemma all_to_all_never_returns_witness :
  match @initialize (card 10) (fun _ => zero_token) 0 1 16 16 empty_proc with
  | Ok _ p1 => result (@connectAllToAll (card 10) (Network (fun _ => None) (fun _ => true) (fun _ => true)) 1 0 p1) = None
  | _ => False
  end.
Proof.
  destruct (@initialize (card 10) (fun _ => zero_token) 0 1 16 16 empty_proc) as [[] p1| | |] eqn:Hi;
    [exact (all_to_all_never_returns (H := card 10) _ _ _ _ _ _ _ (Network (fun _ => None) (fun _ => true) (fun _ => true)) 1 0 Hi)
    |vm_compute in Hi; discriminate Hi..].
Defined.

(** ** Work requests *)

Inductive request :=
  | RSend | RWrite (t : MemoryToken) | RRead (t : MemoryToken)
  | RCompareSwap (t : MemoryToken) (compare swap : Z) | RFetchAdd (t : MemoryToken) (add : Z).

Definition run_request `{Verbs} (q : nat) (r : MemoryRegion) (a : request) : St proc Z :=
  match a with
  | RSend => send q r
  | RWrite t => write q r t
  | RRead t => read q r t
  | RCompareSwap t c s => compareAndSwap q t r c s
  | RFetchAdd t n => fetchAndAdd q t r n
  end.
Definition request_opcode (a : request) : opcode :=
  match a with
  | RSend => OpSend | RWrite _ => OpRdmaWrite | RRead _ => OpRdmaRead
  | RCompareSwap _ _ _ => OpCompareSwap | RFetchAdd _ _ => OpFetchAdd
  end.
(** Address and key of the remote side, and the operands of the atomic operations. *)
Definition request_target (a : request) : Z * Z :=
  match a with
  | RSend => (0, 0)
  | RWrite t | RRead t | RCompareSwap t _ _ | RFetchAdd t _ => (mt_address t, mt_key t)
  end.
Definition request_operands (a : request) : Z * Z :=
  match a with RCompareSwap _ c s => (c, s) | RFetchAdd _ n => (n, 0) | _ => (0, 0) end.

(** Every operation on a queue pair posts one work request, for the region, the remote
    address and key and the operands it was given, under the next operation id, which it
    returns; when the card refuses the request the process ends with the id used up.  The
    length of the request has 32 bits and is not checked: a region of [k * 2^32 + n] bytes is
    transferred as [n] bytes, where posting it to the receive queue is refused. *)
Theorem requests_posted `{Verbs} q x r lkey rkey a p : qps p !! q = Some x -> mr_keys r = Some (lkey, rkey) ->
  let wr := WR (operationIdCounter p) (mr_addr r) (mr_size r mod 2 ^ 32) lkey (request_opcode a)
              (request_target a).1 (request_target a).2 (request_operands a).1 (request_operands a).2 in
  let p' := set_trace (trace p ++ [PostSend (qp_num x) wr])
              (set_counters (u64 (operationIdCounter p + 1)) (completedBaseCounter p) p) in
  run_request q r a p =
    (if vb_ok (length (trace p)) then Ok (operationIdCounter p) p' else Throw RuntimeError p') /\
  (2 ^ 32 <= mr_size r -> forall ptr, postReceiveBuffer ptr r p = Throw RuntimeError p).
Proof.
  intros Hq Hk. cbv zeta. split.
  - destruct a; cbn; unfold send, write, read, compareAndSwap, fetchAndAdd, getNextOperationId, getKey, post,
      get_qp, pmod, bind, get, vb, vassert;
      rewrite Hk; cbn; rewrite Hq; cbn; by destruct (vb_ok _).
  - intros Hsz ptr. unfold postReceiveBuffer, bind, vassert, UINT32_MAX. by rewrite (proj2 (Z.leb_gt _ _)) by lia.
Qed.

Lemma requests_posted_witness :
  let p := set_qps [fresh_qp (H := card 1) 0 false 0] empty_proc in
  let r := Region 8192 (2 ^ 32 + 5) (Some (1, 2)) true true in
  result (run_request (H := card 1) 0 r RSend p) = Some 0 /\
  (forall ptr, postReceiveBuffer (H := card 1) ptr r p = Throw RuntimeError p).
Proof.
  cbv zeta. destruct (requests_posted (H := card 1) 0 _ (Region 8192 (2 ^ 32 + 5) (Some (1, 2)) true true) 1 2 RSend
    (set_qps [fresh_qp (H := card 1) 0 false 0] empty_proc) eq_refl eq_refl) as [Hs Hr].
  split; [rewrite Hs; reflexivity|]. apply Hr. cbn. lia.
Defined.

(** A failed receive is reported like a message. *)
Example receive_ignores_status : receive [RecvWc 8 0 false] = Ok (Some (8, 0)) [].
Proof. reflexivity. Qed.

(** ** The spin lock *)

(** The spin lock excludes: whatever the interleaving of [n] threads, at most one is
    between [lock] and [unlock]; the flag is clear exactly when none is; and then a thread
    that tries gets the lock with its next step. *)
Theorem lock_excludes n s : rtc SpinLock.step (SpinLock.init n) s ->
  (forall t t', SpinLock.threads s !! t = Some SpinLock.Locked -> SpinLock.threads s !! t' = Some SpinLock.Locked -> t = t') /\
  (SpinLock.lockFlag s = 0 <-> forall t, SpinLock.threads s !! t <> Some SpinLock.Locked) /\
  (forall t, (forall t', SpinLock.threads s !! t' <> Some SpinLock.Locked) -> SpinLock.threads s !! t = Some SpinLock.Trying ->
    SpinLock.step s (SpinLock.State 1 (<[t := SpinLock.Locked]> (SpinLock.threads s)))).
Proof.
  intros Hr. destruct (lock_reach n s Hr) as [Hone Hfree Hheld].
  assert ((forall t, SpinLock.threads s !! t <> Some SpinLock.Locked) -> SpinLock.lockFlag s = 0) as Hz.
  { intros Hno. destruct (decide (SpinLock.lockFlag s = 0)); [done|]. destruct (Hheld n0) as [t Ht]. by destruct (Hno t). }
  split; [done|]. split; [by split|]. intros t Hno Ht. pose proof (SpinLock.step_thread s t _ Ht) as Hst. cbn in Hst.
  by rewrite (Hz Hno) in Hst.
Qed.

Lemma lock_excludes_witness :
  rtc SpinLock.step (SpinLock.init 2) (SpinLock.State 1 [SpinLock.Locked; SpinLock.Trying]) /\
  forall t, SpinLock.threads (SpinLock.State 1 [SpinLock.Locked; SpinLock.Trying]) !! t = Some SpinLock.Locked -> t = 0%nat.
Proof.
  assert (rtc SpinLock.step (SpinLock.init 2) (SpinLock.State 1 [SpinLock.Locked; SpinLock.Trying])) as Hr.
  { eapply rtc_l; [exact (SpinLock.step_thread (SpinLock.init 2) 0 _ eq_refl)|].
    eapply rtc_l; [exact (SpinLock.step_thread (SpinLock.State 0 [SpinLock.Trying; SpinLock.Idle]) 1 _ eq_refl)|].
    eapply rtc_l; [exact (SpinLock.step_thread (SpinLock.State 0 [SpinLock.Trying; SpinLock.Trying]) 0 _ eq_refl)|].
    apply rtc_refl. }
  split; [exact Hr|]. intros t Ht. exact (proj1 (lock_excludes 2 _ Hr) t 0%nat Ht eq_refl).
Defined.
