(* ===== verification/Service.v ===== *)
(** * Devices, processors and the service of infinio

    Who owns which system resource: the wrappers of [libs/infinio/src/DeviceContext.hpp] and
    [DeviceContext.cpp], the memory regions of [InfinibandBuffer.cpp], the registration of
    pollers and the task queues of [EventProcessor.cpp], and [InfinibandProcessor] and
    [InfinibandService] of [InfinibandService.hpp] and [.cpp].

    The state is the set of live system objects with what each was created on, the event
    processors and the reference counts of devices.  System calls are numbered; whether one
    succeeds is a parameter ([System]).  The destructors of members run when a constructor
    throws ([guard]), as the language prescribes. *)
From S2P Require Import Prelude.

(** ** System objects *)

Inductive kind :=
  | KProtectionDomain | KMapping | KMemoryRegion (data : nat) | KReceiveQueue
  | KCompletionChannel | KCompletionQueue | KEpoll | KEventFd | KEventChannel | KDeviceList.

(** An object and the objects it was created on. *)
Record obj := Obj { o_kind : kind; o_uses : list nat }.

Inductive poller := PollLocal | PollTasks | PollCompletions.
#[global] Instance poller_eq_dec : EqDecision poller.
Proof. solve_decision. Defined.

(** [EventProcessor], named by its epoll descriptor; [watched] is the interest list of epoll, [running] says that
    the poll thread can be joined, [e_shutdown] is [mShutdown], which the poll thread reads. *)
Record event_processor := EventProcessor {
  mPoller : list poller;
  watched : list nat;
  running : bool;
  e_shutdown : bool
}.

(** [DeviceContext]: its protection domain, receive memory and receive queue. *)
Record device := Device { mProtectionDomain : nat; mReceiveData : nat; mReceiveQueue : nat; d_shutdown : bool }.

Record world := World {
  live : gmap nat obj;
  calls : nat;
  processors : gmap nat event_processor;
  shared : gmap nat (device * nat);   (* devices owned by shared pointers, with the count *)
  logged : list nat                   (* objects whose release failed *)
}.

Definition set_live x w := World x (calls w) (processors w) (shared w) (logged w).
Definition set_calls x w := World (live w) x (processors w) (shared w) (logged w).
Definition set_processors x w := World (live w) (calls w) x (shared w) (logged w).
Definition set_shared x w := World (live w) (calls w) (processors w) x (logged w).
Definition set_logged x w := World (live w) (calls w) (processors w) (shared w) x.
Definition wmod (f : world -> world) : St world unit := fun w => Ok tt (f w).

(** [sys_ok n]: the [n]-th call succeeds; [sys_errno n] is its error otherwise.  [sys_release]
    says whether an object can be released while the given objects are live, [sys_unwatch]
    whether a descriptor can be taken from the interest list of epoll.  [sys_joins e]: the poll thread of
    processor [e] leaves its loop after [mShutdown] has been set; it does not while it sleeps in [epoll_wait]. *)
Class System := {
  sys_ok : nat -> bool;
  sys_errno : nat -> Z;
  sys_release : gmap nat obj -> nat -> bool;
  sys_unwatch : list nat -> nat -> bool;
  sys_devices : Z;
  sys_joins : nat -> bool
}.

(** Calling the destructor of [a] when what follows its construction throws. *)
Definition guard {A B} (m : St world A) (dtor : A -> St world unit) (k : A -> St world B) : St world B := fun w =>
  match m w with
  | Ok a w =>
      match k a w with
      | Throw e w => match dtor a w with Ok _ w => Throw e w | _ => UB end
      | r => r
      end
  | Throw e w => Throw e w
  | UB => UB
  | NoFuel => NoFuel
  end.
(** A local variable: its destructor runs in any case. *)
Definition scoped {A B} (m : St world A) (dtor : A -> St world unit) (k : A -> St world B) : St world B :=
  guard m dtor (fun a => let! b := k a in do! dtor a in ret b).
(** [catch (std::system_error& e) { ... }] *)
Definition catch (m : St world unit) (handler : St world unit) : St world unit := fun w =>
  match m w with
  | Throw (SystemError _) w => handler w
  | r => r
  end.

Section Service.
Context `{System}.

(** A call: its number and whether it succeeds. *)
Definition sys : St world (nat * bool) := fun w => Ok (calls w, sys_ok (calls w)) (set_calls (S (calls w)) w).
Definition sys_check : St world unit :=
  let! (n, ok) := sys in if ok : bool then ret tt else throw (SystemError (sys_errno n)).

(** A call that makes an object, named by the number of the call; [None] is the null pointer
    or the descriptor -1. *)
Definition try_create (k : kind) (uses : list nat) : St world (option nat) :=
  let! (n, ok) := sys in
  if ok : bool then do! wmod (fun w => set_live (<[n := Obj k uses]> (live w)) w) in ret (Some n)
  else ret None.
Definition create (k : kind) (uses : list nat) : St world nat :=
  let! (n, ok) := sys in
  if ok : bool then do! wmod (fun w => set_live (<[n := Obj k uses]> (live w)) w) in ret n
  else throw (SystemError (sys_errno n)).

(** A call that releases an object; releasing one that is not live is undefined. *)
Definition release (h : nat) : St world bool :=
  let! w := get in
  match live w !! h with
  | None => ub
  | Some _ =>
      if sys_release (live w) h
      then do! wmod (fun w => set_live (delete h (live w)) w) in ret true
      else ret false
  end.
Definition log_error (h : nat) : St world unit := wmod (fun w => set_logged (logged w ++ [h]) w).

(** ** Wrappers with one owner

    [ProtectionDomain], [SharedReceiveQueue], [CompletionChannel], [CompletionQueue] and
    [LocalMemoryRegion] hold a pointer that is null after a move. *)

Definition handle := option nat.

Definition handle_destroy (h : handle) : St world unit :=
  match h with
  | None => ret tt
  | Some h => let! ok := release h in if ok : bool then ret tt else log_error h
  end.
(** The move constructor: the new object and what is left of the other one. *)
Definition handle_move (other : handle) : handle * handle := (other, None).
Definition handle_assign (self other : handle) : St world (handle * handle) :=
  match self with
  | None => ret (handle_move other)
  | Some h =>
      let! ok := release h in
      if ok : bool then ret (handle_move other)
      else let! w := get in throw (SystemError (sys_errno (calls w)))
  end.

Definition ProtectionDomain_make : St world nat := create KProtectionDomain [].
Definition ProtectionDomain_destroy (pd : handle) : St world unit := handle_destroy pd.
Definition ProtectionDomain_assign (self other : handle) : St world (handle * handle) := handle_assign self other.

Definition SharedReceiveQueue_make (domain : nat) : St world nat := create KReceiveQueue [domain].
Definition SharedReceiveQueue_destroy (q : handle) : St world unit := handle_destroy q.
Definition SharedReceiveQueue_assign (self other : handle) : St world (handle * handle) := handle_assign self other.

Definition CompletionChannel_make : St world nat := create KCompletionChannel [].
Definition CompletionChannel_destroy (c : handle) : St world unit := handle_destroy c.
Definition CompletionChannel_assign (self other : handle) : St world (handle * handle) := handle_assign self other.

Definition CompletionQueue_make (channel : nat) : St world nat := create KCompletionQueue [channel].
Definition CompletionQueue_destroy (q : handle) : St world unit := handle_destroy q.
Definition CompletionQueue_assign (self other : handle) : St world (handle * handle) := handle_assign self other.

Definition LocalMemoryRegion_make (domain data : nat) : St world nat := create (KMemoryRegion data) [domain].
Definition LocalMemoryRegion_destroy (r : handle) : St world unit := handle_destroy r.
Definition LocalMemoryRegion_assign (self other : handle) : St world (handle * handle) := handle_assign self other.

(** [nonBlocking]: two calls of [fcntl], the result of the second is checked. *)
Definition nonBlocking : St world unit := do! sys in sys_check.

Definition deregisterRegion (h : handle) : St world handle :=
  match h with
  | None => ret None
  | Some x =>
      let! ok := release x in
      if ok : bool then ret None else let! w := get in throw (SystemError (sys_errno (calls w)))
  end.

(** The address of a region; reading it through a null or dangling pointer is undefined. *)
Definition region_data (h : nat) : St world nat :=
  let! w := get in
  match live w !! h with
  | Some (Obj (KMemoryRegion data) _) => ret data
  | _ => ub
  end.

(** [AllocatedMemoryRegion]: the mapping is not undone when the registration throws. *)
Definition allocateMemory : St world nat := create KMapping [].
Definition AllocatedMemoryRegion_make (domain : nat) : St world nat :=
  let! data := allocateMemory in
  LocalMemoryRegion_make domain data.

(** The body of the destructor and then that of the member, which finds the pointer set when
    the first release failed. *)
Definition AllocatedMemoryRegion_destroy (r : handle) : St world unit :=
  match r with
  | None => ret tt
  | Some h =>
      let! data := region_data h in
      let! ok := release h in
      do! (if ok : bool then ret tt else log_error h) in
      let! unmapped := release data in
      do! (if unmapped : bool then ret tt else log_error data) in
      LocalMemoryRegion_destroy (if ok then None else Some h)
  end.
Definition AllocatedMemoryRegion_assign (self other : handle) : St world (handle * handle) :=
  match self with
  | None => LocalMemoryRegion_assign None other
  | Some h =>
      let! data := region_data h in
      let! r := LocalMemoryRegion_assign self other in
      let! unmapped := release data in
      if unmapped : bool then ret r else let! w := get in throw (SystemError (sys_errno (calls w)))
  end.

(** ** [DeviceContext] *)

(** The posting of the receive buffers *)
Fixpoint post_receive_buffers (n : nat) : St world unit :=
  match n with
  | O => ret tt
  | S n => do! sys_check in post_receive_buffers n
  end.

Definition DeviceContext_make (receiveBufferCount : nat) : St world device :=
  guard ProtectionDomain_make (fun pd => ProtectionDomain_destroy (Some pd)) (fun pd =>
  guard (AllocatedMemoryRegion_make pd) (fun mr => AllocatedMemoryRegion_destroy (Some mr)) (fun mr =>
  guard (SharedReceiveQueue_make pd) (fun q => SharedReceiveQueue_destroy (Some q)) (fun q =>
  do! post_receive_buffers receiveBufferCount in
  ret (Device pd mr q false)))).

Definition DeviceContext_destroy (d : device) : St world unit :=
  do! SharedReceiveQueue_destroy (Some (mReceiveQueue d)) in
  do! AllocatedMemoryRegion_destroy (Some (mReceiveData d)) in
  ProtectionDomain_destroy (Some (mProtectionDomain d)).

Definition DeviceContext_shutdown (d : device) : device :=
  if d_shutdown d then d else Device (mProtectionDomain d) (mReceiveData d) (mReceiveQueue d) true.

(** Shared pointers to a device, named by the number of the call after which it was made. *)
Definition make_shared (receiveBufferCount : nat) : St world nat :=
  let! d := DeviceContext_make receiveBufferCount in
  let! w := get in
  do! wmod (set_shared (<[calls w := (d, 1%nat)]> (shared w))) in
  ret (calls w).
Definition shared_get (p : nat) : St world device :=
  let! w := get in match shared w !! p with Some (d, _) => ret d | None => ub end.
Definition shared_copy (p : nat) : St world unit :=
  let! w := get in
  match shared w !! p with
  | Some (d, n) => wmod (set_shared (<[p := (d, S n)]> (shared w)))
  | None => ub
  end.
Definition shared_release (p : nat) : St world unit :=
  let! w := get in
  match shared w !! p with
  | Some (d, S (S n)) => wmod (set_shared (<[p := (d, S n)]> (shared w)))
  | Some (d, _) => do! wmod (set_shared (delete p (shared w))) in DeviceContext_destroy d
  | None => ub
  end.

(** ** [EventProcessor] and the task queues *)

Definition EventProcessor_make : St world nat :=
  let! e := create KEpoll [] in
  do! wmod (fun w => set_processors (<[e := EventProcessor [] [] false false]> (processors w)) w) in
  ret e.

Definition get_processor (e : nat) : St world event_processor :=
  let! w := get in match processors w !! e with Some p => ret p | None => ub end.
Definition put_processor (e : nat) (p : event_processor) : St world unit :=
  wmod (fun w => set_processors (<[e := p]> (processors w)) w).

(** [mPollThread.join()]; [NoFuel] stands for the wait for a thread that does not end. *)
Definition join (e : nat) : St world unit := if sys_joins e then ret tt else nofuel.

(** [~EventProcessor()]: the flag is set, the descriptor closed and the thread joined when it runs. *)
Definition EventProcessor_destroy (e : nat) : St world unit :=
  let! p := get_processor e in
  do! put_processor e (EventProcessor (mPoller p) (watched p) (running p) true) in
  let! ok := release e in
  do! (if ok : bool then ret tt else log_error e) in
  do! (if running p then join e else ret tt) in
  wmod (fun w => set_processors (delete e (processors w)) w).

(** [fd] is [None] for -1. *)
Definition registerPoll (e : nat) (fd : handle) (poll : poller) : St world unit :=
  do! (match fd with
       | None => ret tt
       | Some fd =>
           do! sys_check in
           let! p := get_processor e in
           put_processor e (EventProcessor (mPoller p) (watched p ++ [fd]) (running p) (e_shutdown p))
       end) in
  let! p := get_processor e in
  put_processor e (EventProcessor (mPoller p ++ [poll]) (watched p) (running p) (e_shutdown p)).

(** [mPoller.erase(std::find(...))] *)
Fixpoint erase_poller (poll : poller) (l : list poller) : option (list poller) :=
  match l with
  | [] => None
  | x :: l => if bool_decide (x = poll) then Some l else cons x <$> erase_poller poll l
  end.
Definition deregisterPoll (e : nat) (fd : handle) (poll : poller) : St world unit :=
  let! p := get_processor e in
  match erase_poller poll (mPoller p) with
  | None => ret tt
  | Some l =>
      do! put_processor e (EventProcessor l (watched p) (running p) (e_shutdown p)) in
      match fd with
      | None => ret tt
      | Some fd =>
          if sys_unwatch (watched p) fd
          then put_processor e (EventProcessor l (filter (fun x => x <> fd) (watched p)) (running p) (e_shutdown p))
          else let! w := get in throw (SystemError (sys_errno (calls w)))
      end
  end.

(** [std::thread] may fail to start. *)
Definition start (e : nat) : St world unit :=
  let! p := get_processor e in
  if running p then throw RuntimeError
  else
    do! sys_check in
    put_processor e (EventProcessor (mPoller p) (watched p) true (e_shutdown p)).

Definition LocalTaskQueue_make (e : nat) : St world unit := registerPoll e None PollLocal.
Definition LocalTaskQueue_destroy (e : nat) : St world unit :=
  catch (deregisterPoll e None PollLocal) (log_error e).

(** The descriptor is an [int]: nothing closes it when [registerPoll] throws. *)
Definition TaskQueue_make (e : nat) : St world nat :=
  let! fd := create KEventFd [] in
  do! registerPoll e (Some fd) PollTasks in
  ret fd.
Definition TaskQueue_destroy (e fd : nat) : St world unit :=
  do! catch (deregisterPoll e (Some fd) PollTasks) (log_error fd) in
  let! ok := release fd in
  if ok : bool then ret tt else log_error fd.

(** ** [CompletionContext] *)

Record completion_context := CompletionContext {
  mDevice : nat;
  mSendData : nat;
  mCompletionChannel : nat;
  mCompletionQueue : nat
}.

Definition CompletionContext_make (e device : nat) : St world completion_context :=
  guard (ret device) shared_release (fun device =>
  guard (let! d := shared_get device in AllocatedMemoryRegion_make (mProtectionDomain d))
        (fun mr => AllocatedMemoryRegion_destroy (Some mr)) (fun mr =>
  guard CompletionChannel_make (fun ch => CompletionChannel_destroy (Some ch)) (fun ch =>
  guard (CompletionQueue_make ch) (fun cq => CompletionQueue_destroy (Some cq)) (fun cq =>
  do! nonBlocking in
  do! registerPoll e (Some ch) PollCompletions in
  ret (CompletionContext device mr ch cq))))).

Definition CompletionContext_destroy (e : nat) (c : completion_context) : St world unit :=
  do! catch (deregisterPoll e (Some (mCompletionChannel c)) PollCompletions) (log_error (mCompletionChannel c)) in
  do! CompletionQueue_destroy (Some (mCompletionQueue c)) in
  do! CompletionChannel_destroy (Some (mCompletionChannel c)) in
  do! AllocatedMemoryRegion_destroy (Some (mSendData c)) in
  shared_release (mDevice c).

(** ** [InfinibandProcessor] *)

Record processor := Processor { mProcessor : nat; mInterrupt : nat; mContext : completion_context }.

(** A constructor that throws before the parameter [device] is moved releases it. *)
Definition with_parameter {A} (device : nat) (m : St world A) : St world A := fun w =>
  match m w with
  | Throw e w => match shared_release device w with Ok _ w => Throw e w | _ => UB end
  | r => r
  end.

Definition InfinibandProcessor_make (device : nat) : St world processor :=
  guard (with_parameter device EventProcessor_make) EventProcessor_destroy (fun e =>
  guard (with_parameter device (LocalTaskQueue_make e)) (fun _ => LocalTaskQueue_destroy e) (fun _ =>
  guard (with_parameter device (TaskQueue_make e)) (TaskQueue_destroy e) (fun fd =>
  guard (CompletionContext_make e device) (CompletionContext_destroy e) (fun c =>
  do! start e in
  ret (Processor e fd c))))).

Definition InfinibandProcessor_destroy (p : processor) : St world unit :=
  do! CompletionContext_destroy (mProcessor p) (mContext p) in
  do! TaskQueue_destroy (mProcessor p) (mInterrupt p) in
  do! LocalTaskQueue_destroy (mProcessor p) in
  EventProcessor_destroy (mProcessor p).

(** ** [InfinibandService] *)

Record service := Service { mChannel : handle; sv_device : handle; mShutdown : bool }.

(** [DeviceList]; [std::terminate] is undefined here.  [rdma_free_devices] reports no error: a list
    that nothing uses is always released. *)
Definition DeviceList_make : St world nat := create KDeviceList [].
Definition DeviceList_destroy (l : nat) : St world unit := handle_destroy (Some l).
Definition DeviceList_at (index : Z) : St world unit :=
  if sys_devices <=? index then throw OutOfRange else ret tt.

Definition InfinibandService_make (receiveBufferCount : nat) : St world service :=
  let! ch := try_create KEventChannel [] in
  match ch with
  | None => ret (Service None None false)
  | Some ch =>
      scoped DeviceList_make DeviceList_destroy (fun _ =>
        do! massert (sys_devices =? 1) in
        do! DeviceList_at 0 in
        let! d := make_shared receiveBufferCount in
        ret (Service (Some ch) (Some d) false))
  end.

Definition shutdown (s : service) : St world service :=
  if mShutdown s then ret s
  else
    do! (match sv_device s with
         | None => ret tt
         | Some p =>
             let! w := get in
             match shared w !! p with
             | Some (d, n) => wmod (set_shared (<[p := (DeviceContext_shutdown d, n)]> (shared w)))
             | None => ub
             end
         end) in
    match mChannel s with
    | None => ret (Service None (sv_device s) true)
    | Some ch =>
        let! ok := release ch in
        if ok : bool then ret (Service None (sv_device s) true)
        else do! log_error ch in ret (Service (Some ch) (sv_device s) true)
    end.

Definition InfinibandService_destroy (s : service) : St world unit :=
  let! s := shutdown s in
  match sv_device s with Some p => shared_release p | None => ret tt end.

(** [createProcessor]: the shared pointer is copied into the parameter. *)
Definition createProcessor (s : service) : St world processor :=
  match sv_device s with
  | Some p => do! shared_copy p in InfinibandProcessor_make p
  | None => ub
  end.
Definition registerMemoryRegion (s : service) (data : nat) : St world nat :=
  match sv_device s with
  | Some p => let! d := shared_get p in LocalMemoryRegion_make (mProtectionDomain d) data
  | None => ub
  end.
Definition allocateMemoryRegion (s : service) : St world nat :=
  match sv_device s with
  | Some p => let! d := shared_get p in AllocatedMemoryRegion_make (mProtectionDomain d)
  | None => ub
  end.

End Service.

