(* ===== verification/ServiceSpec.v ===== *)
(** Constructors and destructors of infinio's resources: what a constructor leaves behind, in
    which order destructors release, and the pieces of which the live objects consist. *)
From stdpp Require Import sets.
From S2P Require Import Prelude Service.

(** An object that no live object was created on can be released, and a descriptor that is
    watched can be taken out of epoll. *)
Class SystemLaws `{System} := {
  release_unused l h : is_Some (l !! h) -> (forall h' o, l !! h' = Some o -> h ∉ o_uses o) -> sys_release l h = true;
  unwatch_watched l fd : fd ∈ l -> sys_unwatch l fd = true
}.

Definition unused (h : nat) (l : gmap nat obj) : Prop := forall h' o, l !! h' = Some o -> h ∉ o_uses o.

(** Numbers of calls to come name nothing yet. *)
Record wf (w : world) : Prop := {
  wf_live h o : live w !! h = Some o -> (h < calls w)%nat /\ Forall (fun u => (u < calls w)%nat) (o_uses o);
  wf_processors e : is_Some (processors w !! e) -> (e < calls w)%nat
}.

Lemma wf_fresh w h : wf w -> (calls w <= h)%nat -> live w !! h = None.
Proof.
  intros [Hl _] Hh. destruct (live w !! h) as [o|] eqn:E; [|done]. destruct (Hl _ _ E). lia.
Qed.
Lemma wf_unused w h : wf w -> (calls w <= h)%nat -> unused h (live w).
Proof.
  intros [Hl _] Hh h' o Ho Hin. destruct (Hl _ _ Ho) as [_ Hf]. rewrite list.Forall_forall in Hf. specialize (Hf _ Hin). cbn in Hf. lia.
Qed.

Lemma unused_insert h n o l : unused h l -> h ∉ o_uses o -> unused h (<[n := o]> l).
Proof. intros Hu Ho h' o' [[<- <-]|[_ Hl]]%lookup_insert_Some; [done|by eapply Hu]. Qed.
Lemma unused_delete h n l : unused h l -> unused h (delete n l).
Proof. intros Hu h' o' [_ Hl]%lookup_delete_Some. by eapply Hu. Qed.
Lemma unused_union h k l : unused h k -> unused h l -> unused h (k ∪ l).
Proof. intros Hk Hl h' o' Hu. apply lookup_union_Some_raw in Hu as [Hu|[_ Hu]]; [by eapply Hk|by eapply Hl]. Qed.

(** What a constructor that threw has left behind: nothing, or one object that no destructor
    will see. *)
Inductive leak (c b : nat) : gmap nat obj -> Prop :=
  | leak_none : leak c b ∅
  | leak_one n k : (c <= n < b)%nat -> k = KMapping \/ k = KEventFd -> leak c b {[n := Obj k []]}.

Lemma leak_mono c b c' b' K : leak c b K -> (c' <= c)%nat -> (b <= b')%nat -> leak c' b' K.
Proof. intros [|n k Hn Hk] Hc Hb; constructor; [lia|done]. Qed.
Lemma leak_unused c b K h : leak c b K -> unused h K.
Proof. intros [|n k _ _] h' o'; [done|]. intros [<- <-]%lookup_singleton_Some. cbn. set_solver. Qed.
Lemma leak_fresh c b K h : leak c b K -> (h < c)%nat -> K !! h = None.
Proof. intros [|n k Hn _] Hh; [done|]. apply lookup_singleton_ne. lia. Qed.

(** From [w], a constructor was undone up to a leak; [s] are the shared pointers left. *)
Record undone (s : gmap nat (device * nat)) (w w' : world) : Prop := {
  un_live : exists K, leak (calls w) (calls w') K /\ live w' = K ∪ live w;
  un_processors : processors w' = processors w;
  un_logged : logged w' = logged w;
  un_calls : (calls w <= calls w')%nat;
  un_shared : shared w' = s
}.

(** ** Removing objects *)

Definition drop_all (hs : list nat) (l : gmap nat obj) : gmap nat obj := foldr delete l hs.

Lemma drop_lookup hs l i : drop_all hs l !! i = if decide (i ∈ hs) then None else l !! i.
Proof.
  unfold drop_all. induction hs as [|h hs IH]; cbn; [done|]. destruct (decide (i = h)) as [->|Hne].
  - rewrite lookup_delete_eq. by rewrite decide_True by set_solver.
  - rewrite lookup_delete_ne, IH by done. destruct (decide (i ∈ hs)); [by rewrite decide_True by set_solver|].
    by rewrite decide_False by set_solver.
Qed.
Lemma drop_lookup_ne hs l i : i ∉ hs -> drop_all hs l !! i = l !! i.
Proof. intros Hi. by rewrite drop_lookup, decide_False. Qed.
Lemma drop_unused hs l i : (forall h o, l !! h = Some o -> i ∈ o_uses o -> h ∈ hs) -> unused i (drop_all hs l).
Proof.
  intros Hu h o Ho Hin. rewrite drop_lookup in Ho. destruct (decide (h ∈ hs)) as [|Hn]; [done|]. by apply Hn, (Hu h o).
Qed.

Lemma drop_app hs hs' l : drop_all hs (drop_all hs' l) = drop_all (hs ++ hs') l.
Proof. unfold drop_all. by rewrite foldr_app. Qed.

#[local] Arguments release : simpl never.
#[local] Arguments create : simpl never.
#[local] Arguments sys_check : simpl never.
#[local] Arguments shared_release : simpl never.

Section Spec.
Context `{SystemLaws}.

Lemma release_run h o w : live w !! h = Some o -> unused h (live w) ->
  release h w = Ok true (set_live (delete h (live w)) w).
Proof.
  intros Ho Hu. unfold release, bind, get. rewrite Ho. rewrite release_unused; [done|by eauto|done].
Qed.
Lemma handle_destroy_run h o w : live w !! h = Some o -> unused h (live w) ->
  handle_destroy (Some h) w = Ok tt (set_live (delete h (live w)) w).
Proof. intros Ho Hu. cbn. unfold bind. by rewrite (release_run _ _ _ Ho Hu). Qed.

Lemma allocated_destroy_run mr data o u w :
  live w !! mr = Some (Obj (KMemoryRegion data) u) -> live w !! data = Some o -> mr <> data ->
  unused mr (live w) -> unused data (live w) ->
  AllocatedMemoryRegion_destroy (Some mr) w = Ok tt (set_live (delete data (delete mr (live w))) w).
Proof.
  intros Hmr Hd Hne Hu1 Hu2. cbn. unfold bind, region_data. unfold bind at 1. unfold get at 1. rewrite Hmr. cbn.
  rewrite (release_run _ _ _ Hmr Hu1). cbn. rewrite (release_run data o).
  - done.
  - cbn. by rewrite lookup_delete_ne.
  - cbn. by apply unused_delete.
Qed.

(** ** Constructors *)

Lemma wpx_create k u w (Q : nat -> world -> Prop) (X : exn -> world -> Prop) :
  Q (calls w) (set_live (<[calls w := Obj k u]> (live w)) (set_calls (S (calls w)) w)) ->
  X (SystemError (sys_errno (calls w))) (set_calls (S (calls w)) w) ->
  wpx (create k u) w Q X.
Proof. intros HQ HX. unfold wpx, create, bind, sys. destruct (sys_ok (calls w)); [exact HQ|exact HX]. Qed.

Lemma wpx_check w (Q : unit -> world -> Prop) (X : exn -> world -> Prop) :
  Q tt (set_calls (S (calls w)) w) -> X (SystemError (sys_errno (calls w))) (set_calls (S (calls w)) w) ->
  wpx sys_check w Q X.
Proof. intros HQ HX. unfold wpx, sys_check, bind, sys. destruct (sys_ok (calls w)); [exact HQ|exact HX]. Qed.

Lemma wpx_guard {A B} (m : St world A) d (k : A -> St world B) w Q X :
  wpx m w (fun a w1 => wpx (k a) w1 Q (fun e w2 => wp (d a) w2 (fun _ w3 => X e w3))) X -> wpx (guard m d k) w Q X.
Proof.
  unfold wpx, wp, guard. destruct (m w) as [a w1| | |]; try done. destruct (k a w1) as [|e w2| |]; try done.
  by destruct (d a w2).
Qed.

Lemma wpx_parameter {A} p (m : St world A) w Q X :
  wpx m w Q (fun e w1 => wp (shared_release p) w1 (fun _ w2 => X e w2)) -> wpx (with_parameter p m) w Q X.
Proof.
  unfold wpx, wp, with_parameter. destruct (m w) as [|e w1| |]; try done. by destruct (shared_release p w1).
Qed.

(** The world after a successful creation *)
Definition made (k : kind) (u : list nat) (w : world) : world :=
  set_live (<[calls w := Obj k u]> (live w)) (set_calls (S (calls w)) w).
Definition tick (w : world) : world := set_calls (S (calls w)) w.

Lemma wf_tick w n : wf w -> (calls w <= n)%nat -> wf (set_calls n w).
Proof.
  intros [Hl Hp] Hn. split; cbn.
  - intros h o Ho. destruct (Hl _ _ Ho) as [? Hf]. split; [lia|]. eapply list.Forall_impl; [exact Hf|]. cbn. lia.
  - intros e He. specialize (Hp e He). lia.
Qed.
Lemma wf_made k u w : wf w -> Forall (fun x => (x < calls w)%nat) u -> wf (made k u w).
Proof.
  intros Hw Hu. destruct (wf_tick w (S (calls w)) Hw) as [Hl Hp]; [lia|]. split; [|exact Hp]. cbn in Hl |- *.
  intros h o [[<- <-]|[_ Ho]]%lookup_insert_Some; [|by apply Hl]. split; [lia|]. cbn.
  eapply list.Forall_impl; [exact Hu|]. cbn. lia.
Qed.

Lemma undone_tick w n : (calls w <= n)%nat -> undone (shared w) w (set_calls n w).
Proof. intros Hn. split; cbn; try done. exists ∅. split; [constructor|]. by rewrite map_empty_union. Qed.

Lemma undone_next w : undone (shared w) w (tick w).
Proof. apply undone_tick. lia. Qed.

Lemma undone_later s w n w' : (calls w <= n)%nat -> undone s (set_calls n w) w' -> undone s w w'.
Proof.
  intros Hn [(K & HK & Hl) Hp Hg Hc Hs]. cbn in *. split; cbn; try done; [|lia].
  exists K. split; [|done]. by apply (leak_mono n (calls w')).
Qed.

(** The destructor of the last object made undoes its constructor. *)
Lemma undone_made s k u w w' : wf w -> Forall (fun x => (x < calls w)%nat) u -> undone s (made k u w) w' ->
  wp (handle_destroy (Some (calls w))) w' (fun _ w2 => undone s w w2).
Proof.
  intros Hw Hu [(K & HK & Hl) Hp Hg Hc Hs]. cbn in *.
  assert (K !! calls w = None) as HKc by (apply (leak_fresh _ _ _ _ HK); lia).
  assert (calls w ∉ u) as Hcu by (intros Hin; rewrite list.Forall_forall in Hu; specialize (Hu _ Hin); cbn in Hu; lia).
  eapply wp_ok; [apply (handle_destroy_run _ (Obj k u))|].
  - rewrite Hl, lookup_union_r by done. apply lookup_insert_eq.
  - rewrite Hl. apply unused_union; [by eapply leak_unused|]. apply unused_insert; [by apply wf_unused|done].
  - split; cbn; try done; [|lia]. exists K. split; [apply (leak_mono (S (calls w)) (calls w')); [done|lia..]|].
    rewrite Hl, delete_union, delete_insert_id, delete_id by (done || by apply wf_fresh). done.
Qed.

(** The world after [AllocatedMemoryRegion_make] *)
Definition mapped (domain : nat) (w : world) : world := made (KMemoryRegion (calls w)) [domain] (made KMapping [] w).

Lemma wpx_allocated domain w (Q : nat -> world -> Prop) (X : exn -> world -> Prop) : wf w ->
  Q (S (calls w)) (mapped domain w) -> (forall e w', undone (shared w) w w' -> X e w') ->
  wpx (AllocatedMemoryRegion_make domain) w Q X.
Proof.
  intros Hw HQ HX. apply wpx_bind, wpx_create; [|apply HX, undone_tick; lia]. apply wpx_create; [exact HQ|]. apply HX.
  split; cbn; try done; [|lia]. exists {[calls w := Obj KMapping []]}. split; [constructor; [cbn; lia|by left]|].
  by rewrite insert_union_singleton_l.
Qed.

Lemma wf_mapped domain w : wf w -> (domain < calls w)%nat -> wf (mapped domain w).
Proof. intros Hw Hd. apply wf_made; [by apply wf_made|]. cbn. repeat constructor. lia. Qed.

Lemma undone_mapped s domain w w' : wf w -> (domain < calls w)%nat -> undone s (mapped domain w) w' ->
  wp (AllocatedMemoryRegion_destroy (Some (S (calls w)))) w' (fun _ w2 => undone s w w2).
Proof.
  intros Hw Hd [(K & HK & Hl) Hp Hg Hc Hs]. cbn in *.
  assert (forall h, (h < S (S (calls w)))%nat -> K !! h = None) as HKc by (intros; by apply (leak_fresh _ _ _ _ HK)).
  assert (live w !! calls w = None) as Hf0 by (by apply wf_fresh).
  assert (live w !! S (calls w) = None) as Hf1 by (apply wf_fresh; [done|lia]).
  eapply wp_ok; [apply (allocated_destroy_run _ (calls w) (Obj KMapping []) [domain])|].
  - rewrite Hl, lookup_union_r by (apply HKc; lia). apply lookup_insert_eq.
  - rewrite Hl, lookup_union_r by (apply HKc; lia). rewrite lookup_insert_ne by lia. apply lookup_insert_eq.
  - lia.
  - rewrite Hl. apply unused_union; [by eapply leak_unused|]. repeat apply unused_insert; cbn; [by apply wf_unused; [|lia]|set_solver|].
    intros ?%list_elem_of_singleton. lia.
  - rewrite Hl. apply unused_union; [by eapply leak_unused|]. repeat apply unused_insert; cbn; [by apply wf_unused|set_solver|].
    intros ?%list_elem_of_singleton. lia.
  - split; cbn; try done; [|lia]. exists K. split; [apply (leak_mono (S (S (calls w))) (calls w')); [done|lia..]|].
    rewrite Hl, !delete_union, !(delete_id K) by (rewrite ?lookup_delete_ne by lia; apply HKc; lia).
    rewrite delete_insert_id by (by rewrite lookup_insert_ne by lia). by rewrite delete_insert_id.
Qed.

Lemma post_run n w : wpx (post_receive_buffers n) w (fun _ w' => exists m, (calls w <= m)%nat /\ w' = set_calls m w)
  (fun _ w' => exists m, (calls w <= m)%nat /\ w' = set_calls m w).
Proof.
  revert w. induction n as [|n IH]; intros w; cbn; [exists (calls w); split; [lia|by destruct w]|].
  apply wpx_bind, wpx_check; [|exists (S (calls w)); split; [lia|done]].
  eapply wpx_mono; [apply IH| |]; cbn; intros _ w' (m & Hm & ->); exists m; (split; [lia|done]).
Qed.

(** The objects of a device whose protection domain is [c]. *)
Definition device_world (w : world) : world :=
  made KReceiveQueue [calls w] (mapped (calls w) (made KProtectionDomain [] w)).
Definition device_at (c : nat) : device := Device c (S (S c)) (S (S (S c))) false.

Lemma wf_device w : wf w -> wf (device_world w).
Proof.
  intros Hw. apply wf_made; [apply wf_mapped; [by apply wf_made|cbn; lia]|]. constructor; [cbn; lia|done].
Qed.

Lemma device_make n w : wf w ->
  wpx (DeviceContext_make n) w
    (fun d w' => d = device_at (calls w) /\ exists m, (S (S (S (S (calls w)))) <= m)%nat /\ w' = set_calls m (device_world w))
    (fun _ w' => undone (shared w) w w').
Proof.
  intros Hw. assert (wf (made KProtectionDomain [] w)) as Hw1 by (by apply wf_made).
  apply wpx_guard, wpx_create; [|apply undone_tick; lia]. fold (made KProtectionDomain [] w).
  apply wpx_guard, wpx_allocated; [done| |intros e w' Hun; by apply (undone_made _ KProtectionDomain [])].
  assert (wf (mapped (calls w) (made KProtectionDomain [] w))) as Hw2 by (apply wf_mapped; [done|cbn; lia]).
  assert (forall w', undone (shared w) (mapped (calls w) (made KProtectionDomain [] w)) w' ->
    wp (AllocatedMemoryRegion_destroy (Some (S (calls (made KProtectionDomain [] w))))) w'
      (fun _ w3 => wp (handle_destroy (Some (calls w))) w3 (fun _ w4 => undone (shared w) w w4))) as Hback.
  { intros w' Hun. eapply wp_mono; [apply (undone_mapped (shared w) (calls w)); [done|cbn; lia|exact Hun]|].
    intros ? w3 H3. by apply (undone_made _ KProtectionDomain []). }
  apply wpx_guard, wpx_create; [|apply Hback; exact (undone_next (mapped (calls w) (made KProtectionDomain [] w)))].
  apply wpx_bind. eapply wpx_mono; [apply post_run| |].
  - intros _ w' (m & Hm & ->). cbn in Hm. split; [done|]. exists m. split; [lia|]. done.
  - intros e w' (m & Hm & ->). cbn in Hm. eapply wp_mono; [apply (undone_made (shared w) KReceiveQueue [calls w]); [done| |]|].
    + constructor; [cbn; lia|done].
    + exact (undone_tick (device_world w) m ltac:(cbn; lia)).
    + intros ? w3 H3. by apply Hback.
Qed.

(** ** Pollers *)

Definition polls (e : nat) (p : event_processor) (w : world) : world := set_processors (<[e := p]> (processors w)) w.

Lemma wf_polls e p w : wf w -> (e < calls w)%nat -> wf (polls e p w).
Proof.
  intros [Hl Hp] He. split; [exact Hl|]. cbn. intros e' [q [[<- _]|[_ Hq]]%lookup_insert_Some]; [done|]. apply Hp. by eexists.
Qed.

Lemma undone_polls s e p p' w w' : undone s (polls e p w) w' -> undone s (polls e p' w) (polls e p' w').
Proof.
  intros [Hl Hp Hg Hc Hs]. split; [exact Hl| |exact Hg|exact Hc|exact Hs]. cbn in *. by rewrite Hp, insert_insert_eq.
Qed.

Lemma undone_lookup s e p w w' : undone s (polls e p w) w' -> processors w' !! e = Some p.
Proof. intros [_ Hp _ _ _]. rewrite Hp. apply lookup_insert_eq. Qed.

Lemma polls_polls e p p' w : polls e p' (polls e p w) = polls e p' w.
Proof. unfold polls. cbn. by rewrite insert_insert_eq. Qed.

Lemma get_processor_run e p w : processors w !! e = Some p -> get_processor e w = Ok p w.
Proof. intros Hp. unfold get_processor, bind, get. by rewrite Hp. Qed.

Lemma register_local e w l ws r poll : processors w !! e = Some (EventProcessor l ws r false) ->
  registerPoll e None poll w = Ok tt (polls e (EventProcessor (l ++ [poll]) ws r false) w).
Proof.
  intros Hp. unfold registerPoll, bind, ret, get_processor at 1, bind, get. by rewrite Hp.
Qed.

Lemma register_watch e fd w l ws r poll Q X : processors w !! e = Some (EventProcessor l ws r false) ->
  Q tt (polls e (EventProcessor (l ++ [poll]) (ws ++ [fd]) r false) (tick w)) ->
  X (SystemError (sys_errno (calls w))) (tick w) ->
  wpx (registerPoll e (Some fd) poll) w Q X.
Proof.
  intros Hp HQ HX. apply wpx_bind, wpx_bind, wpx_check; [|exact HX].
  eapply wpx_ok; [|].
  { unfold bind. rewrite (get_processor_run e _ (set_calls (S (calls w)) w) Hp). reflexivity. }
  eapply wpx_ok; [|exact HQ].
  unfold bind. erewrite get_processor_run by (cbn; apply lookup_insert_eq). exact (f_equal (Ok tt) (polls_polls e _ _ (tick w))).
Qed.

Lemma deregister_watch e fd poll w l l' ws r : processors w !! e = Some (EventProcessor l ws r false) ->
  erase_poller poll l = Some l' -> fd ∈ ws ->
  deregisterPoll e (Some fd) poll w = Ok tt (polls e (EventProcessor l' (filter (fun x => x <> fd) ws) r false) w).
Proof.
  intros Hp Hl Hfd. unfold deregisterPoll, bind at 1. rewrite (get_processor_run _ _ _ Hp). cbn [mPoller watched running].
  rewrite Hl. unfold bind. cbn. rewrite unwatch_watched by done. exact (f_equal (Ok tt) (polls_polls e _ _ w)).
Qed.
Lemma deregister_local e poll w l l' ws r : processors w !! e = Some (EventProcessor l ws r false) ->
  erase_poller poll l = Some l' ->
  deregisterPoll e None poll w = Ok tt (polls e (EventProcessor l' ws r false) w).
Proof.
  intros Hp Hl. unfold deregisterPoll, bind at 1. rewrite (get_processor_run _ _ _ Hp). cbn [mPoller watched running]. by rewrite Hl.
Qed.

Lemma catch_ok m h w w' : m w = Ok tt w' -> catch m h w = Ok tt w'.
Proof. unfold catch. by intros ->. Qed.

(** ** Undoing the parts of a processor *)

Definition idle : event_processor := EventProcessor [] [] false false.

Lemma undone_processor s w w' : wf w -> undone s (polls (calls w) idle (made KEpoll [] w)) w' ->
  wp (EventProcessor_destroy (calls w)) w' (fun _ w2 => undone s w w2).
Proof.
  intros Hw Hun. assert (undone s (made KEpoll [] w) (set_processors (processors w) w')) as Hm.
  { destruct Hun as [Hl Hp Hg Hc Hs]. by split. }
  pose proof (undone_made s KEpoll [] w _ Hw (Forall_nil_2 _) Hm) as Hd. unfold wp in Hd |- *.
  unfold handle_destroy, EventProcessor_destroy, bind in Hd |- *.
  destruct Hun as [(K & HK & Hl) Hp Hg Hc Hs]. cbn in *.
  assert (K !! calls w = None) as HKc by (apply (leak_fresh _ _ _ _ HK); lia).
  assert (live w' !! calls w = Some (Obj KEpoll [])) as Hc1 by (rewrite Hl, lookup_union_r by done; apply lookup_insert_eq).
  assert (unused (calls w) (live w')) as Hu1.
  { rewrite Hl. apply unused_union; [by eapply leak_unused|]. apply unused_insert; [by apply wf_unused|cbn; set_solver]. }
  rewrite (release_run _ _ (set_processors (processors w) w') Hc1 Hu1) in Hd.
  assert (processors w' !! calls w = Some idle) as Hidle by (rewrite Hp; apply lookup_insert_eq).
  unfold get_processor, bind, get, put_processor, wmod. rewrite Hidle. unfold ret at 1. cbn [mPoller watched running idle].
  rewrite (release_run _ _ (set_processors (<[calls w := EventProcessor [] [] false true]> (processors w')) w') Hc1 Hu1).
  cbn in Hd |- *. destruct Hd as [Hl2 Hp2 Hg2 Hc2 Hs2]. split; try done. cbn.
  rewrite Hp, insert_insert_eq. apply delete_insert_id. destruct (processors w !! calls w) eqn:E; [|done].
  assert (calls w < calls w)%nat; [|lia]. apply (wf_processors w Hw). by eexists.
Qed.

Lemma undone_release s p d n w w' : undone s w w' -> s !! p = Some (d, S (S n)) ->
  wp (shared_release p) w' (fun _ w2 => undone (<[p := (d, S n)]> s) w w2).
Proof.
  intros [Hl Hp Hg Hc Hs] Hsp. unfold wp, shared_release, bind, get. rewrite Hs, Hsp. cbn. by split.
Qed.

(** The memory, channel and queue of a completion context *)
Definition context_world (domain : nat) (w : world) : world :=
  made KCompletionQueue [S (S (calls w))] (made KCompletionChannel [] (mapped domain w)).
Definition context_at (device c : nat) : completion_context := CompletionContext device (S c) (S (S c)) (S (S (S c))).

Lemma wf_context domain w : wf w -> (domain < calls w)%nat -> wf (context_world domain w).
Proof.
  intros Hw Hd. apply wf_made; [apply wf_made; [by apply wf_mapped|done]|]. constructor; [cbn; lia|done].
Qed.

Lemma undone_context {A} s domain w w' (k : St world A) Q : wf w -> (domain < calls w)%nat ->
  undone s (context_world domain w) w' -> (forall w2, undone s w w2 -> wp k w2 Q) ->
  wp (do! handle_destroy (Some (S (S (S (calls w))))) in
      do! handle_destroy (Some (S (S (calls w)))) in
      do! AllocatedMemoryRegion_destroy (Some (S (calls w))) in k) w' Q.
Proof.
  intros Hw Hd Hun Hk. assert (wf (mapped domain w)) as Hw1 by (by apply wf_mapped).
  assert (wf (made KCompletionChannel [] (mapped domain w))) as Hw2 by (by apply wf_made).
  apply wp_bind. eapply wp_mono; [apply (undone_made s KCompletionQueue [S (S (calls w))] _ _ Hw2); [|exact Hun]|].
  { constructor; [cbn; lia|done]. }
  intros ? w1 H1. apply wp_bind. eapply wp_mono; [apply (undone_made s KCompletionChannel [] _ _ Hw1 (Forall_nil_2 _) H1)|].
  intros ? w2 H2. apply wp_bind. eapply wp_mono; [by apply (undone_mapped s domain)|]. intros ? w3 H3. by apply Hk.
Qed.

(** ** The processor *)
Section Processor.
Context (w : world) (p : nat) (d : device) (n : nat).
Context (Hw : wf w) (Hp : shared w !! p = Some (d, S (S n))) (Hd : (mProtectionDomain d < calls w)%nat).

Let e : nat := calls w.
Let fd : nat := S (calls w).
Let s' : gmap nat (device * nat) := <[p := (d, S n)]> (shared w).
Let ep (l : list poller) (ws : list nat) (r : bool) : event_processor := EventProcessor l ws r false.

(** The worlds after each member *)
Definition stage1 : world := polls (calls w) idle (made KEpoll [] w).
Definition stage2 : world := polls (calls w) (EventProcessor [PollLocal] [] false false) (made KEpoll [] w).
Definition stage3_base : world := tick (made KEventFd [] (made KEpoll [] w)).
Definition stage3 : world := polls (calls w) (EventProcessor [PollLocal; PollTasks] [S (calls w)] false false) stage3_base.

Lemma wf_stage3 : wf stage3.
Proof.
  apply wf_polls; [|cbn; lia]. apply (wf_tick (made KEventFd [] (made KEpoll [] w))); [|cbn; lia]. apply wf_made; [|done]. by apply wf_made.
Qed.

Lemma back1 s w' : undone s stage1 w' -> wp (EventProcessor_destroy e) w' (fun _ w2 => undone s w w2).
Proof. apply undone_processor. exact Hw. Qed.

Lemma back2 s w' : undone s stage2 w' ->
  wp (LocalTaskQueue_destroy e) w' (fun _ w2 => wp (EventProcessor_destroy e) w2 (fun _ w3 => undone s w w3)).
Proof.
  intros Hun. eapply wp_ok; [apply catch_ok; eapply deregister_local; [by eapply undone_lookup|reflexivity]|].
  apply back1. by apply (undone_polls _ _ _ idle) in Hun.
Qed.

Lemma filter_out (x : nat) : filter (fun y => y <> x) [x] = [].
Proof. rewrite filter_cons_False; [done|]. auto. Qed.

Lemma back3 s w' : undone s stage3 w' ->
  wp (TaskQueue_destroy e fd) w' (fun _ w1 => wp (LocalTaskQueue_destroy e) w1 (fun _ w2 =>
    wp (EventProcessor_destroy e) w2 (fun _ w3 => undone s w w3))).
Proof.
  intros Hun. apply wp_bind. eapply wp_ok.
  { apply catch_ok. eapply deregister_watch with (l' := [PollLocal]); [by eapply undone_lookup|reflexivity|set_solver]. }
  rewrite filter_out. apply (undone_polls _ _ _ (EventProcessor [PollLocal] [] false false)) in Hun.
  apply (undone_later s (polls e (EventProcessor [PollLocal] [] false false) (made KEventFd [] (made KEpoll [] w)))) in Hun; [|cbn; lia].
  eapply wp_mono; [apply (undone_made s KEventFd [] stage2)|].
  - apply wf_polls; [by apply wf_made|cbn; lia].
  - done.
  - exact Hun.
  - intros ? w1 H1. by apply back2.
Qed.

Lemma filter_last (x y : nat) : x <> y -> filter (fun z => z <> y) [x; y] = [x].
Proof. intros Hne. by rewrite filter_cons_True, filter_out by done. Qed.

(** The world when all members are there, and when the thread runs *)
Definition stage4 (r : bool) (m : nat) : world :=
  polls (calls w) (EventProcessor [PollLocal; PollTasks; PollCompletions] [S (calls w); S (S (S (S (S (calls w)))))] r false)
    (set_calls m (context_world (mProtectionDomain d) stage3_base)).
Definition processor_at : processor := Processor (calls w) (S (calls w)) (context_at p (S (S (S (calls w))))).

Lemma back4 r m w' : (7 + calls w <= m)%nat -> undone (shared w) (stage4 r m) w' ->
  wp (CompletionContext_destroy e (mContext processor_at)) w' (fun _ w2 =>
    undone s' (polls e (EventProcessor [PollLocal; PollTasks] [fd] r false) stage3_base) w2).
Proof.
  intros Hm Hun. unfold processor_at, context_at, CompletionContext_destroy.
  cbn [mContext mCompletionChannel mCompletionQueue mSendData mDevice]. apply wp_bind. eapply wp_ok.
  { apply catch_ok. eapply deregister_watch with (l' := [PollLocal; PollTasks]); [by eapply undone_lookup|reflexivity|cbn; set_solver]. }
  rewrite filter_last by lia. apply (undone_polls _ _ _ (EventProcessor [PollLocal; PollTasks] [fd] r false)) in Hun.
  apply (undone_later (shared w) (context_world (mProtectionDomain d) (polls e (EventProcessor [PollLocal; PollTasks] [fd] r false) stage3_base))) in Hun;
    [|cbn; lia].
  eapply (undone_context (shared w) (mProtectionDomain d) (polls e (EventProcessor [PollLocal; PollTasks] [fd] r false) stage3_base));
    [|cbn; lia|exact Hun|].
  - apply wf_polls; [|cbn; lia]. apply (wf_tick (made KEventFd [] (made KEpoll [] w))); [|cbn; lia]. apply wf_made; [by apply wf_made|done].
  - intros w2 H2. by apply (undone_release (shared w) p d n).
Qed.

Lemma context_make : wpx (CompletionContext_make e p) stage3
  (fun c w' => c = mContext processor_at /\ w' = stage4 false (10 + calls w)) 
  (fun _ w' => undone s' stage3 w').
Proof.
  pose proof wf_stage3 as Hw3. set (pd := mProtectionDomain d).
  assert (forall w2, undone (shared w) stage3 w2 -> wp (shared_release p) w2 (fun _ w3 => undone s' stage3 w3)) as HbA
    by (intros w2 H2; by apply (undone_release (shared w) p d n)).
  assert (forall w2, undone (shared w) (mapped pd stage3) w2 -> wp (AllocatedMemoryRegion_destroy (Some (S (calls stage3)))) w2
    (fun _ w3 => wp (shared_release p) w3 (fun _ w4 => undone s' stage3 w4))) as HbB.
  { intros w2 H2. eapply wp_mono; [apply (undone_mapped (shared w) pd stage3 w2 Hw3); [cbn; unfold pd; lia|done]|]. intros ? w3 H3. by apply HbA. }
  assert (wf (mapped pd stage3)) as Hw4 by (apply wf_mapped; [done|cbn; unfold pd; lia]).
  assert (forall w2, undone (shared w) (made KCompletionChannel [] (mapped pd stage3)) w2 ->
    wp (handle_destroy (Some (calls (mapped pd stage3)))) w2 (fun _ w3 => wp (AllocatedMemoryRegion_destroy (Some (S (calls stage3)))) w3
    (fun _ w4 => wp (shared_release p) w4 (fun _ w5 => undone s' stage3 w5)))) as HbC.
  { intros w2 H2. eapply wp_mono; [by apply (undone_made (shared w) KCompletionChannel [])|]. intros ? w3 H3. by apply HbB. }
  assert (forall w2, undone (shared w) (context_world pd stage3) w2 ->
    wp (handle_destroy (Some (S (calls (mapped pd stage3))))) w2 (fun _ w3 =>
    wp (handle_destroy (Some (calls (mapped pd stage3)))) w3 (fun _ w4 => wp (AllocatedMemoryRegion_destroy (Some (S (calls stage3)))) w4
    (fun _ w5 => wp (shared_release p) w5 (fun _ w6 => undone s' stage3 w6))))) as HbD.
  { intros w2 H2. eapply wp_mono; [apply (undone_made (shared w) KCompletionQueue [S (S (calls stage3))] (made KCompletionChannel [] (mapped pd stage3)))|].
    - by apply wf_made.
    - constructor; [cbn; lia|done].
    - exact H2.
    - intros ? w3 H3. by apply HbC. }
  apply wpx_guard. eapply wpx_ok; [reflexivity|]. apply wpx_guard, wpx_bind. eapply wpx_ok.
  { unfold shared_get, bind, get. cbn [shared stage3 polls set_processors stage3_base tick set_calls made set_live].
    rewrite Hp. reflexivity. }
  apply wpx_allocated; [done| |intros ? w2 H2; by apply HbA].
  apply wpx_guard, wpx_create; [|apply HbB; exact (undone_next (mapped pd stage3))].
  apply wpx_guard, wpx_create; [|apply HbC; exact (undone_next (made KCompletionChannel [] (mapped pd stage3)))].
  apply wpx_bind, wpx_bind. eapply wpx_ok; [reflexivity|].
  apply wpx_check; [|apply HbD; apply (undone_tick (context_world pd stage3)); cbn; lia].
  apply wpx_bind. eapply register_watch; [apply lookup_insert_eq| |apply HbD; apply (undone_tick (context_world pd stage3)); cbn; lia].
  split; [done|].
  exact (polls_polls e (EventProcessor [PollLocal; PollTasks] [fd] false false) _
    (set_calls (10 + calls w)  (context_world pd stage3_base))).
Qed.

Lemma processor_make :
  wpx (InfinibandProcessor_make p) w
    (fun pr w' => pr = processor_at /\ w' = stage4 true (11 + calls w))
    (fun _ w' => undone s' w w').
Proof.
  assert (forall w1 w2, undone (shared w) w1 w2 -> wp (shared_release p) w2 (fun _ w3 => undone s' w1 w3)) as Hrel
    by (intros w1 w2 H2; by apply (undone_release (shared w) p d n)).
  apply wpx_guard, wpx_parameter, wpx_bind, wpx_create; [|apply Hrel, undone_next]. 
  eapply wpx_ok; [reflexivity|]. fold (polls (calls w) idle (made KEpoll [] w)). 
  apply wpx_guard, wpx_parameter. eapply wpx_ok; [apply register_local; apply lookup_insert_eq|].
  cbn [app]. replace (polls _ _ _) with stage2 by (symmetry; apply (polls_polls (calls w) idle _ (made KEpoll [] w))).
  apply wpx_guard, wpx_parameter, wpx_bind, wpx_create.
  2: { eapply wp_mono; [apply Hrel; exact (undone_next stage2)|]. intros ? w2 H2. by apply back2. }
  apply wpx_bind. eapply register_watch; [apply lookup_insert_eq| |].
  2: { eapply wp_mono; [apply (Hrel stage2)|intros ? w2 H2; by apply back2]. split; cbn; try done; [|lia].
       exists {[S (calls w) := Obj KEventFd []]}. split; [constructor; [cbn; lia|by right]|]. by rewrite insert_union_singleton_l. }
  cbn [app]. eapply wpx_ok; [reflexivity|].
  replace (polls _ _ _) with stage3 by (symmetry; apply (polls_polls (calls w) _ _ stage3_base)).
  apply wpx_guard. eapply wpx_mono; [exact context_make| |].
  - intros c w' [-> ->]. apply wpx_bind, wpx_bind. eapply wpx_ok; [apply get_processor_run, lookup_insert_eq|].
    cbn [running]. apply wpx_bind, wpx_check.
    + eapply wpx_ok; [reflexivity|]. split; [done|].
      exact (polls_polls (calls w) (EventProcessor [PollLocal; PollTasks; PollCompletions] [S (calls w); S (S (S (S (S (calls w)))))] false false) _
        (set_calls (11 + calls w) (context_world (mProtectionDomain d) stage3_base))).
    + eapply wp_mono; [apply (back4 false (11 + calls w)); [lia|]|].
      * apply (undone_later (shared w) _ (11 + calls w)); [cbn; lia|]. exact (undone_tick (stage4 false (11 + calls w)) (11 + calls w) ltac:(cbn; lia)).
      * intros ? w2 H2. by apply back3.
  - intros ? w' H'. by apply back3.
Qed.

End Processor.

(** ** Destructors, anywhere in the life of the service *)

(** The live objects contain those of a processor made at call [c]; only its own queue uses
    its channel, and nothing uses the others. *)
Record has_processor (c pd : nat) (l : gmap nat obj) : Prop := {
  hp_epoll : l !! c = Some (Obj KEpoll []);
  hp_event : l !! S c = Some (Obj KEventFd []);
  hp_map : l !! (3 + c)%nat = Some (Obj KMapping []);
  hp_mr : l !! (4 + c)%nat = Some (Obj (KMemoryRegion (3 + c)) [pd]);
  hp_channel : l !! (5 + c)%nat = Some (Obj KCompletionChannel []);
  hp_queue : l !! (6 + c)%nat = Some (Obj KCompletionQueue [(5 + c)%nat]);
  hp_uses h o u : l !! h = Some o -> u ∈ o_uses o -> u ∈ [c; S c; 3 + c; 4 + c; 5 + c; 6 + c]%nat -> h = (6 + c)%nat
}.

Definition running_processor (c : nat) (r : bool) : event_processor :=
  EventProcessor [PollLocal; PollTasks; PollCompletions] [S c; 5 + c]%nat r false.
Definition processor_of (p c : nat) : processor := Processor c (S c) (context_at p (3 + c)).

(** The live objects contain those of a device made at call [c], and only they use it. *)
Record has_device (c : nat) (l : gmap nat obj) : Prop := {
  hd_domain : l !! c = Some (Obj KProtectionDomain []);
  hd_map : l !! S c = Some (Obj KMapping []);
  hd_mr : l !! (2 + c)%nat = Some (Obj (KMemoryRegion (1 + c)) [c]);
  hd_queue : l !! (3 + c)%nat = Some (Obj KReceiveQueue [c]);
  hd_uses h o u : l !! h = Some o -> u ∈ o_uses o -> u ∈ [c; S c; 2 + c; 3 + c]%nat -> h ∈ [2 + c; 3 + c]%nat
}.

Definition is_device (c : nat) (d : device) : Prop := exists b, d = Device c (2 + c) (3 + c) b.

Lemma device_destroy_run c d l w : is_device c d -> has_device c l -> live w = l ->
  DeviceContext_destroy d w = Ok tt (set_live (drop_all [c; S c; 2 + c; 3 + c]%nat l) w).
Proof.
  intros [b ->] [H1 H2 H3 H4 Hu] <-. unfold DeviceContext_destroy, SharedReceiveQueue_destroy, ProtectionDomain_destroy, bind. cbn [mReceiveQueue mReceiveData mProtectionDomain].
  rewrite (handle_destroy_run _ _ _ H4).
  2: { intros h o Ho Hin. specialize (Hu h o _ Ho Hin). assert (h ∈ [2 + c; 3 + c]%nat) as Hh by set_solver.
       apply elem_of_cons in Hh as [->| ->%list_elem_of_singleton]; simplify_eq/=; apply list_elem_of_singleton in Hin; lia. }
  rewrite (allocated_destroy_run _ (1 + c) (Obj KMapping []) [c]).
  - cbv beta iota. rewrite (handle_destroy_run _ (Obj KProtectionDomain [])); [done| |].
    + cbn. rewrite !lookup_delete_ne by lia. done.
    + apply (drop_unused [1 + c; 2 + c; 3 + c]%nat). intros h o Ho Hin. specialize (Hu h o c Ho Hin). set_solver.
  - cbn. by rewrite lookup_delete_ne by lia.
  - cbn. by rewrite lookup_delete_ne by lia.
  - lia.
  - apply (drop_unused [3 + c]%nat). intros h o Ho Hin. assert (h ∈ [2 + c; 3 + c]%nat) as Hh by (apply (Hu h o (2 + c)%nat); set_solver).
    apply elem_of_cons in Hh as [->|Hh]; [|done]. simplify_eq/=. apply list_elem_of_singleton in Hin. lia.
  - apply (drop_unused [3 + c]%nat). intros h o Ho Hin. assert (h ∈ [2 + c; 3 + c]%nat) as Hh by (apply (Hu h o (1 + c)%nat); set_solver).
    apply elem_of_cons in Hh as [->|Hh]; [|done]. simplify_eq/=. apply list_elem_of_singleton in Hin. lia.
Qed.

(** The handles that go with the last reference to a device, and the references left *)
Definition freed (c n : nat) : list nat := if decide (n = 0)%nat then [c; S c; 2 + c; 3 + c]%nat else [].
Definition shared_after (p : nat) (d : device) (n : nat) (s : gmap nat (device * nat)) : gmap nat (device * nat) :=
  if decide (n = 0)%nat then delete p s else <[p := (d, n)]> s.

Lemma shared_release_run c p d n w : shared w !! p = Some (d, S n) ->
  is_device c d -> (n = 0%nat -> has_device c (live w)) ->
  shared_release p w =
    Ok tt (World (drop_all (freed c n) (live w)) (calls w) (processors w) (shared_after p d n (shared w)) (logged w)).
Proof.
  intros Hp Hd Hn. unfold shared_release, bind, get, freed, shared_after. rewrite Hp. destruct n as [|n]; cbn [decide].
  - destruct (decide (0 = 0)%nat); [|done]. cbn [wmod]. unfold wmod.
    rewrite (device_destroy_run c d (live w)); [done|done|by apply Hn|done].
  - destruct (decide (S n = 0)%nat); [done|]. done.
Qed.

(** The members of a processor that are destroyed before its [EventProcessor]. *)
Definition destroy_members (p : processor) : St world unit :=
  do! CompletionContext_destroy (mProcessor p) (mContext p) in
  do! TaskQueue_destroy (mProcessor p) (mInterrupt p) in
  LocalTaskQueue_destroy (mProcessor p).

Lemma destroy_split p w : InfinibandProcessor_destroy p w = (do! destroy_members p in EventProcessor_destroy (mProcessor p)) w.
Proof. unfold InfinibandProcessor_destroy, destroy_members, bind. by repeat case_match. Qed.

(** The destructor of a processor releases everything in an order the system accepts, and waits for the thread at the end. *)
Lemma processor_destroy_run c pd p r d n l w :
  has_processor c pd l -> live w = l -> processors w !! c = Some (running_processor c r) ->
  shared w !! p = Some (d, S n) -> is_device pd d -> (n = 0%nat -> has_device pd (drop_all [3 + c; 4 + c; 5 + c; 6 + c]%nat l)) ->
  (3 + pd < c)%nat ->
  InfinibandProcessor_destroy (processor_of p c) w =
    if r && negb (sys_joins c) then NoFuel
    else Ok tt (World (drop_all ([c; S c] ++ freed pd n ++ [3 + c; 4 + c; 5 + c; 6 + c]%nat) l) (calls w)
      (delete c (processors w)) (shared_after p d n (shared w)) (logged w)).
Proof.
  intros [H1 H2 H3 H4 H5 H6 Hu] <- Hproc Hp Hd Hn Hlt. 
  assert (forall hs u, u ∈ [c; S c; 3 + c; 4 + c; 5 + c; 6 + c]%nat -> (6 + c)%nat ∈ hs -> unused u (drop_all hs (live w))) as Hdrop.
  { intros hs u Hin H6in. apply drop_unused. intros h o Ho Huo. by rewrite (Hu h o u Ho Huo Hin). }
  assert (forall h, h ∈ [c; S c]%nat -> drop_all (freed pd n ++ [3 + c; 4 + c; 5 + c; 6 + c]%nat) (live w) !! h = live w !! h) as Hkeep.
  { intros h Hh. apply drop_lookup_ne. unfold freed. intros Hin. assert (h = c \/ h = S c) as Hc by set_solver. clear Hh.
    destruct (decide (n = 0%nat)); cbn in Hin; repeat (apply elem_of_cons in Hin as [Hin|Hin]; [lia|]); by apply elem_of_nil in Hin. }
  rewrite destroy_split. assert (wp (destroy_members (processor_of p c)) w (fun _ w' => w' =
    World (drop_all ([S c] ++ freed pd n ++ [3 + c; 4 + c; 5 + c; 6 + c]%nat) (live w)) (calls w)
      (<[c := EventProcessor [] [] r false]> (processors w)) (shared_after p d n (shared w)) (logged w))) as Hm.
  { apply wp_bind, wp_bind. eapply wp_ok.
  { apply catch_ok. eapply deregister_watch with (l' := [PollLocal; PollTasks]); [exact Hproc|reflexivity|cbn; set_solver]. }
  apply wp_bind. eapply wp_ok; [apply (handle_destroy_run _ (Obj KCompletionQueue [(5 + c)%nat])); [exact H6|]|].
  { intros h o Ho Hin. assert (h = 6 + c)%nat as -> by (apply (Hu h o _ Ho Hin); cbn; set_solver).
    cbn in Ho, H6. rewrite H6 in Ho. simplify_eq. apply list_elem_of_singleton in Hin. cbn in Hin. lia. }
  apply wp_bind. eapply wp_ok; [apply (handle_destroy_run _ (Obj KCompletionChannel []))|].
  { rewrite <-H5. apply (drop_lookup_ne [6 + c]%nat). cbn. intros ?%list_elem_of_singleton. lia. }
  { apply (Hdrop [6 + c]%nat); cbn; set_solver. }
  apply wp_bind. eapply wp_ok; [apply (allocated_destroy_run _ (3 + c) (Obj KMapping []) [pd])|].
  { rewrite <-H4. apply (drop_lookup_ne [5 + c; 6 + c]%nat). cbn. intros [?|?%list_elem_of_singleton]%elem_of_cons; lia. }
  { rewrite <-H3. apply (drop_lookup_ne [5 + c; 6 + c]%nat). cbn. intros [?|?%list_elem_of_singleton]%elem_of_cons; lia. }
  { cbn. lia. }
  { apply (Hdrop [5 + c; 6 + c]%nat); cbn; set_solver. }
  { apply (Hdrop [5 + c; 6 + c]%nat); cbn; set_solver. }
  eapply wp_ok; [apply (shared_release_run pd p d n); [exact Hp|exact Hd|exact Hn]|].
  change (delete _ (delete _ _)) with (drop_all [3 + c; 4 + c; 5 + c; 6 + c]%nat (live w)).
  cbn [live processors shared logged calls set_live polls set_processors]. rewrite drop_app.
  apply wp_bind, wp_bind. eapply wp_ok.
  { apply catch_ok. eapply deregister_watch with (l' := [PollLocal]); [apply lookup_insert_eq|reflexivity|].
    rewrite filter_last by lia. set_solver. }
  eapply wp_ok; [apply (handle_destroy_run _ (Obj KEventFd []))|].
  { cbn. rewrite Hkeep by set_solver. exact H2. }
  { apply Hdrop; set_solver. }
  eapply wp_ok; [apply catch_ok; eapply deregister_local; [apply lookup_insert_eq|reflexivity]|].
  unfold polls, set_processors, set_live. cbn [live calls processors shared logged app]. f_equal.
  change (mCompletionChannel (mContext (processor_of p c))) with (5 + c)%nat. change (mInterrupt (processor_of p c)) with (S c).
  rewrite filter_last, filter_out by lia. cbn [mProcessor processor_of]. by rewrite !insert_insert_eq. }
  apply wp_inv in Hm as ([] & w' & Hm & ->). unfold bind at 1. rewrite Hm. unfold EventProcessor_destroy, bind. cbn [mProcessor processor_of].
  rewrite (get_processor_run _ (EventProcessor [] [] r false)) by apply lookup_insert_eq. unfold put_processor, wmod.
  cbn [mPoller watched running]. rewrite (release_run _ (Obj KEpoll [])).
  - unfold join, ret, nofuel. destruct r, (sys_joins c); cbn; try done; by rewrite insert_insert_eq, delete_insert_eq.
  - cbn. rewrite lookup_delete_ne by lia. rewrite Hkeep by set_solver. exact H1.
  - cbn. apply unused_delete, Hdrop; set_solver.
Qed.

End Spec.
