(* ===== verification/ServiceLife.v ===== *)
(** The life of a service and its processors: the live objects are, at any time, those of the
    components that are alive. *)
From stdpp Require Import sets.
From S2P Require Import Prelude Service ServiceSpec.

(** ** Pieces *)

(** [assembled L ms M]: [M] is [L] and the pairwise disjoint pieces [ms]. *)
Inductive assembled (L : gmap nat obj) : list (gmap nat obj) -> gmap nat obj -> Prop :=
  | asm_nil : assembled L [] L
  | asm_cons m ms M : m ##ₘ M -> assembled L ms M -> assembled L (m :: ms) (m ∪ M).

Lemma assembled_remove L l1 m l2 M : assembled L (l1 ++ m :: l2) M ->
  exists R, M = m ∪ R /\ m ##ₘ R /\ assembled L (l1 ++ l2) R.
Proof.
  revert M. induction l1 as [|m1 l1 IH]; cbn; intros M HM; inversion HM as [|m' ms M' Hd HM' Heq]; subst.
  - by exists M'.
  - destruct (IH _ HM') as (R & -> & Hd' & HR). exists (m1 ∪ R).
    apply map_disjoint_union_r in Hd as [Hd1 Hd2]. split; [|split].
    + rewrite !(assoc_L (∪)). f_equal. by apply map_union_comm.
    + apply map_disjoint_union_r. by split.
    + by constructor.
Qed.

Lemma assembled_in L ms M h o : assembled L ms M -> M !! h = Some o -> L !! h = Some o \/ exists m, m ∈ ms /\ m !! h = Some o.
Proof.
  induction 1 as [|m ms M Hd _ IH]; intros Ho; [by left|].
  apply lookup_union_Some in Ho as [Ho|Ho]; [|destruct (IH Ho) as [?|(m' & ? & ?)]|done].
  - right. exists m. split; [set_solver|done].
  - by left.
  - right. exists m'. split; [set_solver|done].
Qed.

Lemma assembled_of L ms M m h o : assembled L ms M -> m ∈ ms -> m !! h = Some o -> M !! h = Some o.
Proof.
  induction 1 as [|m' ms M Hd _ IH]; [set_solver|]. intros [->|Hm]%elem_of_cons Ho.
  - by apply lookup_union_Some_l.
  - apply lookup_union_Some_r; [done|by apply IH].
Qed.

(** The objects of a processor made at call [c] for the domain [pd], and of a device *)
Definition proc_handles (c : nat) : list nat := [c; S c; 3 + c; 4 + c; 5 + c; 6 + c]%nat.
Definition proc_piece (pd c : nat) : gmap nat obj :=
  <[(6 + c)%nat := Obj KCompletionQueue [(5 + c)%nat]]> (<[(5 + c)%nat := Obj KCompletionChannel []]>
  (<[(4 + c)%nat := Obj (KMemoryRegion (3 + c)) [pd]]> (<[(3 + c)%nat := Obj KMapping []]>
  (<[S c := Obj KEventFd []]> {[c := Obj KEpoll []]})))).
Definition dev_handles (c : nat) : list nat := [c; S c; 2 + c; 3 + c]%nat.
Definition dev_piece (c : nat) : gmap nat obj :=
  <[(3 + c)%nat := Obj KReceiveQueue [c]]> (<[(2 + c)%nat := Obj (KMemoryRegion (1 + c)) [c]]>
  (<[S c := Obj KMapping []]> {[c := Obj KProtectionDomain []]})).
Definition channel_piece (ch : nat) : gmap nat obj := {[ch := Obj KEventChannel []]}.

(** Looks up a handle in a piece. *)
Ltac piece_lookup := repeat first [rewrite lookup_insert_eq; reflexivity | rewrite lookup_insert_ne by lia
  | rewrite lookup_singleton_eq; reflexivity | apply lookup_singleton_ne; lia].

Lemma proc_piece_dom pd c h : is_Some (proc_piece pd c !! h) <-> h ∈ proc_handles c.
Proof.
  unfold proc_piece, proc_handles. rewrite !lookup_insert_is_Some', lookup_singleton_is_Some. set_solver.
Qed.
Lemma dev_piece_dom c h : is_Some (dev_piece c !! h) <-> h ∈ dev_handles c.
Proof. unfold dev_piece, dev_handles. rewrite !lookup_insert_is_Some', lookup_singleton_is_Some. set_solver. Qed.

(** A piece uses only itself and the domain [pd]. *)
Definition closed (pd : nat) (m : gmap nat obj) : Prop :=
  forall h o u, m !! h = Some o -> u ∈ o_uses o -> u = pd \/ is_Some (m !! u).

Lemma proc_closed pd c : closed pd (proc_piece pd c).
Proof.
  intros h o u Ho Hu. unfold proc_piece in Ho.
  repeat (apply lookup_insert_Some in Ho as [[_ <-]|[_ Ho]]; [cbn in Hu; try set_solver|]).
  - apply list_elem_of_singleton in Hu as ->. right. apply proc_piece_dom. set_solver.
  - apply lookup_singleton_Some in Ho as [_ <-]. cbn in Hu. set_solver.
Qed.
Lemma dev_closed c : closed c (dev_piece c).
Proof.
  intros h o u Ho Hu. unfold dev_piece in Ho.
  repeat (apply lookup_insert_Some in Ho as [[_ <-]|[_ Ho]]; [cbn in Hu; try set_solver|]).
  apply lookup_singleton_Some in Ho as [_ <-]. cbn in Hu. set_solver.
Qed.
Lemma channel_closed pd ch : closed pd (channel_piece ch).
Proof. intros h o u Ho Hu. unfold channel_piece in Ho. apply lookup_singleton_Some in Ho as [_ <-]. cbn in Hu. set_solver. Qed.
Lemma leak_closed pd c b K : leak c b K -> closed pd K.
Proof.
  intros [|n k _ _] h o u Ho Hu; [done|]. apply lookup_singleton_Some in Ho as [_ <-]. cbn in Hu. set_solver.
Qed.

(** Removing the handles of a piece leaves the rest. *)
Lemma drop_piece hs m R : m ##ₘ R -> (forall h, is_Some (m !! h) <-> h ∈ hs) -> drop_all hs (m ∪ R) = R.
Proof.
  intros Hd Hdom. apply map_eq. intros i. rewrite drop_lookup. destruct (decide (i ∈ hs)) as [Hi|Hi].
  - apply Hdom in Hi as [o Ho]. symmetry. by eapply map_disjoint_Some_l.
  - assert (m !! i = None) as Hn by (apply eq_None_not_Some; by rewrite Hdom). by rewrite lookup_union_r.
Qed.
Lemma drop_ext hs hs' l : (forall i, i ∈ hs <-> i ∈ hs') -> drop_all hs l = drop_all hs' l.
Proof.
  intros Hi. apply map_eq. intros i. rewrite !drop_lookup. destruct (decide (i ∈ hs)) as [H|H], (decide (i ∈ hs')) as [H'|H'];
    try done; by apply Hi in H || by apply Hi in H'.
Qed.

(** In a state made of closed pieces, the objects of a processor are used by no others. *)
Lemma piece_processor w0 pd c ms M l1 l2 : wf w0 -> assembled (live w0) ms M -> ms = l1 ++ proc_piece pd c :: l2 ->
  Forall (closed pd) ms -> (pd < c)%nat -> (calls w0 <= c)%nat ->
  has_processor c pd M /\ exists R, M = proc_piece pd c ∪ R /\ proc_piece pd c ##ₘ R /\ assembled (live w0) (l1 ++ l2) R.
Proof.
  intros Hw0 HM -> Hcl Hpd Hc. destruct (assembled_remove _ _ _ _ _ HM) as (R & -> & Hd & HR). split; [|by exists R].
  assert (forall h o, proc_piece pd c !! h = Some o -> (proc_piece pd c ∪ R) !! h = Some o) as Hin
    by (intros h o Ho; by apply lookup_union_Some_l).
  split; try (apply Hin; unfold proc_piece; piece_lookup; fail).
  intros h o u Ho Hu Hh. apply lookup_union_Some in Ho as [Ho|Ho]; [| |done].
  - unfold proc_piece in Ho. repeat (apply lookup_insert_Some in Ho as [[<- <-]|[_ Ho]]; [cbn in Hu; try done; try set_solver|]).
    + apply list_elem_of_singleton in Hu as ->. cbn in Hh.
      repeat (apply elem_of_cons in Hh as [Hh|Hh]; [lia|]). by apply elem_of_nil in Hh.
    + apply lookup_singleton_Some in Ho as [_ <-]. cbn in Hu. set_solver.
  - exfalso. assert (is_Some (proc_piece pd c !! u)) as [o1 Ho1] by by apply proc_piece_dom.
    assert (c <= u)%nat as Hcu.
    { cbn in Hh. repeat (apply elem_of_cons in Hh as [->|Hh]; [lia|]). by apply elem_of_nil in Hh. }
    destruct (assembled_in _ _ _ _ _ HR Ho) as [HL|(m & Hm & Hmo)].
    + destruct (wf_live w0 Hw0 _ _ HL) as [_ Hf]. rewrite list.Forall_forall in Hf. specialize (Hf u Hu). cbn in Hf. lia.
    + assert (m ∈ l1 ++ proc_piece pd c :: l2) as Hm' by set_solver.
      rewrite list.Forall_forall in Hcl. destruct (Hcl m Hm' h o u Hmo Hu) as [->|[o2 Ho2]]; [lia|].
      apply (map_disjoint_spec (proc_piece pd c) R) with (i := u) (x := o1) (y := o2) in Hd; [done|done|].
      by apply (assembled_of _ _ _ m _ _ HR).
Qed.

(** Pieces that use nothing *)
Definition plain (m : gmap nat obj) : Prop := forall h o, m !! h = Some o -> o_uses o = [].
Lemma channel_plain ch : plain (channel_piece ch).
Proof. intros h o Ho. unfold channel_piece in Ho. by apply lookup_singleton_Some in Ho as [_ <-]. Qed.
Lemma leak_plain c b K : leak c b K -> plain K.
Proof. intros [|n k _ _] h o Ho; [done|]. by apply lookup_singleton_Some in Ho as [_ <-]. Qed.
Lemma plain_closed pd m : plain m -> closed pd m.
Proof. intros Hm h o u Ho Hu. rewrite (Hm h o Ho) in Hu. set_solver. Qed.

Lemma piece_device w0 c ms M l1 l2 : wf w0 -> assembled (live w0) ms M -> ms = l1 ++ dev_piece c :: l2 ->
  Forall plain (l1 ++ l2) -> (calls w0 <= c)%nat ->
  has_device c M /\ exists R, M = dev_piece c ∪ R /\ dev_piece c ##ₘ R /\ assembled (live w0) (l1 ++ l2) R.
Proof.
  intros Hw0 HM -> Hpl Hc. destruct (assembled_remove _ _ _ _ _ HM) as (R & -> & Hd & HR). split; [|by exists R].
  assert (forall h o, dev_piece c !! h = Some o -> (dev_piece c ∪ R) !! h = Some o) as Hin
    by (intros h o Ho; by apply lookup_union_Some_l).
  split; try (apply Hin; unfold dev_piece; piece_lookup; fail).
  intros h o u Ho Hu Hh. apply lookup_union_Some in Ho as [Ho|Ho]; [| |done].
  - unfold dev_piece in Ho. repeat (apply lookup_insert_Some in Ho as [[<- <-]|[_ Ho]]; [cbn in Hu; set_solver|]).
    apply lookup_singleton_Some in Ho as [_ <-]. cbn in Hu. set_solver.
  - exfalso. assert (c <= u)%nat as Hcu.
    { cbn in Hh. repeat (apply elem_of_cons in Hh as [->|Hh]; [lia|]). by apply elem_of_nil in Hh. }
    destruct (assembled_in _ _ _ _ _ HR Ho) as [HL|(m & Hm & Hmo)].
    + destruct (wf_live w0 Hw0 _ _ HL) as [_ Hf]. rewrite list.Forall_forall in Hf. specialize (Hf u Hu). cbn in Hf. lia.
    + rewrite list.Forall_forall in Hpl. rewrite (Hpl m Hm h o Hmo) in Hu. set_solver.
Qed.

(** What constructors that threw have left *)
Definition leaky (m : gmap nat obj) : Prop := exists c b, leak c b m.
Lemma leaky_plain l : Forall leaky l -> Forall plain l.
Proof. intros Hl. eapply list.Forall_impl; [exact Hl|]. intros m (c & b & Hm). by eapply leak_plain. Qed.

(** ** The system: a service and its processors *)

Record system := Sys { sy_service : option service; sy_procs : list processor; sy_failures : nat }.

(** What an application does with them; a constructor that throws is caught and counted. *)
Inductive sop := CreateProcessor | DestroyService.

Section Life.
Context `{SystemLaws}.

Definition run_sop (o : sop) (sy : system) : St world system :=
  match o with
  | CreateProcessor =>
      match sy_service sy with
      | None => ret sy
      | Some s => fun w =>
          match createProcessor s w with
          | Ok pr w => Ok (Sys (Some s) (sy_procs sy ++ [pr]) (sy_failures sy)) w
          | Throw _ w => Ok (Sys (Some s) (sy_procs sy) (S (sy_failures sy))) w
          | UB => UB
          | NoFuel => NoFuel
          end
      end
  | DestroyService =>
      match sy_service sy with
      | None => ret sy
      | Some s => do! InfinibandService_destroy s in ret (Sys None (sy_procs sy) (sy_failures sy))
      end
  end.
Fixpoint run_sops (l : list sop) (sy : system) : St world system :=
  match l with
  | [] => ret sy
  | o :: l => let! sy := run_sop o sy in run_sops l sy
  end.

(** The references to the device, and the pieces of the service *)
Definition refs (alive : bool) (cs : list nat) : nat := (length cs + if alive then 1 else 0)%nat.
Definition service_pieces (ch dc : nat) (alive : bool) (cs : list nat) : list (gmap nat obj) :=
  (if decide (refs alive cs = 0)%nat then [] else [dev_piece dc]) ++ (if alive then [channel_piece ch] else []).

(** [cs] are the calls at which the living processors were made, [p] is the shared pointer to
    the device made at call [dc]. *)
Record sinv (w0 : world) (ch dc p k : nat) (alive : bool) (cs : list nat) (w : world) : Prop := {
  si_base : wf w0;
  si_live : exists leaks, assembled (live w0) (map (proc_piece dc) cs ++ service_pieces ch dc alive cs ++ leaks) (live w) /\
    Forall leaky leaks /\ (length leaks <= k)%nat;
  si_wf : wf w;
  si_order : (calls w0 <= ch < dc)%nat /\ (3 + dc < calls w)%nat /\ Forall (fun c => (3 + dc < c)%nat) cs;
  si_nodup : NoDup cs;
  si_polls c : c ∈ cs -> processors w !! c = Some (running_processor c true);
  si_others c : c ∉ cs -> processors w !! c = processors w0 !! c;
  si_shared : if decide (refs alive cs = 0)%nat then shared w = shared w0
    else exists d, is_device dc d /\ shared w = <[p := (d, refs alive cs)]> (shared w0);
  si_pointer : shared w0 !! p = None;
  si_logged : logged w = logged w0
}.

Definition system_of (ch p k : nat) (alive : bool) (cs : list nat) : system :=
  Sys (if alive then Some (Service (Some ch) (Some p) false) else None) (map (processor_of p) cs) k.

(** What a constructor left is a plain piece. *)
Lemma undone_asm s w w' L ms : wf w -> undone s w w' -> assembled L ms (live w) ->
  exists K, leaky K /\ assembled L (K :: ms) (live w').
Proof.
  intros Hw [(K & HK & Hl) _ _ _ _] HM. exists K. split; [by eexists _, _|]. rewrite Hl. constructor; [|done].
  destruct HK as [|n k Hn Hk]; [apply map_disjoint_empty_l|]. apply map_disjoint_singleton_l. apply wf_fresh; [done|lia].
Qed.

Lemma undone_wf s w w' : wf w -> undone s w w' -> wf w'.
Proof.
  intros Hw [(K & HK & Hl) Hp _ Hc _]. destruct (wf_tick w (calls w') Hw Hc) as [Hwl Hwp]. split.
  - intros h o Ho. rewrite Hl in Ho. apply lookup_union_Some_raw in Ho as [Ho|[_ Ho]]; [|by apply Hwl].
    destruct HK as [|n k Hn Hk]; [done|]. apply lookup_singleton_Some in Ho as [<- <-]. cbn. split; [lia|constructor].
  - intros e. rewrite Hp. apply Hwp.
Qed.

Lemma assembled_perm L ms ms' M : ms ≡ₚ ms' -> assembled L ms M -> assembled L ms' M.
Proof.
  intros HP. revert M. induction HP as [|m l l' HP IH|m m' l|l l' l'' HP1 IH1 HP2 IH2]; intros M HM; [done| | |by apply IH2, IH1].
  - inversion HM; subst. constructor; [done|by apply IH].
  - inversion HM as [|? ? M' Hd HM' ]; subst. inversion HM' as [|? ? M'' Hd' HM'' ]; subst.
    apply map_disjoint_union_r in Hd as [Hd1 Hd2]. rewrite !(assoc_L (∪)), (map_union_comm m') by done.
    rewrite <-(assoc_L (∪)). constructor; [apply map_disjoint_union_r; by split|]. by constructor.
Qed.

Lemma refs_alive cs : refs true cs = S (length cs).
Proof. unfold refs. lia. Qed.
Lemma pieces_alive ch dc cs : service_pieces ch dc true cs = [dev_piece dc; channel_piece ch].
Proof. unfold service_pieces. by rewrite refs_alive. Qed.

Lemma si_plain_closed w0 ch dc p k alive cs w : sinv w0 ch dc p k alive cs w ->
  exists leaks, assembled (live w0) (map (proc_piece dc) cs ++ service_pieces ch dc alive cs ++ leaks) (live w) /\
    Forall leaky leaks /\ (length leaks <= k)%nat /\ Forall plain leaks /\
    Forall (closed dc) (map (proc_piece dc) cs ++ service_pieces ch dc alive cs ++ leaks).
Proof.
  intros Hi. destruct (si_live _ _ _ _ _ _ _ _ Hi) as (leaks & HM & Hlk & Hlen). exists leaks. pose proof (leaky_plain _ Hlk) as Hpl.
  do 4 (split; [done|]).
  rewrite !list.Forall_app. split; [|split].
  - apply list.Forall_forall. intros m (c & -> & _)%list_elem_of_fmap. apply proc_closed.
  - unfold service_pieces. rewrite list.Forall_app. split.
    + destruct (decide _); [done|]. constructor; [apply dev_closed|done].
    + destruct alive; [|done]. constructor; [apply channel_closed|done].
  - eapply list.Forall_impl; [exact Hpl|]. intros m. apply plain_closed.
Qed.

(** The world after a processor was made *)
Lemma stage4_live w d m : live (stage4 w d true m) = proc_piece (mProtectionDomain d) (calls w) ∪ live w.
Proof.
  unfold proc_piece. rewrite <-!insert_union_l. by rewrite <-insert_union_singleton_l.
Qed.
Lemma stage4_wf w d : wf w -> (mProtectionDomain d < calls w)%nat -> wf (stage4 w d true (11 + calls w)).
Proof.
  intros Hw Hd. apply wf_polls; [|cbn; lia]. apply (wf_tick (context_world (mProtectionDomain d) (stage3_base w))); [|cbn; lia].
  apply wf_context; [|cbn; lia]. apply (wf_tick (made KEventFd [] (made KEpoll [] w))); [|cbn; lia].
  apply wf_made; [by apply wf_made|done].
Qed.

(** The world in which a processor is made: the parameter holds one reference more. *)
Definition with_reference (p : nat) (d : device) (k : nat) (w : world) : world := set_shared (<[p := (d, k)]> (shared w)) w.

Lemma sinv_device w0 ch dc p k cs w : sinv w0 ch dc p k true cs w ->
  exists d, is_device dc d /\ shared w = <[p := (d, S (length cs))]> (shared w0) /\ mProtectionDomain d = dc /\
    shared w !! p = Some (d, S (length cs)).
Proof.
  intros Hi. pose proof (si_shared _ _ _ _ _ _ _ _ Hi) as H8. rewrite refs_alive in H8. destruct (decide _) as [|_]; [done|].
  destruct H8 as (d & Hd & Hs). exists d. split; [done|]. split; [done|]. split; [by destruct Hd as [b ->]|].
  rewrite Hs. apply lookup_insert_eq.
Qed.

Lemma sinv_created w0 ch dc p k cs w d : sinv w0 ch dc p k true cs w -> is_device dc d ->
  shared w = <[p := (d, S (length cs))]> (shared w0) -> mProtectionDomain d = dc ->
  let w1 := with_reference p d (S (S (length cs))) w in
  wf w1 -> sinv w0 ch dc p k true (cs ++ [calls w]) (stage4 w1 d true (11 + calls w1)).
Proof.
  intros [H1 (leaks & HM & Hlk & Hlen) H3 (Ho1 & Ho2 & Ho3) H5 H6 H7 _ H9 H10] Hd Hs Hpd w1 Hw1. rewrite pieces_alive in HM.
  assert (calls w ∉ cs) as Hnew.
  { intros Hin. assert (calls w < calls w)%nat; [|lia]. apply (wf_processors w H3). rewrite H6 by done. by eexists. }
  split; try done.
  - exists leaks. split; [|by split]. rewrite stage4_live, pieces_alive, Hpd, map_app, <-(assoc_L (++)). cbn [map app].
    eapply assembled_perm; [|apply asm_cons; [|exact HM]]; [by rewrite Permutation_middle|].
    apply map_disjoint_spec. intros h x y Hx Hy. assert (is_Some (proc_piece dc (calls w) !! h)) as Hh%proc_piece_dom by by eexists.
    destruct (wf_live w H3 _ _ Hy) as [Hlt _]. unfold proc_handles in Hh.
    repeat (apply elem_of_cons in Hh as [Hh|Hh]; [cbn in Hh; lia|]). by apply elem_of_nil in Hh.
  - apply stage4_wf; [done|]. rewrite Hpd. cbn. lia.
  - split; [done|]. split; [cbn; lia|]. apply list.Forall_app. split; [done|]. by repeat constructor.
  - apply list.NoDup_app. split; [done|]. split; [|apply NoDup_singleton]. intros x Hx ->%list_elem_of_singleton. done.
  - intros c Hc. destruct (decide (c = calls w)) as [->|Hne]; [apply lookup_insert_eq|].
    cbn. rewrite lookup_insert_ne by done. apply H6. set_solver.
  - intros c Hc. cbn. rewrite lookup_insert_ne by set_solver. apply H7. set_solver.
  - rewrite refs_alive. destruct (decide _) as [|_]; [done|]. exists d. split; [done|]. cbn.
    rewrite Hs, insert_insert_eq, length_app. cbn. do 3 f_equal. lia.
Qed.

Lemma sinv_failed w0 ch dc p k cs w d w' : sinv w0 ch dc p k true cs w -> is_device dc d ->
  shared w = <[p := (d, S (length cs))]> (shared w0) ->
  let w1 := with_reference p d (S (S (length cs))) w in
  wf w1 -> undone (<[p := (d, S (length cs))]> (shared w1)) w1 w' -> sinv w0 ch dc p (S k) true cs w'.
Proof.
  intros [H1 (leaks & HM & Hlk & Hlen) H3 (Ho1 & Ho2 & Ho3) H5 H6 H7 _ H9 H10] Hd Hs w1 Hw1 Hmk. rewrite pieces_alive in HM.
  destruct (undone_asm _ _ _ _ _ Hw1 Hmk HM) as (K & HK & HM').
  pose proof (undone_wf _ _ _ Hw1 Hmk) as Hw'. destruct Hmk as [_ Hup Hul Huc Hus]. split; try done.
  - exists (K :: leaks). split; [|split; [by constructor|cbn; lia]]. rewrite pieces_alive. eapply assembled_perm; [|exact HM'].
    rewrite !(app_assoc (map _ _)). apply Permutation_middle.
  - split; [done|]. split; [cbn in Huc; lia|done].
  - intros c Hc. rewrite Hup. by apply H6.
  - intros c Hc. rewrite Hup. by apply H7.
  - rewrite refs_alive. destruct (decide _) as [|_]; [done|]. exists d. split; [done|]. rewrite Hus. cbn.
    by rewrite Hs, !insert_insert_eq.
  - by rewrite Hul.
Qed.

Lemma step_create w0 ch dc p k cs w : sinv w0 ch dc p k true cs w ->
  wp (run_sop CreateProcessor (system_of ch p k true cs)) w (fun sy w' =>
    exists k' cs', sy = system_of ch p k' true cs' /\ (length cs' + k' = S (length cs + k))%nat /\ sinv w0 ch dc p k' true cs' w').
Proof.
  intros Hi. destruct (sinv_device _ _ _ _ _ _ _ Hi) as (d & Hd & Hs & Hpd & Hp).
  set (w1 := with_reference p d (S (S (length cs))) w).
  pose proof (si_wf _ _ _ _ _ _ _ _ Hi) as H3. assert (wf w1) as Hw1 by exact (Build_wf w1 (wf_live w H3) (wf_processors w H3)).
  pose proof (si_order _ _ _ _ _ _ _ _ Hi) as (_ & Ho2 & _).
  assert (mProtectionDomain d < calls w1)%nat as Hdc by (rewrite Hpd; cbn; lia).
  pose proof (processor_make w1 p d (length cs) Hw1 (lookup_insert_eq _ _ _) Hdc) as Hmk. unfold wpx in Hmk. unfold wp.
  cbn [run_sop sy_service system_of sy_procs]. unfold createProcessor. cbn [sv_device]. unfold bind, shared_copy, bind at 1, get.
  rewrite Hp. unfold wmod. fold (with_reference p d (S (S (length cs))) w). fold w1.
  destruct (InfinibandProcessor_make p w1) as [pr w'|e w'| |]; try done.
  - destruct Hmk as [-> ->]. exists k, (cs ++ [calls w]). split; [unfold system_of; rewrite map_app; done|].
    split; [rewrite length_app; cbn; lia|by apply sinv_created].
  - exists (S k), cs. split; [done|]. split; [lia|]. by apply (sinv_failed w0 ch dc p k cs w d).
Qed.

(** ** Destructors *)

Lemma wf_drop hs w P S G : wf w -> (forall e, is_Some (P !! e) -> (e < calls w)%nat) -> wf (World (drop_all hs (live w)) (calls w) P S G).
Proof.
  intros Hw HP. split; cbn; [|done]. intros h o Ho. rewrite drop_lookup in Ho. destruct (decide (h ∈ hs)); [done|]. by apply (wf_live w).
Qed.

(** The four members that go first leave the objects of the device as they are. *)
Lemma has_device_dropped w0 dc c M R leaks : wf w0 -> assembled (live w0) (dev_piece dc :: leaks) R -> Forall plain leaks ->
  M = proc_piece dc c ∪ R -> proc_piece dc c ##ₘ R -> (calls w0 <= dc)%nat -> (3 + dc < c)%nat ->
  has_device dc (drop_all [3 + c; 4 + c; 5 + c; 6 + c]%nat M).
Proof.
  intros Hw0 HR Hpl -> Hd Hc Hlt. destruct (piece_device w0 dc _ R [] leaks Hw0 HR eq_refl Hpl Hc) as [[D1 D2 D3 D4 Du] _].
  assert (forall h, h ∈ dev_handles dc -> drop_all [3 + c; 4 + c; 5 + c; 6 + c]%nat (proc_piece dc c ∪ R) !! h = R !! h) as Hl.
  { intros h Hh. unfold dev_handles in Hh. assert (h <= 3 + dc)%nat as Hle.
    { repeat (apply elem_of_cons in Hh as [->|Hh]; [lia|]). by apply elem_of_nil in Hh. }
    rewrite drop_lookup_ne.
    - apply lookup_union_r, eq_None_not_Some. rewrite proc_piece_dom. unfold proc_handles. intros Hin.
      repeat (apply elem_of_cons in Hin as [Hin|Hin]; [lia|]). by apply elem_of_nil in Hin.
    - intros Hin. repeat (apply elem_of_cons in Hin as [Hin|Hin]; [lia|]). by apply elem_of_nil in Hin. }
  split; try (rewrite Hl by (unfold dev_handles; set_solver); done).
  intros h o u Ho Hu Hh. rewrite drop_lookup in Ho. destruct (decide _) as [|Hn]; [done|].
  apply lookup_union_Some in Ho as [Ho|Ho]; [|by apply (Du h o u)|done].
  exfalso. unfold proc_piece in Ho.
  repeat (apply lookup_insert_Some in Ho as [[<- <-]|[_ Ho]]; [cbn in Hu, Hn; try set_solver|]).
  apply lookup_singleton_Some in Ho as [_ <-]. cbn in Hu. set_solver.
Qed.

(** What is left of the live objects when a processor goes, with the device or without *)
Lemma live_after_processor w0 ch dc alive cs i c M leaks : wf w0 ->
  assembled (live w0) (map (proc_piece dc) cs ++ service_pieces ch dc alive cs ++ leaks) M -> Forall plain leaks ->
  Forall (closed dc) (map (proc_piece dc) cs ++ service_pieces ch dc alive cs ++ leaks) ->
  cs !! i = Some c -> (calls w0 <= dc)%nat -> (3 + dc < c)%nat ->
  let n := refs alive (delete i cs) in
  has_processor c dc M /\ (n = 0%nat -> has_device dc (drop_all [3 + c; 4 + c; 5 + c; 6 + c]%nat M)) /\
  assembled (live w0) (map (proc_piece dc) (delete i cs) ++ service_pieces ch dc alive (delete i cs) ++ leaks)
    (drop_all ([c; S c] ++ freed dc n ++ [3 + c; 4 + c; 5 + c; 6 + c]%nat) M).
Proof.
  intros Hw0 HM Hpl Hcl Hi Hdc Hc n.
  assert (map (proc_piece dc) cs ++ service_pieces ch dc alive cs ++ leaks =
    map (proc_piece dc) (take i cs) ++ proc_piece dc c :: (map (proc_piece dc) (drop (S i) cs) ++ service_pieces ch dc alive cs ++ leaks)) as Hms.
  { rewrite <-(take_drop_middle cs i c Hi) at 1. rewrite map_app. cbn. by rewrite <-(assoc_L (++)). }
  destruct (piece_processor w0 dc c _ M _ _ Hw0 HM Hms Hcl) as [Hproc (R & HMR & Hdis & HR)]; [lia|lia|].
  rewrite (app_assoc (map _ (take i cs))), <-map_app, <-delete_take_drop in HR.
  assert (refs alive cs <> 0%nat) as Hrefs by (unfold refs; apply lookup_lt_Some in Hi; lia).
  assert (drop_all (proc_handles c) M = R) as Hdrop by (subst M; apply drop_piece; [done|apply proc_piece_dom]).
  split; [done|]. unfold freed, service_pieces in *. fold n. destruct (decide (refs alive cs = 0)%nat) as [|_]; [done|].
  destruct (decide (n = 0%nat)) as [Hn|Hn].
  - assert (delete i cs = [] /\ alive = false) as [Hnil ->].
    { unfold n, refs in Hn. destruct alive; [lia|]. split; [|done]. apply nil_length_inv. lia. }
    rewrite Hnil in HR |- *. cbn [map app] in HR |- *. split; [intros _; by apply (has_device_dropped w0 dc c M R leaks)|].
    destruct (piece_device w0 dc _ R [] leaks Hw0 HR eq_refl Hpl Hdc) as [_ (R' & HRR & Hdis' & HR')].
    rewrite (drop_ext _ (dev_handles dc ++ proc_handles c)).
    + rewrite <-drop_app, Hdrop, HRR, drop_piece; [done|done|apply dev_piece_dom].
    + intros x. unfold dev_handles, proc_handles. cbn [app]. rewrite !elem_of_cons. tauto.
  - split; [done|]. cbn [app] in *. rewrite (drop_ext _ (proc_handles c)); [by rewrite Hdrop|].
    intros x. unfold proc_handles. done.
Qed.

(** The destructor of a processor waits for the poll thread, when everything else has been given back. *)
Lemma step_destroy w0 ch dc p k alive cs i c w : sinv w0 ch dc p k alive cs w -> cs !! i = Some c ->
  if sys_joins c then wp (InfinibandProcessor_destroy (processor_of p c)) w (fun _ w' => sinv w0 ch dc p k alive (delete i cs) w')
  else InfinibandProcessor_destroy (processor_of p c) w = NoFuel.
Proof.
  intros Hi Hc. destruct (si_plain_closed _ _ _ _ _ _ _ _ Hi) as (leaks & HM & Hlk & Hlen & Hpl & Hcl).
  destruct Hi as [H1 _ H3 (Ho1 & Ho2 & Ho3) H5 H6 H7 H8 H9 H10].
  assert (c ∈ cs) as Hin by (by eapply list_elem_of_lookup_2). set (n := refs alive (delete i cs)).
  assert (refs alive cs = S n) as Hrefs.
  { unfold n, refs. rewrite length_delete by eauto. apply lookup_lt_Some in Hc. lia. }
  rewrite Hrefs in H8. destruct (decide _) as [|_]; [done|]. destruct H8 as (d & Hd & Hs).
  assert (3 + dc < c)%nat as Hlt by (rewrite list.Forall_forall in Ho3; by apply Ho3).
  destruct (live_after_processor w0 ch dc alive cs i c (live w) leaks) as (Hproc & Hdev & HR); try done; [lia|]. fold n in Hdev, HR.
  pose proof (processor_destroy_run c dc p true d n (live w) w Hproc eq_refl (H6 c Hin)
    ltac:(rewrite Hs; apply lookup_insert_eq) Hd Hdev Hlt) as Hrun.
  destruct (sys_joins c); [|exact Hrun]. eapply wp_ok; [exact Hrun|].
  pose proof (delete_Permutation cs i c Hc) as HP. rewrite HP in H5. apply list.NoDup_cons in H5 as [Hnc Hnd].
  split; try done; cbn [live calls processors shared logged].
  - exists leaks. by split.
  - apply wf_drop; [done|]. intros e [q Hq]. apply (wf_processors w H3). apply lookup_delete_Some in Hq as [_ Hq]. by eexists.
  - split; [done|]. split; [done|]. rewrite HP in Ho3. by apply list.Forall_cons in Ho3 as [_ ?].
  - intros c' Hc'. rewrite lookup_delete_ne by (intros ->; done). apply H6. rewrite HP. set_solver.
  - intros c' Hc'. destruct (decide (c' = c)) as [->|Hne].
    + rewrite lookup_delete_eq. symmetry. apply eq_None_not_Some. intros Hsome. apply (wf_processors w0 H1) in Hsome. lia.
    + rewrite lookup_delete_ne by done. apply H7. rewrite HP. set_solver.
  - unfold shared_after. fold n. destruct (decide (n = 0%nat)); rewrite Hs; [by rewrite delete_insert_id|].
    exists d. split; [done|]. by rewrite insert_insert_eq.
Qed.

(** A plain piece is used by nobody, unless it holds the domain. *)
Lemma piece_unused w0 pd ms M l1 m0 l2 h : wf w0 -> assembled (live w0) ms M -> ms = l1 ++ m0 :: l2 -> Forall (closed pd) ms ->
  plain m0 -> is_Some (m0 !! h) -> (calls w0 <= h)%nat -> h <> pd -> unused h M.
Proof.
  intros Hw0 HM -> Hcl Hpl [o0 Hh] Hc Hne h' o Ho Hu. destruct (assembled_remove _ _ _ _ _ HM) as (R & -> & Hd & HR).
  apply lookup_union_Some in Ho as [Ho|Ho]; [|clear Hpl|done].
  - rewrite (Hpl h' o Ho) in Hu. set_solver.
  - destruct (assembled_in _ _ _ _ _ HR Ho) as [HL|(m & Hm & Hmo)].
    + destruct (wf_live w0 Hw0 _ _ HL) as [_ Hf]. rewrite list.Forall_forall in Hf. specialize (Hf h Hu). cbn in Hf. lia.
    + rewrite list.Forall_forall in Hcl. destruct (Hcl m ltac:(set_solver) h' o h Hmo Hu) as [->|[o2 Ho2]]; [done|].
      eapply (map_disjoint_spec m0 R); [exact Hd|exact Hh|]. by apply (assembled_of _ _ _ m _ _ HR).
Qed.

Lemma service_channel w0 ch dc cs M leaks : wf w0 ->
  assembled (live w0) (map (proc_piece dc) cs ++ [dev_piece dc; channel_piece ch] ++ leaks) M ->
  Forall (closed dc) (map (proc_piece dc) cs ++ [dev_piece dc; channel_piece ch] ++ leaks) -> (calls w0 <= ch < dc)%nat ->
  M !! ch = Some (Obj KEventChannel []) /\ unused ch M /\
  assembled (live w0) (map (proc_piece dc) cs ++ [dev_piece dc] ++ leaks) (drop_all [ch] M).
Proof.
  intros Hw0 HM Hcl Hc. assert (map (proc_piece dc) cs ++ [dev_piece dc; channel_piece ch] ++ leaks =
    (map (proc_piece dc) cs ++ [dev_piece dc]) ++ channel_piece ch :: leaks) as Hms by (by rewrite <-app_assoc).
  rewrite Hms in HM, Hcl. assert (channel_piece ch !! ch = Some (Obj KEventChannel [])) as Hlk by apply lookup_singleton_eq.
  split; [apply (assembled_of _ _ _ (channel_piece ch) _ _ HM); [set_solver|done]|].
  split; [eapply (piece_unused w0 dc _ M _ (channel_piece ch)); [done|exact HM|done|done|apply channel_plain|by eexists|lia|lia]|].
  destruct (assembled_remove _ _ _ _ _ HM) as (R & -> & Hd & HR). rewrite <-app_assoc in HR.
  rewrite drop_piece; [exact HR|done|]. intros h. unfold channel_piece. rewrite lookup_singleton_is_Some. set_solver.
Qed.

Lemma service_device w0 ch dc cs M leaks : wf w0 ->
  assembled (live w0) (map (proc_piece dc) cs ++ [dev_piece dc] ++ leaks) M -> Forall plain leaks -> (calls w0 <= dc)%nat ->
  (length cs = 0%nat -> has_device dc M) /\
  assembled (live w0) (map (proc_piece dc) cs ++ service_pieces ch dc false cs ++ leaks) (drop_all (freed dc (length cs)) M).
Proof.
  intros Hw0 HM Hpl Hc. unfold service_pieces, freed, refs. rewrite Nat.add_0_r. destruct (decide (length cs = 0%nat)) as [Hn|Hn].
  - apply nil_length_inv in Hn as ->. cbn [map app] in *.
    destruct (piece_device w0 dc _ M [] leaks Hw0 HM eq_refl Hpl Hc) as [Hdev (R & -> & Hd & HR)]. split; [done|].
    rewrite drop_piece; [exact HR|done|apply dev_piece_dom].
  - split; [done|]. by rewrite app_nil_r.
Qed.

Lemma step_service w0 ch dc p k cs w : sinv w0 ch dc p k true cs w ->
  wp (InfinibandService_destroy (Service (Some ch) (Some p) false)) w (fun _ w' => sinv w0 ch dc p k false cs w').
Proof.
  intros Hi. destruct (sinv_device _ _ _ _ _ _ _ Hi) as (d & [b Hd] & Hs & Hpd & Hp).
  destruct (si_plain_closed _ _ _ _ _ _ _ _ Hi) as (leaks & HM & Hlk & Hlen & Hpl & Hcl). rewrite pieces_alive in HM, Hcl.
  destruct Hi as [H1 _ H3 (Ho1 & Ho2 & Ho3) H5 H6 H7 _ H9 H10].
  destruct (service_channel w0 ch dc cs (live w) leaks) as (Hch & Huch & HM1); [done..|].
  destruct (service_device w0 ch dc cs (drop_all [ch] (live w)) leaks) as (Hdev & HM2); [done..|lia|].
  set (w1 := with_reference p (DeviceContext_shutdown d) (S (length cs)) w).
  apply wp_bind. eapply wp_ok.
  { unfold shutdown. cbn [mShutdown sv_device mChannel]. unfold bind, get, wmod. rewrite Hp.
    fold (with_reference p (DeviceContext_shutdown d) (S (length cs)) w). fold w1.
    rewrite (release_run ch _ w1 Hch Huch). reflexivity. }
  cbn [sv_device]. eapply wp_ok.
  { apply (shared_release_run dc p (DeviceContext_shutdown d) (length cs)); [apply lookup_insert_eq| |exact Hdev].
    subst d. unfold DeviceContext_shutdown. cbn. destruct b; by eexists. }
  split; try done; cbn [live calls processors shared logged w1 with_reference set_live set_shared].
  - exists leaks. split; [exact HM2|by split].
  - change (delete ch (live w)) with (drop_all [ch] (live w)). rewrite drop_app. apply wf_drop; [done|]. apply (wf_processors w H3).
  - unfold shared_after, refs. rewrite Nat.add_0_r, Hs, insert_insert_eq. destruct (decide (length cs = 0%nat)); [by rewrite delete_insert_id|].
    exists (DeviceContext_shutdown d). split; [|by rewrite insert_insert_eq]. subst d. unfold DeviceContext_shutdown. cbn. destruct b; by eexists.
Qed.

(** The operations up to the destruction of the service. *)
Fixpoint creates (ops : list sop) : nat :=
  match ops with CreateProcessor :: ops => S (creates ops) | _ => 0 end.
Definition service_stays (ops : list sop) : bool :=
  forallb (fun o => match o with CreateProcessor => true | DestroyService => false end) ops.

Lemma run_dead ops ch p k cs w : run_sops ops (system_of ch p k false cs) w = Ok (system_of ch p k false cs) w.
Proof. induction ops as [|[] ops IH]; [done|exact IH..]. Qed.

(** Every sequence of operations keeps the invariant. *)
Lemma run_sops_inv ops w0 ch dc p k cs w : sinv w0 ch dc p k true cs w ->
  wp (run_sops ops (system_of ch p k true cs)) w (fun sy w' =>
    exists k' cs', sy = system_of ch p k' (service_stays ops) cs' /\ (length cs' + k' = length cs + k + creates ops)%nat /\
      sinv w0 ch dc p k' (service_stays ops) cs' w').
Proof.
  revert k cs w. induction ops as [|[] ops IH]; intros k cs w Hi.
  - apply wp_ret. exists k, cs. split; [done|]. split; [cbn; lia|done].
  - apply wp_bind. eapply wp_mono; [by apply step_create|]. intros sy w' (k' & cs' & -> & Hn & Hi').
    eapply wp_mono; [by apply IH|]. intros sy w2 (k2 & cs2 & -> & Hn2 & Hi2). exists k2, cs2. split; [done|]. split; [cbn; lia|done].
  - apply wp_bind. cbn [run_sop system_of sy_service sy_procs].
    apply wp_bind. eapply wp_mono; [by apply step_service|]. intros ? w' Hi'. apply wp_ret.
    eapply wp_ok; [exact (run_dead ops ch p k cs w')|]. exists k, cs. split; [done|]. split; [cbn; lia|done].
Qed.

(** ** The constructor of the service *)

(** Numbers of calls to come name no shared pointer. *)
Definition pointers_old (w : world) : Prop := forall q, is_Some (shared w !! q) -> (q <= calls w)%nat.

(** The event channel and the list of devices, and the device on top of them *)
Definition listed (w : world) : world := made KDeviceList [] (made KEventChannel [] w).

Lemma device_world_live w : live (device_world w) = dev_piece (calls w) ∪ live w.
Proof. unfold dev_piece. rewrite <-!insert_union_l. by rewrite <-insert_union_singleton_l. Qed.

Lemma dev_fresh w : wf w -> dev_piece (calls w) ##ₘ live w.
Proof.
  intros Hw. apply map_disjoint_spec. intros h x y Hx Hy. assert (is_Some (dev_piece (calls w) !! h)) as Hh%dev_piece_dom by by eexists.
  destruct (wf_live w Hw _ _ Hy) as [Hlt _]. unfold dev_handles in Hh.
  repeat (apply elem_of_cons in Hh as [Hh|Hh]; [lia|]). by apply elem_of_nil in Hh.
Qed.

Lemma service_established w m : wf w -> pointers_old w -> (6 + calls w <= m)%nat ->
  let w2 := listed w in
  sinv w (calls w) (2 + calls w) m 0 true []
    (World (delete (S (calls w)) (live (device_world w2))) m (processors w) (<[m := (device_at (2 + calls w), 1%nat)]> (shared w)) (logged w)).
Proof.
  intros Hw Hp Hm w2. assert (wf (made KEventChannel [] w)) as Hw1 by (by apply wf_made).
  assert (wf w2) as Hw2 by (by apply wf_made).
  assert (forall x, (calls w <= x)%nat -> live w !! x = None) as Hfr by (intros; by apply wf_fresh).
  assert (delete (S (calls w)) (live (device_world w2)) = dev_piece (2 + calls w) ∪ (channel_piece (calls w) ∪ live w)) as Hl.
  { rewrite device_world_live, delete_union, delete_id.
    - change (live w2) with (<[S (calls w) := Obj KDeviceList []]> (<[calls w := Obj KEventChannel []]> (live w))).
      rewrite delete_insert_id by (rewrite lookup_insert_ne by lia; apply Hfr; lia). by rewrite (insert_union_singleton_l (live w)).
    - apply eq_None_not_Some. rewrite dev_piece_dom. unfold dev_handles. cbn. intros Hin.
      repeat (apply elem_of_cons in Hin as [Hin|Hin]; [lia|]). by apply elem_of_nil in Hin. }
  split; try done; cbn [live calls processors shared logged].
  - exists []. split; [|split; [constructor|cbn; lia]]. rewrite pieces_alive, Hl. cbn [map app]. constructor; [|constructor; [|constructor]].
    + pose proof (dev_fresh w2 Hw2) as Hd. apply map_disjoint_spec. intros h x y Hx Hy.
      eapply (map_disjoint_spec (dev_piece (calls w2)) (live w2)); [exact Hd|exact Hx|]. cbn.
      rewrite lookup_insert_ne, insert_union_singleton_l; [exact Hy|]. intros <-.
      rewrite lookup_union_r in Hy; [rewrite Hfr in Hy by lia; done|]. apply lookup_singleton_ne. lia.
    + apply map_disjoint_singleton_l, Hfr. lia.
  - split; cbn [live calls processors].
    + intros h o Ho. apply lookup_delete_Some in Ho as [_ Ho]. destruct (wf_live _ (wf_device w2 Hw2) _ _ Ho) as [Hlt Hf]. cbn in Hlt.
      split; [lia|]. eapply list.Forall_impl; [exact Hf|]. cbn. lia.
    + intros e He. apply (wf_processors w Hw) in He. lia.
  - split; [lia|]. split; [lia|done].
  - constructor.
  - intros c Hc. by apply elem_of_nil in Hc.
  - exists (device_at (2 + calls w)). split; [by exists false|done].
  - apply eq_None_not_Some. intros Hq. specialize (Hp _ Hq). lia.
Qed.

Lemma service_make n w : wf w -> pointers_old w -> sys_devices = 1 ->
  wpx (InfinibandService_make n) w
    (fun s w' => (s = Service None None false /\ w' = tick w) \/
       exists p, s = Service (Some (calls w)) (Some p) false /\ sinv w (calls w) (2 + calls w) p 0 true [] w')
    (fun _ w' => undone (shared w) (made KEventChannel [] w) w').
Proof.
  intros Hw Hp H1. assert (wf (made KEventChannel [] w)) as Hw1 by (by apply wf_made).
  assert (wf (listed w)) as Hw2 by (by apply wf_made).
  unfold InfinibandService_make, try_create. apply wpx_bind, wpx_bind. eapply wpx_ok; [reflexivity|]. destruct (sys_ok (calls w)).
  2: { eapply wpx_ok; [reflexivity|]. eapply wpx_ok; [reflexivity|]. by left. }
  apply wpx_bind. eapply wpx_ok; [reflexivity|]. eapply wpx_ok; [reflexivity|].
  apply wpx_guard, wpx_create; [|exact (undone_next (made KEventChannel [] w))].
  apply wpx_bind, wpx_bind. rewrite H1. eapply wpx_ok; [reflexivity|]. apply wpx_bind. eapply wpx_ok.
  { unfold DeviceList_at. rewrite H1. reflexivity. }
  apply wpx_bind, wpx_bind. eapply wpx_mono; [exact (device_make n (listed w) Hw2)| |].
  - intros d w' (-> & m & Hm & ->). cbn in Hm. apply wpx_bind. eapply wpx_ok; [reflexivity|]. apply wpx_bind. eapply wpx_ok; [reflexivity|].
    eapply wpx_ok; [reflexivity|]. eapply wpx_ok; [reflexivity|]. apply wpx_bind. eapply wpx_ok.
    { apply (handle_destroy_run (S (calls w)) (Obj KDeviceList [])).
      - change (live (device_world (listed w)) !! S (calls w) = Some (Obj KDeviceList [])). rewrite device_world_live, lookup_union_r.
        + apply lookup_insert_eq.
        + apply eq_None_not_Some. rewrite dev_piece_dom. unfold dev_handles. cbn. intros Hin.
          repeat (apply elem_of_cons in Hin as [Hin|Hin]; [lia|]). by apply elem_of_nil in Hin.
      - change (unused (S (calls w)) (live (device_world (listed w)))). rewrite device_world_live. apply unused_union.
        + intros h o Ho Hu. destruct (dev_closed _ h o _ Ho Hu) as [Hc|Hc]; [cbn in Hc; lia|].
          apply dev_piece_dom in Hc. unfold dev_handles in Hc. cbn in Hc.
          repeat (apply elem_of_cons in Hc as [Hc|Hc]; [lia|]). by apply elem_of_nil in Hc.
        + apply unused_insert; [|set_solver]. apply unused_insert; [|set_solver]. apply wf_unused; [done|lia]. }
    eapply wpx_ok; [reflexivity|]. right. exists m. split; [done|]. apply service_established; [done|done|lia].
  - intros e w' Hun. by apply (undone_made (shared w) KDeviceList [] (made KEventChannel [] w)).
Qed.
End Life.

