(* ===== verification/ServiceClaims.v ===== *)
(** What the service layer of infinio promises about the system resources it owns. *)
From stdpp Require Import sets.
From S2P Require Import Prelude Service ServiceSpec ServiceLife.

(** A system on which call [n] succeeds when [ok n], and nothing in use can be released. *)
Definition system_with (ok : nat -> bool) : System :=
  {| sys_ok := ok; sys_errno := fun _ => 12;
     sys_release := fun l h => forallb (fun e => bool_decide (h ∉ o_uses e.2)) (map_to_list l);
     sys_unwatch := fun l fd => bool_decide (fd ∈ l); sys_devices := 1; sys_joins := fun _ => false |}.
Lemma system_with_laws ok : @SystemLaws (system_with ok).
Proof.
  split; cbn.
  - intros l h _ Hu. apply forallb_forall. intros [h' o] Hin. apply bool_decide_eq_true. cbn. apply (Hu h' o).
    apply elem_of_map_to_list. by apply list_elem_of_In.
  - intros l fd Hin. by apply bool_decide_eq_true.
Defined.
Definition nothing_live : world := World ∅ 0 ∅ ∅ [].
Lemma nothing_live_wf : wf nothing_live.
Proof. split; cbn; [intros h o Ho; by rewrite lookup_empty in Ho|intros e [x He]; by rewrite lookup_empty in He]. Defined.
Lemma nothing_live_pointers : pointers_old nothing_live.
Proof. intros q [x Hq]. cbn in Hq. by rewrite lookup_empty in Hq. Defined.

(** The objects a service and its processors stand for: six for each processor (made at the calls [cs]), the four of
    the device as long as the service or a processor refers to it, and the event channel of the service. *)
Definition owned (ch dc : nat) (alive : bool) (cs : list nat) : list (gmap nat obj) :=
  map (proc_piece dc) cs ++ (if alive || negb (bool_decide (cs = [])) then [dev_piece dc] else []) ++
  (if alive then [channel_piece ch] else []).

Lemma owned_pieces ch dc alive cs : owned ch dc alive cs = map (proc_piece dc) cs ++ service_pieces ch dc alive cs.
Proof. unfold owned, service_pieces, refs. destruct alive, cs; done. Qed.

(** C25: A service makes processors, and it may be destroyed at any time, the processors that use its device then
    living on.  Whatever the operations: no object is released twice or while another one depends on it, no release
    fails, each request for a processor has given one or thrown, and at the end the live objects are exactly
    those from before the service, six for each processor, the four of the device while the service or a processor
    refers to it, the event channel of a service that is still there, and at most one object for each constructor that
    threw, a memory mapping or an event descriptor; every processor is registered with its thread running, and
    the reference count of the device is the number of its owners. *)
Theorem service_lifecycle `{SystemLaws} n w0 s w1 ops :
  wf w0 -> pointers_old w0 -> sys_devices = 1 -> InfinibandService_make n w0 = Ok s w1 -> mChannel s <> None ->
  let alive := service_stays ops in
  exists p k cs leaks w', run_sops ops (Sys (Some s) [] 0) w1 = Ok (system_of (calls w0) p k alive cs) w' /\
    (length cs + k = creates ops)%nat /\ logged w' = logged w0 /\ NoDup cs /\
    assembled (live w0) (owned (calls w0) (2 + calls w0) alive cs ++ leaks) (live w') /\
    Forall leaky leaks /\ (length leaks <= k)%nat /\
    (forall c, processors w' !! c = if decide (c ∈ cs) then Some (running_processor c true) else processors w0 !! c) /\
    (if alive || negb (bool_decide (cs = []))
     then exists d, is_device (2 + calls w0) d /\ shared w' = <[p := (d, length cs + if alive then 1 else 0)%nat]> (shared w0)
     else shared w' = shared w0) /\
    (creates ops = 0%nat -> alive = false -> live w' = live w0 /\ processors w' = processors w0).
Proof.
  intros Hw Hp Hdev Hmk Hch alive. pose proof (service_make n w0 Hw Hp Hdev) as Hs. unfold wpx in Hs. rewrite Hmk in Hs.
  destruct Hs as [[-> _]|(p & -> & Hi)]; [done|]. pose proof (run_sops_inv ops _ _ _ _ _ _ _ Hi) as Hrun.
  apply wp_inv in Hrun as (sy & w' & Hrun & k & cs & -> & Hn & Hi'). fold alive in Hrun, Hi'.
  destruct Hi' as [_ (leaks & HM & Hlk & Hlen) _ _ Hnd H6 H7 H8 _ H10]. cbn in Hn. exists p, k, cs, leaks, w'.
  rewrite owned_pieces, <-(assoc_L (++)). split; [exact Hrun|]. split_and!; try done; [| |].
  - intros c. destruct (decide (c ∈ cs)) as [Hc|Hc]; [by apply H6|by apply H7].
  - unfold refs in H8. destruct alive, cs; cbn in *; try exact H8; (destruct (decide _); [lia|exact H8]).
  - intros H0' Ha. assert (cs = [] /\ k = 0%nat) as [-> ->] by (split; [apply nil_length_inv|]; lia).
    assert (leaks = []) as -> by (apply nil_length_inv; lia). rewrite Ha in HM. split; [by inversion HM|].
    apply map_eq. intros c. apply H7. set_solver.
Qed.

(** The service is destroyed while its two processors live. *)
Lemma service_lifecycle_witness :
  match @InfinibandService_make (system_with (fun _ => true)) 3 nothing_live with
  | Ok s w1 => exists p k cs w',
      @run_sops (system_with (fun _ => true)) [CreateProcessor; CreateProcessor; DestroyService] (Sys (Some s) [] 0) w1 =
        Ok (system_of 0 p k false cs) w' /\ (length cs + k = 2)%nat /\ logged w' = []
  | _ => False
  end.
Proof.
  destruct (@InfinibandService_make (system_with (fun _ => true)) 3 nothing_live) as [s w1| | |] eqn:Hmk;
    [|vm_compute in Hmk; discriminate Hmk..].
  assert (mChannel s <> None) as Hch by (vm_compute in Hmk; injection Hmk as <- _; discriminate).
  destruct (@service_lifecycle (system_with (fun _ => true)) (system_with_laws _) 3 nothing_live s w1
    [CreateProcessor; CreateProcessor; DestroyService]
    nothing_live_wf nothing_live_pointers eq_refl Hmk Hch) as (p & k & cs & leaks & w' & Hrun & Hn & Hlog & _).
  exists p, k, cs, w'. split; [exact Hrun|]. split; [exact Hn|exact Hlog].
Defined.

(** The destructor of a processor does not return while its poll thread sleeps: it gives back everything else and
    then waits for a thread that nothing wakes.  It returns only for a thread that leaves its loop by itself. *)
Theorem processor_destructor_waits `{SystemLaws} n w0 s w1 ops sy w' i pr :
  wf w0 -> pointers_old w0 -> sys_devices = 1 -> InfinibandService_make n w0 = Ok s w1 -> mChannel s <> None ->
  run_sops ops (Sys (Some s) [] 0) w1 = Ok sy w' -> sy_procs sy !! i = Some pr ->
  if sys_joins (mProcessor pr) then exists w2, InfinibandProcessor_destroy pr w' = Ok tt w2 /\ logged w2 = logged w0
  else InfinibandProcessor_destroy pr w' = NoFuel.
Proof.
  intros Hw Hp Hdev Hmk Hch Hrun Hpr. pose proof (service_make n w0 Hw Hp Hdev) as Hs. unfold wpx in Hs. rewrite Hmk in Hs.
  destruct Hs as [[-> _]|(p & -> & Hi)]; [done|]. pose proof (run_sops_inv ops _ _ _ _ _ _ _ Hi) as Hrun'.
  change (system_of (calls w0) p 0 true []) with (Sys (Some (Service (Some (calls w0)) (Some p) false)) [] 0) in Hrun'.
  unfold wp in Hrun'. rewrite Hrun in Hrun'. destruct Hrun' as (k & cs & -> & _ & Hi').
  cbn [sy_procs system_of] in Hpr. rewrite list_lookup_fmap in Hpr. destruct (cs !! i) as [c|] eqn:Hc; [|done]. cbn in Hpr. simplify_eq.
  cbn [mProcessor processor_of]. pose proof (step_destroy _ _ _ _ _ _ _ _ _ _ Hi' Hc) as Hd. destruct (sys_joins c); [|exact Hd].
  apply wp_inv in Hd as ([] & w2 & Hd & Hi2). exists w2. split; [exact Hd|]. exact (si_logged _ _ _ _ _ _ _ _ Hi2).
Qed.

(** C27: The constructor of a processor is safe against exceptions at every step: when it
    returns, exactly the six objects of the processor have been added, its three pollers are
    registered and its thread runs; when it throws, the members made so far have been destroyed, the
    reference to the device is given back, nothing was logged, and the live objects are those
    from before, except for one memory mapping or event descriptor that may be left. *)
Theorem processor_constructor `{SystemLaws} w p d n : wf w -> shared w !! p = Some (d, S (S n)) ->
  (mProtectionDomain d < calls w)%nat ->
  match InfinibandProcessor_make p w with
  | Ok pr w' => pr = processor_of p (calls w) /\ live w' = proc_piece (mProtectionDomain d) (calls w) ∪ live w /\
      processors w' = <[calls w := running_processor (calls w) true]> (processors w) /\
      shared w' = shared w /\ logged w' = logged w
  | Throw _ w' => (exists K, leak (calls w) (calls w') K /\ live w' = K ∪ live w) /\ processors w' = processors w /\
      shared w' = <[p := (d, S n)]> (shared w) /\ logged w' = logged w
  | UB | NoFuel => False
  end.
Proof.
  intros Hw Hp Hd. pose proof (processor_make w p d n Hw Hp Hd) as Hmk. unfold wpx in Hmk.
  destruct (InfinibandProcessor_make p w) as [pr w'|e w'| |]; try done.
  - destruct Hmk as [-> ->]. split; [done|]. by split; [apply stage4_live|].
  - by destruct Hmk.
Qed.

(** The tenth call, the registration of the completion channel, fails. *)
Lemma processor_constructor_witness :
  let w := World {[0%nat := Obj KProtectionDomain []; 1%nat := Obj KMapping []; 2%nat := Obj (KMemoryRegion 1) [0%nat];
                    3%nat := Obj KReceiveQueue [0%nat]]} 5 ∅ {[4%nat := (device_at 0, 2%nat)]} [] in
  match @InfinibandProcessor_make (system_with (fun n => negb (n =? 14)%nat)) 4 w with
  | Throw _ w' => processors w' = ∅ /\ logged w' = []
  | _ => False
  end.
Proof.
  cbv zeta. set (w := World _ _ _ _ _). assert (wf w) as Hw.
  { split; cbn.
    - intros h o Ho. repeat (apply lookup_insert_Some in Ho as [[<- <-]|[_ Ho]]; [cbn; split; [lia|repeat constructor; lia]|]).
      apply lookup_singleton_Some in Ho as [<- <-]. cbn. split; [lia|repeat constructor; lia].
    - intros e [x He]. by rewrite lookup_empty in He. }
  pose proof (@processor_constructor (system_with (fun n => negb (n =? 14)%nat)) (system_with_laws _) w 4 (device_at 0) 0 Hw eq_refl
    ltac:(cbn; lia)) as Hc.
  destruct (@InfinibandProcessor_make (system_with (fun n => negb (n =? 14)%nat)) 4 w) as [pr w'|e w'| |] eqn:Hmk.
  - vm_compute in Hmk. discriminate Hmk.
  - destruct Hc as (_ & Hp & _ & Hl). split; [exact Hp|exact Hl].
  - exact Hc.
  - exact Hc.
Defined.

(** Resources that a failing constructor does not give back.  Whenever the constructor of
    the service throws, its event channel stays open; a memory region whose registration fails leaves its
    memory mapped; a task queue that cannot register its descriptor leaves it open. *)
Theorem failed_construction_leaks `{SystemLaws} w : wf w ->
  (forall n e w', pointers_old w -> sys_devices = 1 -> InfinibandService_make n w = Throw e w' ->
     live w' !! calls w = Some (Obj KEventChannel [])) /\
  (forall domain, sys_ok (calls w) = true -> sys_ok (S (calls w)) = false ->
     exists e w', AllocatedMemoryRegion_make domain w = Throw e w' /\ live w' = <[calls w := Obj KMapping []]> (live w)) /\
  (forall e p, processors w !! e = Some p -> sys_ok (calls w) = true -> sys_ok (S (calls w)) = false ->
     exists x w', TaskQueue_make e w = Throw x w' /\ live w' = <[calls w := Obj KEventFd []]> (live w)).
Proof.
  intros Hw. split; [|split].
  - intros n e w' Hp Hd Hmk. pose proof (service_make n w Hw Hp Hd) as Hs. unfold wpx in Hs. rewrite Hmk in Hs.
    destruct Hs as [(K & HK & Hl) _ _ _ _]. rewrite Hl, lookup_union_r by (apply (leak_fresh _ _ _ _ HK); cbn; lia). apply lookup_insert_eq.
  - intros domain H1 H2. unfold AllocatedMemoryRegion_make, allocateMemory, LocalMemoryRegion_make, create, bind, sys. rewrite H1. cbn.
    rewrite H2. by eexists _, _.
  - intros e p Hp H1 H2. unfold TaskQueue_make, create, registerPoll, sys_check, bind, sys. rewrite H1. cbn. rewrite H2. by eexists _, _.
Qed.

(** The third call, the allocation of the protection domain, fails. *)
Lemma failed_construction_leaks_witness :
  match @InfinibandService_make (system_with (fun n => negb (n =? 2)%nat)) 3 nothing_live with
  | Throw _ w' => live w' !! 0%nat = Some (Obj KEventChannel [])
  | _ => False
  end.
Proof.
  destruct (@InfinibandService_make (system_with (fun n => negb (n =? 2)%nat)) 3 nothing_live) as [s w1|e w1| |] eqn:Hmk;
    [vm_compute in Hmk; discriminate Hmk| |vm_compute in Hmk; discriminate Hmk..].
  exact (proj1 (@failed_construction_leaks (system_with (fun n => negb (n =? 2)%nat)) (system_with_laws _) nothing_live nothing_live_wf)
    3%nat e w1 nothing_live_pointers eq_refl Hmk).
Defined.

