(* ===== verification/Endpoint.v ===== *)
(** Network addresses: [infinio/Endpoint.hpp] and [Endpoint.cpp], and [AddressHelper.cpp].

    An [Endpoint] is the union [mAddress] of a [sockaddr_in] (16 bytes) and a [sockaddr_in6]
    (28 bytes) at an address of [Memory], laid out as on Linux: the family in host order, the port in
    network order, then the IPv4 address or the flow information, the IPv6 address and the scope.  The
    strings are the objects of [String]; the local [hostPart] and the temporary of the port are
    string objects at the stack addresses [h] and [t], and run their destructors when control leaves
    their scope, also by an exception.  [inet_pton] and [inet_ntop] are the class [Inet]. *)
From S2P Require Import Prelude Memory String ProgramOptions.

Module Ep.

Import Str.

Definition AF_INET : Z := 2.
Definition AF_INET6 : Z := 10.
Definition colon : Z := 58.

(** Bytes of an address of the family. *)
Definition addr_len (family : Z) : nat := if family =? AF_INET then 4%nat else 16%nat.

(** The conversions between the text of an address and its bytes in network order. *)
Class Inet := {
  pton : Z -> list Z -> option (list Z);
  ntop : Z -> list Z -> list Z
}.

(** What their manual pages promise: [inet_pton] yields an address of the family, inverts
    [inet_ntop], and takes IPv6 addresses in the notation with colons only; an IPv4 address
    is printed as digits and dots, in at most 15 characters. *)
Class InetLaws (I : Inet) : Prop := {
  pton_length family s a : pton family s = Some a -> length a = addr_len family;
  pton_ntop family a : family = AF_INET \/ family = AF_INET6 ->
    Forall is_byte a -> length a = addr_len family -> pton family (ntop family a) = Some a;
  pton_ipv6_colon s a : pton AF_INET6 s = Some a -> colon ∈ s;
  ntop_ipv4 a : Forall is_byte a -> length a = 4%nat ->
    Forall (fun c => c = 46 \/ 48 <= c <= 57) (ntop AF_INET a) /\ 1 <= zlen (ntop AF_INET a) <= 15;
  ntop_ipv6 a : Forall is_byte a -> length a = 16%nat -> Forall (fun c => c <> 0) (ntop AF_INET6 a)
}.

(** [htons] and [ntohs] of a little-endian machine. *)
Definition htons (x : Z) : Z := 256 * (x mod 256) + (x / 256) mod 256.
Definition ntohs (x : Z) : Z := htons x.

(** [std::stoul(str)]: base 10; white space, a sign, then the longest run of digits. *)
Definition stoul (s : list Z) : Z + exn :=
  let '(neg, s) := Po.read_sign (Po.skip_space s) in
  match s with
  | c :: _ =>
      match Po.digit_val 10 c with
      | Some _ =>
          let v := Po.read_digits 10 s 0 in
          if v <? 2 ^ 64 then inl (if neg then u64 (- v) else v) else inr OutOfRange
      | None => inr InvalidArgument
      end
  | [] => inr InvalidArgument
  end.

Definition or_throw {A} (r : A + exn) : St mem A :=
  match r with inl a => ret a | inr e => throw e end.

(** The characters of the C string at [p]. *)
Definition load_cstr (p : Z) : St mem (list Z) :=
  let! n := traits_length p in load_bytes (Z.to_nat n) p.

(** The decimal digits [operator<<] writes for an unsigned number below [10 ^ fuel]. *)
Fixpoint print_dec (fuel : nat) (n : Z) (acc : list Z) : list Z :=
  match fuel with
  | O => acc
  | S f => let acc := 48 + n mod 10 :: acc in if n <? 10 then acc else print_dec f (n / 10) acc
  end.

Section Ops.
Context `{Allocator} {I : Inet}.

(** [body] runs in the scope of the string object at [t]. *)
Definition scoped {A} (t : Z) (body : St mem A) : St mem A := fun m =>
  match body m with
  | Ok a m' => (do! dtor t in ret a) m'
  | Throw e m' => (do! dtor t in throw e) m'
  | UB => UB
  | NoFuel => NoFuel
  end.

(** [inet_pton(family, src, dst)]; the result, whether [src] was an address, is ignored
    by the callers. *)
Definition inet_pton (family src dst : Z) : St mem unit :=
  let! s := load_cstr src in
  match pton family s with
  | Some a => store_bytes dst a
  | None => ret tt
  end.

(** ** Endpoint *)

Definition setAddress (this family host port : Z) : St mem unit :=
  if family =? AF_INET then
    do! memset this 0 16 in
    do! store_word 2 this AF_INET in
    let! s := c_str host in
    do! inet_pton AF_INET s (this + 4) in
    store_word 2 (this + 2) (htons port)
  else if family =? AF_INET6 then
    do! memset this 0 28 in
    do! store_word 2 this AF_INET6 in
    let! s := c_str host in
    do! inet_pton AF_INET6 s (this + 8) in
    store_word 2 (this + 2) (htons port)
  else ret tt.

Definition Endpoint_empty (this : Z) : St mem unit := memset this 0 28.

(** [Endpoint(family, host)] with the text ["IP:Port"]. *)
Definition Endpoint_host (this family host h t : Z) : St mem unit :=
  let! e := empty host in
  if e then ret tt
  else
    let! pos := find_char host colon 0 in
    do! substr h host 0 pos in
    scoped h (
      let! portPart :=
        (do! substr t host (u64 (pos + 1)) npos in
         scoped t (let! p := c_str t in let! s := load_cstr p in or_throw (stoul s))) in
      setAddress this family h (u16 portPart)).

(** [Endpoint(family, host, port)]. *)
Definition Endpoint_host_port (this family host port : Z) : St mem unit :=
  setAddress this family host port.

(** [Endpoint(family, port)]. *)
Definition Endpoint_port (this family port : Z) : St mem unit :=
  if family =? AF_INET then
    do! memset this 0 16 in
    do! store_word 2 this AF_INET in
    store_word 2 (this + 2) (htons port)
  else if family =? AF_INET6 then
    do! memset this 0 28 in
    do! store_word 2 this AF_INET6 in
    store_word 2 (this + 2) (htons port)
  else ret tt.

(** [Endpoint(addr)]. *)
Definition Endpoint_sockaddr (this addr : Z) : St mem unit :=
  let! family := load_word 2 addr in
  if family =? AF_INET then memcpy this addr 16
  else if family =? AF_INET6 then memcpy this addr 28
  else ret tt.

(** ** AddressHelper *)

(** [printAddress(out, addr)]: the text it writes. *)
Definition printAddress (addr : Z) : St mem (list Z) :=
  let! family := load_word 2 addr in
  if family =? AF_INET then
    let! a := load_bytes 4 (addr + 4) in
    let! port := load_word 2 (addr + 2) in
    ret (ntop AF_INET a ++ colon :: print_dec 5 (ntohs port) [])
  else if family =? AF_INET6 then
    let! a := load_bytes 16 (addr + 8) in
    let! port := load_word 2 (addr + 2) in
    ret (ntop AF_INET6 a ++ colon :: print_dec 5 (ntohs port) [])
  else ret [].

Definition formatAddress (addr : Z) : St mem (list Z) := printAddress addr.

End Ops.

(** ** Reference definitions *)

(** The parts of the text in front of and behind the first colon. *)
Fixpoint before (l : list Z) : list Z :=
  match l with
  | [] => []
  | c :: t => if c =? colon then [] else c :: before t
  end.

Fixpoint after (l : list Z) : option (list Z) :=
  match l with
  | [] => None
  | c :: t => if c =? colon then Some t else after t
  end.

(** The port of the text; without a colon the whole text is read as a number. *)
Definition port_of (l : list Z) : Z + exn :=
  match stoul (Po.c_str (default l (after l))) with
  | inl v => inl (u16 v)
  | inr e => inr e
  end.

(** The bytes of a [sockaddr_in] and of a [sockaddr_in6]. *)
Definition sockaddr_in (a : list Z) (port : Z) : list Z :=
  [2; 0; port / 256; port mod 256] ++ a ++ replicate 8 0.
Definition sockaddr_in6 (a : list Z) (port : Z) : list Z :=
  [10; 0; port / 256; port mod 256] ++ replicate 4 0 ++ a ++ replicate 4 0.

(** What [setAddress] leaves in an endpoint that held the bytes [old]. *)
Definition set_address `{Inet} (family : Z) (text : list Z) (port : Z) (old : list Z) : list Z :=
  if family =? AF_INET then sockaddr_in (default (replicate 4 0) (pton AF_INET text)) port ++ drop 16 old
  else if family =? AF_INET6 then sockaddr_in6 (default (replicate 16 0) (pton AF_INET6 text)) port
  else old.

End Ep.
