(* ===== verification/EndpointSpec.v ===== *)
(** Lemmas about endpoints: C strings in memory, [find], the destructor of a string, the
    layout of addresses, and what the constructors leave in an endpoint. *)
From S2P Require Import Prelude Memory String StringRep StringData StringOps StringSearch.
From S2P Require Import ProgramOptions ProgramOptionsClaims Endpoint.

Import Str Ep.

(** ** Text *)

Lemma c_str_split l : exists r, l ++ [0] = (Po.c_str l ++ [0]) ++ r.
Proof.
  induction l as [|c l [r IH]]; cbn [Po.c_str app]; [by exists []|].
  destruct (c =? 0) eqn:E; bool_prop.
  - subst. by exists (l ++ [0]).
  - exists r. cbn. by rewrite IH.
Qed.

Lemma c_str_nonzero l : Forall (fun b => b <> 0) (Po.c_str l).
Proof. induction l as [|c l IH]; cbn; [done|]. destruct (c =? 0) eqn:E; bool_prop; [done|]. by constructor. Qed.

Lemma c_str_id l : Forall (fun b => b <> 0) l -> Po.c_str l = l.
Proof. induction 1 as [|c l Hc Hl IH]; cbn; [done|]. destruct (c =? 0) eqn:E; bool_prop; [done|]. by rewrite IH. Qed.

Lemma load_cstr_ok m p l : pts m p (l ++ [0]) -> load_cstr p m = Ok (Po.c_str l) m.
Proof.
  intros Hp. destruct (c_str_split l) as [r Hr]. rewrite Hr in Hp. apply pts_app in Hp as [Hp _].
  unfold load_cstr, bind. rewrite (traits_length_ok _ _ _ Hp (c_str_nonzero l)).
  unfold zlen. rewrite Nat2Z.id. apply pts_app in Hp as [Hp _]. by apply load_bytes_ok.
Qed.

(** ** The first colon *)

Lemma before_after l : match after l with
  | Some t => l = before l ++ colon :: t
  | None => before l = l
  end.
Proof.
  induction l as [|c l IH]; cbn; [done|]. destruct (c =? colon) eqn:E; bool_prop; [by subst|].
  destruct (after l); cbn; by f_equal.
Qed.

Lemma before_no_colon l : colon ∉ before l.
Proof.
  induction l as [|c l IH]; cbn; [by apply not_elem_of_nil|]. destruct (c =? colon) eqn:E; bool_prop.
  - apply not_elem_of_nil.
  - apply not_elem_of_cons. split; [congruence|done].
Qed.

Lemma split_text h t : colon ∉ h -> before (h ++ colon :: t) = h /\ after (h ++ colon :: t) = Some t.
Proof.
  induction h as [|c h IH]; intros Hh; cbn; [done|]. apply not_elem_of_cons in Hh as [Hc Hh].
  destruct (c =? colon) eqn:E; bool_prop; [congruence|]. destruct (IH Hh) as [-> ->]. done.
Qed.

Lemma traits_find_ok m p l : pts m p l ->
  traits_find (length l) p colon m = Ok (match after l with Some _ => p + zlen (before l) | None => 0 end) m.
Proof.
  revert p. induction l as [|c l IH]; intros p Hp; cbn [traits_find length]; [done|].
  apply pts_cons in Hp as [Hc Hp]. unfold bind. rewrite (load_ok _ _ _ Hc). cbn [after before].
  destruct (c =? colon); [by rewrite Z.add_0_r|]. rewrite (IH _ Hp). destruct (after l); [|done].
  rewrite zlen_cons. f_equal. lia.
Qed.

(** The position of the colon. *)
Definition colon_pos (l : list Z) : Z := match after l with Some _ => zlen (before l) | None => npos end.

Lemma find_char_ok m host l q c : RepAt m host l q c -> find_char host colon 0 m = Ok (colon_pos l) m.
Proof.
  intros HR. pose proof (rep_cap _ _ _ _ _ HR). destruct (rep_chars HR) as (Hp & Hr). unfold find_char, bind, c_str, colon_pos.
  rewrite (rep_size _ _ _ _ _ HR). destruct (zlen l <=? 0) eqn:E; bool_prop.
  { destruct l; [done|]. rewrite zlen_cons in E. pose proof (zlen_nonneg l). lia. }
  rewrite (rep_begin _ _ _ _ _ HR), Z.sub_0_r, Z.add_0_r. unfold zlen at 1. rewrite Nat2Z.id, (traits_find_ok _ _ _ Hp).
  pose proof (before_after l) as Hs. destruct (after l) as [t|]; [|done].
  pose proof (zlen_nonneg (before l)). pose proof (zlen_nonneg t).
  assert (zlen l = zlen (before l) + (1 + zlen t)) by (rewrite Hs at 1; by rewrite zlen_app, zlen_cons).
  destruct (q + zlen (before l) =? 0) eqn:E2; bool_prop; [lia|].
  unfold ret. rewrite u64_small by lia. f_equal. lia.
Qed.

(** ** Frames *)

(** Only the bytes in [r] change, and no block outside of it. *)
Definition touches (r : Z -> Prop) (m m' : mem) : Prop :=
  (forall a, ~ r a -> bytes m' !! a = bytes m !! a) /\ (forall a, ~ r a -> blocks m' !! a = blocks m !! a).

Lemma touches_refl r m : touches r m m.
Proof. done. Qed.

Lemma touches_trans r m m1 m2 : touches r m m1 -> touches r m1 m2 -> touches r m m2.
Proof. intros [H1 H1'] [H2 H2']. split; intros a Ha; [rewrite H2, H1|rewrite H2', H1']; done. Qed.

Lemma touches_pts r m m' q k : touches r m m' -> (forall a, q <= a < q + zlen k -> ~ r a) -> pts m q k -> pts m' q k.
Proof.
  intros [Hr _] Ho Hk i x Hi. rewrite Hr; [auto|]. apply lookup_lt_Some in Hi. apply Ho. unfold zlen. lia.
Qed.

Lemma touches_rep r m m' str k q c :
  touches r m m' -> (forall a, foot str q c a -> ~ r a) -> RepAt m str k q c -> RepAt m' str k q c.
Proof.
  intros [Hr Hb] Ho HR. pose proof (rep_cap _ _ _ _ _ HR). destruct HR as (d & R & Ht). exists d. split; [|done].
  eapply raw_frame; [| |exact R].
  - intros a x Ha Hf. rewrite Hr; auto.
  - intros Hq. rewrite Hb; [done|]. apply Ho. unfold foot. lia.
Qed.

(** The destructor releases what the object owns. *)
Lemma dtor_ok `{Allocator} m this l p cap : RepAt m this l p cap ->
  exists m', dtor this m = Ok tt m' /\ touches (foot this p cap) m m'.
Proof.
  intros HR. pose proof (rep_cap _ _ _ _ _ HR). destruct HR as (d & R & _). destruct (in_buffer_ok R) as (b & Hib & Hf).
  unfold dtor, bind. destruct b.
  - destruct Hf as (Hb & _). rewrite (load_ok _ _ _ Hb).
    exists m. split; [|apply touches_refl]. unfold in_buffer, bind in Hib. rewrite (load_ok _ _ _ Hb) in Hib.
    unfold ret in Hib. destruct (zlen l =? nullchar); [done|]. done.
  - pose proof Hf as (Hb & Hc & _ & _ & _ & Hbl & Hdj). rewrite (load_ok _ _ _ Hb), Z.eqb_refl.
    rewrite (get_ptr_ok R), (capacity_ok R).
    destruct (release_old m m this p (zlen l) cap d cap R Hib) as (m1 & -> & _ & Hb1 & _ & Hbl1 & Hout); [done..|].
    rewrite (store_ok _ _ _ _ Hb1). eexists. split; [done|]. split; intros a Ha; unfold foot in Ha.
    + rewrite lookup_upd. change (zlen [0]) with 1. rewrite decide_False by lia. apply Hout. lia.
    + cbn. rewrite Hbl1, lookup_delete_ne; [done|]. lia.
Qed.

(** ** Writing an address *)

Definition region (p n a : Z) : Prop := p <= a < p + n.

Lemma store_part_ok m this l i k : pts m this l -> (i + length k <= length l)%nat ->
  exists m', store_bytes (this + Z.of_nat i) k m = Ok tt m' /\ pts m' this (splice i k l) /\
    touches (region this (zlen l)) m m'.
Proof.
  intros Hl Hi. exists (upd m (this + Z.of_nat i) k). split_and!.
  - eapply (store_bytes_ok _ _ (take (length k) (drop i l))); [by apply pts_take, pts_drop|].
    rewrite length_take, length_drop. lia.
  - by apply pts_upd_in.
  - split; [|done]. intros a Ha. rewrite lookup_upd. unfold region, zlen in *. by rewrite decide_False by lia.
Qed.

Lemma htons_bytes port : 0 <= port < 2 ^ 16 -> le_bytes 2 (htons port) = [port / 256; port mod 256].
Proof.
  intros Hp. unfold htons. cbn [le_bytes]. f_equal; [|f_equal]; Z.to_euclidean_division_equations; lia.
Qed.

Lemma ntohs_bytes port : 0 <= port < 2 ^ 16 -> ntohs (le_val [port / 256; port mod 256]) = port.
Proof.
  intros Hp. unfold ntohs, htons. cbn [le_val]. Z.to_euclidean_division_equations; lia.
Qed.

Section Address.
Context `{Allocator} {I : Inet} {L : InetLaws I}.

(** The common part of the two families. *)
Definition fill (this family : Z) (n : nat) (off host port : Z) : St mem unit :=
  do! memset this 0 n in
  do! store_word 2 this family in
  let! s := c_str host in
  do! inet_pton family s (this + off) in
  store_word 2 (this + 2) (htons port).

Definition filled (family : Z) (n off : nat) (text : list Z) (port : Z) (old : list Z) : list Z :=
  let l := splice 0 (le_bytes 2 family) (splice 0 (replicate n 0) old) in
  splice 2 (le_bytes 2 (htons port)) (match pton family text with Some a => splice off a l | None => l end).

Lemma fill_ok m this family n off host l p cap port old :
  pts m this old -> (n <= length old)%nat -> (2 <= n)%nat -> (off + addr_len family <= length old)%nat -> (4 <= length old)%nat ->
  RepAt m host l p cap -> (forall a, foot host p cap a -> ~ region this (zlen old) a) ->
  exists m', fill this family n (Z.of_nat off) host port m = Ok tt m' /\
    pts m' this (filled family n off (Po.c_str l) port old) /\ touches (region this (zlen old)) m m'.
Proof.
  intros Hold Hn Hn2 Hoff H4 HR Hsep. unfold fill, filled, memset, store_word, bind.
  destruct (store_part_ok m this old 0 (replicate n 0) Hold) as (m1 & H1 & P1 & T1); [by rewrite length_replicate|].
  rewrite Z.add_0_r in H1. change (u8 0) with 0. rewrite H1.
  assert (length (splice 0 (replicate n 0) old) = length old) as L1
    by (apply length_splice; by rewrite length_replicate).
  destruct (store_part_ok m1 this _ 0 (le_bytes 2 family) P1) as (m2 & H2 & P2 & T2); [rewrite length_le_bytes; lia|].
  rewrite Z.add_0_r in H2. rewrite H2.
  assert (length (splice 0 (le_bytes 2 family) (splice 0 (replicate n 0) old)) = length old) as L2
    by (rewrite length_splice; [done|]; rewrite length_le_bytes; lia).
  set (l2 := splice 0 (le_bytes 2 family) _) in *.
  assert (touches (region this (zlen old)) m m2) as T02.
  { eapply touches_trans; [exact T1|]. unfold zlen in *. by rewrite <-L1. }
  pose proof (touches_rep _ _ _ _ _ _ _ T02 Hsep HR) as HR2. unfold c_str. rewrite (rep_begin _ _ _ _ _ HR2).
  unfold inet_pton, bind. rewrite (load_cstr_ok _ _ _ (rep_pts _ _ _ _ _ HR2)).
  assert (exists m3 l3, match pton family (Po.c_str l) with Some a => store_bytes (this + Z.of_nat off) a | None => ret tt end m2 = Ok tt m3 /\
    l3 = match pton family (Po.c_str l) with Some a => splice off a l2 | None => l2 end /\
    pts m3 this l3 /\ length l3 = length old /\ touches (region this (zlen old)) m m3) as (m3 & l3 & H3 & <- & P3 & L3 & T3).
  { destruct (pton family (Po.c_str l)) as [a|] eqn:Ha; [|by exists m2, l2].
    apply pton_length in Ha. destruct (store_part_ok m2 this l2 off a P2) as (m3 & H3 & P3 & T3); [lia|].
    exists m3, (splice off a l2). split_and!; [done..| |].
    - rewrite length_splice; lia.
    - eapply touches_trans; [exact T02|]. unfold zlen in *. by rewrite <-L2. }
  rewrite H3. destruct (store_part_ok m3 this l3 2 (le_bytes 2 (htons port)) P3) as (m4 & H4' & P4 & T4); [rewrite length_le_bytes; lia|].
  exists m4. split_and!; [done|done|]. eapply touches_trans; [exact T3|]. unfold zlen in *. by rewrite <-L3.
Qed.

(** Lists of a known length. *)
Ltac enumerate l := repeat (destruct l as [|? l]; try (exfalso; cbn in *; lia)).

Lemma filled_ipv4 text port old : 0 <= port < 2 ^ 16 -> length old = 28%nat ->
  filled AF_INET 16 4 text port old = set_address AF_INET text port old.
Proof.
  intros Hp Ho. unfold filled, set_address, sockaddr_in. rewrite htons_bytes by done. cbn [Z.eqb AF_INET].
  enumerate old. destruct (pton AF_INET text) as [a|] eqn:Ha; [|done].
  apply pton_length in Ha. change (addr_len AF_INET) with 4%nat in Ha. by enumerate a.
Qed.

Lemma filled_ipv6 text port old : 0 <= port < 2 ^ 16 -> length old = 28%nat ->
  filled AF_INET6 28 8 text port old = set_address AF_INET6 text port old.
Proof.
  intros Hp Ho. unfold filled, set_address, sockaddr_in6. rewrite htons_bytes by done. cbn [Z.eqb AF_INET].
  enumerate old. destruct (pton AF_INET6 text) as [a|] eqn:Ha; [|done].
  apply pton_length in Ha. change (addr_len AF_INET6) with 16%nat in Ha. by enumerate a.
Qed.

Lemma setAddress_ok m this family host l p cap port old :
  pts m this old -> length old = 28%nat -> 0 <= port < 2 ^ 16 ->
  RepAt m host l p cap -> (forall a, foot host p cap a -> ~ region this 28 a) ->
  exists m', setAddress this family host port m = Ok tt m' /\
    pts m' this (set_address family (Po.c_str l) port old) /\ touches (region this 28) m m'.
Proof.
  intros Hold Ho Hp HR Hsep. assert (zlen old = 28) as Hz by (unfold zlen; lia). rewrite <-Hz in *.
  unfold setAddress. destruct (family =? AF_INET) eqn:E4; bool_prop.
  { subst. rewrite <-filled_ipv4 by done. apply (fill_ok m this AF_INET 16 4 host l p cap port old); auto; unfold addr_len; cbn; lia. }
  destruct (family =? AF_INET6) eqn:E6; bool_prop.
  { subst. rewrite <-filled_ipv6 by done. apply (fill_ok m this AF_INET6 28 8 host l p cap port old); auto; unfold addr_len; cbn; lia. }
  exists m. unfold set_address. rewrite (proj2 (Z.eqb_neq _ _) E4), (proj2 (Z.eqb_neq _ _) E6). by split_and!.
Qed.

Lemma length_set_address family text port old : length old = 28%nat -> length (set_address family text port old) = 28%nat.
Proof.
  intros Ho. unfold set_address, sockaddr_in, sockaddr_in6. repeat case_test; rewrite ?length_app, ?length_drop, ?length_replicate, ?Ho; try done.
  - destruct (pton AF_INET text) as [a|] eqn:Ha; [apply pton_length in Ha; cbn in *; lia|done].
  - destruct (pton AF_INET6 text) as [a|] eqn:Ha; [apply pton_length in Ha; cbn in *; lia|done].
Qed.

(** ** Printing *)

(** The fields of an address. *)
Lemma read_field m p l k pre post : l = pre ++ k ++ post -> pts m p l ->
  load_bytes (length k) (p + zlen pre) m = Ok k m.
Proof. intros -> Hp. apply pts_app in Hp as [_ Hp]. apply pts_app in Hp as [Hp _]. by apply load_bytes_ok. Qed.

Lemma printAddress_ipv4 m addr a port : length a = 4%nat -> 0 <= port < 2 ^ 16 -> pts m addr (sockaddr_in a port) ->
  printAddress addr m = Ok (ntop AF_INET a ++ colon :: print_dec 5 port []) m.
Proof.
  intros Ha Hp Hs. unfold printAddress, load_word, bind.
  pose proof (read_field m addr _ [2; 0] [] ([port / 256; port mod 256] ++ a ++ replicate 8 0) eq_refl Hs) as H0.
  pose proof (read_field m addr _ [port / 256; port mod 256] [2; 0] (a ++ replicate 8 0) eq_refl Hs) as H2.
  pose proof (read_field m addr _ a [2; 0; port / 256; port mod 256] (replicate 8 0) eq_refl Hs) as H4.
  change (zlen []) with 0 in H0. rewrite Z.add_0_r in H0. rewrite Ha in H4.
  change (length [2; 0]) with 2%nat in H0. change (zlen [2; 0]) with 2 in H2.
  change (length [port / 256; port mod 256]) with 2%nat in H2. change (zlen [2; 0; port / 256; port mod 256]) with 4 in H4.
  rewrite H0. unfold ret. change (le_val [2; 0] =? AF_INET) with true. cbv beta iota. rewrite H4, H2. by rewrite ntohs_bytes.
Qed.

Lemma printAddress_ipv6 m addr a port : length a = 16%nat -> 0 <= port < 2 ^ 16 -> pts m addr (sockaddr_in6 a port) ->
  printAddress addr m = Ok (ntop AF_INET6 a ++ colon :: print_dec 5 port []) m.
Proof.
  intros Ha Hp Hs. unfold printAddress, load_word, bind.
  pose proof (read_field m addr _ [10; 0] [] ([port / 256; port mod 256] ++ replicate 4 0 ++ a ++ replicate 4 0) eq_refl Hs) as H0.
  pose proof (read_field m addr _ [port / 256; port mod 256] [10; 0] (replicate 4 0 ++ a ++ replicate 4 0) eq_refl Hs) as H2.
  pose proof (read_field m addr _ a [10; 0; port / 256; port mod 256; 0; 0; 0; 0] (replicate 4 0) eq_refl Hs) as H8.
  change (zlen []) with 0 in H0. rewrite Z.add_0_r in H0. rewrite Ha in H8.
  change (length [10; 0]) with 2%nat in H0. change (zlen [10; 0]) with 2 in H2.
  change (length [port / 256; port mod 256]) with 2%nat in H2.
  change (zlen [10; 0; port / 256; port mod 256; 0; 0; 0; 0]) with 8 in H8.
  rewrite H0. unfold ret. change (le_val [10; 0] =? AF_INET) with false. change (le_val [10; 0] =? AF_INET6) with true.
  cbv beta iota. rewrite H8, H2. by rewrite ntohs_bytes.
Qed.
End Address.

(** ** The scope of a string object *)

Section Scope.
Context `{Allocator}.

Lemma wpx_scoped {A} t (body : St mem A) m (Q : A -> mem -> Prop) (X : exn -> mem -> Prop) :
  wpx body m
    (fun a m' => exists l p cap, RepAt m' t l p cap /\ forall m'', touches (foot t p cap) m' m'' -> Q a m'')
    (fun e m' => exists l p cap, RepAt m' t l p cap /\ forall m'', touches (foot t p cap) m' m'' -> X e m'') ->
  wpx (scoped t body) m Q X.
Proof.
  unfold wpx, scoped. destruct (body m) as [a m'|e m'| |]; [..|done|done]; intros (l & p & cap & HR & Hk);
    destruct (dtor_ok _ _ _ _ _ HR) as (m'' & Hd & Ht); unfold bind; rewrite Hd; cbn; by apply Hk.
Qed.

(** What lies outside a new object stays outside of it. *)
Lemma evolves_region s m m' p cap q k :
  evolves s m s (-1) m' p cap -> pts m q k -> disj s 32 q (zlen k) ->
  pts m' q k /\ forall a, foot s p cap a -> ~ region q (zlen k) a.
Proof.
  intros Hev Hk Hd. split.
  - eapply evolves_pts; [exact Hev|exact Hk|]. by eapply outside_clear; [right|].
  - intros a Hf Hr. destruct Hev as (_ & H2 & _). unfold region, disj, foot in *.
    destruct (H2 a Hf) as [|Hn]; [lia|].
    destruct (lookup_lt_is_Some_2 k (Z.to_nat (a - q))) as [x Hx]; [unfold zlen in *; lia|].
    specialize (Hk _ _ Hx). replace (q + Z.of_nat (Z.to_nat (a - q))) with a in Hk by lia. congruence.
Qed.

Lemma evolves_slot s m m' p cap t :
  evolves s m s (-1) m' p cap -> slot m t -> disj s 32 t 32 -> slot m' t.
Proof.
  intros Hev (H0 & H1 & (d & Hd & Hl) & Hb) Hdj. split_and!; [done|done| |].
  - exists d. split; [|done]. apply (evolves_region s m m' p cap t d); [done|done|by rewrite Hl].
  - intros a Ha. destruct (mapped_byte m t 32 a (ex_intro _ d (conj Hd Hl)) Ha) as [x Hx].
    destruct Hev as (_ & _ & _ & _ & H5). rewrite (H5 a x Hx); [by apply Hb|]. unfold foot, disj in *. lia.
Qed.

(** [substr] into fresh storage. *)
Lemma substr_ok m s host l q c pos count :
  slot m s -> RepAt m host l q c -> separate s s (-1) host q c -> 0 <= pos <= zlen l -> 0 <= count -> zlen l < 2 ^ 64 - 1 ->
  wpx (substr s host pos count) m
    (fun _ m' => exists p cap, RepAt m' s (take (Z.to_nat count) (drop (Z.to_nat pos) l)) p cap /\
       evolves s m s (-1) m' p cap /\ RepAt m' host l q c /\ separate s p cap host q c)
    (fun e m' => (e = BadAlloc /\ 30 < zlen l) /\ touches (region s 32) m m').
Proof.
  intros Hsl HR Hsep Hpos Hc Hl. eapply wpx_mono; [apply (ctor_substr_ok m s host l q c pos count); (done || lia)| |].
  - intros _ m' (_ & (p & cap & HR' & Hev) & HRh). exists p, cap. split_and!; [done..|].
    by destruct (evolves_rep _ _ _ _ _ _ _ _ _ _ _ Hev HR Hsep ltac:(by right)).
  - intros e m'. case_test; [lia|]. intros (-> & Hn & Ho & Hb). split; [done|]. split; [done|]. by rewrite Hb.
Qed.
End Scope.

(** ** The constructor from text *)

Lemma colon_pos_range l : zlen l < 2 ^ 64 - 1 ->
  0 <= colon_pos l /\ 0 <= u64 (colon_pos l + 1) <= zlen l /\
  take (Z.to_nat (colon_pos l)) (drop 0 l) = before l /\
  take (Z.to_nat npos) (drop (Z.to_nat (u64 (colon_pos l + 1))) l) = default l (after l).
Proof.
  intros Hl. pose proof (before_after l) as Hs. unfold colon_pos. pose proof (zlen_nonneg (before l)).
  pose proof (zlen_nonneg l). destruct (after l) as [t|] eqn:Ha; cbn [from_option id].
  - pose proof (zlen_nonneg t).
    assert (zlen l = zlen (before l) + (1 + zlen t)) as Hz by (rewrite Hs at 1; by rewrite zlen_app, zlen_cons).
    rewrite u64_small by lia. split_and!; [lia..| |].
    + unfold zlen. rewrite Nat2Z.id. cbn [drop].
      transitivity (take (length (before l)) (before l ++ colon :: t)); [by rewrite <-Hs|by rewrite take_app_length].
    + transitivity (drop (length (before l ++ [colon])) ((before l ++ [colon]) ++ t)); [|by rewrite drop_app_length].
      rewrite <-app_assoc. cbn [app]. rewrite <-Hs, length_app. cbn [length].
      replace (Z.to_nat (zlen (before l) + 1)) with (length (before l) + 1)%nat by (unfold zlen; lia).
      apply take_ge. rewrite length_drop. unfold npos, SIZE_MAX, zlen in *. lia.
  - change (u64 (npos + 1)) with 0. split_and!; try done; cbn [drop Z.to_nat]; rewrite ?Hs; apply take_ge;
      unfold npos, SIZE_MAX, zlen in *; lia.
Qed.

(** The objects the constructor works on: the endpoint, the text, and stack storage for the
    two strings it makes. *)
Record host_args (m : mem) (this : Z) (old : list Z) (host : Z) (l : list Z) (q c h t : Z) : Prop := {
  ha_old : pts m this old;
  ha_len : length old = 28%nat;
  ha_host : RepAt m host l q c;
  ha_bound : zlen l < 2 ^ 64 - 1;
  ha_this : forall a, foot host q c a -> ~ region this 28 a;
  ha_h : slot m h;
  ha_t : slot m t;
  ha_sep_h : separate h h (-1) host q c;
  ha_sep_t : separate t t (-1) host q c;
  ha_ht : disj h 32 t 32;
  ha_h_this : disj h 32 this 28;
  ha_t_this : disj t 32 this 28
}.

Section Host.
Context `{Allocator} {I : Inet} {L : InetLaws I}.

(** A string object at [t] was made and destroyed. *)
Definition passed (t : Z) (m m' : mem) : Prop := touches (fun a => region t 32 a \/ bytes m !! a = None) m m'.

Lemma evolves_passed t m m1 p cap m2 :
  evolves t m t (-1) m1 p cap -> touches (foot t p cap) m1 m2 -> passed t m m2.
Proof.
  intros (H1 & H2 & _ & _ & H5) [Ht Htb].
  assert (forall a, ~ (region t 32 a \/ bytes m !! a = None) ->
    exists x, bytes m !! a = Some x /\ ~ foot t t (-1) a /\ ~ foot t p cap a) as Hout.
  { intros a Ha. destruct (bytes m !! a) as [x|] eqn:Hx; [|naive_solver]. exists x. unfold region in Ha.
    assert (~ foot t t (-1) a) by (unfold foot; naive_solver lia). split_and!; [done..|].
    intros Hf. destruct (H2 a Hf); [done|congruence]. }
  split; intros a Ha; destruct (Hout a Ha) as (x & Hx & Hf & Hf').
  - rewrite Ht by done. rewrite Hx. by apply H1.
  - rewrite Htb by done. by eapply H5.
Qed.

Lemma passed_region t m m' : touches (region t 32) m m' -> passed t m m'.
Proof. intros [H1 H2]. split; intros a Ha; [apply H1|apply H2]; naive_solver. Qed.

Lemma passed_pts t m m' q k : passed t m m' -> disj t 32 q (zlen k) -> pts m q k -> pts m' q k.
Proof.
  intros [H1 _] Hd Hk i x Hi. pose proof (Hk _ _ Hi) as Hx. rewrite H1; [done|].
  apply lookup_lt_Some in Hi. unfold region, disj, zlen in *. intros [?|?]; [lia|congruence].
Qed.

Lemma passed_rep t m m' str k q c : passed t m m' -> separate t t (-1) str q c -> RepAt m str k q c -> RepAt m' str k q c.
Proof.
  intros Hp Hsep HR. eapply touches_rep; [exact Hp| |exact HR]. intros a Hf [Hr|Hn].
  - apply (Hsep a); [by left|done].
  - destruct HR as (d & R & _). destruct (raw_foot_mapped _ _ _ _ _ _ _ R Hf). congruence.
Qed.

(** The port behind the colon. *)
Lemma port_part_ok m host l q c t :
  slot m t -> RepAt m host l q c -> separate t t (-1) host q c -> zlen l < 2 ^ 64 - 1 ->
  wpx (do! substr t host (u64 (colon_pos l + 1)) npos in
       scoped t (let! p := c_str t in let! s := load_cstr p in or_throw (stoul s))) m
    (fun v m' => stoul (Po.c_str (default l (after l))) = inl v /\ passed t m m')
    (fun e m' => (stoul (Po.c_str (default l (after l))) = inr e \/ e = BadAlloc /\ 30 < zlen l) /\ passed t m m').
Proof.
  intros Hsl HR Hsep Hl. destruct (colon_pos_range l Hl) as (_ & Hp & _ & Ht). wpxb.
  eapply wpx_mono; [by apply (substr_ok m t host l q c)| |].
  - intros _ m1 (p & cap & HRt & Hev & _). rewrite Ht in HRt. apply wpx_scoped.
    unfold c_str. wpx_run (rep_begin _ _ _ _ _ HRt). wpx_run (load_cstr_ok _ _ _ (rep_pts _ _ _ _ _ HRt)).
    unfold or_throw. destruct (stoul _) as [v|e] eqn:Hv.
    + eapply wpx_ok; [done|]. eexists _, p, cap. split; [done|]. intros m2 Hm2. split; [done|]. by eapply evolves_passed.
    + eapply wpx_throw; [done|]. eexists _, p, cap. split; [done|]. intros m2 Hm2. split; [by left|]. by eapply evolves_passed.
  - intros e m1 [He Hm1]. split; [by right|]. by apply passed_region.
Qed.

Lemma Endpoint_host_ok m this family host h t old l q c :
  host_args m this old host l q c h t -> l <> [] ->
  wpx (Endpoint_host this family host h t) m
    (fun _ m' => exists v, port_of l = inl v /\ pts m' this (set_address family (Po.c_str (before l)) v old) /\
       RepAt m' host l q c)
    (fun e m' => (port_of l = inr e \/ e = BadAlloc /\ 30 < zlen l) /\ pts m' this old /\ RepAt m' host l q c).
Proof.
  intros [Hold Hlen HR Hl Hthis Hsh Hst Hseph Hsept Hht Hh Ht] Hne.
  assert (zlen old = 28) as Hz by (unfold zlen; lia).
  destruct (colon_pos_range l Hl) as (Hp & _ & Htk & _). unfold Endpoint_host, empty.
  wpx_run (rep_size _ _ _ _ _ HR). eapply (wpx_ok _ _ (zlen l =? 0) m); [done|]. cbv beta.
  destruct (zlen l =? 0) eqn:E; bool_prop; [by destruct l|].
  wpx_run (find_char_ok _ _ _ _ _ HR). wpxb.
  pose proof (zlen_nonneg l). eapply wpx_mono; [apply (substr_ok m h host l q c 0); (done || lia)| |].
  2: { intros e m1 [He Hm1]. apply passed_region in Hm1. split_and!; [by right| |by eapply passed_rep].
       eapply passed_pts; [done| |done]. by rewrite Hz. }
  intros _ m1 (p1 & c1 & HRh & Hev & HR1 & Hsep1). change (Z.to_nat 0) with O in HRh. rewrite Htk in HRh.
  destruct (evolves_region _ _ _ _ _ _ _ Hev Hold) as [Hold1 Hfh]; [by rewrite Hz|]. rewrite Hz in Hfh.
  pose proof (evolves_slot _ _ _ _ _ _ Hev Hst Hht) as Hst1.
  assert (separate t t (-1) h p1 c1) as Htp.
  { intros a Hfa Hfb. destruct Hst as (_ & _ & (d & Hd & Hdl) & _).
    destruct (evolves_region _ _ _ _ _ _ _ Hev Hd) as [_ Hr]; [by rewrite Hdl|].
    apply (Hr a Hfb). rewrite Hdl. unfold region, foot in *. lia. }
  apply wpx_scoped, wpx_bind. eapply wpx_mono; [by apply (port_part_ok m1 host l q c t)| |].
  - intros v m2 [Hv Hp2]. cbv beta.
    pose proof (passed_rep _ _ _ _ _ _ _ Hp2 Htp HRh) as HRh2. pose proof (passed_rep _ _ _ _ _ _ _ Hp2 Hsept HR1) as HR2.
    pose proof (passed_pts _ _ _ _ _ Hp2 ltac:(by rewrite Hz) Hold1) as Hold2.
    destruct (setAddress_ok m2 this family h _ _ _ (u16 v) old Hold2 Hlen (wrap_range 16 v ltac:(lia)) HRh2 Hfh) as (m3 & Hrun & P3 & T3).
    eapply wpx_ok; [exact Hrun|]. exists (before l), p1, c1. split; [by eapply touches_rep|].
    intros m4 T4. exists (u16 v). unfold port_of. rewrite Hv. split_and!; [done| |].
    + eapply touches_pts; [exact T4| |exact P3]. intros a Ha Hf. apply (Hfh a Hf).
      pose proof (length_set_address family (Po.c_str (before l)) (u16 v) old Hlen) as Hlen'. unfold zlen, region in *. lia.
    + eapply touches_rep; [exact T4| |eapply touches_rep; [exact T3|exact Hthis|exact HR2]]. intros a Hf Hf'. by apply (Hsep1 a).
  - intros e m2 [He Hp2]. exists (before l), p1, c1. split; [by eapply passed_rep|]. intros m3 T3. split_and!.
    + unfold port_of. destruct He as [->|?]; [by left|by right].
    + eapply touches_pts; [exact T3| |eapply passed_pts; [exact Hp2|by rewrite Hz|exact Hold1]].
      intros a Ha Hf. apply (Hfh a Hf). unfold region. lia.
    + eapply touches_rep; [exact T3| |by eapply passed_rep]. intros a Hf Hf'. by apply (Hsep1 a).
Qed.
End Host.
