(* ===== verification/EndpointClaims.v ===== *)
(** The theorems about endpoints: an IPv4 address that is printed and read back is the same
    endpoint; no text gives an IPv6 endpoint another address than the unspecified one; and
    an implementation of [inet_pton] and [inet_ntop] that meets what the theorems rely on. *)
From S2P Require Import Prelude Memory String StringRep StringData StringOps StringSearch StringClaims.
From S2P Require Import ProgramOptions ProgramOptionsClaims Endpoint EndpointSpec.

Import Str Ep.

(** ** Ports *)

Lemma print_dec_eq f n acc : print_dec f n acc = dec f n acc.
Proof. revert n acc. induction f as [|f IH]; intros n acc; cbn; [done|]. by destruct (n <? 10). Qed.

Lemma dec_digits f n g : Forall (fun c => 48 <= c <= 57) g -> Forall (fun c => 48 <= c <= 57) (dec f n g).
Proof.
  revert n g. induction f as [|f IH]; intros n g Hg; cbn [dec]; [done|]. cbv zeta.
  assert (Forall (fun c => 48 <= c <= 57) (48 + n mod 10 :: g))
    by (constructor; [pose proof (Z.mod_pos_bound n 10); lia|done]).
  destruct (n <? 10); auto.
Qed.

Lemma dec_length f n g : (length (dec f n g) <= f + length g)%nat.
Proof.
  revert n g. induction f as [|f IH]; intros n g; cbn [dec]; [done|]. cbv zeta.
  destruct (n <? 10); [cbn; lia|]. etrans; [apply IH|]. cbn. lia.
Qed.

Lemma stoul_dec port : 0 <= port < 2 ^ 16 -> stoul (dec 5 port []) = inl port.
Proof.
  intros Hp. destruct (dec_head 5 port []) as (d & t & Hd & Hr & _); [lia|lia|].
  pose proof (read_digits_dec 5 port [] ltac:(lia) ltac:(lia)) as Hrd. cbn [Po.read_digits] in Hrd.
  rewrite Hd in *. unfold stoul. cbn [Po.skip_space]. unfold Po.is_space. case_test; [lia|].
  cbn [Po.read_sign]. do 2 (case_test; [lia|]). rewrite digit_val_dec, Hrd by done.
  case_test; [done|lia].
Qed.

Section Text.
Context `{Allocator} {I : Inet} {L : InetLaws I}.

(** The text of an IPv4 address. *)
Lemma ipv4_text a port : Forall is_byte a -> length a = 4%nat -> 0 <= port < 2 ^ 16 ->
  let l := ntop AF_INET a ++ colon :: print_dec 5 port [] in
  before l = ntop AF_INET a /\ Po.c_str (ntop AF_INET a) = ntop AF_INET a /\ port_of l = inl port /\
  l <> [] /\ zlen l <= 30.
Proof.
  intros Hb Ha Hp l. destruct (ntop_ipv4 a Hb Ha) as [Hc Hn]. rewrite list.Forall_forall in Hc.
  assert (colon ∉ ntop AF_INET a) as Hno by (intros Hin; apply Hc in Hin; unfold colon in Hin; lia).
  destruct (split_text _ (print_dec 5 port []) Hno) as [Hbe Haf].
  pose proof (dec_digits 5 port [] ltac:(done)) as Hd. pose proof (dec_length 5 port []) as Hdl. split_and!.
  - exact Hbe.
  - apply c_str_id, list.Forall_forall. intros x Hx. apply Hc in Hx. lia.
  - unfold port_of, l. rewrite Haf. cbn [from_option id]. rewrite print_dec_eq, c_str_id, stoul_dec.
    + f_equal. apply Z.mod_small. lia.
    + done.
    + eapply list.Forall_impl; [exact Hd|]. cbn. lia.
  - unfold l. destruct (ntop AF_INET a); done.
  - unfold l. rewrite zlen_app, zlen_cons, print_dec_eq. unfold zlen in *. cbn [length Nat.add] in Hdl. lia.
Qed.

(** C21: an IPv4 address survives the round trip through its text: the text
    [formatAddress] makes of a socket address, given to the constructor of an endpoint,
    yields an endpoint with the same family, address and port, without an exception; it
    prints as the same text, and the string it was read from is unchanged. *)
Theorem endpoint_roundtrip (m : mem) (this addr host h t q c port : Z) (a old text : list Z) :
  Forall is_byte a -> length a = 4%nat -> 0 <= port < 2 ^ 16 -> pts m addr (sockaddr_in a port) ->
  formatAddress addr m = Ok text m -> host_args m this old host text q c h t ->
  wp (Endpoint_host this AF_INET host h t) m (fun _ m' =>
    pts m' this (sockaddr_in a port ++ drop 16 old) /\ formatAddress this m' = Ok text m' /\ RepAt m' host text q c).
Proof.
  intros Hb Ha Hp Haddr Hf Hargs. unfold formatAddress in Hf. rewrite (printAddress_ipv4 _ _ _ _ Ha Hp Haddr) in Hf.
  assert (text = ntop AF_INET a ++ colon :: print_dec 5 port []) as -> by congruence.
  destruct (ipv4_text a port Hb Ha Hp) as (Hbe & Hcs & Hport & Hne & Hlen).
  pose proof (Endpoint_host_ok m this AF_INET host h t old _ q c Hargs Hne) as Hw. rewrite Hport, Hbe, Hcs in Hw.
  unfold wpx, wp in *. destruct (Endpoint_host _ _ _ _ _ m) as [u m'|e m'| |]; [|naive_solver lia|done..].
  destruct Hw as (v & [= <-] & Hpts & HR). unfold set_address in Hpts. cbn [Z.eqb AF_INET] in Hpts.
  rewrite (pton_ntop AF_INET) in Hpts by auto. cbn [from_option id] in Hpts. split_and!; [done| |done].
  apply printAddress_ipv4; [done..|]. by apply pts_app in Hpts as [Hpts _].
Qed.

(** A text in front of the first colon is never an IPv6 address. *)
Lemma ipv6_never_parsed l : pton AF_INET6 (Po.c_str (before l)) = None.
Proof.
  destruct (pton AF_INET6 (Po.c_str (before l))) as [a|] eqn:Ha; [|done]. exfalso.
  apply pton_ipv6_colon in Ha. apply (before_no_colon l). clear -Ha.
  induction (before l) as [|c r IH]; cbn in Ha; [done|]. destruct (c =? 0); [by apply elem_of_nil in Ha|].
  apply elem_of_cons in Ha as [->|Ha]; [left|right; auto].
Qed.

(** Whatever the text, an IPv6 endpoint made from it has the unspecified address: the
    constructor cuts the text at its first colon.  Only the port can be taken from it, and
    when it is not a number the exception leaves the endpoint uninitialised. *)
Theorem endpoint_ipv6_unspecified (m : mem) (this host h t q c : Z) (old l : list Z) :
  host_args m this old host l q c h t -> l <> [] ->
  wpx (Endpoint_host this AF_INET6 host h t) m
    (fun _ m' => exists port, pts m' this (sockaddr_in6 (replicate 16 0) port))
    (fun _ m' => pts m' this old).
Proof.
  intros Hargs Hne. eapply wpx_mono; [by apply Endpoint_host_ok| |].
  - intros _ m' (v & _ & Hpts & _). exists v. unfold set_address in Hpts. rewrite ipv6_never_parsed in Hpts. exact Hpts.
  - intros e m' (_ & Hpts & _). exact Hpts.
Qed.

(** An empty text leaves the endpoint as it was, that is uninitialised. *)
Lemma endpoint_empty_text m this family host h t q c :
  RepAt m host [] q c -> Endpoint_host this family host h t m = Ok tt m.
Proof. intros HR. unfold Endpoint_host, empty, bind. by rewrite (rep_size _ _ _ _ _ HR). Qed.

(** A copy of a socket address prints like the original. *)
Lemma endpoint_copy_prints m this addr a port old :
  length a = 4%nat -> 0 <= port < 2 ^ 16 -> pts m addr (sockaddr_in a port) -> pts m this old -> length old = 28%nat ->
  wp (Endpoint_sockaddr this addr) m (fun _ m' => formatAddress this m' = Ok (ntop AF_INET a ++ colon :: print_dec 5 port []) m').
Proof.
  intros Ha Hp Hs Hold Hlen. unfold Endpoint_sockaddr. wpb.
  eapply wp_ok; [apply (load_word_ok 2 m addr [2; 0]); [|done]|].
  { apply (pts_take _ _ _ 2) in Hs. exact Hs. }
  change (le_val [2; 0] =? AF_INET) with true. cbv iota.
  assert (length (sockaddr_in a port) = 16%nat) as Hl by (unfold sockaddr_in; rewrite !length_app, Ha; done).
  rewrite <-Hl. eapply wp_ok.
  - apply (memcpy_ok _ _ _ _ (take 16 old)); [done|by apply pts_take|]. rewrite length_take. lia.
  - apply printAddress_ipv4; [done..|]. apply pts_upd_same.
Qed.

End Text.

(** ** An implementation of the conversions

    Dotted decimal for IPv4; for IPv6 eight groups of four hexadecimal digits, without the
    abbreviations of RFC 5952. *)

Fixpoint split_on (sep : Z) (l : list Z) : list (list Z) :=
  match l with
  | [] => [[]]
  | c :: r =>
      if c =? sep then [] :: split_on sep r
      else match split_on sep r with p :: ps => (c :: p) :: ps | [] => [[c]] end
  end.

Fixpoint join (sep : Z) (ps : list (list Z)) : list Z :=
  match ps with
  | [] => []
  | [p] => p
  | p :: ps => p ++ sep :: join sep ps
  end.

Lemma split_on_piece sep p : sep ∉ p -> split_on sep p = [p].
Proof.
  induction p as [|c p IH]; intros Hp; cbn; [done|]. apply not_elem_of_cons in Hp as [Hc Hp].
  destruct (c =? sep) eqn:E; bool_prop; [congruence|]. by rewrite IH.
Qed.

Lemma split_on_app sep p r : sep ∉ p -> split_on sep (p ++ sep :: r) = p :: split_on sep r.
Proof.
  induction p as [|c p IH]; intros Hp; cbn; [by rewrite Z.eqb_refl|]. apply not_elem_of_cons in Hp as [Hc Hp].
  destruct (c =? sep) eqn:E; bool_prop; [congruence|]. by rewrite IH.
Qed.

Lemma split_on_join sep ps : ps <> [] -> Forall (fun p => sep ∉ p) ps -> split_on sep (join sep ps) = ps.
Proof.
  induction ps as [|p [|p' ps] IH]; intros Hne Hps; [done|..]; apply list.Forall_cons in Hps as [Hp Hps].
  - by apply split_on_piece.
  - change (join sep (p :: p' :: ps)) with (p ++ sep :: join sep (p' :: ps)). rewrite split_on_app by done. f_equal. by apply IH.
Qed.

Definition byte_text (b : Z) : list Z := dec 3 b [].
Definition byte_of (p : list Z) : option Z :=
  let v := Po.read_digits 10 p 0 in if bool_decide (p = byte_text v) then Some v else None.

Definition hex_digit (d : Z) : Z := if d <? 10 then 48 + d else 87 + d.
Definition hex_val (c : Z) : Z := if c <? 58 then c - 48 else c - 87.
Definition hex_text (b : Z) : list Z := [hex_digit (b / 16); hex_digit (b mod 16)].
Definition hex_of (x y : Z) : Z := 16 * hex_val x + hex_val y.

(** Two bytes make a group. *)
Fixpoint ipv6_text (a : list Z) : list Z :=
  match a with
  | x :: y :: ((_ :: _) as r) => hex_text x ++ hex_text y ++ colon :: ipv6_text r
  | x :: y :: [] => hex_text x ++ hex_text y
  | _ => []
  end.
Fixpoint ipv6_bytes (n : nat) (s : list Z) : list Z :=
  match n, s with
  | S n, a :: b :: c :: d :: r => hex_of a b :: hex_of c d :: ipv6_bytes n (drop 1 r)
  | _, _ => []
  end.

Definition plain_pton (family : Z) (s : list Z) : option (list Z) :=
  if family =? AF_INET then
    match split_on 46 s with
    | [p; q; r; t] =>
        match byte_of p, byte_of q, byte_of r, byte_of t with
        | Some w, Some x, Some y, Some z => Some [w; x; y; z]
        | _, _, _, _ => None
        end
    | _ => None
    end
  else if family =? AF_INET6 then
    let a := ipv6_bytes 8 s in
    if bool_decide (length a = 16%nat /\ s = ipv6_text a) then Some a else None
  else None.

Definition plain_ntop (family : Z) (a : list Z) : list Z :=
  if family =? AF_INET then join 46 (map byte_text a) else ipv6_text a.

#[local] Instance plain_inet : Inet := {| pton := plain_pton; ntop := plain_ntop |}.

Lemma byte_text_chars b : Forall (fun c => 48 <= c <= 57) (byte_text b).
Proof. by apply dec_digits. Qed.

Lemma byte_of_text b : is_byte b -> byte_of (byte_text b) = Some b.
Proof.
  intros Hb. unfold is_byte in Hb. unfold byte_of, byte_text.
  rewrite (read_digits_dec 3 b []) by (cbn; lia). cbn [Po.read_digits]. by rewrite bool_decide_eq_true_2.
Qed.

Lemma hex_digit_range d : 0 <= d < 16 -> 48 <= hex_digit d <= 57 \/ 97 <= hex_digit d <= 102.
Proof. intros. unfold hex_digit. case_test; lia. Qed.

Lemma hex_of_text b : is_byte b -> hex_of (hex_digit (b / 16)) (hex_digit (b mod 16)) = b.
Proof.
  intros Hb. unfold is_byte in Hb. unfold hex_of, hex_val, hex_digit.
  repeat case_test; Z.to_euclidean_division_equations; lia.
Qed.

Lemma ipv6_bytes_step n a b c d r :
  ipv6_bytes (S n) (a :: b :: c :: d :: r) = hex_of a b :: hex_of c d :: ipv6_bytes n (drop 1 r).
Proof. done. Qed.

Lemma ipv6_bytes_text n : forall a, Forall is_byte a -> length a = (2 * S n)%nat -> ipv6_bytes (S n) (ipv6_text a) = a.
Proof.
  induction n as [|n IH]; intros a Ha Hl; destruct a as [|x [|y r]]; try (cbn in Hl; lia);
    apply list.Forall_cons in Ha as [Hx Ha]; apply list.Forall_cons in Ha as [Hy Ha].
  - destruct r; [|cbn in Hl; lia]. cbn. by rewrite !hex_of_text.
  - destruct r as [|z r]; [cbn in Hl; lia|].
    change (ipv6_text (x :: y :: z :: r)) with (hex_text x ++ hex_text y ++ colon :: ipv6_text (z :: r)).
    unfold hex_text. cbn [app]. rewrite ipv6_bytes_step.
    cbn [drop]. rewrite !hex_of_text by done. rewrite drop_0, (IH (z :: r)); [done|done|]. cbn in *. lia.
Qed.

Lemma ipv6_text_nonzero n : forall a, length a = (2 * S n)%nat -> Forall is_byte a -> Forall (fun c => c <> 0) (ipv6_text a).
Proof.
  assert (forall x, is_byte x -> Forall (fun c => c <> 0) (hex_text x)) as Hh.
  { intros x Hx. unfold is_byte in Hx. unfold hex_text.
    pose proof (hex_digit_range (x / 16)). pose proof (hex_digit_range (x mod 16)).
    repeat constructor; Z.to_euclidean_division_equations; lia. }
  induction n as [|n IH]; intros a Hl Ha; destruct a as [|x [|y r]]; try (cbn in Hl; lia);
    apply list.Forall_cons in Ha as [Hx Ha]; apply list.Forall_cons in Ha as [Hy Ha].
  - destruct r; [|cbn in Hl; lia]. apply list.Forall_app. auto.
  - destruct r as [|z r]; [cbn in Hl; lia|].
    change (ipv6_text (x :: y :: z :: r)) with (hex_text x ++ hex_text y ++ colon :: ipv6_text (z :: r)).
    apply list.Forall_app. split; [auto|]. apply list.Forall_app. split; [auto|]. constructor; [done|].
    apply (IH (z :: r)); [cbn in *; lia|done].
Qed.

#[local] Instance plain_inet_laws : InetLaws plain_inet.
Proof.
  split.
  - intros family s a. unfold pton, plain_inet, plain_pton, addr_len. destruct (family =? AF_INET).
    + repeat case_match; intros [= <-]; done.
    + destruct (family =? AF_INET6); [|done]. cbv zeta. case_bool_decide as Hb; [|done]. intros [= <-]. apply Hb.
  - intros family a [-> | ->] Ha Hl; unfold pton, ntop, plain_inet, plain_pton, plain_ntop.
    + change (AF_INET =? AF_INET) with true. cbv iota. rewrite split_on_join.
      * destruct a as [|w [|x [|y [|z [|]]]]]; try (cbn in Hl; lia). cbn [map].
        rewrite !list.Forall_cons in Ha. destruct Ha as (? & ? & ? & ? & _). by rewrite !byte_of_text.
      * destruct a; done.
      * apply list.Forall_forall. intros p Hp Hin. apply list_elem_of_In, in_map_iff in Hp as (b & <- & _).
        pose proof (byte_text_chars b) as Hc. rewrite list.Forall_forall in Hc. apply Hc in Hin. lia.
    + change (addr_len AF_INET6) with 16%nat in Hl. change (AF_INET6 =? AF_INET) with false. cbv zeta iota.
      change (AF_INET6 =? AF_INET6) with true. cbv iota.
      rewrite (ipv6_bytes_text 7) by done. by rewrite bool_decide_eq_true_2.
  - intros s a. unfold pton, plain_inet, plain_pton. change (AF_INET6 =? AF_INET) with false.
    change (AF_INET6 =? AF_INET6) with true. cbv zeta iota. case_bool_decide as Hb; [|done]. intros _. destruct Hb as [Hl ->].
    destruct (ipv6_bytes 8 s) as [|x [|y [|z r]]]; try (cbn in Hl; lia).
    change (ipv6_text (x :: y :: z :: r)) with (hex_text x ++ hex_text y ++ colon :: ipv6_text (z :: r)).
    apply elem_of_app. right. apply elem_of_app. right. left.
  - intros a Ha Hl. unfold ntop, plain_inet, plain_ntop. change (AF_INET =? AF_INET) with true. cbv iota.
    destruct a as [|w [|x [|y [|z [|]]]]]; try (cbn in Hl; lia). cbn [map join].
    pose proof (fun b => dec_length 3 b []) as Hdl. cbn [length Nat.add] in Hdl. fold (byte_text) in Hdl.
    split.
    + assert (forall b, Forall (fun c => c = 46 \/ 48 <= c <= 57) (byte_text b)) as Hc.
      { intros b. eapply list.Forall_impl; [apply byte_text_chars|]. cbn. lia. }
      repeat (apply list.Forall_app; split; [apply Hc|]; constructor; [lia|]). apply Hc.
    + pose proof (Hdl w). pose proof (Hdl x). pose proof (Hdl y). pose proof (Hdl z).
      rewrite !zlen_app, !zlen_cons, !zlen_app, !zlen_cons, !zlen_app, !zlen_cons. unfold zlen, byte_text in *. lia.
  - intros a Ha Hl. by apply (ipv6_text_nonzero 7).
Qed.

(** ** Examples and witnesses *)

Definition demo_text : list Z := [49; 57; 50; 46; 49; 54; 56; 46; 48; 46; 55; 58; 56; 55; 49; 51].

(** A socket address at 2000, an endpoint at 1000, a text at 1100, two string slots. *)
Definition endpoint_mem (text : list Z) : mem :=
  upd (upd (upd (upd (upd (Mem ∅ ∅ []) 1000 (replicate 28 205)) 1100 (zlen text :: text ++ replicate (31 - length text) 0))
    1200 (replicate 32 7)) 1300 (replicate 32 7)) 2000 (sockaddr_in [192; 168; 0; 7] 8713).

Lemma demo_args text : pts_b (endpoint_mem text) 1000 (replicate 28 205) = true ->
  pts_b (endpoint_mem text) 1100 (zlen text :: text ++ replicate (31 - length text) 0) = true ->
  pts_b (endpoint_mem text) 1200 (replicate 32 7) = true -> pts_b (endpoint_mem text) 1300 (replicate 32 7) = true ->
  (length text <= 30)%nat ->
  host_args (endpoint_mem text) 1000 (replicate 28 205) 1100 text 1101 30 1200 1300.
Proof.
  intros H1 H2 H3 H4 Hl. assert (RepAt (endpoint_mem text) 1100 text 1101 30) as HR.
  { apply (sso_rep _ 1100 text (replicate (30 - length text) 0)); unfold zlen in *; try lia.
    - replace (31 - length text)%nat with (S (30 - length text)) in H2 by lia. exact H2.
    - rewrite length_app. cbn [length]. rewrite length_replicate. lia. }
  constructor; try done.
  - by apply pts_b_ok.
  - unfold zlen. lia.
  - intros a. unfold foot, region. lia.
  - split_and!; [lia|lia| |done]. exists (replicate 32 7). split; [by apply pts_b_ok|done].
  - split_and!; [lia|lia| |done]. exists (replicate 32 7). split; [by apply pts_b_ok|done].
  - unfold separate, foot. lia.
  - unfold separate, foot. lia.
  - left. lia.
  - right. lia.
  - right. lia.
Qed.

Lemma endpoint_roundtrip_witness :
  wp (Endpoint_host (H := bump_allocator) 1000 AF_INET 1100 1200 1300) (endpoint_mem demo_text) (fun _ m' =>
    pts m' 1000 (sockaddr_in [192; 168; 0; 7] 8713 ++ drop 16 (replicate 28 205)) /\
    formatAddress 1000 m' = Ok demo_text m' /\ RepAt m' 1100 demo_text 1101 30).
Proof.
  apply (endpoint_roundtrip (H := bump_allocator) (endpoint_mem demo_text) 1000 2000 1100 1200 1300 1101 30 8713 [192; 168; 0; 7]).
  - by repeat (constructor; [unfold is_byte; lia|]).
  - reflexivity.
  - lia.
  - apply pts_b_ok. vm_compute. reflexivity.
  - vm_compute. reflexivity.
  - apply demo_args; [vm_compute; reflexivity..|cbn; lia].
Defined.

(** Without a colon the whole text is the host and its leading number the port: the address
    192.168.0.7 alone is taken to have port 192.  The text of an IPv6 address has no number
    behind its first colon as often as not. *)
Example missing_port :
  wp (Endpoint_host (H := bump_allocator) 1000 AF_INET 1100 1200 1300) (endpoint_mem (take 11 demo_text))
    (fun _ m' => formatAddress 1000 m' = Ok (take 11 demo_text ++ [58; 49; 57; 50]) m').
Proof. vm_compute. reflexivity. Qed.

Example ipv6_loopback :
  wpx (Endpoint_host (H := bump_allocator) 1000 AF_INET6 1100 1200 1300) (endpoint_mem [58; 58; 49; 58; 56; 48])
    (fun _ _ => False) (fun e _ => e = InvalidArgument).
Proof. vm_compute. reflexivity. Qed.

(** A port that does not fit 16 bits is cut. *)
Example port_wraps :
  wp (Endpoint_host (H := bump_allocator) 1000 AF_INET 1100 1200 1300) (endpoint_mem [49; 46; 49; 46; 49; 46; 49; 58; 54; 53; 53; 51; 55])
    (fun _ m' => formatAddress 1000 m' = Ok [49; 46; 49; 46; 49; 46; 49; 58; 49] m').
Proof. vm_compute. reflexivity. Qed.
