(* ===== verification/Logger.v ===== *)
(** The logger: [crossbow/logger.hpp] and [logger.cpp].

    Any number of threads call [trace], ..., [fatal] of the one logger object.  A step of a thread
    is the test of the level and the feeding of the formatter, the locking of a mutex, one insertion
    into a stream, or the unlocking; the threads interleave in any order.  The configuration is
    set before the threads start.  [boost::format] is the class [Format]. *)
From Stdlib Require Import String.
From S2P Require Import Prelude ProgramOptions Endpoint.

Module Log.

Inductive LogLevel := TRACE | DEBUG | INFO | WARN | ERROR | FATAL.

#[global] Instance LogLevel_eq_dec : EqDecision LogLevel.
Proof. solve_decision. Defined.

(** The value of the enumerator. *)
Definition level_value (l : LogLevel) : Z :=
  match l with TRACE => 0 | DEBUG => 1 | INFO => 2 | WARN => 3 | ERROR => 4 | FATAL => 5 end.

Definition gLogLevelNames : list (list Z * LogLevel) :=
  [(Po.codes "TRACE", TRACE); (Po.codes "DEBUG", DEBUG); (Po.codes "INFO", INFO);
   (Po.codes "WARN", WARN); (Po.codes "ERROR", ERROR); (Po.codes "FATAL", FATAL)].

(** [unordered_map::at]. *)
Fixpoint map_at (m : list (list Z * LogLevel)) (s : list Z) : LogLevel + exn :=
  match m with
  | [] => inr OutOfRange
  | (k, v) :: m => if bool_decide (k = s) then inl v else map_at m s
  end.

Definition logLevelFromString (s : list Z) : LogLevel + exn := map_at gLogLevelNames s.

(** [boost::format]: made from a format string, fed with arguments, turned into text; each
    of them may throw. *)
Class Format := {
  fmt : Type;
  arg : Type;
  fmt_make : list Z -> fmt + exn;
  fmt_feed : fmt -> arg -> fmt + exn;
  fmt_str : fmt -> list Z + exn
}.

(** Streams and functions are known by a number. *)
Record LoggerConfig := {
  destructFunctions : list Z;
  level : LogLevel;
  traceOut : Z;
  debugOut : Z;
  infoOut : Z;
  warnOut : Z;
  errorOut : Z;
  fatalOut : Z
}.

Definition std_cout : Z := 1.
Definition std_cerr : Z := 2.
Definition std_clog : Z := 3.

(** The initializers of the members; [level] has none. *)
Definition default_config (l : LogLevel) : LoggerConfig := {|
  destructFunctions := []; level := l;
  traceOut := std_cout; debugOut := std_cout; infoOut := std_cout;
  warnOut := std_clog; errorOut := std_cerr; fatalOut := std_cerr |}.

(** The mutexes of [LoggerT]. *)
Definition mTraceMutex : Z := 0.
Definition mDebugMutex : Z := 1.
Definition mInfoMutex : Z := 2.
Definition mWarnMutex : Z := 3.
Definition mErrorMutex : Z := 4.
Definition mFatalMutex : Z := 5.

Section Logger.
Context `{Format} (config : LoggerConfig).

(** A call of one of the six functions, which is named after its level. *)
Record call := {
  c_level : LogLevel;
  c_file : list Z;
  c_line : Z;
  c_function : list Z;
  c_str : list Z;
  c_args : list arg
}.

(** The stream and the mutex [trace], [debug], [info], [warn], [error] and [fatal] pass
    to [log]. *)
Definition log_target (l : LogLevel) : Z * Z :=
  match l with
  | TRACE => (traceOut config, mTraceMutex)
  | DEBUG => (debugOut config, mDebugMutex)
  | INFO => (infoOut config, mInfoMutex)
  | WARN => (warnOut config, mWarnMutex)
  | ERROR => (errorOut config, mInfoMutex)
  | FATAL => (fatalOut config, mInfoMutex)
  end.

Definition stream_of (c : call) : Z := fst (log_target (c_level c)).
Definition mutex_of (c : call) : Z := snd (log_target (c_level c)).

(** [LogFormatter<Args...>::format]. *)
Fixpoint LogFormatter_format (f : fmt) (args : list arg) : fmt + exn :=
  match args with
  | [] => inl f
  | h :: tail => match fmt_feed f h with inl f => LogFormatter_format f tail | inr e => inr e end
  end.

Definition make_formatter (c : call) : fmt + exn :=
  match fmt_make (Po.c_str (c_str c)) with
  | inl f => LogFormatter_format f (c_args c)
  | inr e => inr e
  end.

(** [config.level > level]. *)
Definition filtered (c : call) : bool := level_value (c_level c) <? level_value (level config).

(** What is inserted into the stream, one [operator<<] each. *)
Definition pieces (c : call) (text : list Z) : list (list Z) :=
  [text; Po.codes " (in "; c_function c; Po.codes " at "; c_file c; [58];
   Ep.print_dec 10 (c_line c) []; [41]; [10]].

(** ** Threads *)

Inductive pc :=
  | Enter                        (* log is called *)
  | Locking (f : fmt)            (* lock_guard _(mutex) *)
  | Formatting (f : fmt)         (* formatter.str() *)
  | Writing (ps : list (list Z)) (* stream << ... *)
  | Unwinding (e : exn)          (* ~lock_guard on the way of the exception *)
  | Thrown (e : exn).

(** The first of the calls is the current one. *)
Record thread := Thread { t_pc : pc; t_calls : list call }.

Record shared := Shared {
  mutexes : gmap Z nat;
  streams : gmap Z (list Z)
}.

Definition output (s : shared) (k : Z) : list Z := default [] (streams s !! k).
Definition insert_into (k : Z) (p : list Z) (s : shared) : shared :=
  Shared (mutexes s) (<[k := output s k ++ p]> (streams s)).
Definition lock (m : Z) (t : nat) (s : shared) : shared := Shared (<[m := t]> (mutexes s)) (streams s).
Definition unlock (m : Z) (s : shared) : shared := Shared (delete m (mutexes s)) (streams s).

(** One step of thread [t] in [log]; [None] while it waits for the mutex and at its end. *)
Definition tstep (t : nat) (s : shared) (th : thread) : option (shared * thread) :=
  match t_calls th with
  | [] => None
  | c :: rest =>
      match t_pc th with
      | Enter =>
          if filtered c then Some (s, Thread Enter rest)
          else match make_formatter c with
               | inl f => Some (s, Thread (Locking f) (c :: rest))
               | inr e => Some (s, Thread (Thrown e) (c :: rest))
               end
      | Locking f =>
          match mutexes s !! mutex_of c with
          | None => Some (lock (mutex_of c) t s, Thread (Formatting f) (c :: rest))
          | Some _ => None
          end
      | Formatting f =>
          match fmt_str f with
          | inl text => Some (s, Thread (Writing (pieces c text)) (c :: rest))
          | inr e => Some (s, Thread (Unwinding e) (c :: rest))
          end
      | Writing (p :: ps) => Some (insert_into (stream_of c) p s, Thread (Writing ps) (c :: rest))
      | Writing [] => Some (unlock (mutex_of c) s, Thread Enter rest)
      | Unwinding e => Some (unlock (mutex_of c) s, Thread (Thrown e) (c :: rest))
      | Thrown _ => None
      end
  end.

Definition system : Type := shared * list thread.

Inductive step : system -> system -> Prop :=
  | step_thread s ths t th s' th' : ths !! t = Some th -> tstep t s th = Some (s', th') ->
      step (s, ths) (s', <[t := th']> ths).

Definition start (calls : list (list call)) : system := (Shared ∅ ∅, Thread Enter <$> calls).

(** ** The destructor *)

(** [~LoggerT]: the functions it calls, in order. *)
Definition destroy : list Z := destructFunctions config.

End Logger.
End Log.
