(* ===== verification/LoggerClaims.v ===== *)
(** The theorems about the logger: with one mutex per stream every line is written whole, in the
    order of each thread, and the threads never block each other for good; with the default
    streams three mutexes guard the standard output, and lines are torn. *)
From Stdlib Require Import String.
From S2P Require Import Prelude ProgramOptions Logger.

Import Log.

(** ** Level names *)

Definition level_name (l : LogLevel) : list Z :=
  match l with
  | TRACE => Po.codes "TRACE" | DEBUG => Po.codes "DEBUG" | INFO => Po.codes "INFO"
  | WARN => Po.codes "WARN" | ERROR => Po.codes "ERROR" | FATAL => Po.codes "FATAL"
  end.

(** [logLevelFromString] inverts the names and throws [std::out_of_range] for every other
    text. *)
Lemma level_names s : match logLevelFromString s with
  | inl l => s = level_name l
  | inr e => e = OutOfRange /\ forall l, s <> level_name l
  end.
Proof.
  unfold logLevelFromString, gLogLevelNames. cbn [map_at].
  do 6 (case_bool_decide; [by subst s|]).
  split; [done|]. intros [] Hl; cbn [level_name] in Hl; congruence.
Qed.

Section Lines.
Context `{Format} (config : LoggerConfig).

(** Two levels that write to the same stream lock the same mutex. *)
Definition guarded : Prop := forall l1 l2,
  fst (log_target config l1) = fst (log_target config l2) -> snd (log_target config l1) = snd (log_target config l2).

(** The line of a call. *)
Definition line (c : call) : list Z :=
  match make_formatter c with
  | inl f => match fmt_str f with inl text => concat (pieces c text) | inr _ => [] end
  | inr _ => []
  end.

Definition lines (h : list (nat * call)) : list Z := concat (map (fun x => line (snd x)) h).

Lemma lines_snoc h x : lines (h ++ [x]) = lines h ++ line (snd x).
Proof. unfold lines. rewrite map_app, concat_app. cbn. by rewrite app_nil_r. Qed.

(** The calls of [cs] that write to stream [k]. *)
Definition wanted (k : Z) (cs : list call) : list call :=
  List.filter (fun c => negb (filtered config c) && (stream_of config c =? k)) cs.

(** The calls of thread [t] in a history. *)
Definition of_thread (t : nat) (h : list (nat * call)) : list call :=
  map snd (List.filter (fun x => Nat.eqb (fst x) t) h).

Lemma of_thread_snoc t h t' c : of_thread t (h ++ [(t', c)]) = of_thread t h ++ (if Nat.eqb t' t then [c] else []).
Proof. unfold of_thread. rewrite List.filter_app, map_app. cbn [List.filter fst]. by destruct (Nat.eqb t' t). Qed.

(** ** The invariant *)

(** The mutex a thread holds, the stream it writes to and what it still has to write. *)
Definition holds (th : thread) : option Z :=
  match t_pc th, t_calls th with
  | (Formatting _ | Writing _ | Unwinding _), c :: _ => Some (mutex_of config c)
  | _, _ => None
  end.
Definition writes (th : thread) : option (Z * list Z) :=
  match t_pc th, t_calls th with
  | Writing ps, c :: _ => Some (stream_of config c, concat ps)
  | _, _ => None
  end.
(** The calls that have not started to write. *)
Definition todo (th : thread) : list call :=
  match t_pc th with Writing _ => tail (t_calls th) | _ => t_calls th end.

Definition mutex_ok (s : shared) (ths : list thread) : Prop := forall m t,
  mutexes s !! m = Some t <-> exists th, ths !! t = Some th /\ holds th = Some m.

Definition out_ok (s : shared) (ths : list thread) (h : Z -> list (nat * call)) : Prop :=
  (forall t th k r, ths !! t = Some th -> writes th = Some (k, r) -> output s k ++ r = lines (h k)) /\
  (forall k, (forall t th r, ths !! t = Some th -> writes th <> Some (k, r)) -> output s k = lines (h k)).

Definition order_ok (calls : list (list call)) (ths : list thread) (h : Z -> list (nat * call)) : Prop :=
  forall t cs th k, calls !! t = Some cs -> ths !! t = Some th -> of_thread t (h k) ++ wanted k (todo th) = wanted k cs.

(** Every line is the line of a call of one of the threads. *)
Definition owners_ok (calls : list (list call)) (h : Z -> list (nat * call)) : Prop :=
  forall k, Forall (fun x => (fst x < length calls)%nat) (h k).

(** The current call of a thread is one that is not filtered, and its formatter was made. *)
Definition thread_ok (th : thread) : Prop :=
  match t_pc th with
  | Enter => True
  | Locking f | Formatting f =>
      exists c rest, t_calls th = c :: rest /\ filtered config c = false /\ make_formatter c = inl f
  | Writing _ | Unwinding _ => exists c rest, t_calls th = c :: rest /\ filtered config c = false
  | Thrown _ => True
  end.

Record sinv (calls : list (list call)) (x : system) : Prop := {
  sinv_length : length x.2 = length calls;
  sinv_mutex : mutex_ok x.1 x.2;
  sinv_threads : forall t th, x.2 !! t = Some th -> thread_ok th;
  sinv_out : exists h, out_ok x.1 x.2 h /\ order_ok calls x.2 h /\ owners_ok calls h
}.

(** *** Mutexes *)

Lemma mutex_same s s' ths t th th' : mutex_ok s ths -> ths !! t = Some th -> holds th' = holds th ->
  mutexes s' = mutexes s -> mutex_ok s' (<[t := th']> ths).
Proof.
  intros Hm Ht Hh Hs m u. rewrite Hs, (Hm m u). destruct (decide (u = t)) as [->|Hne].
  - rewrite list_lookup_insert_eq by by eapply lookup_lt_Some. split; intros (x & [= <-] & Hx) || intros (x & Hx' & Hx).
    + simplify_eq. exists th'. by rewrite Hh.
    + exists th. by rewrite <-Hh.
  - by rewrite list_lookup_insert_ne by done.
Qed.

Lemma mutex_take s ths t th th' m : mutex_ok s ths -> ths !! t = Some th -> holds th = None -> holds th' = Some m ->
  mutexes s !! m = None -> mutex_ok (lock m t s) (<[t := th']> ths).
Proof.
  intros Hm Ht Hh Hh' Hn k u. cbn. destruct (decide (u = t)) as [->|Hne].
  - rewrite list_lookup_insert_eq by by eapply lookup_lt_Some. split.
    + intros Hk. exists th'. split; [done|]. destruct (decide (k = m)) as [->|Hkm]; [done|].
      rewrite lookup_insert_ne in Hk by done. apply Hm in Hk as (x & ? & ?). congruence.
    + intros (x & [= <-] & Hx). rewrite Hh' in Hx. simplify_eq. by rewrite lookup_insert_eq.
  - rewrite list_lookup_insert_ne by done. rewrite <-(Hm k u). destruct (decide (k = m)) as [->|Hkm].
    + rewrite lookup_insert_eq, Hn. split; congruence.
    + by rewrite lookup_insert_ne.
Qed.

Lemma mutex_give s ths t th th' m : mutex_ok s ths -> ths !! t = Some th -> holds th = Some m -> holds th' = None ->
  mutex_ok (unlock m s) (<[t := th']> ths).
Proof.
  intros Hm Ht Hh Hh' k u. cbn. assert (mutexes s !! m = Some t) as Hmt by (apply Hm; eauto).
  destruct (decide (u = t)) as [->|Hne].
  - rewrite list_lookup_insert_eq by by eapply lookup_lt_Some. split.
    + intros Hk. apply lookup_delete_Some in Hk as [Hkm Hk]. apply Hm in Hk as (x & ? & ?). congruence.
    + intros (x & [= <-] & Hx). congruence.
  - rewrite list_lookup_insert_ne by done. rewrite <-(Hm k u), lookup_delete_Some. split; [by intros []|].
    intros Hk. split; [congruence|done].
Qed.
(** *** Streams *)

Lemma lookup_replaced (ths : list thread) t th th' u x : ths !! t = Some th ->
  <[t := th']> ths !! u = Some x -> (u = t /\ x = th') \/ (u <> t /\ ths !! u = Some x).
Proof.
  intros Ht Hu. destruct (decide (u = t)) as [->|Hne].
  - rewrite list_lookup_insert_eq in Hu by by eapply lookup_lt_Some. left. by simplify_eq.
  - rewrite list_lookup_insert_ne in Hu by done. by right.
Qed.

(** Nobody but [t] writes to [k]. *)
Definition alone (ths : list thread) (t : nat) (k : Z) : Prop :=
  forall u th r, u <> t -> ths !! u = Some th -> writes th <> Some (k, r).

Lemma writes_holds th k r : writes th = Some (k, r) ->
  exists c, stream_of config c = k /\ holds th = Some (mutex_of config c).
Proof. unfold writes, holds. destruct th as [[] [|c cs]]; cbn; intros; simplify_eq; eauto. Qed.

Lemma holder_alone s ths t th c : guarded -> mutex_ok s ths -> ths !! t = Some th ->
  holds th = Some (mutex_of config c) -> alone ths t (stream_of config c).
Proof.
  intros Hg Hm Ht Hh u th' r Hne Hu Hw. destruct (writes_holds _ _ _ Hw) as (c' & Hs & Hh').
  assert (mutex_of config c' = mutex_of config c) as Hmm by by apply Hg.
  assert (mutexes s !! mutex_of config c = Some t) as H1 by (apply Hm; eauto).
  assert (mutexes s !! mutex_of config c = Some u) as H2 by (apply Hm; rewrite <-Hmm; eauto). congruence.
Qed.

Lemma out_same s s' ths h t th th' : out_ok s ths h -> ths !! t = Some th -> writes th' = writes th ->
  streams s' = streams s -> out_ok s' (<[t := th']> ths) h.
Proof.
  intros [H1 H2] Ht Hw Hs. assert (forall k, output s' k = output s k) as Ho by (intros k; unfold output; by rewrite Hs). split.
  - intros u x k r Hu Hx. rewrite Ho. destruct (lookup_replaced _ _ _ _ _ _ Ht Hu) as [[-> ->]|[_ Hu']]; [|by eapply H1].
    rewrite Hw in Hx. by eapply H1.
  - intros k Hk. rewrite Ho. apply H2. intros u x r Hu. destruct (decide (u = t)) as [->|Hne].
    + rewrite Ht in Hu. simplify_eq. rewrite <-Hw. apply (Hk t). by rewrite list_lookup_insert_eq by by eapply lookup_lt_Some.
    + apply (Hk u). by rewrite list_lookup_insert_ne.
Qed.

(** The history with one more line in stream [k]. *)
Definition extend (h : Z -> list (nat * call)) (k : Z) (x : nat * call) (j : Z) : list (nat * call) :=
  if j =? k then h j ++ [x] else h j.

Lemma out_begin s ths h t th th' k r c : out_ok s ths h -> ths !! t = Some th -> writes th = None ->
  writes th' = Some (k, r) -> r = line c -> alone ths t k -> out_ok s (<[t := th']> ths) (extend h k (t, c)).
Proof.
  intros [H1 H2] Ht Hw Hw' -> Hal.
  assert (output s k = lines (h k)) as Hk.
  { apply H2. intros u x r Hu. destruct (decide (u = t)) as [->|Hne]; [congruence|by eapply Hal]. }
  split.
  - intros u x j r Hu Hx. destruct (lookup_replaced _ _ _ _ _ _ Ht Hu) as [[-> ->]|[Hne Hu']]; unfold extend.
    + rewrite Hw' in Hx. simplify_eq. rewrite Z.eqb_refl, lines_snoc, Hk. done.
    + destruct (j =? k) eqn:E; bool_prop; [subst; by destruct (Hal u x r Hne Hu')|]. by eapply H1.
  - intros j Hj. unfold extend. destruct (j =? k) eqn:E; bool_prop.
    + subst. exfalso. eapply (Hj t); [by rewrite list_lookup_insert_eq by by eapply lookup_lt_Some|done].
    + apply H2. intros u x r Hu Hx. destruct (decide (u = t)) as [->|Hne]; [congruence|].
      apply (Hj u x r); [by rewrite list_lookup_insert_ne|done].
Qed.

Lemma output_insert s k p j : output (insert_into k p s) j = if j =? k then output s j ++ p else output s j.
Proof.
  unfold output at 1, insert_into. cbn [streams]. destruct (j =? k) eqn:E; bool_prop.
  - subst. by rewrite lookup_insert_eq.
  - by rewrite lookup_insert_ne.
Qed.

Lemma out_insert s ths h t th th' k p r : out_ok s ths h -> ths !! t = Some th -> writes th = Some (k, p ++ r) ->
  writes th' = Some (k, r) -> alone ths t k -> out_ok (insert_into k p s) (<[t := th']> ths) h.
Proof.
  intros [H1 H2] Ht Hw Hw' Hal. split.
  - intros u x j r' Hu Hx. rewrite output_insert. destruct (lookup_replaced _ _ _ _ _ _ Ht Hu) as [[-> ->]|[Hne Hu']].
    + rewrite Hw' in Hx. simplify_eq. rewrite Z.eqb_refl, <-app_assoc. by eapply H1.
    + destruct (j =? k) eqn:E; bool_prop; [subst; by destruct (Hal u x r' Hne Hu')|]. by eapply H1.
  - intros j Hj. rewrite output_insert. destruct (j =? k) eqn:E; bool_prop.
    + subst. exfalso. eapply (Hj t); [by rewrite list_lookup_insert_eq by by eapply lookup_lt_Some|done].
    + apply H2. intros u x r' Hu Hx. destruct (decide (u = t)) as [->|Hut]; [congruence|].
      apply (Hj u x r'); [by rewrite list_lookup_insert_ne|done].
Qed.

Lemma out_end s s' ths h t th th' k : out_ok s ths h -> ths !! t = Some th -> writes th = Some (k, []) ->
  writes th' = None -> streams s' = streams s -> out_ok s' (<[t := th']> ths) h.
Proof.
  intros [H1 H2] Ht Hw Hw' Hs. assert (forall k, output s' k = output s k) as Ho by (intros j; unfold output; by rewrite Hs). split.
  - intros u x j r Hu Hx. rewrite Ho. destruct (lookup_replaced _ _ _ _ _ _ Ht Hu) as [[-> ->]|[_ Hu']]; [congruence|by eapply H1].
  - intros j Hj. rewrite Ho. destruct (decide (j = k)) as [->|Hne].
    + rewrite <-(app_nil_r (output s k)). by eapply H1.
    + apply H2. intros u x r Hu Hx. destruct (decide (u = t)) as [->|Hut]; [congruence|].
      apply (Hj u x r); [by rewrite list_lookup_insert_ne|done].
Qed.

(** *** Order *)

Lemma order_same calls ths h t th th' : order_ok calls ths h -> ths !! t = Some th ->
  (forall k, wanted k (todo th') = wanted k (todo th)) -> order_ok calls (<[t := th']> ths) h.
Proof.
  intros Ho Ht Hw u cs x k Hc Hu. destruct (lookup_replaced _ _ _ _ _ _ Ht Hu) as [[-> ->]|[_ Hu']]; [|by eapply Ho].
  rewrite Hw. by eapply Ho.
Qed.

Lemma order_begin calls ths h t th th' c : order_ok calls ths h -> ths !! t = Some th ->
  todo th = c :: todo th' -> filtered config c = false -> order_ok calls (<[t := th']> ths) (extend h (stream_of config c) (t, c)).
Proof.
  intros Ho Ht Htd Hf u cs x k Hc Hu. unfold extend.
  destruct (lookup_replaced _ _ _ _ _ _ Ht Hu) as [[-> ->]|[Hne Hu']].
  - rewrite <-(Ho t cs th k Hc Ht), Htd. cbn [wanted List.filter]. rewrite Hf. cbn [negb andb]. unfold wanted.
    destruct (k =? stream_of config c) eqn:E; bool_prop.
    + subst. rewrite of_thread_snoc, Nat.eqb_refl, Z.eqb_refl, <-app_assoc. done.
    + by rewrite (proj2 (Z.eqb_neq _ _)) by congruence.
  - rewrite <-(Ho u cs x k Hc Hu'). destruct (k =? stream_of config c); [|done].
    rewrite of_thread_snoc, (proj2 (Nat.eqb_neq _ _)) by congruence. by rewrite app_nil_r.
Qed.
(** A line of an existing thread joins the history. *)
Lemma owners_extend calls h k t c : owners_ok calls h -> (t < length calls)%nat -> owners_ok calls (extend h k (t, c)).
Proof.
  intros Ho Ht j. unfold extend. destruct (j =? k); [|by apply Ho].
  apply Forall_app. split; [by apply Ho|]. by apply list.Forall_singleton.
Qed.

(** *** Every step keeps the invariant *)

Lemma threads_replaced (ths : list thread) (t : nat) th th' : (forall u x, ths !! u = Some x -> thread_ok x) -> ths !! t = Some th -> thread_ok th' ->
  forall u x, <[t := th']> ths !! u = Some x -> thread_ok x.
Proof. intros Hall Ht Hok u x Hu. destruct (lookup_replaced _ _ _ _ _ _ Ht Hu) as [[_ ->]|[_ Hu']]; [done|by eapply Hall]. Qed.

Lemma tstep_sinv calls s ths t th s' th' : guarded -> sinv calls (s, ths) -> ths !! t = Some th ->
  tstep config t s th = Some (s', th') -> sinv calls (s', <[t := th']> ths).
Proof.
  intros Hg [Hlen Hm Hth (h & Hout & Hord & Hown)] Ht Hst. cbn in *. pose proof (Hth t th Ht) as Hok.
  pose proof (fun Hok' => threads_replaced ths t th th' Hth Ht Hok') as Hth'.
  assert (length (<[t := th']> ths) = length calls) as Hlen' by by rewrite length_insert.
  destruct th as [pc [|c rest]]; cbn in Hst; [done|]. destruct pc as [|f|f|[|p ps]|e|e].
  - destruct (filtered config c) eqn:Hf.
    { simplify_eq. constructor; cbn; [done|by eapply mutex_same|by apply Hth'|]. exists h. split_and!; [by eapply out_same| |done].
      eapply order_same; [done|done|]. intros k. cbn [todo t_pc t_calls wanted List.filter]. by rewrite Hf. }
    destruct (make_formatter c) as [f|e] eqn:Hmk; simplify_eq;
      (constructor; cbn; [done|by eapply mutex_same|apply Hth'; cbn; eauto 6|
        exists h; split_and!; [by eapply out_same|by eapply order_same|done]]).
  - destruct (mutexes s !! mutex_of config c) eqn:Hmu; [done|]. simplify_eq.
    constructor; cbn; [done|by eapply mutex_take|by apply Hth'|]. exists h. split_and!; [by eapply out_same|by eapply order_same|done].
  - destruct Hok as (c' & rest' & [= <- <-] & Hf & Hmk). destruct (fmt_str f) as [text|e] eqn:Hs; simplify_eq.
    + constructor; cbn; [done|by eapply mutex_same|apply Hth'; cbn; eauto|].
      exists (extend h (stream_of config c) (t, c)).
      split_and!; [|by eapply order_begin|apply owners_extend; [done|rewrite <-Hlen; by eapply lookup_lt_Some]].
      eapply out_begin; [done|done|done|done| |by eapply holder_alone]. unfold line. by rewrite Hmk, Hs.
    + constructor; cbn; [done|by eapply mutex_same|apply Hth'; cbn; eauto|].
      exists h. split_and!; [by eapply out_same|by eapply order_same|done].
  - simplify_eq. constructor; cbn; [done|by eapply mutex_give|by apply Hth'|].
    exists h. split_and!; [by eapply out_end|by eapply order_same|done].
  - simplify_eq. constructor; cbn; [done|by eapply mutex_same|apply Hth'; cbn; eauto|].
    exists h. split_and!; [|by eapply order_same|done]. eapply out_insert; [done..|by eapply holder_alone].
  - simplify_eq. constructor; cbn; [done|by eapply mutex_give|by apply Hth'|].
    exists h. split_and!; [by eapply out_same|by eapply order_same|done].
  - done.
Qed.

Lemma start_sinv calls : sinv calls (start calls).
Proof.
  constructor; cbn.
  - apply length_fmap.
  - intros m t. cbn. split; [done|]. intros (th & Hth & Hh). rewrite list_lookup_fmap in Hth.
    destruct (calls !! t); simplify_eq/=.
  - intros t th Hth. rewrite list_lookup_fmap in Hth. by destruct (calls !! t); simplify_eq/=.
  - exists (fun _ => []). split_and!; [split| |by intros k; apply list.Forall_nil].
    + intros t th k r Hth. rewrite list_lookup_fmap in Hth. by destruct (calls !! t); simplify_eq/=.
    + done.
    + intros t cs th k Hc Hth. rewrite list_lookup_fmap, Hc in Hth. by simplify_eq/=.
Qed.

(** ** Progress *)

(** The steps a thread has left. *)
Definition rank (th : thread) : nat :=
  match t_calls th with
  | [] => 0
  | _ :: rest =>
      match t_pc th with
      | Enter => 13 + 13 * length rest
      | Locking _ => 12 + 13 * length rest
      | Formatting _ => 11 + 13 * length rest
      | Writing ps => 1 + length ps + 13 * length rest
      | Unwinding _ => 1
      | Thrown _ => 0
      end
  end.

Lemma rank_step t s th s' th' : tstep config t s th = Some (s', th') -> (rank th' < rank th)%nat.
Proof.
  destruct th as [pc [|c rest]]; cbn; [done|]. unfold rank.
  destruct pc as [|f|f|[|p ps]|e|e]; repeat case_match; intros; simplify_eq/=; try lia; destruct rest; cbn; lia.
Qed.

Definition total (ths : list thread) : nat := sum_list (rank <$> ths).

Lemma total_replaced (ths : list thread) (t : nat) th th' : ths !! t = Some th -> (total (<[t := th']> ths) + rank th = total ths + rank th')%nat.
Proof.
  unfold total. revert t. induction ths as [|x ths IH]; intros [|t] Ht; simplify_eq/=; [lia|]. specialize (IH t Ht). lia.
Qed.

Lemma step_total x y : step config x y -> (total y.2 < total x.2)%nat.
Proof.
  intros [s ths t th s' th' Ht Hst]. cbn [snd]. pose proof (total_replaced ths t th th' Ht). pose proof (rank_step _ _ _ _ _ Hst). lia.
Qed.

(** A thread that has ended. *)
Definition ended (th : thread) : Prop := t_calls th = [] /\ t_pc th = Enter \/ exists e, t_pc th = Thrown e.

Lemma stuck_ended calls s ths : sinv calls (s, ths) -> (forall y, ~ step config (s, ths) y) ->
  forall t th, ths !! t = Some th -> ended th.
Proof.
  intros [_ Hm Hth _] Hno t th Ht. cbn in *.
  assert (forall u x, ths !! u = Some x -> tstep config u s x = None) as Hstuck.
  { intros u x Hu. destruct (tstep config u s x) as [[s' x']|] eqn:Hx; [|done].
    exfalso. eapply Hno. by eapply step_thread. }
  assert (forall u x m, ths !! u = Some x -> holds x = Some m -> False) as Hfree.
  { intros u x m Hu Hh. specialize (Hstuck u x Hu). unfold holds in Hh. unfold tstep in Hstuck.
    destruct x as [[] [|c rest]]; simplify_eq/=; repeat case_match; done. }
  pose proof (Hth t th Ht) as Hok. specialize (Hstuck t th Ht). unfold tstep in Hstuck. unfold ended.
  destruct th as [pc calls']; cbn in *. destruct calls' as [|c rest].
  - destruct pc; cbn in *; eauto; destruct Hok as (? & ? & ? & _); done.
  - destruct pc as [|f|f|[|p ps]|e|e]; cbn in *; eauto; repeat case_match; try done.
    match goal with Hl : mutexes s !! _ = Some ?u |- _ => apply Hm in Hl as (x & Hu & Hx) end. exfalso. by eapply Hfree.
Qed.
(** Some thread can take a step, or none can. *)
Lemma can_step s ths : (exists y, step config (s, ths) y) \/ forall y, ~ step config (s, ths) y.
Proof.
  assert (forall n, (exists t th, (t < n)%nat /\ ths !! t = Some th /\ tstep config t s th <> None) \/
    forall t th, (t < n)%nat -> ths !! t = Some th -> tstep config t s th = None) as Hn.
  { induction n as [|n [(t & th & ? & ?)|IH]]; [right; lia|left; exists t, th; split; [lia|done]|].
    destruct (ths !! n) as [th|] eqn:Ht.
    - destruct (tstep config n s th) eqn:Hst; [left; exists n, th; split_and!; [lia|done|congruence]|].
      right. intros t th' Htn Hth. destruct (decide (t = n)) as [->|]; [congruence|apply IH; [lia|done]].
    - right. intros t th' Htn Hth. destruct (decide (t = n)) as [->|]; [congruence|apply IH; [lia|done]]. }
  destruct (Hn (length ths)) as [(t & th & _ & Ht & Hst)|Hnone].
  - left. destruct (tstep config t s th) as [[s' th']|] eqn:E; [|done]. eexists. by eapply step_thread.
  - right. intros y Hst. inversion Hst as [s0 ths0 t th s' th' Ht Hs]; subst.
    rewrite (Hnone t th) in Hs; [done|by eapply lookup_lt_Some|done].
Qed.
End Lines.

(** C22: with a configuration in which levels that share a stream share a mutex, any number of
    threads that log any calls take at most 13 steps per call; whenever no thread can take
    another step each has made all its calls or was left by an exception of the formatter, and
    every stream holds whole lines only: it is the concatenation of the lines of a list of
    calls, each made by one of these threads, in which the calls of each thread are exactly
    its calls to this stream that passed the level filter, each once and in their order (for
    a thread that was left by an exception, those before the call that threw). *)
Theorem log_lines_whole `{Format} (config : LoggerConfig) (calls : list (list call)) (n : nat) (x : system) :
  guarded config -> nsteps (step config) n (start calls) x ->
  (n <= 13 * sum_list (length <$> calls))%nat /\
  ((exists y, step config x y) \/
   forall k, exists h, output x.1 k = lines h /\ Forall (fun l => (fst l < length calls)%nat) h /\
     forall t cs th, calls !! t = Some cs -> x.2 !! t = Some th ->
       t_calls th = [] /\ of_thread t h = wanted config k cs \/
       exists e, t_pc th = Thrown e /\ of_thread t h ++ wanted config k (t_calls th) = wanted config k cs).
Proof.
  intros Hg Hrun. assert (sinv config calls x /\ (n + total x.2 <= total (start calls).2)%nat) as [Hinv Hn].
  { pose proof (start_sinv config calls) as H0. remember (start calls) as x0 eqn:Hx0. clear Hx0.
    induction Hrun as [x0|n x0 y x Hst Hrun IH]; [split; [done|lia]|].
    pose proof (step_total config _ _ Hst). destruct IH as [Hi Hle]; [|split; [done|lia]].
    destruct Hst. by eapply tstep_sinv. }
  split.
  { assert (total (start calls).2 = 13 * sum_list (length <$> calls))%nat as <-; [|lia].
    clear. unfold total, start. cbn [snd]. induction calls as [|cs calls IH]; cbn; [done|]. rewrite IH. destruct cs; cbn; lia. }
  destruct x as [s ths]. destruct (can_step config s ths) as [?|Hno]; [by left|right].
  pose proof (stuck_ended config calls s ths Hinv Hno) as Hend.
  intros k. destruct Hinv as [_ _ _ (h & [_ Ho] & Hord & Hown)]. cbn in *. exists (h k). split_and!; [|by apply Hown|].
  - apply Ho. intros t th r Ht. destruct (Hend t th Ht) as [[Hc Hp]|[e He]]; unfold writes; [by rewrite Hp|by rewrite He].
  - intros t cs th Hc Ht. pose proof (Hord t cs th k Hc Ht) as Hw. unfold todo in Hw.
    destruct (Hend t th Ht) as [[Hcl Hp]|[e He]].
    + left. split; [done|]. rewrite Hp, Hcl in Hw. cbn in Hw. by rewrite app_nil_r in Hw.
    + right. exists e. rewrite He in Hw. done.
Qed.

(** ** Runs *)

(** A formatter that appends its arguments. *)
#[local] Instance append_format : Format :=
  {| fmt := list Z; arg := list Z; fmt_make := inl; fmt_feed f a := inl (f ++ a); fmt_str := inl |}.

(** The threads take their steps in the given order. *)
Fixpoint schedule (config : LoggerConfig) (ts : list nat) (x : system) : option system :=
  match ts with
  | [] => Some x
  | t :: ts =>
      match x.2 !! t with
      | Some th =>
          match tstep config t x.1 th with
          | Some (s', th') => schedule config ts (s', <[t := th']> x.2)
          | None => None
          end
      | None => None
      end
  end.

Lemma schedule_nsteps config ts x y : schedule config ts x = Some y -> nsteps (step config) (length ts) x y.
Proof.
  revert x. induction ts as [|t ts IH]; intros [s ths] Hs; cbn in Hs; [simplify_eq; constructor|].
  destruct (ths !! t) as [th|] eqn:Ht; [|done]. destruct (tstep config t s th) as [[s' th']|] eqn:Hst; [|done].
  econstructor; [by eapply step_thread|by apply IH].
Qed.

Lemma finished_stuck config x y :
  forallb (fun th => match t_calls th with [] => true | _ => false end) x.2 = true -> ~ step config x y.
Proof.
  intros Hf Hy. revert Hf. destruct Hy as [s ths t th s' th' Ht Hst]. intros Hf. cbn in Hf. rewrite forallb_forall in Hf.
  specialize (Hf th). rewrite <-list_elem_of_In in Hf. specialize (Hf (list_elem_of_lookup_2 _ _ _ Ht)).
  unfold tstep in Hst. by destruct (t_calls th).
Qed.

Definition demo_call (l : LogLevel) (msg : string) : call :=
  {| c_level := l; c_file := Po.codes "f"; c_line := 7; c_function := Po.codes "g"; c_str := Po.codes msg; c_args := [] |}.

(** Every level with its own stream, except that errors share theirs. *)
Definition split_config : LoggerConfig :=
  {| destructFunctions := []; level := INFO; traceOut := 10; debugOut := 11; infoOut := std_cout;
     warnOut := std_clog; errorOut := std_cerr; fatalOut := std_cerr |}.

Definition two_threads : list (list call) :=
  [[demo_call ERROR "a"; demo_call TRACE "t"]; [demo_call FATAL "b"]].

Definition demo_schedule : list nat := ([0; 1] ++ replicate 12 1 ++ replicate 13 0)%nat.
Definition demo_end : system := default (start two_threads) (schedule split_config demo_schedule (start two_threads)).

Lemma log_lines_whole_witness :
  output demo_end.1 std_cerr = Po.codes "b (in g at f:7)" ++ [10] ++ Po.codes "a (in g at f:7)" ++ [10] /\
  (27 <= 13 * sum_list (length <$> two_threads))%nat /\
  exists h, output demo_end.1 std_cerr = lines h /\ Forall (fun l => (fst l < 2)%nat) h /\
    of_thread 1 h = wanted split_config std_cerr [demo_call FATAL "b"] /\
    of_thread 0 h = wanted split_config std_cerr [demo_call ERROR "a"; demo_call TRACE "t"].
Proof.
  split; [vm_compute; reflexivity|].
  destruct (log_lines_whole split_config two_threads 27 demo_end) as [Hn [[y Hy]|Hk]].
  - intros l1 l2. destruct l1, l2; vm_compute; (discriminate || reflexivity).
  - apply (schedule_nsteps split_config demo_schedule). vm_compute. reflexivity.
  - exfalso. refine (finished_stuck split_config demo_end y _ Hy). vm_compute. reflexivity.
  - split; [exact Hn|]. destruct (Hk std_cerr) as (h & Ho & Hown & Hh). exists h. split; [exact Ho|]. split; [exact Hown|]. split.
    + destruct (Hh 1%nat _ (Thread Enter []) eq_refl) as [[_ Hw]|(e & He & _)]; [vm_compute; reflexivity|exact Hw|discriminate].
    + destruct (Hh 0%nat _ (Thread Enter []) eq_refl) as [[_ Hw]|(e & He & _)]; [vm_compute; reflexivity|exact Hw|discriminate].
Defined.

(** With the default streams the trace, debug and info lines go to the standard output
    under three mutexes: two threads tear each other's lines. *)
Lemma default_lines_torn : exists x,
  rtc (step (default_config TRACE)) (start [[demo_call TRACE "a"]; [demo_call INFO "b"]]) x /\
  output x.1 std_cout = Po.codes "ab (in  (in gg at  at ff::77))" ++ [10; 10].
Proof.
  pose (x0 := start [[demo_call TRACE "a"]; [demo_call INFO "b"]]). pose (ts := concat (replicate 13 [0; 1]%nat)).
  exists (default x0 (schedule (default_config TRACE) ts x0)). split.
  - eapply rtc_nsteps_2, (schedule_nsteps (default_config TRACE) ts). vm_compute. reflexivity.
  - vm_compute. reflexivity.
Qed.
