(* ===== verification/SocketLife.v ===== *)
(** Lifetimes of sockets: the reference counts of [infinio/InfinibandSocket.hpp], opening, closing,
    accepting and rejecting in [InfinibandSocket.cpp], the acceptor, and the loop that dispatches the
    events of the connection manager in [InfinibandService.cpp].

    A socket object lives in [objs] until its count drops to zero.  It is referred to by the handles
    ([InfinibandSocket], a [boost::intrusive_ptr]) of the application, by the map and the draining queue
    of the completion context, and by the [context] of its connection manager id.  The events of the
    connection manager schedule tasks on the processor of the socket, which know it by its plain address.
    Any use of an object that was deleted, or of a null pointer, is [UB].  The calls of librdmacm may
    fail at any time: they are the class [Cm]. *)
From S2P Require Import Prelude ErrorCode.

Module Life.

(** ** State *)

(** The handler an application installs; [DefaultHandler] has the functions of the base class. *)
Inductive handler := AppHandler | DefaultHandler.

(** [InfinibandAcceptorImpl] and [InfinibandSocketImpl]. *)
Record object := Object {
  o_acceptor : bool;
  mId : option nat;
  mProcessor : bool;             (* mProcessor != nullptr *)
  mHandler : option handler;
  mReferenceCount : Z
}.

(** [rdma_cm_id]: its context, the number of its queue pair, and whether events can arrive. *)
Record cm_id := CmId {
  context : nat;
  qp : option Z;
  connecting : bool;             (* resolved, connected or accepted *)
  listening : bool
}.

(** The events that schedule a task. *)
Inductive event :=
  | ADDR_RESOLVED | ADDR_ERROR | ROUTE_RESOLVED | ROUTE_ERROR | CONNECT_ERROR | UNREACHABLE
  | REJECTED | ESTABLISHED | DISCONNECTED | TIMEWAIT_EXIT.

Record world := World {
  objs : gmap nat object;
  next : nat;                    (* the next address *)
  ids : gmap nat cm_id;
  next_id : nat;
  mSocketMap : gmap Z nat;
  mDrainingQueue : list nat;
  tasks : list (nat * event)     (* the task queue of the processor, oldest first *)
}.

Definition set_objs (x : gmap nat object) (w : world) : world :=
  World x (next w) (ids w) (next_id w) (mSocketMap w) (mDrainingQueue w) (tasks w).
Definition set_ids (x : gmap nat cm_id) (w : world) : world :=
  World (objs w) (next w) x (next_id w) (mSocketMap w) (mDrainingQueue w) (tasks w).
Definition set_map (x : gmap Z nat) (w : world) : world :=
  World (objs w) (next w) (ids w) (next_id w) x (mDrainingQueue w) (tasks w).
Definition set_draining (x : list nat) (w : world) : world :=
  World (objs w) (next w) (ids w) (next_id w) (mSocketMap w) x (tasks w).
Definition set_tasks (x : list (nat * event)) (w : world) : world :=
  World (objs w) (next w) (ids w) (next_id w) (mSocketMap w) (mDrainingQueue w) x.
(** A new object, and a new id. *)
Definition add_obj (o : object) (w : world) : world :=
  World (<[next w := o]> (objs w)) (S (next w)) (ids w) (next_id w) (mSocketMap w) (mDrainingQueue w) (tasks w).
Definition add_id (c : cm_id) (w : world) : world :=
  World (objs w) (next w) (<[next_id w := c]> (ids w)) (S (next_id w)) (mSocketMap w) (mDrainingQueue w) (tasks w).

Definition set_mId (x : option nat) (o : object) : object := Object (o_acceptor o) x (mProcessor o) (mHandler o) (mReferenceCount o).
Definition set_mProcessor (x : bool) (o : object) : object := Object (o_acceptor o) (mId o) x (mHandler o) (mReferenceCount o).
Definition set_mHandler (x : option handler) (o : object) : object := Object (o_acceptor o) (mId o) (mProcessor o) x (mReferenceCount o).
Definition set_count (x : Z) (o : object) : object := Object (o_acceptor o) (mId o) (mProcessor o) (mHandler o) x.
Definition set_qp (x : option Z) (c : cm_id) : cm_id := CmId (context c) x (connecting c) (listening c).
Definition set_connecting (c : cm_id) : cm_id := CmId (context c) (qp c) true (listening c).
Definition set_listening (c : cm_id) : cm_id := CmId (context c) (qp c) (connecting c) true.

(** The calls of librdmacm: 0 or an error number. *)
Inductive cm_call :=
  | CREATE_ID | DESTROY_ID | BIND_ADDR | LISTEN | REJECT | RESOLVE_ADDR | RESOLVE_ROUTE | CONNECT | ACCEPT | CREATE_QP | DISCONNECT.

(** [cm_qp_num]: the number of a new queue pair, which no existing one has. *)
Class Cm := {
  cm : cm_call -> world -> Z;
  cm_qp_num : world -> Z
}.
Class CmLaws (C : Cm) : Prop := {
  cm_qp_fresh w i c : ids w !! i = Some c -> qp c <> Some (cm_qp_num w)
}.

Section Sockets.
Context `{Cm}.

Notation M := (St world).

Definition modify (f : world -> world) : M unit := fun w => Ok tt (f w).

(** [*p] and [*id]. *)
Definition deref (p : nat) : M object := fun w => match objs w !! p with Some o => Ok o w | None => UB end.
Definition update (p : nat) (f : object -> object) : M unit :=
  let! o := deref p in modify (fun w => set_objs (<[p := f o]> (objs w)) w).
Definition deref_id (i : option nat) : M (nat * cm_id) := fun w =>
  match i with
  | Some i => match ids w !! i with Some c => Ok (i, c) w | None => UB end
  | None => UB
  end.
Definition update_id (i : nat) (f : cm_id -> cm_id) : M unit :=
  let! (_, c) := deref_id (Some i) in modify (fun w => set_ids (<[i := f c]> (ids w)) w).

(** [if (call) { throw std::system_error(errno, generic_category()); }] *)
Definition check (c : cm_call) : M unit := fun w =>
  if cm c w =? 0 then Ok tt w else Throw (SystemError (cm c w)) w.

(** [try { x } catch (std::system_error&) { h }]. *)
Definition catch (x h : M unit) : M unit := fun w =>
  match x w with Throw (SystemError _) w' => h w' | r => r end.

(** ** Reference counts *)

Definition intrusive_ptr_add_ref (p : nat) : M unit :=
  update p (fun o => set_count (u64 (mReferenceCount o + 1)) o).

Definition intrusive_ptr_release (p : nat) : M unit :=
  do! update p (fun o => set_count (u64 (mReferenceCount o - 1)) o) in
  let! o := deref p in
  if mReferenceCount o =? 0 then modify (fun w => set_objs (delete p (objs w)) w) else ret tt.

(** ** Construction *)

(** [new InfinibandSocketImpl(processor, channel)] and [new InfinibandAcceptorImpl(channel)]. *)
Definition new_object (acceptor : bool) : M nat := fun w =>
  Ok (next w) (add_obj (Object acceptor None (negb acceptor) None 0) w).

(** [new InfinibandSocketImpl(id)]. *)
Definition new_from_id (id : nat) : M nat :=
  let! p := (fun w => Ok (next w) (add_obj (Object false (Some id) false None 0) w)) in
  do! intrusive_ptr_add_ref p in
  do! update_id id (fun c => CmId p (qp c) (connecting c) (listening c)) in
  ret p.

(** [InfinibandService::createSocket], [createAcceptor]: the handle they return. *)
Definition createSocket : M nat :=
  let! p := new_object false in do! intrusive_ptr_add_ref p in ret p.
Definition createAcceptor : M nat :=
  let! p := new_object true in do! intrusive_ptr_add_ref p in ret p.

Definition setHandler (p : nat) (h : handler) : M unit := update p (set_mHandler (Some h)).

(** ** Opening and closing *)

Definition isOpen (p : nat) : M bool :=
  let! o := deref p in ret (match mId o with Some _ => true | None => false end).

Definition open (p : nat) : M unit :=
  let! o := deref p in
  match mId o with
  | Some _ => throw (SystemError (network_value already_open))
  | None =>
      do! check CREATE_ID in
      let! w := get in
      do! modify (add_id (CmId p None false false)) in
      do! update p (set_mId (Some (next_id w))) in
      intrusive_ptr_add_ref p
  end.

(** While the id has a queue pair the thread yields; [NoFuel] if nobody destroys it. *)
Definition close (p : nat) : M unit :=
  let! o := deref p in
  match mId o with
  | None => ret tt
  | Some id =>
      let! (_, c) := deref_id (Some id) in
      match qp c with
      | Some _ => nofuel
      | None =>
          do! check DESTROY_ID in
          do! modify (fun w => set_ids (delete id (ids w)) w) in
          do! update p (set_mId None) in
          intrusive_ptr_release p
      end
  end.

Definition bind_ (p : nat) : M unit :=
  let! o := deref p in
  match mId o with None => throw (SystemError errc_bad_file_descriptor) | Some _ => check BIND_ADDR end.

Definition listen (p : nat) : M unit :=
  let! o := deref p in
  match mId o with
  | None => throw (SystemError errc_bad_file_descriptor)
  | Some id => do! check LISTEN in update_id id set_listening
  end.

Definition connect (p : nat) : M unit :=
  let! o := deref p in
  match mId o with
  | None => throw (SystemError errc_bad_file_descriptor)
  | Some id => do! check RESOLVE_ADDR in update_id id set_connecting
  end.

Definition disconnect (p : nat) : M unit :=
  let! o := deref p in
  match mId o with None => throw (SystemError errc_bad_file_descriptor) | Some _ => check DISCONNECT end.

Definition reject (p : nat) : M unit :=
  let! o := deref p in
  let! _ := deref_id (mId o) in
  check REJECT.

(** ** The completion context *)

(** [rdma_create_qp_ex] refuses an id that has a queue pair. *)
Definition EINVAL : Z := 22.
Definition rdma_create_qp (c : cm_id) (w : world) : Z :=
  match qp c with Some _ => EINVAL | None => cm CREATE_QP w end.

(** [addConnection(id, socket)]: the parameter [socket] is a handle that is moved into the map. *)
Definition addConnection (id : option nat) (p : nat) : M unit :=
  do! intrusive_ptr_add_ref p in
  let! (i, c) := deref_id id in
  let! w := get in
  if negb (rdma_create_qp c w =? 0) then
    do! intrusive_ptr_release p in throw (SystemError (rdma_create_qp c w))
  else
    let num := cm_qp_num w in
    do! update_id i (set_qp (Some num)) in
    match mSocketMap w !! num with
    | Some _ => intrusive_ptr_release p
    | None => modify (fun w => set_map (<[num := p]> (mSocketMap w)) w)
    end.

Definition drainConnection (p : nat) : M unit :=
  do! intrusive_ptr_add_ref p in
  modify (fun w => set_draining (mDrainingQueue w ++ [p]) w).

Definition removeConnection (id : option nat) : M unit :=
  let! (i, c) := deref_id id in
  match qp c with
  | None => ret tt
  | Some num =>
      let! w := get in
      do! match mSocketMap w !! num with
          | Some p => do! modify (fun w => set_map (delete num (mSocketMap w)) w) in intrusive_ptr_release p
          | None => ret tt
          end in
      update_id i (set_qp None)
  end.

(** ** Accepting *)

Definition accept (p : nat) : M unit :=
  let! o := deref p in
  let! _ := deref_id (mId o) in
  if mProcessor o then throw (SystemError errc_already_connected)
  else
    do! update p (set_mProcessor true) in
    do! addConnection (mId o) p in
    let! w := get in
    if negb (cm ACCEPT w =? 0) then
      do! removeConnection (mId o) in throw (SystemError (cm ACCEPT w))
    else
      let! (i, _) := deref_id (mId o) in update_id i set_connecting.

(** [InfinibandAcceptorHandler::onConnection]: reject by default; the parameter is the only
    handle. *)
Definition default_onConnection (p : nat) : M unit :=
  do! catch (reject p) (let! o := deref p in let! _ := deref_id (mId o) in ret tt) in
  do! catch (close p) (let! o := deref p in let! _ := deref_id (mId o) in ret tt) in
  intrusive_ptr_release p.

(** ** Events *)

(** A virtual function of [mHandler]: the handler must be there; what an application does in it is not part of the
    step (it may make its own calls before or after). *)
Definition call_handler (p : nat) : M unit :=
  let! o := deref p in match mHandler o with Some _ => ret tt | None => ub end.

(** [reinterpret_cast<InfinibandSocketImpl*>(event->id->context)->on...()]: every such function
    puts a task into the queue of [mProcessor]. *)
Definition schedule_event (id : nat) (ev : event) : M unit :=
  let! (_, c) := deref_id (Some id) in
  let! o := deref (context c) in
  if mProcessor o then modify (fun w => set_tasks (tasks w ++ [(context c, ev)]) w) else ub.

(** [RDMA_CM_EVENT_CONNECT_REQUEST]: the connection manager has made the id of the event.  An
    application's handler keeps the handle it is given, which is the result. *)
Definition connect_request (listen_id : nat) : M (option nat) :=
  let! (_, l) := deref_id (Some listen_id) in
  let! w := get in
  let id := next_id w in
  do! modify (add_id (CmId 0 None false false)) in
  let! p := new_from_id id in
  do! intrusive_ptr_add_ref p in
  let! listener := deref (context l) in
  match mHandler listener with
  | None => ub
  | Some DefaultHandler => do! default_onConnection p in ret None
  | Some AppHandler => ret (Some p)
  end.

(** The bodies of the tasks. *)
Definition task_addr (p : nat) : M unit :=
  let! o := deref p in
  let! _ := deref_id (mId o) in
  let! w := get in
  if negb (cm RESOLVE_ROUTE w =? 0) then call_handler p else ret tt.

Definition task_route (p : nat) : M unit :=
  let! o := deref p in
  let! _ := deref_id (mId o) in
  fun w =>
    match addConnection (mId o) p w with
    | Throw (SystemError _) w => call_handler p w
    | Ok _ w =>
        (if negb (cm CONNECT w =? 0) then do! removeConnection (mId o) in call_handler p else ret tt) w
    | r => r
    end.

Definition task_failed (p : nat) : M unit :=
  let! o := deref p in
  do! removeConnection (mId o) in
  call_handler p.

Definition run_event (p : nat) (ev : event) : M unit :=
  match ev with
  | ADDR_RESOLVED => task_addr p
  | ROUTE_RESOLVED => task_route p
  | ADDR_ERROR | ROUTE_ERROR => call_handler p
  | CONNECT_ERROR | UNREACHABLE | REJECTED => task_failed p
  | ESTABLISHED | DISCONNECTED => call_handler p
  | TIMEWAIT_EXIT => let! _ := deref p in drainConnection p
  end.

(** One task of the processor. *)
Definition run_task : M unit := fun w =>
  match tasks w with
  | [] => Ok tt w
  | (p, ev) :: rest => run_event p ev (set_tasks rest w)
  end.

(** [onDrained]. *)
Definition onDrained (p : nat) : M unit :=
  let! o := deref p in
  do! removeConnection (mId o) in
  call_handler p.

(** The end of [CompletionContext::poll]: the drained connections. *)
Fixpoint drain_all (l : list nat) : M unit :=
  match l with [] => ret tt | p :: l => do! onDrained p in drain_all l end.
Fixpoint clear_all (l : list nat) : M unit :=
  match l with [] => ret tt | p :: l => do! intrusive_ptr_release p in clear_all l end.
Definition poll_draining : M unit := fun w =>
  let l := mDrainingQueue w in
  (do! modify (set_draining []) in do! drain_all l in clear_all l) w.

(** ** The event loop *)

(** An event of the channel: for an id, or a request at a listening one. *)
Inductive cm_event := ForId (id : nat) (ev : event) | Request (listen_id : nat) | Other.

(** [processEvent]; the new handle of a request goes to the application. *)
Definition processEvent (e : cm_event) : M (list nat) :=
  match e with
  | ForId id ev => do! schedule_event id ev in ret []
  | Request l => let! r := connect_request l in ret (match r with Some p => [p] | None => [] end)
  | Other => ret []
  end.

(** [run()]: the events [rdma_get_cm_event] returns before it fails; [std::terminate] unless the
    service is shutting down. *)
Fixpoint run_loop (events : list cm_event) : M (list nat) :=
  match events with
  | [] => ret []
  | e :: events => let! l := processEvent e in let! r := run_loop events in ret (l ++ r)
  end.
Definition run (events : list cm_event) (mShutdown : bool) : M (list nat) :=
  let! l := run_loop events in if mShutdown then ret l else ub.

(** ** The server manager *)

(** [RpcServerManager(service, port)]: on an exception [mAcceptor] is destroyed. *)
Definition RpcServerManager_make : M nat :=
  let! p := createAcceptor in
  fun w =>
    match (do! setHandler p AppHandler in do! open p in do! bind_ p in listen p) w with
    | Ok _ w => Ok p w
    | Throw e w => (do! intrusive_ptr_release p in throw e) w
    | UB => UB
    | NoFuel => NoFuel
    end.

End Sockets.
End Life.
