(* ===== verification/SocketLifeClaims.v ===== *)
(** The theorems about the lifetimes of sockets: an object exists exactly as long as something refers
    to it, so no operation, event or task touches a deleted one, as long as a socket is not closed
    while a task for it is queued; and what happens when it is. *)
From stdpp Require Import infinite.
From S2P Require Import Prelude ErrorCode SocketLife.

Import Life.

(** ** The invariant *)

(** How often [p] occurs. *)
Definition cnt (p : nat) (l : list nat) : Z := Z.of_nat (count_occ Nat.eq_dec l p).

Lemma cnt_nonneg p l : 0 <= cnt p l.
Proof. unfold cnt. lia. Qed.

Lemma cnt_cons p q l : cnt p (q :: l) = (if decide (q = p) then 1 else 0) + cnt p l.
Proof. unfold cnt. cbn. destruct (Nat.eq_dec q p), (decide (q = p)); try congruence; lia. Qed.

Lemma cnt_app p l k : cnt p (l ++ k) = cnt p l + cnt p k.
Proof. unfold cnt. rewrite count_occ_app. lia. Qed.

Lemma cnt_pos p l : p ∈ l -> 0 < cnt p l.
Proof. intros Hp. apply list_elem_of_In, (count_occ_In Nat.eq_dec) in Hp. unfold cnt. lia. Qed.

Lemma cnt_elem p l : 0 < cnt p l -> p ∈ l.
Proof. unfold cnt. intros Hp. apply list_elem_of_In, (count_occ_In Nat.eq_dec). lia. Qed.

Lemma cnt_length p l : cnt p l <= zlen l.
Proof. unfold cnt, zlen. pose proof (count_occ_bound Nat.eq_dec p l). lia. Qed.

(** The references an object has through its id: the context, and the entry of the map. *)
Definition id_refs (w : world) (o : object) : Z :=
  match mId o with
  | None => 0
  | Some i => match ids w !! i with Some c => if qp c then 2 else 1 | None => 1 end
  end.

Lemma id_refs_range w o : 0 <= id_refs w o <= 2.
Proof. unfold id_refs. destruct (mId o) as [i|]; [|lia]. destruct (ids w !! i) as [c|]; [|lia]. destruct (qp c); lia. Qed.

(** All references to [p], where [H] are the handles outside of the queue. *)
Definition refs (H : list nat) (w : world) (p : nat) (o : object) : Z :=
  cnt p H + cnt p (mDrainingQueue w) + id_refs w o.

(** An open socket that events can reach. *)
Definition ready (w : world) (p : nat) : Prop :=
  exists o i, objs w !! p = Some o /\ mId o = Some i /\ mProcessor o = true /\ is_Some (mHandler o).

Record Inv (H : list nat) (w : world) : Prop := {
  i_count p o : objs w !! p = Some o -> mReferenceCount o = refs H w p o;
  i_pos p o : objs w !! p = Some o -> 0 < mReferenceCount o;
  i_held p : p ∈ H \/ p ∈ mDrainingQueue w -> is_Some (objs w !! p);
  i_obj p o i : objs w !! p = Some o -> mId o = Some i -> exists c, ids w !! i = Some c /\ context c = p;
  i_id i c : ids w !! i = Some c -> exists o, objs w !! context c = Some o /\ mId o = Some i /\
    (connecting c = true -> mProcessor o = true /\ is_Some (mHandler o)) /\ (listening c = true -> is_Some (mHandler o));
  i_map k p : mSocketMap w !! k = Some p <-> exists i c, ids w !! i = Some c /\ qp c = Some k /\ context c = p;
  i_tasks p ev : (p, ev) ∈ tasks w -> ready w p;
  i_drain p : p ∈ mDrainingQueue w -> ready w p;
  i_next p : is_Some (objs w !! p) -> (p < next w)%nat;
  i_next_id i : is_Some (ids w !! i) -> (i < next_id w)%nat
}.

(** Fewer references than a counter can hold. *)
Definition bounded (H : list nat) (w : world) : Prop := zlen H + zlen (mDrainingQueue w) + 4 < 2 ^ 64.

(** Only reference counts differ; objects without an id may be gone. *)
Record sim (w w' : world) : Prop := {
  s_rest : next w' = next w /\ ids w' = ids w /\ next_id w' = next_id w /\ mSocketMap w' = mSocketMap w /\
    mDrainingQueue w' = mDrainingQueue w /\ tasks w' = tasks w;
  s_keep p o i : objs w !! p = Some o -> mId o = Some i -> exists n, objs w' !! p = Some (set_count n o);
  s_back p o' : objs w' !! p = Some o' -> exists o, objs w !! p = Some o /\ o' = set_count (mReferenceCount o') o
}.

Lemma sim_refl w : sim w w.
Proof.
  split; [done| |].
  - intros p o i Ho _. exists (mReferenceCount o). by destruct o.
  - intros p o Ho. exists o. by destruct o.
Qed.

Lemma sim_trans w w1 w2 : sim w w1 -> sim w1 w2 -> sim w w2.
Proof.
  intros [(?&?&?&?&?&?) K1 B1] [(?&?&?&?&?&?) K2 B2]. split.
  - split_and!; congruence.
  - intros p o i Ho Hi. destruct (K1 p o i Ho Hi) as [n Hn]. destruct (K2 p _ i Hn) as [n' Hn']; [done|]. by exists n'.
  - intros p o' Ho. destruct (B2 p o' Ho) as (o1 & Ho1 & He). destruct (B1 p o1 Ho1) as (o & Hoo & He1).
    exists o. split; [done|]. rewrite He, He1. by destruct o.
Qed.

Lemma sim_ready w w' p : sim w w' -> ready w p -> ready w' p.
Proof.
  intros [_ K _] (o & i & Ho & Hi & Hp & Hh). destruct (K p o i Ho Hi) as [n Hn]. by exists (set_count n o), i.
Qed.

(** Everything but the counts of the invariant survives. *)
Lemma sim_id_refs w w' o n : sim w w' -> id_refs w' (set_count n o) = id_refs w o.
Proof. intros [(_ & Hi & _) _ _]. unfold id_refs. cbn. by rewrite Hi. Qed.

Lemma sim_inv H H' w w' : Inv H w -> sim w w' ->
  (forall p o', objs w' !! p = Some o' -> mReferenceCount o' = refs H' w' p o') ->
  (forall p o', objs w' !! p = Some o' -> 0 < mReferenceCount o') ->
  (forall p, p ∈ H' \/ p ∈ mDrainingQueue w' -> is_Some (objs w' !! p)) -> Inv H' w'.
Proof.
  intros HI HS Hc Hp Hh. pose proof HS as [(Hn & Hi & Hni & Hm & Hd & Ht) K B]. split; try done.
  - intros p o' i Ho' Hid. destruct (B p o' Ho') as (o & Ho & He). rewrite Hi. eapply (i_obj H w HI); [exact Ho|]. by rewrite He in Hid.
  - intros i c Hic. rewrite Hi in Hic. destruct (i_id H w HI i c Hic) as (o & Ho & Hid & Hcn & Hl).
    destruct (K _ o i Ho Hid) as [n Hn']. by exists (set_count n o).
  - intros k p. rewrite Hm, Hi. apply HI.
  - intros p ev Hin. rewrite Ht in Hin. eapply sim_ready; [done|]. by eapply (i_tasks H w HI).
  - intros p Hin. rewrite Hd in Hin. eapply sim_ready; [done|]. by eapply (i_drain H w HI).
  - intros p [o' Ho']. destruct (B p o' Ho') as (o & Ho & _). rewrite Hn. by eapply (i_next H w HI).
  - intros i Hii. rewrite Hi in Hii. rewrite Hni. by eapply (i_next_id H w HI).
Qed.

(** ** Reference counts *)

Lemma life_update_ok p f w o : objs w !! p = Some o -> update p f w = Ok tt (set_objs (<[p := f o]> (objs w)) w).
Proof. intros Ho. unfold update, deref, bind. by rewrite Ho. Qed.

Lemma deref_ok p w o : objs w !! p = Some o -> deref p w = Ok o w.
Proof. intros Ho. unfold deref. by rewrite Ho. Qed.

Lemma sim_count w p o n : objs w !! p = Some o -> sim w (set_objs (<[p := set_count n o]> (objs w)) w).
Proof.
  intros Ho. split; [done| |]; cbn.
  - intros q o' i Hq _. destruct (decide (q = p)) as [->|Hne].
    + rewrite Ho in Hq. simplify_eq. exists n. by rewrite lookup_insert_eq.
    + exists (mReferenceCount o'). rewrite lookup_insert_ne by done. by destruct o'.
  - intros q o' Hq. destruct (decide (q = p)) as [->|Hne].
    + rewrite lookup_insert_eq in Hq. simplify_eq. exists o. by destruct o.
    + rewrite lookup_insert_ne in Hq by done. exists o'. by destruct o'.
Qed.

Lemma refs_bound H w p o : bounded H w -> 0 <= refs H w p o < 2 ^ 64 - 1.
Proof.
  unfold bounded, refs. intros Hb. pose proof (id_refs_range w o). pose proof (cnt_length p H).
  pose proof (cnt_length p (mDrainingQueue w)). pose proof (cnt_nonneg p H). pose proof (cnt_nonneg p (mDrainingQueue w)). lia.
Qed.

Lemma add_ref_ok H w p o : Inv H w -> objs w !! p = Some o -> bounded H w ->
  exists w', intrusive_ptr_add_ref p w = Ok tt w' /\ Inv (p :: H) w' /\ sim w w'.
Proof.
  intros HI Ho Hb. eexists. split; [by apply life_update_ok|].
  set (w' := set_objs _ w). assert (sim w w') as HS by by apply sim_count. split; [|done].
  pose proof (i_count H w HI p o Ho) as Hc. pose proof (refs_bound H w p o Hb) as Hr.
  assert (u64 (mReferenceCount o + 1) = mReferenceCount o + 1) as Hu by (apply u64_small; lia).
  apply (sim_inv H _ w); [done|done| | |].
  - intros q o' Hq. unfold w' in Hq. cbn in Hq. unfold refs. rewrite cnt_cons. cbn.
    destruct (decide (q = p)) as [->|Hne].
    + rewrite lookup_insert_eq in Hq. simplify_eq. cbn [mReferenceCount set_count]. rewrite decide_True by done.
      rewrite Hu, Hc, (sim_id_refs w w' o _ HS). unfold refs. lia.
    + rewrite lookup_insert_ne in Hq by done. rewrite decide_False by congruence.
      rewrite (i_count H w HI q o' Hq). unfold refs, id_refs. cbn. lia.
  - intros q o' Hq. cbn in Hq. destruct (decide (q = p)) as [->|Hne].
    + rewrite lookup_insert_eq in Hq. simplify_eq. cbn. lia.
    + rewrite lookup_insert_ne in Hq by done. by apply (i_pos H w HI q).
  - intros q Hq. cbn. destruct (decide (q = p)) as [->|Hne]; [rewrite lookup_insert_eq; by eexists|].
    rewrite lookup_insert_ne by done. apply (i_held H w HI). cbn in Hq. destruct Hq as [Hq|Hq]; [|by right].
    apply elem_of_cons in Hq as [?|?]; [done|by left].
Qed.

Lemma life_release_ok H w p : Inv (p :: H) w -> bounded H w ->
  exists w', intrusive_ptr_release p w = Ok tt w' /\ Inv H w' /\ sim w w'.
Proof.
  intros HI Hb. destruct (i_held _ w HI p) as [o Ho]; [left; left|].
  pose proof (i_count _ w HI p o Ho) as Hc. unfold refs in Hc. rewrite cnt_cons, decide_True in Hc by done.
  pose proof (refs_bound H w p o Hb) as Hr. unfold refs in Hr.
  assert (u64 (mReferenceCount o - 1) = mReferenceCount o - 1) as Hu by (apply u64_small; lia).
  unfold intrusive_ptr_release, bind. rewrite (life_update_ok _ _ _ _ Ho).
  set (w1 := set_objs _ w). assert (objs w1 !! p = Some (set_count (mReferenceCount o - 1) o)) as Ho1.
  { unfold w1. cbn. by rewrite lookup_insert_eq, Hu. }
  rewrite (deref_ok _ _ _ Ho1). cbn [mReferenceCount set_count].
  assert (sim w w1) as HS by by apply sim_count.
  assert (forall q o', q <> p -> objs w !! q = Some o' -> mReferenceCount o' = refs H w q o') as Hother.
  { intros q o' Hne Hq. rewrite (i_count _ w HI q o' Hq). unfold refs. rewrite cnt_cons, decide_False by congruence. lia. }
  destruct (mReferenceCount o - 1 =? 0) eqn:E; bool_prop.
  - eexists. split; [done|]. set (w2 := set_objs _ w1).
    pose proof (cnt_nonneg p H). pose proof (cnt_nonneg p (mDrainingQueue w)). pose proof (id_refs_range w o).
    assert (objs w2 = delete p (objs w)) as Hw2 by (unfold w2, w1; cbn; by rewrite delete_insert_eq).
    assert (mId o = None) as Hid.
    { destruct (mId o) as [i|] eqn:Hi; [|done]. exfalso. assert (1 <= id_refs w o); [|lia].
      unfold id_refs. rewrite Hi. destruct (ids w !! i) as [c|]; [|lia]. destruct (qp c); lia. }
    assert (sim w w2) as HS2.
    { split; [done| |]; rewrite Hw2.
      - intros q o' i Hq Hi. destruct (decide (q = p)) as [->|Hne]; [congruence|].
        exists (mReferenceCount o'). rewrite lookup_delete_ne by done. by destruct o'.
      - intros q o' Hq. apply lookup_delete_Some in Hq as [_ Hq]. exists o'. by destruct o'. }
    split; [|done]. apply (sim_inv (p :: H) _ w); [done|done| | |]; rewrite Hw2.
    + intros q o' Hq. apply lookup_delete_Some in Hq as [Hne Hq]. by rewrite (Hother q o').
    + intros q o' Hq. apply lookup_delete_Some in Hq as [Hne Hq]. by apply (i_pos _ w HI q).
    + intros q Hq. rewrite lookup_delete_ne.
      * apply (i_held _ w HI). destruct Hq; [left; by right|by right].
      * intros ->. destruct Hq as [Hq|Hq]; apply cnt_pos in Hq; cbn in Hq; lia.
  - exists w1. split; [done|]. split; [|done]. apply (sim_inv (p :: H) _ w); [done|done| | |].
    + intros q o' Hq. destruct (decide (q = p)) as [->|Hne].
      * rewrite Ho1 in Hq. simplify_eq. unfold refs. rewrite (sim_id_refs w w1 o _ HS). cbn. lia.
      * unfold w1 in Hq. cbn in Hq. rewrite lookup_insert_ne in Hq by done. by rewrite (Hother q o').
    + intros q o' Hq. destruct (decide (q = p)) as [->|Hne].
      * rewrite Ho1 in Hq. simplify_eq. cbn. pose proof (i_pos _ w HI p o Ho). lia.
      * unfold w1 in Hq. cbn in Hq. rewrite lookup_insert_ne in Hq by done. by apply (i_pos _ w HI q).
    + intros q Hq. unfold w1. cbn. destruct (decide (q = p)) as [->|Hne]; [rewrite lookup_insert_eq; by eexists|].
      rewrite lookup_insert_ne by done. apply (i_held _ w HI). destruct Hq; [left; by right|by right].
Qed.

Lemma deref_id_ok w i c : ids w !! i = Some c -> deref_id (Some i) w = Ok (i, c) w.
Proof. intros Hi. unfold deref_id. by rewrite Hi. Qed.

Lemma update_id_ok w i c f : ids w !! i = Some c -> update_id i f w = Ok tt (set_ids (<[i := f c]> (ids w)) w).
Proof. intros Hi. unfold update_id, bind. by rewrite (deref_id_ok _ _ _ Hi). Qed.

(** The id of an object determines the object. *)
Lemma id_unique H w p q o o' i : Inv H w -> objs w !! p = Some o -> mId o = Some i ->
  objs w !! q = Some o' -> mId o' = Some i -> p = q.
Proof.
  intros HI Ho Hi Ho' Hi'. destruct (i_obj H w HI p o i Ho Hi) as (c & Hc & Hp).
  destruct (i_obj H w HI q o' i Ho' Hi') as (c' & Hc' & Hq). congruence.
Qed.

(** ** Queue pairs *)

(** A queue pair is created: a handle moves into the map. *)
Lemma attach_inv H w p o i c num : Inv (p :: H) w -> objs w !! p = Some o -> mId o = Some i ->
  ids w !! i = Some c -> qp c = None -> (forall j d, ids w !! j = Some d -> qp d <> Some num) ->
  Inv H (set_map (<[num := p]> (mSocketMap w)) (set_ids (<[i := set_qp (Some num) c]> (ids w)) w)).
Proof.
  intros HI Ho Hi Hc Hq Hf. destruct (i_obj _ w HI p o i Ho Hi) as (c0 & Hc0 & Hp). rewrite Hc in Hc0. simplify_eq.
  split; cbn.
  - intros q o' Hqo. rewrite (i_count _ w HI q o' Hqo). unfold refs, id_refs. rewrite cnt_cons. cbn.
    destruct (mId o') as [j|] eqn:Hj.
    + destruct (decide (j = i)) as [->|Hne].
      * assert (context c0 = q) as <- by (eapply (id_unique _ w (context c0) q o o' i); eauto).
        rewrite decide_True by done. rewrite lookup_insert_eq, Hc. cbn. rewrite Hq. lia.
      * rewrite lookup_insert_ne by done. rewrite decide_False; [lia|]. intros Heq. subst q. congruence.
    + rewrite decide_False; [lia|]. intros Heq. subst q. congruence.
  - intros q o'. apply (i_pos _ w HI).
  - intros q Hqq. apply (i_held _ w HI). destruct Hqq; [left; by right|by right].
  - intros q o' j Hqo Hj. destruct (i_obj _ w HI q o' j Hqo Hj) as (d & Hd & He). destruct (decide (j = i)) as [->|Hne].
    + rewrite lookup_insert_eq. eexists. split; [done|]. cbn. congruence.
    + rewrite lookup_insert_ne by done. by exists d.
  - intros j d Hd. destruct (decide (j = i)) as [->|Hne].
    + rewrite lookup_insert_eq in Hd. simplify_eq. cbn. by apply (i_id _ w HI).
    + rewrite lookup_insert_ne in Hd by done. by apply (i_id _ w HI).
  - intros k q. destruct (decide (k = num)) as [->|Hk].
    + rewrite lookup_insert_eq. split.
      * intros [= <-]. exists i, (set_qp (Some num) c0). by rewrite lookup_insert_eq.
      * intros (j & d & Hd & Hqd & Hcd). destruct (decide (j = i)) as [->|Hne].
        { rewrite lookup_insert_eq in Hd. by simplify_eq/=. }
        rewrite lookup_insert_ne in Hd by done. exfalso. by apply (Hf j d Hd).
    + rewrite lookup_insert_ne by done. rewrite (i_map _ w HI k q). split; intros (j & d & Hd & Hqd & Hcd).
      * exists j, d. rewrite lookup_insert_ne; [done|]. intros <-. congruence.
      * destruct (decide (j = i)) as [->|Hne].
        { rewrite lookup_insert_eq in Hd. simplify_eq/=. }
        rewrite lookup_insert_ne in Hd by done. by exists j, d.
  - intros q ev Hin. destruct (i_tasks _ w HI q ev Hin) as (o' & j & ?). by exists o', j.
  - intros q Hin. destruct (i_drain _ w HI q Hin) as (o' & j & ?). by exists o', j.
  - apply (i_next _ w HI).
  - intros j Hj. apply (i_next_id _ w HI). destruct (decide (j = i)) as [->|Hne]; [by eexists|]. by rewrite lookup_insert_ne in Hj.
Qed.

(** A queue pair is destroyed: the handle in the map is free. *)
Lemma detach_inv H w i c num : Inv H w -> ids w !! i = Some c -> qp c = Some num ->
  Inv (context c :: H) (set_ids (<[i := set_qp None c]> (ids w)) (set_map (delete num (mSocketMap w)) w)).
Proof.
  intros HI Hc Hq. destruct (i_id _ w HI i c Hc) as (o & Ho & Hi & _).
  assert (forall j d, ids w !! j = Some d -> qp d = Some num -> j = i) as Huq.
  { intros j d Hd Hqd. assert (mSocketMap w !! num = Some (context d)) as H1 by (apply HI; eauto).
    assert (mSocketMap w !! num = Some (context c)) as H2 by (apply HI; eauto).
    destruct (i_id _ w HI j d Hd) as (od & Hod & Hid & _). congruence. }
  split; cbn.
  - intros q o' Hqo. rewrite (i_count _ w HI q o' Hqo). unfold refs, id_refs. rewrite cnt_cons. cbn.
    destruct (mId o') as [j|] eqn:Hj.
    + destruct (decide (j = i)) as [->|Hne].
      * assert (context c = q) as <- by (eapply (id_unique _ w (context c) q o o' i); eauto).
        rewrite decide_True by done. rewrite lookup_insert_eq, Hc. cbn. rewrite Hq. lia.
      * rewrite lookup_insert_ne by done. rewrite decide_False; [lia|]. intros Heq. subst q. congruence.
    + rewrite decide_False; [lia|]. intros Heq. subst q. congruence.
  - intros q o'. apply (i_pos _ w HI).
  - intros q [Hqq|Hqq]; [|apply (i_held _ w HI); by right].
    apply elem_of_cons in Hqq as [->|Hqq]; [by eexists|]. apply (i_held _ w HI). by left.
  - intros q o' j Hqo Hj. destruct (i_obj _ w HI q o' j Hqo Hj) as (d & Hd & He). destruct (decide (j = i)) as [->|Hne].
    + rewrite lookup_insert_eq. eexists. split; [done|]. cbn. congruence.
    + rewrite lookup_insert_ne by done. by exists d.
  - intros j d Hd. destruct (decide (j = i)) as [->|Hne].
    + rewrite lookup_insert_eq in Hd. simplify_eq. cbn. by apply (i_id _ w HI).
    + rewrite lookup_insert_ne in Hd by done. by apply (i_id _ w HI).
  - intros k q. rewrite lookup_delete_Some, (i_map _ w HI k q). split.
    + intros (Hne & j & d & Hd & Hqd & Hcd). exists j, d. rewrite lookup_insert_ne; [done|]. intros <-. congruence.
    + intros (j & d & Hd & Hqd & Hcd). destruct (decide (j = i)) as [->|Hji].
      { rewrite lookup_insert_eq in Hd. simplify_eq/=. }
      rewrite lookup_insert_ne in Hd by done. split; [|by exists j, d]. intros <-. by apply Hji, (Huq j d).
  - intros q ev Hin. destruct (i_tasks _ w HI q ev Hin) as (o' & j & ?). by exists o', j.
  - intros q Hin. destruct (i_drain _ w HI q Hin) as (o' & j & ?). by exists o', j.
  - apply (i_next _ w HI).
  - intros j Hj. apply (i_next_id _ w HI). destruct (decide (j = i)) as [->|Hne]; [by eexists|]. by rewrite lookup_insert_ne in Hj.
Qed.

(** Open sockets stay open and keep their handler; the queues are as they were. *)
Record stays (w w' : world) : Prop := {
  st_open p o i : objs w !! p = Some o -> mId o = Some i ->
    exists o', objs w' !! p = Some o' /\ mId o' = Some i /\ mHandler o' = mHandler o /\ (mProcessor o = true -> mProcessor o' = true);
  st_drain : mDrainingQueue w' = mDrainingQueue w;
  st_tasks : tasks w' = tasks w
}.

Lemma sim_stays w w' : sim w w' -> stays w w'.
Proof.
  intros [(_ & _ & _ & _ & Hd & Ht) K _]. split; [|done|done]. intros p o i Ho Hi. destruct (K p o i Ho Hi) as [n Hn].
  by exists (set_count n o).
Qed.

Lemma stays_trans w w1 w2 : stays w w1 -> stays w1 w2 -> stays w w2.
Proof.
  intros [K1 D1 T1] [K2 D2 T2]. split; [|congruence|congruence]. intros p o i Ho Hi.
  destruct (K1 p o i Ho Hi) as (o1 & Ho1 & Hi1 & Hh1 & Hp1). destruct (K2 p o1 i Ho1 Hi1) as (o2 & Ho2 & Hi2 & Hh2 & Hp2).
  exists o2. split_and!; [done|done|congruence|auto].
Qed.

Lemma stays_objs w w' : objs w' = objs w -> mDrainingQueue w' = mDrainingQueue w -> tasks w' = tasks w -> stays w w'.
Proof. intros Ho Hd Ht. split; [|done|done]. intros p o i Hp Hi. rewrite Ho. by exists o. Qed.

Lemma stays_bounded H w w' : stays w w' -> bounded H w -> bounded H w'.
Proof. intros [_ Hd _]. unfold bounded. by rewrite Hd. Qed.

Lemma sim_bounded H w w' : sim w w' -> bounded H w -> bounded H w'.
Proof. intros HS. by apply stays_bounded, sim_stays. Qed.

Definition room (H : list nat) (w : world) : Prop := zlen H + zlen (mDrainingQueue w) + 6 < 2 ^ 64.

Lemma room_bounded H w : room H w -> bounded H w.
Proof. unfold room, bounded. lia. Qed.
Lemma room_cons H w p : room H w -> bounded (p :: H) w.
Proof. unfold room, bounded. rewrite zlen_cons. lia. Qed.
Lemma room_stays H w w' : stays w w' -> room H w -> room H w'.
Proof. intros [_ Hd _]. unfold room. by rewrite Hd. Qed.

Section Ops.
Context {C : Cm} {CL : CmLaws C}.

Lemma release_commutes p x w w' : intrusive_ptr_release p (set_ids x w) = Ok tt w' ->
  exists w1, intrusive_ptr_release p w = Ok tt w1 /\ w' = set_ids x w1 /\ ids w1 = ids w.
Proof.
  unfold intrusive_ptr_release, update, deref, bind, modify. cbn. destruct (objs w !! p) as [o|]; [|done]. cbn.
  rewrite !lookup_insert_eq. cbn. destruct (_ =? 0); intros [= <-]; by eexists.
Qed.

Lemma removeConnection_ok H w i c : Inv H w -> room H w -> ids w !! i = Some c ->
  exists w', removeConnection (Some i) w = Ok tt w' /\ Inv H w' /\ stays w w'.
Proof.
  intros HI Hr Hc. unfold removeConnection, bind at 1. rewrite (deref_id_ok _ _ _ Hc).
  destruct (qp c) as [num|] eqn:Hq; [|exists w; split_and!; [done..|by apply stays_objs]].
  assert (mSocketMap w !! num = Some (context c)) as Hm by (apply HI; eauto).
  unfold bind at 1, get. rewrite Hm. pose proof (detach_inv H w i c num HI Hc Hq) as HD.
  destruct (life_release_ok H _ _ HD) as (w2 & Hrel & HI2 & HS2); [by apply room_bounded in Hr|].
  destruct (release_commutes _ _ _ _ Hrel) as (w1 & Hrel1 & -> & Hids).
  unfold bind at 1, bind at 1, modify at 1. rewrite Hrel1.
  rewrite (update_id_ok _ _ c) by (by rewrite Hids). rewrite Hids. eexists. split; [done|]. split; [done|].
  eapply stays_trans; [|by apply sim_stays]. by apply stays_objs.
Qed.

Lemma addConnection_ok H w p o i : Inv H w -> room H w -> objs w !! p = Some o -> mId o = Some i ->
  wpx (addConnection (Some i) p) w (fun _ w' => Inv H w' /\ stays w w')
    (fun e w' => (exists n, e = SystemError n) /\ Inv H w' /\ stays w w').
Proof.
  intros HI Hr Ho Hi. unfold addConnection.
  destruct (add_ref_ok H w p o HI Ho (room_bounded _ _ Hr)) as (w1 & Hadd & HI1 & HS1). wpx_run Hadd.
  pose proof (sim_stays _ _ HS1) as HT1. pose proof (room_stays _ _ _ HT1 Hr) as Hr1.
  destruct (i_obj H w HI p o i Ho Hi) as (c & Hc & Hp). destruct (s_keep _ _ HS1 p o i Ho Hi) as [n Ho1].
  assert (ids w1 !! i = Some c) as Hc1 by (by destruct HS1 as [(_ & -> & _) _ _]).
  wpx_run (deref_id_ok _ _ _ Hc1). wpx_run (eq_refl : get w1 = Ok w1 w1).
  destruct (rdma_create_qp c w1 =? 0) eqn:E; cbn [negb]; bool_prop.
  - assert (qp c = None) as Hq by (unfold rdma_create_qp in E; by destruct (qp c)).
    cbv zeta. wpx_run (update_id_ok _ _ _ _ Hc1).
    assert (mSocketMap w1 !! cm_qp_num w1 = None) as Hm.
    { destruct (mSocketMap w1 !! cm_qp_num w1) as [q|] eqn:Hm; [|done]. exfalso.
      apply (i_map _ _ HI1) in Hm as (j & d & Hd & Hqd & _). by apply (cm_qp_fresh w1 j d Hd). }
    rewrite Hm. eapply wpx_ok; [done|]. split.
    + eapply (attach_inv H w1 p _ i c); [done|exact Ho1|done|done|done|]. apply cm_qp_fresh.
    + eapply stays_trans; [exact HT1|]. by apply stays_objs.
  - destruct (life_release_ok H w1 p HI1 (room_bounded _ _ Hr1)) as (w2 & Hrel & HI2 & HS2). wpx_run Hrel.
    eapply wpx_throw; [done|]. split; [by eexists|]. split; [done|]. eapply stays_trans; [exact HT1|by apply sim_stays].
Qed.

Lemma drainConnection_ok H w p : Inv H w -> room H w -> ready w p ->
  exists w', drainConnection p w = Ok tt w' /\ Inv H w' /\ tasks w' = tasks w.
Proof.
  intros HI Hr HR. pose proof HR as (o & i & Ho & Hi & _). unfold drainConnection, bind.
  destruct (add_ref_ok H w p o HI Ho (room_bounded _ _ Hr)) as (w1 & Hadd & HI1 & HS1). rewrite Hadd.
  eexists. split; [done|]. split; [|by destruct HS1 as [(?&?&?&?&?&?) _ _]]. pose proof (sim_ready _ _ _ HS1 HR) as HR1.
  split; cbn; try apply HI1.
  - intros q o' Hq. rewrite (i_count _ _ HI1 q o' Hq). unfold refs. cbn. rewrite cnt_app, !cnt_cons.
    change (cnt q []) with 0. change (id_refs (set_draining _ w1) o') with (id_refs w1 o'). lia.
  - intros q Hq. apply (i_held _ _ HI1). destruct Hq as [Hq|Hq]; [left; by right|].
    apply elem_of_app in Hq as [Hq|Hq]; [by right|]. apply list_elem_of_singleton in Hq as ->. left. left.
  - intros q Hq. apply elem_of_app in Hq as [Hq|Hq]; [by apply (i_drain _ _ HI1)|]. by apply list_elem_of_singleton in Hq as ->.
Qed.

(** ** Changes of one object or id *)

(** Handler and processor. *)
Lemma flag_inv H w p o o' : Inv H w -> objs w !! p = Some o -> mId o' = mId o -> mReferenceCount o' = mReferenceCount o ->
  (mProcessor o = true -> mProcessor o' = true) -> (is_Some (mHandler o) -> is_Some (mHandler o')) ->
  Inv H (set_objs (<[p := o']> (objs w)) w).
Proof.
  intros HI Ho Hi Hc Hp Hh.
  assert (forall q x, <[p := o']> (objs w) !! q = Some x -> (q = p /\ x = o') \/ (q <> p /\ objs w !! q = Some x)) as Hl.
  { intros q x Hq. destruct (decide (q = p)) as [->|Hne]; [rewrite lookup_insert_eq in Hq; left; by simplify_eq|].
    rewrite lookup_insert_ne in Hq by done. by right. }
  assert (forall q, is_Some (objs w !! q) -> is_Some (<[p := o']> (objs w) !! q)) as Hs.
  { intros q Hq. destruct (decide (q = p)) as [->|Hne]; [rewrite lookup_insert_eq; by eexists|by rewrite lookup_insert_ne]. }
  assert (forall q, ready w q -> ready (set_objs (<[p := o']> (objs w)) w) q) as Hrd.
  { intros q (x & i & Hx & Hxi & Hxp & Hxh). destruct (decide (q = p)) as [->|Hne].
    - exists o', i. cbn. rewrite lookup_insert_eq. simplify_eq. split_and!; [done|congruence|auto|auto].
    - exists x, i. cbn. by rewrite lookup_insert_ne. }
  split; cbn.
  - intros q x Hq. destruct (Hl q x Hq) as [[-> ->]|[_ Hq']].
    + rewrite Hc, (i_count _ w HI p o Ho). unfold refs, id_refs. cbn. by rewrite Hi.
    + by rewrite (i_count _ w HI q x Hq').
  - intros q x Hq. destruct (Hl q x Hq) as [[-> ->]|[_ Hq']]; [rewrite Hc; by apply (i_pos _ w HI p)|by apply (i_pos _ w HI q)].
  - intros q Hq. by apply Hs, (i_held _ w HI).
  - intros q x i Hq Hx. destruct (Hl q x Hq) as [[-> ->]|[_ Hq']]; [|by eapply (i_obj _ w HI)].
    rewrite Hi in Hx. by eapply (i_obj _ w HI).
  - intros i c Hic. destruct (i_id _ w HI i c Hic) as (x & Hx & Hxi & H1 & H2). destruct (decide (context c = p)) as [He|Hne].
    + exists o'. rewrite He, lookup_insert_eq in *. simplify_eq. split_and!; [done|congruence|naive_solver|naive_solver].
    + exists x. by rewrite lookup_insert_ne by congruence.
  - apply (i_map _ w HI).
  - intros q ev Hq. by eapply Hrd, (i_tasks _ w HI).
  - intros q Hq. by apply Hrd, (i_drain _ w HI).
  - intros q [x Hq]. apply (i_next _ w HI). destruct (Hl q x Hq) as [[-> _]|[_ ?]]; by eexists.
  - apply (i_next_id _ w HI).
Qed.

(** An id on which events can arrive from now on. *)
Lemma id_flag_inv H w i c c' o : Inv H w -> ids w !! i = Some c -> context c' = context c -> qp c' = qp c ->
  objs w !! context c = Some o ->
  (connecting c' = true -> mProcessor o = true /\ is_Some (mHandler o)) -> (listening c' = true -> is_Some (mHandler o)) ->
  Inv H (set_ids (<[i := c']> (ids w)) w).
Proof.
  intros HI Hc Hx Hq Ho H1 H2. split; cbn; try apply HI.
  - intros p x Hp. rewrite (i_count _ w HI p x Hp). unfold refs, id_refs. cbn. destruct (mId x) as [j|]; [|done].
    destruct (decide (j = i)) as [->|Hne]; [by rewrite lookup_insert_eq, Hc, Hq|by rewrite lookup_insert_ne].
  - intros p x j Hp Hj. destruct (i_obj _ w HI p x j Hp Hj) as (d & Hd & Hdp). destruct (decide (j = i)) as [->|Hne].
    + rewrite lookup_insert_eq. exists c'. split; [done|congruence].
    + rewrite lookup_insert_ne by done. by exists d.
  - intros j d Hd. destruct (decide (j = i)) as [->|Hne].
    + rewrite lookup_insert_eq in Hd. simplify_eq. rewrite Hx. destruct (i_id _ w HI i c Hc) as (x & Ho' & Hxi & _).
      assert (x = o) as -> by congruence. by exists o.
    + rewrite lookup_insert_ne in Hd by done. by apply (i_id _ w HI).
  - intros k p. rewrite (i_map _ w HI k p). split; intros (j & d & Hd & Hqd & Hdp); (destruct (decide (j = i)) as [->|Hne]).
    + exists i, c'. rewrite lookup_insert_eq. split_and!; congruence.
    + exists j, d. by rewrite lookup_insert_ne.
    + rewrite lookup_insert_eq in Hd. simplify_eq. exists i, c. split_and!; congruence.
    + rewrite lookup_insert_ne in Hd by done. by exists j, d.
  - intros j Hj. apply (i_next_id _ w HI). destruct (decide (j = i)) as [->|Hne]; [by eexists|by rewrite lookup_insert_ne in Hj].
Qed.

(** A new object with its first handle. *)
Lemma create_inv H w a pr : Inv H w -> Inv (next w :: H) (add_obj (Object a None pr None 1) w).
Proof.
  intros HI. set (o := Object a None pr None 1).
  assert (forall p, is_Some (objs w !! p) -> p <> next w) as Hne.
  { intros p Hp ->. apply (i_next _ w HI) in Hp. lia. }
  assert (forall p x, <[next w := o]> (objs w) !! p = Some x -> (p = next w /\ x = o) \/ (p <> next w /\ objs w !! p = Some x)) as Hl.
  { intros q x Hq. destruct (decide (q = next w)) as [->|Hn]; [rewrite lookup_insert_eq in Hq; left; by simplify_eq|].
    rewrite lookup_insert_ne in Hq by done. by right. }
  assert (forall p x, objs w !! p = Some x -> <[next w := o]> (objs w) !! p = Some x) as Hk.
  { intros p x Hp. rewrite lookup_insert_ne; [done|]. intros <-. by eapply Hne. }
  assert (forall l, (forall p, p ∈ l -> is_Some (objs w !! p)) -> cnt (next w) l = 0) as Hz.
  { intros l Hlive. pose proof (cnt_nonneg (next w) l). destruct (decide (cnt (next w) l = 0)); [done|].
    exfalso. apply (Hne (next w)); [|done]. apply Hlive, cnt_elem. lia. }
  split; cbn.
  - intros p x Hp. unfold refs. cbn. rewrite cnt_cons. destruct (Hl p x Hp) as [[-> ->]|[Hn Hp']].
    + rewrite decide_True by done. cbn. rewrite (Hz H), (Hz (mDrainingQueue w)); [done|..]; intros q Hq; apply (i_held _ w HI); auto.
    + rewrite decide_False by congruence. by rewrite (i_count _ w HI p x Hp').
  - intros p x Hp. destruct (Hl p x Hp) as [[-> ->]|[_ Hp']]; [cbn; lia|by apply (i_pos _ w HI p)].
  - intros p Hp. destruct (decide (p = next w)) as [->|Hn]; [rewrite lookup_insert_eq; by eexists|].
    rewrite lookup_insert_ne by done. apply (i_held _ w HI). destruct Hp as [Hp|?]; [|by right].
    apply elem_of_cons in Hp as [?|?]; [done|by left].
  - intros p x i Hp Hi. destruct (Hl p x Hp) as [[-> ->]|[_ Hp']]; [done|by eapply (i_obj _ w HI)].
  - intros i c Hc. destruct (i_id _ w HI i c Hc) as (x & Hx & ?). exists x. split; [by apply Hk|done].
  - apply (i_map _ w HI).
  - intros p ev Hp. destruct (i_tasks _ w HI p ev Hp) as (x & i & Hx & ?). exists x, i. split; [by apply Hk|done].
  - intros p Hp. destruct (i_drain _ w HI p Hp) as (x & i & Hx & ?). exists x, i. split; [by apply Hk|done].
  - intros p [x Hp]. destruct (Hl p x Hp) as [[-> _]|[_ Hp']]; [lia|]. assert (p < next w)%nat; [|lia]. apply (i_next _ w HI). by eexists.
  - apply (i_next_id _ w HI).
Qed.

(** An object gets a new id. *)
Lemma open_inv H w p o : Inv H w -> objs w !! p = Some o -> mId o = None ->
  Inv H (set_objs (<[p := set_count (mReferenceCount o + 1) (set_mId (Some (next_id w)) o)]> (objs w)) (add_id (CmId p None false false) w)).
Proof.
  intros HI Ho Hi. set (o' := set_count _ _). assert (ids w !! next_id w = None) as Hfr.
  { destruct (ids w !! next_id w) eqn:E; [|done]. assert (next_id w < next_id w)%nat; [|lia]. apply (i_next_id _ w HI). by eexists. }
  assert (forall i c, ids w !! i = Some c -> i <> next_id w) as Hni by (intros i c Hc ->; congruence).
  assert (forall q x, <[p := o']> (objs w) !! q = Some x -> (q = p /\ x = o') \/ (q <> p /\ objs w !! q = Some x)) as Hl.
  { intros q x Hq. destruct (decide (q = p)) as [->|Hn]; [rewrite lookup_insert_eq in Hq; left; by simplify_eq|].
    rewrite lookup_insert_ne in Hq by done. by right. }
  assert (forall q, ready w q -> ready (set_objs (<[p := o']> (objs w)) (add_id (CmId p None false false) w)) q) as Hrd.
  { intros q (x & i & Hx & Hxi & ?). exists x, i. cbn. rewrite lookup_insert_ne; [done|]. congruence. }
  split; cbn.
  - intros q x Hq. unfold refs. cbn. destruct (Hl q x Hq) as [[-> ->]|[Hn Hq']].
    + cbn. rewrite (i_count _ w HI p o Ho). unfold refs, id_refs. cbn. rewrite Hi, lookup_insert_eq. cbn. lia.
    + rewrite (i_count _ w HI q x Hq'). unfold refs, id_refs. cbn. destruct (mId x) as [j|] eqn:Hj; [|done].
      destruct (i_obj _ w HI q x j Hq' Hj) as (c & Hc & _). by rewrite lookup_insert_ne by (intros <-; congruence).
  - intros q x Hq. destruct (Hl q x Hq) as [[-> ->]|[_ Hq']]; [|by apply (i_pos _ w HI q)].
    pose proof (i_pos _ w HI p o Ho). cbn. lia.
  - intros q Hq. destruct (decide (q = p)) as [->|Hn]; [rewrite lookup_insert_eq; by eexists|].
    rewrite lookup_insert_ne by done. by apply (i_held _ w HI).
  - intros q x i Hq Hxi. destruct (Hl q x Hq) as [[-> ->]|[_ Hq']].
    + cbn in Hxi. simplify_eq. rewrite lookup_insert_eq. by eexists.
    + destruct (i_obj _ w HI q x i Hq' Hxi) as (c & Hc & Hcq). exists c. rewrite lookup_insert_ne; [done|]. intros <-. congruence.
  - intros i c Hc. destruct (decide (i = next_id w)) as [->|Hn].
    + rewrite lookup_insert_eq in Hc. simplify_eq. cbn. exists o'. rewrite lookup_insert_eq. split_and!; done.
    + rewrite lookup_insert_ne in Hc by done. destruct (i_id _ w HI i c Hc) as (x & Hx & Hxi & ?). exists x.
      rewrite lookup_insert_ne; [done|]. congruence.
  - intros k q. rewrite (i_map _ w HI k q). split; intros (i & c & Hc & Hqc & Hcq).
    + exists i, c. rewrite lookup_insert_ne; [done|]. intros <-. congruence.
    + destruct (decide (i = next_id w)) as [->|Hn]; [rewrite lookup_insert_eq in Hc; by simplify_eq/=|].
      rewrite lookup_insert_ne in Hc by done. by exists i, c.
  - intros q ev Hq. by eapply Hrd, (i_tasks _ w HI).
  - intros q Hq. by apply Hrd, (i_drain _ w HI).
  - intros q [x Hq]. apply (i_next _ w HI). destruct (Hl q x Hq) as [[-> _]|[_ ?]]; by eexists.
  - intros i [c Hc]. destruct (decide (i = next_id w)) as [->|Hn]; [lia|]. rewrite lookup_insert_ne in Hc by done.
    assert (i < next_id w)%nat; [|lia]. apply (i_next_id _ w HI). by eexists.
Qed.

(** An object loses its id; the reference of the id is free. *)
Lemma close_inv H w p o i c : Inv H w -> objs w !! p = Some o -> mId o = Some i -> ids w !! i = Some c -> qp c = None ->
  (forall ev, (p, ev) ∉ tasks w) -> p ∉ mDrainingQueue w ->
  Inv (p :: H) (set_objs (<[p := set_mId None o]> (objs w)) (set_ids (delete i (ids w)) w)).
Proof.
  intros HI Ho Hi Hc Hq Ht Hd. set (o' := set_mId None o).
  destruct (i_obj _ w HI p o i Ho Hi) as (c0 & Hc0 & Hcp). rewrite Hc in Hc0. injection Hc0 as <-.
  assert (forall q x, <[p := o']> (objs w) !! q = Some x -> (q = p /\ x = o') \/ (q <> p /\ objs w !! q = Some x)) as Hl.
  { intros q x Hqx. destruct (decide (q = p)) as [->|Hn]; [rewrite lookup_insert_eq in Hqx; left; by simplify_eq|].
    rewrite lookup_insert_ne in Hqx by done. by right. }
  assert (forall q x j, q <> p -> objs w !! q = Some x -> mId x = Some j -> j <> i) as Hji.
  { intros q x j Hn Hqx Hj ->. apply Hn. by eapply (id_unique H w q p x o). }
  split; cbn.
  - intros q x Hqx. unfold refs. cbn. rewrite cnt_cons. destruct (Hl q x Hqx) as [[-> ->]|[Hn Hq']].
    + rewrite decide_True by done. cbn. rewrite (i_count _ w HI p o Ho). unfold refs, id_refs. cbn. rewrite Hi, Hc, Hq. lia.
    + rewrite decide_False by congruence. rewrite (i_count _ w HI q x Hq'). unfold refs, id_refs. cbn.
      destruct (mId x) as [j|] eqn:Hj; [|lia]. rewrite lookup_delete_ne by (by apply not_eq_sym, (Hji q x j)). lia.
  - intros q x Hqx. destruct (Hl q x Hqx) as [[-> ->]|[_ Hq']]; [exact (i_pos _ w HI p o Ho)|by apply (i_pos _ w HI q)].
  - intros q Hqq. destruct (decide (q = p)) as [->|Hn]; [rewrite lookup_insert_eq; by eexists|].
    rewrite lookup_insert_ne by done. apply (i_held _ w HI). destruct Hqq as [Hqq|?]; [|by right].
    apply elem_of_cons in Hqq as [?|?]; [done|by left].
  - intros q x j Hqx Hj. destruct (Hl q x Hqx) as [[-> ->]|[Hn Hq']]; [done|].
    destruct (i_obj _ w HI q x j Hq' Hj) as (d & Hd' & Hdq). exists d. rewrite lookup_delete_ne; [done|]. by apply not_eq_sym, (Hji q x j).
  - intros j d Hjd. apply lookup_delete_Some in Hjd as [Hn Hjd]. destruct (i_id _ w HI j d Hjd) as (x & Hx & Hxj & ?).
    exists x. rewrite lookup_insert_ne; [done|]. intros ->. congruence.
  - intros k q. rewrite (i_map _ w HI k q). split; intros (j & d & Hjd & Hqd & Hdq).
    + exists j, d. rewrite lookup_delete_ne; [done|]. intros <-. congruence.
    + apply lookup_delete_Some in Hjd as [Hn Hjd]. by exists j, d.
  - intros q ev Hin. destruct (i_tasks _ w HI q ev Hin) as (x & j & Hx & ?). exists x, j. cbn.
    rewrite lookup_insert_ne; [done|]. intros <-. by apply (Ht ev).
  - intros q Hin. destruct (i_drain _ w HI q Hin) as (x & j & Hx & ?). exists x, j. cbn.
    rewrite lookup_insert_ne; [done|]. by intros <-.
  - intros q [x Hqx]. apply (i_next _ w HI). destruct (Hl q x Hqx) as [[-> _]|[_ ?]]; by eexists.
  - intros j [d Hjd]. apply lookup_delete_Some in Hjd as [_ Hjd]. apply (i_next_id _ w HI). by eexists.
Qed.

(** ** Operations *)

Ltac wpx_pure := wpxb; eapply wpx_ok; [reflexivity|]; cbv beta iota.

Definition keeps (H : list nat) {A} (w : world) (_ : A) (w' : world) : Prop := Inv H w' /\ stays w w'.

Lemma life_check_ok H c w (Q : unit -> world -> Prop) (X : exn -> world -> Prop) :
  Inv H w -> Q tt w -> (forall n, X (SystemError n) w) -> wpx (check c) w Q X.
Proof. intros HI HQ HX. unfold wpx, check. by destruct (cm c w =? 0). Qed.

Lemma stays_refl w : stays w w.
Proof. by apply stays_objs. Qed.

(** An exception a handler can catch. *)
Definition system_error (e : exn) : Prop := exists n, e = SystemError n.
Definition fails (H : list nat) (w : world) (e : exn) (w' : world) : Prop := system_error e /\ Inv H w' /\ stays w w'.

Lemma fails_here H w n : Inv H w -> fails H w (SystemError n) w.
Proof. intros HI. split; [by eexists|]. split; [done|apply stays_refl]. Qed.

Lemma createSocket_ok H w : Inv H w ->
  wp createSocket w (fun p w' => Inv (p :: H) w') /\ wp createAcceptor w (fun p w' => Inv (p :: H) w').
Proof.
  intros HI. pose proof (fun a => create_inv H w a (negb a) HI) as Hc.
  unfold wp, createSocket, createAcceptor, new_object, intrusive_ptr_add_ref, update, deref, modify, bind. cbn.
  rewrite !lookup_insert_eq. cbn. change (u64 (0 + 1)) with 1. rewrite !insert_insert_eq. split; [exact (Hc false)|exact (Hc true)].
Qed.

Lemma open_ok H w p o : Inv H w -> room H w -> objs w !! p = Some o ->
  wpx (open p) w (fun _ w' => Inv H w') (fun _ w' => Inv H w').
Proof.
  intros HI Hr Ho. unfold open. wpx_run (deref_ok _ _ _ Ho). destruct (mId o) as [i|] eqn:Hi; [by eapply wpx_throw|].
  wpxb. apply (life_check_ok H); [done| |done]. cbv beta. wpx_run (eq_refl : get w = Ok w w).
  wpx_pure. wpxb. eapply wpx_ok; [by apply life_update_ok|]. cbv beta.
  eapply wpx_ok; [apply life_update_ok; cbn; by rewrite lookup_insert_eq|]. cbn. rewrite insert_insert_eq.
  pose proof (refs_bound H w p o (room_bounded _ _ Hr)). pose proof (i_count _ w HI p o Ho).
  rewrite u64_small by lia. by apply open_inv.
Qed.

Lemma close_ok H w p : Inv H w -> room H w -> p ∈ H -> (forall ev, (p, ev) ∉ tasks w) -> p ∉ mDrainingQueue w ->
  (forall o i c, objs w !! p = Some o -> mId o = Some i -> ids w !! i = Some c -> qp c = None) ->
  wpx (close p) w (fun _ w' => Inv H w' /\ mDrainingQueue w' = mDrainingQueue w) (fails H w).
Proof.
  intros HI Hr Hp Ht Hd Hq. destruct (i_held _ w HI p) as [o Ho]; [by left|]. unfold close. wpx_run (deref_ok _ _ _ Ho).
  destruct (mId o) as [i|] eqn:Hi; [|by eapply wpx_ok]. destruct (i_obj _ w HI p o i Ho Hi) as (c & Hc & Hcp).
  wpx_run (deref_id_ok _ _ _ Hc). rewrite (Hq o i c Ho Hi Hc). wpxb. apply (life_check_ok H); [done| |by intros; apply fails_here].
  cbv beta. wpx_pure. wpxb. eapply wpx_ok; [by apply life_update_ok|]. cbv beta.
  pose proof (close_inv H w p o i c HI Ho Hi Hc (Hq o i c Ho Hi Hc) Ht Hd) as HI1.
  destruct (life_release_ok H _ p HI1) as (w2 & Hrel & HI2 & HS2); [by apply room_bounded in Hr|].
  eapply wpx_ok; [exact Hrel|]. split; [done|]. by destruct HS2 as [(?&?&?&?&Hd2&?) _ _].
Qed.

(** [bind], [disconnect], [reject]: only the outcome of the call. *)
Lemma plain_ok H w p o : Inv H w -> objs w !! p = Some o ->
  wpx (bind_ p) w (fun _ w' => w' = w) (fun _ w' => w' = w) /\ wpx (disconnect p) w (fun _ w' => w' = w) (fun _ w' => w' = w) /\
  (mId o <> None -> wpx (reject p) w (fun _ w' => w' = w) (fun e w' => system_error e /\ w' = w)).
Proof.
  intros HI Ho. split_and!.
  - unfold bind_. wpx_run (deref_ok _ _ _ Ho). destruct (mId o); [by apply (life_check_ok H)|by eapply wpx_throw].
  - unfold disconnect. wpx_run (deref_ok _ _ _ Ho). destruct (mId o); [by apply (life_check_ok H)|by eapply wpx_throw].
  - intros Hi. unfold reject. wpx_run (deref_ok _ _ _ Ho). destruct (mId o) as [i|] eqn:Hio; [|done].
    destruct (i_obj _ w HI p o i Ho Hio) as (c & Hc & _). wpx_run (deref_id_ok _ _ _ Hc).
    apply (life_check_ok H); [done|done|]. intros n. split; [by eexists|done].
Qed.

Lemma start_ok H w p o : Inv H w -> objs w !! p = Some o -> is_Some (mHandler o) ->
  wpx (listen p) w (fun _ w' => Inv H w') (fun _ w' => Inv H w') /\
  (mProcessor o = true -> wpx (connect p) w (fun _ w' => Inv H w') (fun _ w' => Inv H w')).
Proof.
  intros HI Ho Hh. split.
  - unfold listen. wpx_run (deref_ok _ _ _ Ho). destruct (mId o) as [i|] eqn:Hi; [|by eapply wpx_throw].
    destruct (i_obj _ w HI p o i Ho Hi) as (c & Hc & Hcp). wpxb. apply (life_check_ok H); [done| |done]. cbv beta.
    destruct (i_id _ w HI i c Hc) as (o' & Ho' & _ & H1 & _). rewrite Hcp in Ho'. assert (o' = o) as -> by congruence.
    eapply wpx_ok; [by apply update_id_ok|]. eapply id_flag_inv; [done|done|done|done|by rewrite Hcp|done|done].
  - intros Hp. unfold connect. wpx_run (deref_ok _ _ _ Ho). destruct (mId o) as [i|] eqn:Hi; [|by eapply wpx_throw].
    destruct (i_obj _ w HI p o i Ho Hi) as (c & Hc & Hcp). wpxb. apply (life_check_ok H); [done| |done]. cbv beta.
    destruct (i_id _ w HI i c Hc) as (o' & Ho' & _ & _ & H2). rewrite Hcp in Ho'. assert (o' = o) as -> by congruence.
    eapply wpx_ok; [by apply update_id_ok|]. eapply id_flag_inv; [done|done|done|done|by rewrite Hcp|done|done].
Qed.

Lemma accept_ok H w p o i : Inv H w -> room H w -> objs w !! p = Some o -> mId o = Some i -> is_Some (mHandler o) ->
  wpx (accept p) w (fun _ w' => Inv H w') (fun _ w' => Inv H w').
Proof.
  intros HI Hr Ho Hi Hh. unfold accept. wpx_run (deref_ok _ _ _ Ho). rewrite Hi.
  destruct (i_obj _ w HI p o i Ho Hi) as (c & Hc & Hcp). wpx_run (deref_id_ok _ _ _ Hc).
  destruct (mProcessor o) eqn:Hp; [by eapply wpx_throw|]. wpxb. eapply wpx_ok; [by apply life_update_ok|]. cbv beta.
  set (w1 := set_objs _ w). assert (Inv H w1) as HI1 by by eapply (flag_inv H w p o).
  assert (objs w1 !! p = Some (set_mProcessor true o)) as Ho1 by (unfold w1; cbn; by rewrite lookup_insert_eq).
  apply wpx_bind. eapply wpx_mono; [by eapply (addConnection_ok H w1 p _ i HI1 Hr Ho1)| |by intros e w2 (_ & ? & _)].
  intros _ w2 [HI2 HT2]. cbv beta. destruct (st_open _ _ HT2 p _ i Ho1 Hi) as (o2 & Ho2 & Hi2 & Hh2 & Hp2).
  destruct (i_obj _ _ HI2 p o2 i Ho2 Hi2) as (c2 & Hc2 & Hcp2). wpx_run (eq_refl : get w2 = Ok w2 w2).
  destruct (cm ACCEPT w2 =? 0) eqn:E; cbn [negb].
  - wpx_run (deref_id_ok _ _ _ Hc2). eapply wpx_ok; [by apply update_id_ok|].
    destruct (i_id _ _ HI2 i c2 Hc2) as (o' & Ho' & _ & _ & Hl). rewrite Hcp2 in Ho'. assert (o' = o2) as -> by congruence.
    eapply id_flag_inv; [done|done|done|done|by rewrite Hcp2| |done]. intros _. split; [by apply Hp2|by rewrite Hh2].
  - destruct (removeConnection_ok H w2 i c2 HI2 (room_stays _ _ _ HT2 Hr) Hc2) as (w3 & Hrm & HI3 & _).
    wpx_run Hrm. by eapply wpx_throw.
Qed.

(** *** Tasks *)

Lemma call_handler_ok w p : ready w p -> call_handler p w = Ok tt w.
Proof. intros (o & i & Ho & _ & _ & [h Hh]). unfold call_handler, bind. by rewrite (deref_ok _ _ _ Ho), Hh. Qed.

Lemma stays_ready w w' p : stays w w' -> ready w p -> ready w' p.
Proof.
  intros [K _ _] (o & i & Ho & Hi & Hp & Hh). destruct (K p o i Ho Hi) as (o' & Ho' & Hi' & Hh' & Hp').
  exists o', i. split_and!; [done|done|auto|by rewrite Hh'].
Qed.

Lemma ready_id H w p : Inv H w -> ready w p ->
  exists o i c, objs w !! p = Some o /\ mId o = Some i /\ ids w !! i = Some c /\ deref p w = Ok o w /\ deref_id (mId o) w = Ok (i, c) w.
Proof.
  intros HI (o & i & Ho & Hi & _). destruct (i_obj _ w HI p o i Ho Hi) as (c & Hc & _). exists o, i, c.
  split_and!; [done|done|done|by apply deref_ok|rewrite Hi; by apply deref_id_ok].
Qed.

Lemma task_failed_ok H w p : Inv H w -> room H w -> ready w p ->
  exists w', task_failed p w = Ok tt w' /\ onDrained p w = Ok tt w' /\ Inv H w' /\ stays w w'.
Proof.
  intros HI Hr HR. destruct (ready_id H w p HI HR) as (o & i & c & Ho & Hi & Hc & Hd & _).
  destruct (removeConnection_ok H w i c HI Hr Hc) as (w' & Hrm & HI' & HT). exists w'.
  unfold task_failed, onDrained, bind. rewrite Hd, Hi, Hrm. split_and!; [..|done|done]; by apply call_handler_ok, (stays_ready w).
Qed.

Lemma run_event_ok H w p ev : Inv H w -> room H w -> ready w p -> wp (run_event p ev) w (fun _ w' => Inv H w').
Proof.
  intros HI Hr HR. destruct (ready_id H w p HI HR) as (o & i & c & Ho & Hi & Hc & Hd & Hdi).
  assert (wp (call_handler p) w (fun _ w' => Inv H w')) as Hcall by (by eapply wp_ok; [apply call_handler_ok|]).
  assert (wp (task_failed p) w (fun _ w' => Inv H w')) as Hfail.
  { destruct (task_failed_ok H w p HI Hr HR) as (w' & Hrun & _ & HI' & _). by eapply wp_ok. }
  destruct ev; cbn [run_event]; try done.
  - unfold task_addr, wp, bind, get. rewrite Hd, Hdi. destruct (negb _); [exact Hcall|done].
  - unfold task_route, wp, bind at 1 2. rewrite Hd, Hdi, Hi.
    pose proof (addConnection_ok H w p o i HI Hr Ho Hi) as Hadd. unfold wpx in Hadd.
    destruct (addConnection (Some i) p w) as [[] w1|e w1| |]; [| |done..].
    + destruct Hadd as [HI1 HT1]. destruct (negb _); [|done].
      destruct (task_failed_ok H w1 p HI1 (room_stays _ _ _ HT1 Hr) (stays_ready _ _ _ HT1 HR)) as (w2 & Hrun & _ & HI2 & _).
      destruct (st_open _ _ HT1 p o i Ho Hi) as (o1 & Ho1 & Hi1 & _). unfold task_failed, bind in Hrun.
      rewrite (deref_ok _ _ _ Ho1), Hi1 in Hrun. unfold bind. by rewrite Hrun.
    + destruct Hadd as ([n ->] & HI1 & HT1). by rewrite (call_handler_ok _ _ (stays_ready _ _ _ HT1 HR)).
  - unfold wp, bind. rewrite Hd. destruct (drainConnection_ok H w p HI Hr HR) as (w' & -> & HI' & _). done.
Qed.

Lemma run_task_ok H w : Inv H w -> room H w -> wp run_task w (fun _ w' => Inv H w').
Proof.
  intros HI Hr. unfold run_task, wp. destruct (tasks w) as [|[p ev] rest] eqn:Ht; [done|].
  assert (Inv H (set_tasks rest w)) as HI'.
  { split; cbn; try apply HI.
    intros q ev' Hq. destruct (i_tasks _ w HI q ev') as (x & j & ?); [rewrite Ht; by right|by exists x, j]. }
  apply (run_event_ok H _ p ev HI' Hr). destruct (i_tasks _ w HI p ev) as (x & j & ?); [rewrite Ht; left|by exists x, j].
Qed.

Lemma life_drain_all_ok H l w : Inv H w -> room H w -> Forall (ready w) l ->
  exists w', drain_all l w = Ok tt w' /\ Inv H w' /\ stays w w'.
Proof.
  revert w. induction l as [|p l IH]; intros w HI Hr Hl; cbn [drain_all]; [exists w; split_and!; [done..|apply stays_refl]|].
  apply list.Forall_cons in Hl as [Hp Hl]. destruct (task_failed_ok H w p HI Hr Hp) as (w1 & _ & Hrun & HI1 & HT1).
  destruct (IH w1 HI1 (room_stays _ _ _ HT1 Hr)) as (w2 & Hrun2 & HI2 & HT2).
  { eapply list.Forall_impl; [exact Hl|]. intros q. by apply stays_ready. }
  exists w2. unfold bind. rewrite Hrun, Hrun2. split_and!; [done|done|by eapply stays_trans].
Qed.

Lemma clear_all_ok H l w : Inv (l ++ H) w -> room (l ++ H) w -> wp (clear_all l) w (fun _ w' => Inv H w').
Proof.
  revert w. induction l as [|p l IH]; intros w HI Hr; cbn [clear_all app] in *; [done|].
  assert (room (l ++ H) w) as Hr' by (unfold room in *; rewrite zlen_cons in Hr; lia).
  destruct (life_release_ok (l ++ H) w p HI (room_bounded _ _ Hr')) as (w1 & Hrel & HI1 & HS1).
  apply wp_bind. eapply wp_ok; [exact Hrel|]. apply IH; [done|]. by eapply room_stays; [apply sim_stays|].
Qed.

Lemma poll_draining_ok H w : Inv H w -> room H w -> wp poll_draining w (fun _ w' => Inv H w').
Proof.
  intros HI Hr. unfold poll_draining. set (l := mDrainingQueue w).
  assert (Inv (l ++ H) (set_draining [] w)) as HI1.
  { split; cbn; try apply HI.
    - intros p o Ho. rewrite (i_count _ w HI p o Ho). unfold refs. cbn. rewrite cnt_app. fold l.
      change (id_refs (set_draining [] w) o) with (id_refs w o). change (cnt p []) with 0. lia.
    - intros p [Hp|Hp]; [|by apply not_elem_of_nil in Hp]. apply (i_held _ w HI). apply elem_of_app in Hp as [?|?]; auto.
    - intros p Hp. by apply not_elem_of_nil in Hp. }
  assert (room (l ++ H) (set_draining [] w)) as Hr1.
  { unfold room in *. cbn. rewrite zlen_app. fold l in Hr. change (zlen (@nil nat)) with 0. lia. }
  destruct (life_drain_all_ok (l ++ H) l (set_draining [] w) HI1 Hr1) as (w2 & Hrun & HI2 & HT2).
  { apply list.Forall_forall. intros p Hp. destruct (i_drain _ w HI p Hp) as (o & i & ?). by exists o, i. }
  cbv zeta. unfold wp, bind, modify. fold l. rewrite Hrun. apply (clear_all_ok H l w2 HI2). by eapply room_stays.
Qed.

(** *** Events *)

Lemma schedule_event_ok H w i c ev : Inv H w -> ids w !! i = Some c -> connecting c = true ->
  exists w', schedule_event i ev w = Ok tt w' /\ Inv H w'.
Proof.
  intros HI Hc Hcon. destruct (i_id _ w HI i c Hc) as (o & Ho & Hi & H1 & _). destruct (H1 Hcon) as [Hp Hh].
  unfold schedule_event, bind. rewrite (deref_id_ok _ _ _ Hc), (deref_ok _ _ _ Ho), Hp. eexists. split; [done|].
  split; cbn; try apply HI. intros p e Hin. apply elem_of_app in Hin as [Hin|Hin].
  - destruct (i_tasks _ w HI p e Hin) as (x & j & ?). by exists x, j.
  - apply list_elem_of_singleton in Hin as [= -> ->]. by exists o, i.
Qed.

(** The state with the socket of a connection request. *)
Definition requested (w : world) : world :=
  World (<[next w := Object false (Some (next_id w)) false None 2]> (objs w)) (S (next w))
    (<[next_id w := CmId (next w) None false false]> (ids w)) (S (next_id w)) (mSocketMap w) (mDrainingQueue w) (tasks w).

Lemma requested_inv H w : Inv H w -> Inv (next w :: H) (requested w).
Proof.
  intros HI. pose proof (create_inv H w false false HI) as H1.
  pose proof (open_inv _ _ (next w) (Object false None false None 1) H1) as H2. cbn in H2.
  rewrite insert_insert_eq in H2. apply H2; [by rewrite lookup_insert_eq|done].
Qed.

Lemma requested_fresh H w : Inv H w -> next w ∉ mDrainingQueue w /\ (forall ev, (next w, ev) ∉ tasks w).
Proof.
  intros HI. assert (forall p, is_Some (objs w !! p) -> p <> next w) as Hne.
  { intros p Hp ->. apply (i_next _ w HI) in Hp. lia. }
  split.
  - intros Hin. apply (Hne (next w)); [|done]. apply (i_held _ w HI). by right.
  - intros ev Hin. destruct (i_tasks _ w HI _ ev Hin) as (o & i & Ho & _). apply (Hne (next w)); [by eexists|done].
Qed.

(** Logging the peer of an open socket. *)
Lemma log_peer_ok H w p o i : Inv H w -> objs w !! p = Some o -> mId o = Some i ->
  (let! o := deref p in let! _ := deref_id (mId o) in ret tt) w = Ok tt w.
Proof.
  intros HI Ho Hi. destruct (i_obj _ w HI p o i Ho Hi) as (c & Hc & _). unfold bind. by rewrite (deref_ok _ _ _ Ho), Hi, (deref_id_ok _ _ _ Hc).
Qed.

Lemma life_catch_ok x h w (Q : unit -> world -> Prop) :
  wpx x w Q (fun e w' => system_error e /\ wp h w' Q) -> wp (catch x h) w Q.
Proof.
  unfold wpx, wp, catch. destruct (x w) as [[] w'|e w'| |]; try done. intros [[n ->] Hh]. done.
Qed.

Lemma default_onConnection_ok H w : Inv H w -> room (next w :: H) w ->
  wp (default_onConnection (next w)) (requested w) (fun _ w' => Inv H w').
Proof.
  intros HI Hr. pose proof (requested_inv H w HI) as HR. destruct (requested_fresh H w HI) as [Hd Ht].
  assert (objs (requested w) !! next w = Some (Object false (Some (next_id w)) false None 2)) as Ho by (cbn; by rewrite lookup_insert_eq).
  assert (bounded H (requested w)) as Hb by (unfold room, bounded in *; cbn; rewrite zlen_cons in Hr; lia).
  set (p := next w) in *. unfold default_onConnection.
  apply wp_bind. eapply (wp_mono _ _ (fun _ w' => w' = requested w)).
  { apply life_catch_ok. destruct (plain_ok _ _ _ _ HR Ho) as (_ & _ & Hrej). eapply wpx_mono; [by apply Hrej|done|].
    intros e w' [He ->]. split; [done|]. eapply wp_ok; [by eapply log_peer_ok|done]. }
  intros _ w' ->. apply wp_bind. eapply (wp_mono _ _ (fun _ w' => Inv (p :: H) w' /\ bounded H w')).
  { apply life_catch_ok. eapply wpx_mono; [apply (close_ok (p :: H)); [done|exact Hr|left|exact Ht|exact Hd|]| |].
    - intros o i c Ho' Hi Hc. rewrite Ho in Ho'. simplify_eq/=. rewrite lookup_insert_eq in Hc. by simplify_eq.
    - intros _ w' [HI' Hd']. split; [done|]. unfold bounded. by rewrite Hd'.
    - intros e w' (He & HI' & HT). split; [done|]. destruct (st_open _ _ HT p _ _ Ho eq_refl) as (o' & Ho' & Hi' & _).
      eapply wp_ok; [by eapply log_peer_ok|]. split; [done|]. by eapply stays_bounded. }
  intros _ w' [HI' Hb']. destruct (life_release_ok H w' p HI' Hb') as (w2 & Hrel & HI2 & _). by eapply wp_ok.
Qed.

Lemma connect_request_ok H w l c : Inv H w -> room (next w :: H) w -> ids w !! l = Some c -> listening c = true ->
  wp (connect_request l) w (fun r w' => Inv (match r with Some p => [p] | None => [] end ++ H) w').
Proof.
  intros HI Hr Hc Hl. destruct (i_id _ w HI l c Hc) as (o & Ho & Hi & _ & H2). destruct (H2 Hl) as [h Hh].
  unfold wp, connect_request, bind at 1. rewrite (deref_id_ok _ _ _ Hc).
  assert (context c <> next w) as Hne by (intros He; assert (context c < next w)%nat by (apply (i_next _ w HI); by eexists); lia).
  unfold bind at 1, get, bind at 1, modify. unfold new_from_id, intrusive_ptr_add_ref, update, update_id, deref, deref_id, bind, modify. cbn.
  rewrite !lookup_insert_eq. cbn. rewrite !lookup_insert_eq. cbn. rewrite !lookup_insert_eq. cbn.
  rewrite !insert_insert_eq. rewrite lookup_insert_ne by congruence. rewrite Ho, Hh. change (u64 (u64 (0 + 1) + 1)) with 2.
  pose proof (default_onConnection_ok H w HI Hr) as Hdef. unfold wp, requested in Hdef. destruct h.
  - exact (requested_inv H w HI).
  - destruct (default_onConnection _ _); done.
Qed.

(** ** Runs *)

(** What the application, the connection manager and the processor can do next. *)
Inductive action :=
  | ACreateSocket | ACreateAcceptor | ACopy (p : nat) | ADrop (p : nat) | ASetHandler (p : nat) (h : handler)
  | AOpen (p : nat) | AClose (p : nat) | ABind (p : nat) | AListen (p : nat) | AConnect (p : nat)
  | ADisconnect (p : nat) | AAccept (p : nat) | AReject (p : nat)
  | AEvent (e : cm_event) | ATask | APoll.

Fixpoint remove_one (p : nat) (l : list nat) : list nat :=
  match l with [] => [] | q :: l => if decide (q = p) then l else q :: remove_one p l end.

Lemma cnt_remove_one p q l : p ∈ l -> cnt q (p :: remove_one p l) = cnt q l.
Proof.
  induction l as [|x l IH]; intros Hp; [by apply not_elem_of_nil in Hp|]. cbn [remove_one]. case_decide as Hx; [by subst|].
  apply elem_of_cons in Hp as [?|Hp]; [congruence|]. specialize (IH Hp). rewrite !cnt_cons in *. lia.
Qed.

(** Handles are known up to their order. *)
Lemma inv_handles H H' w : Inv H w -> (forall p, cnt p H' = cnt p H) -> Inv H' w.
Proof.
  intros HI Hc. split; try apply HI.
  - intros p o Ho. rewrite (i_count _ w HI p o Ho). unfold refs. by rewrite Hc.
  - intros p Hp. apply (i_held _ w HI). destruct Hp as [Hp|?]; [|by right]. left. apply cnt_elem. rewrite <-Hc. by apply cnt_pos.
Qed.

(** The handles the application has afterwards. *)
Definition exec (H : list nat) (a : action) : St world (list nat) :=
  match a with
  | ACreateSocket => let! p := createSocket in ret (p :: H)
  | ACreateAcceptor => let! p := createAcceptor in ret (p :: H)
  | ACopy p => do! intrusive_ptr_add_ref p in ret (p :: H)
  | ADrop p => do! intrusive_ptr_release p in ret (remove_one p H)
  | ASetHandler p h => do! setHandler p h in ret H
  | AOpen p => do! open p in ret H
  | AClose p => do! close p in ret H
  | ABind p => do! bind_ p in ret H
  | AListen p => do! listen p in ret H
  | AConnect p => do! connect p in ret H
  | ADisconnect p => do! disconnect p in ret H
  | AAccept p => do! accept p in ret H
  | AReject p => do! reject p in ret H
  | AEvent e => let! l := processEvent e in ret (l ++ H)
  | ATask => do! run_task in ret H
  | APoll => do! poll_draining in ret H
  end.

(** An application uses objects through its handles, sets a handler before it connects, listens
    or accepts, and does not close a socket that has tasks queued or a queue pair left; the
    connection manager reports events of ids in use only. *)
Definition allowed (H : list nat) (w : world) (a : action) : Prop :=
  zlen H + zlen (mDrainingQueue w) + 8 < 2 ^ 64 /\
  match a with
  | ACreateSocket | ACreateAcceptor | ATask | APoll => True
  | ACopy p | ADrop p | ASetHandler p _ | AOpen p | ABind p | ADisconnect p => p ∈ H
  | AClose p => p ∈ H /\ (forall ev, (p, ev) ∉ tasks w) /\ p ∉ mDrainingQueue w /\
      forall o i c, objs w !! p = Some o -> mId o = Some i -> ids w !! i = Some c -> qp c = None
  | AListen p => p ∈ H /\ exists o, objs w !! p = Some o /\ is_Some (mHandler o)
  | AConnect p => p ∈ H /\ exists o, objs w !! p = Some o /\ is_Some (mHandler o) /\ mProcessor o = true
  | AAccept p => p ∈ H /\ exists o i, objs w !! p = Some o /\ is_Some (mHandler o) /\ mId o = Some i
  | AReject p => p ∈ H /\ exists o i, objs w !! p = Some o /\ mId o = Some i
  | AEvent (ForId i _) => exists c, ids w !! i = Some c /\ connecting c = true
  | AEvent (Request l) => exists c, ids w !! l = Some c /\ listening c = true
  | AEvent Other => True
  end.

(** An operation that leaves the handles alone. *)
Lemma exec_same H (m : St world unit) w :
  wpx m w (fun _ w' => Inv H w') (fun _ w' => Inv H w') ->
  wpx (do! m in ret H) w (fun H' w' => Inv H' w') (fun _ w' => Inv H w').
Proof. intros Hm. apply wpx_bind. by eapply wpx_mono. Qed.

Lemma exec_ok H w a : Inv H w -> allowed H w a ->
  wpx (exec H a) w (fun H' w' => Inv H' w') (fun _ w' => Inv H w').
Proof.
  intros HI [Hb Ha]. assert (room H w) as Hr by (unfold room; lia).
  assert (room (next w :: H) w) as Hr' by (unfold room; rewrite zlen_cons; lia).
  assert (forall p, p ∈ H -> exists o, objs w !! p = Some o) as Hlive by (intros p Hp; apply (i_held _ w HI); by left).
  destruct a as [| |p|p|p h|p|p|p|p|p|p|p|p|[i ev|l|]| |]; cbn [exec]; cbn in Ha.
  - apply wpx_bind. eapply (wpx_mono _ _ _ _ (fun _ _ => False)); [apply wpx_wp, (createSocket_ok H w HI)|done|done].
  - apply wpx_bind. eapply (wpx_mono _ _ _ _ (fun _ _ => False)); [apply wpx_wp, (createSocket_ok H w HI)|done|done].
  - destruct (Hlive p Ha) as [o Ho]. destruct (add_ref_ok H w p o HI Ho (room_bounded _ _ Hr)) as (w' & Hrun & HI' & _).
    by wpx_run Hrun.
  - assert (Inv (p :: remove_one p H) w) as HI1 by (eapply inv_handles; [exact HI|]; intros q; by apply cnt_remove_one).
    destruct (life_release_ok (remove_one p H) w p HI1) as (w' & Hrun & HI' & _); [|by wpx_run Hrun].
    apply room_bounded. unfold room in *. assert (zlen (remove_one p H) <= zlen H); [|lia]. clear.
    induction H as [|q H IH]; cbn; [done|]. case_decide; rewrite ?zlen_cons in *; lia.
  - apply exec_same. destruct (Hlive p Ha) as [o Ho]. eapply wpx_ok; [by apply life_update_ok|]. by eapply (flag_inv H w p o).
  - apply exec_same. destruct (Hlive p Ha) as [o Ho]. by eapply open_ok.
  - apply exec_same. destruct Ha as (Hp & Ht & Hd & Hq). eapply wpx_mono; [by apply (close_ok H)|by intros _ w' []|]. by intros e w' (_ & ? & _).
  - apply exec_same. destruct (Hlive p Ha) as [o Ho]. destruct (plain_ok H w p o HI Ho) as (Hx & _).
    eapply wpx_mono; [exact Hx|by intros _ w' ->|by intros _ w' ->].
  - apply exec_same. destruct Ha as (_ & o & Ho & Hh). by apply (start_ok H w p o HI Ho Hh).
  - apply exec_same. destruct Ha as (_ & o & Ho & Hh & Hp). by apply (start_ok H w p o HI Ho Hh).
  - apply exec_same. destruct (Hlive p Ha) as [o Ho]. destruct (plain_ok H w p o HI Ho) as (_ & Hx & _).
    eapply wpx_mono; [exact Hx|by intros _ w' ->|by intros _ w' ->].
  - apply exec_same. destruct Ha as (_ & o & i & Ho & Hh & Hi). by eapply accept_ok.
  - apply exec_same. destruct Ha as (_ & o & i & Ho & Hi). destruct (plain_ok H w p o HI Ho) as (_ & _ & Hx).
    eapply wpx_mono; [apply Hx; congruence|by intros _ w' ->|by intros e w' [_ ->]].
  - destruct Ha as (c & Hc & Hcon). destruct (schedule_event_ok H w i c ev HI Hc Hcon) as (w' & Hrun & HI').
    cbn [processEvent]. wpxb. eapply wpx_ok; [exact Hrun|]. by eapply wpx_ok.
  - destruct Ha as (c & Hc & Hl). pose proof (connect_request_ok H w l c HI Hr' Hc Hl) as Hx.
    cbn [processEvent]. wpxb. eapply (wpx_mono _ _ _ _ (fun _ _ => False)); [apply wpx_wp, Hx| |done]. intros r w' HI'. cbv beta in *. by eapply wpx_ok.
  - by eapply wpx_ok.
  - apply exec_same. by apply wpx_wp, run_task_ok.
  - apply exec_same. by apply wpx_wp, poll_draining_ok.
Qed.

(** The states a service can reach. *)
Inductive reachable : list nat -> world -> Prop :=
  | reach_start : reachable [] (World ∅ 0 ∅ 0 ∅ [] [])
  | reach_ok H w a H' w' : reachable H w -> allowed H w a -> exec H a w = Ok H' w' -> reachable H' w'
  | reach_throw H w a e w' : reachable H w -> allowed H w a -> exec H a w = Throw e w' -> reachable H w'.

Lemma life_reachable_inv H w : reachable H w -> Inv H w.
Proof.
  induction 1 as [|H w a H' w' _ IH Ha Hrun|H w a e w' _ IH Ha Hrun].
  - pose proof (fun p => not_elem_of_nil (A := nat) p) as H1. pose proof (fun x => not_elem_of_nil (A := nat * event) x) as H2.
    split; cbn; intros; rewrite ?lookup_empty in *; try done; naive_solver.
  - pose proof (exec_ok H w a IH Ha) as Hx. unfold wpx in Hx. by rewrite Hrun in Hx.
  - pose proof (exec_ok H w a IH Ha) as Hx. unfold wpx in Hx. by rewrite Hrun in Hx.
Qed.

(** C26: in every state a service can reach, a socket object exists exactly as long as an
    application handle, an entry of the draining queue or an open id refers to it; its count is
    the number of these references (an id with a queue pair counts twice, for the entry of the
    socket map); and whatever comes next, a call of the application, an event of the connection
    manager, a task or a poll, returns or throws without touching a deleted object or a null
    pointer. *)
Theorem socket_lifetimes H w : reachable H w ->
  (forall p, is_Some (objs w !! p) <->
     p ∈ H \/ p ∈ mDrainingQueue w \/ exists i c, ids w !! i = Some c /\ context c = p) /\
  (forall p o, objs w !! p = Some o -> mReferenceCount o = cnt p H + cnt p (mDrainingQueue w) +
     match mId o with
     | Some i => match ids w !! i with Some c => if qp c then 2 else 1 | None => 1 end
     | None => 0
     end) /\
  (forall a, allowed H w a -> exec H a w <> UB /\ exec H a w <> NoFuel).
Proof.
  intros HR. apply life_reachable_inv in HR as HI. split_and!.
  - intros p. split.
    + intros [o Ho]. pose proof (i_pos _ w HI p o Ho) as Hp. rewrite (i_count _ w HI p o Ho) in Hp. unfold refs in Hp.
      destruct (decide (0 < cnt p H)) as [H1|H1]; [left; by apply cnt_elem|right].
      destruct (decide (0 < cnt p (mDrainingQueue w))) as [H2|H2]; [left; by apply cnt_elem|right].
      unfold id_refs in Hp. destruct (mId o) as [i|] eqn:Hi; [|lia]. destruct (i_obj _ w HI p o i Ho Hi) as (c & Hc & Hcp). by exists i, c.
    + intros [Hp|[Hp|(i & c & Hc & <-)]]; [apply (i_held _ w HI); by left|apply (i_held _ w HI); by right|].
      destruct (i_id _ w HI i c Hc) as (o & Ho & _). by eexists.
  - intros p o Ho. exact (i_count _ w HI p o Ho).
  - intros a Ha. pose proof (exec_ok H w a HI Ha) as Hx. unfold wpx in Hx. by destruct (exec H a w).
Qed.
End Ops.

(** ** Closing under a queued task *)

(** The events schedule tasks that know their socket by its address, not by a handle: when the
    application closes a connecting socket and drops its handle, the task of an event that has
    arrived uses a deleted object. *)
Theorem queued_task_dangles {C : Cm} (w : world) (p i : nat) (ev : event) (rest : list (nat * event)) :
  objs w !! p = Some (Object false (Some i) true (Some AppHandler) 2) ->
  ids w !! i = Some (CmId p None true false) -> tasks w = (p, ev) :: rest ->
  cm DESTROY_ID w = 0 ->
  exists w1 w2, close p w = Ok tt w1 /\ intrusive_ptr_release p w1 = Ok tt w2 /\ run_task w2 = UB.
Proof.
  intros Ho Hi Ht Hd.
  unfold close, check, update, deref, deref_id, intrusive_ptr_release, update, deref, modify, bind. rewrite Ho. cbn. rewrite Hi. cbn.
  rewrite Hd. cbn. rewrite Ho. cbn. rewrite !lookup_insert_eq. cbn. rewrite !lookup_insert_eq. cbn.
  eexists _, _. split; [done|]. cbn. rewrite !lookup_insert_eq. cbn. rewrite lookup_insert_eq. cbn.
  split; [reflexivity|]. unfold run_task. cbn. rewrite Ht. cbn.
  destruct ev; cbn; unfold task_addr, task_route, task_failed, call_handler, bind, deref; cbn; by rewrite lookup_delete_eq.
Qed.

(** ** A connection manager *)

(** Every call succeeds; a queue pair gets a number that is not in use. *)
#[local] Instance cm_works : Cm := {|
  cm _ _ := 0;
  cm_qp_num w := infinite_fresh (omap (fun x => qp (snd x)) (map_to_list (ids w)))
|}.

#[local] Instance cm_works_laws : CmLaws cm_works.
Proof.
  split. intros w i c Hc Hq. cbn in Hq. pose proof (infinite_is_fresh (omap (fun x => qp (snd x)) (map_to_list (ids w)))) as Hf.
  apply Hf. apply list_elem_of_omap. exists (i, c). split; [by apply elem_of_map_to_list|exact Hq].
Qed.

(** The same manager, but binding an address fails. *)
Definition bind_fails : Cm := {|
  cm c _ := match c with BIND_ADDR => 98 | _ => 0 end;
  cm_qp_num := @cm_qp_num cm_works
|}.

(** When [bind] or [listen] throws, the constructor of the server manager destroys its handle
    but does not close the acceptor: the open id keeps the object alive, with nobody left to
    close it and a handler that is gone. *)
Example manager_constructor_leaks :
  exists w, @RpcServerManager_make bind_fails (World ∅ 0 ∅ 0 ∅ [] []) = Throw (SystemError 98) w /\
    objs w !! 0%nat = Some (Object true (Some 0%nat) false (Some AppHandler) 1).
Proof. eexists. vm_compute. split; reflexivity. Qed.

(** A connection is accepted, taken down and closed: nothing is left. *)
Fixpoint execs (H : list nat) (l : list action) (w : world) : outcome world (list nat) :=
  match l with
  | [] => Ok H w
  | a :: l => match exec H a w with Ok H w => execs H l w | r => r end
  end.

Example server_session :
  exists w, execs [] [ACreateAcceptor; ASetHandler 0 AppHandler; AOpen 0; ABind 0; AListen 0; AEvent (Request 0);
    ASetHandler 1 AppHandler; AAccept 1; AEvent (ForId 1 ESTABLISHED); ATask; AEvent (ForId 1 TIMEWAIT_EXIT); ATask; APoll;
    AClose 1; ADrop 1; AClose 0; ADrop 0] (World ∅ 0 ∅ 0 ∅ [] []) = Ok [] w /\ objs w = ∅ /\ ids w = ∅ /\ mSocketMap w = ∅.
Proof. eexists. vm_compute. split_and!; reflexivity. Qed.

Lemma socket_lifetimes_witness :
  let w := World {[0%nat := Object false (Some 0%nat) true None 2]} 1 {[0%nat := CmId 0 None false false]} 1 ∅ [] [] in
  mReferenceCount (Object false (Some 0%nat) true None 2) = cnt 0 [0%nat] + cnt 0 [] + 1 /\
  exec [0%nat] (ADrop 0) w <> UB.
Proof.
  intros w. assert (reachable [0%nat] w) as HR.
  { eapply (reach_ok [0%nat] _ (AOpen 0)); [eapply (reach_ok [] _ ACreateSocket); [apply reach_start| |]| |].
    - split; [vm_compute; reflexivity|exact I].
    - vm_compute. reflexivity.
    - split; [vm_compute; reflexivity|left].
    - vm_compute. reflexivity. }
  destruct (socket_lifetimes [0%nat] w HR) as (_ & Hc & Ha). split.
  - exact (Hc 0%nat _ eq_refl).
  - apply Ha. split; [vm_compute; reflexivity|left].
Defined.
