(* ===== verification/StringIo.v ===== *)
(** Strings and streams: the free functions at the end of [crossbow/string.hpp] and the
    overloads of [basic_string] that only pass their arguments on.

    [operator<<], [operator>>] and [std::getline] work on a standard stream next to the byte
    memory, [to_string] formats a number with [snprintf].  Streams have the default exception
    mask; the buffer of an input stream is the list of its remaining characters, so a read at
    its end is the end of the file.  The characters a number is printed as by [%f] and the
    classification of characters by the locale are parameters. *)

From S2P Require Import Prelude Memory String Endpoint.

Import Str.

Module Sio.

(** ** Overloads *)

Section Overloads.
Context `{Allocator}.

(** Standard strings and initializer lists are the ranges of their characters. *)
Definition ctor_std (this s n : Z) : St mem unit := ctor_range this s n.
Definition assign_std (this s n : Z) : St mem unit := assign_range this s n.

(** [operator=(initializer_list)] and [assign(initializer_list)]. *)
Definition assign_ilist (this first n : Z) : St mem unit :=
  do! reserve this n in
  let! p := begin this in
  do! copy (Z.to_nat n) first p in
  do! set_size this n in
  let! e := end_ this in store e 0.

Definition assign_rvalue (this str : Z) : St mem unit := assign_move this str.
Definition assign_pointer (this s : Z) : St mem unit := assign_cstr this s.

Definition insert_it_ilist (this pos first n : Z) : St mem Z := insert_it_range this pos first (first + n).
Definition append_ilist (this first n : Z) : St mem unit := append_iter this first (first + n).
Definition replace_it_ilist (this first last s n : Z) : St mem unit := replace_it_range this first last s (s + n).

Definition plus_eq_str (this str : Z) : St mem unit := append_str this str.
Definition plus_eq_char (this ch : Z) : St mem unit := append_fill this 1 ch.
Definition plus_eq_cstr (this s : Z) : St mem unit := append_cstr this s.
Definition plus_eq_ilist (this first n : Z) : St mem unit := append_ilist this first n.

(** A reverse iterator holds the position behind its character. *)
Definition rbegin (this : Z) : St mem Z := end_ this.
Definition rend (this : Z) : St mem Z := begin this.
Definition reverse_deref (it : Z) : St mem Z := load (it - 1).

(** [std::swap] and [std::hash]. *)
Definition std_swap (lhs rhs : Z) : St mem unit := Str.swap lhs rhs.
Definition std_hash (str : Z) : St mem Z := hash_value str.

End Overloads.

(** ** Streams *)

Record ostream := OStream {
  o_good : bool;
  o_width : Z;
  o_fill : Z;
  o_left : bool;               (* adjustfield is left *)
  o_out : list Z
}.

(** [os << const char*]: padded to the width, which is then reset. *)
Definition put_chars (l : list Z) (os : ostream) : ostream :=
  if o_good os then
    let pad := replicate (Z.to_nat (o_width os - zlen l)) (o_fill os) in
    OStream true 0 (o_fill os) (o_left os) (o_out os ++ (if o_left os then l ++ pad else pad ++ l))
  else os.

(** [eofbit] and [failbit]; nothing here sets [badbit]. *)
Record istream := IStream {
  i_eof : bool;
  i_fail : bool;
  i_skipws : bool;
  i_width : Z;
  i_buf : list Z
}.

Definition i_good (st : istream) : bool := negb (i_eof st) && negb (i_fail st).

(** [setstate]. *)
Definition set_state (eof fail : bool) (st : istream) : istream :=
  IStream (i_eof st || eof) (i_fail st || fail) (i_skipws st) (i_width st) (i_buf st).
Definition set_width (n : Z) (st : istream) : istream := IStream (i_eof st) (i_fail st) (i_skipws st) n (i_buf st).
Definition set_buf (l : list Z) (st : istream) : istream := IStream (i_eof st) (i_fail st) (i_skipws st) (i_width st) l.

Section Streams.
Context `{Allocator} (is_space : Z -> bool).

(** [operator<<] prints [c_str()]. *)
Definition output (str : Z) (os : ostream) : St mem ostream :=
  let! p := c_str str in
  let! l := Ep.load_cstr p in
  ret (put_chars l os).

Fixpoint skip_spaces (l : list Z) : list Z :=
  match l with [] => [] | c :: l' => if is_space c then skip_spaces l' else l end.

(** [istream::sentry(is, noskipws)]: whether it is good, and the stream. *)
Definition sentry (noskipws : bool) (st : istream) : bool * istream :=
  if i_good st then
    if negb noskipws && i_skipws st then
      let l := skip_spaces (i_buf st) in
      let st := set_buf l st in
      match l with [] => (false, set_state true true st) | _ => (true, st) end
    else (true, st)
  else (false, set_state false true st).

(** The state of a read: memory and stream. *)
Notation io := (mem * istream)%type.

Definition on_mem {A} (x : St mem A) : St io A := fun s =>
  match x s.1 with
  | Ok a m => Ok a (m, s.2)
  | Throw e m => Throw e (m, s.2)
  | UB => UB
  | NoFuel => NoFuel
  end.
Definition on_stream (f : istream -> istream) : St io unit := fun s => Ok tt (s.1, f s.2).
Definition stream : St io istream := fun s => Ok s.2 s.

(** [rdbuf()->sgetc()] and [sbumpc()]; [None] is [Traits::eof()]. *)
Definition sgetc : St io (option Z) := fun s => Ok (head (i_buf s.2)) s.
Definition sbumpc : St io (option Z) := fun s => Ok (head (i_buf s.2)) (s.1, set_buf (tail (i_buf s.2)) s.2).

(** The loop of [operator>>]: the number of characters and whether the file ended. *)
Fixpoint word_loop (fuel : nat) (str c n : Z) : St io (Z * bool) :=
  match fuel with
  | O => nofuel
  | S k =>
      if negb (c <? n) then ret (c, false)
      else
        let! i := sgetc in
        match i with
        | None => ret (c, true)
        | Some ch =>
            if is_space ch then ret (c, false)
            else
              do! on_mem (push_back str ch) in
              do! sbumpc in
              word_loop k str (c + 1) n
        end
  end.

Definition streamsize_max : Z := 2 ^ 63 - 1.

(** [operator>>]. *)
Definition input (str : Z) : St io unit :=
  let! st := stream in
  let (ok, st) := sentry false st in
  do! on_stream (fun _ => st) in
  if ok then
    do! on_mem (clear str) in
    let n := i_width st in
    let n := if n <=? 0 then to_signed 64 max_size else n in
    let n := if n <=? 0 then streamsize_max else n in
    let! r := word_loop (S (length (i_buf st))) str 0 n in
    do! on_stream (set_width 0) in
    on_stream (set_state r.2 (r.1 =? 0))
  else on_stream (set_state false true).

(** The loop of [getline]: [__extr] and the error bits. *)
Fixpoint line_loop (fuel : nat) (str dlm extr : Z) : St io (Z * (bool * bool)) :=
  match fuel with
  | O => nofuel
  | S k =>
      let! i := sbumpc in
      match i with
      | None => ret (extr, (true, false))
      | Some ch =>
          if ch =? dlm then ret (extr + 1, (false, false))
          else
            do! on_mem (push_back str ch) in
            let! sz := on_mem (size str) in
            if sz =? max_size then ret (extr + 1, (false, true)) else line_loop k str dlm (extr + 1)
      end
  end.

Definition getline (str dlm : Z) : St io unit :=
  let! st := stream in
  let (ok, st) := sentry true st in
  do! on_stream (fun _ => st) in
  if ok then
    do! on_mem (clear str) in
    let! r := line_loop (S (length (i_buf st))) str dlm 0 in
    on_stream (set_state r.2.1 (r.2.2 || (r.1 =? 0)))
  else ret tt.

(** [getline(is, str)]: [is.widen('\n')] is a parameter of the locale as well. *)
Definition getline_newline (str newline : Z) : St io unit := getline str newline.

End Streams.

(** ** Numbers *)

Section Numbers.
Context `{Allocator}.

(** [snprintf(buf, size, ...)] for the output [text]: what fits and a NUL, and the length of
    the whole; negative when that is no [int]. *)
Definition snprintf (text : list Z) (buf size : Z) : St mem Z :=
  do! (if size =? 0 then ret tt else store_bytes buf (take (Z.to_nat (size - 1)) text ++ [0])) in
  ret (if zlen text <? 2 ^ 31 then zlen text else -1).

(** The loop of [as_string]. *)
Fixpoint as_loop (fuel : nat) (snprintf_like : Z -> Z -> St mem Z) (s available : Z) : St mem unit :=
  match fuel with
  | O => nofuel
  | S k =>
      let! p := subscript s 0 in
      let! status := snprintf_like p (u64 (available + 1)) in
      if 0 <=? status then
        let used := u64 status in
        if used <=? available then resize_default s used
        else do! resize_default s used in as_loop k snprintf_like s used
      else
        let available := u64 (available * 2 + 1) in
        do! resize_default s available in as_loop k snprintf_like s available
  end.

(** [as_string(snprintf_like, s, fmt, a)]: the parameter [s] is moved into the result. *)
Definition as_string (ret_ s : Z) (snprintf_like : Z -> Z -> St mem Z) : St mem unit :=
  Ep.scoped s (
    let! available := size s in
    do! as_loop 64 snprintf_like s available in
    ctor_move ret_ s).

Definition initial_string (s : Z) : St mem unit :=
  do! ctor_default s in
  let! c := capacity s in
  resize_default s c.

(** A conversion to text; [s] is the object the parameter of [as_string] is made in. *)
Definition to_string_text (ret_ s : Z) (text : list Z) : St mem unit :=
  do! initial_string s in as_string ret_ s (snprintf text).

(** [%d] and [%u] on the value the length modifier leaves. *)
Definition format_signed (v : Z) : list Z :=
  if v <? 0 then 45 :: Ep.print_dec 20 (- v) [] else Ep.print_dec 20 v [].
Definition format_unsigned (v : Z) : list Z := Ep.print_dec 20 v [].

Definition to_string_short (ret_ s v : Z) : St mem unit := to_string_text ret_ s (format_signed (to_signed 16 v)).
Definition to_string_int (ret_ s v : Z) : St mem unit := to_string_text ret_ s (format_signed (to_signed 32 v)).
Definition to_string_long (ret_ s v : Z) : St mem unit := to_string_text ret_ s (format_signed (to_signed 64 v)).
Definition to_string_long_long (ret_ s v : Z) : St mem unit := to_string_text ret_ s (format_signed (to_signed 64 v)).
Definition to_string_ushort (ret_ s v : Z) : St mem unit := to_string_text ret_ s (format_unsigned (wrap 16 v)).
Definition to_string_unsigned (ret_ s v : Z) : St mem unit := to_string_text ret_ s (format_unsigned (u32 v)).
Definition to_string_ulong (ret_ s v : Z) : St mem unit := to_string_text ret_ s (format_unsigned (u64 v)).
Definition to_string_ulong_long (ret_ s v : Z) : St mem unit := to_string_text ret_ s (format_unsigned (u64 v)).

(** [float], [double] and [long double]: [f v] is what [%f] or [%Lf] prints for [v]. *)
Definition to_string_floating {V} (f : V -> list Z) (ret_ s : Z) (v : V) : St mem unit := to_string_text ret_ s (f v).

End Numbers.
End Sio.
