(* ===== verification/StringIoClaims.v ===== *)
(** Strings and streams: what [to_string], [operator<<], [operator>>] and [getline] of
    [crossbow/string.hpp] do. *)

From S2P Require Import Prelude Memory String StringRep StringData StringOps StringInsert StringClaims.
From S2P Require Import ProgramOptions ProgramOptionsClaims Endpoint EndpointSpec StringIo.

Import Str Sio.

(** ** The move constructor *)

(** What is mapped outside [r] keeps its contents. *)
Definition kept (r : Z -> Prop) (m m' : mem) : Prop :=
  forall a x, bytes m !! a = Some x -> ~ r a -> bytes m' !! a = Some x.

Lemma pts_shift m m' p q n l :
  (forall i, 0 <= i < n -> bytes m' !! (q + i) = bytes m !! (p + i)) ->
  forall off, 0 <= off -> off + zlen l <= n -> pts m (p + off) l -> pts m' (q + off) l.
Proof.
  intros Hs off Hoff Hl Hp i x Hi. pose proof (lookup_lt_Some _ _ _ Hi). unfold zlen in *.
  rewrite <-Z.add_assoc. rewrite Hs by lia. rewrite Z.add_assoc. by apply Hp.
Qed.

Section Move.
Context `{Allocator} {m : mem} {ret_ s p cap : Z} {l : list Z}.
Hypothesis Hslot : slot m ret_.
Hypothesis HR : RepAt m s l p cap.
Hypothesis Hsep : separate ret_ ret_ (-1) s p cap.

Lemma ctor_move_run : exists m', ctor_move ret_ s m = Ok tt m' /\
  (forall i, 0 <= i < 32 -> bytes m' !! (ret_ + i) = bytes m !! (s + i)) /\ pts m' s (replicate 32 0) /\
  touches (fun a => ret_ <= a < ret_ + 32 \/ s <= a < s + 32) m m'.
Proof using All.
  destruct HR as (d & R & _). destruct (raw_obj _ _ _ _ _ _ R) as (o & Ho & Hol).
  destruct Hslot as (H0 & H1 & (o' & Ho' & Hol') & Hnb).
  assert (ret_ + 32 <= s \/ s + 32 <= ret_) as Hd.
  { destruct (decide (ret_ + 32 <= s)); [by left|right]. destruct (decide (s + 32 <= ret_)); [done|exfalso].
    apply (Hsep (Z.max s ret_)); unfold foot; lia. }
  assert (length o = 32%nat) as L by (unfold zlen in Hol; lia).
  assert (memcpy ret_ s 32 m = Ok tt (upd m ret_ o)) as Hcp.
  { rewrite <-L. eapply memcpy_ok; [done|done|]. unfold zlen in *. lia. }
  assert (pts (upd m ret_ o) s o) as Ho1 by (apply pts_upd_disj; [done|unfold disj; lia]).
  exists (upd (upd m ret_ o) s (replicate 32 0)). split_and!.
  - unfold ctor_move, bind. rewrite Hcp. unfold clear_arr, memset. eapply store_bytes_ok; [exact Ho1|]. done.
  - intros i Hi. rewrite lookup_upd. change (zlen (replicate 32 0)) with 32. rewrite decide_False by lia.
    rewrite lookup_upd, decide_True by lia. replace (ret_ + i - ret_) with i by lia.
    destruct (lookup_lt_is_Some_2 o (Z.to_nat i)) as [x Hx]; [lia|]. rewrite Hx. symmetry.
    pose proof (Ho _ _ Hx) as Hb. by replace (s + Z.of_nat (Z.to_nat i)) with (s + i) in Hb by lia.
  - apply pts_upd_same.
  - split; intros a Ha; [|done]. rewrite !lookup_upd. change (zlen (replicate 32 0)) with 32. by rewrite !decide_False by lia.
Qed.

(** The new object has the characters, the old one is empty. *)
Lemma ctor_move_ok : exists m' p', ctor_move ret_ s m = Ok tt m' /\ RepAt m' ret_ l p' cap /\ (p' = p \/ p' = ret_ + 1) /\
  RepAt m' s [] (s + 1) 30 /\ disj p' (cap + 1) s 32 /\
  touches (fun a => ret_ <= a < ret_ + 32 \/ s <= a < s + 32) m m'.
Proof using All.
  destruct ctor_move_run as (m' & Hrun & Hcopy & Hzero & Ht). pose proof HR as (d & R & Htake).
  destruct Hslot as (H0 & H1 & Hm & Hnb).
  assert (ret_ + 32 <= s \/ s + 32 <= ret_) as Hd.
  { destruct (decide (ret_ + 32 <= s)); [by left|right]. destruct (decide (s + 32 <= ret_)); [done|exfalso].
    apply (Hsep (Z.max s ret_)); unfold foot; lia. }
  pose proof R as [Ht1 Hobj Hn Hdata Hlen Hp Hform].
  assert (mapped m' ret_ 32) as Hm'.
  { destruct Hobj as (o & Ho & Hol). exists o. split; [|done]. rewrite <-(Z.add_0_r ret_).
    eapply (pts_shift m m' s ret_ 32); [done|lia|lia|]. by rewrite Z.add_0_r. }
  assert (RepAt m' s [] (s + 1) 30) as Hempty.
  { change (replicate 32 0) with (0 :: replicate 31 0) in Hzero. pose proof Hzero as Hz. apply pts_cons in Hz as [Hb Hz].
    exists (replicate 31 0). split; [|done]. constructor; try done; try (change (zlen []) with 0; lia); [|left; done].
    eexists. split; [exact Hzero|done]. }
  destruct Hform as [(Hb & Hpp & Hcap)|(Hb & Hcap & Hw1 & Hw2 & Hw3 & Hbl & Hdj)].
  - exists m', (ret_ + 1). split_and!; try done; [|by right|subst; unfold disj, max_in_buffer_size in *; lia].
    exists d. split; [|done]. constructor; try done; try (unfold max_in_buffer_size in *; lia).
    + eapply (pts_shift m m' s ret_ 32); [done|lia|unfold max_in_buffer_size in *; lia|]. by subst p.
    + left. split_and!; try done. rewrite <-(Z.add_0_r ret_), Hcopy by lia. by rewrite Z.add_0_r.
  - assert (forall a, p <= a < p + (cap + 1) -> ~ (ret_ <= a < ret_ + 32)) as Hpr.
    { intros a Ha Ha'. apply (Hsep a); unfold foot; lia. }
    pose proof Hn as [Hn1 Hn2]. exists m', p. split_and!; try done; [|by left].
    assert (forall off x, word_at m (s + off) x -> 0 <= off -> off + 8 <= 32 -> word_at m' (ret_ + off) x) as Hword.
    { intros off x [Hx Hr] Ho Ho2. split; [|done]. eapply (pts_shift m m' s ret_ 32); [done|lia| |done].
      unfold zlen. rewrite length_le_bytes. lia. }
    exists d. split; [|done]. constructor; try done.
    + intros i x Hi. pose proof (lookup_lt_Some _ _ _ Hi). unfold zlen in *. destruct Ht as [Ht _]. rewrite Ht; [by apply Hdata|].
      pose proof (Hpr (p + Z.of_nat i)). unfold disj in Hdj. lia.
    + right. split_and!; try done.
      * rewrite <-(Z.add_0_r ret_), Hcopy by lia. by rewrite Z.add_0_r.
      * by apply Hword.
      * by apply Hword.
      * by apply Hword.
      * destruct Ht as [_ Ht]. rewrite Ht; [done|]. pose proof (Hpr p). unfold disj in Hdj. lia.
      * pose proof (Hpr p). pose proof (Hpr ret_). unfold disj. lia.
Qed.
End Move.

(** ** Code that does not throw *)

Definition nothrow {S A} (x : St S A) : Prop := forall s, match x s with Throw _ _ => False | _ => True end.

Lemma nothrow_bind {S A B} (x : St S A) (f : A -> St S B) : nothrow x -> (forall a, nothrow (f a)) -> nothrow (bind x f).
Proof. intros Hx Hf s. unfold bind. specialize (Hx s). destruct (x s); try done. apply Hf. Qed.

Lemma nothrow_load p : nothrow (load p).
Proof. intros s. unfold load. by destruct (bytes s !! p). Qed.
Lemma nothrow_store p x : nothrow (store p x).
Proof. intros s. unfold store. by destruct (bytes s !! p). Qed.
Lemma nothrow_load_bytes n p : nothrow (load_bytes n p).
Proof. revert p. induction n as [|n IH]; intros p; cbn [load_bytes]; [done|]. repeat (apply nothrow_bind; [auto using nothrow_load|intros ?]). done. Qed.
Lemma nothrow_store_bytes p l : nothrow (store_bytes p l).
Proof. revert p. induction l as [|x l IH]; intros p; cbn [store_bytes]; [done|]. apply nothrow_bind; [apply nothrow_store|auto]. Qed.
Lemma nothrow_for {S} n (body : Z -> St S unit) : (forall i, nothrow (body i)) -> forall i, nothrow (for_loop n i body).
Proof. intros Hb. induction n as [|n IH]; intros i; cbn [for_loop]; [done|]. apply nothrow_bind; auto. Qed.

Create HintDb nothrow.
#[export] Hint Resolve nothrow_load nothrow_store nothrow_load_bytes nothrow_store_bytes nothrow_for : nothrow.

Ltac nothrow_step :=
  first [ solve [auto with nothrow] | by intros ? | apply nothrow_bind; [|intros ?] | case_match ].

Lemma nothrow_begin this : nothrow (begin this).
Proof. unfold begin, get_ptr, in_buffer, load_word. repeat nothrow_step. Qed.
Lemma nothrow_size this : nothrow (size this).
Proof. unfold size, get_size, load_word. repeat nothrow_step. Qed.
Lemma nothrow_end this : nothrow (end_ this).
Proof. unfold end_. pose proof nothrow_begin as Hb. unfold begin in Hb. pose proof nothrow_size. repeat nothrow_step. Qed.
Lemma nothrow_set_size this n : nothrow (set_size this n).
Proof. unfold set_size, in_buffer, store_word. repeat nothrow_step. Qed.
#[export] Hint Resolve nothrow_begin nothrow_size nothrow_end nothrow_set_size : nothrow.

(** ** Formatting into a string *)

Section Format.
Context `{Allocator}.

Lemma rep_first m s l p cap : RepAt m s l p cap -> subscript s 0 m = Ok p m.
Proof. intros (d & R & _). by rewrite (subscript_ok R), Z.add_0_r. Qed.

(** [snprintf] into the characters of a string of any length. *)
Lemma snprintf_ok m s l p cap text : RepAt m s l p cap ->
  exists m' l', snprintf text p (u64 (zlen l + 1)) m = Ok (if zlen text <? 2 ^ 31 then zlen text else -1) m' /\
    RepAt m' s l' p cap /\ length l' = length l /\ (zlen text <= zlen l -> take (length text) l' = text) /\
    evolves s m p cap m' p cap.
Proof.
  intros HR. destruct (rep_cap _ _ _ _ _ HR) as (Hc30 & Hl & Hp). pose proof (zlen_nonneg l).
  apply rep_raw in HR as (d & R & Ht & Hz & Hlen). pose proof (raw_len _ _ _ _ _ _ R) as Hd.
  set (k := take (length l) text ++ [0]).
  assert (length k = S (length text `min` length l)) as Hk by (unfold k; rewrite length_app, length_take; simpl; lia).
  assert (length (splice 0 k d) = length d) as Hls by (apply length_splice; lia).
  destruct (raw_mapped m s p (zlen l) cap d 0 k R) as (l0 & Hl0 & Hlen0); [lia|unfold zlen in *; lia|].
  destruct (raw_write m s p (zlen l) cap d 0 k R) as [R' Hev]; [lia|unfold zlen in *; lia|].
  rewrite Z.add_0_r in *. change (Z.to_nat 0) with O in R'.
  exists (upd m p k), (take (length l) (splice 0 k d)).
  assert (length (take (length l) (splice 0 k d)) = length l) as Hlt by (rewrite length_take; lia).
  split_and!; [| |done| |done].
  - unfold snprintf, bind. rewrite u64_small by lia. case_test; [lia|]. rewrite Z.add_simpl_r.
    replace (Z.to_nat (zlen l)) with (length l) by (unfold zlen; lia). fold k. by rewrite (store_bytes_ok m p l0 k Hl0 Hlen0).
  - exists (splice 0 k d). split; [unfold zlen; by rewrite Hlt|]. rewrite Hlt. apply take_S_r.
    rewrite lookup_splice by lia. case_decide as Hin; [|done]. rewrite Nat.sub_0_r. unfold k.
    rewrite lookup_app_r; rewrite length_take; [|lia]. replace (length l - _)%nat with O by lia. done.
  - intros Hfit. unfold zlen in Hfit. rewrite take_take, Nat.min_l by lia. change (splice 0 k d) with (k ++ drop (length k) d).
    rewrite take_app_le by (rewrite Hk; lia). unfold k. rewrite take_app_le by (rewrite length_take; lia).
    rewrite take_take, take_ge; [done|]. lia.
Qed.

(** No exception when the new size is within the capacity. *)
Lemma resize_fits m s l p cap count ch : RepAt m s l p cap -> 0 <= count <= cap ->
  wp (resize s count ch) m (fun _ m' => updates s m p cap
    (take (Z.to_nat count) l ++ replicate (Z.to_nat count - length l) ch) m').
Proof.
  intros HR Hc. destruct (rep_cap _ _ _ _ _ HR) as (_ & Hl & _).
  pose proof (resize_ok m s p cap l count ch HR ltac:(lia)) as Hw. unfold wpx in Hw. unfold wp.
  assert (match resize s count ch m with Throw _ _ => False | _ => True end) as Hn; [|by destruct (resize s count ch m)].
  unfold resize. unfold bind at 1. rewrite (rep_size _ _ _ _ _ HR). unfold bind at 1, reserve. unfold bind at 1.
  destruct HR as (d & R & _). rewrite (capacity_ok R). case_test; [|lia]. cbn -[nothrow].
  apply (fun x : nothrow _ => x m). repeat nothrow_step.
Qed.

Definition formatting_error (e : exn) : Prop := e = LengthError \/ e = BadAlloc.

Lemma resize_default_ok m s l p cap count (Q : unit -> mem -> Prop) :
  RepAt m s l p cap -> 0 <= count < 2 ^ 64 ->
  (forall m' p' cap', RepAt m' s (take (Z.to_nat count) l ++ replicate (Z.to_nat count - length l) 0) p' cap' ->
     evolves s m p cap m' p' cap' -> Q tt m') ->
  wpx (resize_default s count) m Q (strong m).
Proof.
  intros HR Hc HQ. eapply wpx_mono; [by eapply resize_ok| |done]. intros [] m' (p' & cap' & HR' & Hev). by eapply HQ.
Qed.

(** The string exists when the loop throws. *)
Definition thrown (s : Z) (m : mem) (p cap : Z) (e : exn) (m' : mem) : Prop :=
  formatting_error e /\ exists l', updates s m p cap l' m'.

Lemma strong_thrown s m p cap m1 p1 cap1 l e m' :
  strong m1 e m' -> RepAt m1 s l p1 cap1 -> evolves s m p cap m1 p1 cap1 -> thrown s m p cap e m'.
Proof. intros [-> He] HR Hev. split; [done|]. exists l, p1, cap1. done. Qed.

Lemma thrown_trans s m p cap m1 p1 cap1 e m' :
  evolves s m p cap m1 p1 cap1 -> thrown s m1 p1 cap1 e m' -> thrown s m p cap e m'.
Proof. intros Hev (He & l & Hu). split; [done|]. exists l. by eapply updates_trans. Qed.

(** The text fits: one round, no exception. *)
Lemma as_loop_fits m s l p cap text k : RepAt m s l p cap -> zlen text < 2 ^ 31 -> zlen text <= zlen l ->
  wp (as_loop (S k) (snprintf text) s (zlen l)) m (fun _ m' => updates s m p cap text m').
Proof.
  intros HR Ht Hfit. pose proof (zlen_nonneg text). destruct (rep_cap _ _ _ _ _ HR) as (_ & Hcap & _). cbn [as_loop].
  destruct (snprintf_ok m s l p cap text HR) as (m1 & l1 & Hrun & HR1 & Hl1 & Htake & Hev).
  rewrite (proj2 (Z.ltb_lt _ _) Ht) in Hrun. unfold wp, bind. rewrite (rep_first _ _ _ _ _ HR), Hrun.
  case_test; [|lia]. rewrite u64_small by lia. case_test; [|lia].
  eapply wp_mono; [apply (resize_fits m1 s l1 p cap (zlen text) 0 HR1); lia|]. intros [] m' Hu. eapply updates_trans; [done|].
  replace (Z.to_nat (zlen text)) with (length text) in Hu by (unfold zlen; lia).
  rewrite Htake in Hu by done. replace (length text - length l1)%nat with O in Hu by (unfold zlen in *; lia).
  cbn in Hu. by rewrite app_nil_r in Hu.
Qed.

(** Every text that [snprintf] can measure: at most two rounds. *)
Lemma as_loop_ok m s l p cap text k : RepAt m s l p cap -> zlen text < 2 ^ 31 ->
  wpx (as_loop (S (S k)) (snprintf text) s (zlen l)) m (fun _ m' => updates s m p cap text m') (thrown s m p cap).
Proof.
  intros HR Ht. destruct (decide (zlen text <= zlen l)) as [Hfit|Hfit]; [by apply wpx_wp, as_loop_fits|].
  pose proof (zlen_nonneg text). pose proof (zlen_nonneg l). remember (S k) as k' eqn:Ek. cbn [as_loop].
  wpx_run (rep_first _ _ _ _ _ HR).
  destruct (snprintf_ok m s l p cap text HR) as (m1 & l1 & Hrun & HR1 & Hl1 & _ & Hev).
  rewrite (proj2 (Z.ltb_lt _ _) Ht) in Hrun. wpx_run Hrun. case_test; [|lia]. rewrite u64_small by lia. case_test; [lia|]. apply wpx_bind.
  eapply wpx_mono; [apply (resize_default_ok m1 s l1 p cap (zlen text) (fun _ m' =>
    wpx (as_loop k' (snprintf text) s (zlen text)) m' (fun _ m' => updates s m p cap text m') (thrown s m p cap)) HR1); [lia|]|done|].
  - intros m' p' cap' HR' Hev'. set (l2 := take _ _ ++ _) in HR'.
    assert (zlen l2 = zlen text) as Hl2.
    { unfold l2, zlen in *. rewrite length_app, length_take, length_replicate. lia. }
    subst k'. rewrite <-Hl2. eapply wpx_mono; [apply (wpx_wp _ _ _ (thrown s m' p' cap')), (as_loop_fits _ _ _ p' cap'); [exact HR'|lia|lia]| |].
    + intros [] m'' Hu. do 2 (eapply updates_trans; [eassumption|]). done.
    + intros e m'' He. do 2 (eapply thrown_trans; [eassumption|]). done.
  - intros e m' He. by eapply strong_thrown.
Qed.

(** The lengths tried when [snprintf] fails. *)
Definition retry (j : nat) : Z := u64 (31 * 2 ^ Z.of_nat j - 1).

Lemma retry_S j : u64 (retry j * 2 + 1) = retry (S j).
Proof.
  unfold retry, wrap. rewrite <-Z.add_mod_idemp_l by lia. rewrite Z.mul_mod_idemp_l by lia. rewrite Z.add_mod_idemp_l by lia.
  f_equal. rewrite Nat2Z.inj_succ, Z.pow_succ_r by lia. lia.
Qed.

(** A failing [snprintf] ends in an exception: the lengths reach 2^64 - 1. *)
Lemma as_loop_fails text k : forall m s l p cap j, RepAt m s l p cap -> 2 ^ 31 <= zlen text ->
  zlen l = retry j -> (j + k = 64)%nat ->
  wpx (as_loop k (snprintf text) s (zlen l)) m (fun _ _ => False) (thrown s m p cap).
Proof.
  induction k as [|k IH]; intros m s l p cap j HR Ht Hl Hj.
  { exfalso. destruct (rep_cap _ _ _ _ _ HR) as (_ & _ & ?). destruct (rep_cap _ _ _ _ _ HR) as (_ & ? & _).
    replace j with 64%nat in Hl by lia. change (retry 64) with (2 ^ 64 - 1) in Hl. lia. }
  cbn [as_loop]. wpx_run (rep_first _ _ _ _ _ HR).
  destruct (snprintf_ok m s l p cap text HR) as (m1 & l1 & Hrun & HR1 & Hl1 & _ & Hev).
  rewrite (proj2 (Z.ltb_ge _ _) Ht) in Hrun. wpx_run Hrun. case_test; [lia|]. rewrite Hl, retry_S. apply wpx_bind.
  assert (0 <= retry (S j) < 2 ^ 64) as Hr by (apply wrap_range; lia).
  eapply wpx_mono; [apply (resize_default_ok m1 s l1 p cap (retry (S j)) (fun _ m' =>
    wpx (as_loop k (snprintf text) s (retry (S j))) m' (fun _ _ => False) (thrown s m p cap)) HR1 Hr)|done|].
  - intros m' p' cap' HR' Hev'. set (l2 := take _ _ ++ _) in HR'.
    assert (zlen l2 = retry (S j)) as Hl2.
    { unfold l2, zlen in *. rewrite length_app, length_take, length_replicate. lia. }
    rewrite <-Hl2. eapply wpx_mono; [apply (IH m' s l2 p' cap' (S j)); [done|done|done|lia]|done|].
    intros e m'' He. do 2 (eapply thrown_trans; [eassumption|]). done.
  - intros e m' He. by eapply strong_thrown.
Qed.

(** A new string has no block. *)
Lemma ctor_default_sso m s : slot m s ->
  wp (ctor_default s) m (fun _ m' => RepAt m' s [] (s + 1) 30 /\ evolves s m s (-1) m' (s + 1) 30).
Proof.
  intros Hs. pose proof (ctor_default_ok m s Hs) as Hw. unfold wp in *.
  destruct (ctor_default s m) as [[] m'| | |] eqn:Hrun; try done. destruct Hw as (p & cap & HR & Hev).
  assert (bytes m' !! s = Some 0) as Hb.
  { unfold ctor_default, bind in Hrun. destruct (clear_arr s m) as [[] m1| | |]; try done. apply store_inv in Hrun as ->.
    rewrite lookup_upd. rewrite decide_True by (change (zlen [0]) with 1; lia). by rewrite Z.sub_diag. }
  pose proof HR as (d & R & _). destruct (raw_form _ _ _ _ _ _ R) as [(_ & -> & ->)|(Hb' & _)]; [done|].
  rewrite Hb in Hb'. done.
Qed.

Lemma initial_string_ok m s : slot m s ->
  wp (initial_string s) m (fun _ m' => exists l p cap, RepAt m' s l p cap /\ zlen l = 30 /\ evolves s m s (-1) m' p cap).
Proof.
  intros Hs. unfold initial_string. apply wp_bind. eapply wp_mono; [by apply ctor_default_sso|].
  intros [] m1 [HR Hev]. pose proof HR as (d & R & _). apply wp_bind. unfold wp at 1. rewrite (capacity_ok R).
  eapply wp_mono; [apply (resize_fits m1 s [] (s + 1) 30 30 0 HR); lia|].
  intros [] m' (p & cap & HR' & Hev'). eexists _, p, cap. split; [exact HR'|]. split; [done|]. by eapply evolves_trans.
Qed.

(** The storage of the two objects of a conversion. *)
Definition objects (ret_ s a : Z) : Prop := ret_ <= a < ret_ + 32 \/ s <= a < s + 32.

Lemma evolves_objects ret_ s m m' p cap : evolves s m s (-1) m' p cap -> kept (objects ret_ s) m m'.
Proof. intros (H1 & _) a x Ha Hn. apply H1; [done|]. unfold objects, foot in *. lia. Qed.

(** The object of the result stays apart from the growing string. *)
Lemma result_slot ret_ s m m' p cap : slot m ret_ -> disj ret_ 32 s 32 -> evolves s m s (-1) m' p cap ->
  slot m' ret_ /\ separate ret_ ret_ (-1) s p cap.
Proof.
  intros (H0 & H1 & (o & Ho & Hol) & Hnb) Hd (E1 & E2 & _ & _ & E5). pose proof (zlen_nonneg o).
  assert (forall a, ret_ <= a < ret_ + 32 -> exists x, bytes m !! a = Some x) as Hmap.
  { intros a Ha. eapply (mapped_byte m ret_ 32); [|lia]. by exists o. }
  split.
  - split_and!; [done|done| |].
    + exists o. split; [|done]. intros i x Hi. pose proof (lookup_lt_Some _ _ _ Hi). apply E1; [by apply Ho|].
      unfold foot, disj, zlen in *. lia.
    + intros a Ha. destruct (Hmap a Ha) as [x Hx]. rewrite (E5 a x Hx); [auto|]. unfold foot, disj in *. lia.
  - intros a Ha Hs. assert (ret_ <= a < ret_ + 32) as Ha' by (unfold foot in Ha; lia).
    destruct (Hmap a Ha') as [x Hx]. destruct (E2 a Hs) as [Hf|Hf]; [|congruence]. unfold foot, disj in *. lia.
Qed.

(** The destructor of the string after an exception. *)
Lemma dropped_kept ret_ s m m' p cap m'' : evolves s m s (-1) m' p cap -> touches (foot s p cap) m' m'' ->
  kept (objects ret_ s) m m''.
Proof.
  intros Hev [Ht _] a x Ha Hn. rewrite Ht; [by eapply evolves_objects|]. intros Hf.
  destruct Hev as (_ & E2 & _). destruct (E2 a Hf) as [?|?]; [|congruence]. unfold foot, objects in *. lia.
Qed.

(** Moving the finished string into the result, and the destructor of the moved-from one. *)
Lemma move_out_ok m ret_ s text m1 p cap : slot m ret_ -> disj ret_ 32 s 32 ->
  RepAt m1 s text p cap -> evolves s m s (-1) m1 p cap ->
  exists m2, ctor_move ret_ s m1 = Ok tt m2 /\ RepAt m2 s [] (s + 1) 30 /\
    forall m3, touches (foot s (s + 1) 30) m2 m3 -> Rep m3 ret_ text /\ kept (objects ret_ s) m m3.
Proof.
  intros Hr Hd HR Hev. destruct (result_slot _ _ _ _ _ _ Hr Hd Hev) as [Hr1 Hsep].
  destruct (ctor_move_ok Hr1 HR Hsep) as (m2 & p2 & Hrun & HR2 & _ & Hs2 & Hp2 & Ht). exists m2. split_and!; [done|done|].
  intros m3 Ht3. split.
  - exists p2, cap. eapply touches_rep; [exact Ht3| |exact HR2]. intros a. unfold foot, disj in *. lia.
  - intros a x Ha Hn. destruct Ht3 as [Ht3 _], Ht as [Ht _].
    rewrite Ht3 by (unfold foot, objects in *; lia). rewrite Ht by (unfold objects in *; lia). by eapply evolves_objects.
Qed.

(** The loop behind [initial_string], for every text. *)
Lemma as_loop_total m s l p cap text : RepAt m s l p cap -> zlen l = 30 ->
  wpx (as_loop 64 (snprintf text) s (zlen l)) m
    (fun _ m' => zlen text < 2 ^ 31 /\ updates s m p cap text m') (fun e m' => thrown s m p cap e m' /\ 30 < zlen text).
Proof.
  intros HR Hl. destruct (decide (zlen text <= 30)) as [Hs|Hs]; [|destruct (decide (zlen text < 2 ^ 31)) as [Ht|Ht]].
  - eapply wpx_mono; [apply (wpx_wp _ _ _ (fun _ _ => False)), (as_loop_fits _ _ _ p cap); [done|lia|lia]| |done].
    split; [lia|done].
  - eapply wpx_mono; [by apply as_loop_ok|done|]. split; [done|lia].
  - eapply wpx_mono; [apply (as_loop_fails text 64 m s l p cap 0 HR); [lia|by rewrite Hl|done]|done|]. split; [done|lia].
Qed.

Lemma to_string_text_ok m ret_ s text :
  slot m ret_ -> slot m s -> disj ret_ 32 s 32 ->
  wpx (to_string_text ret_ s text) m
    (fun _ m' => zlen text < 2 ^ 31 /\ Rep m' ret_ text /\ kept (objects ret_ s) m m')
    (fun e m' => formatting_error e /\ 30 < zlen text /\ kept (objects ret_ s) m m').
Proof.
  intros Hr Hs Hd. unfold to_string_text. apply wpx_bind.
  eapply wpx_mono; [apply (wpx_wp _ _ _ (fun _ _ => False)), initial_string_ok, Hs| |done].
  intros [] m1 (l & p & cap & HR & Hl & Hev). unfold as_string. apply wpx_scoped. wpx_run (rep_size _ _ _ _ _ HR).
  apply wpx_bind. eapply wpx_mono; [by apply as_loop_total| |].
  - intros [] m2 (Ht & p2 & cap2 & HR2 & Hev2).
    destruct (move_out_ok m ret_ s text m2 p2 cap2 Hr Hd HR2) as (m3 & Hrun & HR3 & Hk); [by eapply evolves_trans|].
    eapply wpx_ok; [exact Hrun|]. eexists _, _, _. split; [exact HR3|]. intros m4 Ht4. destruct (Hk m4 Ht4). done.
  - intros e m2 [(He & l2 & p2 & cap2 & HR2 & Hev2) Ht]. eexists _, _, _. split; [exact HR2|].
    intros m3 Ht3. split_and!; [done|done|]. eapply dropped_kept; [|exact Ht3]. by eapply evolves_trans.
Qed.

(** C29: [to_string] ends for every text the number is printed as: it returns the text in a new
    string, or throws [std::length_error] or [std::bad_alloc] and leaves no string behind.  An
    exception needs a text of more than 30 characters, so none of the integer conversions throws;
    a text that [snprintf] cannot measure (2^31 characters) always ends in one.  Memory outside
    the two objects of the conversion keeps its contents. *)
Theorem to_string_terminates m ret_ s text :
  slot m ret_ -> slot m s -> disj ret_ 32 s 32 ->
  wpx (to_string_text ret_ s text) m
    (fun _ m' => zlen text < 2 ^ 31 /\ Rep m' ret_ text /\ kept (objects ret_ s) m m')
    (fun e m' => formatting_error e /\ 30 < zlen text /\ kept (objects ret_ s) m m').
Proof. apply to_string_text_ok. Qed.

End Format.

(** ** Numbers *)

Section Integers.
Context `{Allocator}.
Import Po.

Lemma print_dec_decimal f n acc : Ep.print_dec f n acc = dec f n acc.
Proof. revert n acc. induction f as [|f IH]; intros; cbn; [done|]. case_match; [done|apply IH]. Qed.

Lemma format_signed_eq v : format_signed v = decimal v [].
Proof. unfold format_signed, decimal. case_match; by rewrite print_dec_decimal. Qed.

Lemma format_unsigned_eq v : 0 <= v -> format_unsigned v = decimal v [].
Proof. intros Hv. unfold format_unsigned, decimal. case_test; [lia|]. by rewrite print_dec_decimal. Qed.

Lemma dec_digits_length f n acc : zlen (dec f n acc) <= Z.of_nat f + zlen acc.
Proof.
  revert n acc. induction f as [|f IH]; intros; cbn [dec]; [lia|]. pose proof (zlen_nonneg acc). case_match.
  - rewrite zlen_cons. lia.
  - etrans; [apply IH|]. rewrite zlen_cons. lia.
Qed.

Lemma decimal_length v : zlen (decimal v []) <= 21.
Proof. unfold decimal. case_match; rewrite ?zlen_cons; pose proof (dec_digits_length 20 (- v) []); pose proof (dec_digits_length 20 v []); change (zlen (@nil Z)) with 0 in *; lia. Qed.

(** The conversion for each integer type of the options. *)
Definition to_string_of (t : vtype) : option (Z -> Z -> Z -> St mem unit) :=
  match t with
  | TShort => Some to_string_short | TUShort => Some to_string_ushort
  | TInt => Some to_string_int | TUInt => Some to_string_unsigned
  | TLong => Some to_string_long | TULong => Some to_string_ulong
  | TLongLong => Some to_string_long_long | TULongLong => Some to_string_ulong_long
  | _ => None
  end.

(** The values of the type. *)
Definition in_type (t : vtype) (v : Z) : Prop :=
  match signed_width t, unsigned_width t with
  | Some w, _ => - 2 ^ (w - 1) <= v < 2 ^ (w - 1)
  | None, Some w => 0 <= v < 2 ^ w
  | None, None => False
  end.

Lemma to_signed_id w v : 0 < w -> - 2 ^ (w - 1) <= v < 2 ^ (w - 1) -> to_signed w v = v.
Proof.
  intros Hw Hv. unfold to_signed. assert (2 ^ w = 2 * 2 ^ (w - 1)) as Hp by (rewrite <-Z.pow_succ_r by lia; f_equal; lia).
  destruct (decide (0 <= v)).
  - rewrite Z.mod_small by lia. case_test; lia.
  - rewrite <-(Z_mod_plus_full v 1), Z.mod_small by lia. case_test; lia.
Qed.

Lemma conversion_text t f ret_ s v : to_string_of t = Some f -> in_type t v ->
  f ret_ s v = to_string_text ret_ s (decimal v []) /\ number_of t v = Some v /\ Z.abs v < 10 ^ 20.
Proof.
  unfold in_type, number_of, in_signed. intros Hf Hv. destruct t; simplify_eq/=; unfold to_string_short, to_string_ushort,
    to_string_int, to_string_unsigned, to_string_long, to_string_ulong, to_string_long_long, to_string_ulong_long;
    (rewrite to_signed_id by lia; rewrite format_signed_eq) || (rewrite wrap_small by lia; rewrite format_unsigned_eq by lia);
    (split; [done|]); (split; [|lia]); rewrite ?(u64_small v) by lia; case_match; bool_prop; try done; lia.
Qed.

(** C31: for every integer type, [to_string] of a value never throws and makes a string that the
    parser of program options for that type reads back as the value. *)
Theorem to_string_parses t f parse m ret_ s v :
  to_string_of t = Some f -> parser t = Some parse -> in_type t v ->
  slot m ret_ -> slot m s -> disj ret_ 32 s 32 ->
  wp (f ret_ s v) m (fun _ m' =>
    exists l, Rep m' ret_ l /\ parse l = inl (VInt v) /\ kept (objects ret_ s) m m').
Proof.
  intros Hf Hp Hv Hr Hs Hd. destruct (conversion_text t f ret_ s v Hf Hv) as (-> & Hn & Ha).
  pose proof (decimal_length v) as Hl. pose proof (to_string_text_ok m ret_ s (decimal v []) Hr Hs Hd) as Hw.
  unfold wp, wpx in *. destruct (to_string_text ret_ s (decimal v []) m) as [[] m'|e m'| |]; [|lia|done|done].
  exists (decimal v []). split_and!; [apply Hw| |apply Hw].
  pose proof (parse_numeral t parse v [] Hp) as Hpn. rewrite Hn in Hpn. apply Hpn; [|done|done].
  unfold in_type in Hv. destruct (signed_width t), (unsigned_width t); [by left|by left|by right|done].
Qed.

End Integers.

(** ** Streams *)

Section Reading.
Context `{Allocator} (is_space : Z -> bool).

(** The characters up to the first that satisfies [stop]. *)
Fixpoint upto (stop : Z -> bool) (l : list Z) : list Z :=
  match l with [] => [] | c :: l => if stop c then [] else c :: upto stop l end.

Lemma wpx_on_mem {A} (x : St mem A) m st (Q : A -> mem * istream -> Prop) (X : exn -> mem * istream -> Prop) :
  wpx x m (fun a m' => Q a (m', st)) (fun e m' => X e (m', st)) -> wpx (on_mem x) (m, st) Q X.
Proof. unfold wpx, on_mem. cbn. by destruct (x m). Qed.

(** A read that throws has stored a part of what it would have read. *)
Definition read_part (str : Z) (m : mem) (p cap : Z) (old w l : list Z) (st : istream) (e : exn) (s' : mem * istream) : Prop :=
  formatting_error e /\ exists k j, updates str m p cap (old ++ take k w) s'.1 /\ s'.2 = set_buf (drop j l) st.

(** [push_back] in a read loop. *)
Lemma push_step {A} m st str old p cap ch w l j (f : unit -> St (mem * istream) A) Q :
  RepAt m str old p cap ->
  (forall m1 p1 cap1, RepAt m1 str (old ++ [ch]) p1 cap1 -> evolves str m p cap m1 p1 cap1 ->
     wpx (f tt) (m1, set_buf (drop j l) st) Q (read_part str m p cap old w l st)) ->
  wpx (bind (on_mem (push_back str ch)) f) (m, set_buf (drop j l) st) Q (read_part str m p cap old w l st).
Proof.
  intros HR Hk. apply wpx_bind, wpx_on_mem. eapply wpx_mono; [by eapply push_back_ok| |].
  - intros [] m1 (p1 & cap1 & HR1 & Hev). by eapply Hk.
  - intros e m1 [-> He]. split; [done|]. exists O, j. cbn [take]. rewrite app_nil_r. split; [|done].
    exists p, cap. split; [done|apply evolves_refl].
Qed.

(** The rest of a read continues what was read. *)
Lemma read_part_later str m p cap m1 p1 cap1 old ch w l st st1 e s' :
  evolves str m p cap m1 p1 cap1 -> st1 = set_buf l st ->
  read_part str m1 p1 cap1 (old ++ [ch]) w l st1 e s' -> read_part str m p cap old (ch :: w) (ch :: l) st e s'.
Proof.
  intros Hev -> (He & k & j & Hu & Hs). split; [done|]. exists (S k), (S j). cbn [take drop]. split; [|done].
  rewrite <-app_assoc in Hu. by eapply updates_trans.
Qed.

Lemma word_loop_ok str n fuel : forall m st l old p cap c,
  i_buf st = l -> RepAt m str old p cap -> (length l < fuel)%nat -> 0 <= c <= n ->
  let w := take (Z.to_nat (n - c)) (upto is_space l) in
  wpx (word_loop is_space fuel str c n) (m, st)
    (fun r s' => r = (c + zlen w, bool_decide (c + zlen w < n /\ drop (length w) l = [])) /\
       updates str m p cap (old ++ w) s'.1 /\ s'.2 = set_buf (drop (length w) l) st)
    (read_part str m p cap old w l st).
Proof.
  induction fuel as [|fuel IH]; intros m st l old p cap c Hl HR Hf Hc w; [lia|]. cbn [word_loop].
  assert (forall b, w = [] -> b = bool_decide (c < n /\ l = []) ->
    wpx (ret (c, b)) (m, st) (fun r s' => r = (c + zlen w, bool_decide (c + zlen w < n /\ drop (length w) l = [])) /\
       updates str m p cap (old ++ w) s'.1 /\ s'.2 = set_buf (drop (length w) l) st) (read_part str m p cap old w l st)) as Hstop.
  { intros b -> ->. eapply wpx_ok; [done|]. cbn [length drop fst snd]. change (zlen (@nil Z)) with 0. rewrite Z.add_0_r, app_nil_r.
    split_and!; [done|exists p, cap; split; [done|apply evolves_refl]|]. destruct st. cbn in *. by subst. }
  destruct (c <? n) eqn:Hcn; bool_prop; cbn [negb]; [|apply Hstop; [unfold w; by replace (Z.to_nat (n - c)) with O by lia|rewrite bool_decide_eq_false_2; [done|lia]]].
  apply wpx_bind. eapply wpx_ok; [done|]. cbv beta. cbn [snd]. rewrite Hl.
  destruct l as [|ch l]; cbn [head].
  { apply Hstop; [unfold w; cbn; by rewrite take_nil|by rewrite bool_decide_eq_true_2]. }
  destruct (is_space ch) eqn:Hsp.
  { apply Hstop; [unfold w; cbn; by rewrite Hsp, take_nil|]. rewrite bool_decide_eq_false_2; [done|]. by intros []. }
  assert (w = ch :: take (Z.to_nat (n - (c + 1))) (upto is_space l)) as Hw.
  { unfold w. cbn [upto]. rewrite Hsp. by replace (Z.to_nat (n - c)) with (S (Z.to_nat (n - (c + 1)))) by lia. }
  set (w' := take (Z.to_nat (n - (c + 1))) (upto is_space l)) in Hw.
  assert (set_buf (drop 0 (ch :: l)) st = st) as Hst by (destruct st; cbn in *; by subst). rewrite <-Hst at 1.
  apply push_step; [done|]. intros m1 p1 cap1 HR1 Hev. rewrite Hst. apply wpx_bind. eapply wpx_ok; [done|]. cbn [fst snd].
  rewrite Hl. cbn [tail]. eapply wpx_mono; [apply (IH m1 (set_buf l st) l (old ++ [ch]) p1 cap1 (c + 1)); [done|done|cbn in Hf; lia|lia]| |].
  - fold w'. intros r s' (-> & Hu & Hs). rewrite Hw, zlen_cons. cbn [length drop]. split_and!; [|rewrite <-app_assoc in Hu; by eapply updates_trans|by rewrite Hs].
    by rewrite Z.add_assoc.
  - fold w'. intros e s' He. rewrite Hw. by eapply read_part_later.
Qed.

(** Where [getline] stops: behind the delimiter or at the end of the file. *)
Definition behind (dlm : Z) (l : list Z) : list Z := drop (S (length (upto (Z.eqb dlm) l))) l.

Lemma line_loop_ok str dlm fuel : forall m st l old p cap extr,
  i_buf st = l -> RepAt m str old p cap -> (length l < fuel)%nat ->
  let w := upto (Z.eqb dlm) l in
  zlen old + zlen w < max_size ->
  wpx (line_loop fuel str dlm extr) (m, st)
    (fun r s' => r = (extr + zlen w + (if bool_decide (dlm ∈ l) then 1 else 0), (negb (bool_decide (dlm ∈ l)), false)) /\
       updates str m p cap (old ++ w) s'.1 /\ s'.2 = set_buf (behind dlm l) st)
    (read_part str m p cap old w l st).
Proof.
  induction fuel as [|fuel IH]; intros m st l old p cap extr Hl HR Hf w Hmax; [lia|]. cbn [line_loop].
  assert (updates str m p cap (old ++ []) m) as Hsame by (rewrite app_nil_r; exists p, cap; split; [done|apply evolves_refl]).
  apply wpx_bind. eapply wpx_ok; [done|]. cbv beta. cbn [fst snd]. rewrite Hl.
  destruct l as [|ch l]; cbn [head tail].
  { eapply wpx_ok; [done|]. split_and!; [|done|done]. change (zlen w) with 0. rewrite bool_decide_eq_false_2 by apply not_elem_of_nil.
    cbn. f_equal. lia. }
  destruct (ch =? dlm) eqn:Hd; bool_prop.
  { subst ch. eapply wpx_ok; [done|]. assert (w = []) as Hw by (unfold w; cbn; by rewrite Z.eqb_refl). rewrite Hw. unfold behind. fold w.
    rewrite Hw. change (zlen (@nil Z)) with 0. rewrite bool_decide_eq_true_2 by apply list_elem_of_here. cbn.
    split_and!; [f_equal; lia|done|done]. }
  assert (w = ch :: upto (Z.eqb dlm) l) as Hw by (unfold w; cbn; destruct (dlm =? ch) eqn:E; [bool_prop; congruence|done]).
  assert (behind dlm (ch :: l) = behind dlm l) as Hbh by (unfold behind; fold w; by rewrite Hw).
  assert (bool_decide (dlm ∈ ch :: l) = bool_decide (dlm ∈ l)) as Hin.
  { apply bool_decide_ext. rewrite elem_of_cons. naive_solver. }
  set (w' := upto (Z.eqb dlm) l) in *. rewrite Hw, zlen_cons in Hmax. pose proof (zlen_nonneg w').
  change (set_buf l st) with (set_buf (drop 1 (ch :: l)) st). apply push_step; [done|]. intros m1 p1 cap1 HR1 Hev.
  cbn [drop]. assert (zlen (old ++ [ch]) = zlen old + 1) as Hz by (by rewrite zlen_app).
  apply wpx_bind, wpx_on_mem. eapply wpx_ok; [by apply (rep_size _ _ _ _ _ HR1)|]. case_test; [lia|].
  eapply wpx_mono; [apply (IH m1 (set_buf l st) l (old ++ [ch]) p1 cap1 (extr + 1)); [done|done|cbn in Hf; lia|fold w'; lia]| |].
  - fold w'. intros r s' (-> & Hu & Hs). rewrite Hin, Hbh, Hw, zlen_cons. split_and!; [f_equal; lia| |by rewrite Hs].
    rewrite <-app_assoc in Hu. by eapply updates_trans.
  - fold w'. intros e s' He. rewrite Hw. by eapply read_part_later.
Qed.

Lemma clear_step {A} m st str old p cap w l (f : unit -> St (mem * istream) A) Q :
  RepAt m str old p cap -> i_buf st = l ->
  (forall m1 p1 cap1, RepAt m1 str [] p1 cap1 -> evolves str m p cap m1 p1 cap1 ->
     wpx (f tt) (m1, st) (fun a s' => Q a s') (read_part str m1 p1 cap1 [] w l st)) ->
  wpx (bind (on_mem (clear str)) f) (m, st) Q (read_part str m p cap [] w l st).
Proof.
  intros HR Hl Hk. apply wpx_bind, wpx_on_mem. eapply wpx_mono; [apply (wpx_wp _ _ _ (fun _ _ => False)); by eapply clear_ok| |done].
  intros [] m1 (p1 & cap1 & HR1 & Hev). eapply wpx_mono; [by eapply Hk|done|].
  intros e s' (He & k & j & Hu & Hs). split; [done|]. exists k, j. split; [by eapply updates_trans|done].
Qed.

(** [getline] on a good stream stores the line, consumes its delimiter, and reports the end of the
    file, and a failure when there was nothing to read. *)
Theorem getline_reads_line m st str old p cap dlm :
  let l := i_buf st in let w := upto (Z.eqb dlm) l in
  i_good st = true -> RepAt m str old p cap -> zlen w < max_size ->
  wpx (getline is_space str dlm) (m, st)
    (fun _ s' => updates str m p cap w s'.1 /\
       s'.2 = IStream (negb (bool_decide (dlm ∈ l))) (bool_decide (l = [])) (i_skipws st) (i_width st) (behind dlm l))
    (read_part str m p cap [] w l st).
Proof.
  intros l w Hg HR Hw. unfold getline. apply wpx_bind. eapply wpx_ok; [done|]. cbv beta. cbn [snd]. unfold sentry. rewrite Hg. cbn [negb andb].
  apply wpx_bind. eapply wpx_ok; [done|]. cbn [fst snd]. eapply clear_step; [done|done|]. intros m1 p1 cap1 HR1 Hev.
  apply wpx_bind. eapply wpx_mono; [apply (line_loop_ok str dlm (S (length l)) m1 st l [] p1 cap1 0); [done|done|lia|done]| |done].
  intros r [m' st'] (-> & Hu & Hs). cbn [fst snd] in *. eapply wpx_ok; [done|]. cbn [fst snd]. split; [by eapply updates_trans|].
  apply andb_true_iff in Hg as [He Hf]. apply negb_true_iff in He, Hf. rewrite Hs. unfold set_state. cbn. rewrite He, Hf. cbn. f_equal.
  destruct (decide (l = [])) as [E|E].
  - rewrite (bool_decide_eq_true_2 (l = []) E). rewrite E. rewrite bool_decide_eq_false_2 by apply not_elem_of_nil. done.
  - rewrite (bool_decide_eq_false_2 (l = []) E). apply Z.eqb_neq. fold w. pose proof (zlen_nonneg w). case_bool_decide; [lia|].
    destruct l as [|c l']; [done|]. unfold w. cbn [upto]. destruct (dlm =? c) eqn:Ed; bool_prop; [subst; exfalso; set_solver|].
    rewrite zlen_cons. pose proof (zlen_nonneg (upto (Z.eqb dlm) l')). lia.
Qed.

(** How many characters [operator>>] takes at most. *)
Definition limit (st : istream) : Z :=
  let n := if i_width st <=? 0 then to_signed 64 max_size else i_width st in if n <=? 0 then streamsize_max else n.

Lemma limit_pos st : 0 < limit st.
Proof. unfold limit, streamsize_max. cbv zeta. case_test; lia. Qed.

Lemma skip_spaces_head l c l' : skip_spaces is_space l = c :: l' -> is_space c = false.
Proof. induction l as [|x l IH]; cbn; [done|]. destruct (is_space x) eqn:E; [done|]. intros. by simplify_eq. Qed.

(** [operator>>] on a good stream skips white space and stores the characters up to the next white
    space or the width of the stream, which it resets; at the end of the file it leaves the string
    alone and fails. *)
Theorem input_reads_word m st str old p cap :
  let l := skip_spaces is_space (i_buf st) in let w := take (Z.to_nat (limit st)) (upto is_space l) in
  i_good st = true -> i_skipws st = true -> RepAt m str old p cap ->
  wpx (input is_space str) (m, st)
    (fun _ s' => match l with
       | [] => s' = (m, IStream true true true (i_width st) [])
       | _ => w <> [] /\ updates str m p cap w s'.1 /\
           s'.2 = IStream (bool_decide (zlen w < limit st /\ drop (length w) l = [])) false true 0 (drop (length w) l)
       end)
    (read_part str m p cap [] w l (set_buf l st)).
Proof.
  intros l w Hg Hsk HR. pose proof (limit_pos st) as Hlim. apply andb_true_iff in Hg as Hg'. destruct Hg' as [He Hf].
  apply negb_true_iff in He, Hf. unfold input. apply wpx_bind. eapply wpx_ok; [done|]. cbv beta. cbn [snd]. unfold sentry.
  rewrite Hg, Hsk. cbn [negb andb]. fold l. assert (l = skip_spaces is_space (i_buf st)) as Hl by done.
  assert (w = take (Z.to_nat (limit st)) (upto is_space l)) as Hw by done. clearbody w l. destruct l as [|c l'].
  { apply wpx_bind. eapply wpx_ok; [done|]. eapply wpx_ok; [done|]. cbn. unfold set_state. cbn. by rewrite Hf, He, Hsk. }
  assert (is_space c = false) as Hc by (by eapply skip_spaces_head). set (l := c :: l') in *.
  apply wpx_bind. eapply wpx_ok; [done|]. cbn [fst snd]. eapply clear_step; [done|done|]. intros m1 p1 cap1 HR1 Hev.
  change (i_width (set_buf l st)) with (i_width st). fold (limit st). change (i_buf (set_buf l st)) with l.
  apply wpx_bind. eapply wpx_mono; [apply (word_loop_ok str (limit st) (S (length l)) m1 (set_buf l st) l [] p1 cap1 0); [done|done|lia|lia]| |].
  - rewrite Z.sub_0_r, <-Hw. intros r [m' st'] (-> & Hu & Hs). cbn [fst snd] in *. rewrite Z.add_0_l in *.
    assert (w <> []) as Hne.
    { rewrite Hw. unfold l. cbn [upto]. rewrite Hc. by replace (Z.to_nat (limit st)) with (S (Z.to_nat (limit st - 1))) by lia. }
    apply wpx_bind. eapply wpx_ok; [done|]. eapply wpx_ok; [done|]. cbn [fst snd]. split_and!; [done|by eapply updates_trans|].
    rewrite Hs. unfold set_state, set_width. cbn. rewrite He, Hf, Hsk. cbn. f_equal. apply Z.eqb_neq.
    destruct w; [done|]. rewrite zlen_cons. pose proof (zlen_nonneg w). lia.
  - by rewrite Z.sub_0_r, <-Hw.
Qed.

(** [operator<<] prints the characters before the first NUL. *)
Lemma output_ok m str l p cap os : RepAt m str l p cap -> Forall (fun b => b <> 0) l ->
  output str os m = Ok (put_chars l os) m.
Proof.
  intros HR Hnz. pose proof (rep_pts _ _ _ _ _ HR) as Hp. unfold output, bind, c_str, Ep.load_cstr, bind.
  rewrite (rep_begin _ _ _ _ _ HR), (traits_length_ok m p l Hp Hnz). apply pts_app in Hp as [Hp _].
  replace (Z.to_nat (zlen l)) with (length l) by (unfold zlen; lia). by rewrite (load_bytes_ok _ _ _ Hp).
Qed.

Lemma upto_app stop l c rest : Forall (fun x => stop x = false) l -> stop c = true -> upto stop (l ++ c :: rest) = l.
Proof. induction 1 as [|x l Hx _ IH]; intros Hc; cbn; [by rewrite Hc|]. rewrite Hx. f_equal. auto. Qed.
End Reading.

Section RoundTrip.
Context `{Allocator} (is_space : Z -> bool).

Lemma limit_large st (l : list Z) : i_width st = 0 -> zlen l < max_size -> zlen l < streamsize_max -> zlen l < limit st.
Proof.
  intros Hw Hm Hs. unfold limit. rewrite Hw. pose proof (max_size_range). pose proof (zlen_nonneg l).
  cbn [Z.leb Z.compare]. cbv zeta. unfold to_signed. rewrite Z.mod_small by lia. unfold streamsize_max in *.
  repeat case_match; bool_prop; lia.
Qed.

Lemma skip_spaces_app sp l : Forall (fun x => is_space x = true) sp -> skip_spaces is_space (sp ++ l) = skip_spaces is_space l.
Proof. induction 1 as [|x sp Hx _ IH]; cbn; [done|]. by rewrite Hx. Qed.

Lemma skip_spaces_word c l : is_space c = false -> skip_spaces is_space (c :: l) = c :: l.
Proof. intros Hc. cbn. by rewrite Hc. Qed.

(** C30: what [operator<<] prints of a string without NUL is read back: [getline] stores exactly
    these characters from a stream in which they are followed by a delimiter that is not among
    them, and [operator>>] does for a word behind white space and in front of it; the stream stays
    good and what follows is still to be read.  Reading throws only when the string cannot grow. *)
Theorem stream_roundtrip m s l p cap os str old q c st dlm sp rest :
  RepAt m s l p cap -> Forall (fun b => b <> 0) l -> o_good os = true -> o_width os = 0 ->
  RepAt m str old q c -> zlen l < Z.min max_size streamsize_max -> i_good st = true ->
  output s os m = Ok (OStream true 0 (o_fill os) (o_left os) (o_out os ++ l)) m /\
  (dlm ∉ l -> i_buf st = l ++ dlm :: rest ->
   wpx (getline is_space str dlm) (m, st)
     (fun _ s' => updates str m q c l s'.1 /\ s'.2 = set_buf rest st) (fun e _ => formatting_error e)) /\
  (l <> [] -> Forall (fun x => is_space x = false) l -> is_space dlm = true -> Forall (fun x => is_space x = true) sp ->
   i_skipws st = true -> i_width st = 0 -> i_buf st = sp ++ l ++ dlm :: rest ->
   wpx (input is_space str) (m, st)
     (fun _ s' => updates str m q c l s'.1 /\ s'.2 = set_buf (dlm :: rest) st) (fun e _ => formatting_error e)).
Proof.
  intros HR Hnz Hog How HS Hmax Hg. pose proof Hg as Hgs. apply andb_true_iff in Hgs as [He Hf]. apply negb_true_iff in He, Hf. split_and!.
  - rewrite (output_ok m s l p cap os HR Hnz). unfold put_chars. rewrite Hog, How. pose proof (zlen_nonneg l).
    replace (Z.to_nat (0 - zlen l)) with O by lia. cbn. rewrite app_nil_r. by destruct (o_left os).
  - intros Hn Hb. assert (upto (Z.eqb dlm) (i_buf st) = l) as Hu.
    { rewrite Hb. apply upto_app; [|apply Z.eqb_refl]. apply list.Forall_forall. intros x Hx. apply Z.eqb_neq. by intros ->. }
    eapply wpx_mono; [apply (getline_reads_line is_space m st str old q c dlm Hg HS); rewrite Hu; lia| |by intros e s' []].
    rewrite Hu. intros _ s' [Hup Hs]. split; [done|]. rewrite Hs. unfold behind. rewrite Hu, Hb.
    rewrite bool_decide_eq_true_2 by set_solver. rewrite bool_decide_eq_false_2 by (by destruct l).
    change (S (length l)) with (1 + length l)%nat. rewrite Nat.add_comm, <-drop_drop, drop_app_length. unfold set_buf. by rewrite He, Hf.
  - intros Hne Hw Hd Hsp Hsk Hwd Hb. assert (exists x l0, l = x :: l0) as (x & l0 & El) by (destruct l; [done|eauto]).
    assert (skip_spaces is_space (i_buf st) = l ++ dlm :: rest) as Hl.
    { rewrite Hb, skip_spaces_app by done. rewrite El. cbn [app]. apply skip_spaces_word. rewrite El in Hw. by apply list.Forall_cons in Hw as [? _]. }
    pose proof (input_reads_word is_space m st str old q c Hg Hsk HS) as Hin. cbv zeta in Hin. rewrite Hl in Hin.
    pose proof (limit_large st l Hwd ltac:(lia) ltac:(lia)) as Hlim.
    assert (take (Z.to_nat (limit st)) (upto is_space (l ++ dlm :: rest)) = l) as Ht.
    { rewrite upto_app by done. apply take_ge. unfold zlen in Hlim. lia. }
    rewrite Ht in Hin. subst l. eapply wpx_mono; [exact Hin| |by intros e s' []]. intros u s' (_ & Hup & Hs).
    split; [done|]. rewrite Hs, drop_app_length.
    rewrite bool_decide_eq_false_2 by (by intros []). unfold set_buf. by rewrite He, Hf, Hsk, Hwd.
Qed.
End RoundTrip.

(** A string with a NUL is printed up to it only. *)
Example output_stops_at_nul :
  (do! ctor_fill 1100 2 0 in output 1100 (OStream true 0 32 false [])) demo_mem =
  (do! ctor_fill 1100 2 0 in ret (OStream true 0 32 false [])) demo_mem.
Proof. vm_compute. reflexivity. Qed.

(** ** Witnesses *)

Lemma demo_slot_ab : slot demo_mem 1000.
Proof. split_and!; [lia|lia| |by intros]. exists obj_ab. split; [demo_pts|done]. Qed.

Lemma to_string_terminates_witness :
  wpx (to_string_text 1100 1000 (replicate 40 49)) demo_mem
    (fun _ m' => zlen (replicate 40 49) < 2 ^ 31 /\ Rep m' 1100 (replicate 40 49) /\ kept (objects 1100 1000) demo_mem m')
    (fun e m' => formatting_error e /\ 30 < zlen (replicate 40 49) /\ kept (objects 1100 1000) demo_mem m').
Proof. apply (to_string_terminates demo_mem 1100 1000); [apply demo_slot|apply demo_slot_ab|right; lia]. Defined.

Lemma to_string_parses_witness :
  wp (to_string_short 1100 1000 (-32768)) demo_mem (fun _ m' =>
    exists l, Rep m' 1100 l /\ Po.parser_short l = inl (Po.VInt (-32768)) /\ kept (objects 1100 1000) demo_mem m').
Proof.
  apply (to_string_parses Po.TShort _ _ demo_mem 1100 1000 (-32768)); [done|done|cbn; lia|apply demo_slot|apply demo_slot_ab|right; lia].
Defined.

Lemma stream_roundtrip_witness :
  let st := IStream false false true 0 [97; 98; 10; 99] in
  wpx (getline (Z.eqb 32) 1300 10) (demo_mem, st)
    (fun _ s' => updates 1300 demo_mem 1301 30 [97; 98] s'.1 /\ s'.2 = set_buf [99] st) (fun e _ => formatting_error e).
Proof.
  intros st.
  destruct (stream_roundtrip (Z.eqb 32) demo_mem 1000 [97; 98] 1001 30 (OStream true 0 32 false []) 1300 [120] 1301 30 st 10 [] [99])
    as (_ & Hw & _); [..|apply Hw];
    [apply demo_ab|by repeat constructor|done|done|apply demo_x|vm_compute; reflexivity|done| |done].
  intros Hin. apply elem_of_cons in Hin as [Hin|Hin]; [done|]. apply list_elem_of_singleton in Hin. done.
Defined.
