(* ===== verification/RpcEndToEnd.v ===== *)
(** * Remote calls, end to end

    The client of [RpcClient] and the server of [RpcServer], each over its batching socket, joined
    by a network that places the posted buffers of one side into receive buffers of the other.  A
    fiber sends requests and waits; the server answers them; the replies wake the fiber.

    What an application provides is stated by classes: [Service] for the code behind
    [Socket::onRequest], [Decoder] for the code behind [processResponse]. *)

From S2P Require Import Prelude Memory ByteBuffer Ids ErrorCode IbBuffer IbSocket Batching BatchingSpec BatchingFlow.
From S2P Require Import RpcClient RpcClientSpec RpcClientRun RpcClientClaims RpcServer.

(** ** Send buffers

    How many buffers of the pool a call takes at most. *)

Section Budget.
Context {U : Type} `{Verbs}.
Implicit Types w : world U.

Definition free_buffers w : nat := length (mSendBufferQueue (n_pool (w_net w))).

Definition takes {A} (k : nat) (x : St (world U) A) : Prop :=
  forall w a w', x w = Ok a w' -> (free_buffers w <= free_buffers w' + k)%nat.

Lemma takes_bind {A B} k j (x : St (world U) A) (f : A -> St (world U) B) :
  takes k x -> (forall a, takes j (f a)) -> takes (k + j) (bind x f).
Proof.
  intros Hx Hf w b w'. unfold bind. destruct (x w) as [a w1| | |] eqn:E; try done. intros Hr.
  pose proof (Hx w a w1 E). pose proof (Hf a w1 b w' Hr). lia.
Qed.

Lemma takes_bind0 {A B} j (x : St (world U) A) (f : A -> St (world U) B) :
  takes 0 x -> (forall a, takes j (f a)) -> takes j (bind x f).
Proof. apply (takes_bind 0). Qed.

Lemma takes_ret {A} k (a : A) : takes k (ret a).
Proof. intros w b w' Hr. unfold ret in Hr. simplify_eq. lia. Qed.
Lemma takes_throw {A} k e : takes k (throw e : St (world U) A).
Proof. by intros w b w' Hr. Qed.
Lemma takes_sock k : takes k (sock (U := U)).
Proof. intros w b w' Hr. unfold sock in Hr. simplify_eq. lia. Qed.
Lemma takes_smod k f : takes k (smod (U := U) f).
Proof. intros w b w' Hr. unfold smod in Hr. simplify_eq. unfold free_buffers. cbn. lia. Qed.
Lemma takes_assert k b : takes k (massert b : St (world U) unit).
Proof. unfold massert. destruct b; [apply takes_ret|by intros ? ? ?]. Qed.
Lemma takes_in_mem {A} k (x : St mem A) : takes k (in_mem (U := U) x).
Proof.
  intros w b w' Hr. unfold in_mem, on_net, on_mem in Hr. destruct (x (n_mem (w_net w))); try done. simplify_eq.
  unfold free_buffers. cbn. lia.
Qed.
Lemma takes_send k buffer uid ec : takes k (on_net (U := U) (socket_send buffer uid ec)).
Proof.
  intros w b w' Hr. unfold on_net, socket_send, doSend, bind, get in Hr. cbn in Hr.
  destruct (n_open (w_net w)); cbn in Hr; [|done]. destruct (_ =? 0); cbn in Hr; [|unfold ret in Hr; simplify_eq; unfold free_buffers; cbn; lia].
  unfold on_mem, put, ret in Hr. repeat (case_match; try done). simplify_eq. unfold free_buffers. cbn. lia.
Qed.
Lemma takes_release k buffer : takes k (on_net (U := U) (socket_releaseSendBuffer buffer)).
Proof.
  intros w b w' Hr. unfold on_net, socket_releaseSendBuffer in Hr. simplify_eq. unfold free_buffers. cbn.
  unfold releaseSendBuffer, releaseSendBuffer_id. repeat case_match; cbn; lia.
Qed.
Lemma takes_acquire : takes 1 (on_net (U := U) socket_acquireSendBuffer).
Proof.
  intros w b w' Hr. unfold on_net, socket_acquireSendBuffer, acquireSendBuffer, acquireSendBuffer_len in Hr.
  unfold free_buffers. destruct (mSendBufferQueue (n_pool (w_net w))) as [|id rest] eqn:Hq; cbn in Hr.
  - simplify_eq. cbn. lia.
  - repeat case_match; simplify_eq; cbn; rewrite ?Hq; cbn; lia.
Qed.
End Budget.

Create HintDb takes.
#[export] Hint Resolve takes_ret takes_throw takes_sock takes_smod takes_assert takes_in_mem takes_send takes_release takes_acquire : takes.

Ltac takes_step :=
  first [ solve [auto with takes] | apply takes_bind0; [|intros ?] | case_match ].

Section Writing.
Context {U : Type} `{Verbs}.
Implicit Types w : world U.

Lemma takes_assign k b : takes k (assign_writer (U := U) b).
Proof. unfold assign_writer. repeat takes_step. Qed.
#[local] Hint Resolve takes_assign : takes.

Lemma takes_sendCurrent k ec : takes k (sendCurrentBuffer (U := U) ec).
Proof. unfold sendCurrentBuffer. repeat takes_step. Qed.
#[local] Hint Resolve takes_sendCurrent : takes.

Lemma takes_schedule k : takes k (scheduleFlush (U := U)).
Proof.
  unfold scheduleFlush. repeat takes_step. intros w b w' Hr. simplify_eq. unfold free_buffers. cbn. lia.
Qed.
#[local] Hint Resolve takes_schedule : takes.

Lemma takes_fresh n ec : takes 1 (freshBuffer (U := U) n ec).
Proof.
  unfold freshBuffer. apply takes_bind0; [auto with takes|intros ?]. apply (takes_bind 1 0); [auto with takes|intros ?].
  repeat takes_step.
Qed.

(** A message takes one buffer at most. *)
Lemma takes_writeMessage id ty n f ec : (forall b e, takes 0 (f b e)) -> takes 1 (writeMessage (U := U) id ty n f ec).
Proof.
  intros Hf. unfold writeMessage. apply takes_bind0; [auto with takes|intros s].
  apply (takes_bind 1 0); [unfold makeRoom; repeat (apply takes_fresh || takes_step)|]. intros [go ec']. unfold appendMessage. repeat takes_step.
Qed.

Lemma takes_put_body body e b ec : takes 0 (put_body (U := U) body e b ec).
Proof. unfold put_body. repeat takes_step. Qed.
End Writing.

(** ** Streams of messages *)

Section Streams.
Context {U : Type} `{Verbs}.
Implicit Types w : world U.

(** The messages the socket has accepted, posted or still in its buffer. *)
Definition streams w (ms : list msg) : Prop := exists sent pend, Inv w sent pend /\ concat sent ++ pend = ms.

(** A message of this size fits into a send buffer. *)
Definition fits w (body : list Z) : Prop :=
  0 < mMaxBatchSize (w_sock w) /\ HEADER_SIZE + zlen body <= mSendBufferLength (n_pool (w_net w)).

Lemma fits_keeps w w' body : keeps w w' -> fits w body -> fits w' body.
Proof. unfold keeps, fits. intros (-> & _ & _ & -> & _) Hf. done. Qed.

(** With working verbs and a free buffer, a message that fits is accepted. *)
Lemma write_succeeds w ms x f :
  (forall l wr, ibv_post_send l wr = 0) -> streams w ms -> msg_wf x -> writes_body f (msg_body x) no_error ->
  (forall b e, takes 0 (f b e)) -> fits w (msg_body x) -> (0 < free_buffers w)%nat ->
  exists w', writeMessage (msg_id x) (msg_type x) (zlen (msg_body x)) f no_error w = Ok no_error w' /\
    keeps w w' /\ streams w' (ms ++ [x]) /\ (free_buffers w <= free_buffers w' + 1)%nat.
Proof.
  intros Hpost (sent & pend & HI & Hms) Hwf Hf Ht [Hb Hl] Hq.
  destruct (writeMessage_step w sent pend x f no_error HI Hwf Hf) as (ec & w' & sent' & pend' & Hrun & Hk & HI' & Ho).
  pose proof (takes_writeMessage _ _ _ _ _ Ht _ _ _ Hrun) as Hfree.
  destruct Ho as [s p _ Hs|s p He _|s p [Hbad|Hbad] _|s p Hbad _|ec s (l & wr & Hne & _) _]; try done; try lia.
  - exists w'. split_and!; try done. exists s, p. split; [done|]. by rewrite Hs, <-Hms, app_assoc.
  - exfalso. unfold free_buffers in Hq. rewrite Hbad in Hq. simpl in Hq. lia.
  - by rewrite Hpost in Hne.
Qed.

(** The flush posts everything. *)
Lemma flush_streams w ms : (forall l wr, ibv_post_send l wr = 0) -> streams w ms -> mState (w_sock w) = CONNECTED ->
  exists w' batches, run_flush w = Ok tt w' /\ Inv w' batches [] /\ concat batches = ms /\
    mState (w_sock w') = CONNECTED /\ Forall2 framed (payloads (w_net w')) batches.
Proof.
  intros Hpost (sent & pend & HI & Hms) Hs. destruct (flush_step w sent pend HI Hs) as (w' & sent' & Hrun & HI' & _ & _ & Hc).
  destruct Hc as [[Hs' Hc]|(_ & _ & ec & l & wr & Hne & _)]; [|by rewrite Hpost in Hne].
  exists w', sent'. split_and!; try done; [by rewrite Hc|]. by destruct HI' as (out & _ & _ & ? & _).
Qed.

(** ** Receiving *)

Context {HU : MessageHandler U}.

(** The handler calls for the messages at [p]: each succeeds and leaves the receive buffer up to
    [hi] alone. *)
Inductive delivers (hi : Z) : Z -> list msg -> world U -> world U -> Prop :=
  | delivers_nil p w : delivers hi p [] w w
  | delivers_cons p m ms w r w1 w2 :
      onMessage (msg_id m) (msg_type m) (BufferReader (p + HEADER_SIZE) (p + HEADER_SIZE + zlen (msg_body m))) w = Ok r w1 ->
      rPos r <= rEnd r -> (forall a, p <= a < hi -> bytes (w_mem w1) !! a = bytes (w_mem w) !! a) ->
      delivers hi (p + frame_len m) ms w1 w2 -> delivers hi p (m :: ms) w w2.

Lemma receive_loop_run l ms : framed l ms -> forall p fuel w w',
  pts (w_mem w) p l -> 0 <= p -> p mod 8 = 0 -> p + zlen l + 2 ^ 33 < 2 ^ 64 -> (length ms < fuel)%nat ->
  delivers (p + zlen l) p ms w w' -> receive_loop fuel (BufferReader p (p + zlen l)) w = Ok tt w'.
Proof.
  induction 1 as [|m pad l ms Hm Hlen Hl IH]; intros p fuel w w' Hp Hp0 H8 Hbig Hfu Hd;
    (destruct fuel as [|fuel]; [simpl in Hfu; lia|]); inversion Hd as [|? ? ? ? r w1 ? Hon Hr Hk Hd']; subst; cbn [receive_loop].
  { change (zlen []) with 0. rewrite Z.add_0_r. destruct (canRead (BufferReader p p) HEADER_SIZE) eqn:Hc.
    { apply canRead_spec in Hc; unfold HEADER_SIZE in *; change (zlen []) with 0 in *; lia. }
    apply in_mem_id. unfold reader_destroy, massert. simpl. by rewrite Z.leb_refl. }
  rewrite zlen_app, Hlen in Hbig, Hk, Hd' |- *. set (e := p + (frame_len m + zlen l)) in *.
  pose proof (frame_len_bounds m). pose proof (zlen_nonneg l). pose proof (zlen_nonneg (msg_body m)). pose proof Hm as (_ & _ & Hm3).
  pose proof Hp as Hp'. rewrite <-!app_assoc in Hp'. destruct (read_header w p e m _ Hm Hp') as (R1 & R2 & R3). unfold HEADER_SIZE in *.
  rewrite (proj2 (canRead_spec p e 16 ltac:(lia) ltac:(lia) ltac:(lia))) by lia.
  unfold bind at 1. rewrite R1. unfold bind at 1. rewrite R2. unfold bind at 1. rewrite R3.
  rewrite (proj2 (canRead_spec (p + 8 + 4 + 4) e (zlen (msg_body m)) ltac:(lia) ltac:(lia) ltac:(lia))) by lia.
  cbn [negb]. unfold reader_extract, mk_reader. cbn [rPos rEnd].
  rewrite (u64_small (p + 8 + 4 + 4 + zlen (msg_body m))) by lia.
  replace (p + 16) with (p + 8 + 4 + 4) in Hon by lia. unfold bind. rewrite Hon.
  rewrite (in_mem_id (reader_destroy r) w1 tt); [|unfold reader_destroy, massert; by rewrite (proj2 (Z.leb_le _ _) Hr)].
  unfold reader_align. cbn [rPos rEnd].
  pose proof (align_after_message p [] [] m) as Hal. change (zlen []) with 0 in Hal. rewrite Z.add_0_r in Hal.
  rewrite Hal by (done || lia || apply framed_nil).
  unfold e in *. rewrite Z.add_assoc in *. eapply IH; [|lia| |lia|simpl in Hfu; lia|exact Hd'].
  - intros i x Hi. pose proof (lookup_lt_Some _ _ _ Hi). rewrite Hk by (unfold zlen; lia).
    apply pts_app in Hp as [_ Hp]. rewrite Hlen in Hp. by apply Hp.
  - rewrite Zplus_mod, H8, frame_len_mod. done.
Qed.

(** The network places a payload into a receive buffer, then the completion calls [onReceive]. *)
Definition receive (p : Z) (payload : list Z) : St (world U) unit :=
  do! in_mem (store_bytes p payload) in
  onReceive (S (length payload)) p (zlen payload) no_error.

Fixpoint receive_all (ps : list Z) (l : list (list Z)) : St (world U) unit :=
  match ps, l with
  | p :: ps, payload :: l => do! receive p payload in receive_all ps l
  | _, _ => ret tt
  end.

Lemma framed_length l ms : framed l ms -> (length ms <= length l)%nat.
Proof.
  induction 1 as [|m pad l ms Hm Hlen _ IH]; [done|]. rewrite length_app. pose proof (frame_len_bounds m).
  pose proof (zlen_nonneg (msg_body m)). unfold zlen in Hlen, H0. simpl. unfold HEADER_SIZE in *. unfold zlen in *. lia.
Qed.

Lemma receive_run p l ms w w' :
  framed l ms -> mapped (w_mem w) p (zlen l) -> 0 <= p -> p mod 8 = 0 -> p + zlen l + 2 ^ 33 < 2 ^ 64 ->
  delivers (p + zlen l) p ms (with_mem (upd (w_mem w) p l) w) w' -> receive p l w = Ok tt w'.
Proof.
  intros Hf (l0 & Hl0 & Hlen) H0 H8 Hb Hd. unfold receive, bind.
  rewrite (in_mem_ok _ w tt (upd (w_mem w) p l)); [|eapply store_bytes_ok; [exact Hl0|unfold zlen in *; lia]].
  unfold onReceive. change (ec_bool no_error) with false. cbv iota. unfold mk_reader. pose proof (zlen_nonneg l). rewrite u64_small by lia.
  eapply (receive_loop_run l ms Hf); [|done..| |exact Hd].
  - destruct w as [[] ? ? ?]. apply pts_upd_same.
  - pose proof (framed_length _ _ Hf). lia.
Qed.
End Streams.

(** ** Where payloads arrive *)

Section Rooms.
Context {U : Type} `{Verbs}.
Implicit Types w : world U.

Definition away w (a : Z) : Prop :=
  a < mr_addr (mSendData (n_pool (w_net w))) \/
  mr_addr (mSendData (n_pool (w_net w))) + mr_length (mSendData (n_pool (w_net w))) <= a.

(** A receive buffer: mapped, aligned and apart from the send buffers. *)
Definition room w (p n : Z) : Prop :=
  mapped (w_mem w) p n /\ (forall a, p <= a < p + n -> away w a) /\ 0 <= p /\ p mod 8 = 0 /\ p + n + 2 ^ 33 < 2 ^ 64.

Definition rooms w (ps : list Z) (l : list (list Z)) : Prop := Forall2 (fun p payload => room w p (zlen payload)) ps l.

(** What a handler of messages leaves as it is. *)
Definition still w w' : Prop :=
  mMaxBatchSize (w_sock w') = mMaxBatchSize (w_sock w) /\ mState (w_sock w') = mState (w_sock w) /\
  mSendBufferLength (n_pool (w_net w')) = mSendBufferLength (n_pool (w_net w)) /\
  mSendData (n_pool (w_net w')) = mSendData (n_pool (w_net w)) /\
  (forall a, away w a -> bytes (w_mem w') !! a = bytes (w_mem w) !! a).

Lemma still_refl w : still w w.
Proof. by unfold still. Qed.

Lemma still_trans w1 w2 w3 : still w1 w2 -> still w2 w3 -> still w1 w3.
Proof.
  intros (H1 & H2 & H3 & H4 & H5) (K1 & K2 & K3 & K4 & K5). split_and!; try congruence.
  intros a Ha. rewrite K5, H5; [done..|]. unfold away in *. by rewrite H4.
Qed.

Lemma keeps_still w w' : keeps w w' -> still w w'.
Proof. intros (? & ? & _ & ? & _ & ? & ?). by split_and!. Qed.

Lemma still_fits w w' body : still w w' -> fits w body -> fits w' body.
Proof. unfold still, fits. by intros (-> & _ & -> & _). Qed.

Lemma pts_still w w' p l : still w w' -> (forall a, p <= a < p + zlen l -> away w a) -> pts (w_mem w) p l -> pts (w_mem w') p l.
Proof.
  intros (_ & _ & _ & _ & Hm) Ha Hp i x Hi. pose proof (lookup_lt_Some _ _ _ Hi). rewrite Hm; [by apply Hp|].
  apply Ha. unfold zlen. lia.
Qed.

Lemma room_still w w' p n : still w w' -> room w p n -> room w' p n.
Proof.
  intros Hst ((l & Hl & Hn) & Ha & ?). split; [|split; [|done]].
  - exists l. split; [|done]. eapply pts_still; [done| |done]. by rewrite Hn.
  - intros a Hr. destruct Hst as (_ & _ & _ & Hd & _). unfold away. rewrite Hd. by apply Ha.
Qed.

Lemma rooms_still w w' ps l : still w w' -> rooms w ps l -> rooms w' ps l.
Proof. intros Hst Hf. eapply Forall2_impl; [|exact Hf]. intros p payload. by apply room_still. Qed.

(** Memory stays mapped, whatever is written. *)
Lemma mapped_overwrite m p l q n : mapped m q n -> 0 <= n -> mapped (upd m p l) q n.
Proof.
  intros Hm Hn. exists (map (fun i => default 0 (bytes (upd m p l) !! (q + i))) (seqZ 0 n)). split.
  - intros i x Hi. rewrite list_lookup_fmap in Hi. apply fmap_Some in Hi as (j & Hj & ->). apply lookup_seqZ in Hj as [-> Hj].
    rewrite Z.add_0_l. destruct (mapped_byte m q n (q + Z.of_nat i) Hm) as [b Hb]; [lia|]. rewrite lookup_upd. case_decide as Hin.
    + destruct (lookup_lt_is_Some_2 l (Z.to_nat (q + Z.of_nat i - p))) as [y Hy]; [unfold zlen in Hin; lia|]. by rewrite Hy.
    + by rewrite Hb.
  - unfold zlen. rewrite length_map, length_seqZ. lia.
Qed.

(** A payload that arrives does not disturb the socket. *)
Definition arrived (p : Z) (l : list Z) w : world U := with_mem (upd (w_mem w) p l) w.

Lemma w_mem_arrived p l w : w_mem (arrived p l w) = upd (w_mem w) p l.
Proof. by destruct w as [[] ? ? ?]. Qed.

Lemma room_mapped w p l q n : room w p (zlen l) -> mapped (w_mem w) q n ->
  (forall a, q <= a < q + n -> ~ away w a) -> mapped (upd (w_mem w) p l) q n.
Proof.
  intros (_ & Ha & _) (o & Ho & Hn) Hq. exists o. split; [|done]. intros i x Hi. pose proof (lookup_lt_Some _ _ _ Hi).
  rewrite lookup_upd, decide_False; [by apply Ho|]. intros Hin. apply (Hq (q + Z.of_nat i)); [unfold zlen in Hn; lia|]. by apply Ha.
Qed.

Lemma streams_arrived p l w ms : room w p (zlen l) -> streams w ms -> streams (arrived p l w) ms.
Proof.
  intros Hr (sent & pend & (out & Hn & Hb & Hs & Ht) & Hms). exists sent, pend. split; [|done]. exists out. pose proof Hn as Hn'.
  destruct Hn as (Hwf & Ho & HL & Ha & He & Hmap). split_and!; try done.
  - unfold net_ok. change (n_mem (w_net (arrived p l w))) with (w_mem (arrived p l w)). rewrite w_mem_arrived.
    split_and!; try done. eapply room_mapped; [done|done|]. intros a Ha'. unfold away. cbn in Ha'. lia.
  - unfold buffer_ok in *. rewrite w_mem_arrived. cbn -[InfinibandBuffer.valid] in *.
    destruct (InfinibandBuffer.valid (mBuffer (w_sock w))) eqn:Hv; [|done].
    destruct Hb as (cur & Hf & Hbuf & Hin & Hwr & Hle & Hpts & Hfl & Hbs). exists cur. split_and!; try done.
    destruct (buffer_range _ _ _ Hwf Hin) as (_ & Hlo & Hhi).
    assert (InfinibandBuffer.data (mBuffer (w_sock w)) =
      buffer_addr (n_pool (w_net w)) (InfinibandBuffer.mId (mBuffer (w_sock w)))) as Hd by (by rewrite Hbuf).
    intros i x Hi. pose proof (lookup_lt_Some _ _ _ Hi). rewrite lookup_upd, decide_False; [by apply Hpts|].
    intros Hr'. destruct Hr as (_ & Haw & _). destruct (Haw _ Hr'); unfold zlen in *; lia.
Qed.
End Rooms.

(** ** The server *)

(** What the application answers: a message of its own type, or an error number. *)
Inductive reply := Reply (ty : Z) (body : list Z) | Failure (error : Z).

Definition reply_type (r : reply) : Z := match r with Reply ty _ => ty | Failure _ => ERROR_MESSAGE end.
Definition reply_body (r : reply) : list Z := match r with Reply _ body => body | Failure e => le_bytes 8 (u64 e) end.
Definition reply_msg (id : Z) (r : reply) : msg := Msg id (reply_type r) (reply_body r).

Definition reply_wf (r : reply) : Prop :=
  match r with
  | Reply ty body => 0 <= ty < ERROR_MESSAGE /\ HEADER_SIZE + zlen body < 2 ^ 32
  | Failure e => - 2 ^ 31 <= e < 2 ^ 31
  end.

Lemma reply_msg_wf id r : 0 <= id < 2 ^ 64 -> reply_wf r -> msg_wf (reply_msg id r).
Proof.
  intros Hid Hr. unfold msg_wf, reply_msg. cbn [msg_id msg_type msg_body].
  destruct r as [ty body|e]; cbn [reply_wf reply_type reply_body] in *; unfold ERROR_MESSAGE in *; [split_and!; lia|].
  assert (zlen (le_bytes 8 (u64 e)) = 8) as -> by (unfold zlen; by rewrite length_le_bytes). unfold HEADER_SIZE. split_and!; lia.
Qed.

(** The reply the server owes for a request. *)
Definition answer (serve : Z -> list Z -> reply) (m : msg) : msg := reply_msg (msg_id m) (serve (msg_type m) (msg_body m)).

(** What the server relies on: [onRequest] answers a request with [serve], through the socket. *)
Class Service {V : Type} {VV : Verbs} (RH : RequestHandler V) (serve : Z -> list Z -> reply) : Prop := {
  service_answers (w : world (server V)) (ms : list msg) (m : msg) (p : Z) :
    (forall l wr, ibv_post_send l wr = 0) -> streams w ms -> mState (w_sock w) = CONNECTED ->
    msg_wf m -> reply_wf (serve (msg_type m) (msg_body m)) -> fits w (msg_body (answer serve m)) -> (0 < free_buffers w)%nat ->
    pts (w_mem w) p (msg_body m) -> (forall a, p <= a < p + zlen (msg_body m) -> away w a) ->
    exists r w', onRequest (msg_id m) (msg_type m) (BufferReader p (p + zlen (msg_body m))) w = Ok r w' /\ rPos r <= rEnd r /\
      still w w' /\ streams w' (ms ++ [answer serve m]) /\ (free_buffers w <= free_buffers w' + 1)%nat
}.

Section Server.
Context {V : Type} {VV : Verbs} {RH : RequestHandler V} (serve : Z -> list Z -> reply) {SV : Service RH serve}.
#[local] Existing Instance rpc_server_handler.
Hypothesis Hpost : forall l wr, ibv_post_send l wr = 0.
Implicit Types w : world (server V).

(** Requests the server can answer. *)
Definition servable w (m : msg) : Prop :=
  reply_wf (serve (msg_type m) (msg_body m)) /\ fits w (msg_body (answer serve m)).

Lemma servable_still w w' ms : still w w' -> Forall (servable w) ms -> Forall (servable w') ms.
Proof. intros Hst Hf. eapply list.Forall_impl; [exact Hf|]. intros m [? ?]. split; [done|by eapply still_fits]. Qed.

Lemma server_delivers l rqs : framed l rqs -> forall p w ms,
  pts (w_mem w) p l -> (forall a, p <= a < p + zlen l -> away w a) ->
  streams w ms -> mState (w_sock w) = CONNECTED -> Forall (servable w) rqs -> (length rqs <= free_buffers w)%nat ->
  exists w', delivers (p + zlen l) p rqs w w' /\ still w w' /\ streams w' (ms ++ map (answer serve) rqs) /\
    (free_buffers w <= free_buffers w' + length rqs)%nat.
Proof using SV Hpost.
  induction 1 as [|m pad l rqs Hm Hlen Hl IH]; intros p w ms Hp Ha Hs Hc Hsv Hfree.
  { exists w. rewrite app_nil_r. split_and!; [constructor|apply still_refl|done|simpl; lia]. }
  apply list.Forall_cons in Hsv as [[Hwf Hft] Hsv]. cbn [length] in Hfree. rewrite zlen_app, Hlen in Ha |- *.
  pose proof (frame_len_bounds m). pose proof (zlen_nonneg l). pose proof (zlen_nonneg (msg_body m)).
  apply pts_app in Hp as [Hp Hp2]. rewrite Hlen in Hp2. apply pts_app in Hp as [_ Hp]. rewrite zlen_header in Hp. apply pts_app in Hp as [Hp _].
  destruct (service_answers w ms m (p + 16) Hpost Hs Hc Hm Hwf Hft) as (r & w1 & Hrun & Hr & Hst & Hs1 & Hf1); [lia|done|intros a Hin; apply Ha; lia|].
  destruct (IH (p + frame_len m) w1 (ms ++ [answer serve m])) as (w' & Hd & Hst' & Hs' & Hf').
  - eapply pts_still; [done| |done]. intros a Hin. apply Ha. lia.
  - intros a Hin. pose proof Hst as (_ & _ & _ & Hd & _). unfold away. rewrite Hd. apply Ha. lia.
  - done.
  - destruct Hst as (_ & -> & _). done.
  - by eapply servable_still.
  - lia.
  - exists w'. split_and!; [|by eapply still_trans| |cbn [length]; lia].
    + econstructor; [exact Hrun|done| |by rewrite Z.add_assoc]. intros a Hin. destruct Hst as (_ & _ & _ & _ & Hm').
      apply Hm', Ha. lia.
    + cbn [map]. by rewrite <-app_assoc in Hs'.
Qed.

(** A payload that arrives at the server: its requests are answered. *)
Lemma server_receives p l rqs w ms :
  framed l rqs -> room w p (zlen l) -> streams w ms -> mState (w_sock w) = CONNECTED ->
  Forall (servable w) rqs -> (length rqs <= free_buffers w)%nat ->
  exists w', receive p l w = Ok tt w' /\ streams w' (ms ++ map (answer serve) rqs) /\ mState (w_sock w') = CONNECTED /\
    (free_buffers w <= free_buffers w' + length rqs)%nat /\
    (forall ps ls, rooms w ps ls -> rooms w' ps ls) /\ (forall m, servable w m -> servable w' m).
Proof using SV Hpost.
  intros Hf Hr Hs Hc Hsv Hfree. pose proof Hr as (Hmap & Ha & H0 & H8 & Hb).
  destruct (server_delivers l rqs Hf p (arrived p l w) ms) as (w' & Hd & Hst & Hs' & Hf'); try done.
  - rewrite w_mem_arrived. apply pts_upd_same.
  - by apply streams_arrived.
  - exists w'. split; [by eapply receive_run|]. pose proof Hst as (_ & Hst1 & _). split_and!; try done.
    + by rewrite Hst1.
    + intros ps ls Hrs. eapply rooms_still; [exact Hst|]. eapply Forall2_impl; [|exact Hrs]. intros q pl ((o & Ho & Hon) & Hrest).
      split; [|exact Hrest]. rewrite w_mem_arrived. apply mapped_overwrite; [by exists o|apply zlen_nonneg].
    + intros m [? ?]. split; [done|]. by eapply still_fits.
Qed.

Lemma server_receives_all ls batches : Forall2 framed ls batches -> forall ps w ms,
  rooms w ps ls -> streams w ms -> mState (w_sock w) = CONNECTED ->
  Forall (servable w) (concat batches) -> (length (concat batches) <= free_buffers w)%nat ->
  exists w', receive_all ps ls w = Ok tt w' /\ streams w' (ms ++ map (answer serve) (concat batches)) /\
    mState (w_sock w') = CONNECTED.
Proof using SV Hpost.
  induction 1 as [|l b ls batches Hf _ IH]; intros ps w ms Hr Hs Hc Hsv Hfree.
  { exists w. rewrite app_nil_r. by destruct ps. }
  apply Forall2_cons_inv_r in Hr as (p & ps' & Hr & Hrs & ->). cbn [concat] in *. apply list.Forall_app in Hsv as [Hsv1 Hsv2].
  rewrite length_app in Hfree.
  destruct (server_receives p l b w ms Hf Hr Hs Hc Hsv1) as (w1 & Hrun & Hs1 & Hc1 & Hf1 & Hr1 & Hsv'); [lia|].
  destruct (IH ps' w1 (ms ++ map (answer serve) b)) as (w' & Hrun' & Hs' & Hc'); [by apply Hr1|done|done| |lia|].
  { eapply list.Forall_impl; [exact Hsv2|]. apply Hsv'. }
  exists w'. cbn [receive_all]. unfold bind. rewrite Hrun. split_and!; [done| |done]. by rewrite map_app, app_assoc.
Qed.
End Server.

(** A server application that computes its answers with [serve]. *)
Section Concrete.
Context {V : Type} {VV : Verbs} (serve : Z -> list Z -> reply).

Definition serving : RequestHandler V := {|
  onRequest := fun id ty r =>
    let! body := in_mem (load_bytes (Z.to_nat (rEnd r - rPos r)) (rPos r)) in
    do! match serve ty body with
        | Reply ty body => writeResponse id ty (zlen body) (put_body body no_error)
        | Failure e => writeErrorResponse id e
        end in
    ret r
|}.

Lemma takes_put_error e b ec : takes 0 (put_error (V := V) e b ec).
Proof. unfold put_error. repeat takes_step. Qed.

(** Either way the reply is written as an internal response. *)
Lemma reply_written (w : world (server V)) ms id r f :
  (forall l wr, ibv_post_send l wr = 0) -> streams w ms -> 0 <= id < 2 ^ 64 -> reply_wf r -> fits w (reply_body r) ->
  (0 < free_buffers w)%nat -> writes_body f (reply_body r) no_error -> (forall b e, takes 0 (f b e)) ->
  exists w', writeInternalResponse id (reply_type r) (zlen (reply_body r)) f w = Ok true w' /\
    keeps w w' /\ streams w' (ms ++ [reply_msg id r]) /\ (free_buffers w <= free_buffers w' + 1)%nat.
Proof.
  intros Hpost Hs Hid Hr Hft Hfree Hf Ht.
  destruct (write_succeeds w ms (reply_msg id r) f Hpost Hs (reply_msg_wf id r Hid Hr) Hf Ht Hft Hfree) as (w' & Hrun & Hk & Hs' & Hf').
  exists w'. cbn [reply_msg msg_id msg_type msg_body] in Hrun. unfold writeInternalResponse, bind. by rewrite Hrun.
Qed.

#[global] Instance serving_service : Service serving serve.
Proof.
  constructor. intros w ms m p Hpost Hs Hc Hm Hr Hft Hfree Hp Ha. cbn [onRequest serving rPos rEnd]. unfold bind at 1.
  replace (p + zlen (msg_body m) - p) with (zlen (msg_body m)) by lia.
  replace (Z.to_nat (zlen (msg_body m))) with (length (msg_body m)) by (unfold zlen; lia).
  rewrite (in_mem_id (load_bytes (length (msg_body m)) p) w (msg_body m)) by (by apply load_bytes_ok).
  pose proof (zlen_nonneg (msg_body m)). pose proof Hm as (Hid & _ & _). unfold answer in *.
  assert (exists w', match serve (msg_type m) (msg_body m) with
      | Reply ty body => writeResponse (msg_id m) ty (zlen body) (put_body body no_error)
      | Failure e => writeErrorResponse (msg_id m) e
      end w = Ok true w' /\ keeps w w' /\ streams w' (ms ++ [reply_msg (msg_id m) (serve (msg_type m) (msg_body m))]) /\
      (free_buffers w <= free_buffers w' + 1)%nat) as (w' & Hrun & Hk & Hs' & Hf').
  { destruct (serve (msg_type m) (msg_body m)) as [ty body|e] eqn:Es.
    - destruct (reply_written w ms (msg_id m) (Reply ty body) (put_body body no_error)) as (w' & Hrun & Hrest);
        try done; [apply put_body_writes|intros; apply takes_put_body|].
      exists w'. split; [|exact Hrest]. unfold writeResponse, bind, massert. cbn [reply_type reply_body] in Hrun.
      rewrite (proj2 (Z.eqb_neq _ _)); [done|]. cbn in Hr. unfold ERROR_MESSAGE in *. lia.
    - destruct (reply_written w ms (msg_id m) (Failure e) (put_error e)) as (w' & Hrun & Hrest);
        try done; [apply put_error_writes|intros; apply takes_put_error|].
      exists w'. split; [|exact Hrest]. unfold writeErrorResponse. cbn [reply_type reply_body] in Hrun.
      exact Hrun. }
  exists (BufferReader p (p + zlen (msg_body m))), w'. unfold bind. rewrite Hrun. split_and!; [done|cbn; lia|by apply keeps_still|done|done].
Qed.
End Concrete.

(** ** The client sends *)

(** A request of a fiber: the class of its response, its type and its body. *)
Record call := Call { c_kind : nat; c_type : Z; c_body : list Z }.

Definition call_wf (c : call) : Prop := 0 <= c_type c < ERROR_MESSAGE /\ HEADER_SIZE + zlen (c_body c) < 2 ^ 32.

(** The fiber sends all its requests before it waits for the first reply. *)
Fixpoint pipeline {R} (i : nat) (calls : list call) (next : prog R) : prog R :=
  match calls with
  | [] => next
  | c :: calls => NewResponse (c_kind c) (SendRequest i (c_type c) (c_body c) no_error (fun _ => pipeline (S i) calls next))
  end.

(** The ids and messages of the requests; [u] is [mUserId] before them. *)
Fixpoint request_ids (u : Z) (calls : list call) : list Z :=
  match calls with [] => [] | _ :: calls => u32 (u + 1) :: request_ids (u32 (u + 1)) calls end.
Fixpoint request_msgs (u : Z) (calls : list call) : list msg :=
  match calls with
  | [] => []
  | c :: calls => Msg (messageId_build (u32 (u + 1)) false) (c_type c) (c_body c) :: request_msgs (u32 (u + 1)) calls
  end.

Section Client.
Context {R : Type} {VV : Verbs} {RHr : ResponseHandler R}.
Hypothesis Hpost : forall l wr, ibv_post_send l wr = 0.
Implicit Types (w : world (client R)).

Lemma pipeline_wf (next : prog R) calls : forall st, Forall call_wf calls ->
  wf_prog (st ++ replicate (length calls) false) next -> wf_prog st (pipeline (length st) calls next).
Proof.
  induction calls as [|c calls IH]; intros st Hc Hn; cbn [pipeline].
  { by rewrite app_nil_r in Hn. }
  apply list.Forall_cons in Hc as [[Hty Hlen] Hc]. cbn [wf_prog]. split_and!; try lia.
  - rewrite lookup_app_r by lia. by rewrite Nat.sub_diag.
  - intros _. rewrite insert_app_r_alt by lia. rewrite Nat.sub_diag. cbn [list_insert insert].
    change (<[0%nat := false]> [true]) with [false]. replace (S (length st)) with (length (st ++ [false])) by (rewrite length_app; simpl; lia).
    apply IH; [done|]. rewrite <-app_assoc. exact Hn.
Qed.

(** One request on a connected socket. *)
Lemma sendRequest_succeeds res w ms r ty body :
  streams w ms -> mState (w_sock w) = CONNECTED -> 0 <= ty < 2 ^ 32 -> HEADER_SIZE + zlen body < 2 ^ 32 ->
  fits w body -> (0 < free_buffers w)%nat ->
  let u := u32 (mUserId (w_user w) + 1) in
  exists w', sendRequest res r ty body no_error w = Ok true w' /\
    streams w' (ms ++ [Msg (messageId_build u false) ty body]) /\ still w w' /\ (free_buffers w <= free_buffers w' + 1)%nat /\
    w_user w' = set_sync (mSyncResponses (w_user w) ++ [(u, r)]) (set_userId u (w_user w)).
Proof using Hpost.
  intros Hs Hc Hty Hlen Hft Hfree u. unfold sendRequest, bind, sock, isConnected. rewrite bool_decide_true by done. cbn [negb].
  unfold cmod, cl. cbn [w_user w_sock w_net w_tasks mUserId set_userId]. fold u.
  set (w0 := World (w_net w) (w_sock w) (w_tasks w) (set_userId u (w_user w))).
  assert (0 <= u < 2 ^ 32) as Hu by (apply wrap_range; lia). destruct (messageId_roundtrip u false Hu) as (Hid & _ & _).
  destruct (write_succeeds w0 ms (Msg (messageId_build u false) ty body) (put_body body no_error) Hpost) as (w1 & Hrun & Hk & Hs1 & Hf1);
    [done|unfold msg_wf; cbn [msg_id msg_type msg_body]; split_and!; (done || lia)|apply put_body_writes|intros; apply takes_put_body|done|done|].
  cbn [msg_id msg_type msg_body] in Hrun. rewrite Hrun. change (ec_bool no_error) with false. cbv iota.
  pose proof Hk as (_ & _ & Hk' & _). eexists. split; [done|]. rewrite Hk'. split_and!; [done| |done|done].
  apply keeps_still in Hk. exact Hk.
Qed.

(** The responses the fiber makes. *)
Definition fresh_responses (f : nat) (calls : list call) : list (response R) :=
  map (fun c => Response f (c_kind c) true false UNSET false) calls.

Definition sent_entries (u : Z) (r0 : nat) (calls : list call) : list (Z * nat) := zip (request_ids u calls) (seq r0 (length calls)).

(** The client's state after the requests [calls] of fiber [f]. *)
Record sent_calls (f : nat) (hs : list nat) (calls : list call) w w' : Prop := {
  sc_still : still w w';
  sc_fiber : fibers (w_user w') !! f = Some (Fiber Running (hs ++ seq (length (responses (w_user w))) (length calls)));
  sc_responses : responses (w_user w') = responses (w_user w) ++ fresh_responses f calls;
  sc_sync : mSyncResponses (w_user w') = mSyncResponses (w_user w) ++
    sent_entries (mUserId (w_user w)) (length (responses (w_user w))) calls;
  sc_max : mMaxPendingResponses (w_user w') = mMaxPendingResponses (w_user w)
}.

Lemma pipeline_run res f (next : prog R) calls : forall w ms hs,
  fibers (w_user w) !! f = Some (Fiber Running hs) -> streams w ms -> mState (w_sock w) = CONNECTED ->
  Forall call_wf calls -> Forall (fun c => fits w (c_body c)) calls -> (length calls <= free_buffers w)%nat ->
  zlen (mSyncResponses (w_user w)) + zlen calls <= mMaxPendingResponses (w_user w) ->
  exists w', run res f (pipeline (length hs) calls next) w = run res f next w' /\
    streams w' (ms ++ request_msgs (mUserId (w_user w)) calls) /\ sent_calls f hs calls w w'.
Proof using Hpost.
  induction calls as [|c calls IH]; intros w ms hs Hf Hs Hc Hwf Hft Hfree Hmax.
  { exists w. rewrite !app_nil_r. split_and!; [done|done|]. constructor; [apply still_refl|by rewrite app_nil_r..|done]. }
  apply list.Forall_cons in Hwf as [[Hty Hlen] Hwf]. apply list.Forall_cons in Hft as [Hft1 Hft]. cbn [length] in Hfree.
  rewrite zlen_cons in Hmax. pose proof (zlen_nonneg calls). cbn [pipeline run]. unfold bind at 1.
  rewrite (newResponse_run f (c_kind c) w hs Hf). unfold with_user. set (r := length (responses (w_user w))). set (w1 := World _ _ _ _).
  assert (fibers (w_user w1) !! f = Some (Fiber Running (hs ++ [r]))) as Hf1 by (apply list_lookup_insert_eq; by eapply lookup_lt_Some).
  unfold bind at 1, massert. rewrite (proj2 (Z.eqb_neq _ _)) by lia. cbn [negb]. unfold ret at 1.
  unfold bind at 1. rewrite (handle_run f (length hs) w1 (hs ++ [r]) r Running Hf1) by (rewrite lookup_app_r by lia; by rewrite Nat.sub_diag).
  assert (ready w1 = Ok true w1) as Hready.
  { unfold ready. f_equal. change (w_sock w1) with (w_sock w). rewrite Hc. cbn. apply Z.ltb_lt. lia. }
  unfold bind at 1. rewrite Hready.
  destruct (sendRequest_succeeds res w1 ms r (c_type c) (c_body c)) as (w2 & Hrun & Hs2 & Hst2 & Hf2 & Hu2); try done;
    [unfold ERROR_MESSAGE in *; lia|change (free_buffers w1) with (free_buffers w); lia|].
  unfold bind at 1. rewrite Hrun. change (mUserId (w_user w1)) with (mUserId (w_user w)) in *.
  assert (still w w2) as Hst by exact Hst2. change (free_buffers w1) with (free_buffers w) in Hf2.
  assert (responses (w_user w2) = responses (w_user w) ++ [Response f (c_kind c) true false UNSET false]) as Hresp by (by rewrite Hu2).
  assert (length (responses (w_user w2)) = S r) as Hlr by (rewrite Hresp, length_app; cbn; lia).
  assert (mSyncResponses (w_user w2) = mSyncResponses (w_user w) ++ [(u32 (mUserId (w_user w) + 1), r)]) as Hsync by (by rewrite Hu2).
  assert (mUserId (w_user w2) = u32 (mUserId (w_user w) + 1)) as Huid by (by rewrite Hu2).
  destruct (IH w2 (ms ++ [Msg (messageId_build (u32 (mUserId (w_user w) + 1)) false) (c_type c) (c_body c)]) (hs ++ [r]))
    as (w' & Hrun' & Hs' & [Hst' Hfib Hre Hsy Hmx]).
  - rewrite Hu2. exact Hf1.
  - exact Hs2.
  - destruct Hst as (_ & -> & _). done.
  - done.
  - eapply list.Forall_impl; [exact Hft|]. intros c' Hc'. by eapply still_fits.
  - lia.
  - rewrite Hsync, zlen_app. change (zlen [(u32 (mUserId (w_user w) + 1), r)]) with 1.
    assert (mMaxPendingResponses (w_user w2) = mMaxPendingResponses (w_user w)) as -> by (by rewrite Hu2). lia.
  - rewrite length_app in Hrun'. replace (length hs + length [r])%nat with (S (length hs)) in Hrun' by (simpl; lia).
    exists w'. split; [exact Hrun'|]. rewrite Huid, Hlr in *. split.
    { cbn [request_msgs]. by rewrite <-app_assoc in Hs'. }
    constructor.
    + by eapply still_trans.
    + rewrite Hfib. rewrite <-app_assoc. done.
    + rewrite Hre, Hresp, <-app_assoc. done.
    + rewrite Hsy, Hsync, <-app_assoc. done.
    + rewrite Hmx, Hu2. done.
Qed.

(** The fiber waits for its first reply. *)
Lemma get_waits res f i r (k : R + exn -> prog R) w hs x :
  fibers (w_user w) !! f = Some (Fiber Running hs) -> hs !! i = Some r -> responses (w_user w) !! r = Some x ->
  mPending x = true -> mWaiting x = false -> mFiber x = f ->
  exists w', run res f (Get i k) w = Ok tt w' /\ w_net w' = w_net w /\ w_sock w' = w_sock w /\ w_tasks w' = w_tasks w /\
    mSyncResponses (w_user w') = mSyncResponses (w_user w) /\
    responses (w_user w') = alter (r_waiting true) r (responses (w_user w)).
Proof.
  intros Hf Hi Hx Hp Hw Hfb. cbn [run]. unfold bind at 1. rewrite (handle_run f i w hs r Running Hf Hi).
  unfold bind at 1. rewrite (get_response_run _ _ _ Hx), Hp. unfold wait_response, bind.
  rewrite (get_response_run _ _ _ Hx), Hw, Hfb. rewrite bool_decide_true by done. cbn [negb andb massert].
  eexists. split; [reflexivity|]. done.
Qed.

Lemma client_calls d f calls (k : R + exn -> prog R) w ms hs :
  winv w [] [] -> quiet (w_user w) -> fibers (w_user w) !! f = Some (Fiber Empty hs) -> streams w ms -> mState (w_sock w) = CONNECTED ->
  calls <> [] -> Forall call_wf calls -> Forall (fun c => fits w (c_body c)) calls -> (length calls <= free_buffers w)%nat ->
  zlen (mSyncResponses (w_user w)) + zlen calls <= mMaxPendingResponses (w_user w) ->
  (forall v, wf_prog (replicate (length calls) false) (k v)) ->
  exists w', execute d f (pipeline 0 calls (Get 0 k)) w = Ok tt w' /\ winv w' [] [] /\ quiet (w_user w') /\
    streams w' (ms ++ request_msgs (mUserId (w_user w)) calls) /\ mState (w_sock w') = CONNECTED /\
    mSyncResponses (w_user w') = mSyncResponses (w_user w) ++
      sent_entries (mUserId (w_user w)) (length (responses (w_user w))) calls /\
    (forall i c, calls !! i = Some c ->
       exists x, responses (w_user w') !! (length (responses (w_user w)) + i)%nat = Some x /\ kind x = c_kind c).
Proof using Hpost.
  intros HI Hq Hf Hs Hc Hne Hwf Hft Hfree Hmax Hk.
  destruct (execute_ok d f (pipeline 0 calls (Get 0 k)) w hs HI Hq Hf) as (we & Hex & HIe & _ & Hqe).
  { apply (pipeline_wf (Get 0 k) calls []); [done|]. cbn. split; [|done]. by destruct calls. }
  exists we. split_and!; [done..| | | |]; revert Hex; unfold execute, bind at 1; rewrite (get_fiber_run _ _ _ Hf); cbn [f_status];
    unfold bind at 1, cmod; set (w0 := World _ _ _ _).
  all: destruct (pipeline_run (resume d) f (Get 0 k) calls w0 ms []) as (w1 & Hrun & Hs1 & [Hst Hfib Hre Hsy Hmx]); try done;
    [apply list_lookup_insert_eq; by eapply lookup_lt_Some|].
  all: change (responses (w_user w0)) with (responses (w_user w)) in *; change (mUserId (w_user w0)) with (mUserId (w_user w)) in *;
    change (mSyncResponses (w_user w0)) with (mSyncResponses (w_user w)) in *.
  all: change (length []) with O in Hrun; rewrite Hrun; destruct calls as [|c0 calls]; [done|].
  all: destruct (get_waits (resume d) f 0 (length (responses (w_user w))) k w1 _ (Response f (c_kind c0) true false UNSET false) Hfib)
    as (w2 & -> & Hn2 & Hsk2 & Ht2 & Hsy2 & Hre2); try done;
    [rewrite Hre, lookup_app_r by lia; by rewrite Nat.sub_diag|].
  all: intros Hex; simplify_eq.
  - destruct Hs1 as (sent & pend & HI1 & Hms). exists sent, pend. split; [|done]. unfold Inv, buffer_ok, w_mem in *. by rewrite Hn2, Hsk2, Ht2.
  - rewrite Hsk2. destruct Hst as (_ & -> & _). done.
  - by rewrite Hsy2, Hsy.
  - intros i c Hi. rewrite Hre2, Hre. set (n0 := length (responses (w_user w))).
    assert ((responses (w_user w) ++ fresh_responses f (c0 :: calls)) !! (n0 + i)%nat = Some (Response f (c_kind c) true false UNSET false)) as Hx.
    { rewrite lookup_app_r by lia. replace (n0 + i - length (responses (w_user w)))%nat with i by lia.
      unfold fresh_responses. rewrite list_lookup_fmap, Hi. done. }
    destruct (decide (n0 + i = n0)%nat) as [E|E].
    + rewrite E in *. rewrite list_lookup_alter_eq, Hx. by eexists.
    + rewrite list_lookup_alter_ne by lia. rewrite Hx. by eexists.
Qed.
End Client.

(** ** The flush and the derived class *)

Section User.
Context {U : Type} {VV : Verbs}.

(** The state of the derived class is left alone. *)
Definition user_kept {A} (x : St (world U) A) : Prop := forall w a w', x w = Ok a w' -> w_user w' = w_user w.

Lemma user_bind {A B} (x : St (world U) A) (f : A -> St (world U) B) : user_kept x -> (forall a, user_kept (f a)) -> user_kept (bind x f).
Proof.
  intros Hx Hf w b w'. unfold bind. destruct (x w) as [a w1| | |] eqn:E; try done. intros Hr.
  rewrite (Hf a w1 b w' Hr). by eapply Hx.
Qed.
Lemma user_ret {A} (a : A) : user_kept (ret a).
Proof. intros w b w' Hr. unfold ret in Hr. by simplify_eq. Qed.
Lemma user_throw {A} e : user_kept (throw e : St (world U) A).
Proof. by intros w b w' Hr. Qed.
Lemma user_sock : user_kept (sock (U := U)).
Proof. intros w b w' Hr. unfold sock in Hr. by simplify_eq. Qed.
Lemma user_smod f : user_kept (smod (U := U) f).
Proof. intros w b w' Hr. unfold smod in Hr. by simplify_eq. Qed.
Lemma user_on_net {A} (x : St net A) : user_kept (on_net (U := U) x).
Proof. intros w b w' Hr. unfold on_net in Hr. destruct (x (w_net w)); try done. by simplify_eq. Qed.
Lemma user_assert b : user_kept (massert b : St (world U) unit).
Proof. unfold massert. destruct b; [apply user_ret|by intros ? ? ?]. Qed.
Lemma user_disconnect : user_kept (catch_system (on_net (U := U) socket_disconnect)).
Proof.
  intros w b w'. unfold catch_system, on_net. destruct (socket_disconnect (w_net w)) as [| [] | |]; intros; by simplify_eq.
Qed.
#[local] Hint Resolve user_ret user_throw user_sock user_smod user_on_net user_assert user_disconnect : user.

Ltac user_step := first [ solve [auto with user] | apply user_bind; [|intros ?] | case_match ].

Lemma flush_keeps_user w a w' : run_flush (U := U) w = Ok a w' -> w_user w' = w_user w.
Proof.
  unfold run_flush. destruct (w_tasks w); [by intros; simplify_eq|]. intros Hr.
  assert (user_kept (flush_task (U := U))) as Hk; [|by rewrite (Hk _ _ _ Hr)].
  unfold flush_task, sendCurrentBuffer, handleSocketError, bshutdown, assign_writer, in_mem. repeat user_step.
Qed.
End User.

(** ** The client receives *)

(** What the client relies on: [processResponse] of class [k] reads [parse k body] from a message
    with this body and leaves the reader at [after k p body]. *)
Class Decoder {R : Type} (RHr : ResponseHandler R) (parse : nat -> list Z -> action R) (after : nat -> Z -> list Z -> buffer_reader) : Prop := {
  decodes k m p body : pts m p body ->
    processResponse k (BufferReader p (p + zlen body)) m = Ok (after k p body, parse k body) m;
  decodes_inside k p body : rPos (after k p body) <= rEnd (after k p body)
}.

(** A request whose reply is still to come. *)
Record expect := Expect { e_id : Z; e_response : nat; e_kind : nat }.

Section Replies.
Context {R : Type} {VV : Verbs} {RHr : ResponseHandler R} {DM : DenseHashMap}.
Context (parse : nat -> list Z -> action R) (after : nat -> Z -> list Z -> buffer_reader) {DC : Decoder RHr parse after}.
Context (d n : nat).
#[local] Instance client_handler : MessageHandler (client R) := rpc_client_handler (S d) (S n).
Implicit Types (w : world (client R)).

(** The result a reply gives a response of class [k]. *)
Definition reply_result (k : nat) (r : reply) : RpcResult R :=
  match r with
  | Failure e => ERROR (ErrorCode e user_category)
  | Reply ty body => if ty =? MessageType k then action_result (parse k body) else ERROR (rpc_error_code wrong_type)
  end.

Definition expects w (l : list expect) : Prop :=
  winv w [] [] /\ quiet (w_user w) /\
  (exists new, mSyncResponses (w_user w) = map (fun e => (e_id e, e_response e)) l ++ new) /\
  Forall (fun e => 0 <= e_id e < 2 ^ 32 /\ exists x, responses (w_user w) !! e_response e = Some x /\ kind x = e_kind e) l.

Lemma reply_meaning w k r p : reply_wf r -> pts (w_mem w) p (reply_body r) ->
  (forall a, p <= a < p + zlen (reply_body r) -> away w a) ->
  exists message', means w k (reply_type r) (BufferReader p (p + zlen (reply_body r))) (reply_result k r) message' /\
    rPos message' <= rEnd message'.
Proof using DC.
  intros Hr Hp Ha.
  assert (forall m, (forall a, outside w a -> bytes m !! a = bytes (w_mem w) !! a) -> pts m p (reply_body r)) as Hm.
  { intros m Hm i x Hi. pose proof (lookup_lt_Some _ _ _ Hi). rewrite Hm; [by apply Hp|]. apply Ha. unfold zlen. lia. }
  destruct r as [ty body|e]; cbn [reply_type reply_body reply_result reply_wf] in *.
  - destruct (ty =? MessageType k) eqn:Et.
    + exists (after k p body). split; [|apply decodes_inside]. intros m Hmm. rewrite (proj2 (Z.eqb_neq ty ERROR_MESSAGE)) by lia.
      rewrite Et. cbn [negb]. exists (parse k body). split; [|done]. apply decodes. by apply Hm.
    + exists (BufferReader p (p + zlen body)). split; [|cbn; pose proof (zlen_nonneg body); lia].
      intros m Hmm. rewrite (proj2 (Z.eqb_neq ty ERROR_MESSAGE)) by lia. by rewrite Et.
  - assert (zlen (le_bytes 8 (u64 e)) = 8) as Hz by (unfold zlen; by rewrite length_le_bytes). rewrite Hz in *.
    exists (BufferReader (p + 8) (p + 8)). split; [|cbn; lia]. intros m Hmm. rewrite Z.eqb_refl. exists (u64 e).
    split; [|by rewrite error_number]. rewrite (reader_read_ok 8 m p (p + 8) (le_bytes 8 (u64 e))); [|by apply Hm|done].
    rewrite le_val_bytes_small; [done|]. apply wrap_range. lia.
Qed.

(** The fields of a frame that a later message needs. *)
Lemma expects_later w w' l : frame w w' -> 
  Forall (fun e => 0 <= e_id e < 2 ^ 32 /\ exists x, responses (w_user w) !! e_response e = Some x /\ kind x = e_kind e) l ->
  Forall (fun e => 0 <= e_id e < 2 ^ 32 /\ exists x, responses (w_user w') !! e_response e = Some x /\ kind x = e_kind e) l.
Proof.
  intros (_ & _ & _ & _ & _ & Hr) Hl. eapply list.Forall_impl; [exact Hl|]. intros e (He & x & Hx & Hk). split; [done|].
  destruct (Hr _ _ Hx) as (x' & Hx' & _ & Hk' & _). exists x'. split; [done|congruence].
Qed.

(** The reply to the request at the front. *)
Lemma client_message w e l r p : expects w (e :: l) -> reply_wf r -> pts (w_mem w) p (reply_body r) ->
  (forall a, p <= a < p + zlen (reply_body r) -> away w a) ->
  exists m' w', onMessage (messageId_build (e_id e) false) (reply_type r) (BufferReader p (p + zlen (reply_body r))) w = Ok m' w' /\
    rPos m' <= rEnd m' /\ frame w w' /\ expects w' l /\ answered (w_user w') (e_response e) (reply_result (e_kind e) r).
Proof using DC.
  intros (HI & Hq & (new & Hsync) & Hall) Hr Hp Ha. apply list.Forall_cons in Hall as [(Hid & x & Hx & Hk) Hall].
  destruct (reply_meaning w (e_kind e) r p Hr Hp Ha) as (m' & Hme & Hin). rewrite <-Hk in Hme.
  destruct (reply_loop d (e_id e) (reply_type r) (BufferReader p (p + zlen (reply_body r))) (e_response e) (reply_result (kind x) r) m' [] (S n) w
    (map (fun e => (e_id e, e_response e)) l ++ new) x HI Hq)
    as (w' & Hrun & HI' & Hq' & Hf & _ & Hans & new' & Hsync'); try done; [cbn; lia|].
  exists m', w'. cbn [onMessage client_handler rpc_client_handler]. unfold client_onMessage.
  destruct (messageId_roundtrip (e_id e) false Hid) as (_ & -> & ->). split_and!; try done; [|by rewrite <-Hk].
  split_and!; try done; [|by eapply expects_later]. exists (new ++ new'). by rewrite Hsync', <-app_assoc.
Qed.

(** The replies to the requests [l], in their order. *)
Definition reply_to (er : expect * reply) : msg := reply_msg (messageId_build (e_id er.1) false) er.2.

Definition all_answered w (ers : list (expect * reply)) : Prop :=
  Forall (fun er => answered (w_user w) (e_response er.1) (reply_result (e_kind er.1) er.2)) ers.

Lemma all_answered_frame w w' ers : frame w w' -> all_answered w ers -> all_answered w' ers.
Proof. intros Hf Hl. eapply list.Forall_impl; [exact Hl|]. intros er. by apply answered_frame. Qed.

Lemma client_delivers ers : forall l p w rest, framed l (map reply_to ers) ->
  pts (w_mem w) p l -> (forall a, p <= a < p + zlen l -> away w a) ->
  expects w (map fst ers ++ rest) -> Forall reply_wf (map snd ers) ->
  exists w', delivers (p + zlen l) p (map reply_to ers) w w' /\ frame w w' /\ expects w' rest /\ all_answered w' ers.
Proof using DC.
  induction ers as [|[e r] ers IH]; intros l p w rest Hf Hp Ha He Hr; cbn [map fst snd app] in *.
  { exists w. split_and!; [constructor|apply frame_refl|done|constructor]. }
  inversion Hf as [|m pad l' ms Hm Hlen Hl]; subst. apply list.Forall_cons in Hr as [Hr Hrs].
  rewrite zlen_app, Hlen in Ha |- *. set (m := reply_to (e, r)) in *.
  pose proof (frame_len_bounds m). pose proof (zlen_nonneg l'). pose proof (zlen_nonneg (msg_body m)).
  apply pts_app in Hp as [Hp Hp2]. rewrite Hlen in Hp2. apply pts_app in Hp as [_ Hp]. rewrite zlen_header in Hp. apply pts_app in Hp as [Hp _].
  destruct (client_message w e (map fst ers ++ rest) r (p + 16) He Hr Hp) as (m' & w1 & Hrun & Hin & Hf1 & He1 & Ha1).
  { intros a Hin. apply Ha. change (reply_body r) with (msg_body m) in Hin. lia. }
  pose proof Hf1 as (_ & Hd & Hmem & _).
  destruct (IH l' (p + frame_len m) w1 rest Hl) as (w' & Hdel & Hf' & He' & Ha'); [| |done|done|].
  - intros i x Hi. pose proof (lookup_lt_Some _ _ _ Hi). rewrite Hmem; [by apply Hp2|]. apply Ha. unfold zlen. lia.
  - intros a Hin'. unfold away. rewrite Hd. apply Ha. lia.
  - exists w'. split_and!; [|by eapply frame_trans|done|].
    + econstructor; [exact Hrun|exact Hin| |by rewrite Z.add_assoc]. intros a Hin'. apply Hmem, Ha. lia.
    + constructor; [|done]. by eapply answered_frame.
Qed.

Lemma expects_arrived w p l es : room w p (zlen l) -> expects w es -> expects (arrived p l w) es.
Proof.
  intros Hr ([(sent & pend & HI) Hc] & Hrest). split; [|exact Hrest]. split; [|exact Hc].
  destruct (streams_arrived p l w (concat sent ++ pend) Hr) as (sent' & pend' & HI' & _); [by exists sent, pend|]. by exists sent', pend'.
Qed.

Lemma frame_rooms w w' ps ls : frame w w' -> rooms w ps ls -> rooms w' ps ls.
Proof.
  intros (_ & Hd & Hmem & _) Hr. eapply Forall2_impl; [|exact Hr]. intros q pl ((o & Ho & Hon) & Ha & Hrest).
  split; [|split; [|exact Hrest]].
  - exists o. split; [|done]. intros i x Hi. pose proof (lookup_lt_Some _ _ _ Hi). rewrite Hmem; [by apply Ho|]. apply Ha. unfold zlen in *. lia.
  - intros a Hin. unfold away. rewrite Hd. by apply Ha.
Qed.

Lemma rooms_arrived w p l ps ls : rooms w ps ls -> rooms (arrived p l w) ps ls.
Proof.
  intros Hr. eapply Forall2_impl; [|exact Hr]. intros q pl (Hm & Hrest). split; [|exact Hrest].
  rewrite w_mem_arrived. apply mapped_overwrite; [done|apply zlen_nonneg].
Qed.

Lemma client_receives p l ers w rest :
  framed l (map reply_to ers) -> room w p (zlen l) -> expects w (map fst ers ++ rest) -> Forall reply_wf (map snd ers) ->
  exists w', receive p l w = Ok tt w' /\ expects w' rest /\ all_answered w' ers /\
    (forall ps ls, rooms w ps ls -> rooms w' ps ls) /\ (forall ers', all_answered w ers' -> all_answered w' ers').
Proof using DC.
  intros Hf Hr He Hwf. pose proof Hr as (Hmap & Ha & H0 & H8 & Hb).
  destruct (client_delivers ers l p (arrived p l w) rest Hf) as (w' & Hd & Hfr & He' & Ha'); try done.
  - rewrite w_mem_arrived. apply pts_upd_same.
  - by apply expects_arrived.
  - exists w'. split; [by eapply receive_run|]. split_and!; try done.
    + intros ps ls Hrs. eapply frame_rooms; [exact Hfr|]. by apply rooms_arrived.
    + intros ers' Hall. eapply all_answered_frame; [exact Hfr|]. exact Hall.
Qed.

Lemma map_split {A B} (g : A -> B) l1 : forall (l2 : list B) x, map g x = l1 ++ l2 ->
  exists x1 x2, x = x1 ++ x2 /\ map g x1 = l1 /\ map g x2 = l2.
Proof.
  induction l1 as [|b l1 IH]; intros l2 x Hx; [by exists [], x|]. destruct x as [|a x]; cbn in Hx; [done|].
  injection Hx as <- Hx. destruct (IH l2 x Hx) as (x1 & x2 & -> & <- & <-). by exists (a :: x1), x2.
Qed.

Lemma client_receives_all ls batches : Forall2 framed ls batches -> forall ps ers w,
  map reply_to ers = concat batches -> rooms w ps ls -> expects w (map fst ers) -> Forall reply_wf (map snd ers) ->
  exists w', receive_all ps ls w = Ok tt w' /\ expects w' [] /\ all_answered w' ers /\
    (forall ers', all_answered w ers' -> all_answered w' ers').
Proof using DC.
  induction 1 as [|l b ls batches Hf _ IH]; intros ps ers w Hers Hr He Hwf; cbn [concat] in Hers.
  { apply map_eq_nil in Hers as ->. exists w. destruct ps; (split_and!; [done|done|constructor|done]). }
  apply Forall2_cons_inv_r in Hr as (p & ps' & Hr & Hrs & ->).
  destruct (map_split reply_to b (concat batches) ers Hers) as (e1 & e2 & -> & <- & He2).
  rewrite !map_app in *. apply list.Forall_app in Hwf as [Hwf1 Hwf2].
  destruct (client_receives p l e1 w (map fst e2) Hf Hr He Hwf1) as (w1 & Hrun & He1 & Ha1 & Hr1 & Hk1).
  destruct (IH ps' e2 w1 He2) as (w' & Hrun' & He' & Ha' & Hk'); [by apply Hr1|done|done|].
  exists w'. cbn [receive_all]. unfold bind. rewrite Hrun. split_and!; [done|done| |auto].
  apply list.Forall_app. split; [by apply Hk'|done].
Qed.
End Replies.

(** ** The exchange *)

Section EndToEnd.
Context {R V : Type} {VV : Verbs} {RHr : ResponseHandler R} {DM : DenseHashMap} {RH : RequestHandler V}.
Context (parse : nat -> list Z -> action R) (after : nat -> Z -> list Z -> buffer_reader) {DC : Decoder RHr parse after}.
Context (serve : Z -> list Z -> reply) {SV : Service RH serve}.

(** The requests with their replies; [r0] is the first response. *)
Fixpoint exchange (u : Z) (r0 : nat) (calls : list call) : list (expect * reply) :=
  match calls with
  | [] => []
  | c :: calls => (Expect (u32 (u + 1)) r0 (c_kind c), serve (c_type c) (c_body c)) :: exchange (u32 (u + 1)) (S r0) calls
  end.

Lemma exchange_entries calls : forall u r0,
  map (fun e => (e_id e, e_response e)) (map fst (exchange u r0 calls)) = sent_entries u r0 calls.
Proof. unfold sent_entries. induction calls as [|c calls IH]; intros; cbn; [done|]. f_equal. apply IH. Qed.

Lemma exchange_messages calls : forall u r0, map reply_to (exchange u r0 calls) = map (answer serve) (request_msgs u calls).
Proof. induction calls as [|c calls IH]; intros; cbn; [done|]. f_equal. apply IH. Qed.

Lemma exchange_lookup calls : forall u r0 i c, calls !! i = Some c ->
  exists e, exchange u r0 calls !! i = Some (e, serve (c_type c) (c_body c)) /\ e_response e = (r0 + i)%nat /\ e_kind e = c_kind c.
Proof.
  induction calls as [|c0 calls IH]; intros u r0 i c Hi; [by rewrite lookup_nil in Hi|]. destruct i as [|i]; cbn in Hi.
  - simplify_eq. eexists. split; [done|]. cbn. lia.
  - destruct (IH (u32 (u + 1)) (S r0) i c Hi) as (e & He & Hr & Hk). exists e. split; [done|]. split; [lia|done].
Qed.

(** What the server can answer. *)
Definition answerable (ws : world (server V)) (c : call) : Prop :=
  reply_wf (serve (c_type c) (c_body c)) /\ fits ws (reply_body (serve (c_type c) (c_body c))).

Lemma requests_servable ws calls : Forall (answerable ws) calls -> forall u, Forall (servable serve ws) (request_msgs u calls).
Proof. induction 1 as [|c calls [H1 H2] _ IH]; intros u; cbn; [constructor|]. constructor; [by split|apply IH]. Qed.

Lemma request_msgs_length calls : forall u, length (request_msgs u calls) = length calls.
Proof. induction calls as [|c calls IH]; intros u; cbn; [done|]. by rewrite IH. Qed.

Lemma exchange_replies ws calls : Forall (answerable ws) calls -> forall u r0, Forall reply_wf (map snd (exchange u r0 calls)).
Proof. induction 1 as [|c calls [H1 _] _ IH]; intros u r0; cbn; [constructor|]. constructor; [done|apply IH]. Qed.

Lemma exchange_expects (w : world (client R)) calls u r0 :
  winv w [] [] -> quiet (w_user w) -> mSyncResponses (w_user w) = sent_entries u r0 calls ->
  (forall i c, calls !! i = Some c -> exists x, responses (w_user w) !! (r0 + i)%nat = Some x /\ kind x = c_kind c) ->
  expects w (map fst (exchange u r0 calls)).
Proof.
  intros HI Hq Hs Hx. split_and!; [done|done|exists []; by rewrite app_nil_r, exchange_entries|]. clear HI Hq Hs.
  revert u r0 Hx. induction calls as [|c calls IH]; intros u r0 Hx; cbn [exchange map fst]; [constructor|]. constructor.
  - split; [apply wrap_range; lia|]. destruct (Hx 0%nat c eq_refl) as (x & Hl & Hk). rewrite Nat.add_0_r in Hl. by exists x.
  - apply IH. intros i c' Hi. destruct (Hx (S i) c' Hi) as (x & Hl & Hk). exists x. split; [|done]. by rewrite <-Nat.add_succ_comm in Hl.
Qed.

Lemma Inv_streams {U : Type} (w : world U) batches : Inv w batches [] -> streams w (concat batches).
Proof. intros HI. exists batches, []. by rewrite app_nil_r. Qed.

(** C2: remote calls, end to end.  A fiber sends any number of requests through a connected client and waits;
    the flush posts them; a server whose application answers with [serve] receives the
    posted buffers, wherever the network puts them, and posts its replies; when these reach the
    client, every request of the fiber has its own answer: what its response class reads from the
    reply, the error the server reported, or [wrong_type].  Nothing throws, no assertion fails and
    no request stays behind.  Both sides have a free send buffer per request, and the verbs work. *)
Theorem rpc_end_to_end d depth n f calls (k : R + exn -> prog R) hs (wc : world (client R)) (ws : world (server V)) :
  (forall l wr, ibv_post_send l wr = 0) ->
  winv wc [] [] -> quiet (w_user wc) -> Inv wc [] [] -> mState (w_sock wc) = CONNECTED ->
  fibers (w_user wc) !! f = Some (Fiber Empty hs) -> mSyncResponses (w_user wc) = [] ->
  calls <> [] -> Forall call_wf calls -> Forall (fun c => fits wc (c_body c)) calls -> (length calls <= free_buffers wc)%nat ->
  zlen calls <= mMaxPendingResponses (w_user wc) -> (forall v, wf_prog (replicate (length calls) false) (k v)) ->
  Inv ws [] [] -> mState (w_sock ws) = CONNECTED -> Forall (answerable ws) calls -> (length calls <= free_buffers ws)%nat ->
  exists wc1, (do! execute d f (pipeline 0 calls (Get 0 k)) in run_flush) wc = Ok tt wc1 /\
  forall ps, rooms ws ps (payloads (w_net wc1)) ->
  exists ws1, (do! receive_all (HU := rpc_server_handler) ps (payloads (w_net wc1)) in run_flush) ws = Ok tt ws1 /\
  forall qs, rooms wc1 qs (payloads (w_net ws1)) ->
  exists wc2, receive_all (HU := rpc_client_handler (S depth) (S n)) qs (payloads (w_net ws1)) wc1 = Ok tt wc2 /\
    winv wc2 [] [] /\ quiet (w_user wc2) /\
    forall i c, calls !! i = Some c ->
      answered (w_user wc2) (length (responses (w_user wc)) + i) (reply_result parse (c_kind c) (serve (c_type c) (c_body c))).
Proof using DC SV.
  intros Hpost HI Hq Hinv Hc Hf Hsync Hne Hwf Hft Hfree Hmax Hk Hws Hcs Hans Hfrees.
  destruct (client_calls Hpost d f calls k wc [] hs) as (w0 & Hex & HI0 & Hq0 & Hs0 & Hc0 & Hsy0 & Hre0);
    try done; [by apply Inv_streams in Hinv|by rewrite Hsync|].
  destruct (flush_streams w0 _ Hpost Hs0 Hc0) as (wc1 & batches & Hfl & HI1 & Hb1 & Hc1 & Hfr1).
  pose proof (flush_keeps_user _ _ _ Hfl) as Hu1. exists wc1. split; [unfold bind; by rewrite Hex|]. intros ps Hps.
  set (u := mUserId (w_user wc)) in *. set (r0 := length (responses (w_user wc))) in *. cbn [app] in Hb1.
  destruct (server_receives_all serve Hpost _ _ Hfr1 ps ws []) as (w2 & Hrun2 & Hs2 & Hc2); try done.
  { by apply Inv_streams in Hws. }
  { rewrite Hb1. by apply requests_servable. }
  { by rewrite Hb1, request_msgs_length. }
  destruct (flush_streams w2 _ Hpost Hs2 Hc2) as (ws1 & batches2 & Hfl2 & HI2 & Hb2 & _ & Hfr2).
  exists ws1. split; [unfold bind; by rewrite Hrun2|]. intros qs Hqs. cbn [app] in Hb2.
  assert (winv wc1 [] []) as Hwi by (split; [by exists batches, []|]; rewrite Hu1; apply HI0).
  destruct (client_receives_all parse after depth n _ _ Hfr2 qs (exchange u r0 calls) wc1) as (wc2 & Hrun3 & (HI3 & Hq3 & _) & Ha3 & _).
  - by rewrite exchange_messages, Hb2, Hb1.
  - done.
  - apply exchange_expects; [done|by rewrite Hu1|by rewrite Hu1, Hsy0, Hsync|]. rewrite Hu1. exact Hre0.
  - by eapply exchange_replies.
  - exists wc2. split_and!; [done..|]. intros i c Hi. destruct (exchange_lookup calls u r0 i c Hi) as (e & He & Hr & Hkd).
    unfold all_answered in Ha3. rewrite list.Forall_lookup in Ha3. specialize (Ha3 i _ He). cbn in Ha3. by rewrite Hr, Hkd in Ha3.
Qed.
End EndToEnd.

(** ** An exchange *)

Section Demo.
#[local] Existing Instance verbs_ok.

(** Requests of type 3 are answered with their body backwards, others with the error -5. *)
Definition reverse_service (ty : Z) (body : list Z) : reply := if ty =? 3 then Reply 4 (rev body) else Failure (-5).

(** A response class that keeps the body of its reply. *)
#[local] Instance keep_body : ResponseHandler (list Z) := {|
  MessageType := fun _ => 4;
  processResponse := fun _ r => let! l := load_bytes (Z.to_nat (rEnd r - rPos r)) (rPos r) in ret (r, SetResult l)
|}.

Lemma keep_body_decodes : Decoder keep_body (fun _ body => SetResult body) (fun _ p body => BufferReader p (p + zlen body)).
Proof.
  split; [|intros _ p body; pose proof (zlen_nonneg body); cbn; lia]. intros k m p body Hp. cbn. unfold bind.
  replace (Z.to_nat (p + zlen body - p)) with (length body) by (unfold zlen; lia). by rewrite (load_bytes_ok _ _ _ Hp).
Qed.

#[local] Instance demo_hash_map : DenseHashMap := {|
  dense_begin := map_begin; dense_begin_some := map_begin_some; dense_begin_none := map_begin_none |}.

(** Two send buffers of 64 bytes at 4096 and a receive buffer at 8192. *)
Definition demo_net : net :=
  Net (Mem (write_bytes (write_bytes ∅ 4096 (replicate 128 0)) 8192 (replicate 128 0)) ∅ [])
    (pool_make 2 64 (Region 4096 128 1 1)) true true true [] [] 0 0.
Definition demo_client : world (client (list Z)) :=
  World demo_net (set_state CONNECTED (bsock_make 8)) 0 (Client 0 5 [] ∅ [] [] [Fiber Empty []]).
Definition demo_server : world (server unit) :=
  World demo_net (set_state CONNECTED (bsock_make 8)) 0 (Server tt 0).

Lemma demo_Inv {U} (u : U) : Inv (World demo_net (set_state CONNECTED (bsock_make 8)) 0 u) [] [].
Proof.
  exists []. split_and!; [|split; done|constructor|done]. split_and!; try done; [apply pool_make_wf; simpl; lia|].
  exists (replicate 128 0). split; [|done].
  apply (pts_upd_disj (Mem (write_bytes ∅ 4096 (replicate 128 0)) ∅ []) 8192 (replicate 128 0) 4096).
  - apply (pts_upd_same (Mem ∅ ∅ []) 4096).
  - by right.
Qed.

Lemma demo_client_winv : winv demo_client [] [] /\ quiet (w_user demo_client).
Proof.
  assert (forall f (fb : fiber (list Z)), fibers (w_user demo_client) !! f = Some fb -> fb = Fiber Empty []) as Hf.
  { intros [|f] fb Hfb; cbn in Hfb; by simplify_eq. }
  split; [|by intros f fb ->%Hf]. split; [exists [], []; apply demo_Inv|split_and!].
  - intros r x Hx. cbn in Hx. by rewrite lookup_nil in Hx.
  - constructor.
  - intros r Hr. by apply not_elem_of_nil in Hr.
  - intros f fb ->%Hf. split; [|done]. split; [constructor|]. intros r Hr. by apply not_elem_of_nil in Hr.
  - split; [constructor|]. intros f. split; [intros Hr; by apply not_elem_of_nil in Hr|]. by intros (p & hs & Hp%Hf).
  - done.
Qed.

Definition demo_calls : list call := [Call 0 3 [1; 2; 3]; Call 0 9 [7]].

(** A decidable receive buffer. *)
Definition room_b {U} (w : world U) (p n : Z) : bool :=
  forallb (fun i => bool_decide (is_Some (bytes (w_mem w) !! (p + i)))) (seqZ 0 n) &&
  (mr_addr (mSendData (n_pool (w_net w))) + mr_length (mSendData (n_pool (w_net w))) <=? p) &&
  (0 <=? n) && (0 <=? p) && (p mod 8 =? 0) && (p + n + 2 ^ 33 <? 2 ^ 64).

Lemma room_b_ok {U} (w : world U) p n : room_b w p n = true -> room w p n.
Proof.
  unfold room_b. rewrite !andb_true_iff. intros (((((Hm & Ha) & Hn) & H0) & H8) & Hb). bool_prop. split_and!; try done.
  - exists (map (fun i => default 0 (bytes (w_mem w) !! (p + i))) (seqZ 0 n)). split; [|unfold zlen; rewrite length_map, length_seqZ; lia].
    intros i x Hi. rewrite list_lookup_fmap in Hi. apply fmap_Some in Hi as (j & Hj & ->). pose proof (list_elem_of_lookup_2 _ _ _ Hj) as Hin.
    apply lookup_seqZ in Hj as [-> _]. rewrite forallb_forall in Hm. specialize (Hm _ (proj1 (list_elem_of_In _ _) Hin)).
    apply bool_decide_eq_true_1 in Hm as [b Hb']. by rewrite Z.add_0_l, Hb' in *.
  - intros a Hin. right. lia.
Qed.

(** One payload, received at 8192. *)
Definition one_room {U} (w : world U) (l : list (list Z)) : bool :=
  match l with [payload] => room_b w 8192 (zlen payload) | _ => false end.

Lemma one_room_ok {U} (w : world U) l : one_room w l = true -> rooms w [8192] l.
Proof. destruct l as [|payload []]; try done. intros Hr. constructor; [by apply room_b_ok|constructor]. Qed.

#[local] Instance demo_service : RequestHandler unit := serving reverse_service.
#[local] Existing Instance keep_body_decodes.

Definition demo_sent : St (world (client (list Z))) unit :=
  do! execute 1 0 (pipeline 0 demo_calls (Get 0 (fun _ => Done))) in run_flush.
Definition demo_answered (l : list (list Z)) : St (world (server unit)) unit :=
  do! receive_all (HU := rpc_server_handler) [8192] l in run_flush.

(** The payloads on the wire. *)
Definition posted {U} (r : outcome (world U) unit) : list (list Z) :=
  match final r with Some w => payloads (w_net w) | None => [] end.

Lemma demo_calls_wf : Forall call_wf demo_calls.
Proof. apply list.Forall_cons; split; [|apply list.Forall_cons; split; [|apply list.Forall_nil; exact I]]; unfold call_wf; split_and!; vm_compute; discriminate || reflexivity. Qed.
Lemma demo_calls_fit : Forall (fun c => fits demo_client (c_body c)) demo_calls.
Proof. apply list.Forall_cons; split; [|apply list.Forall_cons; split; [|apply list.Forall_nil; exact I]]; split; vm_compute; discriminate || reflexivity. Qed.
Lemma demo_calls_answerable : Forall (answerable reverse_service demo_server) demo_calls.
Proof.
  apply list.Forall_cons; split; [|apply list.Forall_cons; split; [|apply list.Forall_nil; exact I]]; (split; [cbn; split_and!|split]; vm_compute; discriminate || reflexivity).
Qed.

Lemma posted_ok {U} (r : outcome (world U) unit) w : r = Ok tt w -> posted r = payloads (w_net w).
Proof. by intros ->. Qed.

Lemma demo_rooms : one_room demo_server (posted (demo_sent demo_client)) = true.
Proof. vm_compute. reflexivity. Qed.

Abbreviation demo_replies := (posted (demo_answered (posted (demo_sent demo_client)) demo_server)).

Lemma demo_client_room :
  match final (demo_sent demo_client) with Some w => one_room w demo_replies | None => false end = true.
Proof. vm_compute. reflexivity. Qed.

Lemma final_room {U} (r : outcome (world U) unit) l w :
  match final r with Some w => one_room w l | None => false end = true -> r = Ok tt w -> one_room w l = true.
Proof. by intros Hc ->. Qed.

Lemma demo_rooms_back w : demo_sent demo_client = Ok tt w -> one_room w demo_replies = true.
Proof. exact (final_room (demo_sent demo_client) demo_replies w demo_client_room). Qed.

(** Both requests are answered: the body backwards, and the error. *)
Lemma rpc_end_to_end_witness :
  exists wc1 ws1 wc2, demo_sent demo_client = Ok tt wc1 /\ demo_answered (payloads (w_net wc1)) demo_server = Ok tt ws1 /\
    receive_all (HU := rpc_client_handler 1 1) [8192] (payloads (w_net ws1)) wc1 = Ok tt wc2 /\
    answered (w_user wc2) 0 (SET [3; 2; 1]) /\ answered (w_user wc2) 1 (ERROR (ErrorCode (-5) user_category)).
Proof.
  destruct demo_client_winv as [HI Hq].
  destruct (rpc_end_to_end (VV := verbs_ok) (fun _ body => SetResult body) (fun _ p body => BufferReader p (p + zlen body)) reverse_service
    1 0 0 0 demo_calls (fun _ => Done) [] demo_client demo_server (fun _ _ => eq_refl) HI Hq (demo_Inv _) eq_refl eq_refl eq_refl)
    as (wc1 & Hrun & H1); [done|apply demo_calls_wf|apply demo_calls_fit|apply Nat.leb_le; vm_compute; reflexivity|done|done
    |apply demo_Inv|done|apply demo_calls_answerable|apply Nat.leb_le; vm_compute; reflexivity|].
  assert (demo_sent demo_client = Ok tt wc1) as Hsent by (unfold demo_sent; exact Hrun). clear Hrun. rename Hsent into Hrun. pose proof (posted_ok _ _ Hrun) as Hp1.
  destruct (H1 [8192]) as (ws1 & Hrun1 & H2); [apply one_room_ok; rewrite <-Hp1; apply demo_rooms|].
  assert (demo_answered (payloads (w_net wc1)) demo_server = Ok tt ws1) as Hans by (unfold demo_answered; exact Hrun1).
  clear Hrun1. rename Hans into Hrun1. rewrite <-Hp1 in Hrun1.
  pose proof (posted_ok _ _ Hrun1) as Hp2.
  destruct (H2 [8192]) as (wc2 & Hrun2 & _ & _ & Ha); [apply one_room_ok; rewrite <-Hp2; exact (demo_rooms_back wc1 Hrun)|].
  rewrite Hp1 in Hrun1.
  exists wc1, ws1, wc2. split_and!; [exact Hrun|exact Hrun1|exact Hrun2| |].
  - exact (Ha 0%nat (Call 0 3 [1; 2; 3]) eq_refl).
  - exact (Ha 1%nat (Call 0 9 [7]) eq_refl).
Defined.
End Demo.
