(* ===== verification/Fiber.v ===== *)
(** * Fibers: stacks, context switches and the condition variable

    [libs/infinio/include/crossbow/infinio/Fiber.hpp] and [src/Fiber.cpp], with the two task queues and the fiber cache of
    [InfinibandProcessor] as far as fibers use them.

    The poll thread and every fiber have a stack of C++ frames ([frame]); [boost::context::jump_fcontext] saves the running
    stack as a context, goes on with another one and hands over a value ([land] is what the frame that
    receives control does with it).  A context can be entered once: [mContext] and [mReturnContext] are [Stale] when
    they hold one that was entered.  What a fiber function or a task does between the calls of this interface is the class
    [Application]: a state of its own, the data all of them share, and the next call.  Failed assertions, accesses to
    deleted objects and jumps to stale contexts are [UB]; an exception that leaves a fiber function or a task
    ends the program ([Throw]).  The code is that for Boost 1.56 and later.

    The functions of fibers run on the poll thread only, one step of [step] at a time; other threads enqueue tasks. *)

From S2P Require Import Prelude.

Module Fib.

(** ** Applications *)

(** What code of the application does next.  A fiber function is given the fiber it runs in. *)
Inductive call (U D : Type) :=
  | Return
  | Raise                                       (* an exception nothing catches *)
  | Work (u : U)
  | Yield (g : nat) (u : U)
  | Wait (g : nat) (u : U)
  | Resume (g : nat) (u : U)
  | Unblock (g : nat) (u : U)
  | Execute (t : U) (u : U)                     (* InfinibandProcessor::execute(t) *)
  | ExecuteLocal (t : U) (u : U)
  | ExecuteFiber (fn : nat -> U) (u : U)
  | ExecuteLocalFiber (fn : nat -> U) (u : U)
  | CvMake (k : nat -> U)
  | CvWait (c g : nat) (u : U)
  | CvWaitPred (c g : nat) (p : D -> bool) (u : U)
  | NotifyOne (c : nat) (u : U)
  | NotifyAll (c : nat) (u : U)
  | CvDestroy (c : nat) (u : U).
Arguments Return {U D}.
Arguments Raise {U D}.
Arguments Work {U D}.
Arguments Yield {U D}.
Arguments Wait {U D}.
Arguments Resume {U D}.
Arguments Unblock {U D}.
Arguments Execute {U D}.
Arguments ExecuteLocal {U D}.
Arguments ExecuteFiber {U D}.
Arguments ExecuteLocalFiber {U D}.
Arguments CvMake {U D}.
Arguments CvWait {U D}.
Arguments CvWaitPred {U D}.
Arguments NotifyOne {U D}.
Arguments NotifyAll {U D}.
Arguments CvDestroy {U D}.

Class Application (U D : Type) := next_call : U -> D -> D * call U D.

Section Machine.
Context {U D : Type} `{App : Application U D}.

(** ** State *)

(** The closures in the task queues. *)
Inductive task :=
  | TResume (f : nat)                           (* the closures of yield and unblock *)
  | TDelete (f : nat)                           (* the closure of recycleFiber *)
  | TFun (u : U)
  | TFiber (fn : nat -> U).                     (* the closure of executeFiber *)

(** A frame is named after the call behind which its function goes on. *)
Inductive frame :=
  | FUser (u : U)                               (* code of the application *)
  | FWait (f : nat)                             (* Fiber::wait behind the jump *)
  | FResume (f : nat)                           (* Fiber::resume behind the jump *)
  | FPred (c f : nat) (p : D -> bool)           (* head of the loop of ConditionVariable::wait(fiber, pred) *)
  | FNotify (waiting : list nat)                (* ConditionVariable::notify_all behind waiting.front()->resume() *)
  | FDestroy (c : nat)                          (* ~ConditionVariable behind notify_all *)
  | FLocal (taskQueue : list task)              (* LocalTaskQueue::poll behind taskQueue.front()() *)
  | FShared                                     (* head of the loop of TaskQueue::poll *)
  | FLoop (f : nat)                             (* head of the loop of Fiber::start *)
  | FStart (f : nat)                            (* Fiber::start behind mFun *)
  | FEntry (f : nat)                            (* Fiber::entry behind start *)
  | FEnter.                                     (* a context that make_fcontext made for Fiber::entry *)

Inductive context := Null | Stale | Saved (st : list frame).

Record fiber := MkFiber { mFun : option (nat -> U); mContext : context; mReturnContext : context }.

(** [ConditionVariable]; [cv_dying] from the start of the destructor on. *)
Record cond := Cond { mWaiting : list nat; cv_alive : bool; cv_dying : bool }.

(** What can be observed: who made which call, where control went, what a predicate was. *)
Inductive event :=
  | ECall (w : option nat) (c : call U D)       (* [None] is code that runs in no fiber *)
  | EPred (f : nat) (b : bool)
  | EResume (f : nat)
  | EBack (f : nat)
  | EStart (f : nat) (fn : nat -> U)
  | ETask (u : U).

Record state := State {
  stack : list frame;                           (* of whoever runs, innermost call first *)
  fibers : gmap nat fiber;
  allocations : nat;                            (* the next address *)
  mFiberCache : list nat;
  mFiberCacheSize : nat;
  mLocalTaskQueue : list task;
  mTaskQueue : list task;
  conds : list cond;
  data : D;
  log : list event                              (* newest first *)
}.

Definition set_stack x s := State x (fibers s) (allocations s) (mFiberCache s) (mFiberCacheSize s) (mLocalTaskQueue s) (mTaskQueue s) (conds s) (data s) (log s).
Definition set_fibers x s := State (stack s) x (allocations s) (mFiberCache s) (mFiberCacheSize s) (mLocalTaskQueue s) (mTaskQueue s) (conds s) (data s) (log s).
Definition set_allocations x s := State (stack s) (fibers s) x (mFiberCache s) (mFiberCacheSize s) (mLocalTaskQueue s) (mTaskQueue s) (conds s) (data s) (log s).
Definition set_cache x s := State (stack s) (fibers s) (allocations s) x (mFiberCacheSize s) (mLocalTaskQueue s) (mTaskQueue s) (conds s) (data s) (log s).
Definition set_local x s := State (stack s) (fibers s) (allocations s) (mFiberCache s) (mFiberCacheSize s) x (mTaskQueue s) (conds s) (data s) (log s).
Definition set_shared x s := State (stack s) (fibers s) (allocations s) (mFiberCache s) (mFiberCacheSize s) (mLocalTaskQueue s) x (conds s) (data s) (log s).
Definition set_conds x s := State (stack s) (fibers s) (allocations s) (mFiberCache s) (mFiberCacheSize s) (mLocalTaskQueue s) (mTaskQueue s) x (data s) (log s).
Definition set_data x s := State (stack s) (fibers s) (allocations s) (mFiberCache s) (mFiberCacheSize s) (mLocalTaskQueue s) (mTaskQueue s) (conds s) x (log s).
Definition emit e s := State (stack s) (fibers s) (allocations s) (mFiberCache s) (mFiberCacheSize s) (mLocalTaskQueue s) (mTaskQueue s) (conds s) (data s) (e :: log s).

Abbreviation M := (St state).

Definition modify (h : state -> state) : M unit := fun s => Ok tt (h s).
Definition push (k : frame) : M unit := modify (fun s => set_stack (k :: stack s) s).
Definition set_fiber (f : nat) (x : fiber) : M unit := modify (fun s => set_fibers (<[f := x]> (fibers s)) s).

(** A member of the fiber at address [f] is accessed. *)
Definition get_fiber (f : nat) : M fiber := fun s =>
  match fibers s !! f with Some x => Ok x s | None => UB end.

Definition get_cond (c : nat) : M cond := fun s =>
  match conds s !! c with Some x => if cv_alive x then Ok x s else UB | None => UB end.
Definition set_cond (c : nat) (x : cond) : M unit := modify (fun s => set_conds (<[c := x]> (conds s)) s).

(** ** Fiber *)

(** [Fiber::Fiber] with [operator new]; the context of [make_fcontext] will call [entry]. *)
Definition create : M nat := fun s =>
  let f := allocations s in
  Ok f (set_allocations (S f) (set_fibers (<[f := MkFiber None (Saved [FEnter]) Null]> (fibers s)) s)).

(** [delete fiber].  A fiber that runs, or that resumed one that runs, needs its stack. *)
Definition destroy (f : nat) : M unit :=
  let! x := get_fiber f in
  match mReturnContext x with
  | Null => modify (fun s => set_fibers (delete f (fibers s)) s)
  | _ => ub
  end.

Definition empty (x : fiber) : bool := match mFun x with None => true | Some _ => false end.

(** Control arrives with the value [v] at the context [st]: [entry] calls [start], the other two go on behind
    their jump. *)
Definition land (v : nat) (st : list frame) : M unit :=
  match st with
  | [FEnter] => modify (set_stack [FLoop v; FEntry v])
  | FWait f :: st => do! massert (bool_decide (v = f)) in modify (set_stack st)
  | FResume f :: st =>
      let! x := get_fiber f in
      do! set_fiber f (MkFiber (mFun x) (mContext x) Null) in
      do! massert (bool_decide (v = f)) in
      modify (set_stack st)
  | _ => ub
  end.

(** [Fiber::wait] *)
Definition wait (f : nat) : M unit :=
  let! x := get_fiber f in
  match mReturnContext x with
  | Saved r =>
      let! s := get in
      do! set_fiber f (MkFiber (mFun x) (Saved (FWait f :: stack s)) Stale) in
      do! modify (emit (EBack f)) in
      land f r
  | _ => ub
  end.

(** [Fiber::resume] *)
Definition resume (f : nat) : M unit :=
  let! x := get_fiber f in
  match mReturnContext x, mContext x with
  | Null, Saved c =>
      let! s := get in
      do! set_fiber f (MkFiber (mFun x) Stale (Saved (FResume f :: stack s))) in
      do! modify (emit (EResume f)) in
      land f c
  | _, _ => ub
  end.

(** [InfinibandProcessor::executeLocal] and [execute] *)
Definition executeLocal (t : task) : M unit := modify (fun s => set_local (mLocalTaskQueue s ++ [t]) s).
Definition execute (t : task) : M unit := modify (fun s => set_shared (mTaskQueue s ++ [t]) s).

(** [Fiber::yield] *)
Definition yield (f : nat) : M unit :=
  let! _ := get_fiber f in
  do! executeLocal (TResume f) in
  wait f.

(** [Fiber::unblock] *)
Definition unblock (f : nat) : M unit :=
  let! _ := get_fiber f in
  execute (TResume f).

(** [Fiber::execute] *)
Definition fiber_execute (f : nat) (fn : nat -> U) : M unit :=
  let! x := get_fiber f in
  do! massert (empty x) in
  do! set_fiber f (MkFiber (Some fn) (mContext x) (mReturnContext x)) in
  resume f.

(** [InfinibandProcessor::executeLocalFiber] *)
Definition executeLocalFiber (fn : nat -> U) : M unit :=
  let! s := get in
  let! f := (match mFiberCache s with
             | [] => create
             | f :: cache => do! modify (set_cache cache) in ret f
             end) in
  fiber_execute f fn.

(** [InfinibandProcessor::recycleFiber] *)
Definition recycleFiber (f : nat) : M unit :=
  let! x := get_fiber f in
  do! massert (empty x) in
  let! s := get in
  if (length (mFiberCache s) <? mFiberCacheSize s)%nat
  then modify (set_cache (mFiberCache s ++ [f]))
  else executeLocal (TDelete f).

(** [Fiber::start]: the head of the loop, and what follows the call of [mFun].  Calling an empty function throws. *)
Definition start_loop (f : nat) : M unit :=
  let! x := get_fiber f in
  match mFun x with
  | None => throw RuntimeError
  | Some fn =>
      do! modify (emit (EStart f fn)) in
      do! push (FStart f) in
      push (FUser (fn f))
  end.
Definition start_returned (f : nat) : M unit :=
  let! x := get_fiber f in
  do! set_fiber f (MkFiber None (mContext x) (mReturnContext x)) in
  do! recycleFiber f in
  do! push (FLoop f) in
  wait f.

(** ** ConditionVariable *)

Definition cv_make : M nat := fun s =>
  Ok (length (conds s)) (set_conds (conds s ++ [Cond [] true false]) s).

(** [ConditionVariable::wait(fiber)] *)
Definition cv_wait (c f : nat) : M unit :=
  let! x := get_cond c in
  do! set_cond c (Cond (mWaiting x ++ [f]) (cv_alive x) (cv_dying x)) in
  wait f.

(** [ConditionVariable::wait(fiber, pred)]: the head of its loop *)
Definition cv_wait_pred (c f : nat) (p : D -> bool) : M unit :=
  let! s := get in
  do! modify (emit (EPred f (p (data s)))) in
  if p (data s) then ret tt
  else
    do! push (FPred c f p) in
    cv_wait c f.

(** [ConditionVariable::notify_one] *)
Definition notify_one (c : nat) : M unit :=
  let! x := get_cond c in
  match mWaiting x with
  | [] => ret tt
  | f :: q =>
      do! set_cond c (Cond q (cv_alive x) (cv_dying x)) in
      resume f
  end.

(** [ConditionVariable::notify_all], and its loop behind a [resume] *)
Definition notify_all (c : nat) : M unit :=
  let! x := get_cond c in
  match mWaiting x with
  | [] => ret tt
  | f :: _ =>
      do! set_cond c (Cond [] (cv_alive x) (cv_dying x)) in
      do! push (FNotify (mWaiting x)) in
      resume f
  end.
Definition notify_next (waiting : list nat) : M unit :=
  match waiting with
  | _ :: (f :: _) as q =>
      do! push (FNotify q) in
      resume f
  | _ => ret tt
  end.

(** [ConditionVariable::~ConditionVariable]; destroying twice is undefined. *)
Definition cv_destroy (c : nat) : M unit :=
  let! x := get_cond c in
  do! (if cv_dying x then ub else ret tt) in
  do! set_cond c (Cond (mWaiting x) (cv_alive x) true) in
  do! push (FDestroy c) in
  notify_all c.
Definition cv_destroyed (c : nat) : M unit :=
  let! _ := get_cond c in
  set_cond c (Cond [] false true).

(** ** The task queues *)

(** A task runs. *)
Definition run_task (t : task) : M unit :=
  match t with
  | TResume f => resume f
  | TDelete f => destroy f
  | TFun u => do! modify (emit (ETask u)) in push (FUser u)
  | TFiber fn => executeLocalFiber fn
  end.

(** [LocalTaskQueue::poll], and its loop behind a task *)
Definition local_poll : M unit :=
  let! s := get in
  match mLocalTaskQueue s with
  | [] => ret tt
  | t :: _ =>
      do! modify (set_local []) in
      do! push (FLocal (mLocalTaskQueue s)) in
      run_task t
  end.
Definition local_next (taskQueue : list task) : M unit :=
  match taskQueue with
  | _ :: (t :: _) as q =>
      do! push (FLocal q) in
      run_task t
  | _ => ret tt
  end.

(** [TaskQueue::poll]: one [read] and the task it returns *)
Definition shared_next : M unit :=
  let! s := get in
  match mTaskQueue s with
  | [] => ret tt
  | t :: q =>
      do! modify (set_shared q) in
      do! push FShared in
      run_task t
  end.

(** ** Execution *)

(** The fiber whose stack this is. *)
Fixpoint owner (st : list frame) : option nat :=
  match st with
  | [] => None
  | FEntry f :: _ => Some f
  | _ :: st => owner st
  end.

(** The call [c] of the application, which goes on with the frame it leaves. *)
Definition run_call (c : call U D) : M unit :=
  match c with
  | Return => ret tt
  | Raise => throw RuntimeError
  | Work u => push (FUser u)
  | Yield g u => do! push (FUser u) in yield g
  | Wait g u => do! push (FUser u) in wait g
  | Resume g u => do! push (FUser u) in resume g
  | Unblock g u => do! push (FUser u) in unblock g
  | Execute t u => do! push (FUser u) in execute (TFun t)
  | ExecuteLocal t u => do! push (FUser u) in executeLocal (TFun t)
  | ExecuteFiber fn u => do! push (FUser u) in execute (TFiber fn)
  | ExecuteLocalFiber fn u => do! push (FUser u) in executeLocalFiber fn
  | CvMake k => let! c := cv_make in push (FUser (k c))
  | CvWait c g u => do! push (FUser u) in cv_wait c g
  | CvWaitPred c g p u => do! push (FUser u) in push (FPred c g p)
  | NotifyOne c u => do! push (FUser u) in notify_one c
  | NotifyAll c u => do! push (FUser u) in notify_all c
  | CvDestroy c u => do! push (FUser u) in cv_destroy c
  end.

Definition run_user (w : option nat) (u : U) : M unit :=
  let! s := get in
  let (d, c) := next_call u (data s) in
  do! modify (set_data d) in
  do! modify (emit (ECall w c)) in
  run_call c.

(** The innermost frame goes on; [start] never returns to [entry]. *)
Definition step : M unit :=
  let! s := get in
  match stack s with
  | [] => ub
  | k :: st =>
      do! modify (set_stack st) in
      match k with
      | FUser u => run_user (owner st) u
      | FPred c f p => cv_wait_pred c f p
      | FNotify q => notify_next q
      | FDestroy c => cv_destroyed c
      | FLocal q => local_next q
      | FShared => shared_next
      | FLoop f => start_loop f
      | FStart f => start_returned f
      | FEntry _ => throw RuntimeError
      | FWait _ | FResume _ | FEnter => ub
      end
  end.

(** What begins when no call is running: the poll loop calls a poller, or a poller calls the
    application. *)
Inductive turn := PollLocal | PollShared | Callback (u : U).
Definition take_turn (t : turn) : M unit :=
  match t with
  | PollLocal => local_poll
  | PollShared => push FShared
  | Callback u => do! modify (emit (ETask u)) in push (FUser u)
  end.

(** What other threads do: [execute], [executeFiber] and [unblock]. *)
Inductive remote := RExecute (u : U) | RExecuteFiber (fn : nat -> U) | RUnblock (f : nat).
Definition remote_call (r : remote) : M unit :=
  match r with
  | RExecute u => execute (TFun u)
  | RExecuteFiber fn => execute (TFiber fn)
  | RUnblock f => unblock f
  end.

Definition init (size : nat) (d : D) : state := State [] ∅ 0 [] size [] [] [] d [].

End Machine.
End Fib.
