(* ===== verification/FiberSpec.v ===== *)
(** * Fibers as coroutines: specification and invariant

    The specification [spec_step] knows no stacks: every fiber is a sequential computation of its own that runs, checks a
    predicate or is away; fibers are nested, and only the innermost one makes calls.  The invariant [inv] relates
    a state of [Fiber] to it and says where the wake-up of every suspended fiber is. *)

From S2P Require Import Prelude Fiber.
Import Fib.

(** ** Occurrences in a list *)

Definition cnt (f : nat) (l : list nat) : nat := length (filter (fun x => f = x) l).
#[global] Arguments cnt : simpl never.

Lemma cnt_app_eq f l k : cnt f (l ++ k) = (cnt f l + cnt f k)%nat.
Proof. unfold cnt. by rewrite list.filter_app, length_app. Qed.

Lemma cnt_cons_eq f x l : cnt f (x :: l) = ((if decide (f = x) then 1 else 0) + cnt f l)%nat.
Proof. unfold cnt. rewrite list.filter_cons. by case_decide. Qed.

Lemma cnt_in f l : f ∈ l <-> (0 < cnt f l)%nat.
Proof.
  induction l as [|x l IH]; [split; [by intros ?%not_elem_of_nil | unfold cnt; cbn; lia]|].
  rewrite cnt_cons_eq, elem_of_cons, IH. case_decide; naive_solver lia.
Qed.

Lemma cnt_NoDup l : NoDup l <-> forall f, (cnt f l <= 1)%nat.
Proof.
  induction l as [|x l IH]; [split; [unfold cnt; cbn; lia | constructor]|].
  rewrite list.NoDup_cons, IH, cnt_in. split.
  - intros [Hx Hl] f. specialize (Hl f). rewrite cnt_cons_eq. case_decide; subst; lia.
  - intros H. split; [specialize (H x); rewrite cnt_cons_eq in H; case_decide; [lia|done]|].
    intros f. specialize (H f). rewrite cnt_cons_eq in H. lia.
Qed.

Section Spec.
Context {U D : Type} `{App : Application U D}.

Abbreviation frame := (@Fib.frame U D).
Abbreviation task := (@Fib.task U).
Abbreviation fiber := (@Fib.fiber U D).
Abbreviation event := (@Fib.event U D).
Abbreviation state := (@Fib.state U D).
Abbreviation remote := (@Fib.remote U).

(** ** Coroutines *)

Inductive reason := Yielded | Parked | OnCond (c : nat) (p : option (D -> bool)).

(** A computation makes calls, is about to check a predicate, or is away. *)
Inductive mode := Go | Check (c : nat) (p : D -> bool) | Away (r : reason).

Record spec := Spec {
  sp_active : list nat;                         (* fibers that run or resumed one that runs, innermost first *)
  sp_local : gmap (option nat) (U * mode);      (* computations that have started and not returned *)
  sp_data : D
}.

(** Where a computation is behind a call; [i] is the address of a new condition variable. *)
Definition after (i : nat) (c : call U D) : option (U * mode) :=
  match c with
  | Return | Raise => None
  | Work u | Resume _ u | Unblock _ u | Execute _ u | ExecuteLocal _ u | ExecuteFiber _ u | ExecuteLocalFiber _ u
  | NotifyOne _ u | NotifyAll _ u | CvDestroy _ u => Some (u, Go)
  | CvMake k => Some (k i, Go)
  | Yield _ u => Some (u, Away Yielded)
  | Wait _ u => Some (u, Away Parked)
  | CvWait c _ u => Some (u, Away (OnCond c None))
  | CvWaitPred c _ p u => Some (u, Check c p)
  end.

(** A computation that is resumed. *)
Definition arrive (e : U * mode) : U * mode :=
  match e with
  | (u, Away (OnCond c (Some p))) => (u, Check c p)
  | (u, Away _) => (u, Go)
  | _ => e
  end.

Definition is_away (e : option (U * mode)) : Prop :=
  match e with None | Some (_, Away _) => True | _ => False end.

Inductive spec_step : spec -> event -> spec -> Prop :=
  | spec_call a loc d w u i d' c : head a = w -> loc !! w = Some (u, Go) -> next_call u d = (d', c) ->
      spec_step (Spec a loc d) (ECall w c) (Spec a (partial_alter (fun _ => after i c) w loc) d')
  | spec_true a loc d f u c p : head a = Some f -> loc !! Some f = Some (u, Check c p) -> p d = true ->
      spec_step (Spec a loc d) (EPred f true) (Spec a (<[Some f := (u, Go)]> loc) d)
  | spec_false a loc d f u c p : head a = Some f -> loc !! Some f = Some (u, Check c p) -> p d = false ->
      spec_step (Spec a loc d) (EPred f false) (Spec a (<[Some f := (u, Away (OnCond c (Some p)))]> loc) d)
  | spec_resume a loc d f : f ∉ a -> is_away (loc !! Some f) ->
      spec_step (Spec a loc d) (EResume f) (Spec (f :: a) (alter arrive (Some f) loc) d)
  | spec_back a loc d f : is_away (loc !! Some f) ->
      spec_step (Spec (f :: a) loc d) (EBack f) (Spec a loc d)
  | spec_start a loc d f fn : loc !! Some f = None ->
      spec_step (Spec (f :: a) loc d) (EStart f fn) (Spec (f :: a) (<[Some f := (fn f, Go)]> loc) d)
  | spec_task loc d u : loc !! None = None ->
      spec_step (Spec [] loc d) (ETask u) (Spec [] (<[None := (u, Go)]> loc) d).

(** The events of a log, newest first, are a run of the specification. *)
Inductive spec_run (d : D) : list event -> spec -> Prop :=
  | spec_run_nil : spec_run d [] (Spec [] ∅ d)
  | spec_run_cons l sp e sp' : spec_run d l sp -> spec_step sp e sp' -> spec_run d (e :: l) sp'.

(** ** The rules of the interface

    [wait] and [yield] are called from within the fiber, [resume] and [unblock] on a fiber that called [wait] and that
    nobody has resumed or unblocked since, and a condition variable is used while it exists. *)

(** The last call of [g], unless it was resumed since. *)
Fixpoint suspended_by (g : nat) (l : list event) : option (call U D) :=
  match l with
  | [] => None
  | ECall (Some f) c :: l => if decide (f = g) then Some c else suspended_by g l
  | EResume f :: l => if decide (f = g) then None else suspended_by g l
  | _ :: l => suspended_by g l
  end.

Definition is_resume (f : nat) (t : task) : bool :=
  match t with TResume g => bool_decide (f = g) | _ => false end.

Definition interrupted (s : state) (g : nat) : bool :=
  match suspended_by g (log s) with
  | Some (Wait _ _) => negb (existsb (is_resume g) (mTaskQueue s))
  | _ => false
  end.

Definition usable (s : state) (c : nat) : bool :=
  match conds s !! c with Some x => cv_alive x | None => false end.

Definition destroyable (s : state) (c : nat) : bool :=
  match conds s !! c with Some x => cv_alive x && negb (cv_dying x) | None => false end.

Definition rule (s : state) (w : option nat) (c : call U D) : bool :=
  match c with
  | Yield g _ | Wait g _ => bool_decide (w = Some g)
  | Resume g _ | Unblock g _ => interrupted s g
  | CvWait c g _ | CvWaitPred c g _ _ => bool_decide (w = Some g) && usable s c
  | NotifyOne c _ | NotifyAll c _ => usable s c
  | CvDestroy c _ => destroyable s c
  | _ => true
  end.

(** The next step obeys the rules: a call does, and a predicate that is false finds its condition variable. *)
Definition allowed (s : state) : bool :=
  match stack s with
  | FUser u :: st => rule s (owner st) (snd (next_call u (data s)))
  | FPred c _ p :: _ => p (data s) || usable s c
  | _ => true
  end.

Definition remote_allowed (s : state) (r : remote) : bool :=
  match r with RUnblock f => interrupted s f | _ => true end.

(** The states of a processor whose application obeys the rules. *)
Inductive reach (size : nat) (d : D) : state -> Prop :=
  | reach_init : reach size d (init size d)
  | reach_step s s' : reach size d s -> stack s <> [] -> allowed s = true -> step s = Ok tt s' -> reach size d s'
  | reach_turn s t s' : reach size d s -> stack s = [] -> take_turn t s = Ok tt s' -> reach size d s'
  | reach_remote s r s' : reach size d s -> remote_allowed s r = true -> remote_call r s = Ok tt s' -> reach size d s'.

(** ** Stacks *)

(** Below the code of the application: [start] in a fiber, a poller on the poll thread. *)
Inductive base : option nat -> list frame -> Prop :=
  | base_fiber f : base (Some f) [FStart f; FEntry f]
  | base_main : base None []
  | base_local q : base None [FLocal q]
  | base_shared : base None [FShared].

(** [body w st e]: the stack of a computation [w] that is active, and where the computation is. *)
Inductive body : option nat -> list frame -> option (U * mode) -> Prop :=
  | body_base w b : base w b -> body w b None
  | body_loop f : body (Some f) [FLoop f; FEntry f] None
  | body_user w u b : base w b -> body w (FUser u :: b) (Some (u, Go))
  | body_pred c f p u b : base (Some f) b -> body (Some f) (FPred c f p :: FUser u :: b) (Some (u, Check c p))
  | body_destroy w c u b : base w b -> body w (FDestroy c :: FUser u :: b) (Some (u, Go))
  | body_notify w q u b : base w b -> body w (FNotify q :: FUser u :: b) (Some (u, Go))
  | body_notify_destroy w q c u b : base w b -> body w (FNotify q :: FDestroy c :: FUser u :: b) (Some (u, Go)).

(** The stack of a fiber that is away. *)
Inductive susp (f : nat) : list frame -> option (U * mode) -> Prop :=
  | susp_user u r : match r with OnCond _ (Some _) => False | _ => True end ->
      susp f [FWait f; FUser u; FStart f; FEntry f] (Some (u, Away r))
  | susp_pred c p u : susp f [FWait f; FPred c f p; FUser u; FStart f; FEntry f] (Some (u, Away (OnCond c (Some p)))).

Definition suspended (f : nat) (x : fiber) (e : option (U * mode)) : Prop :=
  is_Some (mFun x) /\ mReturnContext x = Null /\ exists st, mContext x = Saved st /\ susp f st e.

Definition idle (f : nat) (x : fiber) : Prop :=
  mFun x = None /\ mReturnContext x = Null /\
  (mContext x = Saved [FEnter] \/ mContext x = Saved [FWait f; FLoop f; FEntry f]).

(** The stacks of those who resumed the active fibers. *)
Fixpoint linked (m : gmap nat fiber) (loc : gmap (option nat) (U * mode)) (acts : list nat) : Prop :=
  match acts with
  | [] => True
  | f :: acts => (exists x r, m !! f = Some x /\ is_Some (mFun x) /\ mContext x = Stale /\
      mReturnContext x = Saved (FResume f :: r) /\ body (head acts) r (loc !! head acts)) /\ linked m loc acts
  end.

Definition ret_frames (m : gmap nat fiber) (f : nat) : list frame :=
  match m !! f with
  | Some x => match mReturnContext x with Saved r => r | _ => [] end
  | None => []
  end.
Definition rets (m : gmap nat fiber) (acts : list nat) : list frame := flat_map (ret_frames m) acts.

(** ** Wake-ups and idle fibers *)

Definition resumes (l : list task) : list nat := omap (fun t => match t with TResume f => Some f | _ => None end) l.
Definition deletions (l : list task) : list nat := omap (fun t => match t with TDelete f => Some f | _ => None end) l.
#[global] Arguments resumes : simpl never.
#[global] Arguments deletions : simpl never.
Definition pending (k : frame) : list task := match k with FLocal q => tail q | _ => [] end.
Definition notified (k : frame) : list nat := match k with FNotify q => tail q | _ => [] end.
Definition dying (k : frame) : list nat := match k with FDestroy c => [c] | _ => [] end.

Definition n_local (l : list task) (ks : list frame) (f : nat) : nat :=
  (cnt f (resumes l) + cnt f (resumes (flat_map pending ks)))%nat.
Definition n_notified (ks : list frame) (f : nat) : nat := cnt f (flat_map notified ks).
Definition n_conds (l : list cond) (f : nat) : nat := cnt f (flat_map mWaiting l).
Definition n_delete (l : list task) (ks : list frame) (f : nat) : nat :=
  (cnt f (deletions l) + cnt f (deletions (flat_map pending ks)))%nat.

Definition frames (s : state) (acts : list nat) : list frame := stack s ++ rets (fibers s) acts.

Definition idles (s : state) (acts : list nat) (f : nat) : nat :=
  (cnt f (mFiberCache s) + n_delete (mLocalTaskQueue s) (frames s acts) f)%nat.
Definition wakes (s : state) (acts : list nat) (f : nat) : nat :=
  (n_local (mLocalTaskQueue s) (frames s acts) f + cnt f (resumes (mTaskQueue s)) + n_conds (conds s) f +
   n_notified (frames s acts) f)%nat.

(** Every fiber is active, idle, or suspended; it is in one place only. *)
Record core (acts : list nat) (idl wak : nat -> nat) (loc : gmap (option nat) (U * mode)) (m : gmap nat fiber) : Prop := {
  c_linked : linked m loc acts;
  c_once : forall f, (cnt f acts + idl f + wak f <= 1)%nat;
  c_idle : forall f, (0 < idl f)%nat -> loc !! Some f = None /\ exists x, m !! f = Some x /\ idle f x;
  c_wake : forall f, (0 < wak f)%nat -> is_Some (m !! f);
  c_susp : forall f x, m !! f = Some x -> (0 < cnt f acts + idl f)%nat \/ suspended f x (loc !! Some f);
  c_none : forall f, m !! f = None -> loc !! Some f = None
}.

(** Where the wake-up of a fiber that is away is: a fiber that called [wait] has none but that of [unblock], the waiters of
    a destroyed condition variable may have none. *)
Definition away_ok (s : state) (acts : list nat) (f : nat) (r : reason) : Prop :=
  match r with
  | Yielded => (0 < n_local (mLocalTaskQueue s) (frames s acts) f)%nat
  | Parked => (wakes s acts f <= cnt f (resumes (mTaskQueue s)))%nat
  | OnCond c _ => (0 < n_notified (frames s acts) f)%nat \/
      exists x, conds s !! c = Some x /\ (cv_alive x = true -> f ∈ mWaiting x)
  end.

Record inv (size : nat) (d : D) (sp : spec) (s : state) : Prop := {
  i_run : spec_run d (log s) sp;
  i_data : sp_data sp = data s;
  i_core : core (sp_active sp) (idles s (sp_active sp)) (wakes s (sp_active sp)) (sp_local sp) (fibers s);
  i_body : body (head (sp_active sp)) (stack s) (sp_local sp !! head (sp_active sp));
  i_shared : deletions (mTaskQueue s) = [];
  i_fresh : forall f, is_Some (fibers s !! f) -> (f < allocations s)%nat;
  i_size : mFiberCacheSize s = size;
  i_cache : (length (mFiberCache s) <= size)%nat;
  i_dying : forall c, (cnt c (flat_map dying (frames s (sp_active sp))) <= 1)%nat /\
      ((0 < cnt c (flat_map dying (frames s (sp_active sp))))%nat ->
        exists x, conds s !! c = Some x /\ cv_alive x = true /\ cv_dying x = true);
  i_away : forall f u r, sp_local sp !! Some f = Some (u, Away r) -> away_ok s (sp_active sp) f r
}.

End Spec.
