(* ===== verification/FiberInv.v ===== *)
(** * Fibers: context switches keep the invariant

    How [wait] and [resume] change the state, what that does to the places a fiber can be in ([core]), and that
    every step of the poll thread keeps [inv]. *)

From S2P Require Import Prelude Fiber FiberSpec.
Import Fib.

Section Inv.
Context {U D : Type} `{App : Application U D}.

Abbreviation frame := (@Fib.frame U D).
Abbreviation task := (@Fib.task U).
Abbreviation fiber := (@Fib.fiber U D).
Abbreviation event := (@Fib.event U D).
Abbreviation state := (@Fib.state U D).
Abbreviation remote := (@Fib.remote U).
Abbreviation locals := (gmap (option nat) (U * mode)).

Implicit Types (s : state) (acts : list nat) (m : gmap nat fiber) (loc : gmap (option nat) (U * @mode D)).
Implicit Types (idl wak : nat -> nat).

(** ** Counting *)

Lemma cnt_nil f : cnt f [] = 0%nat.
Proof. done. Qed.

Lemma cnt_zero f l : cnt f l = 0%nat <-> f ∉ l.
Proof. rewrite cnt_in. lia. Qed.

Lemma resumes_app (l k : list task) : resumes (l ++ k) = resumes l ++ resumes k.
Proof. unfold resumes. apply omap_app. Qed.

Lemma deletions_app (l k : list task) : deletions (l ++ k) = deletions l ++ deletions k.
Proof. unfold deletions. apply omap_app. Qed.

Lemma resumes_nil : resumes ([] : list task) = [].
Proof. done. Qed.

Lemma deletions_nil : deletions ([] : list task) = [].
Proof. done. Qed.

Lemma resumes_cons (t : task) l : resumes (t :: l) = match t with TResume f => f :: resumes l | _ => resumes l end.
Proof. by destruct t. Qed.

Lemma deletions_cons (t : task) l : deletions (t :: l) = match t with TDelete f => f :: deletions l | _ => deletions l end.
Proof. by destruct t. Qed.

Lemma n_conds_insert (l : list cond) c x y f : l !! c = Some x ->
  (n_conds (<[c := y]> l) f + cnt f (mWaiting x) = n_conds l f + cnt f (mWaiting y))%nat.
Proof.
  revert c. induction l as [|z l IH]; intros [|c] Hc; [done..| |].
  - injection Hc as ->. unfold n_conds. cbn. rewrite !cnt_app_eq. lia.
  - specialize (IH c Hc). unfold n_conds in *. change (<[S c := y]> (z :: l)) with (z :: <[c := y]> l).
    cbn [flat_map]. rewrite !cnt_app_eq. lia.
Qed.

Lemma n_conds_app (l k : list cond) f : n_conds (l ++ k) f = (n_conds l f + n_conds k f)%nat.
Proof. unfold n_conds. by rewrite flat_map_app, cnt_app_eq. Qed.

Lemma n_conds_in (l : list cond) c x f : l !! c = Some x -> (cnt f (mWaiting x) <= n_conds l f)%nat.
Proof. intros H. pose proof (n_conds_insert l c x (Cond [] true true) f H). cbn [mWaiting] in *. rewrite cnt_nil in *. lia. Qed.

(** ** What the switches compute *)

Lemma wait_eq f s x r : fibers s !! f = Some x -> mReturnContext x = Saved (FResume f :: r) ->
  wait f s = Ok tt (set_stack r (emit (EBack f)
    (set_fibers (<[f := MkFiber (mFun x) (Saved (FWait f :: stack s)) Null]> (fibers s)) s))).
Proof.
  intros Hf Hr. unfold wait, get_fiber, bind. rewrite Hf, Hr. cbn.
  unfold get_fiber, bind, massert. cbn. rewrite lookup_insert_eq. cbn.
  rewrite bool_decide_eq_true_2 by done. cbn. unfold set_fiber, modify. cbn. by rewrite insert_insert_eq.
Qed.

(** The context [c] of [f] goes on with the stack [st]. *)
Definition entered (f : nat) (c st : list frame) : Prop :=
  (c = [FEnter] /\ st = [FLoop f; FEntry f]) \/ c = FWait f :: st.

Lemma resume_eq f s x c st : fibers s !! f = Some x -> mReturnContext x = Null -> mContext x = Saved c ->
  entered f c st ->
  resume f s = Ok tt (set_stack st (emit (EResume f)
    (set_fibers (<[f := MkFiber (mFun x) Stale (Saved (FResume f :: stack s))]> (fibers s)) s))).
Proof.
  intros Hf Hr Hc He. unfold resume, get_fiber, bind. rewrite Hf, Hr, Hc. cbn.
  destruct He as [[-> ->]| ->]; [done|]. cbn. unfold bind, massert. rewrite bool_decide_eq_true_2 by done. done.
Qed.

(** ** Places *)

Lemma linked_insert m loc acts f x : f ∉ acts -> linked m loc acts -> linked (<[f := x]> m) loc acts.
Proof.
  induction acts as [|g acts IH]; [done|]. rewrite not_elem_of_cons. intros [Hg Hf] [(y & r & Hy & H) Hl].
  split; [|by apply IH]. exists y, r. by rewrite lookup_insert_ne.
Qed.

Lemma linked_delete m loc acts f : f ∉ acts -> linked m loc acts -> linked (delete f m) loc acts.
Proof.
  induction acts as [|g acts IH]; [done|]. rewrite not_elem_of_cons. intros [Hg Hf] [(y & r & Hy & H) Hl].
  split; [|by apply IH]. exists y, r. by rewrite lookup_delete_ne.
Qed.

Lemma linked_loc m loc loc' acts : (forall w, w = None /\ acts <> [] \/ (exists f, w = Some f /\ f ∈ tail acts) -> loc' !! w = loc !! w) ->
  linked m loc acts -> linked m loc' acts.
Proof.
  revert loc'. induction acts as [|f acts IH]; intros loc' Hw; [done|]. intros [(x & r & Hx & Hf & Hc & Hr & Hb) Hl]. split.
  - exists x, r. split_and!; try done. rewrite Hw; [done|]. destruct acts as [|g acts]; [by left|].
    right. exists g. split; [done|]. left.
  - apply IH; [|done]. intros w [[-> Ha]|(g & -> & Hg)]; apply Hw; [by left|]. right. exists g. split; [done|].
    destruct acts; [by apply not_elem_of_nil in Hg|]. by right.
Qed.

Lemma rets_insert m acts f x : f ∉ acts -> rets (<[f := x]> m) acts = rets m acts.
Proof.
  intros Hf. unfold rets. induction acts as [|g acts IH]; [done|]. apply not_elem_of_cons in Hf as [Hg Hf]. cbn.
  rewrite IH by done. f_equal. unfold ret_frames. by rewrite lookup_insert_ne.
Qed.

Lemma rets_delete m acts f : f ∉ acts -> rets (delete f m) acts = rets m acts.
Proof.
  intros Hf. unfold rets. induction acts as [|g acts IH]; [done|]. apply not_elem_of_cons in Hf as [Hg Hf]. cbn.
  rewrite IH by done. f_equal. unfold ret_frames. by rewrite lookup_delete_ne.
Qed.

Lemma core_active m loc acts idl wak f : core acts idl wak loc m -> (0 < cnt f acts)%nat -> idl f = 0%nat /\ wak f = 0%nat.
Proof. intros Hc Hf. pose proof (c_once _ _ _ _ _ Hc f). lia. Qed.

Lemma core_NoDup m loc acts idl wak : core acts idl wak loc m -> NoDup acts.
Proof. intros Hc. apply cnt_NoDup. intros f. pose proof (c_once _ _ _ _ _ Hc f). lia. Qed.

Lemma core_mono m loc acts idl idl' wak wak' : core acts idl wak loc m ->
  (forall g, idl' g = idl g) -> (forall g, (wak' g <= wak g)%nat) -> core acts idl' wak' loc m.
Proof.
  intros [H1 H2 H3 H4 H5 H6] Hi Hw. split; try done.
  - intros f. specialize (H2 f). specialize (Hw f). rewrite Hi. lia.
  - intros f. rewrite Hi. apply H3.
  - intros f Hf. apply H4. specialize (Hw f). lia.
  - intros f. rewrite Hi. apply H5.
Qed.

(** A wake-up is scheduled for a suspended fiber. *)
Lemma core_schedule m loc acts idl wak wak' f : core acts idl wak loc m -> is_Some (m !! f) ->
  (cnt f acts + idl f + wak' f <= 1)%nat -> (forall g, g <> f -> wak' g = wak g) -> core acts idl wak' loc m.
Proof.
  intros [H1 H2 H3 H4 H5 H6] Hf Ho Hw. split; try done.
  - intros g. destruct (decide (g = f)) as [->|Hg]; [done|]. rewrite Hw by done. apply H2.
  - intros g Hg. destruct (decide (g = f)) as [->|]; [done|]. rewrite Hw in Hg by done. by apply H4.
Qed.

(** [f] is suspended. *)
Lemma core_leave m loc acts idl wak f x : core (f :: acts) idl wak loc m -> suspended f x (loc !! Some f) ->
  core acts idl wak loc (<[f := x]> m).
Proof.
  intros Hc Hs. pose proof (core_NoDup _ _ _ _ _ Hc) as [Hf _]%list.NoDup_cons. destruct Hc as [H1 H2 H3 H4 H5 H6]. split.
  - apply linked_insert; [done|]. apply H1.
  - intros g. specialize (H2 g). rewrite cnt_cons_eq in H2. lia.
  - intros g Hg. specialize (H2 g). rewrite cnt_cons_eq in H2. rewrite lookup_insert_ne; [by apply H3|].
    intros ->. rewrite decide_True in H2 by done. lia.
  - intros g Hg. destruct (decide (f = g)) as [->|]; [by rewrite lookup_insert_eq|]. rewrite lookup_insert_ne by done. by apply H4.
  - intros g y. destruct (decide (f = g)) as [->|Hg]; [rewrite lookup_insert_eq; intros [= <-]; by right|].
    rewrite lookup_insert_ne by done. intros Hy. destruct (H5 g y Hy) as [Hp|Hp]; [left|by right].
    rewrite cnt_cons_eq, decide_False in Hp by done. lia.
  - intros g Hg. apply H6. destruct (decide (f = g)) as [->|]; [by rewrite lookup_insert_eq in Hg|].
    by rewrite lookup_insert_ne in Hg.
Qed.

(** [f] has returned and is recycled. *)
Lemma core_recycle m loc acts idl idl' wak f x : core (f :: acts) idl wak loc m -> idle f x -> loc !! Some f = None ->
  (forall g, idl' g = ((if decide (g = f) then 1 else 0) + idl g)%nat) -> core acts idl' wak loc (<[f := x]> m).
Proof.
  intros Hc Hs Hn Hi. pose proof (core_NoDup _ _ _ _ _ Hc) as [Hf _]%list.NoDup_cons. destruct Hc as [H1 H2 H3 H4 H5 H6]. split.
  - apply linked_insert; [done|]. apply H1.
  - intros g. specialize (H2 g). rewrite cnt_cons_eq in H2. rewrite Hi. lia.
  - intros g. rewrite Hi. case_decide; subst; [rewrite lookup_insert_eq; eauto|]. intros Hg. rewrite lookup_insert_ne by done.
    apply H3. lia.
  - intros g Hg. destruct (decide (f = g)) as [->|]; [by rewrite lookup_insert_eq|]. rewrite lookup_insert_ne by done. by apply H4.
  - intros g y. rewrite Hi. destruct (decide (f = g)) as [->|Hg]; [rewrite decide_True by done; left; lia|].
    rewrite lookup_insert_ne by done. intros Hy. destruct (H5 g y Hy) as [Hp|Hp]; [left|by right].
    rewrite cnt_cons_eq in Hp. case_decide; [by subst|lia].
  - intros g Hg. apply H6. destruct (decide (f = g)) as [->|]; [by rewrite lookup_insert_eq in Hg|].
    by rewrite lookup_insert_ne in Hg.
Qed.

(** [f] is resumed, be it suspended or idle. *)
Lemma core_enter m loc acts idl idl' wak f fn r : core acts idl wak loc m -> is_Some fn ->
  cnt f acts = 0%nat -> idl' f = 0%nat -> wak f = 0%nat -> (forall g, g <> f -> idl' g = idl g) ->
  body (head acts) r (loc !! head acts) ->
  core (f :: acts) idl' wak (alter arrive (Some f) loc) (<[f := MkFiber fn Stale (Saved (FResume f :: r))]> m).
Proof.
  intros [H1 H2 H3 H4 H5 H6] Hfun Ha Hif Hwf Hi Hb. pose proof (proj1 (cnt_zero f acts) Ha) as Hf.
  assert (forall w, w <> Some f -> alter arrive (Some f) loc !! w = loc !! w) as Hl by (intros; by rewrite lookup_alter_ne).
  split.
  - split.
    + exists (MkFiber fn Stale (Saved (FResume f :: r))), r. split; [by rewrite lookup_insert_eq|]. split_and!; try done.
      rewrite Hl; [done|]. destruct acts as [|g acts]; [done|]. cbn. intros [= ->]. by apply not_elem_of_cons in Hf as [? _].
    + apply linked_insert; [done|]. apply (linked_loc _ loc); [|done].
      intros w [[-> _]|(g & -> & Hg)]; apply Hl; [done|]. intros [= ->]. apply Hf. destruct acts; [done|by right].
  - intros g. specialize (H2 g). rewrite cnt_cons_eq. case_decide; subst; [lia|]. rewrite Hi by done. lia.
  - intros g Hg. destruct (decide (f = g)) as [->|Hne]; [lia|]. rewrite Hl by congruence. rewrite lookup_insert_ne by done.
    apply H3. rewrite <-Hi by done. done.
  - intros g Hg. destruct (decide (f = g)) as [->|]; [by rewrite lookup_insert_eq|]. rewrite lookup_insert_ne by done. by apply H4.
  - intros g y. rewrite cnt_cons_eq. destruct (decide (g = f)) as [->|Hne]; [left; lia|].
    rewrite lookup_insert_ne by done. intros Hy. rewrite Hl by congruence. rewrite Hi by done. destruct (H5 g y Hy); [left; lia|by right].
  - intros g Hg. destruct (decide (f = g)) as [->|Hne]; [by rewrite lookup_insert_eq in Hg|].
    rewrite lookup_insert_ne in Hg by done. rewrite Hl by congruence. by apply H6.
Qed.

(** Fiber [f] is allocated. *)
Lemma core_create m loc acts idl idl' wak f x : core acts idl wak loc m -> m !! f = None -> idle f x ->
  (forall g, idl' g = ((if decide (g = f) then 1 else 0) + idl g)%nat) -> core acts idl' wak loc (<[f := x]> m).
Proof.
  intros [H1 H2 H3 H4 H5 H6] Hn Hid Hi.
  assert (cnt f acts = 0%nat /\ idl f = 0%nat /\ wak f = 0%nat) as (Ha & Hf & Hw).
  { split_and!.
    - apply cnt_zero. clear -H1 Hn. induction acts as [|g acts IH]; [apply not_elem_of_nil|]. destruct H1 as [(x & r & Hx & _) H1].
      apply not_elem_of_cons. split; [congruence|]. by apply IH.
    - destruct (idl f) eqn:E; [done|]. destruct (H3 f) as (_ & y & ? & _); [lia|congruence].
    - destruct (wak f) eqn:E; [done|]. destruct (H4 f) as [y ?]; [lia|congruence]. }
  split.
  - apply linked_insert; [by apply cnt_zero|done].
  - intros g. specialize (H2 g). rewrite Hi. case_decide; subst; lia.
  - intros g. rewrite Hi. case_decide; subst; [rewrite lookup_insert_eq; eauto|]. intros Hg. rewrite lookup_insert_ne by done.
    apply H3. lia.
  - intros g Hg. destruct (decide (f = g)) as [->|]; [by rewrite lookup_insert_eq|]. rewrite lookup_insert_ne by done. by apply H4.
  - intros g y. rewrite Hi. destruct (decide (g = f)) as [->|Hg]; [left; lia|].
    rewrite lookup_insert_ne by done. intros Hy. destruct (H5 g y Hy); [left; lia|by right].
  - intros g Hg. destruct (decide (f = g)) as [->|]; [by rewrite lookup_insert_eq in Hg|].
    rewrite lookup_insert_ne in Hg by done. by apply H6.
Qed.

(** The idle fiber [f] is deleted. *)
Lemma core_delete m loc acts idl idl' wak f : core acts idl wak loc m -> loc !! Some f = None -> (0 < idl f)%nat ->
  idl' f = 0%nat -> (forall g, g <> f -> idl' g = idl g) -> core acts idl' wak loc (delete f m).
Proof.
  intros [H1 H2 H3 H4 H5 H6] Hl Hf Hif Hi. pose proof (H2 f) as Ho. split.
  - apply linked_delete; [apply cnt_zero; lia|done].
  - intros g. specialize (H2 g). destruct (decide (g = f)) as [->|]; [lia|]. by rewrite Hi.
  - intros g Hg. destruct (decide (g = f)) as [->|]; [lia|]. rewrite lookup_delete_ne by done. apply H3. by rewrite <-Hi.
  - intros g Hg. destruct (decide (g = f)) as [->|]; [lia|]. rewrite lookup_delete_ne by done. by apply H4.
  - intros g y Hy. destruct (decide (g = f)) as [->|]; [by rewrite lookup_delete_eq in Hy|].
    rewrite lookup_delete_ne in Hy by done. rewrite Hi by done. by apply H5.
  - intros g Hg. destruct (decide (g = f)) as [->|]; [done|]. rewrite lookup_delete_ne in Hg by done. by apply H6.
Qed.

(** ** The invariant while an operation runs

    [minv ex]: as [inv], without the shape of the running stack, and with nothing said about the wake-up of the
    fiber [ex], which the operation is about to suspend or resume. *)

Definition hide (ex : option nat) (wak : nat -> nat) (g : nat) : nat := if decide (ex = Some g) then 0%nat else wak g.

(** All of it but the places of the fibers. *)
Record aux (ex : option nat) (size : nat) (d : D) (sp : spec) (s : state) : Prop := {
  m_run : spec_run d (log s) sp;
  m_data : sp_data sp = data s;
  m_shared : deletions (mTaskQueue s) = [];
  m_fresh : forall f, is_Some (fibers s !! f) -> (f < allocations s)%nat;
  m_size : mFiberCacheSize s = size;
  m_cache : (length (mFiberCache s) <= size)%nat;
  m_dying : forall c, (cnt c (flat_map dying (frames s (sp_active sp))) <= 1)%nat /\
      ((0 < cnt c (flat_map dying (frames s (sp_active sp))))%nat ->
        exists x, conds s !! c = Some x /\ cv_alive x = true /\ cv_dying x = true);
  m_away : forall f u r, Some f <> ex -> sp_local sp !! Some f = Some (u, Away r) -> away_ok s (sp_active sp) f r
}.

Definition minv (ex : option nat) (size : nat) (d : D) (sp : spec) (s : state) : Prop :=
  aux ex size d sp s /\
  core (sp_active sp) (idles s (sp_active sp)) (hide ex (wakes s (sp_active sp))) (sp_local sp) (fibers s).

Lemma hide_None wak g : hide None wak g = wak g.
Proof. done. Qed.
Lemma hide_eq wak g : hide (Some g) wak g = 0%nat.
Proof. unfold hide. by rewrite decide_True. Qed.
Lemma hide_ne ex wak g : ex <> Some g -> hide ex wak g = wak g.
Proof. intros. unfold hide. by rewrite decide_False. Qed.
Lemma hide_le ex wak g : (hide ex wak g <= wak g)%nat.
Proof. unfold hide. case_decide; lia. Qed.

Lemma minv_inv size d sp s : inv size d sp s <->
  minv None size d sp s /\ body (head (sp_active sp)) (stack s) (sp_local sp !! head (sp_active sp)).
Proof.
  split.
  - intros []. split; [|done]. split; [|done]. split; try done. eauto.
  - intros [[[] ?] ?]. split; try done. eauto.
Qed.

(** An operation looks away from the wake-up of [f]. *)
Lemma minv_hide ex size d sp s : minv None size d sp s -> minv ex size d sp s.
Proof.
  intros [[] Hc]. split; [split; try done; eauto|]. eapply core_mono; [done..|]. intros g. rewrite hide_None. apply hide_le.
Qed.

(** The frames [ks] and [ks'] hold the same tasks, waiting fibers and dying condition variables. *)
Definition same_tokens (ks ks' : list frame) : Prop :=
  flat_map pending ks = flat_map pending ks' /\ flat_map notified ks = flat_map notified ks' /\
  flat_map dying ks = flat_map dying ks'.

Lemma susp_tokens f st (e : option (U * @mode D)) : susp f (FWait f :: st) e -> same_tokens st [].
Proof. by inversion 1; subst. Qed.

Lemma susp_away f st (e : option (U * @mode D)) : susp f st e -> is_away e.
Proof. by inversion 1. Qed.

Lemma same_tokens_app ks ks' l : same_tokens ks ks' -> same_tokens (ks ++ l) (ks' ++ l).
Proof. intros (H1 & H2 & H3). unfold same_tokens. by rewrite !flat_map_app, H1, H2, H3. Qed.

(** Fiber [f], which runs, is suspended by [wait]. *)
Lemma leave_ok f size d acts loc dd s : minv (Some f) size d (Spec (f :: acts) loc dd) s ->
  susp f (FWait f :: stack s) (loc !! Some f) -> (wakes s (f :: acts) f <= 1)%nat ->
  (forall u r, loc !! Some f = Some (u, Away r) -> away_ok s (f :: acts) f r) ->
  wp (wait f) s (fun _ s' => inv size d (Spec acts loc dd) s').
Proof.
  intros [[Hrun Hdata Hsh Hfr Hsz Hca Hdy Haw] Hcore] Hs Hw Ha. cbn [sp_active sp_local sp_data] in *.
  pose proof (c_linked _ _ _ _ _ Hcore) as [(x & r & Hx & Hfun & Hc & Hr & Hb) _].
  pose proof (core_NoDup _ _ _ _ _ Hcore) as [Hf _]%list.NoDup_cons.
  pose proof (c_once _ _ _ _ _ Hcore f) as Ho. rewrite cnt_cons_eq, decide_True, hide_eq in Ho by done.
  eapply wp_ok; [by apply wait_eq with (x := x) (r := r)|]. set (s' := set_stack _ _).
  assert (same_tokens (frames s' acts) (frames s (f :: acts))) as (T1 & T2 & T3).
  { unfold frames. cbn. rewrite rets_insert by done. unfold ret_frames. rewrite Hx, Hr. destruct (susp_tokens _ _ _ Hs) as (E1 & E2 & E3).
    unfold same_tokens. cbn. rewrite !flat_map_app, E1, E2, E3. cbn. by rewrite !flat_map_app. }
  assert (forall g, wakes s' acts g = wakes s (f :: acts) g) as Ew.
  { intros g. unfold wakes, n_local, n_notified. by rewrite T1, T2. }
  assert (forall g, idles s' acts g = idles s (f :: acts) g) as Ei.
  { intros g. unfold idles, n_delete. by rewrite T1. }
  assert (suspended f (MkFiber (mFun x) (Saved (FWait f :: stack s)) Null) (loc !! Some f)) as Hsus.
  { split; [done|]. split; [done|]. by exists (FWait f :: stack s). }
  split; cbn [sp_active sp_local sp_data]; try done.
  - eapply spec_run_cons; [done|]. apply spec_back. by eapply susp_away.
  - eapply core_schedule with (f := f); [eapply core_leave|..].
    + eapply core_mono; [done|apply Ei|done].
    + done.
    + cbn. by rewrite lookup_insert_eq.
    + rewrite Ew, Ei. lia.
    + intros g Hg. rewrite Ew, hide_ne by congruence. done.
  - intros g. cbn. destruct (decide (f = g)) as [->|]; [eauto|]. rewrite lookup_insert_ne by done. apply Hfr.
  - rewrite T3. done.
  - intros g u rr Hg. assert (away_ok s (f :: acts) g rr) as Hok by (destruct (decide (g = f)) as [->|]; [eauto|apply (Haw g u); [congruence|done]]).
    revert Hok. unfold away_ok, wakes, n_local, n_notified. by rewrite T1, T2.
Qed.

(** Fiber [f], which does not run, is resumed: one that is suspended, or an idle one that was given a function. *)
Lemma enter_gen f size d acts loc dd s m0 idl fn c st : aux (Some f) size d (Spec acts loc dd) s ->
  core acts idl (hide (Some f) (wakes s acts)) loc m0 -> (forall g, g <> f -> idles s acts g = idl g) ->
  cnt f acts = 0%nat -> idles s acts f = 0%nat -> wakes s acts f = 0%nat ->
  fibers s = <[f := MkFiber (Some fn) (Saved c) Null]> m0 -> entered f c st -> same_tokens st [] ->
  is_away (loc !! Some f) -> body (Some f) st (arrive <$> loc !! Some f) -> body (head acts) (stack s) (loc !! head acts) ->
  wp (resume f) s (fun _ s' => exists sp', inv size d sp' s').
Proof.
  intros [Hrun Hdata Hsh Hfr Hsz Hca Hdy Haw] Hcore Hi Hf Hif Hwf Hm He Ht Hia Hbf Hb. cbn [sp_active sp_local sp_data] in *.
  eapply wp_ok; [eapply resume_eq; [rewrite Hm; apply lookup_insert_eq|done..]|]. set (s' := set_stack _ _). cbn [mFun] in s'.
  exists (Spec (f :: acts) (alter arrive (Some f) loc) dd).
  assert (f ∉ acts) as Hfa by (by apply cnt_zero).
  assert (same_tokens (frames s' (f :: acts)) (frames s acts)) as (T1 & T2 & T3).
  { unfold frames. change (rets ?m (f :: acts)) with (ret_frames m f ++ rets m acts).
    cbn [s' stack fibers set_stack emit set_fibers]. rewrite rets_insert by done. unfold ret_frames.
    rewrite lookup_insert_eq. cbn [mReturnContext].
    destruct Ht as (E1 & E2 & E3). unfold same_tokens. by rewrite !flat_map_app, E1, E2, E3. }
  assert (forall g, wakes s' (f :: acts) g = wakes s acts g) as Ew.
  { intros g. unfold wakes, n_local, n_notified. by rewrite T1, T2. }
  assert (forall g, idles s' (f :: acts) g = idles s acts g) as Ei.
  { intros g. unfold idles, n_delete. by rewrite T1. }
  split; cbn [sp_active sp_local sp_data]; try done.
  - eapply spec_run_cons; [done|]. by apply spec_resume.
  - cbn [s' fibers set_stack emit set_fibers]. rewrite Hm, insert_insert_eq.
    apply core_enter with (idl := idl); try done.
    + eapply core_mono; [exact Hcore|done|]. intros g. rewrite Ew. unfold hide. case_decide; [|done]. simplify_eq. lia.
    + by rewrite Ei.
    + by rewrite Ew.
    + intros g Hg. by rewrite Ei, Hi.
  - cbn. by rewrite lookup_alter_eq.
  - intros g. cbn. destruct (decide (f = g)) as [->|]; [|rewrite lookup_insert_ne by done; apply Hfr].
    intros _. apply Hfr. rewrite Hm, lookup_insert_eq. eauto.
  - by rewrite T3.
  - intros g u r. destruct (decide (f = g)) as [->|Hg].
    + rewrite lookup_alter_eq. destruct (loc !! Some g) as [[? [| |[| |? []]]]|]; cbn; try done; congruence.
    + rewrite lookup_alter_ne by congruence. intros Hl.
      assert (away_ok s acts g r) as Hok by (eapply Haw; [congruence|done]).
      revert Hok. unfold away_ok, wakes, n_local, n_notified. by rewrite T1, T2.
Qed.

Lemma susp_enter f st e : susp f st e -> exists st', st = FWait f :: st' /\ same_tokens st' [] /\ body (Some f) st' (arrive <$> e).
Proof.
  inversion 1; subst; eexists; (split; [done|]); (split; [done|]); cbn.
  - destruct r as [| |? []]; try done; apply body_user; constructor.
  - apply body_pred; constructor.
Qed.

Lemma enter_ok f size d acts loc dd s : minv (Some f) size d (Spec acts loc dd) s ->
  is_Some (fibers s !! f) -> cnt f acts = 0%nat -> idles s acts f = 0%nat -> wakes s acts f = 0%nat ->
  body (head acts) (stack s) (loc !! head acts) ->
  wp (resume f) s (fun _ s' => exists sp', inv size d sp' s').
Proof.
  intros [Haux Hcore] [x Hx] Hf Hi Hw Hb. cbn [sp_active sp_local sp_data] in *.
  destruct (c_susp _ _ _ _ _ Hcore f x Hx) as [?|([fn Hfn] & Hr & st & Hst & Hs)]; [lia|].
  destruct (susp_enter _ _ _ Hs) as (st' & -> & Ht & Hbf).
  eapply enter_gen; try done.
  - rewrite insert_id; [done|]. rewrite Hx. destruct x; naive_solver.
  - by right.
  - by eapply susp_away.
Qed.

(** ** Starting and recycling fibers *)

(** An idle fiber that was taken from the cache, or was made, is given a function. *)
Lemma fiber_execute_ok f fn size d acts loc dd s idl : aux (Some f) size d (Spec acts loc dd) s ->
  core acts idl (hide (Some f) (wakes s acts)) loc (fibers s) -> (0 < idl f)%nat -> (forall g, g <> f -> idles s acts g = idl g) ->
  idles s acts f = 0%nat -> wakes s acts f = 0%nat -> body (head acts) (stack s) (loc !! head acts) ->
  wp (fiber_execute f fn) s (fun _ s' => exists sp', inv size d sp' s').
Proof.
  intros Haux Hcore Hif Hi Hf Hw Hb.
  destruct (c_idle _ _ _ _ _ Hcore f Hif) as (Hl & x & Hx & Hfun & Hr & Hc).
  pose proof (c_once _ _ _ _ _ Hcore f) as Ho. rewrite hide_eq in Ho.
  assert (f ∉ acts) as Hfa by (apply cnt_zero; lia).
  unfold fiber_execute. wpb. eapply wp_ok; [unfold get_fiber; by rewrite Hx|]. unfold empty. rewrite Hfun. wpb.
  apply wp_assert; [done|]. wpb. eapply wp_ok; [done|]. cbv beta.
  assert (exists c st, mContext x = Saved c /\ entered f c st /\ same_tokens st [] /\ body (Some f) st None)
    as (c & st & Hcx & He & Ht & Hbf).
  { destruct Hc as [Hc|Hc]; rewrite Hc; eexists _, [FLoop f; FEntry f]; (split; [done|]); (split; [by (left + right)|]);
      (split; [done|apply body_loop]). }
  rewrite Hr, Hcx. set (s' := set_fibers _ s).
  assert (rets (fibers s') acts = rets (fibers s) acts) as Er by (by apply rets_insert).
  assert (frames s' acts = frames s acts) as Ef by (unfold frames; by rewrite Er).
  eapply (enter_gen f size d acts loc dd s' (fibers s) idl fn c st); try done.
  - destruct Haux as [? ? ? Hfr ? ? Hdy Haw]. cbn [sp_active sp_local] in *. split; cbn [sp_active sp_local]; try done.
    + intros g Hg. apply Hfr. cbn in Hg. destruct (decide (f = g)) as [->|]; [eauto|]. by rewrite lookup_insert_ne in Hg.
    + by rewrite Ef.
    + intros g u r Hg Hlg. specialize (Haw g u r Hg Hlg). revert Haw. unfold away_ok, wakes. by rewrite Ef.
  - eapply core_mono; [done|done|]. intros g. unfold hide, wakes. by rewrite Ef.
  - intros g Hg. unfold idles. rewrite Ef. by apply Hi.
  - lia.
  - unfold idles. by rewrite Ef.
  - unfold wakes. by rewrite Ef.
  - by rewrite Hl.
  - by rewrite Hl.
Qed.

Lemma minv_NoDup ex size d sp s : minv ex size d sp s -> NoDup (sp_active sp).
Proof. intros [_ Hc]. by eapply core_NoDup. Qed.

Lemma executeLocalFiber_ok fn size d sp s : inv size d sp s ->
  wp (executeLocalFiber fn) s (fun _ s' => exists sp', inv size d sp' s').
Proof.
  intros [[Haux Hcore] Hb]%minv_inv. destruct sp as [acts loc dd]. cbn [sp_active sp_local sp_data] in *.
  unfold executeLocalFiber. wpb. eapply wp_ok; [done|]. destruct (mFiberCache s) as [|f cache] eqn:Ec; wpb.
  - eapply wp_ok; [done|]. cbv beta. set (f := allocations s). set (s' := set_allocations _ _).
    destruct Haux as [? ? ? Hfr ? ? Hdy Haw]. cbn [sp_active sp_local] in *.
    assert (fibers s !! f = None) as Hn by (destruct (fibers s !! f) eqn:E; [specialize (Hfr f (mk_is_Some _ _ E)); unfold f in Hfr; lia|done]).
    assert (core acts (fun g => (if decide (g = f) then 1 else 0) + idles s acts g)%nat (wakes s acts) loc (fibers s')) as Hcore'.
    { eapply core_create; [exact Hcore|done| |done]. split; [done|]. split; [done|]. by left. }
    pose proof (c_once _ _ _ _ _ Hcore' f) as Ho. cbv beta in Ho. rewrite decide_True in Ho by done.
    assert (frames s' acts = frames s acts) as Ef.
    { unfold frames. cbn [s' stack fibers set_allocations set_fibers]. rewrite rets_insert; [done|]. apply cnt_zero. lia. }
    eapply fiber_execute_ok with (acts := acts) (loc := loc) (idl := fun g => ((if decide (g = f) then 1 else 0) + idles s acts g)%nat).
    + split; cbn [sp_active sp_local]; try done.
      * intros g Hg. cbn in Hg. destruct (decide (f = g)) as [->|]; [cbn; lia|]. rewrite lookup_insert_ne in Hg by done.
        specialize (Hfr g Hg). cbn. lia.
      * by rewrite Ef.
      * intros g u r Hg Hlg. specialize (Haw g u r ltac:(done) Hlg). revert Haw. unfold away_ok, wakes. by rewrite Ef.
    + eapply core_mono; [done|done|]. intros g. unfold hide, wakes. rewrite Ef. by case_decide; [lia|].
    + cbv beta. rewrite decide_True by done. lia.
    + intros g Hg. cbv beta. rewrite decide_False by done. unfold idles. by rewrite Ef.
    + unfold idles. rewrite Ef. change (idles s acts f = 0%nat). lia.
    + unfold wakes. rewrite Ef. change (wakes s acts f = 0%nat). lia.
    + done.
  - eapply wp_ok; [done|]. apply wp_ret. set (s' := set_cache _ _). cbn in s'.
    destruct Haux as [? ? ? Hfr ? Hca Hdy Haw]. cbn [sp_active sp_local] in *.
    assert (frames s' acts = frames s acts) as Ef by done.
    assert (forall g, idles s acts g = ((if decide (g = f) then 1 else 0) + idles s' acts g)%nat) as Ei.
    { intros g. unfold idles. rewrite Ec, cnt_cons_eq, Ef. cbn [s' mFiberCache set_cache mLocalTaskQueue]. lia. }
    pose proof (c_once _ _ _ _ _ Hcore f) as Ho. rewrite Ei, decide_True, hide_None in Ho by done.
    eapply fiber_execute_ok with (acts := acts) (loc := loc) (idl := idles s acts).
    + split; cbn [sp_active sp_local]; try done; [cbn; rewrite Ec in Hca; cbn in Hca; lia|]. intros g u r _. apply Haw. done.
    + eapply core_mono; [done|done|]. intros g. apply hide_le.
    + rewrite Ei, decide_True by done. lia.
    + intros g Hg. by rewrite Ei, decide_False.
    + lia.
    + change (wakes s acts f = 0%nat). lia.
    + done.
Qed.

(** What is below the innermost frame of an active computation. *)
Lemma body_inv w k st (e : option (U * @mode D)) : body w (k :: st) e ->
  match k with
  | FUser u => base w st /\ e = Some (u, Go)
  | FPred c f p => exists u, w = Some f /\ st = [FUser u; FStart f; FEntry f] /\ e = Some (u, Check c p)
  | FNotify _ | FDestroy _ => body w st e
  | FLocal _ | FShared => w = None /\ st = [] /\ e = None
  | FLoop f | FStart f => w = Some f /\ st = [FEntry f] /\ e = None
  | FWait _ | FResume _ | FEntry _ | FEnter => False
  end.
Proof.
  intros Hb. inversion Hb as [w' b Hbase| |w' u b Hbase|c f p u b Hbase| | |]; subst; try done.
  - by inversion Hbase; subst.
  - inversion Hbase; subst. by exists u.
  - by apply body_user.
  - by apply body_user.
  - by apply body_destroy.
Qed.

(** The state behind [recycleFiber(f)]. *)
Definition recycled (f : nat) (s : state) : state :=
  if (length (mFiberCache s) <? mFiberCacheSize s)%nat then set_cache (mFiberCache s ++ [f]) s
  else set_local (mLocalTaskQueue s ++ [TDelete f]) s.

Lemma recycled_idles f s acts g : idles (recycled f s) acts g = ((if decide (g = f) then 1 else 0) + idles s acts g)%nat.
Proof.
  unfold recycled, idles, n_delete, frames. case_match; cbn; rewrite ?deletions_app, ?deletions_cons, ?deletions_nil, !cnt_app_eq, ?cnt_cons_eq, ?cnt_nil; lia.
Qed.

Lemma recycled_wakes f s acts g : wakes (recycled f s) acts g = wakes s acts g.
Proof.
  unfold recycled, wakes, n_local, frames. case_match; [done|]. cbn. rewrite resumes_app, cnt_app_eq, resumes_cons, resumes_nil, cnt_nil. lia.
Qed.

Lemma recycled_away f s acts g r : away_ok s acts g r -> away_ok (recycled f s) acts g r.
Proof.
  unfold away_ok. rewrite recycled_wakes. unfold recycled, n_local, frames.
  destruct r; case_match; try done; cbn; rewrite resumes_app, cnt_app_eq; lia.
Qed.

Lemma recycled_size f s : mFiberCacheSize (recycled f s) = mFiberCacheSize s.
Proof. unfold recycled. by case_match. Qed.

Lemma recycled_cache f s : (length (mFiberCache s) <= mFiberCacheSize s -> length (mFiberCache (recycled f s)) <= mFiberCacheSize s)%nat.
Proof.
  unfold recycled. destruct (Nat.ltb_spec (length (mFiberCache s)) (mFiberCacheSize s)); cbn; [|done]. rewrite length_app. cbn. lia.
Qed.

Lemma recycleFiber_eq f s x : fibers s !! f = Some x -> mFun x = None -> recycleFiber f s = Ok tt (recycled f s).
Proof.
  intros Hx Hf. unfold recycleFiber, recycled, bind, get_fiber, empty. rewrite Hx, Hf. cbn. by case_match.
Qed.

(** What [start_returned] computes. *)
Lemma start_returned_eq f s x r : fibers s !! f = Some x -> mReturnContext x = Saved (FResume f :: r) ->
  start_returned f s = Ok tt (set_stack r (emit (EBack f) (set_fibers
    (<[f := MkFiber None (Saved (FWait f :: FLoop f :: stack s)) Null]> (fibers s)) (recycled f s)))).
Proof.
  intros Hx Hr. unfold start_returned, bind, get_fiber. rewrite Hx. cbn.
  erewrite recycleFiber_eq; [|cbn; apply lookup_insert_eq|done]. cbn.
  erewrite wait_eq; [|unfold recycled; case_match; cbn; apply lookup_insert_eq|cbn; exact Hr].
  unfold recycled. cbn. by case_match; cbn; rewrite insert_insert_eq.
Qed.

Lemma start_returned_ok f st size d sp s : inv size d sp s -> stack s = FStart f :: st ->
  wp (start_returned f) (set_stack st s) (fun _ s' => exists sp', inv size d sp' s').
Proof.
  intros [Hrun Hdata Hcore Hb Hsh Hfr Hsz Hca Hdy Haw] Hst. destruct sp as [acts loc dd]. cbn [sp_active sp_local sp_data] in *.
  rewrite Hst in Hb. apply body_inv in Hb as (Hg & -> & Hnone).
  destruct acts as [|g acts]; [done|]. cbn [head] in *. assert (g = f) as -> by congruence.
  pose proof (c_linked _ _ _ _ _ Hcore) as [(x & r & Hx & Hfun & Hc & Hr & Hbr) _].
  pose proof (core_NoDup _ _ _ _ _ Hcore) as [Hf _]%list.NoDup_cons.
  eapply wp_ok; [by eapply start_returned_eq with (x := x)|]. set (s' := set_stack r _). cbn [stack set_stack] in s'.
  exists (Spec acts loc dd).
  assert (same_tokens (frames s' acts) (frames s (f :: acts))) as (T1 & T2 & T3).
  { unfold frames. rewrite Hst. change (rets ?m (f :: acts)) with (ret_frames m f ++ rets m acts).
    cbn [s' stack fibers set_stack emit set_fibers]. rewrite rets_insert by done. unfold ret_frames. rewrite Hx, Hr.
    unfold same_tokens. cbn. by rewrite !flat_map_app. }
  set (sr := recycled f s). assert (forall a, wakes s' acts a = wakes s (f :: acts) a) as Ew.
  { intros a. rewrite <-(recycled_wakes f s (f :: acts)). unfold wakes, n_local, n_notified. rewrite T1, T2.
    unfold s', recycled. cbn [mFiberCache mFiberCacheSize set_stack]. by case_match. }
  assert (forall a, idles s' acts a = idles (recycled f s) (f :: acts) a) as Ei.
  { intros a. unfold idles, n_delete. rewrite T1. unfold s', recycled. cbn [mFiberCache mFiberCacheSize set_stack]. by case_match. }
  assert (log s' = EBack f :: log s /\ data s' = data s /\ mTaskQueue s' = mTaskQueue s /\ allocations s' = allocations s /\
          conds s' = conds s) as (El & Ed & Et & Ea & Econd) by (unfold s', recycled; cbn [mFiberCache mFiberCacheSize set_stack]; by case_match).
  split; cbn [sp_active sp_local sp_data].
  - rewrite El. eapply spec_run_cons; [done|]. apply spec_back. by rewrite Hnone.
  - by rewrite Ed.
  - eapply core_recycle with (idl := idles s (f :: acts)).
    + eapply core_mono; [done|done|]. intros a. by rewrite Ew.
    + split; [done|]. split; [done|]. by right.
    + done.
    + intros a. by rewrite Ei, recycled_idles.
  - done.
  - by rewrite Et.
  - intros a. rewrite Ea. cbn [s' fibers set_stack emit set_fibers]. destruct (decide (f = a)) as [->|]; [eauto|].
    rewrite lookup_insert_ne by done. apply Hfr.
  - rewrite <-Hsz. unfold s', recycled. cbn [mFiberCache mFiberCacheSize set_stack]. by case_match.
  - pose proof (recycled_cache f s) as Hrc. rewrite Hsz in Hrc. specialize (Hrc Hca). revert Hrc. unfold s', recycled. cbn [mFiberCache mFiberCacheSize set_stack]. by case_match.
  - intros c. rewrite T3, Econd. apply Hdy.
  - intros a u rr Hl. specialize (Haw a u rr Hl). apply (recycled_away f) in Haw. revert Haw. unfold away_ok.
    rewrite Ew, recycled_wakes, Et, Econd. unfold n_local, n_notified. rewrite T1, T2.
    unfold s', recycled. cbn [mFiberCache mFiberCacheSize set_stack]. by destruct rr; case_match.
Qed.

(** ** Tasks *)

(** Queues change and nothing else. *)
Definition same_rest (s s' : state) : Prop :=
  log s' = log s /\ data s' = data s /\ fibers s' = fibers s /\ allocations s' = allocations s /\
  mFiberCacheSize s' = mFiberCacheSize s /\ mFiberCache s' = mFiberCache s.

Lemma minv_change ex size d sp s s' : minv None size d sp s -> same_rest s s' -> deletions (mTaskQueue s') = [] ->
  (forall g, idles s' (sp_active sp) g = idles s (sp_active sp) g) ->
  (forall g, (hide ex (wakes s' (sp_active sp)) g <= wakes s (sp_active sp) g)%nat) ->
  (forall c, (cnt c (flat_map dying (frames s' (sp_active sp))) <= 1)%nat /\
     ((0 < cnt c (flat_map dying (frames s' (sp_active sp))))%nat ->
       exists x, conds s' !! c = Some x /\ cv_alive x = true /\ cv_dying x = true)) ->
  (forall g u r, Some g <> ex -> sp_local sp !! Some g = Some (u, Away r) -> away_ok s (sp_active sp) g r ->
     away_ok s' (sp_active sp) g r) ->
  minv ex size d sp s'.
Proof.
  intros [[Hrun Hdata Hsh Hfr Hsz Hca Hdy Haw] Hcore] (El & Ed & Ef & Ea & Es & Ec) Hsh' Hi Hw Hdy' Haw'. split.
  - split; rewrite ?El, ?Ed, ?Ef, ?Ea, ?Es, ?Ec; try done. intros g u r Hg Hl. apply (Haw' g u r Hg Hl). apply (Haw g u r); [done|done].
  - rewrite Ef. eapply core_mono; [exact Hcore|done|done].
Qed.

(** The task [t] was taken from a queue. *)
Record took (t : task) (s s1 : state) : Prop := {
  t_rest : same_rest s s1;
  t_conds : conds s1 = conds s;
  t_shared : deletions (mTaskQueue s) = [] -> deletions (mTaskQueue s1) = [];
  t_idles : forall g, idles s [] g = (idles s1 [] g + cnt g (deletions [t]))%nat;
  t_wakes : forall g, wakes s [] g = (wakes s1 [] g + cnt g (resumes [t]))%nat;
  t_local : forall g, (n_local (mLocalTaskQueue s) (frames s []) g <= n_local (mLocalTaskQueue s1) (frames s1 []) g + cnt g (resumes [t]))%nat;
  t_parked : forall g, (cnt g (resumes (mTaskQueue s)) <= cnt g (resumes (mTaskQueue s1)) + cnt g (resumes [t]))%nat;
  t_frames : flat_map notified (frames s1 []) = flat_map notified (frames s []) /\
    flat_map dying (frames s1 []) = flat_map dying (frames s [])
}.

Lemma took_minv t ex size d sp s s1 : inv size d sp s -> sp_active sp = [] -> took t s s1 -> deletions [t] = [] ->
  (forall g, ex <> Some g -> cnt g (resumes [t]) = 0%nat) -> minv ex size d sp s1.
Proof.
  intros Hinv Ha [Hr Hc Hs Hi Hw Hl Hp [Hn Hd]] Hdel Hres. pose proof Hinv as [[Haux _] _]%minv_inv.
  apply minv_inv in Hinv as [Hm _]. eapply minv_change; [done..| | | | |]; rewrite ?Ha.
  - apply Hs. apply (m_shared _ _ _ _ _ Haux).
  - intros g. rewrite Hi, Hdel, cnt_nil. lia.
  - intros g. rewrite Hw. pose proof (hide_le ex (wakes s1 []) g). lia.
  - rewrite Hd, Hc, <-Ha. apply (m_dying _ _ _ _ _ Haux).
  - intros g u r Hg _. unfold away_ok, n_notified. rewrite Hn, Hc. specialize (Hl g). specialize (Hp g). specialize (Hres g). specialize (Hw g).
    rewrite Hres in Hl, Hp, Hw by congruence. destruct r; [lia|lia|done].
Qed.

(** A fiber that is deleted is idle. *)
Lemma destroy_ok f size d sp s s1 : inv size d sp s -> sp_active sp = [] -> took (TDelete f) s s1 ->
  body None (stack s1) (sp_local sp !! None) ->
  wp (destroy f) s1 (fun _ s' => exists sp', inv size d sp' s').
Proof.
  intros [Hrun Hdata Hcore _ Hsh Hfr Hsz Hca Hdy Haw] Ha [(El & Ed & Ef & Eal & Es & Ec) Hc Hs Hi Hw Hl Hp [Hn Hd]] Hb.
  rewrite Ha in *. pose proof (Hi f) as Hif. rewrite deletions_cons, cnt_cons_eq, decide_True in Hif by done.
  destruct (c_idle _ _ _ _ _ Hcore f) as (Hlf & x & Hx & _ & Hnull & _); [lia|].
  pose proof (c_once _ _ _ _ _ Hcore f) as Ho.
  unfold destroy. wpb. eapply wp_ok; [unfold get_fiber; by rewrite Ef, Hx|]. rewrite Hnull. cbv beta. eapply wp_ok; [done|]. cbv beta.
  exists sp. set (s' := set_fibers _ s1).
  assert (frames s' [] = frames s1 []) as Efr by done.
  split; rewrite ?Ha; cbn [s' set_fibers log data mTaskQueue allocations mFiberCacheSize mFiberCache stack fibers].
  - by rewrite El.
  - by rewrite Ed.
  - rewrite Ef. eapply core_delete with (f := f); [eapply core_mono; [exact Hcore|done|]|done|..].
    + intros g. change (wakes s1 [] g <= wakes s [] g)%nat. rewrite Hw. lia.
    + lia.
    + change (idles s1 [] f = 0%nat). lia.
    + intros g Hg. change (idles s1 [] g = idles s [] g). rewrite Hi, deletions_cons, cnt_cons_eq, decide_False, deletions_nil, cnt_nil by done. lia.
  - done.
  - by apply Hs.
  - intros g. rewrite Eal, Ef. intros Hg. apply Hfr. destruct (decide (f = g)) as [->|]; [by rewrite lookup_delete_eq in Hg; destruct Hg|].
    by rewrite lookup_delete_ne in Hg.
  - by rewrite Es.
  - by rewrite Ec.
  - change (conds s') with (conds s1). rewrite Efr, Hd, Hc. done.
  - intros g u r Hg. specialize (Haw g u r Hg). revert Haw. unfold away_ok, n_notified. change (conds s') with (conds s1). rewrite Efr, Hn, Hc.
    specialize (Hl g). specialize (Hp g). specialize (Hw g). rewrite resumes_cons, resumes_nil, cnt_nil in Hl, Hp, Hw.
    change (wakes s' [] g) with (wakes s1 [] g). change (mLocalTaskQueue s') with (mLocalTaskQueue s1).
    change (mTaskQueue s') with (mTaskQueue s1). destruct r; [lia|lia|done].
Qed.

(** The application is called where no fiber runs. *)
Lemma task_ok u size d sp s : minv None size d sp s -> sp_active sp = [] -> sp_local sp !! None = None -> base None (stack s) ->
  inv size d (Spec [] (<[None := (u, Go)]> (sp_local sp)) (sp_data sp)) (set_stack (FUser u :: stack s) (emit (ETask u) s)).
Proof.
  destruct sp as [acts loc dd]. cbn [sp_active sp_local sp_data]. intros [[Hrun Hdata Hsh Hfr Hsz Hca Hdy Haw] Hcore] -> Hl Hb.
  cbn [sp_active sp_local sp_data] in *. apply minv_inv. split; [split|]; cbn [sp_active sp_local sp_data].
  - split; cbn [sp_active sp_local sp_data]; try done.
    + eapply spec_run_cons; [done|]. by apply spec_task.
    + intros f v r Hf. rewrite lookup_insert_ne by done. apply Haw. done.
  - destruct Hcore as [H1 H2 H3 H4 H5 H6]. split; try done.
    + intros f Hf. rewrite lookup_insert_ne by done. by apply H3.
    + intros f x Hx. rewrite lookup_insert_ne by done. by apply H5.
    + intros f Hf. rewrite lookup_insert_ne by done. by apply H6.
  - cbn. rewrite lookup_insert_eq. by apply body_user.
Qed.

Lemma fiber_task_ok t size d sp s s1 : inv size d sp s -> sp_active sp = [] -> took t s s1 -> base None (stack s1) ->
  sp_local sp !! None = None -> wp (run_task t) s1 (fun _ s' => exists sp', inv size d sp' s').
Proof.
  intros Hinv Ha Ht Hb Hl. assert (body None (stack s1) (sp_local sp !! None)) as Hbody by (rewrite Hl; by apply body_base).
  pose proof Hinv as [_ _ Hcore _ _ _ _ _ _ _]. rewrite Ha in Hcore. destruct t as [f|f|u|fn]; cbn [run_task].
  - pose proof (took_minv (TResume f) (Some f) size d sp s s1 Hinv Ha Ht eq_refl) as Hm.
    pose proof (t_wakes _ _ _ Ht f) as Hw. pose proof (t_idles _ _ _ Ht f) as Hi.
    rewrite resumes_cons, cnt_cons_eq, decide_True in Hw by done. rewrite deletions_cons, deletions_nil, cnt_nil in Hi.
    pose proof (c_once _ _ _ _ _ Hcore f) as Ho. destruct sp as [acts loc dd]. cbn [sp_active sp_local] in *. subst acts.
    eapply enter_ok with (acts := []) (loc := loc).
    + apply Hm. intros g Hg. rewrite resumes_cons, cnt_cons_eq, decide_False by congruence. done.
    + destruct (t_rest _ _ _ Ht) as (_ & _ & Ef & _). rewrite Ef. apply (c_wake _ _ _ _ _ Hcore). lia.
    + done.
    + lia.
    + lia.
    + done.
  - by eapply destroy_ok.
  - wpb. eapply wp_ok; [done|]. cbv beta. eapply wp_ok; [done|]. cbv beta. eexists. eapply (task_ok u size d sp s1); try done.
    by eapply took_minv.
  - apply executeLocalFiber_ok with (sp := sp). apply minv_inv. rewrite Ha. split; [|done]. by eapply took_minv.
Qed.

(** [LocalTaskQueue::poll] *)
Lemma local_poll_ok size d sp s : inv size d sp s -> stack s = [] ->
  wp local_poll s (fun _ s' => exists sp', inv size d sp' s').
Proof.
  intros Hinv Hst. pose proof (i_body _ _ _ _ Hinv) as Hb. rewrite Hst in Hb.
  assert (sp_active sp = [] /\ sp_local sp !! None = None) as [Ha Hl].
  { inversion Hb as [w b Hbase| | | | | |]; subst. inversion Hbase; subst. destruct (sp_active sp); [|done]. done. }
  unfold local_poll. wpb. eapply wp_ok; [done|]. destruct (mLocalTaskQueue s) as [|t q] eqn:Eq.
  - apply wp_ret. eauto.
  - wpb. eapply wp_ok; [done|]. wpb. eapply wp_ok; [done|]. cbv beta. eapply fiber_task_ok; try done; [|cbn; rewrite Hst; constructor].
    split; try done.
    + intros g. unfold idles, n_delete, frames. cbn. rewrite Eq, Hst. cbn. rewrite app_nil_r.
      rewrite !deletions_cons, !deletions_nil. destruct t; rewrite ?cnt_cons_eq, ?cnt_nil; lia.
    + intros g. unfold wakes, n_local, n_notified, frames. cbn. rewrite Eq, Hst. cbn. rewrite app_nil_r.
      rewrite !resumes_cons, !resumes_nil. destruct t; rewrite ?cnt_cons_eq, ?cnt_nil; lia.
    + intros g. unfold n_local, frames. cbn. rewrite Eq, Hst. cbn. rewrite app_nil_r.
      rewrite !resumes_cons, !resumes_nil. destruct t; rewrite ?cnt_cons_eq, ?cnt_nil; lia.
    + intros g. cbn. lia.
Qed.

(** Where a poller runs, no fiber does. *)
Lemma poller_frame k st size d sp s : inv size d sp s -> stack s = k :: st -> (k = FShared \/ exists q, k = FLocal q) ->
  st = [] /\ sp_active sp = [] /\ sp_local sp !! None = None.
Proof.
  intros Hinv Hst Hk. pose proof (i_body _ _ _ _ Hinv) as Hb. rewrite Hst in Hb. apply body_inv in Hb.
  assert (head (sp_active sp) = None /\ st = [] /\ sp_local sp !! head (sp_active sp) = None) as (Hh & -> & Hl).
  { by destruct Hk as [->|[q ->]]. }
  destruct (sp_active sp); [|done]. done.
Qed.

(** A frame is popped that holds nothing. *)
Lemma pop_ok k st size d sp s : inv size d sp s -> stack s = k :: st -> same_tokens [k] [] ->
  body (head (sp_active sp)) st (sp_local sp !! head (sp_active sp)) -> inv size d sp (set_stack st s).
Proof.
  intros Hinv Hst Ht Hb. apply minv_inv. split; [|done]. apply minv_inv in Hinv as [Hm _].
  assert (same_tokens (frames (set_stack st s) (sp_active sp)) (frames s (sp_active sp))) as (T1 & T2 & T3).
  { unfold frames. rewrite Hst. destruct Ht as (E1 & E2 & E3). unfold same_tokens. cbn in *. rewrite app_nil_r in E1, E2, E3.
    by rewrite E1, E2, E3. }
  pose proof Hm as [Haux _]. eapply minv_change; try done.
  - apply (m_shared _ _ _ _ _ Haux).
  - intros g. unfold idles, n_delete. by rewrite T1.
  - intros g. rewrite hide_None. unfold wakes, n_local, n_notified. by rewrite T1, T2.
  - rewrite T3. apply (m_dying _ _ _ _ _ Haux).
  - intros g u r _ _. unfold away_ok, wakes, n_local, n_notified. by rewrite T1, T2.
Qed.

Lemma local_next_ok q st size d sp s : inv size d sp s -> stack s = FLocal q :: st ->
  wp (local_next q) (set_stack st s) (fun _ s' => exists sp', inv size d sp' s').
Proof.
  intros Hinv Hst. destruct (poller_frame _ _ _ _ _ _ Hinv Hst) as (-> & Ha & Hl); [eauto|].
  assert (tail q = [] -> wp (ret tt) (set_stack [] s) (fun _ s' => exists sp', inv size d sp' s')) as Hend.
  { intros Hq. apply wp_ret. exists sp. eapply pop_ok; [done..| |]; rewrite ?Ha; cbn; [|rewrite Hl; constructor; constructor].
    unfold same_tokens. cbn. by rewrite Hq. }
  destruct q as [|t0 [|t q]]; cbn [local_next]; [by apply Hend..|].
  wpb. eapply wp_ok; [done|]. cbv beta. eapply fiber_task_ok; try done; [|constructor].
  split; try done.
  - intros g. unfold idles, n_delete, frames. cbn. rewrite Hst. cbn. rewrite !app_nil_r.
    rewrite !deletions_cons, !deletions_nil. destruct t; rewrite ?cnt_cons_eq, ?cnt_nil; lia.
  - intros g. unfold wakes, n_local, n_notified, frames. cbn. rewrite Hst. cbn. rewrite !app_nil_r.
    rewrite !resumes_cons, !resumes_nil. destruct t; rewrite ?cnt_cons_eq, ?cnt_nil; lia.
  - intros g. unfold n_local, frames. cbn. rewrite Hst. cbn. rewrite !app_nil_r.
    rewrite !resumes_cons, !resumes_nil. destruct t; rewrite ?cnt_cons_eq, ?cnt_nil; lia.
  - intros g. cbn. lia.
  - unfold frames. cbn. by rewrite Hst.
Qed.

Lemma shared_next_ok st size d sp s : inv size d sp s -> stack s = FShared :: st ->
  wp shared_next (set_stack st s) (fun _ s' => exists sp', inv size d sp' s').
Proof.
  intros Hinv Hst. destruct (poller_frame _ _ _ _ _ _ Hinv Hst) as (-> & Ha & Hl); [eauto|].
  unfold shared_next. wpb. eapply wp_ok; [done|]. cbn [mTaskQueue set_stack].
  pose proof (i_shared _ _ _ _ Hinv) as Hsh. destruct (mTaskQueue s) as [|t q] eqn:Eq.
  - apply wp_ret. exists sp. eapply pop_ok; [done..|]. rewrite Ha. cbn. rewrite Hl. constructor; constructor.
  - rewrite deletions_cons in Hsh. wpb. eapply wp_ok; [done|]. wpb. eapply wp_ok; [done|]. cbv beta.
    eapply fiber_task_ok; try done; [|constructor]. split; try done.
    + intros _. cbn. by destruct t.
    + intros g. unfold idles, n_delete, frames. cbn. rewrite Hst, deletions_cons. cbn. destruct t; try done; rewrite deletions_nil, cnt_nil; lia.
    + intros g. unfold wakes, n_local, n_notified, frames. cbn. rewrite Hst, Eq. cbn.
      rewrite !resumes_cons, !resumes_nil. destruct t; rewrite ?cnt_cons_eq, ?cnt_nil; lia.
    + intros g. unfold n_local, frames. cbn. rewrite Hst. cbn. lia.
    + intros g. cbn. rewrite Eq, !resumes_cons, !resumes_nil. destruct t; rewrite ?cnt_cons_eq, ?cnt_nil; lia.
    + unfold frames. cbn. by rewrite Hst.
Qed.

End Inv.
