(* ===== verification/FiberClaims.v ===== *)
(** * Fibers: the calls of the application

    Every call that obeys the rules of the interface keeps the invariant of [FiberSpec]; the theorems about fibers
    follow. *)

From S2P Require Import Prelude Fiber FiberSpec FiberInv.
Import Fib.

Section Calls.
Context {U D : Type} `{App : Application U D}.

Abbreviation frame := (@Fib.frame U D).
Abbreviation task := (@Fib.task U).
Abbreviation fiber := (@Fib.fiber U D).
Abbreviation event := (@Fib.event U D).
Abbreviation state := (@Fib.state U D).
Abbreviation remote := (@Fib.remote U).
Implicit Types (s : state) (acts : list nat) (m : gmap nat fiber) (loc : gmap (option nat) (U * @mode D)).

(** ** Who is away *)

Lemma body_not_away w st (e : option (U * @mode D)) : body w st e -> match e with Some (_, Away _) => False | _ => True end.
Proof. by inversion 1. Qed.

Lemma linked_not_away m loc acts f u r : linked m loc acts -> f ∈ tail acts -> loc !! Some f <> Some (u, Away r).
Proof.
  induction acts as [|g acts IH]; [intros _ []%not_elem_of_nil|]. intros [(x & r' & _ & _ & _ & _ & Hb) Hl] Hf.
  destruct acts as [|h acts]; [by apply not_elem_of_nil in Hf|]. cbn [tail] in Hf. apply elem_of_cons in Hf as [->|Hf].
  - apply body_not_away in Hb. cbn in Hb. intros E. by rewrite E in Hb.
  - by apply IH.
Qed.

Lemma inv_not_away size d sp s f u r : inv size d sp s -> sp_local sp !! Some f = Some (u, Away r) -> cnt f (sp_active sp) = 0%nat.
Proof.
  intros Hi Hf. apply cnt_zero. intros Hin. pose proof (c_linked _ _ _ _ _ (i_core _ _ _ _ Hi)) as Hl.
  pose proof (body_not_away _ _ _ (i_body _ _ _ _ Hi)) as Hb. destruct (sp_active sp) as [|g acts]; [by apply not_elem_of_nil in Hin|].
  cbn [list.head] in Hb. apply elem_of_cons in Hin as [->|Hin]; [by rewrite Hf in Hb|]. by eapply linked_not_away.
Qed.

(** A fiber whose last call was [wait] and that was not resumed since is parked. *)
Lemma suspended_by_parked d l sp g h u : spec_run d l sp -> suspended_by g l = Some (Wait h u) ->
  sp_local sp !! Some g = Some (u, Away Parked).
Proof.
  induction 1 as [|l sp e sp' Hrun IH Hstep]; [done|].
  inversion Hstep as [a loc dd w v i d' c Hw Hl Hc|a loc dd f v c p Hh Hl Hp|a loc dd f v c p Hh Hl Hp|a loc dd f Hf Ha|a loc dd f Ha
    |a loc dd f fn Hl|loc dd v Hl]; subst; cbn; intros Hs.
  - destruct (list.head a) as [f|] eqn:Eh; [|rewrite lookup_partial_alter_ne by done; by apply IH].
    case_decide as Hfg; subst; [|rewrite lookup_partial_alter_ne by congruence; by apply IH].
    rewrite lookup_partial_alter_eq. injection Hs as ->. done.
  - specialize (IH Hs). cbn in IH. rewrite lookup_insert_ne; [done|]. intros [= ->]. congruence.
  - specialize (IH Hs). cbn in IH. rewrite lookup_insert_ne; [done|]. intros [= ->]. congruence.
  - case_decide; [done|]. rewrite lookup_alter_ne by congruence. by apply IH.
  - by apply IH.
  - specialize (IH Hs). cbn in IH. rewrite lookup_insert_ne; [done|]. intros [= ->]. congruence.
  - rewrite lookup_insert_ne by done. by apply IH.
Qed.

Lemma existsb_resumes g (l : list task) : existsb (is_resume g) l = false -> cnt g (resumes l) = 0%nat.
Proof.
  induction l as [|t l IH]; [done|]. cbn. intros [Ht Hl]%orb_false_iff. rewrite resumes_cons. destruct t; try by apply IH.
  cbn in Ht. apply bool_decide_eq_false in Ht. rewrite cnt_cons_eq, decide_False by done. by apply IH.
Qed.

(** What [resume] and [unblock] need to know about their fiber. *)
Lemma interrupted_ok size d sp s g : inv size d sp s -> interrupted s g = true ->
  (exists u, sp_local sp !! Some g = Some (u, Away Parked)) /\ is_Some (fibers s !! g) /\ cnt g (sp_active sp) = 0%nat /\
  idles s (sp_active sp) g = 0%nat /\ wakes s (sp_active sp) g = 0%nat.
Proof.
  intros Hi Hg. unfold interrupted in Hg. destruct (suspended_by g (log s)) as [[]|] eqn:Es; try done.
  apply negb_true_iff, existsb_resumes in Hg. pose proof (suspended_by_parked _ _ _ _ _ _ (i_run _ _ _ _ Hi) Es) as Hl.
  pose proof (i_away _ _ _ _ Hi g u Parked Hl) as Ha. cbn in Ha. pose proof (i_core _ _ _ _ Hi) as Hc. split; [eauto|]. split_and!.
  - destruct (fibers s !! g) eqn:E; [done|]. pose proof (c_none _ _ _ _ _ Hc g E). congruence.
  - by eapply inv_not_away.
  - destruct (idles s (sp_active sp) g) eqn:E; [done|]. destruct (c_idle _ _ _ _ _ Hc g) as [? _]; [lia|congruence].
  - lia.
Qed.

(** ** A call is made *)

Lemma base_owner w b : base w b -> owner (b : list frame) = w.
Proof. by destruct 1. Qed.

(** The computation that runs goes from one of its states to the next: an event [e] is observed, its stack becomes [st]
    and the shared data [d']. *)
Definition moved (e : event) (d' : D) (st : list frame) s : state := set_stack st (emit e (set_data d' s)).

Lemma moved_ok e o d' st size d acts loc s : inv size d (Spec acts loc (data s)) s ->
  spec_step (Spec acts loc (data s)) e (Spec acts (partial_alter (fun _ => o) (list.head acts) loc) d') -> same_tokens st (stack s) ->
  aux (list.head acts) size d (Spec acts (partial_alter (fun _ => o) (list.head acts) loc) d') (moved e d' st s) /\
  core acts (idles (moved e d' st s) acts) (wakes (moved e d' st s) acts) (partial_alter (fun _ => o) (list.head acts) loc) (fibers s).
Proof.
  intros [Hrun Hdata Hcore Hb Hsh Hfr Hsz Hca Hdy Haw] Hstep Ht. cbn [sp_active sp_local sp_data] in *.
  set (s1 := moved e d' st s).
  assert (same_tokens (frames s1 acts) (frames s acts)) as (T1 & T2 & T3).
  { unfold frames. destruct Ht as (E1 & E2 & E3). unfold same_tokens. cbn. by rewrite !flat_map_app, E1, E2, E3. }
  split.
  - split; cbn [sp_active sp_local sp_data]; try done.
    + by eapply spec_run_cons.
    + rewrite T3. done.
    + intros g v r Hg. rewrite lookup_partial_alter_ne by congruence. intros Hlg. specialize (Haw g v r Hlg). revert Haw.
      unfold away_ok, wakes, n_local, n_notified. by rewrite T1, T2.
  - assert (core acts (idles s1 acts) (wakes s1 acts) loc (fibers s)) as [H1 H2 H3 H4 H5 H6].
    { eapply core_mono; [exact Hcore|..]; intros g; unfold wakes, idles, n_local, n_delete, n_notified; by rewrite T1, ?T2. }
    pose proof (core_NoDup _ _ _ _ _ Hcore) as Hnd.
    assert (forall g, cnt g acts = 0%nat -> partial_alter (fun _ => o) (list.head acts) loc !! Some g = loc !! Some g) as Hlo.
    { intros g Hg. rewrite lookup_partial_alter_ne; [done|]. destruct acts as [|a acts]; [done|]. cbn. intros [= ->].
      rewrite cnt_cons_eq, decide_True in Hg by done. lia. }
    split; try done.
    + apply (linked_loc _ loc); [|done]. intros w Hw. rewrite lookup_partial_alter_ne; [done|].
      destruct acts as [|a acts]; [by destruct Hw as [[? ?]|(? & ? & []%not_elem_of_nil)]|].
      cbn. apply list.NoDup_cons in Hnd as [Ha _]. destruct Hw as [[-> _]|(f & -> & Hf)]; [done|]. cbn in Hf. intros [= ->]. done.
    + intros g Hg. specialize (H2 g). rewrite Hlo by lia. by apply H3.
    + intros g x Hx. destruct (H5 g x Hx) as [?|Hs]; [by left|]. destruct (cnt g acts) eqn:E; [right|left; lia]. by rewrite Hlo.
    + intros g Hg. rewrite Hlo; [by apply H6|]. apply cnt_zero. intros Hin. clear -H1 Hg Hin.
      induction acts as [|a acts IH]; [by apply not_elem_of_nil in Hin|]. destruct H1 as [(x & r & Hx & _) H1].
      apply elem_of_cons in Hin as [->|Hin]; [congruence|]. by apply IH.
Qed.

(** It goes on, checks a predicate, or has returned. *)
Lemma moved_inv e o d' st size d acts loc s : inv size d (Spec acts loc (data s)) s ->
  spec_step (Spec acts loc (data s)) e (Spec acts (partial_alter (fun _ => o) (list.head acts) loc) d') -> same_tokens st (stack s) ->
  body (list.head acts) st o ->
  inv size d (Spec acts (partial_alter (fun _ => o) (list.head acts) loc) d') (moved e d' st s).
Proof.
  intros Hi Hstep Ht Hb. destruct (moved_ok e o d' st size d acts loc s Hi Hstep Ht) as [Haux Hcore].
  apply minv_inv. split; [split; [|done]|cbn; by rewrite lookup_partial_alter_eq].
  destruct Haux. split; try done. cbn [sp_active sp_local] in *. intros f v r _ Hf.
  destruct (decide (list.head acts = Some f)) as [E|]; [|eapply m_away; [congruence|done]].
  rewrite <-E, lookup_partial_alter_eq in Hf. apply body_not_away in Hb. by rewrite Hf in Hb.
Qed.

(** A fiber that runs is about to be suspended. *)
Lemma moved_away f e o d' st size d acts loc s : inv size d (Spec (f :: acts) loc (data s)) s ->
  spec_step (Spec (f :: acts) loc (data s)) e (Spec (f :: acts) (partial_alter (fun _ => o) (Some f) loc) d') ->
  same_tokens st (stack s) ->
  minv (Some f) size d (Spec (f :: acts) (partial_alter (fun _ => o) (Some f) loc) d') (moved e d' st s) /\
  wakes (moved e d' st s) (f :: acts) f = 0%nat /\ is_Some (fibers s !! f).
Proof.
  intros Hi Hstep Ht. destruct (moved_ok e o d' st size d (f :: acts) loc s Hi Hstep Ht) as [Haux Hcore]. split; [split; [done|]|split].
  - eapply core_mono; [exact Hcore|done|]. intros g. apply hide_le.
  - pose proof (c_once _ _ _ _ _ Hcore f) as Ho. rewrite cnt_cons_eq, decide_True in Ho by done. lia.
  - pose proof (c_linked _ _ _ _ _ Hcore) as [(x & r & Hx & _) _]. eauto.
Qed.

(** ** Calls that suspend *)

Lemma n_local_app (l k : list task) (ks : list frame) f : n_local (l ++ k) ks f = (n_local l ks f + cnt f (resumes k))%nat.
Proof. unfold n_local. rewrite resumes_app, cnt_app_eq. lia. Qed.

(** The queue of a condition variable changes. *)
Lemma cond_insert (l : list cond) c x q c' y : l !! c = Some x -> l !! c' = Some y ->
  exists y', <[c := Cond q (cv_alive x) (cv_dying x)]> l !! c' = Some y' /\ cv_alive y' = cv_alive y /\ cv_dying y' = cv_dying y /\
    mWaiting y' = (if decide (c' = c) then q else mWaiting y).
Proof.
  intros Hx Hy. case_decide as Hc; [|rewrite list_lookup_insert_ne by done; by exists y].
  subst. rewrite list_lookup_insert_eq by (by eapply lookup_lt_Some). rewrite Hx in Hy. injection Hy as <-. by eexists.
Qed.

(** The wake-up of [g], which is about to be suspended, is put in the local queue or in a condition variable. *)
Lemma minv_local g size d sp s : minv (Some g) size d sp s -> minv (Some g) size d sp (set_local (mLocalTaskQueue s ++ [TResume g]) s).
Proof.
  intros [[] Hc]. set (s' := set_local _ s).
  assert (forall f, f <> g -> wakes s' (sp_active sp) f = wakes s (sp_active sp) f) as Ew.
  { intros f Hf. unfold wakes, frames. cbn [s' stack fibers conds mTaskQueue mLocalTaskQueue set_local].
    rewrite n_local_app, resumes_cons, cnt_cons_eq, decide_False, resumes_nil, cnt_nil by done. lia. }
  split.
  - split; try done. intros f u r Hf Hl. specialize (m_away f u r Hf Hl). revert m_away. unfold away_ok.
    rewrite Ew by congruence. destruct r; [|done..]. unfold frames. cbn [s' stack fibers mLocalTaskQueue set_local].
    rewrite n_local_app. lia.
  - eapply core_mono; [exact Hc|..].
    + intros f. unfold idles, n_delete, frames. cbn [s' stack fibers mFiberCache mLocalTaskQueue set_local].
      rewrite deletions_app, cnt_app_eq, deletions_cons, deletions_nil, cnt_nil. lia.
    + intros f. unfold hide. case_decide; [done|]. rewrite Ew by congruence. done.
Qed.

Lemma minv_cond g c x size d sp s : minv (Some g) size d sp s -> conds s !! c = Some x ->
  minv (Some g) size d sp (set_conds (<[c := Cond (mWaiting x ++ [g]) (cv_alive x) (cv_dying x)]> (conds s)) s).
Proof.
  intros [[] Hc] Hx. set (s' := set_conds _ s).
  assert (forall f, f <> g -> wakes s' (sp_active sp) f = wakes s (sp_active sp) f) as Ew.
  { intros f Hf. unfold wakes, frames. cbn [s' stack fibers conds mTaskQueue mLocalTaskQueue set_conds].
    pose proof (n_conds_insert (conds s) c x (Cond (mWaiting x ++ [g]) (cv_alive x) (cv_dying x)) f Hx) as E.
    cbn [mWaiting] in E. rewrite cnt_app_eq, cnt_cons_eq, decide_False, cnt_nil in E by done. lia. }
  assert (forall c' y, conds s !! c' = Some y -> exists y', conds s' !! c' = Some y' /\ cv_alive y' = cv_alive y /\ cv_dying y' = cv_dying y /\
     forall f, f ∈ mWaiting y -> f ∈ mWaiting y') as Hcond.
  { intros c' y Hy. destruct (cond_insert (conds s) c x (mWaiting x ++ [g]) c' y Hx Hy) as (y' & ? & ? & ? & Eq). exists y'.
    split_and!; try done. intros f Hf. rewrite Eq. case_decide; [|done]. subst c'. rewrite Hx in Hy. injection Hy as <-.
    apply elem_of_app. by left. }
  split.
  - split; try done.
    + intros c'. destruct (m_dying c') as [H1 H2]. split; [done|]. intros H. destruct (H2 H) as (y & Hy & Ha & Hd).
      destruct (Hcond c' y Hy) as (y' & ? & ? & ? & _). exists y'. split; [done|]. split; congruence.
    + intros f u r Hf Hl. specialize (m_away f u r Hf Hl). revert m_away. unfold away_ok. rewrite Ew by congruence.
      destruct r as [| |c' o]; [done..|]. intros [?|(y & Hy & Hin)]; [by left|right]. destruct (Hcond c' y Hy) as (y' & Hy' & Ea & _ & Hi).
      exists y'. split; [done|]. rewrite Ea. auto.
  - eapply core_mono; [exact Hc|done|]. intros f. unfold hide. case_decide; [done|]. rewrite Ew by congruence. done.
Qed.

(** [Fiber::yield] of a fiber that runs *)
Lemma yield_ok g u size d acts loc dd s : minv (Some g) size d (Spec (g :: acts) loc dd) s ->
  loc !! Some g = Some (u, Away Yielded) -> susp g (FWait g :: stack s) (loc !! Some g) -> wakes s (g :: acts) g = 0%nat ->
  is_Some (fibers s !! g) -> wp (yield g) s (fun _ s' => exists sp', inv size d sp' s').
Proof.
  intros Hm Hl Hs Hw [x Hx]. unfold yield. wpb. eapply wp_ok; [unfold get_fiber; by rewrite Hx|]. wpb. eapply wp_ok; [done|]. cbv beta.
  eapply wp_mono; [eapply leave_ok; [by apply minv_local|done|..]|intros ?? Hinv; by exists (Spec acts loc dd)].
  - unfold wakes, frames in *. cbn [stack fibers conds mTaskQueue mLocalTaskQueue set_local].
    rewrite n_local_app, resumes_cons, cnt_cons_eq, resumes_nil, cnt_nil. case_decide; lia.
  - intros v r. rewrite Hl. intros [= <- <-]. cbn [away_ok mLocalTaskQueue set_local].
    rewrite n_local_app, resumes_cons, cnt_cons_eq, decide_True by done. lia.
Qed.

(** [ConditionVariable::wait(fiber)] of a fiber that runs *)
Lemma cv_wait_ok c g u o size d acts loc dd s : minv (Some g) size d (Spec (g :: acts) loc dd) s ->
  loc !! Some g = Some (u, Away (OnCond c o)) -> susp g (FWait g :: stack s) (loc !! Some g) -> wakes s (g :: acts) g = 0%nat ->
  usable s c = true -> wp (cv_wait c g) s (fun _ s' => exists sp', inv size d sp' s').
Proof.
  intros Hm Hl Hs Hw Hu. unfold usable in Hu. destruct (conds s !! c) as [x|] eqn:Hx; [|done].
  unfold cv_wait. wpb. eapply wp_ok; [unfold get_cond; by rewrite Hx, Hu|]. wpb. eapply wp_ok; [done|]. cbv beta.
  pose proof (n_conds_insert (conds s) c x (Cond (mWaiting x ++ [g]) (cv_alive x) (cv_dying x)) g Hx) as E.
  eapply wp_mono; [eapply leave_ok; [by apply minv_cond|done|..]|intros ?? Hinv; by exists (Spec acts loc dd)].
  - unfold wakes, frames in *. cbn [stack fibers conds mTaskQueue mLocalTaskQueue set_conds]. cbn [mWaiting] in E.
    rewrite cnt_app_eq, cnt_cons_eq, decide_True, cnt_nil in E by done. lia.
  - intros v r. rewrite Hl. intros [= <- <-]. cbn [away_ok conds set_conds]. right. eexists.
    split; [apply list_lookup_insert_eq; by eapply lookup_lt_Some|]. cbn. intros _. apply elem_of_app. right. constructor.
Qed.

(** ** Calls that wake fibers *)

(** Fiber [f], whose wake-up the operation has taken out of the state [s] to get [s1], is resumed. *)
Lemma woken_ok f size d sp s s1 : inv size d sp s -> minv (Some f) size d sp s1 -> fibers s1 = fibers s ->
  (forall g, idles s1 (sp_active sp) g = idles s (sp_active sp) g) ->
  wakes s (sp_active sp) f = S (wakes s1 (sp_active sp) f) ->
  body (list.head (sp_active sp)) (stack s1) (sp_local sp !! list.head (sp_active sp)) ->
  wp (resume f) s1 (fun _ s' => exists sp', inv size d sp' s').
Proof.
  intros Hi Hm Ef Hid Hw Hb. pose proof (i_core _ _ _ _ Hi) as Hc. pose proof (c_once _ _ _ _ _ Hc f) as Ho.
  destruct sp as [acts loc dd]. cbn [sp_active sp_local] in *. eapply enter_ok; [done| |lia|rewrite Hid; lia|lia|done].
  rewrite Ef. apply (c_wake _ _ _ _ _ Hc). lia.
Qed.

(** [ConditionVariable::notify_one] *)
Lemma cv_notify_one_ok c size d sp s : inv size d sp s -> usable s c = true ->
  wp (notify_one c) s (fun _ s' => exists sp', inv size d sp' s').
Proof.
  intros Hi Hu. unfold usable in Hu. destruct (conds s !! c) as [x|] eqn:Hx; [|done].
  unfold notify_one. wpb. eapply wp_ok; [unfold get_cond; by rewrite Hx, Hu|]. cbv beta.
  destruct (mWaiting x) as [|f q] eqn:Eq; [apply wp_ret; eauto|]. wpb. eapply wp_ok; [done|]. cbv beta.
  set (s1 := set_conds _ s). pose proof (lookup_lt_Some _ _ _ Hx) as Hlt.
  assert (forall g, wakes s (sp_active sp) g = ((if decide (g = f) then 1 else 0) + wakes s1 (sp_active sp) g)%nat) as Ew.
  { intros g. pose proof (n_conds_insert (conds s) c x (Cond q (cv_alive x) (cv_dying x)) g Hx) as E. rewrite Eq, cnt_cons_eq in E.
    cbn [mWaiting] in E. unfold wakes, frames. cbn [s1 stack fibers conds mTaskQueue mLocalTaskQueue set_conds]. lia. }
  eapply woken_ok; [done| |done|done| |apply (i_body _ _ _ _ Hi)]; [|rewrite Ew, decide_True by done; lia].
  pose proof (proj1 (minv_inv _ _ _ _) Hi) as [Hm _]. pose proof (i_dying _ _ _ _ Hi) as Hdy.
  eapply minv_change; [done|done|apply (i_shared _ _ _ _ Hi)|done|..].
  - intros g. rewrite Ew. pose proof (hide_le (Some f) (wakes s1 (sp_active sp)) g). lia.
  - intros c'. destruct (Hdy c') as [H1 H2]. split; [done|]. intros H. destruct (H2 H) as (y & Hy & Ha & Hd).
    destruct (cond_insert (conds s) c x q c' y Hx Hy) as (y' & ? & ? & ? & _). exists y'. split; [done|]. split; congruence.
  - intros g u r Hg _. specialize (Ew g). rewrite decide_False in Ew by congruence. unfold away_ok. rewrite Ew.
    destruct r as [| |c' o]; [done..|]. intros [?|(y & Hy & Hin)]; [by left|right].
    destruct (cond_insert (conds s) c x q c' y Hx Hy) as (y' & Hy' & Ea & _ & Eq'). exists y'. split; [done|]. rewrite Ea, Eq'. intros Ha.
    specialize (Hin Ha). case_decide; [|done]. subst c'. rewrite Hx in Hy. injection Hy as <-. rewrite Eq in Hin.
    apply elem_of_cons in Hin as [->|]; [congruence|done].
Qed.

(** [ConditionVariable::notify_all] *)
Lemma cv_notify_all_ok c size d sp s : inv size d sp s -> usable s c = true ->
  (forall q, body (list.head (sp_active sp)) (FNotify q :: stack s) (sp_local sp !! list.head (sp_active sp))) ->
  wp (notify_all c) s (fun _ s' => exists sp', inv size d sp' s').
Proof.
  intros Hi Hu Hb. unfold usable in Hu. destruct (conds s !! c) as [x|] eqn:Hx; [|done].
  unfold notify_all. wpb. eapply wp_ok; [unfold get_cond; by rewrite Hx, Hu|]. cbv beta.
  destruct (mWaiting x) as [|f q] eqn:Eq; [apply wp_ret; eauto|]. wpb. eapply wp_ok; [done|]. wpb. eapply wp_ok; [done|]. cbv beta.
  set (s1 := set_stack _ _). pose proof (lookup_lt_Some _ _ _ Hx) as Hlt.
  assert (forall g, n_notified (frames s1 (sp_active sp)) g = (cnt g q + n_notified (frames s (sp_active sp)) g)%nat) as En.
  { intros g. unfold n_notified, frames. cbn. by rewrite cnt_app_eq. }
  assert (forall g, wakes s (sp_active sp) g = ((if decide (g = f) then 1 else 0) + wakes s1 (sp_active sp) g)%nat) as Ew.
  { intros g. pose proof (n_conds_insert (conds s) c x (Cond [] (cv_alive x) (cv_dying x)) g Hx) as E. rewrite Eq, cnt_cons_eq in E.
    cbn [mWaiting] in E. rewrite cnt_nil in E. unfold wakes. rewrite En.
    change (n_local (mLocalTaskQueue s1) (frames s1 (sp_active sp)) g) with (n_local (mLocalTaskQueue s) (frames s (sp_active sp)) g).
    cbn [s1 set_stack set_conds conds mTaskQueue]. lia. }
  eapply woken_ok; [done| |done|done| |apply Hb]; [|rewrite Ew, decide_True by done; lia].
  pose proof (proj1 (minv_inv _ _ _ _) Hi) as [Hm _]. pose proof (i_dying _ _ _ _ Hi) as Hdy.
  eapply minv_change; [done|done|apply (i_shared _ _ _ _ Hi)|done|..].
  - intros g. rewrite Ew. pose proof (hide_le (Some f) (wakes s1 (sp_active sp)) g). lia.
  - intros c'. destruct (Hdy c') as [H1 H2]. split; [done|]. intros H. destruct (H2 H) as (y & Hy & Ha & Hd).
    destruct (cond_insert (conds s) c x [] c' y Hx Hy) as (y' & ? & ? & ? & _). exists y'. split; [done|]. split; congruence.
  - intros g u r Hg _. specialize (Ew g). rewrite decide_False in Ew by congruence. unfold away_ok. rewrite Ew, En.
    destruct r as [| |c' o]; [done..|]. intros [?|(y & Hy & Hin)]; [left; lia|]. cbn [s1 set_stack set_conds conds].
    destruct (decide (c = c')) as [->|]; [|right; rewrite list_lookup_insert_ne by done; eauto].
    rewrite Hx in Hy. injection Hy as <-. specialize (Hin Hu). rewrite Eq in Hin.
    apply elem_of_cons in Hin as [->|Hin]; [congruence|]. left. apply cnt_in in Hin. lia.
Qed.

Lemma body_notify_any w q q' st (e : option (U * @mode D)) : body w (FNotify q :: st) e -> body w (FNotify q' :: st) e.
Proof.
  intros Hb. inversion Hb as [w' b Hbase| | | | |w' q0 u b Hbase|w' q0 c u b Hbase]; subst.
  - inversion Hbase.
  - by apply body_notify.
  - by apply body_notify_destroy.
Qed.

Lemma notify_next_ok q st size d sp s : inv size d sp s -> stack s = FNotify q :: st ->
  wp (notify_next q) (set_stack st s) (fun _ s' => exists sp', inv size d sp' s').
Proof.
  intros Hi Hst. pose proof (i_body _ _ _ _ Hi) as Hb0. rewrite Hst in Hb0. pose proof (body_inv _ _ _ _ Hb0) as Hb.
  assert (tail q = [] -> wp (ret tt) (set_stack st s) (fun _ s' => exists sp', inv size d sp' s')) as Hend.
  { intros Hq. apply wp_ret. exists sp. eapply pop_ok; [done..| |done]. unfold same_tokens. cbn. by rewrite Hq. }
  destruct q as [|f0 [|f q]]; cbn [notify_next]; [by apply Hend..|].
  wpb. eapply wp_ok; [done|]. cbv beta. set (s1 := set_stack _ _). cbn [stack set_stack] in s1.
  assert (forall g, n_notified (frames s (sp_active sp)) g = ((if decide (g = f) then 1 else 0) + n_notified (frames s1 (sp_active sp)) g)%nat) as En.
  { intros g. unfold n_notified, frames. rewrite Hst. cbn. rewrite cnt_cons_eq, !cnt_app_eq. lia. }
  assert (forall F : frame -> list task, flat_map F (frames s (sp_active sp)) = F (FNotify (f0 :: f :: q)) ++ flat_map F (st ++ rets (fibers s) (sp_active sp))) as EF.
  { intros F. unfold frames. by rewrite Hst. }
  assert (flat_map pending (frames s1 (sp_active sp)) = flat_map pending (frames s (sp_active sp))) as Ep by (by rewrite EF).
  assert (flat_map dying (frames s1 (sp_active sp)) = flat_map dying (frames s (sp_active sp))) as Ed by (unfold frames; by rewrite Hst).
  assert (forall g, wakes s (sp_active sp) g = ((if decide (g = f) then 1 else 0) + wakes s1 (sp_active sp) g)%nat) as Ew.
  { intros g. unfold wakes, n_local. rewrite En, Ep. cbn [s1 set_stack conds mTaskQueue mLocalTaskQueue]. lia. }
  assert (forall g, idles s1 (sp_active sp) g = idles s (sp_active sp) g) as Ei.
  { intros g. unfold idles, n_delete. by rewrite Ep. }
  eapply woken_ok; [done| |done|done| |]; [|rewrite Ew, decide_True by done; lia|by eapply body_notify_any].
  pose proof (proj1 (minv_inv _ _ _ _) Hi) as [Hm _].
  eapply minv_change; [done|done|apply (i_shared _ _ _ _ Hi)|done|..].
  - intros g. rewrite Ew. pose proof (hide_le (Some f) (wakes s1 (sp_active sp)) g). lia.
  - rewrite Ed. apply (i_dying _ _ _ _ Hi).
  - intros g u r Hg _. specialize (Ew g). specialize (En g). rewrite decide_False in Ew, En by congruence. unfold away_ok.
    rewrite Ew, En. unfold n_local. by rewrite Ep.
Qed.

(** [~ConditionVariable]: the waiting fibers are resumed, then the object is gone. *)
Lemma cv_destroy_ok c u b size d sp s : inv size d sp s -> destroyable s c = true -> stack s = FUser u :: b ->
  wp (cv_destroy c) s (fun _ s' => exists sp', inv size d sp' s').
Proof.
  intros Hi Hu Hst. pose proof (i_body _ _ _ _ Hi) as Hb. rewrite Hst in Hb. apply body_inv in Hb as [Hbase Hl].
  unfold destroyable in Hu. destruct (conds s !! c) as [x|] eqn:Hx; [|done]. apply andb_true_iff in Hu as [Ha Hd].
  apply negb_true_iff in Hd. unfold cv_destroy. wpb. eapply wp_ok; [unfold get_cond; by rewrite Hx, Ha|]. wpb. rewrite Hd.
  apply wp_ret. wpb. eapply wp_ok; [done|]. wpb. eapply wp_ok; [done|]. cbv beta. set (s1 := set_stack _ _). cbn [stack set_conds] in s1.
  pose proof (lookup_lt_Some _ _ _ Hx) as Hlt. pose proof (i_dying _ _ _ _ Hi) as Hdy.
  assert (forall g, wakes s1 (sp_active sp) g = wakes s (sp_active sp) g) as Ew.
  { intros g. pose proof (n_conds_insert (conds s) c x (Cond (mWaiting x) (cv_alive x) true) g Hx) as E. cbn [mWaiting] in E.
    unfold wakes, n_local, n_notified, frames.
    cbn [s1 stack fibers conds mTaskQueue mLocalTaskQueue set_conds set_stack flat_map pending notified app]. lia. }
  assert (forall c', c' <> c -> conds s1 !! c' = conds s !! c') as Eo by (intros; cbn; by rewrite list_lookup_insert_ne).
  assert (conds s1 !! c = Some (Cond (mWaiting x) true true)) as Es by (cbn; by rewrite list_lookup_insert_eq, Ha).
  assert (inv size d sp s1) as Hi1.
  { apply minv_inv. split; [|cbn; rewrite Hst, Hl; by apply body_destroy].
    apply minv_inv in Hi as [Hm _]. pose proof Hm as [Haux _]. eapply minv_change; [done|done|apply (m_shared _ _ _ _ _ Haux)|done|..].
    - intros g. by rewrite hide_None, Ew.
    - intros c'. unfold frames. cbn [s1 stack set_stack app flat_map dying fibers set_conds]. rewrite cnt_cons_eq.
      destruct (Hdy c') as [H1 H2]. destruct (decide (c' = c)) as [->|Hc].
      + assert (cnt c (flat_map dying (frames s (sp_active sp))) = 0%nat) as E0.
        { destruct (cnt c (flat_map dying (frames s (sp_active sp)))) eqn:E; [done|]. destruct H2 as (y & Hy & _ & ?); [lia|congruence]. }
        unfold frames in E0. rewrite E0. split; [done|]. intros _. by eexists.
      + rewrite Eo by done. done.
    - intros g v r _ _. unfold away_ok. rewrite Ew. destruct r as [| |c' o]; [done..|]. intros [?|(y & Hy & Hin)]; [by left|right].
      destruct (decide (c' = c)) as [->|Hc]; [|rewrite Eo by done; eauto]. eexists. split; [exact Es|]. cbn. intros _.
      rewrite Hx in Hy. injection Hy as <-. by apply Hin. }
  eapply cv_notify_all_ok; [done|unfold usable; by rewrite Es|]. intros q. cbn. rewrite Hst, Hl. by apply body_notify_destroy.
Qed.

Lemma cv_destroyed_ok c st size d sp s : inv size d sp s -> stack s = FDestroy c :: st ->
  wp (cv_destroyed c) (set_stack st s) (fun _ s' => exists sp', inv size d sp' s').
Proof.
  intros Hi Hst. pose proof (i_body _ _ _ _ Hi) as Hb. rewrite Hst in Hb. apply body_inv in Hb.
  pose proof (i_dying _ _ _ _ Hi) as Hdy.
  assert (forall c', cnt c' (flat_map dying (frames s (sp_active sp))) =
    ((if decide (c' = c) then 1 else 0) + cnt c' (flat_map dying (frames (set_stack st s) (sp_active sp))))%nat) as Ed.
  { intros c'. unfold frames. rewrite Hst. cbn. apply cnt_cons_eq. }
  destruct (Hdy c) as [Hone (x & Hx & Ha & _)]; [rewrite Ed, decide_True by done; lia|]. rewrite Ed, decide_True in Hone by done.
  unfold cv_destroyed. wpb. eapply wp_ok; [unfold get_cond; cbn; by rewrite Hx, Ha|]. cbv beta. eapply wp_ok; [done|]. cbv beta.
  exists sp. set (s1 := set_conds _ _). pose proof (lookup_lt_Some _ _ _ Hx) as Hlt.
  assert (forall g, (wakes s1 (sp_active sp) g <= wakes s (sp_active sp) g)%nat) as Ew.
  { intros g. pose proof (n_conds_insert (conds s) c x (Cond [] false true) g Hx) as E. cbn [mWaiting] in E. rewrite cnt_nil in E.
    unfold wakes, n_local, n_notified, frames. rewrite Hst.
    cbn [s1 stack fibers conds mTaskQueue mLocalTaskQueue set_conds set_stack flat_map pending notified app]. lia. }
  apply minv_inv. split; [|done].
  apply minv_inv in Hi as [Hm _]. pose proof Hm as [Haux _]. eapply minv_change; [done|done|apply (m_shared _ _ _ _ _ Haux)|..].
  - intros g. unfold idles, n_delete, frames. by rewrite Hst.
  - intros g. rewrite hide_None. apply Ew.
  - intros c'. change (frames s1 (sp_active sp)) with (frames (set_stack st s) (sp_active sp)). destruct (Hdy c') as [H1 H2].
    rewrite Ed in H1, H2. destruct (decide (c' = c)) as [->|Hc]; [split; [lia|]; intros ?; exfalso; lia|].
    cbn [s1 conds set_conds set_stack]. rewrite list_lookup_insert_ne by done. split; [exact H1|]. exact H2.
  - intros g v r _ _. unfold away_ok, n_local, n_notified, frames. rewrite Hst. specialize (Ew g). destruct r as [| |c' o].
    + done.
    + intros Hp. etrans; [exact Ew|]. exact Hp.
    + intros [?|(y & Hy & Hin)]; [by left|right]. cbn. destruct (decide (c' = c)) as [->|Hc].
      * rewrite list_lookup_insert_eq by done. eexists. split; [done|]. done.
      * rewrite list_lookup_insert_ne by done. eauto.
Qed.

(** ** Steps *)

Lemma moved_id e st s : moved e (data s) st s = set_stack st (emit e s).
Proof. by destruct s. Qed.

Lemma inv_data size d sp s : inv size d sp s -> sp = Spec (sp_active sp) (sp_local sp) (data s).
Proof. intros Hi. rewrite <-(i_data _ _ _ _ Hi). by destruct sp. Qed.

(** The head of the loop of [ConditionVariable::wait(fiber, pred)] *)
Lemma cv_wait_pred_ok c f p st size d sp s : inv size d sp s -> stack s = FPred c f p :: st -> (p (data s) || usable s c)%bool = true ->
  wp (cv_wait_pred c f p) (set_stack st s) (fun _ s' => exists sp', inv size d sp' s').
Proof.
  intros Hi Hst Hal. rewrite (inv_data _ _ _ _ Hi) in Hi. destruct sp as [acts loc dd]. cbn [sp_active sp_local] in Hi.
  pose proof (i_body _ _ _ _ Hi) as Hb. cbn [sp_active sp_local] in Hb. rewrite Hst in Hb.
  apply body_inv in Hb as (u & Hw & -> & Hl). destruct acts as [|g acts]; [done|]. cbn [list.head] in *. injection Hw as ->.
  unfold cv_wait_pred. wpb. eapply wp_ok; [done|]. cbv beta. cbn [data set_stack]. wpb. eapply wp_ok; [done|]. cbv beta.
  destruct (p (data s)) eqn:Ep.
  - apply wp_ret. eexists. eapply (moved_inv (EPred f true) (Some (u, Go)) (data s) [FUser u; FStart f; FEntry f]) in Hi.
    + rewrite moved_id in Hi. exact Hi.
    + cbn. by eapply spec_true.
    + by rewrite Hst.
    + cbn. apply body_user. constructor.
  - wpb. eapply wp_ok; [done|]. cbv beta. cbn [orb] in Hal.
    eapply (moved_away f (EPred f false) (Some (u, Away (OnCond c (Some p)))) (data s) [FPred c f p; FUser u; FStart f; FEntry f]) in Hi
      as (Hm & Hw & _); [|cbn; by eapply spec_false|by rewrite Hst].
    rewrite moved_id in Hm, Hw. eapply cv_wait_ok; [exact Hm|by rewrite lookup_partial_alter_eq|rewrite lookup_partial_alter_eq; constructor|done|done].
Qed.

(** The head of the loop of [Fiber::start] *)
Lemma start_loop_ok f st size d sp s : inv size d sp s -> stack s = FLoop f :: st ->
  wp (start_loop f) (set_stack st s) (fun _ s' => exists sp', inv size d sp' s').
Proof.
  intros Hi Hst. rewrite (inv_data _ _ _ _ Hi) in Hi. destruct sp as [acts loc dd]. cbn [sp_active sp_local] in Hi.
  pose proof (i_body _ _ _ _ Hi) as Hb. cbn [sp_active sp_local] in Hb. rewrite Hst in Hb.
  apply body_inv in Hb as (Hw & -> & Hl). destruct acts as [|g acts]; [done|]. cbn [list.head] in *. injection Hw as ->.
  pose proof (c_linked _ _ _ _ _ (i_core _ _ _ _ Hi)) as [(x & r & Hx & [fn Hfn] & _) _]. cbn [sp_active] in *.
  unfold start_loop. wpb. eapply wp_ok; [unfold get_fiber; cbn; by rewrite Hx|]. cbv beta. rewrite Hfn. wpb. eapply wp_ok; [done|].
  wpb. eapply wp_ok; [done|]. cbv beta. eapply wp_ok; [done|]. cbv beta. eexists.
  eapply (moved_inv (EStart f fn) (Some (fn f, Go)) (data s) [FUser (fn f); FStart f; FEntry f]) in Hi.
  - rewrite moved_id in Hi. exact Hi.
  - cbn. by apply spec_start.
  - by rewrite Hst.
  - cbn. apply body_user. constructor.
Qed.

(** A task without a wake-up is put in a queue. *)
Lemma enqueue_ok t size d sp s : inv size d sp s -> resumes [t] = [] -> deletions [t] = [] ->
  inv size d sp (set_local (mLocalTaskQueue s ++ [t]) s) /\ inv size d sp (set_shared (mTaskQueue s ++ [t]) s).
Proof.
  intros Hi Hr Hd. pose proof (i_shared _ _ _ _ Hi) as Hs. apply minv_inv in Hi as [Hm Hb]. pose proof Hm as [Haux _].
  split; apply minv_inv; (split; [|done]).
  - eapply minv_change; [done|done|done|..].
    + intros g. unfold idles, n_delete, frames. cbn [stack fibers mFiberCache mLocalTaskQueue set_local].
      rewrite deletions_app, Hd, app_nil_r. done.
    + intros g. rewrite hide_None. unfold wakes, n_local, frames. cbn [stack fibers conds mTaskQueue mLocalTaskQueue set_local].
      rewrite resumes_app, Hr, app_nil_r. done.
    + apply (m_dying _ _ _ _ _ Haux).
    + intros g u r _ _. unfold away_ok, wakes, n_local, frames. cbn [stack fibers conds mTaskQueue mLocalTaskQueue set_local].
      rewrite resumes_app, Hr, app_nil_r. done.
  - eapply minv_change; [done|done|..].
    + cbn. by rewrite deletions_app, Hd, Hs.
    + done.
    + intros g. rewrite hide_None. unfold wakes, frames. cbn [stack fibers conds mTaskQueue mLocalTaskQueue set_shared].
      rewrite resumes_app, Hr, app_nil_r. done.
    + apply (m_dying _ _ _ _ _ Haux).
    + intros g u r _ _. unfold away_ok, wakes, frames. cbn [stack fibers conds mTaskQueue mLocalTaskQueue set_shared].
      rewrite resumes_app, Hr, app_nil_r. done.
Qed.

(** [Fiber::unblock] of a fiber that called [wait] *)
Lemma unblock_ok g size d sp s : inv size d sp s -> (exists u, sp_local sp !! Some g = Some (u, Away Parked)) ->
  is_Some (fibers s !! g) -> cnt g (sp_active sp) = 0%nat -> idles s (sp_active sp) g = 0%nat -> wakes s (sp_active sp) g = 0%nat ->
  wp (unblock g) s (fun _ s' => exists sp', inv size d sp' s').
Proof.
  intros Hi [u Hl] [x Hx] Ha Hid Hw. unfold unblock. wpb. eapply wp_ok; [unfold get_fiber; by rewrite Hx|]. cbv beta.
  eapply wp_ok; [done|]. cbv beta. exists sp. set (s1 := set_shared _ s).
  assert (forall f, wakes s1 (sp_active sp) f = ((if decide (f = g) then 1 else 0) + wakes s (sp_active sp) f)%nat) as Ew.
  { intros f. unfold wakes, frames. cbn [s1 stack fibers conds mTaskQueue mLocalTaskQueue set_shared].
    rewrite resumes_app, cnt_app_eq, resumes_cons, cnt_cons_eq, resumes_nil, cnt_nil. lia. }
  destruct Hi as [Hrun Hdata Hcore Hb Hsh Hfr Hsz Hca Hdy Haw]. split; try done.
  - eapply core_schedule with (f := g); [done|by eexists| |].
    { change (idles s1 (sp_active sp) g) with (idles s (sp_active sp) g). rewrite Ew, decide_True by done. lia. }
    intros f Hf. by rewrite Ew, decide_False.
  - cbn. by rewrite deletions_app, Hsh.
  - intros f v r Hf. specialize (Haw f v r Hf). revert Haw. unfold away_ok. rewrite Ew. destruct r; [done| |done].
    cbn [s1 mTaskQueue set_shared]. rewrite resumes_app, cnt_app_eq, resumes_cons, cnt_cons_eq, resumes_nil, cnt_nil. lia.
Qed.

Lemma cv_make_ok size d sp s : inv size d sp s -> inv size d sp (set_conds (conds s ++ [Cond [] true false]) s).
Proof.
  intros Hi. pose proof (i_shared _ _ _ _ Hi) as Hs. apply minv_inv in Hi as [Hm Hb]. pose proof Hm as [Haux _].
  apply minv_inv. split; [|done]. set (s1 := set_conds _ s).
  assert (forall g, wakes s1 (sp_active sp) g = wakes s (sp_active sp) g) as Ew.
  { intros g. unfold wakes, frames. cbn [s1 stack fibers conds mTaskQueue mLocalTaskQueue set_conds]. rewrite n_conds_app.
    unfold n_conds at 2. cbn. rewrite cnt_nil. lia. }
  assert (forall c y, conds s !! c = Some y -> conds s1 !! c = Some y) as Hc.
  { intros c y Hy. cbn. by apply lookup_app_l_Some. }
  eapply minv_change; [done|done|done|done|..].
  - intros g. by rewrite hide_None, Ew.
  - intros c. destruct (m_dying _ _ _ _ _ Haux c) as [H1 H2]. split; [done|]. intros H. destruct (H2 H) as (y & Hy & ?). eauto.
  - intros g u r _ _. unfold away_ok. rewrite Ew. destruct r as [| |c o]; [done..|]. intros [?|(y & Hy & ?)]; [by left|right; eauto].
Qed.

Lemma moved_places e d' st acts s f : same_tokens st (stack s) ->
  idles (moved e d' st s) acts f = idles s acts f /\ wakes (moved e d' st s) acts f = wakes s acts f.
Proof.
  intros Ht. assert (same_tokens (frames (moved e d' st s) acts) (frames s acts)) as (T1 & T2 & _).
  { unfold frames. destruct Ht as (E1 & E2 & E3). unfold same_tokens. cbn. by rewrite !flat_map_app, E1, E2, E3. }
  unfold idles, wakes, n_local, n_notified, n_delete. by rewrite T1, T2.
Qed.

(** *** One call

    The code [u] that runs makes the call [c]. *)
Section OneCall.
Context (u : U) (b : list frame) (c : call U D) (d' : D) (size : nat) (d : D) (acts : list nat) (loc : gmap (option nat) (U * @mode D)) (s : state).
Hypothesis Hi : inv size d (Spec acts loc (data s)) s.
Hypothesis Hst : stack s = FUser u :: b.
Hypothesis Hc : next_call u (data s) = (d', c).

Let E : event := ECall (list.head acts) c.
Let loc' (i : nat) := partial_alter (fun _ => after i c) (list.head acts) loc.
Let goes_on (u' : U) : state := moved E d' (FUser u' :: b) s.

Lemma call_step i : base (list.head acts) b /\ spec_step (Spec acts loc (data s)) E (Spec acts (loc' i) d').
Proof.
  pose proof (i_body _ _ _ _ Hi) as Hb. cbn [sp_active sp_local] in Hb. rewrite Hst in Hb. apply body_inv in Hb as [Hbase Hl].
  split; [done|]. by eapply spec_call.
Qed.

Lemma call_tokens u' : same_tokens (FUser u' :: b) (stack s).
Proof. by rewrite Hst. Qed.

(** The code goes on, has returned, or checks a predicate. *)
Lemma call_goes_on i u' : after i c = Some (u', Go) -> inv size d (Spec acts (loc' i) d') (goes_on u').
Proof.
  intros Ha. destruct (call_step i) as [Hbase Hs]. apply moved_inv; [done|done|apply call_tokens|]. rewrite Ha. by apply body_user.
Qed.

Lemma call_returns : after 0 c = None -> inv size d (Spec acts (loc' 0) d') (moved E d' b s).
Proof.
  intros Ha. destruct (call_step 0) as [Hbase Hs]. apply moved_inv; [done|done|by rewrite Hst|]. rewrite Ha. by apply body_base.
Qed.

Lemma call_checks k g p u' : list.head acts = Some g -> after 0 c = Some (u', Check k p) ->
  inv size d (Spec acts (loc' 0) d') (moved E d' (FPred k g p :: FUser u' :: b) s).
Proof.
  intros Hg Ha. destruct (call_step 0) as [Hbase Hs]. apply moved_inv; [done|done|by rewrite Hst|]. rewrite Ha.
  rewrite Hg in *. by apply body_pred.
Qed.

(** The fiber [g] that runs is about to be suspended. *)
Lemma call_suspends g u' r : list.head acts = Some g -> after 0 c = Some (u', Away r) ->
  match r with OnCond _ (Some _) => False | _ => True end ->
  exists acts', acts = g :: acts' /\ minv (Some g) size d (Spec (g :: acts') (loc' 0) d') (goes_on u') /\
    wakes (goes_on u') (g :: acts') g = 0%nat /\ is_Some (fibers s !! g) /\ loc' 0 !! Some g = Some (u', Away r) /\
    susp g (FWait g :: FUser u' :: b) (loc' 0 !! Some g).
Proof.
  intros Hg Ha Hr. pose proof (call_step 0) as [Hbase Hs]. unfold loc', goes_on, E in *. rewrite Hg in *. clear E loc' goes_on.
  destruct acts as [|g' acts']; [done|]. injection Hg as ->. exists acts'. split; [done|].
  destruct (moved_away g _ (after 0 c) d' (FUser u' :: b) size d acts' loc s Hi Hs (call_tokens u')) as (Hm & Hw & Hf).
  split; [done|]. split; [done|]. split; [done|]. rewrite lookup_partial_alter_eq. split; [done|].
  assert (b = [FStart g; FEntry g]) as -> by (by inversion Hbase). rewrite Ha. by apply susp_user.
Qed.

(** A fiber that called [wait] before is resumed or unblocked. *)
Lemma call_interrupted g u' : interrupted s g = true ->
  (exists v, loc' 0 !! Some g = Some (v, Away Parked)) /\ is_Some (fibers (goes_on u') !! g) /\ cnt g acts = 0%nat /\
  idles (goes_on u') acts g = 0%nat /\ wakes (goes_on u') acts g = 0%nat.
Proof.
  intros Hg. destruct (interrupted_ok _ _ _ _ _ Hi Hg) as ((v & Hlg) & Hf & Ha & Hid & Hw). cbn [sp_active sp_local] in *.
  destruct (moved_places E d' (FUser u' :: b) acts s g (call_tokens u')) as [Ei Ew].
  split; [|split; [done|]; split; [done|]; split; [exact (eq_trans Ei Hid)|exact (eq_trans Ew Hw)]].
  exists v. unfold loc'. rewrite lookup_partial_alter_ne; [done|]. intros Hh.
  assert (0 < cnt g acts)%nat; [|lia]. destruct acts as [|a acts']; [done|]. injection Hh as ->. rewrite cnt_cons_eq, decide_True by done. lia.
Qed.

End OneCall.

(** Calls that suspend the fiber they are made in. *)
Lemma suspending_call_ok u b c d' size d acts loc s : inv size d (Spec acts loc (data s)) s -> stack s = FUser u :: b ->
  next_call u (data s) = (d', c) -> rule s (list.head acts) c = true ->
  match c with Yield _ _ | Wait _ _ | CvWait _ _ _ => True | _ => False end ->
  wp (run_call c) (emit (ECall (list.head acts) c) (set_data d' (set_stack b s))) (fun _ s' => exists sp', inv size d sp' s').
Proof.
  intros Hi Hst Hc Hrule Hk. destruct c as [| | |g u'|g u'| | | | | | | |c g u'| | | |]; try done; cbn [run_call rule] in *.
  - apply bool_decide_eq_true in Hrule.
    destruct (call_suspends _ _ _ _ _ _ _ _ _ Hi Hst Hc g u' Yielded Hrule eq_refl I) as (acts' & -> & Hm & Hw & Hf & Hl & Hs).
    wpb. eapply wp_ok; [done|]. cbv beta. by eapply yield_ok.
  - apply bool_decide_eq_true in Hrule.
    destruct (call_suspends _ _ _ _ _ _ _ _ _ Hi Hst Hc g u' Parked Hrule eq_refl I) as (acts' & -> & Hm & Hw & Hf & Hl & Hs).
    wpb. eapply wp_ok; [done|]. cbv beta. eapply wp_mono; [eapply leave_ok; [exact Hm|done|..]|intros ?? Hinv; eexists; exact Hinv].
    + etrans; [exact (Nat.eq_le_incl _ _ Hw)|lia].
    + intros v r Hv. rewrite Hl in Hv. injection Hv as <- <-. cbn [away_ok]. etrans; [exact (Nat.eq_le_incl _ _ Hw)|lia].
  - apply andb_true_iff in Hrule as [Hg Hu]. apply bool_decide_eq_true in Hg.
    destruct (call_suspends _ _ _ _ _ _ _ _ _ Hi Hst Hc g u' (OnCond c None) Hg eq_refl I) as (acts' & -> & Hm & Hw & Hf & Hl & Hs).
    wpb. eapply wp_ok; [done|]. cbv beta. by eapply cv_wait_ok.
Qed.

(** A call that obeys the rules keeps the invariant. *)
Lemma run_call_ok u b c d' size d acts loc s : inv size d (Spec acts loc (data s)) s -> stack s = FUser u :: b ->
  next_call u (data s) = (d', c) -> rule s (list.head acts) c = true -> c <> Raise ->
  wp (run_call c) (emit (ECall (list.head acts) c) (set_data d' (set_stack b s))) (fun _ s' => exists sp', inv size d sp' s').
Proof.
  intros Hi Hst Hc Hrule Hraise. pose proof (call_goes_on _ _ _ _ _ _ _ _ _ Hi Hst Hc) as Hgo.
  pose proof (suspending_call_ok _ _ _ _ _ _ _ _ _ Hi Hst Hc Hrule) as Hoff.
  pose proof (call_interrupted _ _ c d' _ _ _ _ _ Hi Hst) as Hint. pose proof (call_step _ _ _ _ _ _ _ _ _ Hi Hst Hc 0) as [Hbase _].
  destruct c as [| |u'|g u'|g u'|g u'|g u'|t u'|t u'|fn u'|fn u'|k|c g u'|c g p u'|c u'|c u'|c u']; try by apply Hoff.
  all: cbn [run_call rule] in *; clear Hoff; wpb; try done.
  - apply wp_ret. eexists. exact (call_returns _ _ _ _ _ _ _ _ _ Hi Hst Hc eq_refl).
  - eapply wp_ok; [done|]. eexists. exact (Hgo 0%nat u' eq_refl).
  - destruct (Hint g u' Hrule) as (_ & Hf & Ha & Hid & Hw). pose proof (proj1 (minv_inv _ _ _ _) (Hgo 0%nat u' eq_refl)) as [Hm Hbody].
    eapply wp_ok; [done|]. cbv beta. by eapply enter_ok; [by apply minv_hide|..].
  - destruct (Hint g u' Hrule) as (Hl & Hf & Ha & Hid & Hw). eapply wp_ok; [done|]. cbv beta.
    by eapply unblock_ok; [exact (Hgo 0%nat u' eq_refl)|..].
  - eapply wp_ok; [done|]. cbv beta. eapply wp_ok; [done|]. cbv beta. eexists. by apply (enqueue_ok (TFun t) _ _ _ _ (Hgo 0%nat u' eq_refl)).
  - eapply wp_ok; [done|]. cbv beta. eapply wp_ok; [done|]. cbv beta. eexists. by apply (enqueue_ok (TFun t) _ _ _ _ (Hgo 0%nat u' eq_refl)).
  - eapply wp_ok; [done|]. cbv beta. eapply wp_ok; [done|]. cbv beta. eexists. by apply (enqueue_ok (TFiber fn) _ _ _ _ (Hgo 0%nat u' eq_refl)).
  - eapply wp_ok; [done|]. cbv beta. eapply executeLocalFiber_ok. exact (Hgo 0%nat u' eq_refl).
  - eapply wp_ok; [done|]. cbv beta. eapply wp_ok; [done|]. cbv beta. eexists. exact (cv_make_ok _ _ _ _ (Hgo (length (conds s)) _ eq_refl)).
  - apply andb_true_iff in Hrule as [Hg Hu]. apply bool_decide_eq_true in Hg.
    eapply wp_ok; [done|]. cbv beta. eapply wp_ok; [done|]. cbv beta. eexists.
    exact (call_checks _ _ _ _ _ _ _ _ _ Hi Hst Hc c g p u' Hg eq_refl).
  - eapply wp_ok; [done|]. cbv beta. eapply cv_notify_one_ok; [exact (Hgo 0%nat u' eq_refl)|done].
  - eapply wp_ok; [done|]. cbv beta. eapply cv_notify_all_ok; [exact (Hgo 0%nat u' eq_refl)|done|].
    intros q. cbn. rewrite lookup_partial_alter_eq. by apply body_notify.
  - eapply wp_ok; [done|]. cbv beta. eapply cv_destroy_ok; [exact (Hgo 0%nat u' eq_refl)|done|done].
Qed.

(** The next step is a call of the application that throws. *)
Definition raises s : Prop :=
  match stack s with FUser u :: _ => snd (next_call u (data s)) = Raise | _ => False end.

Lemma fiber_step_ok size d sp s : inv size d sp s -> stack s <> [] -> allowed s = true -> ~ raises s ->
  wp step s (fun _ s' => exists sp', inv size d sp' s').
Proof.
  intros Hi Hne Hal Hr. unfold step. wpb. eapply wp_ok; [done|]. cbv beta. unfold allowed, raises in Hal, Hr.
  destruct (stack s) as [|k st] eqn:Hst; [done|]. wpb. eapply wp_ok; [done|]. cbv beta.
  pose proof (i_body _ _ _ _ Hi) as Hb. rewrite Hst in Hb. apply body_inv in Hb.
  destruct k as [u| | |c f p|q|c|q| |f|f| |]; try done.
  - destruct Hb as [Hbase _]. rewrite (base_owner _ _ Hbase) in *. pose proof Hi as Hi'. rewrite (inv_data _ _ _ _ Hi) in Hi'.
    unfold run_user. wpb. eapply wp_ok; [done|]. cbv beta. cbn [data set_stack]. destruct (next_call u (data s)) as [d' c] eqn:Ec.
    cbn [snd] in *. wpb. eapply wp_ok; [done|]. wpb. eapply wp_ok; [done|]. cbv beta. by eapply run_call_ok.
  - by apply cv_wait_pred_ok with (sp := sp).
  - by apply notify_next_ok with (sp := sp).
  - by apply cv_destroyed_ok with (sp := sp).
  - by apply local_next_ok with (sp := sp).
  - by apply shared_next_ok with (sp := sp).
  - by apply start_loop_ok with (sp := sp).
  - by apply start_returned_ok with (sp := sp).
Qed.

(** ** Reachable states *)

Lemma fibers_inv_init size d : inv size d (Spec [] ∅ d) (init size d).
Proof.
  set (s0 := init size d : state). assert (forall f, idles s0 [] f = 0%nat /\ wakes s0 [] f = 0%nat) as Hz by done.
  split; cbn [sp_active sp_local sp_data]; try done.
  - constructor.
  - split; try done; intros f; destruct (Hz f) as [Ei Ew]; rewrite ?Ei, ?Ew, ?cnt_nil; try lia; done.
  - constructor. constructor.
  - intros f [x Hx]. done.
  - cbn. lia.
  - intros c. split; [unfold frames; cbn; rewrite cnt_nil; lia|]. unfold frames. cbn. rewrite cnt_nil. lia.
Qed.

Lemma take_turn_ok t size d sp s : inv size d sp s -> stack s = [] ->
  wp (take_turn t) s (fun _ s' => exists sp', inv size d sp' s').
Proof.
  intros Hi Hst. pose proof (i_body _ _ _ _ Hi) as Hb. rewrite Hst in Hb.
  assert (sp_active sp = [] /\ sp_local sp !! None = None) as [Ha Hl].
  { inversion Hb as [w b Hbase| | | | | |]; subst. inversion Hbase; subst. destruct (sp_active sp); [|done]. done. }
  destruct t as [| |u]; cbn [take_turn].
  - by apply local_poll_ok with (sp := sp).
  - eapply wp_ok; [done|]. exists sp. apply minv_inv. cbn. rewrite Hst, Ha. cbn. rewrite Hl. split; [|constructor; constructor].
    apply minv_inv in Hi as [Hm _]. pose proof Hm as [Haux _]. eapply minv_change; [exact Hm|done|..]; rewrite ?Ha; try done.
    + apply (m_shared _ _ _ _ _ Haux).
    + intros g. unfold idles, n_delete, frames. by rewrite Hst.
    + intros g. rewrite hide_None. unfold wakes, n_local, n_notified, frames. by rewrite Hst.
    + intros c. pose proof (m_dying _ _ _ _ _ Haux c) as Hd. rewrite Ha in Hd. unfold frames in *. by rewrite Hst in Hd.
    + intros g u r _ _. unfold away_ok, wakes, n_local, n_notified, frames. by rewrite Hst.
  - wpb. eapply wp_ok; [done|]. cbv beta. eapply wp_ok; [done|]. cbv beta. eexists. apply minv_inv in Hi as [Hm _].
    assert (base None (stack s)) as Hbase by (rewrite Hst; constructor). exact (task_ok u size d sp s Hm Ha Hl Hbase).
Qed.

Lemma remote_call_ok r size d sp s : inv size d sp s -> remote_allowed s r = true ->
  wp (remote_call r) s (fun _ s' => exists sp', inv size d sp' s').
Proof.
  intros Hi Hr. destruct r as [u|fn|f]; cbn [remote_call].
  - eapply wp_ok; [done|]. eexists. by apply (enqueue_ok (TFun u) _ _ _ _ Hi).
  - eapply wp_ok; [done|]. eexists. by apply (enqueue_ok (TFiber fn) _ _ _ _ Hi).
  - destruct (interrupted_ok _ _ _ _ _ Hi Hr) as (? & ? & ? & ? & ?). by apply unblock_ok with (sp := sp).
Qed.

Lemma reach_inv size d s : reach size d s -> exists sp, inv size d sp s.
Proof.
  induction 1 as [|s s' Hs [sp Hi] Hne Hal Hstep|s t s' Hs [sp Hi] Hst Ht|s r s' Hs [sp Hi] Hr Hc].
  - eexists. apply fibers_inv_init.
  - assert (~ raises s) as Hra.
    { unfold raises. destruct (stack s) as [|[u| | | | | | | | | | |] st] eqn:E; try tauto. intros Hr. unfold step, bind in Hstep. cbn in Hstep.
      rewrite E in Hstep. unfold run_user, bind in Hstep. cbn in Hstep. destruct (next_call u (data s)) as [d' c]. cbn in *. by subst c. }
    pose proof (fiber_step_ok _ _ _ _ Hi Hne Hal Hra) as Hwp. unfold wp in Hwp. by rewrite Hstep in Hwp.
  - pose proof (take_turn_ok t _ _ _ _ Hi Hst) as Hwp. unfold wp in Hwp. by rewrite Ht in Hwp.
  - pose proof (remote_call_ok r _ _ _ _ Hi Hr) as Hwp. unfold wp in Hwp. by rewrite Hc in Hwp.
Qed.

(** Where a fiber is when the poll loop is between two calls. *)
Definition at_rest (sp : @spec U D) s (f : nat) (x : fiber) : Prop :=
  match sp_local sp !! Some f with
  | None => mFun x = None /\ (f ∈ mFiberCache s \/ TDelete f ∈ mLocalTaskQueue s)
  | Some (_, Away Yielded) => TResume f ∈ mLocalTaskQueue s
  | Some (_, Away Parked) => True
  | Some (_, Away (OnCond c _)) => exists y, conds s !! c = Some y /\ (cv_alive y = true -> f ∈ mWaiting y)
  | Some _ => False
  end.

Lemma in_resumes f (l : list task) : (0 < cnt f (resumes l))%nat -> TResume f ∈ l.
Proof.
  induction l as [|t l IH]; [rewrite resumes_nil, cnt_nil; lia|]. rewrite resumes_cons, elem_of_cons. destruct t; try (by right; auto).
  rewrite cnt_cons_eq. case_decide; [subst; by left|]. right. apply IH. lia.
Qed.

Lemma in_deletions f (l : list task) : (0 < cnt f (deletions l))%nat -> TDelete f ∈ l.
Proof.
  induction l as [|t l IH]; [rewrite deletions_nil, cnt_nil; lia|]. rewrite deletions_cons, elem_of_cons. destruct t; try (by right; auto).
  rewrite cnt_cons_eq. case_decide; [subst; by left|]. right. apply IH. lia.
Qed.

Lemma inv_at_rest size d sp s f x : inv size d sp s -> stack s = [] -> fibers s !! f = Some x ->
  sp_active sp = [] /\ at_rest sp s f x.
Proof.
  intros [Hrun Hdata Hcore Hb Hsh Hfr Hsz Hca Hdy Haw] Hst Hx. rewrite Hst in Hb.
  assert (sp_active sp = []) as Ha.
  { inversion Hb as [w b Hbase| | | | | |]; subst. inversion Hbase; subst. by destruct (sp_active sp). }
  split; [done|]. rewrite Ha in *. assert (frames s [] = []) as Ef by (unfold frames; by rewrite Hst).
  unfold at_rest. destruct (c_susp _ _ _ _ _ Hcore f x Hx) as [Hp|(Hfun & _ & st & _ & Hs)].
  - rewrite cnt_nil in Hp. destruct (c_idle _ _ _ _ _ Hcore f) as (Hl & y & Hy & Hfun & _); [lia|]. rewrite Hl.
    rewrite Hx in Hy. injection Hy as <-. split; [done|]. unfold idles, n_delete in Hp. rewrite Ef in Hp. cbn [flat_map] in Hp. rewrite deletions_nil, cnt_nil in Hp.
    destruct (decide (f ∈ mFiberCache s)) as [|Hn]; [by left|]. right. apply in_deletions. apply cnt_zero in Hn. lia.
  - destruct (sp_local sp !! Some f) as [[u m]|] eqn:El; [|by inversion Hs].
    assert (exists r, m = Away r) as [r ->] by (inversion Hs; eauto). specialize (Haw f u r El).
    unfold away_ok, n_local, n_notified in Haw. rewrite Ef in Haw. cbn [flat_map] in Haw. destruct r as [| |c o].
    + apply in_resumes. rewrite resumes_nil, cnt_nil in Haw. lia.
    + done.
    + rewrite cnt_nil in Haw. destruct Haw as [?|?]; [lia|done].
Qed.

(** Every fiber is in one queue at most. *)
Lemma inv_one_place size d sp s : inv size d sp s ->
  NoDup (mFiberCache s ++ deletions (mLocalTaskQueue s) ++ resumes (mLocalTaskQueue s) ++ resumes (mTaskQueue s) ++ flat_map mWaiting (conds s)).
Proof.
  intros [_ _ Hcore _ _ _ _ _ _ _]. apply cnt_NoDup. intros f. pose proof (c_once _ _ _ _ _ Hcore f) as Ho.
  unfold idles, wakes, n_delete, n_local, n_conds in Ho. rewrite !cnt_app_eq. lia.
Qed.

Lemma inv_cached size d sp s f : inv size d sp s -> f ∈ mFiberCache s -> exists x, fibers s !! f = Some x /\ mFun x = None.
Proof.
  intros [_ _ Hcore _ _ _ _ _ _ _] Hf. apply cnt_in in Hf. destruct (c_idle _ _ _ _ _ Hcore f) as (_ & x & Hx & Hfun & _); [unfold idles; lia|].
  eauto.
Qed.

Lemma step_raises s : raises s -> exists s', step s = Throw RuntimeError s'.
Proof.
  unfold raises. destruct (stack s) as [|[u| | | | | | | | | | |] st] eqn:E; try done. intros Hr. unfold step, bind. cbn. rewrite E.
  unfold run_user, bind. cbn. destruct (next_call u (data s)) as [d' c]. cbn in *. subst c. by eexists.
Qed.

(** ** Runs *)

Inductive move := MStep | MTurn (t : @turn U) | MRemote (r : remote).

Definition run_move (v : move) s : option state :=
  match v with
  | MStep => match stack s with [] => None | _ => if allowed s then final (step s) else None end
  | MTurn t => match stack s with [] => final (take_turn t s) | _ => None end
  | MRemote r => if remote_allowed s r then final (remote_call r s) else None
  end.

Fixpoint run_moves (l : list move) s : option state :=
  match l with
  | [] => Some s
  | v :: l => match run_move v s with Some s' => run_moves l s' | None => None end
  end.

Lemma final_ok (o : outcome state unit) s' : final o = Some s' -> o = Ok tt s'.
Proof. destruct o as [[]|?|?|]; cbn; congruence. Qed.

Lemma run_moves_reach size d l s s' : reach size d s -> run_moves l s = Some s' -> reach size d s'.
Proof.
  revert s. induction l as [|v l IH]; intros s Hs; cbn [run_moves]; [by intros [= <-]|].
  destruct (run_move v s) as [s1|] eqn:E; [|done]. apply IH. destruct v as [|t|r]; cbn [run_move] in E.
  - destruct (stack s) eqn:Est; [done|]. destruct (allowed s) eqn:Ea; [|done]. apply final_ok in E. eapply reach_step; try done. by rewrite Est.
  - destruct (stack s) eqn:Est; [|done]. apply final_ok in E. by eapply reach_turn.
  - destruct (remote_allowed s r) eqn:Er; [|done]. apply final_ok in E. by eapply reach_remote.
Qed.

End Calls.

(** ** Theorems *)

(** C13: Switching between fibers is safe.  In every state of a poll thread whose application obeys the rules of the interface
    ([wait] and [yield] from within the fiber, [resume] and [unblock] on a fiber that called [wait], condition variables
    while they exist), the next step runs to its end unless the application throws, the poll loop can call any poller and other
    threads can make their calls: no assertion of [Fiber] fails, no stale context is entered and no deleted fiber or
    condition variable is used.  No fiber is in two queues, or twice in one, and the cache holds at most [size] fibers that
    have no function. *)
Theorem fiber_switches_safe {U D} `{Application U D} size d (s : @Fib.state U D) : reach size d s ->
  (stack s <> [] -> allowed s = true -> (exists s', step s = Ok tt s') \/ (raises s /\ exists s', step s = Throw RuntimeError s')) /\
  (stack s = [] -> forall t, exists s', take_turn t s = Ok tt s') /\
  (forall r, remote_allowed s r = true -> exists s', remote_call r s = Ok tt s') /\
  NoDup (mFiberCache s ++ deletions (mLocalTaskQueue s) ++ resumes (mLocalTaskQueue s) ++ resumes (mTaskQueue s) ++
    flat_map mWaiting (conds s)) /\
  (length (mFiberCache s) <= size)%nat /\
  (forall f, f ∈ mFiberCache s -> exists x, fibers s !! f = Some x /\ mFun x = None).
Proof.
  intros [sp Hi]%reach_inv. split_and!.
  - intros Hne Hal. assert (raises s \/ ~ raises s) as [Hr|Hr].
    { unfold raises. destruct (stack s) as [|[u| | | | | | | | | | |] ?]; try tauto. destruct (snd (next_call u (data s))); (by left) || (by right). }
    + right. split; [done|]. by apply step_raises.
    + left. destruct (wp_inv _ _ _ (fiber_step_ok _ _ _ _ Hi Hne Hal Hr)) as ([] & s' & ? & _). eauto.
  - intros Hst t. destruct (wp_inv _ _ _ (take_turn_ok t _ _ _ _ Hi Hst)) as ([] & s' & ? & _). eauto.
  - intros r Hr. destruct (wp_inv _ _ _ (remote_call_ok r _ _ _ _ Hi Hr)) as ([] & s' & ? & _). eauto.
  - by eapply inv_one_place.
  - apply (i_cache _ _ _ _ Hi).
  - intros f. by eapply inv_cached.
Qed.

(** C12: The fibers of a poll thread are coroutines: what can be observed in any state is a run of the specification, in which
    every fiber is a sequential computation that continues where it left off, only the innermost active fiber makes calls,
    and a wait with a predicate ends when the predicate holds.  When the poll loop is between two calls no fiber is active,
    and every one is where its wake-up needs it: one that returned is in the cache or will be deleted, one that
    yielded is in the local task queue, one that waits in a condition variable is in the queue of that variable as long as
    the variable exists. *)
Theorem fibers_are_coroutines {U D} `{Application U D} size d (s : @Fib.state U D) : reach size d s ->
  exists sp, spec_run d (log s) sp /\ sp_data sp = data s /\
    (stack s = [] -> forall f x, fibers s !! f = Some x -> sp_active sp = [] /\ at_rest sp s f x).
Proof.
  intros [sp Hi]%reach_inv. exists sp. split; [apply (i_run _ _ _ _ Hi)|]. split; [apply (i_data _ _ _ _ Hi)|].
  intros Hst f x Hx. by eapply inv_at_rest.
Qed.

(** ** An application *)

Module Demo.

(** Straight-line code over a shared counter. *)
Inductive code := Code (change : nat -> nat) (c : call code nat).
#[global] Instance application : Application code nat := fun u d => match u with Code change c => (change d, c) end.

Definition halt : code := Code id Return.
Definition waiter (c g : nat) : code := Code id (CvWaitPred c g (fun d => (1 <=? d)%nat) halt).
Definition producer (c g : nat) : code := Code id (Yield g (Code S (NotifyAll c halt))).

(** A condition variable, a fiber that waits for the counter to be positive, and one that yields, increments it and
    notifies. *)
Definition setup : code :=
  Code id (CvMake (fun c => Code id (ExecuteLocalFiber (waiter c) (Code id (ExecuteLocalFiber (producer c) halt))))).

Definition after (l : list (@move code)) : option (@Fib.state code nat) := run_moves l (init 1 0%nat).
Definition steps (n : nat) : list (@move code) := repeat MStep n.

(** The setup has run; then the local queue has been polled. *)
Definition prepared : list (@move code) := MTurn (Callback setup) :: steps 9.
Definition polled (n : nat) : list (@move code) := prepared ++ MTurn PollLocal :: steps n.

(** The fiber waits and the condition variable is destroyed; the predicate is still false. *)
Definition abandoned : list (@move code) :=
  MTurn (Callback (Code id (CvMake (fun c => Code id (ExecuteLocalFiber (waiter c) halt))))) :: steps 6 ++
  MTurn (Callback (Code id (CvDestroy 0 halt))) :: steps 5.

(** The moves can be made, and the state behind them passes the test [p]. *)
Definition passes (p : @Fib.state code nat -> bool) (l : list (@move code)) : bool :=
  match after l with Some s => p s | None => false end.

Lemma passes_reach p l : passes p l = true -> exists s, after l = Some s /\ reach 1 0%nat s /\ p s = true.
Proof.
  unfold passes. destruct (after l) as [s|] eqn:E; [|done]. intros Hp. exists s. split; [done|]. split; [|done].
  exact (run_moves_reach _ _ _ _ _ (reach_init 1 0%nat) E).
Qed.

Definition nonempty {A} (l : list A) : bool := match l with [] => false | _ => true end.

End Demo.

Lemma fiber_switches_safe_witness : exists s, Demo.after (Demo.polled 2) = Some s /\ owner (stack s) = Some 0%nat /\
  NoDup (mFiberCache s ++ deletions (mLocalTaskQueue s) ++ resumes (mLocalTaskQueue s) ++ resumes (mTaskQueue s) ++
    flat_map mWaiting (conds s)) /\
  ((exists s', step s = Ok tt s') \/ raises s).
Proof.
  destruct (Demo.passes_reach (fun s => bool_decide (owner (stack s) = Some 0%nat) && Demo.nonempty (stack s) && allowed s)%bool (Demo.polled 2))
    as (s & E & Hr & [[Ho Hne]%andb_true_iff Hal]%andb_true_iff); [vm_compute; reflexivity|].
  exists s. split; [exact E|]. clear E. split; [by apply bool_decide_eq_true in Ho|].
  destruct (fiber_switches_safe 1 0%nat s Hr) as (H & _ & _ & Hn & _). split; [exact Hn|].
  destruct H as [Hs|[? _]]; [destruct (stack s); done|exact Hal|by left|by right].
Defined.

Lemma fibers_are_coroutines_witness : exists s sp, Demo.after Demo.prepared = Some s /\ spec_run 0%nat (log s) sp /\ length (log s) = 14%nat /\
  stack s = [] /\ forall f x, fibers s !! f = Some x -> at_rest sp s f x.
Proof.
  destruct (Demo.passes_reach (fun s => bool_decide (length (log s) = 14%nat) && negb (Demo.nonempty (stack s)))%bool Demo.prepared)
    as (s & E & Hr & [Hl Hst]%andb_true_iff); [vm_compute; reflexivity|].
  destruct (fibers_are_coroutines 1 0%nat s Hr) as (sp & Hrun & _ & Hrest).
  assert (stack s = []) as Hs by (clear -Hst; destruct (stack s); done).
  exists s, sp. split; [exact E|]. clear E. split; [exact Hrun|]. split; [by apply bool_decide_eq_true in Hl|]. split; [exact Hs|].
  intros f x Hx. by destruct (Hrest Hs f x Hx).
Defined.

(** Destroying a condition variable wakes its waiters, but one whose predicate is false waits again in the variable that is
    being destroyed: afterwards no queue has its wake-up, and by the rules nobody may resume it. *)
Theorem destroyed_condition_strands : exists s, reach 1 0%nat s /\ Demo.after Demo.abandoned = Some s /\ stack s = [] /\
  mLocalTaskQueue s = [] /\ mTaskQueue s = [] /\ flat_map mWaiting (conds s) = [] /\ mFiberCache s = [] /\
  (exists x, fibers s !! 0%nat = Some x /\ empty x = false) /\ interrupted s 0 = false.
Proof.
  destruct (Demo.passes_reach (fun s =>
      negb (Demo.nonempty (stack s) || Demo.nonempty (mLocalTaskQueue s) || Demo.nonempty (mTaskQueue s) ||
        Demo.nonempty (flat_map mWaiting (conds s)) || Demo.nonempty (mFiberCache s) || interrupted s 0) &&
      match fibers s !! 0%nat with Some x => negb (empty x) | None => false end)%bool Demo.abandoned) as (s & E & Hr & Hp);
    [vm_compute; reflexivity|].
  exists s. split; [exact Hr|]. split; [exact E|]. clear E Hr.
  apply andb_true_iff in Hp as [Hq%negb_true_iff Hx]. repeat (apply orb_false_iff in Hq as [Hq ?]).
  repeat match goal with H : Demo.nonempty ?l = false |- _ => assert (l = []) by (by destruct l); clear H end.
  split_and!; try done. destruct (fibers s !! 0%nat) as [x|]; [|done]. exists x. split; [done|]. by apply negb_true_iff.
Qed.
