(* ===== verification/RpcVoid.v ===== *)
(** * Responses without a result

    [RpcResponseResult<Handler, void>] of [libs/infinio/include/crossbow/infinio/RpcClient.hpp]: a response that only says
    whether its request failed.  It has no state but an error code, so that an error whose number is 0 counts as
    success ([void_error_zero]); a handler that does nothing succeeds, where [RpcResponseResult] with a result reports a
    broken promise. *)

From S2P Require Import Prelude Memory ByteBuffer ErrorCode IbBuffer IbSocket Batching BatchingSpec RpcClient.

Module Void.

(** What [processResponse] of a derived class does: it may set the error. *)
Inductive action := SetError (ec : error_code) | Nothing.

Class VoidHandler := {
  MessageType : nat -> Z;
  processResponse : nat -> buffer_reader -> St mem (buffer_reader * action)
}.

Record response := Response { mFiber : nat; kind : nat; mPending : bool; mWaiting : bool; mError : error_code }.

Section Response.
Context `{VoidHandler}.
Abbreviation M := (St (world (list response))).
Implicit Types (r : nat) (w : world (list response)).

Definition put_responses (l : list response) w : world (list response) := World (w_net w) (w_sock w) (w_tasks w) l.
Definition get_response r : M response := fun w => match w_user w !! r with Some x => Ok x w | None => UB end.
Definition mod_response r (g : response -> response) : M unit := fun w => Ok tt (put_responses (alter g r (w_user w)) w).
Definition r_pending (b : bool) (x : response) := Response (mFiber x) (kind x) b (mWaiting x) (mError x).
Definition r_error (ec : error_code) (x : response) := Response (mFiber x) (kind x) (mPending x) (mWaiting x) ec.

(** [std::make_shared<Response>(fiber)]; a default [std::error_code] is empty. *)
Definition make (f k : nat) : M nat := fun w =>
  Ok (length (w_user w)) (put_responses (w_user w ++ [Response f k true false no_error]) w).

Section WithResume.
Context (resume : nat -> M unit).

Definition notify r : M unit :=
  let! x := get_response r in
  if mWaiting x then resume (mFiber x) else ret tt.

Definition complete r : M unit :=
  let! x := get_response r in
  do! massert (mPending x) in
  do! mod_response r (r_pending false) in
  notify r.

Definition setError r (ec : error_code) : M unit := mod_response r (r_error ec).

Definition onAbort r (ec : error_code) : M unit :=
  let! x := get_response r in
  do! massert (mPending x) in
  do! mod_response r (r_error ec) in
  complete r.

Definition onResponse r (messageType : Z) (message : buffer_reader) : M buffer_reader :=
  let! x := get_response r in
  do! massert (mPending x) in
  if messageType =? ERROR_MESSAGE then
    let! (v, message) := in_mem (reader_read 8 message) in
    do! onAbort r (ErrorCode (to_signed 32 v) user_category) in
    ret message
  else if negb (messageType =? MessageType (kind x)) then
    do! onAbort r (rpc_error_code wrong_type) in
    ret message
  else
    let! (message, a) := in_mem (processResponse (kind x) message) in
    do! match a with SetError ec => setError r ec | Nothing => ret tt end in
    do! complete r in
    ret message.

End WithResume.

(** [waitForResult] and [error] of a fiber that need not wait: [None] when the response is pending, and the fiber
    is suspended. *)
Definition waitForResult r w : option bool :=
  match w_user w !! r with
  | Some x => if mPending x then None else Some (negb (ec_bool (mError x)))
  | None => None
  end.
Definition error r w : option error_code :=
  match w_user w !! r with
  | Some x => if mPending x then None else Some (mError x)
  | None => None
  end.

(** The response [r] completed with [ec]; the fiber that waits for it goes on. *)
Definition completed (resume : nat -> M unit) r (x : response) (ec : error_code) w : outcome (world (list response)) unit :=
  (if mWaiting x then resume (mFiber x) else ret tt)
    (put_responses (<[r := Response (mFiber x) (kind x) false (mWaiting x) ec]> (w_user w)) w).

(** What a reply means: its error code (none is success) and where the reader is behind it. *)
Definition meaning (k : nat) (messageType : Z) (message : buffer_reader) : St mem (buffer_reader * option error_code) :=
  if messageType =? ERROR_MESSAGE then
    let! (v, message) := reader_read 8 message in
    ret (message, Some (ErrorCode (to_signed 32 v) user_category))
  else if negb (messageType =? MessageType k) then ret (message, Some (rpc_error_code wrong_type))
  else
    let! (message, a) := processResponse k message in
    ret (message, match a with SetError ec => Some ec | Nothing => None end).

Lemma alter_lookup (l : list response) r x (g : response -> response) : l !! r = Some x -> alter g r l = <[r := g x]> l.
Proof.
  intros Hx. apply list_eq. intros i. destruct (decide (r = i)) as [->|Hi].
  - rewrite list_lookup_alter_eq, Hx, list_lookup_insert_eq; [done|]. by eapply lookup_lt_Some.
  - by rewrite list_lookup_alter_ne, list_lookup_insert_ne.
Qed.

Lemma insert_self (l : list response) r x y : l !! r = Some x -> <[r := y]> l !! r = Some y.
Proof. intros Hx. apply list_lookup_insert_eq. by eapply lookup_lt_Some. Qed.

Lemma complete_eq resume r x w : w_user w !! r = Some x -> mPending x = true ->
  complete resume r w = completed resume r x (mError x) w.
Proof.
  intros Hx Hp. unfold complete, bind, get_response. rewrite Hx. cbn. rewrite Hp. cbn.
  unfold notify, bind, get_response. cbn. rewrite (alter_lookup _ _ _ _ Hx), (insert_self _ _ _ _ Hx). done.
Qed.

Lemma onAbort_eq resume r x ec w : w_user w !! r = Some x -> mPending x = true ->
  onAbort resume r ec w = completed resume r x ec w.
Proof.
  intros Hx Hp. unfold onAbort, bind, get_response. rewrite Hx. cbn. rewrite Hp. cbn.
  rewrite (alter_lookup _ _ _ _ Hx). rewrite (complete_eq resume r (r_error ec x)); [|cbn; by apply (insert_self _ _ x)|done].
  unfold completed. cbn. by rewrite list_insert_insert_eq.
Qed.

(** [onResponse] completes a pending response with what the reply means, whatever the fiber it resumes does next, and an
    error that was set before the reply arrived stays when the reply is a success. *)
Theorem void_response_completes resume r ty rd x w rd' o m : w_user w !! r = Some x -> mPending x = true ->
  meaning (kind x) ty rd (w_mem w) = Ok (rd', o) m ->
  exists w', w_user w' = w_user w /\ w_mem w' = m /\
    onResponse resume r ty rd w =
      match completed resume r x (default (mError x) o) w' with
      | Ok _ w'' => Ok rd' w''
      | Throw e w'' => Throw e w''
      | UB => UB
      | NoFuel => NoFuel
      end.
Proof.
  intros Hx Hp Hm. unfold onResponse, bind at 1, get_response. rewrite Hx. cbn. rewrite Hp. cbn. unfold meaning in Hm.
  destruct (ty =? ERROR_MESSAGE).
  - unfold bind in Hm. destruct (reader_read 8 rd (w_mem w)) as [[v rd1] m1|e m1| |] eqn:Er; try done. cbn in Hm. injection Hm as <- <- <-.
    exists (with_mem m1 w). split; [done|]. split; [done|]. unfold bind at 1. rewrite (in_mem_ok _ _ _ _ Er). cbn.
    unfold bind. rewrite (onAbort_eq _ _ x); [|done|done]. by destruct (completed _ _ _ _ _).
  - destruct (negb (ty =? MessageType (kind x))).
    + injection Hm as <- <- <-. exists w. split; [done|]. split; [done|]. unfold bind. rewrite (onAbort_eq _ _ x); [|done|done].
      by destruct (completed _ _ _ _ _).
    + unfold bind in Hm. destruct (processResponse (kind x) rd (w_mem w)) as [[rd1 a] m1|e m1| |] eqn:Er; try done. cbn in Hm.
      injection Hm as <- <- <-. exists (with_mem m1 w). split; [done|]. split; [done|].
      unfold bind at 1. rewrite (in_mem_ok _ _ _ _ Er). destruct a as [ec|]; unfold bind; cbn.
      * rewrite (alter_lookup _ _ _ _ Hx), (complete_eq _ _ (r_error ec x)); [|cbn; by apply (insert_self _ _ x)|done].
        unfold completed. cbn. rewrite list_insert_insert_eq. destruct (mWaiting x); [|done]. by destruct (resume _ _).
      * rewrite (complete_eq _ _ x); [|done|done]. by destruct (completed _ _ _ _ _).
Qed.

(** An error reply whose number has 32 low zero bits is a success for the fiber that waits. *)
Theorem void_error_zero resume r rd x w v rd' m : w_user w !! r = Some x -> mPending x = true -> mWaiting x = false ->
  reader_read 8 rd (w_mem w) = Ok (v, rd') m -> v mod 2 ^ 32 = 0 ->
  exists w', onResponse resume r ERROR_MESSAGE rd w = Ok rd' w' /\ waitForResult r w' = Some true.
Proof.
  intros Hx Hp Hw Hr Hv.
  destruct (void_response_completes resume r ERROR_MESSAGE rd x w rd' (Some (ErrorCode (to_signed 32 v) user_category)) m Hx Hp)
    as (w' & Hu & _ & Heq); [unfold meaning; rewrite Z.eqb_refl; unfold bind; by rewrite Hr|].
  rewrite Heq. unfold completed. rewrite Hw. cbn. eexists. split; [done|]. unfold waitForResult. cbn. rewrite Hu, (insert_self _ _ _ _ Hx).
  cbn. unfold ec_bool, to_signed, wrap. cbn. by rewrite Hv.
Qed.

End Response.
End Void.
